(* ===== verification/_CoqProject ===== *)
-Q . S2P
Prelude.v
CppStd.v
Wire.v
Common.v
PfnAddress.v
X64PageTable.v
MemoryBackend.v
MockMemoryBackend.v
EditBuffer.v
PageSession.v
PageTransaction.v
PageSessionMock.v
PageSessionTheorems.v
PageSessionProtocol.v
VerifiedWriter.v
ProcessMemory.v
ProcessSession.v
ProcessSessionTheorems.v
ProcessSessionWrites.v
PointerResolver.v
AobPattern.v
ValueCodec.v
ValueCodecTheorems.v
MemoryScanner.v
ReverseMapper.v
ReverseMapperEntry.v
ReverseMapperTheorems.v
ReverseMapperQuery.v
FileSystem.v
Iostream.v
Crc32.v
MemorySnapshot.v
SnapshotFile.v
SnapshotRoundTrip.v
ScanTheorems.v
KernelDriver.v
KernelDispatch.v
KernelOwner.v
KernelGate.v
KernelCas.v
KDbgBackend.v
LiveBackend.v
LiveSession.v
LiveApply.v
LiveOpen.v
WatchList.v
WatchTheorems.v
WatchInvariant.v
WatchFileTheorems.v
AddressList.v
AddressTheorems.v
AddressInvariant.v
AddressFileTheorems.v
PointerScanner.v
PointerScanLevel.v
PointerScanTheorems.v
KDbgProbe.v
ProbeTheorems.v
Host.v
Paths.v
MemProcFs.v
MemProcFsBridge.v
CommandLine.v
BridgeTheorems.v
BridgeProtocol.v
BridgeSupervisor.v
SupervisorTheorems.v
SupervisorTermination.v
BridgeDemo.v
KernelModule.v
KernelCatalog.v
KernelCatalogTheorems.v
SymbolResolver.v
SymbolTheorems.v
KernelDemo.v
DriverService.v
ServiceTheorems.v
ServiceRestore.v
Win32Process.v
Win32ProcessTheorems.v
