(* ===== verification/Prelude.v ===== *)
(** * KDBG: a verification development for the KDBG memory workbench

    KDBG inspects and edits the memory of a Windows machine.  A kernel driver
    ([src/driver/KDbgDriver]) gives one user-mode process access to physical, process
    and kernel memory through device-control requests; a write needs a one-shot gate
    that an explicit acknowledgement opens.  The user-mode core ([src/core]) reaches
    memory through the interface [IMemoryBackend] and builds on it: editing sessions
    on a physical page or a process range with verified writes and rollback, value
    and pattern scanning, pointer chains, page-table reverse mapping, snapshots.  The
    user interface and the command-line tools drive these components.

    ** Components, files and what is proved

    - [Prelude]: record update, machine integers (widths written out as [u8] to
      [u64]), byte lists, memory as a function from addresses to bytes
      ([mem_bytes], [mem_store]), shared lemmas and tactics.  [CppStd]:
      [std::from_chars], number printing, little-endian loads and stores.
    - [Common]: [core/common] (Result, Error) and [core/model].
    - [PfnAddress], [X64PageTable]: [core/pfn/PfnAddress], [core/paging].  Round trips
      of printing and parsing, of address decoding, and range bounds.
    - [MemoryBackend]: [IMemoryBackend] as a class of operations with its inherited
      defaults, and the laws ([BackendSpec]) clients rely on; [MockMemoryBackend]
      implements the class and satisfies the laws.
    - [EditBuffer], [PageSession]: [PhysicalPageSession]; the state is the record
      [Session], one definition per method.  [PageTransaction] (every public call keeps
      the state well formed; the common sequence of both transactions) and
      [PageSessionTheorems] (apply and rollback tell the truth about memory, never write
      while locked, close the gate on every path, recover after an indeterminate
      outcome), [PageSessionProtocol] (undo, diff runs and the exact backend calls),
      [PageSessionMock] (the session over the mock).
    - [VerifiedWriter]: [VerifiedWriter.cpp], the arm token and the generic write.
    - [ProcessMemory], [ProcessSession], [ProcessSessionTheorems],
      [ProcessSessionWrites]: [IProcessMemory], its mock and [ProcessMemorySession],
      with the same kinds of theorems and the exact writes of an apply.
    - [Win32Process], [Win32ProcessTheorems]: [core/process/Win32ProcessMemory] and
      [ProcessCatalog].  An attached process satisfies the laws of [IProcessMemory],
      whether it is read through Windows or through the driver; a write is one shot and
      closes the driver's gate; the regions are the memory map; the catalog is exact.
    - [PointerResolver]: resolution equals following the path in unbounded arithmetic.
    - [AobPattern], [ValueCodec], [ValueCodecTheorems], [MemoryScanner], [ScanTheorems]:
      [core/scanner].  Patterns are accepted exactly by their grammar; values round-trip;
      UTF-8 is transcoded exactly; a chunked scan finds exactly the matching addresses,
      and a batched next scan keeps exactly the matching candidates.
    - [ReverseMapper] models [PageTableReverseMapper]; [ReverseMapperEntry] (with the
      reference page walk), [ReverseMapperTheorems], [ReverseMapperQuery] prove that a
      query reports exactly the pages that translate to the frame, and run it on a
      concrete set of tables.
    - [Crc32], [MemorySnapshot], [SnapshotFile], [SnapshotRoundTrip]: [core/snapshot].
      The table-driven checksum is the bitwise CRC-32; capture and diff are exact; saving
      is atomic whatever operation of the file system fails; the loader accepts exactly
      the encodings and detects a changed byte.
    - [KernelDriver], [KernelDispatch]: [Driver.cpp] and [shared/KDbgIoctl.h], with the
      Windows kernel as the class [Kernel].  [KernelOwner] (a step relation of opens,
      requests, cleanups and closes; in every reachable state there is one owner),
      [KernelGate] (for every kernel, a store happens only through an open, owned,
      acknowledged gate, and a write request consumes it), [KernelCas] (compare/write
      is an atomic compare-and-exchange, against the laws [KernelSpec]; a kernel that
      satisfies them).
    - [KDbgBackend]: [core/memory/KDbgBackend], which turns the calls of
      [IMemoryBackend] into requests encoded by [Wire], over a class of devices.
      [LiveBackend] is the device that hands those bytes to the driver model; with
      [LiveSession] it shows that client, driver and kernel together satisfy what the
      editing session relies on.  [LiveApply]: applying an edited page through the whole
      stack is a compare-and-exchange of that page.  [LiveOpen]: the handshake, and the
      stack on a concrete machine.
    - [WatchList]: [core/scanner/WatchList] and its binary file; [WatchTheorems] (exact
      writes, disarming), [WatchInvariant] (every reachable table, loaded from any bytes,
      is well formed), [WatchFileTheorems] (atomic save, round trip, and a table too large
      to be loaded again).
    - [AddressList]: [core/address/AddressList] and its text file, over the formatted
      streams of [Iostream]; [AddressTheorems], [AddressInvariant], [AddressFileTheorems]
      show the same kinds of facts.
    - [PointerScanner]: [core/scanner/PointerScanner].  [PointerScanLevel] (sorting,
      binary search, duplicates and one level of the search), [PointerScanTheorems]: what
      a scan returns are paths to the target, and an undisturbed scan returns all of them.
    - [KDbgProbe], [ProbeTheorems]: [driver/KDbgProbe/Driver.cpp],
      [shared/KDbgProbeIoctl.h] and [core/memory/ProbeClient]: one owner, and fill, reset
      and query do what they say.
    - [FileSystem], [Iostream]: the file operations and streams that the savers and
      loaders share; [FileSystem] also has the temporary sibling and the atomic replace.
      [Paths]: lexical operations on Windows paths.
    - [Host]: what the wrappers of Windows share.  A system is a class of calls with
      answers; a function with early returns is a computation in the monad [Exec]; [triple]
      relates its states before and after; a [Logged] system remembers its calls, so that a
      theorem about it holds for every system; [rounds] repeats a loop.
    - [MemProcFs], [BridgeSupervisor]: [core/pfn/MemProcFsProvider], which asks another
      process, the bridge ([MemProcFsBridge]: [plugins/memprocfs_bridge/main.cpp]), who
      uses a page frame.  [CommandLine], [BridgeTheorems]: the configuration arrives
      through the quoted command line as it was given.  [BridgeProtocol]: what the bridge
      prints, the provider reads.  [SupervisorTheorems]: no handle is lost, the process
      runs only in a job that dies with its handle, the output is complete and bounded.
      [SupervisorTermination]: the supervision ends.  [BridgeDemo]: witnesses.
    - [KernelModule], [KernelCatalog], [KernelCatalogTheorems]: the PE header reader and
      [core/kernel/KernelModuleCatalog]: the list is exact, and the debug privilege is held
      only for the call.  [SymbolResolver], [SymbolTheorems]: [LocalSymbolResolver] keeps
      DbgHelp's protocol, and a module stays loaded exactly with a proof of its PDB.
      [KernelDemo]: witnesses.
    - [DriverService]: [core/windows/DriverService].  [ServiceTheorems]: handles are used
      within their rights, closed in order and never lost; success rests on what was
      observed.  [ServiceRestore]: against the laws of a service database, a
      configuration is restored as it was read; with a clock, the waits end.

    ** Conventions

    Mutable objects are records and methods are functions on them; effects thread the
    state of the backend, the process, the file system, the system or the kernel.  Errors
    are values of [Result], kernel errors NTSTATUS numbers.  Bytes are integers in
    [list Z]; 64-bit address arithmetic wraps where the source wraps and is guarded where
    it guards.  Code outside the repository is a class whose laws are named: the backends,
    the page-table reader, the file system (every operation may fail), [strtold] and the
    stream inserter for floating point (values themselves are IEEE, [SpecFloat]), the
    kernel, the device the client talks to, [std::sort] (any sorting permutation), Windows
    (answers to calls, and for some theorems their documented laws: the steady clock, image
    files, the service database, process instances and memory maps), its conversions
    between UTF-16 and UTF-8 ([WideText], [LossyText]), its splitting of command lines.  A
    conversion of a path that throws is [None].  A stop token is the function from the
    number of polls so far to its answer.

    Loops that are not structural have fuel, and the theorems show that it is enough:
    the size plus one for diff runs, patterns, UTF-8, snapshot diffs and symbol paths; the
    number of chunks plus two for capture, save, load and the windows of both scanners; the
    number of existing files plus one for the search of a free temporary name; the pages of
    the transfer plus three for physical writes (a request is confined to one page); the
    bytes of the file plus one for the rows of an address list.  [rounds k] makes up to
    [2 ^ k] rounds: 24 for an output of at most 8 MiB read by at least a byte a round, 65
    for the addresses of a process, 96 and 64 for the loops that end by the clock (the time
    left is less than that many nanoseconds), 64 for a file read in blocks and for a list
    the system enumerates (these two are not shown to end; the model then reports an
    internal error).

    ** Not modelled

    Threads, mutexes and callbacks that only observe progress (calls are sequential, a
    driver request is one step); failure of memory allocation in user mode; the unloading
    of the drivers and the device set-up of the main one; the choice of the packaged bridge
    path and the loading of shell32; the process-wide lock of DbgHelp; telemetry and
    diagnostics logs, on which nothing else depends; the user interface (rendering and
    input); the command-line tools and the tests. *)

From Stdlib Require Export Lia.
From stdpp Require Export base tactics strings numbers list.

#[global] Set Default Goal Selector "!".
#[global] Set Warnings "-clear-no-such-hyp".
Open Scope Z_scope.

(** ** Functional record update

    The C++ classes are mutable records; a method that assigns to members is a
    function on the record.  [r <| field := v |>] is the assignment
    [r.field = v].  A record type opts in with an [Eta] instance that rebuilds
    it from its projections; the setter of one field is derived from it. *)

Declare Scope record_scope.
Delimit Scope record_scope with record.

Class Eta (R : Type) := eta : R → R.
Class Setter {R T : Type} (proj : R → T) := update : (T → T) → R → R.
Arguments update {R T} proj {_} _ _ /.

Ltac derive_setter proj :=
  match goal with
  | |- (?T → ?T) → ?R → ?R =>
      let f := fresh "f" in
      let r := fresh "r" in
      intros f r;
      let e := eval hnf in (eta r) in
      let t := eval pattern (proj r) in e in
      match t with ?F _ => exact (F (f (proj r))) end
  end.

#[export] Hint Extern 1 (Setter ?proj) =>
  (unfold Setter; derive_setter proj) : typeclass_instances.

Notation "r <| proj := v |>" := (update proj (fun _ => v) r)
  (at level 1, v at level 200, left associativity,
   format "r  <| proj  :=  v |>") : record_scope.
Open Scope record_scope.

(** ** Machine integers

    A w-bit unsigned integer is a [Z] in [0, 2^w); arithmetic that can wrap is
    reduced by [u64] and friends exactly where the C++ expression wraps. *)

Abbreviation u8_max := 255.
Abbreviation u16_max := 65535.
Abbreviation u32_max := 4294967295.
Abbreviation u64_max := 18446744073709551615.

#[global] Arguments Z.testbit : simpl never.
#[global] Arguments Z.land : simpl never.
#[global] Arguments Z.lor : simpl never.
#[global] Arguments Z.shiftl : simpl never.
#[global] Arguments Z.shiftr : simpl never.
#[global] Arguments Z.pow : simpl never.

Definition u8 (x : Z) : Z := x `mod` 256.
Definition u16 (x : Z) : Z := x `mod` 65536.
Definition u32 (x : Z) : Z := x `mod` 4294967296.
Definition u64 (x : Z) : Z := x `mod` 18446744073709551616.

Definition is_u8 (x : Z) : Prop := 0 ≤ x ≤ u8_max.
Definition is_u32 (x : Z) : Prop := 0 ≤ x ≤ u32_max.
Definition is_u64 (x : Z) : Prop := 0 ≤ x ≤ u64_max.

#[export] Instance is_u8_dec x : Decision (is_u8 x).
Proof. unfold is_u8. apply _. Defined.
#[export] Instance is_u32_dec x : Decision (is_u32 x).
Proof. unfold is_u32. apply _. Defined.
#[export] Instance is_u64_dec x : Decision (is_u64 x).
Proof. unfold is_u64. apply _. Defined.

Lemma u64_range x : is_u64 (u64 x).
Proof. unfold is_u64, u64. pose proof (Z.mod_pos_bound x 18446744073709551616). lia. Qed.
Lemma u64_id x : is_u64 x → u64 x = x.
Proof. intros [??]. unfold u64. apply Z.mod_small. lia. Qed.
Lemma u32_range x : is_u32 (u32 x).
Proof. unfold is_u32, u32. pose proof (Z.mod_pos_bound x 4294967296). lia. Qed.
Lemma u32_id x : is_u32 x → u32 x = x.
Proof. intros [??]. unfold u32. apply Z.mod_small. lia. Qed.
Lemma u8_range x : is_u8 (u8 x).
Proof. unfold is_u8, u8. pose proof (Z.mod_pos_bound x 256). lia. Qed.

(** ** Automation *)

Create HintDb kdbg.
#[export] Hint Resolve u64_range u32_range u8_range : kdbg.

(** Case split on the innermost discriminee of a [match]/[if] of the goal. *)
Ltac split_goal_match :=
  match goal with
  | |- context [match ?x with _ => _ end] =>
      lazymatch x with
      | context [match _ with _ => _ end] => fail
      | _ => destruct x eqn:?
      end
  end.

(** Case split on the innermost discriminee of a [match]/[if] of hypothesis [H]. *)
Ltac split_hyp_match H :=
  match type of H with
  | context [match ?x with _ => _ end] =>
      lazymatch x with
      | context [match _ with _ => _ end] => fail
      | _ => destruct x eqn:?
      end
  end.

(** Turn boolean comparisons in the context into propositions. *)
Ltac boolify :=
  repeat match goal with
  | H : (_ && _)%bool = true |- _ => apply andb_true_iff in H as [??]
  | H : (_ && _)%bool = false |- _ => apply andb_false_iff in H
  | H : (_ || _)%bool = false |- _ => apply orb_false_iff in H as [??]
  | H : (_ || _)%bool = true |- _ => apply orb_true_iff in H
  | H : negb _ = true |- _ => apply negb_true_iff in H
  | H : negb _ = false |- _ => apply negb_false_iff in H
  | H : (_ =? _) = true |- _ => apply Z.eqb_eq in H
  | H : (_ =? _) = false |- _ => apply Z.eqb_neq in H
  | H : (_ <? _) = true |- _ => apply Z.ltb_lt in H
  | H : (_ <? _) = false |- _ => apply Z.ltb_ge in H
  | H : (_ <=? _) = true |- _ => apply Z.leb_le in H
  | H : (_ <=? _) = false |- _ => apply Z.leb_gt in H
  | H : bool_decide _ = true |- _ => apply bool_decide_eq_true in H
  | H : bool_decide _ = false |- _ => apply bool_decide_eq_false in H
  end.

(** ** Vectors and arrays of bytes

    A [std::vector<uint8_t>] or [std::array<uint8_t, N>] is a [list Z]; sizes
    and indices are [Z] as in the source ([std::size_t]). *)

Definition sizeZ {A} (l : list A) : Z := Z.of_nat (length l).
Definition byte_at (l : list Z) (i : Z) : Z := nth (Z.to_nat i) l 0.
Definition store_at {A} (l : list A) (i : Z) (v : A) : list A := <[Z.to_nat i := v]> l.
Definition slice {A} (l : list A) (off len : Z) : list A :=
  take (Z.to_nat len) (drop (Z.to_nat off) l).
Definition bytes_eqb (a b : list Z) : bool := bool_decide (a = b).

Lemma sizeZ_nonneg {A} (l : list A) : 0 ≤ sizeZ l.
Proof. unfold sizeZ. lia. Qed.
Lemma sizeZ_app {A} (l k : list A) : sizeZ (l ++ k) = sizeZ l + sizeZ k.
Proof. unfold sizeZ. rewrite length_app. lia. Qed.
Lemma sizeZ_cons {A} (x : A) (l : list A) : sizeZ (x :: l) = 1 + sizeZ l.
Proof. unfold sizeZ. simpl. lia. Qed.
Lemma sizeZ_nil_inv {A} (l : list A) : sizeZ l = 0 → l = [].
Proof. unfold sizeZ. destruct l; [done | simpl; lia]. Qed.
Lemma sizeZ_store_at {A} (l : list A) i v : sizeZ (store_at l i v) = sizeZ l.
Proof. unfold sizeZ, store_at. by rewrite length_insert. Qed.
Lemma length_of_sizeZ {A} (l : list A) n : sizeZ l = n → length l = Z.to_nat n.
Proof. unfold sizeZ. lia. Qed.
Lemma sizeZ_slice {A} (l : list A) off len :
  0 ≤ off → 0 ≤ len → off + len ≤ sizeZ l → sizeZ (slice l off len) = len.
Proof. unfold sizeZ, slice. rewrite length_take, length_drop. lia. Qed.

Lemma byte_at_lookup l i : 0 ≤ i < sizeZ l → l !! Z.to_nat i = Some (byte_at l i).
Proof.
  unfold sizeZ, byte_at. intros Hi.
  destruct (lookup_lt_is_Some_2 l (Z.to_nat i)) as [x Hx]; [lia|].
  rewrite Hx. f_equal. symmetry.
  rewrite <- nth_lookup_Some with (d := 0) in Hx || apply nth_lookup_Some; done.
Qed.

Lemma byte_at_u8 l i : Forall is_u8 l → is_u8 (byte_at l i).
Proof.
  intros Hl. unfold byte_at. destruct (nth_in_or_default (Z.to_nat i) l 0) as [Hin| ->].
  - rewrite Forall_forall in Hl. by apply Hl, list_elem_of_In.
  - unfold is_u8. lia.
Qed.
Lemma byte_at_store_at l i v : 0 ≤ i < sizeZ l → byte_at (store_at l i v) i = v.
Proof.
  unfold byte_at, store_at, sizeZ. intros Hi. apply nth_lookup_Some.
  apply list_lookup_insert_eq. lia.
Qed.
Lemma byte_at_store_at_ne l i j v :
  0 ≤ i → 0 ≤ j → i ≠ j → byte_at (store_at l i v) j = byte_at l j.
Proof.
  unfold byte_at, store_at. intros ???. rewrite !nth_lookup.
  rewrite list_lookup_insert_ne by lia. done.
Qed.
Lemma store_at_byte_at l i : 0 ≤ i < sizeZ l → store_at l i (byte_at l i) = l.
Proof. intros Hi. unfold store_at. apply list_insert_id, byte_at_lookup, Hi. Qed.
Lemma store_at_store_at {A} (l : list A) i v w : store_at (store_at l i v) i w = store_at l i w.
Proof. unfold store_at. apply list_insert_insert_eq. Qed.

Lemma byte_at_slice w o n i : 0 ≤ o → 0 ≤ i < n → byte_at (slice w o n) i = byte_at w (o + i).
Proof.
  unfold byte_at, slice. intros ??. rewrite !nth_lookup, lookup_take_lt by lia.
  rewrite lookup_drop. do 2 f_equal. lia.
Qed.

(** [std::memcpy] of [bytes] to [offset] inside an array. *)
Definition patch (w : list Z) (offset : Z) (bytes : list Z) : list Z :=
  take (Z.to_nat offset) w ++ bytes ++ drop (Z.to_nat (offset + sizeZ bytes)) w.

Lemma sizeZ_patch w o bs : 0 ≤ o → o + sizeZ bs ≤ sizeZ w → sizeZ (patch w o bs) = sizeZ w.
Proof.
  unfold sizeZ, patch. intros. rewrite !length_app, length_take, length_drop. unfold sizeZ. lia.
Qed.
Lemma byte_at_patch w o bs i :
  0 ≤ o → o + sizeZ bs ≤ sizeZ w → 0 ≤ i →
  byte_at (patch w o bs) i =
  if (o <=? i) && (i <? o + sizeZ bs) then byte_at bs (i - o) else byte_at w i.
Proof.
  unfold byte_at, patch, sizeZ. intros Ho Hsz Hi. rewrite !nth_lookup.
  destruct (Z.leb_spec o i); simpl.
  2:{ rewrite lookup_app_l by (rewrite length_take; lia). by rewrite lookup_take_lt by lia. }
  rewrite lookup_app_r by (rewrite length_take; lia). rewrite length_take.
  destruct (Z.ltb_spec i (o + Z.of_nat (length bs))).
  - rewrite lookup_app_l by lia. do 2 f_equal. lia.
  - rewrite lookup_app_r by lia. rewrite lookup_drop. do 2 f_equal. lia.
Qed.

Lemma bytes_eqb_eq a b : bytes_eqb a b = true ↔ a = b.
Proof. apply bool_decide_eq_true. Qed.

(** ** Positions where two byte arrays differ

    [mismatch_offsets a b] is the offset vector that the C++ comparison loops
    [for (i = 0; i < n; ++i) if (a[i] != b[i]) out.push_back(i)] build. *)

Fixpoint mismatches_from (i : Z) (a b : list Z) : list Z :=
  match a, b with
  | x :: a', y :: b' =>
      if x =? y then mismatches_from (i + 1) a' b'
      else i :: mismatches_from (i + 1) a' b'
  | _, _ => []
  end.
Definition mismatch_offsets (a b : list Z) : list Z := mismatches_from 0 a b.

Lemma mismatches_from_nil i a b :
  length a = length b → mismatches_from i a b = [] ↔ a = b.
Proof.
  revert i b. induction a as [|x a IH]; intros i [|y b] Hlen; simplify_eq/=; [done|].
  destruct (Z.eqb_spec x y) as [->|Hne].
  - rewrite IH by done. clear. naive_solver.
  - clear IH. naive_solver.
Qed.
Lemma mismatch_offsets_nil a b :
  sizeZ a = sizeZ b → mismatch_offsets a b = [] ↔ a = b.
Proof. unfold sizeZ. intros ?. apply mismatches_from_nil. lia. Qed.
Lemma mismatch_offsets_refl a : mismatch_offsets a a = [].
Proof. by apply mismatch_offsets_nil. Qed.

Lemma elem_of_mismatches_from i a b k :
  k ∈ mismatches_from i a b ↔
  ∃ j x y, a !! j = Some x ∧ b !! j = Some y ∧ x ≠ y ∧ k = i + Z.of_nat j.
Proof.
  revert i b. induction a as [|x a IH]; intros i [|y b]; simpl.
  1-3: rewrite elem_of_nil; split; [done|]; intros (j & ? & ? & ? & ? & _);
    by destruct j; simplify_eq/=.
  assert (k ∈ mismatches_from (i + 1) a b ↔
    ∃ j u v, (x :: a) !! S j = Some u ∧ (y :: b) !! S j = Some v ∧ u ≠ v ∧
      k = i + Z.of_nat (S j)) as IH'.
  { rewrite IH. split; intros (j & u & v & ? & ? & ? & ?); exists j, u, v; repeat split;
      try done; lia. }
  assert ((∃ j u v, (x :: a) !! j = Some u ∧ (y :: b) !! j = Some v ∧ u ≠ v ∧
      k = i + Z.of_nat j) ↔ (x ≠ y ∧ k = i) ∨ k ∈ mismatches_from (i + 1) a b) as ->.
  { rewrite IH'. split.
    - intros ([|j] & u & v & ? & ? & ? & ?); simplify_eq/=; [left; split; [done|lia]|].
      right. by exists j, u, v.
    - intros [[? ->]|(j & u & v & ?)]; [exists 0%nat, x, y; repeat split; auto with lia|].
      by exists (S j), u, v. }
  destruct (Z.eqb_spec x y); [|rewrite elem_of_cons]; tauto.
Qed.
(** Membership in the offset vector is exactly "the bytes differ there". *)
Lemma elem_of_mismatch_offsets a b k :
  sizeZ a = sizeZ b →
  k ∈ mismatch_offsets a b ↔ 0 ≤ k < sizeZ a ∧ byte_at a k ≠ byte_at b k.
Proof.
  intros Hl. unfold mismatch_offsets. rewrite elem_of_mismatches_from. split.
  - intros (j & x & y & Ha & Hb & Hne & ->). rewrite Z.add_0_l.
    pose proof (lookup_lt_Some _ _ _ Ha). unfold sizeZ, byte_at in *. rewrite Nat2Z.id.
    rewrite (nth_lookup_Some _ _ _ _ Ha), (nth_lookup_Some _ _ _ _ Hb). split; [lia|done].
  - intros [Hk Hne]. exists (Z.to_nat k), (byte_at a k), (byte_at b k).
    repeat split; [apply byte_at_lookup; lia..|done|lia].
Qed.

(** [std::mismatch] on two equally long arrays: the first differing offset. *)
Definition first_mismatch (a b : list Z) : option Z := head (mismatch_offsets a b).

Lemma first_mismatch_None a b : sizeZ a = sizeZ b → first_mismatch a b = None ↔ a = b.
Proof.
  intros Hl. rewrite <- mismatch_offsets_nil by done. unfold first_mismatch.
  by destruct (mismatch_offsets a b).
Qed.
Lemma first_mismatch_Some a b k :
  sizeZ a = sizeZ b → first_mismatch a b = Some k →
  0 ≤ k < sizeZ a ∧ byte_at a k ≠ byte_at b k.
Proof.
  intros Hl Hk. rewrite <- elem_of_mismatch_offsets by done. unfold first_mismatch in Hk.
  destruct (mismatch_offsets a b); simplify_eq/=. apply elem_of_cons. by left.
Qed.

(** ** Dirty bitmaps *)

Definition diff_bitmap (a b : list Z) : list bool := zip_with (λ x y, negb (x =? y)) a b.
Definition any (d : list bool) : bool := existsb id d.
Definition count (d : list bool) : Z := sizeZ (filter (λ b, b = true) d).

Lemma diff_bitmap_refl a : diff_bitmap a a = replicate (length a) false.
Proof. induction a as [|x a IH]; simpl; [done|]. by rewrite Z.eqb_refl, <- IH. Qed.
Lemma any_replicate_false n : any (replicate n false) = false.
Proof. induction n; done. Qed.
Lemma any_diff_bitmap a b :
  length a = length b → any (diff_bitmap a b) = false ↔ a = b.
Proof.
  revert b. induction a as [|x a IH]; intros [|y b] Hl; simplify_eq/=; [done|].
  unfold any in *. simpl. rewrite orb_false_iff, IH by done.
  unfold id. rewrite negb_false_iff, Z.eqb_eq. split; [by intros [-> ->] | by intros [= -> ->]].
Qed.
Lemma diff_bitmap_insert a b i x y v :
  a !! i = Some x → b !! i = Some y →
  diff_bitmap a (<[i := v]> b) = <[i := negb (x =? v)]> (diff_bitmap a b).
Proof.
  revert b i. induction a as [|x' a IH]; intros [|y' b] [|i] Ha Hb; simplify_eq/=; [done|].
  by rewrite <- (IH b i).
Qed.
Lemma diff_bitmap_store_at a b i v :
  sizeZ a = sizeZ b → 0 ≤ i < sizeZ b →
  diff_bitmap a (store_at b i v) = store_at (diff_bitmap a b) i (negb (byte_at a i =? v)).
Proof.
  intros Hl Hi. eapply diff_bitmap_insert; apply byte_at_lookup; lia.
Qed.
Lemma length_diff_bitmap a b : length a = length b → length (diff_bitmap a b) = length a.
Proof. intros. unfold diff_bitmap. rewrite length_zip_with. lia. Qed.
Lemma count_cons (b : bool) d : count (b :: d) = Z.b2z b + count d.
Proof.
  unfold count, sizeZ. rewrite filter_cons. destruct b; simpl; [|done].
  change (length (_ :: ?l)) with (S (length l)). lia.
Qed.
Lemma count_nonneg d : 0 ≤ count d.
Proof. apply sizeZ_nonneg. Qed.
Lemma count_zero d : count d = 0 ↔ any d = false.
Proof.
  unfold any. induction d as [|[] d IH]; simpl; [done| |];
    rewrite count_cons; pose proof (count_nonneg d); simpl; [split; [lia|done]|].
  by rewrite Z.add_0_l.
Qed.

Lemma count_store_at d i v :
  0 ≤ i < sizeZ d →
  count (store_at d i v) = count d - Z.b2z (nth (Z.to_nat i) d false) + Z.b2z v.
Proof.
  unfold store_at, sizeZ. intros Hi.
  assert (Z.to_nat i < length d)%nat as Hn by lia. clear Hi. revert Hn.
  generalize (Z.to_nat i) as n. induction d as [|b d IH]; intros [|n] Hn; simpl in *; [lia..| |].
  - rewrite !count_cons. lia.
  - rewrite !count_cons, IH by lia. lia.
Qed.
Lemma count_le d : count d ≤ sizeZ d.
Proof.
  induction d as [|b d IH]; [done|]. rewrite count_cons.
  assert (sizeZ (b :: d) = sizeZ d + 1) by (unfold sizeZ; simpl; lia). destruct b; simpl; lia.
Qed.
Lemma count_replicate_false n : count (replicate n false) = 0.
Proof. apply count_zero, any_replicate_false. Qed.

(** ** Memories

    A fixed-size byte store whose accesses are bounds-checked by its owner is a
    function from addresses to bytes.  [mem_bytes] copies a range out,
    [mem_store] copies a range in. *)

Definition mem_bytes (m : Z → Z) (a n : Z) : list Z := (λ k, m (a + k)) <$> seqZ 0 n.
Definition mem_store (m : Z → Z) (a : Z) (data : list Z) : Z → Z :=
  let n := sizeZ data in
  λ x, if (a <=? x) && (x <? a + n) then byte_at data (x - a) else m x.

Lemma sizeZ_mem_bytes m a n : 0 ≤ n → sizeZ (mem_bytes m a n) = n.
Proof. intros. unfold sizeZ, mem_bytes. rewrite length_fmap, length_seqZ. lia. Qed.
Lemma byte_at_mem_bytes m a n i : 0 ≤ i < n → byte_at (mem_bytes m a n) i = m (a + i).
Proof.
  intros Hi. unfold byte_at, mem_bytes. apply nth_lookup_Some.
  rewrite list_lookup_fmap, lookup_seqZ_lt by lia. simpl. do 2 f_equal. lia.
Qed.
Lemma byte_at_ext (a b : list Z) :
  sizeZ a = sizeZ b → (∀ i, 0 ≤ i < sizeZ a → byte_at a i = byte_at b i) → a = b.
Proof.
  intros Hl H. apply list_eq. intros i.
  destruct (decide (i < length a)%nat) as [Hi|Hi].
  - specialize (H (Z.of_nat i)). unfold sizeZ in *.
    pose proof (byte_at_lookup a (Z.of_nat i)) as Ha. pose proof (byte_at_lookup b (Z.of_nat i)) as Hb.
    unfold sizeZ in *. rewrite Nat2Z.id in *. rewrite Ha, Hb, H by lia. done.
  - unfold sizeZ in *. by rewrite !lookup_ge_None_2 by lia.
Qed.
Lemma mem_bytes_ext m m' a n :
  (∀ i, 0 ≤ i < n → m (a + i) = m' (a + i)) → mem_bytes m a n = mem_bytes m' a n.
Proof.
  intros H. unfold mem_bytes. apply list_fmap_ext. intros i x Hx.
  apply lookup_seqZ in Hx as [-> Hlt]. apply H. lia.
Qed.
Lemma mem_bytes_store m a data : mem_bytes (mem_store m a data) a (sizeZ data) = data.
Proof.
  pose proof (sizeZ_nonneg data). apply byte_at_ext; rewrite sizeZ_mem_bytes by done; [done|].
  intros i Hi. rewrite byte_at_mem_bytes by done. unfold mem_store.
  destruct (Z.leb_spec a (a + i)), (Z.ltb_spec (a + i) (a + sizeZ data)); try lia. simpl.
  f_equal. lia.
Qed.
Lemma mem_store_outside m a data x :
  x < a ∨ a + sizeZ data ≤ x → mem_store m a data x = m x.
Proof.
  intros H. unfold mem_store.
  destruct (Z.leb_spec a x), (Z.ltb_spec x (a + sizeZ data)); simpl; done || lia.
Qed.
Lemma mem_store_inside m a data i :
  0 ≤ i < sizeZ data → mem_store m a data (a + i) = byte_at data i.
Proof.
  intros H. unfold mem_store.
  destruct (Z.leb_spec a (a + i)), (Z.ltb_spec (a + i) (a + sizeZ data)); try lia. simpl.
  f_equal. lia.
Qed.
Lemma mem_bytes_lookup_eq m a n l :
  0 ≤ n → sizeZ l = n → (∀ i, 0 ≤ i < n → m (a + i) = byte_at l i) → mem_bytes m a n = l.
Proof.
  intros Hn Hl H. apply byte_at_ext; rewrite sizeZ_mem_bytes by done; [done|].
  intros i Hi. rewrite byte_at_mem_bytes by done. by apply H.
Qed.
Lemma mem_bytes_shift m d a n : mem_bytes (λ x, m (x - d)) a n = mem_bytes m (a - d) n.
Proof. unfold mem_bytes. apply list_fmap_ext. intros. f_equal. lia. Qed.
Lemma sizeZ_mem_bytes_max m a n : sizeZ (mem_bytes m a n) = Z.max 0 n.
Proof. unfold sizeZ, mem_bytes. rewrite length_fmap, length_seqZ. lia. Qed.
Lemma mem_bytes_seqZ m a n : mem_bytes m a n = (λ k, m (a + k)) <$> seqZ 0 n.
Proof. done. Qed.
Lemma slice_mem_bytes mem a n o k :
  0 ≤ o → 0 ≤ k → o + k ≤ n → slice (mem_bytes mem a n) o k = mem_bytes mem (a + o) k.
Proof.
  intros Ho Hk Hn. symmetry. apply mem_bytes_lookup_eq; [done| |].
  - rewrite sizeZ_slice; [done|lia|lia|]. rewrite sizeZ_mem_bytes; lia.
  - intros i Hi. rewrite byte_at_slice, byte_at_mem_bytes by lia. f_equal. lia.
Qed.
Lemma mem_bytes_app mem a n k : 0 ≤ n → 0 ≤ k →
  mem_bytes mem a (n + k) = mem_bytes mem a n ++ mem_bytes mem (a + n) k.
Proof.
  intros. apply byte_at_ext; [|intros i Hi];
    rewrite ?sizeZ_app, !sizeZ_mem_bytes in * by lia; [lia|].
  rewrite byte_at_mem_bytes by lia. unfold byte_at at 1.
  destruct (decide (i < n)).
  - rewrite app_nth1 by (apply Nat2Z.inj_lt; fold (sizeZ (mem_bytes mem a n));
      rewrite sizeZ_mem_bytes; lia).
    fold (byte_at (mem_bytes mem a n) i). by rewrite byte_at_mem_bytes by lia.
  - assert (length (mem_bytes mem a n) = Z.to_nat n) as Hl
      by (apply length_of_sizeZ; rewrite sizeZ_mem_bytes; lia).
    rewrite app_nth2 by (rewrite Hl; lia). rewrite Hl, <- Z2Nat.inj_sub by lia.
    fold (byte_at (mem_bytes mem (a + n) k) (i - n)). rewrite byte_at_mem_bytes by lia.
    f_equal. lia.
Qed.
Lemma mem_bytes_prepend mem cursor k n :
  0 ≤ k → 0 ≤ n →
  mem_bytes mem (cursor - k) (k + n) = mem_bytes mem (cursor - k) k ++ mem_bytes mem cursor n.
Proof. intros. rewrite mem_bytes_app by done. do 2 f_equal. lia. Qed.
Lemma mem_bytes_drop mem a n k :
  0 ≤ k ≤ n → drop (Z.to_nat k) (mem_bytes mem a n) = mem_bytes mem (a + k) (n - k).
Proof.
  intros Hk. replace n with (k + (n - k)) at 1 by lia. rewrite mem_bytes_app by lia.
  assert (length (mem_bytes mem a k) = Z.to_nat k) as <-
    by (apply length_of_sizeZ, sizeZ_mem_bytes; lia).
  by rewrite drop_app_length.
Qed.
#[global] Opaque mem_bytes.

(** No multiple lies strictly between two neighbouring ones. *)
Lemma between_multiples m x a : 0 < m → x `mod` m = 0 → x < a < x + m → a `mod` m ≠ 0.
Proof.
  intros Hm Hx Hr E. pose proof (Z.div_mod x m ltac:(lia)) as Dx.
  pose proof (Z.div_mod a m ltac:(lia)) as Da. rewrite Hx in Dx. rewrite E in Da.
  assert (x `div` m < a `div` m) by nia. assert (a `div` m < x `div` m + 1) by nia. lia.
Qed.
