(* ===== verification/CppStd.v ===== *)
(** The parts of the C++ standard library the modelled code uses: character
    tests, [std::from_chars] on integers, and number formatting as the stream
    inserters with [std::hex] / [std::dec] produce it. *)

From S2P Require Import Prelude.
From Stdlib Require Import Ascii String.

(** ** Characters *)

Abbreviation chars := (list ascii).
Definition str (s : string) : chars := list_ascii_of_string s.
Definition char_code (c : ascii) : Z := Z.of_N (N_of_ascii c).

(** [std::isspace] in the C locale: space, and the controls 9 to 13. *)
Definition isspace (c : ascii) : bool :=
  let n := char_code c in (n =? 32) || ((9 <=? n) && (n <=? 13)).

Definition digit_value (c : ascii) : option Z :=
  let n := char_code c in
  if (48 <=? n) && (n <=? 57) then Some (n - 48)
  else if (97 <=? n) && (n <=? 102) then Some (n - 87)
  else if (65 <=? n) && (n <=? 70) then Some (n - 55)
  else None.

(** The digit of a value below 16, upper or lower case. *)
Definition digit_char (upper : bool) (d : Z) : ascii :=
  ascii_of_N (Z.to_N (if d <? 10 then d + 48 else if upper then d + 55 else d + 87)).

(** ** [std::from_chars]

    The longest prefix of digits of the base is read; no digit at all is
    [invalid_argument], a value outside the type is [result_out_of_range]; the
    rest of the text is what [ptr] points to.  A minus sign is accepted for
    signed types only; no plus sign, no [0x] prefix and no white space are. *)

Inductive errc := errc_ok | invalid_argument | result_out_of_range.

#[export] Instance errc_eq_dec : EqDecision errc.
Proof. solve_decision. Defined.

Fixpoint scan_digits (base : Z) (text : chars) : list Z * chars :=
  match text with
  | [] => ([], [])
  | c :: rest =>
      match digit_value c with
      | Some d =>
          if d <? base then let '(ds, r) := scan_digits base rest in (d :: ds, r)
          else ([], text)
      | None => ([], text)
      end
  end.

Definition digits_value (base : Z) (ds : list Z) : Z :=
  foldl (λ v d, v * base + d) 0 ds.

Record from_chars_result := mk_from_chars_result {
  fc_ec : errc;
  fc_value : Z;
  fc_ptr : chars
}.

Definition from_chars_unsigned (base max : Z) (text : chars) : from_chars_result :=
  match scan_digits base text with
  | ([], _) => mk_from_chars_result invalid_argument 0 text
  | (ds, rest) =>
      let v := digits_value base ds in
      if v <=? max then mk_from_chars_result errc_ok v rest
      else mk_from_chars_result result_out_of_range 0 rest
  end.

Definition from_chars_signed (base min max : Z) (text : chars) : from_chars_result :=
  let '(negative, digits_text) :=
    match text with
    | c :: rest => if (char_code c =? 45) then (true, rest) else (false, text)
    | [] => (false, [])
    end in
  match scan_digits base digits_text with
  | ([], _) => mk_from_chars_result invalid_argument 0 text
  | (ds, rest) =>
      let v := if negative then - digits_value base ds else digits_value base ds in
      if (min <=? v) && (v <=? max) then mk_from_chars_result errc_ok v rest
      else mk_from_chars_result result_out_of_range 0 rest
  end.

(** ** [std::memcpy] into an unsigned integer

    The target is little-endian: the first byte is the low one. *)
Fixpoint le_value (bytes : list Z) : Z :=
  match bytes with [] => 0 | b :: rest => u8 b + 256 * le_value rest end.
(** The other way: the [n] bytes of an integer. *)
Definition le_bytes (n v : Z) : list Z := (λ k, u8 (Z.shiftr v (8 * k))) <$> seqZ 0 n.

(** ** Number formatting *)

Fixpoint zdigits (fuel : nat) (base n : Z) : list Z :=
  match fuel with
  | O => []
  | S fuel' =>
      if n <? base then [n]
      else zdigits fuel' base (n `div` base) ++ [n `mod` base]
  end.

(** A number below [2^k] has at most [k] digits in any base from 2 on, so
    [log2 n + 1] rounds print every digit. *)
Definition print_number (upper : bool) (base n : Z) : chars :=
  digit_char upper <$> zdigits (Z.to_nat (Z.log2 n + 1)) base n.

Definition dec_string (n : Z) : string := string_of_list_ascii (print_number false 10 n).
Definition hex_string (n : Z) : string := string_of_list_ascii (print_number false 16 n).

(** ** Facts *)

Lemma digit_value_char upper d :
  0 ≤ d < 16 → digit_value (digit_char upper d) = Some d.
Proof.
  intros Hd.
  assert (d = 0 ∨ d = 1 ∨ d = 2 ∨ d = 3 ∨ d = 4 ∨ d = 5 ∨ d = 6 ∨ d = 7 ∨ d = 8 ∨ d = 9 ∨
    d = 10 ∨ d = 11 ∨ d = 12 ∨ d = 13 ∨ d = 14 ∨ d = 15) as Hcases by lia.
  repeat destruct Hcases as [-> | Hcases]; try subst d; by destruct upper.
Qed.

Lemma digits_value_app base ds d :
  digits_value base (ds ++ [d]) = digits_value base ds * base + d.
Proof. unfold digits_value. by rewrite foldl_app. Qed.

Lemma zdigits_range fuel base n :
  2 ≤ base → 0 ≤ n → Forall (λ d, 0 ≤ d < base) (zdigits fuel base n).
Proof.
  intros Hb. revert n. induction fuel as [|fuel IH]; intros n Hn; simpl; [constructor|].
  destruct (Z.ltb_spec n base).
  - repeat constructor; lia.
  - apply Forall_app. split; [apply IH, Z.div_pos; lia|].
    repeat constructor; pose proof (Z.mod_pos_bound n base); lia.
Qed.

Lemma zdigits_value fuel base n :
  2 ≤ base → 0 ≤ n < base ^ Z.of_nat fuel →
  digits_value base (zdigits fuel base n) = n.
Proof.
  intros Hb. revert n. induction fuel as [|fuel IH]; intros n Hn; simpl.
  - change (base ^ Z.of_nat 0) with 1 in Hn. unfold digits_value. simpl. lia.
  - destruct (Z.ltb_spec n base).
    + unfold digits_value. simpl. lia.
    + rewrite digits_value_app, IH.
      * pose proof (Z.div_mod n base). lia.
      * rewrite Nat2Z.inj_succ, Z.pow_succ_r in Hn by lia.
        split; [apply Z.div_pos; lia | apply Z.div_lt_upper_bound; lia].
Qed.

Lemma zdigits_nonempty fuel base n : zdigits (S fuel) base n ≠ [].
Proof. simpl. destruct (n <? base); [done|]. by intros [_ ?]%app_eq_nil. Qed.

Lemma scan_digits_print upper base ds rest :
  base ≤ 16 → Forall (λ d, 0 ≤ d < base) ds →
  match rest with c :: _ => digit_value c = None | [] => True end →
  scan_digits base ((digit_char upper <$> ds) ++ rest) = (ds, rest).
Proof.
  intros Hb. induction 1 as [|d ds Hd _ IH]; intros Hrest; csimpl.
  - destruct rest as [|c rest]; [done|]. simpl. by rewrite Hrest.
  - rewrite digit_value_char by lia. destruct (Z.ltb_spec d base); [|lia].
    by rewrite IH.
Qed.

(** Printing and reading back a number. *)
Lemma from_chars_print upper base max n :
  2 ≤ base ≤ 16 → 0 ≤ n ≤ max →
  from_chars_unsigned base max (print_number upper base n) =
  mk_from_chars_result errc_ok n [].
Proof.
  intros Hb Hn. unfold from_chars_unsigned, print_number.
  rewrite <- (app_nil_r (digit_char upper <$> _)).
  rewrite scan_digits_print; [|lia|apply zdigits_range; lia|done].
  replace (Z.to_nat (Z.log2 n + 1)) with (S (Z.to_nat (Z.log2 n)))
    by (pose proof (Z.log2_nonneg n); lia).
  destruct (zdigits _ base n) as [|d ds] eqn:E; [by apply zdigits_nonempty in E|].
  rewrite <- E, zdigits_value; [|lia|].
  - destruct (Z.leb_spec n max); [done|lia].
  - split; [lia|]. destruct (decide (n = 0)) as [->|Hn0].
    + apply Z.pow_pos_nonneg; lia.
    + destruct (Z.log2_spec n) as [_ Hlt]; [lia|].
      eapply Z.lt_le_trans; [exact Hlt|]. rewrite Nat2Z.inj_succ, Z2Nat.id by apply Z.log2_nonneg.
      apply Z.pow_le_mono_l. lia.
Qed.

(** What [from_chars] accepts is in range. *)
Lemma digits_value_nonneg base ds :
  0 ≤ base → Forall (λ d, 0 ≤ d) ds → 0 ≤ digits_value base ds.
Proof.
  intros Hb. induction ds as [|d ds IH] using rev_ind; [done|].
  rewrite digits_value_app. intros [H1 H2]%Forall_app. inversion H2; subst.
  specialize (IH H1). nia.
Qed.
Lemma digit_value_nonneg c d : digit_value c = Some d → 0 ≤ d.
Proof.
  unfold digit_value. intros H.
  repeat case_match; simplify_eq; boolify; lia.
Qed.
Lemma scan_digits_nonneg base text : Forall (λ d, 0 ≤ d) (scan_digits base text).1.
Proof.
  induction text as [|c text IH]; simpl; [constructor|].
  destruct (digit_value c) as [d|] eqn:Hd; [|constructor].
  destruct (d <? base); [|constructor].
  destruct (scan_digits base text) as [ds r]. simpl in *. constructor; [|done].
  by eapply digit_value_nonneg.
Qed.
Lemma from_chars_unsigned_ok base max text v rest :
  0 ≤ base →
  from_chars_unsigned base max text = mk_from_chars_result errc_ok v rest → 0 ≤ v ≤ max.
Proof.
  intros Hb. unfold from_chars_unsigned.
  pose proof (scan_digits_nonneg base text) as Hnn.
  destruct (scan_digits base text) as [[|d ds] r]; [done|].
  destruct (Z.leb_spec (digits_value base (d :: ds)) max); [|done].
  intros [= <- <-]. split; [by apply digits_value_nonneg|done].
Qed.

Lemma le_value_range bytes : 0 ≤ le_value bytes < 256 ^ sizeZ bytes.
Proof.
  induction bytes as [|b bytes IH]; [done|]. simpl. pose proof (u8_range b) as Hb.
  unfold is_u8 in Hb.
  replace (sizeZ (b :: bytes)) with (Z.succ (sizeZ bytes)) by (unfold sizeZ; simpl; lia).
  rewrite Z.pow_succ_r by apply sizeZ_nonneg. lia.
Qed.

Lemma le_value_u32 bytes : sizeZ bytes ≤ 4 → is_u32 (le_value bytes).
Proof.
  intros Hn. pose proof (le_value_range bytes). pose proof (sizeZ_nonneg bytes).
  assert (256 ^ sizeZ bytes ≤ 256 ^ 4) by (apply Z.pow_le_mono_r; lia).
  change (256 ^ 4) with 4294967296 in *. unfold is_u32. lia.
Qed.
Lemma le_value_u64 bytes : sizeZ bytes ≤ 8 → is_u64 (le_value bytes).
Proof.
  intros Hn. pose proof (le_value_range bytes). pose proof (sizeZ_nonneg bytes).
  assert (256 ^ sizeZ bytes ≤ 256 ^ 8) by (apply Z.pow_le_mono_r; lia).
  change (256 ^ 8) with 18446744073709551616 in *. unfold is_u64. lia.
Qed.

Lemma le_value_bytes n v :
  le_value (le_bytes (Z.of_nat n) v) = v `mod` 256 ^ Z.of_nat n.
Proof.
  unfold le_bytes. revert v. induction n as [|n IH]; intros v; [by rewrite Z.mod_1_r|].
  rewrite seqZ_cons by lia. replace (Z.pred (Z.of_nat (S n))) with (Z.of_nat n) by lia.
  csimpl. change (Z.succ 0) with (1 + 0). rewrite <- fmap_add_seqZ, <- list_fmap_compose.
  erewrite (list_fmap_ext _ (λ k, u8 (Z.shiftr (v `div` 256) (8 * k)))).
  2:{ intros i k Hk%list_elem_of_lookup_2%elem_of_seqZ. unfold compose. f_equal.
      change 256 with (2 ^ 8). rewrite <- (Z.shiftr_div_pow2 v 8), Z.shiftr_shiftr by lia.
      f_equal. lia. }
  rewrite IH. rewrite Nat2Z.inj_succ, Z.pow_succ_r by lia.
  rewrite Z.rem_mul_r by lia. change (8 * 0) with 0. rewrite Z.shiftr_0_r. unfold u8.
  by rewrite Z.mod_mod by lia.
Qed.
Lemma le_value_le_bytes n v : 0 ≤ n → 0 ≤ v < 256 ^ n → le_value (le_bytes n v) = v.
Proof.
  intros Hn Hv. replace n with (Z.of_nat (Z.to_nat n)) in * by lia.
  rewrite le_value_bytes by lia. by apply Z.mod_small.
Qed.
Lemma sizeZ_le_bytes n v : 0 ≤ n → sizeZ (le_bytes n v) = n.
Proof. intros. unfold sizeZ, le_bytes. rewrite length_fmap, length_seqZ. lia. Qed.
Lemma le_bytes_u8 n v : Forall is_u8 (le_bytes n v).
Proof. apply Forall_fmap, Forall_true. intros. apply u8_range. Qed.
(** Bytes are the bytes of their value. *)
Lemma le_bytes_le_value bytes : Forall is_u8 bytes → le_bytes (sizeZ bytes) (le_value bytes) = bytes.
Proof.
  induction 1 as [|b bytes Hb _ IH]; [done|]. unfold le_bytes.
  replace (sizeZ (b :: bytes)) with (Z.succ (sizeZ bytes)) by (unfold sizeZ; simpl; lia).
  pose proof (sizeZ_nonneg bytes). rewrite seqZ_cons, Z.pred_succ by lia. csimpl.
  assert (u8 b = b) as Eb by (unfold u8, is_u8 in *; apply Z.mod_small; lia). rewrite Eb. f_equal.
  - change (8 * 0) with 0. rewrite Z.shiftr_0_r. unfold u8. rewrite Z.mul_comm, Z.mod_add by lia.
    unfold is_u8 in Hb. apply Z.mod_small. lia.
  - rewrite <- IH at 2. unfold le_bytes. change (Z.succ 0) with (1 + 0).
    rewrite <- fmap_add_seqZ, <- list_fmap_compose. apply list_fmap_ext.
    intros i k Hk%list_elem_of_lookup_2%elem_of_seqZ. unfold compose. f_equal.
    replace (8 * (1 + k)) with (8 + 8 * k) by lia. rewrite <- Z.shiftr_shiftr by lia. f_equal.
    rewrite Z.shiftr_div_pow2 by lia. change (2 ^ 8) with 256.
    rewrite Z.mul_comm, Z.div_add, Z.div_small by (unfold is_u8 in Hb; lia). lia.
Qed.

(** ** The order of strings *)

Lemma string_compare_trans a b c :
  String.compare a b = Lt → String.compare b c = Lt → String.compare a c = Lt.
Proof.
  revert b c. induction a as [|x a IH]; intros [|y b] [|z c]; simpl; try done.
  unfold Ascii.compare.
  destruct (N.compare_spec (N_of_ascii x) (N_of_ascii y)),
    (N.compare_spec (N_of_ascii y) (N_of_ascii z)),
    (N.compare_spec (N_of_ascii x) (N_of_ascii z)); intros; try done; try lia; eauto.
Qed.
