(* ===== verification/Wire.v ===== *)
(** Data as bytes: packed structures, read and written with [memcpy] and
    [reinterpret_cast] on a little-endian machine, and the characters of a string. *)

From S2P Require Import Prelude CppStd.

#[local] Open Scope Z_scope.

(** ** Structures *)

(** A field of a structure at an offset; a structure as its fields in order, each
    with its width. *)
Definition field (buffer : list Z) (offset width : Z) : Z := le_value (slice buffer offset width).
Definition struct (fields : list (Z * Z)) : list Z := mjoin ((λ f, le_bytes f.1 f.2) <$> fields).

(** The field of a structure that starts at an offset. *)
Fixpoint lookup_field (fields : list (Z * Z)) (offset : Z) : option (Z * Z) :=
  match fields with
  | [] => None
  | (w, v) :: fields => if offset =? 0 then Some (w, v) else lookup_field fields (offset - w)
  end.
Definition struct_size (fields : list (Z * Z)) : Z := foldr (λ f n, f.1 + n) 0 fields.
Definition widths_ok (fields : list (Z * Z)) : bool := forallb (λ f, 0 <? f.1) fields.

Lemma struct_cons w v fields : struct ((w, v) :: fields) = le_bytes w v ++ struct fields.
Proof. reflexivity. Qed.

Lemma sizeZ_struct fields : widths_ok fields = true → sizeZ (struct fields) = struct_size fields.
Proof.
  induction fields as [|[w v] fields IH]; [done|]. cbn [widths_ok forallb fst].
  rewrite andb_true_iff, Z.ltb_lt. intros [Hw Hok].
  rewrite struct_cons, sizeZ_app, sizeZ_le_bytes, IH by (done || lia). reflexivity.
Qed.

Lemma slice_app_r {A} (a b : list A) n off len :
  sizeZ a = n → n ≤ off → slice (a ++ b) off len = slice b (off - n) len.
Proof.
  intros <- Hn. unfold slice, sizeZ in *. rewrite drop_app_ge by lia. do 2 f_equal. lia.
Qed.
Lemma slice_app_ge {A} (a b : list A) off len :
  sizeZ a ≤ off → slice (a ++ b) off len = slice b (off - sizeZ a) len.
Proof. by apply slice_app_r. Qed.
Lemma slice_app_l {A} (a b : list A) len : sizeZ a = len → slice (a ++ b) 0 len = a.
Proof. intros <-. unfold slice, sizeZ. rewrite Nat2Z.id. change (Z.to_nat 0) with 0%nat. by rewrite drop_0, take_app_length. Qed.

Lemma field_struct fields tail offset w v :
  widths_ok fields = true → lookup_field fields offset = Some (w, v) → 0 ≤ offset →
  field (struct fields ++ tail) offset w = v `mod` 256 ^ w.
Proof.
  revert offset. induction fields as [|[w0 v0] fields IH]; intros offset; [done|].
  cbn [widths_ok forallb fst lookup_field]. rewrite andb_true_iff, Z.ltb_lt. intros [Hw Hok].
  rewrite struct_cons, <- app_assoc. destruct (Z.eqb_spec offset 0) as [->|Hne].
  - intros [= <- <-] _. unfold field. rewrite slice_app_l by (apply sizeZ_le_bytes; lia).
    rewrite <- (Z2Nat.id w0) by lia. apply le_value_bytes.
  - intros Hl Ho. unfold field in *.
    assert (w0 ≤ offset) as Hle.
    { destruct (Z.le_gt_cases w0 offset); [done|]. exfalso. revert Hl. clear -H Hok.
      assert (offset - w0 < 0) as Hneg by lia. clear H. revert Hneg. generalize (offset - w0).
      induction fields as [|[w1 v1] fields IH']; intros o Ho; [done|]. cbn [lookup_field].
      destruct (Z.eqb_spec o 0); [lia|]. cbn [widths_ok forallb fst] in Hok.
      rewrite andb_true_iff, Z.ltb_lt in Hok. destruct Hok as [Hw1 Hok]. apply IH'; [done|lia]. }
    rewrite (slice_app_r _ _ w0) by (rewrite ?sizeZ_le_bytes; lia).
    apply IH; [done..|lia].
Qed.

(** Decode the fields of the answer. *)
Ltac decode_fields :=
  repeat match goal with
  | |- context [field (struct ?fs ++ ?tail) ?off ?w] =>
      let r := eval cbv [lookup_field Z.eqb Z.sub Z.add Z.opp Z.pos_sub Pos.eqb Pos.add Pos.succ
        Pos.pred_double Z.succ_double Z.pred_double Z.double Pos.sub] in (lookup_field fs off) in
      match r with
      | Some (_, ?v) => rewrite (field_struct fs tail off w v) by (reflexivity || lia)
      end
  end.

(** ** Text *)

(** The characters of a label as the bytes of a file, and back. *)
Definition label_bytes (text : string) : list Z := char_code <$> str text.
Definition bytes_label (bytes : list Z) : string :=
  String.string_of_list_ascii ((λ b, Ascii.ascii_of_N (Z.to_N b)) <$> bytes).

Lemma bytes_label_bytes text : bytes_label (label_bytes text) = text.
Proof.
  unfold bytes_label, label_bytes, str. rewrite <- list_fmap_compose.
  rewrite (list_fmap_ext _ id).
  - rewrite list_fmap_id. apply String.string_of_list_ascii_of_string.
  - intros _ c _. unfold compose, char_code. rewrite N2Z.id. apply Ascii.ascii_N_embedding.
Qed.
Lemma label_bytes_label bytes : Forall is_u8 bytes → label_bytes (bytes_label bytes) = bytes.
Proof.
  intros Hb. unfold bytes_label, label_bytes, str. rewrite String.list_ascii_of_string_of_list_ascii.
  rewrite <- list_fmap_compose. rewrite <- (list_fmap_id bytes) at 2. apply list_fmap_ext.
  intros i b Hi. eapply Forall_lookup_1 in Hb; [|exact Hi]. unfold is_u8 in Hb.
  unfold compose, char_code, id. rewrite Ascii.N_ascii_embedding by lia. lia.
Qed.
