(* ===== verification/Common.v ===== *)
(** [core/common] and [core/model]: error values, [Result], and the plain data
    types the components exchange. *)

From S2P Require Import Prelude CppStd.

(** ** core/common/Error.h *)

Inductive ErrorCode :=
  | None_
  | InvalidArgument
  | InvalidPfn
  | AddressOverflow
  | OutsidePhysicalRam
  | BackendDisconnected
  | BackendAlreadyOpen
  | AbiMismatch
  | ShortRead
  | WriteLocked
  | ConcurrentModification
  | ShortWrite
  | VerificationMismatch
  | RollbackFailed
  | BridgeUnavailable
  | Unsupported
  | IoFailure
  | AccessDenied
  | ParseError
  | Cancelled
  | LimitReached
  | NotFound
  | InternalInvariant.

#[export] Instance ErrorCode_eq_dec : EqDecision ErrorCode.
Proof. solve_decision. Defined.

Record Error := mkError {
  code : ErrorCode;
  message : string;
  operation : string;
  native_code : Z;
  requested : Z;
  completed : Z
}.

#[export] Instance Error_eta : Eta Error := fun e =>
  mkError (code e) (message e) (operation e) (native_code e) (requested e) (completed e).
#[export] Instance Error_eq_dec : EqDecision Error.
Proof. solve_decision. Defined.

(** [MakeError] with its three defaulted counters, and the full form. *)
Definition MakeErrorFull (c : ErrorCode) (msg op : string) (native req comp : Z) : Error :=
  mkError c msg op native req comp.
Definition MakeError (c : ErrorCode) (msg op : string) : Error :=
  MakeErrorFull c msg op 0 0 0.

(** ** core/common/Result.h

    [Result<T>] holds a value or an [Error]; [Value()] and [GetError()] on the
    wrong alternative throw [std::logic_error], which the model's [match] makes
    impossible to write. *)

Inductive Result (T : Type) :=
  | Success (v : T)
  | Failure (e : Error).
Arguments Success {T} v.
Arguments Failure {T} e.

#[export] Instance Result_eq_dec `{EqDecision T} : EqDecision (Result T).
Proof. solve_decision. Defined.

Definition Ok {T} (r : Result T) : bool :=
  match r with Success _ => true | Failure _ => false end.

(** The code of a failed result, [None_] for success. *)
Definition result_code {T} (r : Result T) : ErrorCode :=
  match r with Success _ => None_ | Failure e => code e end.

Definition fails_with {T} (c : ErrorCode) (r : Result T) : Prop :=
  match r with Success _ => False | Failure e => code e = c end.

#[export] Instance fails_with_dec {T} c (r : Result T) : Decision (fails_with c r).
Proof. destruct r; simpl; apply _. Defined.

(** ** core/model/PhysicalPage.h *)

Definition kPhysicalPageSize : Z := 0x1000.

(** [std::array<std::uint8_t, kPhysicalPageSize>]: the type fixes the length. *)
Definition is_page (p : list Z) : Prop := sizeZ p = kPhysicalPageSize.
Definition zero_page : list Z := replicate (Z.to_nat kPhysicalPageSize) 0.

#[export] Instance is_page_dec p : Decision (is_page p).
Proof. unfold is_page. apply _. Defined.

Lemma zero_page_is_page : is_page zero_page.
Proof.
  unfold is_page, sizeZ, zero_page, kPhysicalPageSize. rewrite length_replicate. lia.
Qed.
#[export] Hint Resolve zero_page_is_page : kdbg.
#[global] Opaque zero_page.

(** ** core/model/PhysicalRange.h *)

Record PhysicalRange := mkPhysicalRange { range_base : Z; range_length : Z }.

Definition IsValid (r : PhysicalRange) : bool :=
  negb (range_length r =? 0) && (range_base r <=? u64_max - range_length r).

Definition Contains (r : PhysicalRange) (address size : Z) : bool :=
  if negb (IsValid r) || (size =? 0) then false
  else if u64_max - size <? address then false
  else
    let range_end := u64 (range_base r + range_length r) in
    let request_end := u64 (address + size) in
    (range_base r <=? address) && (request_end <=? range_end).

(** ** core/model/MemorySpace.h *)

Inductive MemorySpaceKind := Physical | ProcessVirtual | KernelVirtual.

#[export] Instance MemorySpaceKind_eq_dec : EqDecision MemorySpaceKind.
Proof. solve_decision. Defined.

Record MemorySpace := mkMemorySpace {
  kind : MemorySpaceKind;
  pid : Z;
  directory_table_base : Z;
  label : string
}.

#[export] Instance MemorySpace_eq_dec : EqDecision MemorySpace.
Proof. solve_decision. Defined.

Definition PhysicalSpace : MemorySpace := mkMemorySpace Physical 0 0 "Physical memory".
Definition ProcessSpace (process_id dtb : Z) (display : string) : MemorySpace :=
  mkMemorySpace ProcessVirtual process_id dtb
    (if bool_decide (display = "") then "PID " +:+ dec_string process_id else display).
Definition KernelSpace : MemorySpace := mkMemorySpace KernelVirtual 0 0 "Kernel virtual memory".

Record ProcessContext := mkProcessContext {
  pc_pid : Z;
  pc_flags : Z;
  pc_eprocess : Z;
  pc_directory_table_base : Z;
  pc_wow64 : bool
}.

Record BackendSessionStatus := mkBackendSessionStatus {
  bs_flags : Z;
  bs_owner_pid : Z;
  bs_current_pid : Z;
  bs_open_handle_count : Z;
  bs_successful_reads : Z;
  bs_successful_writes : Z;
  bs_rejected_writes : Z;
  bs_last_physical_write_status : Z;
  bs_last_physical_write_stage : Z;
  bs_last_physical_write_transferred : Z;
  bs_write_enabled : bool
}.

#[export] Instance BackendSessionStatus_eta : Eta BackendSessionStatus := fun s =>
  mkBackendSessionStatus (bs_flags s) (bs_owner_pid s) (bs_current_pid s)
    (bs_open_handle_count s) (bs_successful_reads s) (bs_successful_writes s)
    (bs_rejected_writes s) (bs_last_physical_write_status s) (bs_last_physical_write_stage s)
    (bs_last_physical_write_transferred s) (bs_write_enabled s).

Definition default_session_status : BackendSessionStatus :=
  mkBackendSessionStatus 0 0 0 0 0 0 0 0 0 0 false.

(** ** core/model/BackendInfo.h *)

Record BackendInfo := mkBackendInfo {
  bi_name : string;
  bi_abi_version : Z;
  bi_connected : bool;
  bi_write_enabled : bool;
  bi_is_mock : bool;
  bi_supports_process_context : bool;
  bi_supports_fixture : bool;
  bi_supports_la57 : bool;
  bi_supports_physical_page_compare_write : bool
}.

(** ** core/model/WriteDiff.h *)

Record ByteDiff := mkByteDiff { bd_offset : Z; bd_before : Z; bd_after : Z }.
Record DiffRun := mkDiffRun { dr_offset : Z; dr_before : list Z; dr_after : list Z }.

(** ** Facts about ranges *)

(** [Contains] decides inclusion of the whole request without wrap-around. *)
Lemma Contains_spec r address size :
  is_u64 (range_base r) → is_u64 (range_length r) → is_u64 address → is_u64 size →
  Contains r address size = true ↔
  0 < size ∧ range_base r ≤ address ∧
  address + size ≤ range_base r + range_length r ≤ u64_max.
Proof.
  unfold is_u64, Contains, IsValid. intros Hb Hl Ha Hs.
  destruct (Z.eqb_spec (range_length r) 0) as [E|E]; simpl; [lia|].
  destruct (Z.leb_spec (range_base r) (u64_max - range_length r)); simpl; [|lia].
  destruct (Z.eqb_spec size 0); [lia|].
  destruct (Z.ltb_spec (u64_max - size) address); [lia|].
  rewrite !u64_id by (unfold is_u64; lia).
  rewrite andb_true_iff, !Z.leb_le. lia.
Qed.
