(* ===== verification/PfnAddress.v ===== *)
(** [core/pfn/PfnAddress] and [core/model/PhysicalWriteTarget.h]: page frame
    numbers, their text form, and the provenance of a write target. *)

From S2P Require Import Prelude CppStd Common.
From Stdlib Require Import Ascii.

(** ** Data *)

Record PfnAddress := mkPfnAddress { pfn : Z; physical_address : Z }.

#[export] Instance PfnAddress_eq_dec : EqDecision PfnAddress.
Proof. solve_decision. Defined.

Definition kMaxPfn : Z := Z.shiftr u64_max 12.

(** ** Operations *)

Definition FromPfn (pfn : Z) : Result PfnAddress :=
  if kMaxPfn <? pfn then
    Failure (MakeError AddressOverflow
      "PFN shifted by 12 would overflow a 64-bit physical address" "PfnAddress::FromPfn")
  else
    let physical_address := u64 (Z.shiftl pfn 12) in
    if u64_max - kPhysicalPageSize <? physical_address then
      Failure (MakeError AddressOverflow
        "Physical page end would overflow a 64-bit address" "PfnAddress::FromPfn")
    else Success (mkPfnAddress pfn physical_address).

Definition is_blank (c : ascii) : bool :=
  (char_code c =? 32) || (char_code c =? 9).

Fixpoint trim_front (text : chars) : chars :=
  match text with
  | c :: rest => if is_blank c then trim_front rest else text
  | [] => []
  end.
Definition trim_back (text : chars) : chars := reverse (trim_front (reverse text)).

Definition Parse (input : chars) : Result PfnAddress :=
  let text := trim_back (trim_front input) in
  match text with
  | [] => Failure (MakeError InvalidPfn "PFN input is empty" "PfnAddress::Parse")
  | front :: _ =>
      if (char_code front =? 45) || (char_code front =? 43) then
        Failure (MakeError InvalidPfn "Signed PFN input is not accepted" "PfnAddress::Parse")
      else
        let '(base, text) :=
          match text with
          | c0 :: c1 :: rest =>
              if (2 <? sizeZ text) && (char_code c0 =? 48) &&
                 ((char_code c1 =? 120) || (char_code c1 =? 88))
              then (16, rest) else (10, text)
          | _ => (10, text)
          end in
        match text with
        | [] => Failure (MakeError InvalidPfn
                  "PFN value is missing after prefix" "PfnAddress::Parse")
        | _ =>
            let parse := from_chars_unsigned base u64_max text in
            if negb (bool_decide (fc_ec parse = errc_ok)) ||
               negb (bool_decide (fc_ptr parse = [])) then
              Failure (MakeError InvalidPfn
                "PFN must be an unsigned decimal or 0x-prefixed hexadecimal integer"
                "PfnAddress::Parse")
            else FromPfn (fc_value parse)
        end
  end.

Definition IsConsistent (a : PfnAddress) : bool :=
  if kMaxPfn <? pfn a then false
  else
    let expected_address := u64 (Z.shiftl (pfn a) 12) in
    (expected_address =? physical_address a) &&
    (expected_address <=? u64_max - kPhysicalPageSize).

(** ** core/model/PhysicalWriteTarget.h *)

Inductive PhysicalTargetKind := RawPfn | ProbeFixture | ProcessMapping.

#[export] Instance PhysicalTargetKind_eq_dec : EqDecision PhysicalTargetKind.
Proof. solve_decision. Defined.

Record PhysicalWriteTarget := mkPhysicalWriteTarget {
  target_kind : PhysicalTargetKind;
  address : PfnAddress;
  process_id : option Z;
  virtual_page_address : option Z
}.

Definition TargetRawPfn (a : PfnAddress) : PhysicalWriteTarget :=
  mkPhysicalWriteTarget RawPfn a None None.
Definition TargetProbeFixture (a : PfnAddress) : PhysicalWriteTarget :=
  mkPhysicalWriteTarget ProbeFixture a None None.
Definition TargetProcessMapping (a : PfnAddress) (pid virtual_page : Z) : PhysicalWriteTarget :=
  mkPhysicalWriteTarget ProcessMapping a (Some pid) (Some virtual_page).

Definition TargetIsConsistent (t : PhysicalWriteTarget) : bool :=
  if negb (IsConsistent (address t)) then false
  else match target_kind t with
  | RawPfn | ProbeFixture =>
      bool_decide (process_id t = None) && bool_decide (virtual_page_address t = None)
  | ProcessMapping =>
      match process_id t, virtual_page_address t with
      | Some p, Some va => negb (p =? 0) && (va `mod` kPhysicalPageSize =? 0)
      | _, _ => false
      end
  end.

(** ** Facts *)

Lemma kMaxPfn_value : kMaxPfn = 4503599627370495.
Proof. reflexivity. Qed.

Lemma shiftl12 x : Z.shiftl x 12 = 4096 * x.
Proof. rewrite Z.shiftl_mul_pow2 by lia. change (2 ^ 12) with 4096. lia. Qed.

(** The arithmetic content of the consistency test. *)
Lemma IsConsistent_spec a :
  is_u64 (pfn a) →
  IsConsistent a = true ↔
  physical_address a = 4096 * pfn a ∧ physical_address a + kPhysicalPageSize ≤ u64_max.
Proof.
  unfold IsConsistent, kPhysicalPageSize, is_u64. rewrite kMaxPfn_value, shiftl12. intros Hp.
  destruct (Z.ltb_spec 4503599627370495 (pfn a)); [lia|].
  rewrite u64_id by (unfold is_u64; lia). rewrite andb_true_iff, Z.eqb_eq, Z.leb_le. lia.
Qed.

(** [FromPfn] succeeds exactly on the PFNs whose complete page has a 64-bit
    end address, and then yields the consistent address pair. *)
Lemma FromPfn_spec p :
  is_u64 p →
  if decide (p < 4503599627370495) then
    FromPfn p = Success (mkPfnAddress p (4096 * p))
  else fails_with AddressOverflow (FromPfn p).
Proof.
  unfold FromPfn, kPhysicalPageSize, is_u64. rewrite kMaxPfn_value, shiftl12. intros Hp.
  case_decide as Hlt.
  - destruct (Z.ltb_spec 4503599627370495 p); [lia|].
    rewrite u64_id by (unfold is_u64; lia).
    destruct (Z.ltb_spec (u64_max - 0x1000) (4096 * p)); [lia|done].
  - destruct (Z.ltb_spec 4503599627370495 p); [done|].
    rewrite u64_id by (unfold is_u64; lia).
    destruct (Z.ltb_spec (u64_max - 0x1000) (4096 * p)); [done|lia].
Qed.

Lemma digit_char_not_blank upper d : 0 ≤ d < 16 → is_blank (digit_char upper d) = false.
Proof.
  intros Hd.
  assert (d = 0 ∨ d = 1 ∨ d = 2 ∨ d = 3 ∨ d = 4 ∨ d = 5 ∨ d = 6 ∨ d = 7 ∨ d = 8 ∨ d = 9 ∨
    d = 10 ∨ d = 11 ∨ d = 12 ∨ d = 13 ∨ d = 14 ∨ d = 15) as Hcases by lia.
  repeat destruct Hcases as [-> | Hcases]; try subst d; by destruct upper.
Qed.

(** Trimming stops at the first character that is not a blank. *)
Definition starts_solid (t : chars) : Prop :=
  match t with c :: _ => is_blank c = false | [] => False end.

Lemma trim_front_app pre t :
  Forall (λ c, is_blank c = true) pre → starts_solid t → trim_front (pre ++ t) = t.
Proof.
  intros Hpre Ht. induction Hpre as [|c pre Hc _ IH]; simpl.
  - destruct t as [|c t]; [done|]. simpl in *. by rewrite Ht.
  - by rewrite Hc.
Qed.
Lemma trim_padded pre t post :
  Forall (λ c, is_blank c = true) pre → Forall (λ c, is_blank c = true) post →
  starts_solid t → starts_solid (reverse t) →
  trim_back (trim_front (pre ++ t ++ post)) = t.
Proof.
  intros Hpre Hpost Hs Hr. rewrite trim_front_app; [|done|by destruct t].
  unfold trim_back. rewrite reverse_app.
  rewrite trim_front_app; [apply reverse_involutive | by apply Forall_reverse | done].
Qed.

Lemma print_number_solid upper base n :
  2 ≤ base ≤ 16 → 0 ≤ n →
  ∃ d ds, print_number upper base n = digit_char upper d :: (digit_char upper <$> ds) ∧
          Forall (λ d, 0 ≤ d < base) (d :: ds).
Proof.
  intros Hb Hn. unfold print_number.
  pose proof (zdigits_range (Z.to_nat (Z.log2 n + 1)) base n ltac:(lia) Hn) as Hr.
  replace (Z.to_nat (Z.log2 n + 1)) with (S (Z.to_nat (Z.log2 n))) in *
    by (pose proof (Z.log2_nonneg n); lia).
  destruct (zdigits _ base n) as [|d ds] eqn:E; [by apply zdigits_nonempty in E|].
  by exists d, ds.
Qed.
Lemma digits_rev_solid upper base d ds :
  base ≤ 16 → Forall (λ d, 0 ≤ d < base) (d :: ds) →
  starts_solid (reverse (digit_char upper <$> d :: ds)).
Proof.
  intros Hb Hds. rewrite <- fmap_reverse. apply Forall_reverse in Hds.
  destruct (reverse (d :: ds)) as [|e es] eqn:E.
  - by apply (f_equal length) in E; rewrite length_reverse in E.
  - inversion Hds; subst. simpl. apply digit_char_not_blank. lia.
Qed.

Lemma Parse_decimal upper n :
  is_u64 n →
  match print_number upper 10 n with
  | c0 :: c1 :: _ => ¬ (char_code c1 = 120 ∨ char_code c1 = 88)
  | _ => True
  end ∧
  match print_number upper 10 n with
  | c0 :: _ => ¬ (char_code c0 = 45 ∨ char_code c0 = 43)
  | _ => False
  end.
Proof.
  intros [Hn _]. destruct (print_number_solid upper 10 n) as (d & ds & -> & Hds); [lia..|].
  assert (∀ e, 0 ≤ e < 10 → char_code (digit_char upper e) = e + 48) as Hc.
  { intros e He. unfold digit_char, char_code. destruct (Z.ltb_spec e 10); [|lia].
    rewrite N_ascii_embedding by lia. lia. }
  apply Forall_cons_1 in Hds as [Hd Hds]. split; [|rewrite Hc by lia; lia].
  destruct ds as [|e ds]; [done|]. apply Forall_cons_1 in Hds as [He _]. simpl.
  rewrite Hc by lia. lia.
Qed.

Lemma Parse_digits upper base n prefix pre post :
  (base = 10 ∧ prefix = []) ∨ (base = 16 ∧ prefix = str "0x") →
  is_u64 n →
  Forall (λ c, is_blank c = true) pre → Forall (λ c, is_blank c = true) post →
  Parse (pre ++ (prefix ++ print_number upper base n) ++ post) = FromPfn n.
Proof.
  intros Hbase Hn Hpre Hpost. pose proof Hn as [Hn0 Hn1].
  assert (2 ≤ base ≤ 16) as Hb by (destruct Hbase; lia).
  destruct (print_number_solid upper base n) as (d & ds & Hprint & Hds); [lia..|].
  pose proof (from_chars_print upper base u64_max n Hb ltac:(lia)) as Hfc.
  unfold Parse. rewrite trim_padded; [|done|done| |].
  - destruct Hbase as [[-> ->] | [-> ->]].
    + destruct (Parse_decimal upper n Hn) as [H1 H0]. simpl.
      destruct (print_number upper 10 n) as [|c0 [|c1 rest]] eqn:E; [done| |].
      * destruct (_ || _)%bool eqn:?; [boolify; lia|]. by rewrite Hfc.
      * destruct (_ || _)%bool eqn:?; [boolify; lia|].
        destruct (_ && _)%bool eqn:?; [boolify; lia|]. by rewrite Hfc.
    + simpl. rewrite Hprint in *. simpl.
      change (char_code "0" =? 45) with false. change (char_code "0" =? 43) with false. simpl.
      destruct (Z.ltb_spec 2 (sizeZ ("0"%char :: "x"%char :: digit_char upper d ::
        (digit_char upper <$> ds)))) as [_|Hs]; [|unfold sizeZ in Hs; simpl in Hs; lia].
      simpl. by rewrite Hfc.
  - destruct Hbase as [[-> ->] | [-> ->]]; [|done]. rewrite Hprint. simpl.
    apply digit_char_not_blank. apply Forall_cons_1 in Hds as [Hd _]. lia.
  - rewrite reverse_app, Hprint.
    pose proof (digits_rev_solid upper base d ds ltac:(lia) Hds) as Hs. csimpl in *.
    by destruct (reverse _).
Qed.

(** Text round trip: a PFN printed in decimal, or in hexadecimal with the
    [0x] prefix and either letter case, with any blanks around it, parses back
    to exactly the address [FromPfn] builds for that PFN (including its
    overflow error for PFNs whose page would leave the 64-bit space). *)
Theorem Parse_print_roundtrip upper n pre post :
  is_u64 n →
  Forall (λ c, is_blank c = true) pre → Forall (λ c, is_blank c = true) post →
  Parse (pre ++ print_number upper 10 n ++ post) = FromPfn n ∧
  Parse (pre ++ (str "0x" ++ print_number upper 16 n) ++ post) = FromPfn n.
Proof.
  intros. split.
  - apply (Parse_digits upper 10 n []); auto.
  - apply Parse_digits; auto.
Qed.

Lemma Parse_print_roundtrip_witness :
  Parse (str " " ++ print_number true 10 7421 ++ []) = Success (mkPfnAddress 7421 30396416) ∧
  Parse (str " " ++ (str "0x" ++ print_number true 16 7421) ++ []) =
    Success (mkPfnAddress 7421 30396416).
Proof.
  apply (Parse_print_roundtrip true 7421 (str " ") []); [split; lia | | constructor].
  repeat constructor.
Defined.

(** Every accepted PFN text denotes one complete page: the address is
    [pfn << 12] without wrap-around, the page end fits in 64 bits, and the pair
    passes the consistency test that the page session relies on. *)
Theorem Parse_sound text a :
  Parse text = Success a →
  IsConsistent a = true ∧ physical_address a = 4096 * pfn a ∧
  0 ≤ pfn a < 4503599627370495 ∧ physical_address a + kPhysicalPageSize ≤ u64_max.
Proof.
  unfold Parse. intros H.
  destruct (trim_back (trim_front text)) as [|c0 t]; [done|].
  destruct ((char_code c0 =? 45) || _)%bool; [done|].
  match type of H with (let '(b, x) := ?m in _) = _ => destruct m as [base rest] eqn:E end.
  assert (0 ≤ base) as Hb by (repeat case_match; simplify_eq; lia).
  destruct rest as [|r rest]; [done|].
  destruct (from_chars_unsigned base u64_max (r :: rest)) as [ec v ptr] eqn:Hfc. simpl in H.
  destruct (bool_decide_reflect (ec = errc_ok)) as [->|]; [|done].
  destruct (bool_decide (ptr = [])); [|done]. simpl in H.
  apply from_chars_unsigned_ok in Hfc; [|done].
  pose proof (FromPfn_spec v Hfc) as Hspec. rewrite H in Hspec.
  case_decide; [|done]. injection Hspec as ->.
  rewrite IsConsistent_spec by (unfold is_u64; simpl; lia).
  unfold kPhysicalPageSize. simpl. lia.
Qed.

Lemma Parse_sound_witness :
  IsConsistent (mkPfnAddress 26 106496) = true ∧ 106496 = 4096 * 26 ∧
  0 ≤ 26 < 4503599627370495 ∧ 106496 + kPhysicalPageSize ≤ u64_max.
Proof. apply (Parse_sound (str "0x1A") (mkPfnAddress 26 106496)). reflexivity. Defined.
