(* ===== verification/X64PageTable.v ===== *)
(** [core/paging/X64PageTable]: the x64 page-table entry format, virtual-address
    indices for 4- and 5-level paging, canonical addresses and leaf addresses. *)

From S2P Require Import Prelude Common.

(** ** Bit fields as arithmetic *)

Lemma land_field x k n :
  0 ≤ k → 0 ≤ n → Z.land x (Z.shiftl (Z.ones n) k) = (x `div` 2 ^ k) `mod` 2 ^ n * 2 ^ k.
Proof.
  intros Hk Hn. rewrite <- Z.shiftl_mul_pow2, <- Z.land_ones, <- Z.shiftr_div_pow2 by lia.
  apply Z.bits_inj'. intros i Hi. rewrite Z.land_spec, !Z.shiftl_spec by lia.
  destruct (Z.ltb_spec i k).
  - rewrite !(Z.testbit_neg_r _ (i - k)) by lia. by rewrite andb_false_r.
  - rewrite Z.land_spec, Z.shiftr_spec by lia. do 2 f_equal. lia.
Qed.

Lemma lor_add a b k :
  0 ≤ k → 0 ≤ b < 2 ^ k → a `mod` 2 ^ k = 0 → Z.lor a b = a + b.
Proof.
  intros Hk Hb Ha. rewrite <- (Z.add_lor_land a b).
  replace (Z.land a b) with 0; [lia|]. symmetry.
  apply Z.bits_inj'. intros i Hi. rewrite Z.land_spec, Z.bits_0.
  destruct (Z.ltb_spec i k).
  - replace (Z.testbit a i) with false; [done|].
    rewrite <- (Z.mod_pow2_bits_low a k i) by lia. by rewrite Ha, Z.bits_0.
  - replace b with (b `mod` 2 ^ k) by (apply Z.mod_small; lia).
    rewrite Z.mod_pow2_bits_high by lia. apply andb_false_r.
Qed.

(** ** Data *)

Definition kX64PageEntryAddressMask : Z := 0x000FFFFFFFFFF000.
Definition kX64MaxPageFrameNumber : Z := Z.shiftr kX64PageEntryAddressMask 12.

Inductive PagingLevel := Pml5 | Pml4 | Pdpt | Pd | Pt.

#[export] Instance PagingLevel_eq_dec : EqDecision PagingLevel.
Proof. solve_decision. Defined.

Record VirtualAddressIndices := mkIndices {
  idx_pml5 : Z;
  idx_pml4 : Z;
  idx_pdpt : Z;
  idx_pd : Z;
  idx_pt : Z;
  idx_offset : Z;
  idx_la57 : bool
}.

Record PageEntryFlags := mkPageEntryFlags {
  present : bool;
  writable : bool;
  user : bool;
  write_through : bool;
  cache_disable : bool;
  accessed : bool;
  dirty : bool;
  page_size : bool;
  global : bool;
  no_execute : bool;
  protection_key : Z;
  entry_pfn : Z
}.

Record TranslationStep := mkTranslationStep {
  step_level : PagingLevel;
  step_index : Z;
  step_entry_physical_address : Z;
  step_entry_value : Z;
  step_next_pfn : Z;
  step_flags : PageEntryFlags
}.

Record TranslationWalk := mkTranslationWalk {
  walk_directory_table_base : Z;
  walk_virtual_address : Z;
  walk_physical_address : Z;
  walk_page_size : Z;
  walk_page_offset : Z;
  walk_la57 : bool;
  walk_translated : bool;
  walk_steps : list TranslationStep
}.

(** ** Operations *)

Definition IsCanonical48 (address : Z) : bool :=
  let bit47 := Z.land (Z.shiftr address 47) 1 in
  let upper := Z.shiftr address 48 in
  if bit47 =? 0 then upper =? 0 else upper =? 0xFFFF.

Definition IsCanonical57 (address : Z) : bool :=
  let bit56 := Z.land (Z.shiftr address 56) 1 in
  let upper := Z.shiftr address 57 in
  if bit56 =? 0 then upper =? 0 else upper =? 0x7F.

Definition Decode (virtual_address : Z) (la57_enabled : bool) : Result VirtualAddressIndices :=
  let canonical :=
    if la57_enabled then IsCanonical57 virtual_address else IsCanonical48 virtual_address in
  if negb canonical then
    Failure (MakeError InvalidArgument
      "Virtual address is not canonical for the selected paging mode"
      "VirtualAddressIndices::Decode")
  else Success {|
    idx_offset := u16 (Z.land virtual_address 0xFFF);
    idx_pt := u16 (Z.land (Z.shiftr virtual_address 12) 0x1FF);
    idx_pd := u16 (Z.land (Z.shiftr virtual_address 21) 0x1FF);
    idx_pdpt := u16 (Z.land (Z.shiftr virtual_address 30) 0x1FF);
    idx_pml4 := u16 (Z.land (Z.shiftr virtual_address 39) 0x1FF);
    idx_pml5 := u16 (Z.land (Z.shiftr virtual_address 48) 0x1FF);
    idx_la57 := la57_enabled
  |}.

Definition entry_bit (entry n : Z) : bool := negb (Z.land entry (Z.shiftl 1 n) =? 0).

Definition DecodePageEntry (entry : Z) : PageEntryFlags := {|
  present := entry_bit entry 0;
  writable := entry_bit entry 1;
  user := entry_bit entry 2;
  write_through := entry_bit entry 3;
  cache_disable := entry_bit entry 4;
  accessed := entry_bit entry 5;
  dirty := entry_bit entry 6;
  page_size := entry_bit entry 7;
  global := entry_bit entry 8;
  protection_key := u8 (Z.land (Z.shiftr entry 59) 0xF);
  no_execute := entry_bit entry 63;
  entry_pfn := Z.shiftr (Z.land entry kX64PageEntryAddressMask) 12
|}.

Definition CanonicalizeVirtualAddress (raw_address : Z) (la57 : bool) : Z :=
  if la57 then
    let kAddressBits := Z.shiftl 1 57 - 1 in
    let raw := Z.land raw_address kAddressBits in
    if negb (Z.land raw (Z.shiftl 1 56) =? 0) then Z.lor raw (Z.lxor u64_max kAddressBits)
    else raw
  else
    let kAddressBits := Z.shiftl 1 48 - 1 in
    let raw := Z.land raw_address kAddressBits in
    if negb (Z.land raw (Z.shiftl 1 47) =? 0) then Z.lor raw (Z.lxor u64_max kAddressBits)
    else raw.

Definition LeafPhysicalAddress (level : PagingLevel) (entry virtual_address : Z) : Result Z :=
  let flags := DecodePageEntry entry in
  if negb (present flags) then
    Failure (MakeError InvalidArgument "Page-table entry is not present" "LeafPhysicalAddress")
  else match level with
  | Pt =>
      Success (Z.lor (Z.land entry kX64PageEntryAddressMask) (Z.land virtual_address 0xFFF))
  | Pd =>
      if negb (page_size flags) then
        Failure (MakeError InvalidArgument "PD entry is not a 2 MiB leaf" "LeafPhysicalAddress")
      else if negb (Z.land entry 0x00000000001FE000 =? 0) then
        Failure (MakeError InvalidArgument
          "2 MiB leaf has reserved address bits set" "LeafPhysicalAddress")
      else
        Success (Z.lor (Z.land entry 0x000FFFFFFFE00000) (Z.land virtual_address 0x1FFFFF))
  | Pdpt =>
      if negb (page_size flags) then
        Failure (MakeError InvalidArgument "PDPT entry is not a 1 GiB leaf" "LeafPhysicalAddress")
      else if negb (Z.land entry 0x000000003FFFE000 =? 0) then
        Failure (MakeError InvalidArgument
          "1 GiB leaf has reserved address bits set" "LeafPhysicalAddress")
      else
        Success (Z.lor (Z.land entry 0x000FFFFFC0000000) (Z.land virtual_address 0x3FFFFFFF))
  | Pml4 | Pml5 =>
      Failure (MakeError InvalidArgument
        "PML entry cannot be treated as a leaf" "LeafPhysicalAddress")
  end.

(** ** Facts *)

Lemma entry_bit_testbit e n : 0 ≤ n → entry_bit e n = Z.testbit e n.
Proof.
  intros Hn. unfold entry_bit. change 1 with (Z.ones 1) at 1.
  rewrite land_field by lia.
  rewrite Z.testbit_odd, Z.shiftr_div_pow2 by lia.
  change (2 ^ 1) with 2. rewrite Zmod_odd. destruct (Z.odd _); simpl.
  - pose proof (Z.pow_pos_nonneg 2 n). destruct (Z.eqb_spec (1 * 2 ^ n) 0); [lia|done].
  - done.
Qed.

Lemma testbit_top x n : 0 ≤ n → 0 ≤ x < 2 ^ (n + 1) → Z.testbit x n = (2 ^ n <=? x).
Proof.
  intros Hn Hx. rewrite Z.pow_add_r in Hx by lia. pose proof (Z.pow_pos_nonneg 2 n).
  rewrite Z.testbit_odd, Z.shiftr_div_pow2 by lia.
  destruct (Z.leb_spec (2 ^ n) x).
  - replace (x `div` 2 ^ n) with 1; [done|]. apply (Z.div_unique _ _ _ (x - 2 ^ n)); lia.
  - by rewrite Z.div_small by lia.
Qed.

(** Number of translated address bits of a paging mode. *)
Definition address_bits (la57 : bool) : Z := if la57 then 57 else 48.

(** Sign extension of the translated bits, as arithmetic. *)
Definition sign_extend (w x : Z) : Z :=
  let r := x `mod` 2 ^ w in
  if r <? 2 ^ (w - 1) then r else r + (2 ^ 64 - 2 ^ w).

Lemma Canonicalize_sign_extend raw la57 :
  CanonicalizeVirtualAddress raw la57 = sign_extend (address_bits la57) raw.
Proof.
  assert (∀ w, 1 ≤ w ≤ 64 →
    (if negb (Z.land (Z.land raw (Z.ones w)) (Z.shiftl 1 (w - 1)) =? 0)
     then Z.lor (Z.land raw (Z.ones w)) (2 ^ 64 - 2 ^ w)
     else Z.land raw (Z.ones w)) = sign_extend w raw) as Hgen.
  { intros w Hw. fold (entry_bit (Z.land raw (Z.ones w)) (w - 1)).
    rewrite entry_bit_testbit by lia. unfold sign_extend. rewrite Z.land_ones by lia.
    pose proof (Z.pow_pos_nonneg 2 w). pose proof (Z.mod_pos_bound raw (2 ^ w)).
    rewrite testbit_top by (rewrite ?Z.sub_add; lia).
    destruct (Z.leb_spec (2 ^ (w - 1)) (raw `mod` 2 ^ w)),
      (Z.ltb_spec (raw `mod` 2 ^ w) (2 ^ (w - 1))); try lia.
    rewrite Z.lor_comm, lor_add with (k := w); [lia|lia|lia|].
    replace (2 ^ 64) with (2 ^ (64 - w) * 2 ^ w)
      by (rewrite <- Z.pow_add_r by lia; f_equal; lia).
    replace (2 ^ (64 - w) * 2 ^ w - 2 ^ w) with ((2 ^ (64 - w) - 1) * 2 ^ w) by lia.
    apply Z.mod_mul. lia. }
  destruct la57; [apply (Hgen 57) | apply (Hgen 48)]; lia.
Qed.

Lemma IsCanonical_spec va (la57 : bool) :
  is_u64 va →
  (if la57 then IsCanonical57 va else IsCanonical48 va) = true ↔
  va < 2 ^ (address_bits la57 - 1) ∨ 2 ^ 64 - 2 ^ (address_bits la57 - 1) ≤ va.
Proof.
  unfold is_u64. intros Hva.
  assert (∀ n, 0 ≤ n → Z.land (Z.shiftr va n) 1 = (va `div` 2 ^ n) `mod` 2) as Hbit.
  { intros n Hn. change 1 with (Z.ones 1). by rewrite Z.land_ones, Z.shiftr_div_pow2 by lia. }
  destruct la57; simpl; unfold IsCanonical57, IsCanonical48;
    rewrite Hbit, Z.shiftr_div_pow2 by lia;
    (case_match; boolify; [rewrite Z.eqb_eq | rewrite Z.eqb_eq]).
  all: change (2 ^ 56) with 72057594037927936 in *; change (2 ^ 57) with 144115188075855872 in *;
    change (2 ^ 47) with 140737488355328 in *; change (2 ^ 48) with 281474976710656 in *;
    change (2 ^ 64) with 18446744073709551616 in *;
    change (2 ^ (57 - 1)) with 72057594037927936 in *;
    change (2 ^ (48 - 1)) with 140737488355328 in *.
  all: Z.div_mod_to_equations; lia.
Qed.

Lemma sign_extend_fixed w va :
  1 ≤ w ≤ 64 → is_u64 va →
  sign_extend w va = va ↔ va < 2 ^ (w - 1) ∨ 2 ^ 64 - 2 ^ (w - 1) ≤ va.
Proof.
  unfold is_u64, sign_extend. intros Hw Hva.
  assert (2 ^ w = 2 * 2 ^ (w - 1)) as E
    by (rewrite <- Z.pow_succ_r by lia; f_equal; lia).
  assert (2 ^ 64 = 2 ^ (64 - w) * 2 ^ w) as E64
    by (rewrite <- Z.pow_add_r by lia; f_equal; lia).
  pose proof (Z.pow_pos_nonneg 2 (w - 1)). pose proof (Z.pow_pos_nonneg 2 (64 - w)).
  pose proof (Z.mod_pos_bound va (2 ^ w)). pose proof (Z.mod_le va (2 ^ w)).
  change 18446744073709551615 with (2 ^ 64 - 1) in Hva.
  destruct (Z.ltb_spec (va `mod` 2 ^ w) (2 ^ (w - 1))) as [Hlt|Hge].
  - split; [lia|]. intros [?|?]; [apply Z.mod_small; lia|].
    exfalso. assert (va `mod` 2 ^ w = va - (2 ^ 64 - 2 ^ w)); [|lia].
    symmetry. apply (Z.mod_unique_pos _ _ (2 ^ (64 - w) - 1)); lia.
  - split; [lia|]. intros [?|?]; [rewrite Z.mod_small in Hge by lia; lia|].
    assert (va - (2 ^ 64 - 2 ^ w) = va `mod` 2 ^ w); [|lia].
    apply (Z.mod_unique_pos _ _ (2 ^ (64 - w) - 1)); lia.
Qed.

(** The address an index tuple selects, before sign extension. *)
Definition compose_indices (i : VirtualAddressIndices) : Z :=
  idx_offset i + 2 ^ 12 * idx_pt i + 2 ^ 21 * idx_pd i + 2 ^ 30 * idx_pdpt i +
  2 ^ 39 * idx_pml4 i + (if idx_la57 i then 2 ^ 48 * idx_pml5 i else 0).

Definition indices_in_range (i : VirtualAddressIndices) : Prop :=
  0 ≤ idx_offset i < 4096 ∧ 0 ≤ idx_pt i < 512 ∧ 0 ≤ idx_pd i < 512 ∧
  0 ≤ idx_pdpt i < 512 ∧ 0 ≤ idx_pml4 i < 512 ∧ 0 ≤ idx_pml5 i < 512.

Lemma index_field va k :
  0 ≤ k → u16 (Z.land (Z.shiftr va k) 0x1FF) = (va `div` 2 ^ k) `mod` 512.
Proof.
  intros Hk. change 0x1FF with (Z.ones 9). rewrite Z.land_ones, Z.shiftr_div_pow2 by lia.
  change (2 ^ 9) with 512. unfold u16. apply Z.mod_small.
  pose proof (Z.mod_pos_bound (va `div` 2 ^ k) 512). lia.
Qed.
Lemma offset_field va : u16 (Z.land va 0xFFF) = va `mod` 4096.
Proof.
  change 0xFFF with (Z.ones 12). rewrite Z.land_ones by lia. change (2 ^ 12) with 4096.
  unfold u16. apply Z.mod_small. pose proof (Z.mod_pos_bound va 4096). lia.
Qed.

(** The nine-bit fields and the offset recover the translated bits. *)
Lemma compose_fields va (la57 : bool) :
  va `mod` 4096 + 2 ^ 12 * ((va `div` 2 ^ 12) `mod` 512) +
  2 ^ 21 * ((va `div` 2 ^ 21) `mod` 512) + 2 ^ 30 * ((va `div` 2 ^ 30) `mod` 512) +
  2 ^ 39 * ((va `div` 2 ^ 39) `mod` 512) +
  (if la57 then 2 ^ 48 * ((va `div` 2 ^ 48) `mod` 512) else 0) =
  va `mod` 2 ^ address_bits la57.
Proof.
  assert (∀ k, 0 ≤ k → va `mod` 2 ^ k + 2 ^ k * ((va `div` 2 ^ k) `mod` 512) =
    va `mod` 2 ^ (k + 9)) as Hstep.
  { intros k Hk. rewrite Z.pow_add_r by lia. rewrite Z.rem_mul_r by lia.
    change (2 ^ 9) with 512. lia. }
  change (va `mod` 4096) with (va `mod` 2 ^ 12).
  rewrite (Hstep 12 ltac:(lia) : _ = va `mod` 2 ^ 21).
  rewrite (Hstep 21 ltac:(lia) : _ = va `mod` 2 ^ 30).
  rewrite (Hstep 30 ltac:(lia) : _ = va `mod` 2 ^ 39).
  rewrite (Hstep 39 ltac:(lia) : _ = va `mod` 2 ^ 48).
  destruct la57; [apply (Hstep 48); lia | simpl; apply Z.add_0_r].
Qed.

Lemma sign_extend_mod w x : 0 ≤ w → sign_extend w (x `mod` 2 ^ w) = sign_extend w x.
Proof. intros Hw. unfold sign_extend. by rewrite Z.mod_mod by (apply Z.pow_nonzero; lia). Qed.

(** Virtual-address decoding is lossless and accepts exactly the canonical
    addresses: on success every table index is below 512, the offset below
    4096, and sign-extending the recombined indices gives back the address; on
    failure the address is not its own canonical form. *)
Theorem Decode_roundtrip va la57 :
  is_u64 va →
  match Decode va la57 with
  | Success i =>
      indices_in_range i ∧ idx_la57 i = la57 ∧
      CanonicalizeVirtualAddress (compose_indices i) la57 = va
  | Failure e => code e = InvalidArgument ∧ CanonicalizeVirtualAddress va la57 ≠ va
  end.
Proof.
  intros Hva. unfold Decode.
  pose proof (IsCanonical_spec va la57 Hva) as Hcan.
  rewrite <- (sign_extend_fixed (address_bits la57) va) in Hcan
    by (destruct la57; simpl; lia || done).
  rewrite !Canonicalize_sign_extend.
  destruct (if la57 then _ else _); simpl.
  - split; [|split; [done|]].
    + unfold indices_in_range. simpl. rewrite !index_field, offset_field by lia.
      repeat split; apply Z.mod_pos_bound; lia.
    + rewrite Canonicalize_sign_extend. unfold compose_indices. simpl.
      rewrite !index_field, offset_field, compose_fields by lia.
      rewrite sign_extend_mod by (destruct la57; simpl; lia). by apply Hcan.
  - split; [done|]. intros H. by apply Hcan in H.
Qed.

Lemma Decode_roundtrip_witness :
  is_u64 0xFFFFF80000123456 ∧
  match Decode 0xFFFFF80000123456 false with
  | Success i =>
      indices_in_range i ∧ idx_la57 i = false ∧
      CanonicalizeVirtualAddress (compose_indices i) false = 0xFFFFF80000123456
  | Failure e => code e = InvalidArgument ∧
      CanonicalizeVirtualAddress 0xFFFFF80000123456 false ≠ 0xFFFFF80000123456
  end.
Proof. split; [split; lia|]. apply (Decode_roundtrip 0xFFFFF80000123456 false). split; lia. Defined.

(** ** Leaf addresses *)

Definition leaf_size (level : PagingLevel) : option Z :=
  match level with
  | Pt => Some 0x1000 | Pd => Some 0x200000 | Pdpt => Some 0x40000000
  | Pml4 | Pml5 => None
  end.

(** A present entry that the level may use as a leaf: a 4 KiB entry always, a
    large one when bit 7 is set and the address bits below its size are clear
    (bit 12 is PAT and not part of the address). *)
Definition is_leaf_entry (level : PagingLevel) (entry size : Z) : Prop :=
  leaf_size level = Some size ∧ Z.testbit entry 0 = true ∧
  (level = Pt ∨ (Z.testbit entry 7 = true ∧ (entry `div` 8192) `mod` (size `div` 8192) = 0)).

Lemma leaf_masks entry va :
  Z.lor (Z.land entry 0x000FFFFFFFFFF000) (Z.land va 0xFFF) =
    (entry `div` 2 ^ 12) `mod` 2 ^ 40 * 2 ^ 12 + va `mod` 2 ^ 12 ∧
  Z.lor (Z.land entry 0x000FFFFFFFE00000) (Z.land va 0x1FFFFF) =
    (entry `div` 2 ^ 21) `mod` 2 ^ 31 * 2 ^ 21 + va `mod` 2 ^ 21 ∧
  Z.lor (Z.land entry 0x000FFFFFC0000000) (Z.land va 0x3FFFFFFF) =
    (entry `div` 2 ^ 30) `mod` 2 ^ 22 * 2 ^ 30 + va `mod` 2 ^ 30.
Proof.
  assert (∀ k n, 0 ≤ k → 0 ≤ n →
    Z.lor (Z.land entry (Z.shiftl (Z.ones n) k)) (Z.land va (Z.ones k)) =
    (entry `div` 2 ^ k) `mod` 2 ^ n * 2 ^ k + va `mod` 2 ^ k) as H.
  { intros k n Hk Hn. rewrite land_field, Z.land_ones by lia.
    pose proof (Z.pow_pos_nonneg 2 k). pose proof (Z.mod_pos_bound va (2 ^ k)).
    apply lor_add with (k := k); [lia|lia|]. apply Z.mod_mul. lia. }
  split; [apply (H 12 40); lia|]. split; [apply (H 21 31) | apply (H 30 22)]; lia.
Qed.

Lemma reserved_bits entry k n :
  0 ≤ k → 0 ≤ n →
  (Z.land entry (Z.shiftl (Z.ones n) k) =? 0) = ((entry `div` 2 ^ k) `mod` 2 ^ n =? 0).
Proof.
  intros Hk Hn. rewrite land_field by lia. pose proof (Z.pow_pos_nonneg 2 k).
  destruct (Z.eqb_spec ((entry `div` 2 ^ k) `mod` 2 ^ n) 0) as [->|Hne]; [done|].
  apply Z.eqb_neq. nia.
Qed.

(** Refusal branches: the leaf condition contradicts what the branch tested. *)
Ltac refuse_leaf :=
  split; [done|]; intros ? (? & ? & [?|[??]]); simplify_eq; done.

(** A leaf translation keeps the offset within the page and takes the
    frame the entry names: it succeeds exactly on the entries the architecture
    allows as leaves of that level, the result is the entry's size-aligned
    52-bit frame address plus the page offset of the virtual address, and every
    other entry is refused with [InvalidArgument]. *)
Theorem LeafPhysicalAddress_spec level entry va :
  match LeafPhysicalAddress level entry va with
  | Success pa => ∃ size, is_leaf_entry level entry size ∧
      pa = (entry `mod` 2 ^ 52) `div` size * size + va `mod` size
  | Failure e => code e = InvalidArgument ∧ ∀ size, ¬ is_leaf_entry level entry size
  end.
Proof.
  destruct (leaf_masks entry va) as (H12 & H21 & H30).
  assert (∀ k n, 0 ≤ k → 0 ≤ n →
    (entry `div` 2 ^ k) `mod` 2 ^ n * 2 ^ k = (entry `mod` 2 ^ (k + n)) `div` 2 ^ k * 2 ^ k) as Hf.
  { intros k n Hk Hn. pose proof (Z.pow_pos_nonneg 2 k). pose proof (Z.pow_pos_nonneg 2 n).
    rewrite Z.pow_add_r, Z.rem_mul_r by lia.
    rewrite (Z.mul_comm (2 ^ k)), Z.div_add by lia.
    rewrite (Z.div_small (entry `mod` 2 ^ k)) by (apply Z.mod_pos_bound; lia). lia. }
  unfold LeafPhysicalAddress, is_leaf_entry. simpl. rewrite !entry_bit_testbit by lia.
  destruct (Z.testbit entry 0) eqn:Hp; simpl; [|refuse_leaf].
  destruct level; simpl; try (refuse_leaf).
  - rewrite (reserved_bits entry 13 17 ltac:(lia) ltac:(lia) : (Z.land entry 0x3FFFE000 =? 0) = _).
    destruct (Z.testbit entry 7) eqn:H7; simpl; [|refuse_leaf].
    change (2 ^ 13) with 8192. change (2 ^ 17) with (0x40000000 `div` 8192).
    destruct (Z.eqb_spec ((entry `div` 8192) `mod` (0x40000000 `div` 8192)) 0); simpl;
      [|refuse_leaf].
    exists 0x40000000. split; [auto 8|]. rewrite H30, (Hf 30 22) by lia. done.
  - rewrite (reserved_bits entry 13 8 ltac:(lia) ltac:(lia) : (Z.land entry 0x1FE000 =? 0) = _).
    destruct (Z.testbit entry 7) eqn:H7; simpl; [|refuse_leaf].
    change (2 ^ 13) with 8192. change (2 ^ 8) with (0x200000 `div` 8192).
    destruct (Z.eqb_spec ((entry `div` 8192) `mod` (0x200000 `div` 8192)) 0); simpl;
      [|refuse_leaf].
    exists 0x200000. split; [auto 8|]. rewrite H21, (Hf 21 31) by lia. done.
  - exists 0x1000. split; [auto 8|].
    unfold kX64PageEntryAddressMask. rewrite H12, (Hf 12 40) by lia. done.
Qed.
