(* ===== verification/MemoryBackend.v ===== *)
(** [core/memory/IMemoryBackend.h] and [core/memory/MemoryAccess]: the interface
    between the transaction components and whatever gives access to memory
    (the kernel driver client, or the mock), with the promises the
    transactions rely on. *)

From S2P Require Import Prelude Common X64PageTable.

(** ** Data *)

Inductive PhysicalPageCompareWriteOutcome := Applied | Conflict | OutcomeFailure.

#[export] Instance Outcome_eq_dec : EqDecision PhysicalPageCompareWriteOutcome.
Proof. solve_decision. Defined.

Record PhysicalPageCompareWriteResult := mkCompareWriteResult {
  outcome : PhysicalPageCompareWriteOutcome;
  transferred : Z;
  first_mismatch_offset : Z;
  native_status : Z;
  readback : list Z
}.

#[export] Instance CompareWriteResult_eta : Eta PhysicalPageCompareWriteResult := fun r =>
  mkCompareWriteResult (outcome r) (transferred r) (first_mismatch_offset r)
    (native_status r) (readback r).

Definition default_compare_write_result : PhysicalPageCompareWriteResult :=
  mkCompareWriteResult Conflict 0 u32_max 0 zero_page.

(** ** The interface

    A backend is an object; a virtual method is a function from its state to a
    result and its next state. *)

Class IMemoryBackend (B : Type) := {
  Open : B → Result unit * B;
  Close : B → B;
  Info : B → BackendInfo;
  QuerySessionStatus : B → Result BackendSessionStatus * B;
  GetPhysicalRanges : B → Result (list PhysicalRange) * B;
  ReadPhysical : Z → Z → B → Result (list Z) * B;
  SetWriteEnabled : bool → B → Result unit * B;
  WritePhysical : Z → list Z → B → Result Z * B;
  CompareWritePhysicalPage :
    Z → list Z → list Z → B → Result PhysicalPageCompareWriteResult * B;
  GetProcessContext : Z → B → Result ProcessContext * B;
  ReadProcessVirtual : Z → Z → Z → B → Result (list Z) * B;
  WriteProcessVirtual : Z → Z → list Z → B → Result Z * B;
  ReadKernelVirtual : Z → Z → B → Result (list Z) * B;
  TranslateVirtual : Z → Z → B → Result TranslationWalk * B
}.

(** The non-pure virtual methods a backend inherits when it does not override
    them. *)
Definition default_QuerySessionStatus {B} (info : B → BackendInfo) (b : B)
    : Result BackendSessionStatus * B :=
  if negb (bi_connected (info b)) then
    (Failure (MakeError BackendDisconnected "Memory backend is not connected"
       "IMemoryBackend::QuerySessionStatus"), b)
  else
    (Success (default_session_status <| bs_write_enabled := bi_write_enabled (info b) |>), b).
Definition default_CompareWritePhysicalPage {B} (_ : Z) (_ _ : list Z) (b : B)
    : Result PhysicalPageCompareWriteResult * B :=
  (Failure (MakeError Unsupported "This backend does not provide physical page compare/write"
     "IMemoryBackend::CompareWritePhysicalPage"), b).
Definition default_GetProcessContext {B} (_ : Z) (b : B) : Result ProcessContext * B :=
  (Failure (MakeError Unsupported "This backend does not provide process context"
     "IMemoryBackend::GetProcessContext"), b).
Definition default_ReadProcessVirtual {B} (_ _ _ : Z) (b : B) : Result (list Z) * B :=
  (Failure (MakeError Unsupported "This backend does not provide process virtual reads"
     "IMemoryBackend::ReadProcessVirtual"), b).
Definition default_WriteProcessVirtual {B} (_ _ : Z) (_ : list Z) (b : B) : Result Z * B :=
  (Failure (MakeError Unsupported "This backend does not provide process virtual writes"
     "IMemoryBackend::WriteProcessVirtual"), b).
Definition default_ReadKernelVirtual {B} (_ _ : Z) (b : B) : Result (list Z) * B :=
  (Failure (MakeError Unsupported "This backend does not provide kernel virtual reads"
     "IMemoryBackend::ReadKernelVirtual"), b).

(** ** What a backend promises

    [phys] and [gate] are a backend's abstract state: the contents of physical
    memory and whether the next write is authorised.  Gate requests never touch
    memory, and one that fails never opens the gate; a compare/write is refused
    without the gate, consumes it whatever its outcome and reports the page as
    it is afterwards.  Reads may observe concurrent changes, so they have no
    frame law; whole reads return what memory holds when they return. *)

Class BackendSpec (B : Type) `{IMemoryBackend B} := {
  phys : B → Z → Z;
  gate : B → bool;
  ranges_frame b r b' :
    GetPhysicalRanges b = (r, b') → (∀ x, phys b' x = phys b x) ∧ gate b' = gate b;
  gate_frame e b r b' :
    SetWriteEnabled e b = (r, b') → ∀ x, phys b' x = phys b x;
  gate_success e b b' : SetWriteEnabled e b = (Success tt, b') → gate b' = e;
  gate_failure e b er b' :
    SetWriteEnabled e b = (Failure er, b') → gate b = false → gate b' = false;
  compare_write_gate pa exp des b r b' :
    CompareWritePhysicalPage pa exp des b = (r, b') → gate b' = false;
  compare_write_page pa exp des b r b' :
    CompareWritePhysicalPage pa exp des b = (Success r, b') →
    is_page (readback r) ∧ mem_bytes (phys b') pa kPhysicalPageSize = readback r;
  compare_write_applied pa exp des b r b' :
    CompareWritePhysicalPage pa exp des b = (Success r, b') →
    outcome r = Applied → readback r = des;
  compare_write_conflict pa exp des b r b' :
    CompareWritePhysicalPage pa exp des b = (Success r, b') →
    outcome r = Conflict → readback r ≠ exp;
  compare_write_locked pa exp des b r b' :
    CompareWritePhysicalPage pa exp des b = (r, b') → gate b = false →
    Ok r = false ∧ ∀ x, phys b' x = phys b x;
  read_gate pa n b r b' : ReadPhysical pa n b = (r, b') → gate b' = gate b;
  read_page pa n b bytes b' :
    ReadPhysical pa n b = (Success bytes, b') → sizeZ bytes = n →
    mem_bytes (phys b') pa n = bytes
}.

(** ** core/memory/MemoryAccess.cpp *)

Section MemoryAccess.
Context {B : Type} `{IMemoryBackend B}.

Definition ReadMemory (space : MemorySpace) (address length : Z) (b : B) : Result (list Z) * B :=
  match kind space with
  | Physical => ReadPhysical address length b
  | ProcessVirtual =>
      if pid space =? 0 then
        (Failure (MakeError InvalidArgument "Process virtual reads require a PID" "ReadMemory"), b)
      else ReadProcessVirtual (pid space) address length b
  | KernelVirtual => ReadKernelVirtual address length b
  end.

Definition WriteMemory (space : MemorySpace) (address : Z) (data : list Z) (b : B)
    : Result Z * B :=
  match kind space with
  | Physical => WritePhysical address data b
  | ProcessVirtual =>
      if pid space =? 0 then
        (Failure (MakeError InvalidArgument "Process virtual writes require a PID"
           "WriteMemory"), b)
      else WriteProcessVirtual (pid space) address data b
  | KernelVirtual =>
      (Failure (MakeError Unsupported
         "KDBG intentionally exposes no arbitrary kernel-virtual write IOCTL" "WriteMemory"), b)
  end.
End MemoryAccess.
