(* ===== verification/MockMemoryBackend.v ===== *)
(** [core/memory/MockMemoryBackend]: the in-process backend with injectable
    faults.  It implements [IMemoryBackend] and keeps the interface's promises
    under every combination of faults. *)

From S2P Require Import Prelude Common X64PageTable MemoryBackend.

(** ** State *)

Record MockFaults := mkMockFaults {
  fail_open : bool;
  fail_range_query : bool;
  short_read : bool;
  short_write : bool;
  ignore_write : bool;
  mutate_before_next_read : bool;
  mutate_address : Z;
  mutate_value : Z;
  fail_write_enable_count : Z;
  fail_write_disable_count : Z;
  mutate_after_next_write : bool;
  fail_compare_write_transport : bool;
  fail_compare_write_transport_after_write : bool;
  compare_write_failure : bool;
  compare_write_native_status : Z
}.

#[export] Instance MockFaults_eta : Eta MockFaults := fun f =>
  mkMockFaults (fail_open f) (fail_range_query f) (short_read f) (short_write f)
    (ignore_write f) (mutate_before_next_read f) (mutate_address f) (mutate_value f)
    (fail_write_enable_count f) (fail_write_disable_count f) (mutate_after_next_write f)
    (fail_compare_write_transport f) (fail_compare_write_transport_after_write f)
    (compare_write_failure f) (compare_write_native_status f).

Definition no_faults : MockFaults :=
  mkMockFaults false false false false false false 0 0 0 0 false false false false 0xC0000001.

Definition kBaseAddress : Z := 0x00100000.
Definition kMemorySize : Z := 0x00100000.
Definition kVirtualBase : Z := 0x0000000140000000.
Definition kMockPid : Z := 1337.

(** [memory_] is the vector of [kMemorySize] bytes, indexed by offset; every
    access below is inside it because it is guarded by [Mock_Contains]. *)
Record MockMemoryBackend := mkMockMemoryBackend {
  memory_ : Z → Z;
  faults_ : MockFaults;
  open_ : bool;
  write_enabled_ : bool;
  write_call_count_ : Z;
  read_call_count_ : Z;
  write_enable_call_count_ : Z;
  write_disable_call_count_ : Z;
  compare_write_call_count_ : Z
}.

#[export] Instance MockMemoryBackend_eta : Eta MockMemoryBackend := fun b =>
  mkMockMemoryBackend (memory_ b) (faults_ b) (open_ b) (write_enabled_ b)
    (write_call_count_ b) (read_call_count_ b) (write_enable_call_count_ b)
    (write_disable_call_count_ b) (compare_write_call_count_ b).

(** The constructor fills [memory_[i]] with [(i * 17 + 0x3D) & 0xFF]. *)
Definition make_MockMemoryBackend : MockMemoryBackend :=
  mkMockMemoryBackend (λ index, Z.land (index * 17 + 0x3D) 0xFF) no_faults false false 0 0 0 0 0.

(** ** Operations *)

Definition Mock_Contains (physical_address length : Z) : bool :=
  Contains (mkPhysicalRange kBaseAddress kMemorySize) physical_address length.

Definition Mock_Open (b : MockMemoryBackend) : Result unit * MockMemoryBackend :=
  if fail_open (faults_ b) then
    (Failure (MakeError IoFailure "Mock open failure was injected" "MockMemoryBackend::Open"), b)
  else if open_ b then
    (Failure (MakeError BackendAlreadyOpen "Mock backend is already open"
       "MockMemoryBackend::Open"), b)
  else (Success tt, b <| open_ := true |> <| write_enabled_ := false |>).

Definition Mock_Close (b : MockMemoryBackend) : MockMemoryBackend :=
  b <| write_enabled_ := false |> <| open_ := false |>.

Definition Mock_Info (b : MockMemoryBackend) : BackendInfo :=
  mkBackendInfo "mock" 7 (open_ b) (write_enabled_ b) true true true false true.

Definition Mock_QuerySessionStatus (b : MockMemoryBackend)
    : Result BackendSessionStatus * MockMemoryBackend :=
  if negb (open_ b) then
    (Failure (MakeError BackendDisconnected "Mock backend is not open"
       "MockMemoryBackend::QuerySessionStatus"), b)
  else
    (Success (default_session_status
       <| bs_owner_pid := kMockPid |> <| bs_current_pid := kMockPid |>
       <| bs_open_handle_count := 1 |> <| bs_write_enabled := write_enabled_ b |>
       <| bs_successful_writes := write_call_count_ b |>), b).

Definition Mock_GetPhysicalRanges (b : MockMemoryBackend)
    : Result (list PhysicalRange) * MockMemoryBackend :=
  if negb (open_ b) then
    (Failure (MakeError BackendDisconnected "Mock backend is not open"
       "MockMemoryBackend::GetPhysicalRanges"), b)
  else if fail_range_query (faults_ b) then
    (Failure (MakeError IoFailure "Mock physical-range query failure was injected"
       "MockMemoryBackend::GetPhysicalRanges"), b)
  else (Success [mkPhysicalRange kBaseAddress kMemorySize], b).

(** The injected concurrent modification: before the next read, or after the
    next write, one byte changes. *)
Definition mutate_memory (b : MockMemoryBackend) : MockMemoryBackend :=
  b <| memory_ := mem_store (memory_ b) (mutate_address (faults_ b) - kBaseAddress)
                    [mutate_value (faults_ b)] |>.
Definition apply_mutate_before_read (b : MockMemoryBackend) : MockMemoryBackend :=
  if mutate_before_next_read (faults_ b) && Mock_Contains (mutate_address (faults_ b)) 1 then
    (mutate_memory b) <| faults_ := (faults_ b) <| mutate_before_next_read := false |> |>
  else b.
Definition apply_mutate_after_write (b : MockMemoryBackend) : MockMemoryBackend :=
  if mutate_after_next_write (faults_ b) && Mock_Contains (mutate_address (faults_ b)) 1 then
    (mutate_memory b) <| faults_ := (faults_ b) <| mutate_after_next_write := false |> |>
  else b.

Definition Mock_ReadPhysical (physical_address length : Z) (b : MockMemoryBackend)
    : Result (list Z) * MockMemoryBackend :=
  let b := b <| read_call_count_ := u64 (read_call_count_ b + 1) |> in
  if negb (open_ b) then
    (Failure (MakeError BackendDisconnected "Mock backend is not open"
       "MockMemoryBackend::ReadPhysical"), b)
  else if (length =? 0) || negb (Mock_Contains physical_address length) then
    (Failure (MakeErrorFull OutsidePhysicalRam "Mock read is outside the physical RAM range"
       "MockMemoryBackend::ReadPhysical" 0 length 0), b)
  else
    let b := apply_mutate_before_read b in
    let offset := physical_address - kBaseAddress in
    let completed := if short_read (faults_ b) && (1 <? length) then length / 2 else length in
    (Success (mem_bytes (memory_ b) offset completed), b).

Definition Mock_SetWriteEnabled (enabled : bool) (b : MockMemoryBackend)
    : Result unit * MockMemoryBackend :=
  if negb (open_ b) then
    (Failure (MakeError BackendDisconnected "Mock backend is not open"
       "MockMemoryBackend::SetWriteEnabled"), b)
  else if enabled then
    let b := b <| write_enable_call_count_ := u64 (write_enable_call_count_ b + 1) |> in
    let f := faults_ b in
    if negb (fail_write_enable_count f =? 0) then
      (Failure (MakeError IoFailure "Mock write-gate enable failure was injected"
         "MockMemoryBackend::SetWriteEnabled"),
       b <| faults_ := f <| fail_write_enable_count := u32 (fail_write_enable_count f - 1) |> |>)
    else (Success tt, b <| write_enabled_ := enabled |>)
  else
    let b := b <| write_disable_call_count_ := u64 (write_disable_call_count_ b + 1) |> in
    let f := faults_ b in
    if negb (fail_write_disable_count f =? 0) then
      (Failure (MakeError IoFailure "Mock write-gate disable failure was injected"
         "MockMemoryBackend::SetWriteEnabled"),
       b <| faults_ := f <| fail_write_disable_count := u32 (fail_write_disable_count f - 1) |> |>)
    else (Success tt, b <| write_enabled_ := enabled |>).

(** [std::copy_n(data.begin(), completed, memory_.begin() + offset)]. *)
Definition copy_into_memory (data : list Z) (completed offset : Z) (b : MockMemoryBackend)
    : MockMemoryBackend :=
  b <| memory_ := mem_store (memory_ b) offset (slice data 0 completed) |>.

Definition Mock_WritePhysical (physical_address : Z) (data : list Z) (b : MockMemoryBackend)
    : Result Z * MockMemoryBackend :=
  let b := b <| write_call_count_ := u64 (write_call_count_ b + 1) |> in
  if negb (open_ b) then
    (Failure (MakeError BackendDisconnected "Mock backend is not open"
       "MockMemoryBackend::WritePhysical"), b)
  else if negb (write_enabled_ b) then
    (Failure (MakeError WriteLocked "Mock write gate is locked"
       "MockMemoryBackend::WritePhysical"), b)
  else if (sizeZ data =? 0) || negb (Mock_Contains physical_address (sizeZ data)) then
    (Failure (MakeErrorFull OutsidePhysicalRam "Mock write is outside the physical RAM range"
       "MockMemoryBackend::WritePhysical" 0 (sizeZ data) 0),
     b <| write_enabled_ := false |>)
  else
    let b := b <| write_enabled_ := false |> in
    let completed :=
      if short_write (faults_ b) && (0 <? sizeZ data) then sizeZ data / 2 else sizeZ data in
    let b :=
      if negb (ignore_write (faults_ b)) then
        copy_into_memory data completed (physical_address - kBaseAddress) b
      else b in
    let b := apply_mutate_after_write b in
    (Success (u32 completed), b).

Definition Mock_CompareWritePhysicalPage (physical_address : Z)
    (expected_before desired : list Z) (b : MockMemoryBackend)
    : Result PhysicalPageCompareWriteResult * MockMemoryBackend :=
  let b := b <| compare_write_call_count_ := u64 (compare_write_call_count_ b + 1) |> in
  if negb (open_ b) then
    (Failure (MakeError BackendDisconnected "Mock backend is not open"
       "MockMemoryBackend::CompareWritePhysicalPage"), b)
  else if negb (write_enabled_ b) then
    (Failure (MakeError WriteLocked "Mock write gate is locked"
       "MockMemoryBackend::CompareWritePhysicalPage"), b)
  else
    let b := b <| write_enabled_ := false |> in
    if negb (physical_address mod kPhysicalPageSize =? 0) ||
       negb (sizeZ expected_before =? kPhysicalPageSize) ||
       negb (sizeZ desired =? kPhysicalPageSize) ||
       negb (Mock_Contains physical_address kPhysicalPageSize) then
      (Failure (MakeError InvalidArgument
         "Mock compare/write requires one aligned complete physical page"
         "MockMemoryBackend::CompareWritePhysicalPage"), b)
    else if fail_compare_write_transport (faults_ b) then
      (Failure (MakeError IoFailure "Mock compare/write transport failure was injected"
         "MockMemoryBackend::CompareWritePhysicalPage"), b)
    else
      let offset := physical_address - kBaseAddress in
      let b := apply_mutate_before_read b in
      let page := mem_bytes (memory_ b) offset kPhysicalPageSize in
      let result := default_compare_write_result in
      match first_mismatch expected_before page with
      | Some k =>
          (Success (result <| outcome := Conflict |> <| first_mismatch_offset := k |>
                           <| readback := page |>), b)
      | None =>
          let b := b <| write_call_count_ := u64 (write_call_count_ b + 1) |> in
          let completed :=
            if short_write (faults_ b) then kPhysicalPageSize / 2 else kPhysicalPageSize in
          let b :=
            if negb (ignore_write (faults_ b)) then copy_into_memory desired completed offset b
            else b in
          let b := apply_mutate_after_write b in
          if fail_compare_write_transport_after_write (faults_ b) then
            (Failure (MakeError IoFailure
               "Mock compare/write post-write transport failure was injected"
               "MockMemoryBackend::CompareWritePhysicalPage"), b)
          else
            let result := result
              <| readback := mem_bytes (memory_ b) offset kPhysicalPageSize |>
              <| transferred := completed |> in
            let readback_mismatch := first_mismatch desired (readback result) in
            if compare_write_failure (faults_ b) || bool_decide (is_Some readback_mismatch) then
              let result := result
                <| outcome := OutcomeFailure |>
                <| native_status := compare_write_native_status (faults_ b) |> in
              (Success (match readback_mismatch with
                        | Some k => result <| first_mismatch_offset := k |>
                        | None => result
                        end), b)
            else
              (Success (result <| outcome := Applied |>
                               <| first_mismatch_offset := u32_max |>), b)
      end.

Definition Mock_GetProcessContext (process_id : Z) (b : MockMemoryBackend)
    : Result ProcessContext * MockMemoryBackend :=
  if negb (open_ b) then
    (Failure (MakeError BackendDisconnected "Mock backend is not open"
       "MockMemoryBackend::GetProcessContext"), b)
  else if negb (process_id =? kMockPid) then
    (Failure (MakeError NotFound "Mock process was not found"
       "MockMemoryBackend::GetProcessContext"), b)
  else (Success (mkProcessContext process_id 1 0xFFFF800000001337 kBaseAddress false), b).

Definition Mock_ReadProcessVirtual (process_id virtual_address length : Z)
    (b : MockMemoryBackend) : Result (list Z) * MockMemoryBackend :=
  if negb (process_id =? kMockPid) || (virtual_address <? kVirtualBase) ||
     (kMemorySize <=? virtual_address - kVirtualBase) then
    (Failure (MakeError OutsidePhysicalRam
       "Mock process read is outside the fixture address space"
       "MockMemoryBackend::ReadProcessVirtual"), b)
  else Mock_ReadPhysical (kBaseAddress + (virtual_address - kVirtualBase)) length b.

Definition Mock_WriteProcessVirtual (process_id virtual_address : Z) (data : list Z)
    (b : MockMemoryBackend) : Result Z * MockMemoryBackend :=
  if negb (process_id =? kMockPid) || (virtual_address <? kVirtualBase) ||
     (kMemorySize <=? virtual_address - kVirtualBase) then
    (Failure (MakeError OutsidePhysicalRam
       "Mock process write is outside the fixture address space"
       "MockMemoryBackend::WriteProcessVirtual"), b <| write_enabled_ := false |>)
  else Mock_WritePhysical (kBaseAddress + (virtual_address - kVirtualBase)) data b.

Definition kKernelBase : Z := 0xFFFF800000000000.
Definition Mock_ReadKernelVirtual (virtual_address length : Z) (b : MockMemoryBackend)
    : Result (list Z) * MockMemoryBackend :=
  if (virtual_address <? kKernelBase) || (kMemorySize <=? virtual_address - kKernelBase) then
    (Failure (MakeError InvalidArgument
       "Mock kernel read is outside the fixture address space"
       "MockMemoryBackend::ReadKernelVirtual"), b)
  else Mock_ReadPhysical (kBaseAddress + (virtual_address - kKernelBase)) length b.

Definition Mock_TranslateVirtual (dtb virtual_address : Z) (b : MockMemoryBackend)
    : Result TranslationWalk * MockMemoryBackend :=
  if negb (open_ b) then
    (Failure (MakeError BackendDisconnected "Mock backend is not open"
       "MockMemoryBackend::TranslateVirtual"), b)
  else
    (Success (mkTranslationWalk
       (Z.land dtb (u64 (Z.lnot 0xFFF))) virtual_address
       (kBaseAddress + Z.land virtual_address (kMemorySize - 1))
       0x1000 (Z.land virtual_address 0xFFF) false true []), b).

Definition Mock_SetFaults (f : MockFaults) (b : MockMemoryBackend) : MockMemoryBackend :=
  b <| faults_ := f |>.
Definition Mock_ClearFaults (b : MockMemoryBackend) : MockMemoryBackend :=
  b <| faults_ := no_faults |>.
Definition Mock_Mutate (physical_address value : Z) (b : MockMemoryBackend) : MockMemoryBackend :=
  if negb (Mock_Contains physical_address 1) then b
  else b <| memory_ := mem_store (memory_ b) (physical_address - kBaseAddress) [value] |>.

#[export] Instance MockMemoryBackend_IMemoryBackend : IMemoryBackend MockMemoryBackend := {
  Open := Mock_Open;
  Close := Mock_Close;
  Info := Mock_Info;
  QuerySessionStatus := Mock_QuerySessionStatus;
  GetPhysicalRanges := Mock_GetPhysicalRanges;
  ReadPhysical := Mock_ReadPhysical;
  SetWriteEnabled := Mock_SetWriteEnabled;
  WritePhysical := Mock_WritePhysical;
  CompareWritePhysicalPage := Mock_CompareWritePhysicalPage;
  GetProcessContext := Mock_GetProcessContext;
  ReadProcessVirtual := Mock_ReadProcessVirtual;
  WriteProcessVirtual := Mock_WriteProcessVirtual;
  ReadKernelVirtual := Mock_ReadKernelVirtual;
  TranslateVirtual := Mock_TranslateVirtual
}.

(** ** The promises hold *)

(** Abstract state: physical memory by address; the gate of a closed backend is
    closed. *)
Definition mock_phys (b : MockMemoryBackend) : Z → Z := λ x, memory_ b (x - kBaseAddress).
Definition mock_gate (b : MockMemoryBackend) : bool := open_ b && write_enabled_ b.

Lemma mem_bytes_mock_phys b pa n :
  mem_bytes (mock_phys b) pa n = mem_bytes (memory_ b) (pa - kBaseAddress) n.
Proof. apply mem_bytes_shift. Qed.
Lemma mock_gate_before b : mock_gate (apply_mutate_before_read b) = mock_gate b.
Proof. unfold apply_mutate_before_read. by case_match. Qed.
Lemma mock_gate_after b : mock_gate (apply_mutate_after_write b) = mock_gate b.
Proof. unfold apply_mutate_after_write. by case_match. Qed.

Lemma Mock_CompareWrite_cases pa exp des b r b' :
  Mock_CompareWritePhysicalPage pa exp des b = (r, b') →
  mock_gate b' = false ∧
  (mock_gate b = false → Ok r = false ∧ memory_ b' = memory_ b) ∧
  match r with
  | Failure _ => True
  | Success res =>
      readback res = mem_bytes (memory_ b') (pa - kBaseAddress) kPhysicalPageSize ∧
      (outcome res = Applied → readback res = des) ∧
      (outcome res = Conflict → readback res ≠ exp)
  end.
Proof.
  unfold Mock_CompareWritePhysicalPage. intros H.
  set (b0 := b <| compare_write_call_count_ := _ |>) in H.
  change (mock_gate b) with (mock_gate b0). change (memory_ b) with (memory_ b0).
  destruct (open_ b0) eqn:Ho; cbn [negb] in H;
    [|simplify_eq; unfold mock_gate; by rewrite Ho].
  destruct (write_enabled_ b0) eqn:Hw; cbn [negb] in H;
    [|simplify_eq; unfold mock_gate; by rewrite Ho, Hw].
  assert (mock_gate b0 = true) as -> by (unfold mock_gate; by rewrite Ho, Hw).
  set (b0' := b0 <| write_enabled_ := false |>) in H.
  assert (mock_gate b0' = false) as Hg0 by (unfold mock_gate; apply andb_false_r).
  destruct (_ || _) eqn:Hshape in H; [by simplify_eq|]. boolify.
  destruct (fail_compare_write_transport _) in H; [by simplify_eq|].
  set (b1 := apply_mutate_before_read _) in H.
  assert (mock_gate b1 = false) as Hg1 by (unfold b1; by rewrite mock_gate_before).
  clearbody b1. clearbody b0.
  assert (is_page (mem_bytes (memory_ b1) (pa - kBaseAddress) kPhysicalPageSize)) as Hp1
    by by apply sizeZ_mem_bytes.
  destruct (first_mismatch _ _) as [k|] eqn:Hm in H.
  { simplify_eq/=. split_and!; try done. intros _ Heq. rewrite <- Heq in Hm.
    rewrite (proj2 (first_mismatch_None _ _ eq_refl) eq_refl) in Hm. done. }
  match type of H with context [apply_mutate_after_write ?x] => set (b2 := x) in H end.
  assert (mock_gate (apply_mutate_after_write b2) = false) as Hg2.
  { rewrite mock_gate_after. unfold b2. by destruct (negb _). }
  set (b3 := apply_mutate_after_write b2) in *. clearbody b3. clear b2 Hm.
  destruct (fail_compare_write_transport_after_write _) in H; [by simplify_eq|].
  destruct (_ || _) eqn:Hout in H; simplify_eq/=.
  - case_match; split_and!; done.
  - split_and!; try done. intros _. boolify. destruct (first_mismatch des _) eqn:Hd in *.
    { exfalso. naive_solver. }
    symmetry. apply first_mismatch_None in Hd; [done|].
    by rewrite sizeZ_mem_bytes.
Qed.

Lemma Mock_SetWriteEnabled_cases e b r b' :
  Mock_SetWriteEnabled e b = (r, b') →
  memory_ b' = memory_ b ∧ mock_gate b' = (if Ok r then e else mock_gate b).
Proof.
  unfold Mock_SetWriteEnabled, mock_gate. intros H. destruct (open_ b) eqn:Ho; simpl in H.
  - repeat case_match; simplify_eq/=; by rewrite ?Ho.
  - simplify_eq/=. by rewrite Ho.
Qed.
Lemma Mock_ReadPhysical_cases pa n b r b' :
  Mock_ReadPhysical pa n b = (r, b') →
  mock_gate b' = mock_gate b ∧
  match r with
  | Failure _ => memory_ b' = memory_ b
  | Success bytes =>
      sizeZ bytes = n → bytes = mem_bytes (memory_ b') (pa - kBaseAddress) n
  end.
Proof.
  unfold Mock_ReadPhysical. intros H. set (b0 := b <| read_call_count_ := _ |>) in H.
  change (mock_gate b) with (mock_gate b0).
  destruct (negb _) in H; [by simplify_eq|].
  destruct (_ || _) eqn:Hs in H; [by simplify_eq|]. simplify_eq.
  split; [apply mock_gate_before|]. intros Hn. f_equal. boolify.
  assert (0 < n) as Hn0.
  { destruct (Z.le_gt_cases n 0); [|lia]. exfalso.
    rewrite sizeZ_mem_bytes_max in Hn.
    destruct (_ && _) in Hn; [pose proof (Z.div_le_upper_bound n 2 0)|]; lia. }
  destruct (short_read _ && _) eqn:E; [|done]. simpl in Hn.
  rewrite sizeZ_mem_bytes in Hn by (apply Z.div_pos; lia). done.
Qed.

#[export] Instance MockMemoryBackend_Spec : BackendSpec MockMemoryBackend.
Proof.
  refine {| phys := mock_phys; gate := mock_gate |}.
  - simpl. unfold Mock_GetPhysicalRanges. intros. by repeat case_match; simplify_eq.
  - simpl. intros * H x. apply Mock_SetWriteEnabled_cases in H as [Hm _].
    unfold mock_phys. by rewrite Hm.
  - simpl. intros * H. by apply Mock_SetWriteEnabled_cases in H as [_ ->].
  - simpl. intros * H Hg. by apply Mock_SetWriteEnabled_cases in H as [_ ->].
  - simpl. intros * H. by apply Mock_CompareWrite_cases in H as [? _].
  - simpl. intros * H. apply Mock_CompareWrite_cases in H as (_ & _ & Hr & _).
    rewrite mem_bytes_mock_phys, Hr. split; [by apply sizeZ_mem_bytes|done].
  - simpl. intros * H. by apply Mock_CompareWrite_cases in H as (_ & _ & _ & ? & _).
  - simpl. intros * H. by apply Mock_CompareWrite_cases in H as (_ & _ & _ & _ & ?).
  - simpl. intros * H Hg. apply Mock_CompareWrite_cases in H as (_ & H & _).
    destruct (H Hg) as [? Hm]. split; [done|]. intros. unfold mock_phys. by rewrite Hm.
  - simpl. intros * H. by apply Mock_ReadPhysical_cases in H as [? _].
  - simpl. intros * H Hn. apply Mock_ReadPhysical_cases in H as [_ H].
    rewrite mem_bytes_mock_phys. symmetry. auto.
Defined.
