(* ===== verification/EditBuffer.v ===== *)
(** What the two editing sessions ([PhysicalPageSession] and
    [ProcessMemorySession]) share: the bounded edit history and the grouping of
    dirty bytes into runs, with the facts their theorems need. *)

From stdpp Require Import sorting.
From S2P Require Import Prelude Common.

(** ** Edit history *)

Record ByteEdit := mkByteEdit { edit_offset : Z; edit_before : Z; edit_after : Z }.

#[export] Instance ByteEdit_eq_dec : EqDecision ByteEdit.
Proof. solve_decision. Defined.

Definition kMaxEditHistory : Z := 4096.

(** [push_back] followed by [pop_front] when the history is over its bound. *)
Definition push_history (undo : list ByteEdit) (e : ByteEdit) : list ByteEdit :=
  if kMaxEditHistory <? sizeZ (undo ++ [e]) then drop 1 (undo ++ [e]) else undo ++ [e].

(** [pop_back()] of a deque; its [back()] is [last]. *)
Definition pop_back {A} (l : list A) : list A := take (length l - 1) l.

(** ** Runs of dirty bytes *)

(** The inner loop of [DiffRuns]: advance while the bit is set. *)
Fixpoint run_end (n : Z) (fuel : nat) (dirty : list bool) (offset : Z) : Z :=
  match fuel with
  | O => offset
  | S fuel =>
      if (offset <? n) && nth (Z.to_nat offset) dirty false
      then run_end n fuel dirty (offset + 1) else offset
  end.

(** The outer loop; every iteration advances [offset], so a fuel of one more than
    the size [n] of the buffer is enough. *)
Fixpoint diff_runs_from (n : Z) (fuel : nat) (dirty : list bool) (baseline working : list Z)
    (offset : Z) : list DiffRun :=
  match fuel with
  | O => []
  | S fuel =>
      if n <=? offset then []
      else if negb (nth (Z.to_nat offset) dirty false) then
        diff_runs_from n fuel dirty baseline working (offset + 1)
      else
        let start := offset in
        let offset := run_end n (Z.to_nat n) dirty offset in
        mkDiffRun start (slice baseline start (offset - start))
                        (slice working start (offset - start))
        :: diff_runs_from n fuel dirty baseline working offset
  end.

(** ** Facts about the history

    Read from the newest edit, the undo stack describes how the working bytes were
    reached: each edit's byte currently holds [after] and undoing it stores
    [before].  The redo stack is the mirror image. *)

Fixpoint undo_chain (w : list Z) (edits : list ByteEdit) : Prop :=
  match edits with
  | [] => True
  | e :: rest =>
      0 ≤ edit_offset e < sizeZ w ∧
      byte_at w (edit_offset e) = edit_after e ∧ edit_before e ≠ edit_after e ∧
      undo_chain (store_at w (edit_offset e) (edit_before e)) rest
  end.

Fixpoint redo_chain (w : list Z) (edits : list ByteEdit) : Prop :=
  match edits with
  | [] => True
  | e :: rest =>
      0 ≤ edit_offset e < sizeZ w ∧
      byte_at w (edit_offset e) = edit_before e ∧ edit_before e ≠ edit_after e ∧
      redo_chain (store_at w (edit_offset e) (edit_after e)) rest
  end.

Lemma undo_chain_app w l k : undo_chain w (l ++ k) → undo_chain w l.
Proof. revert w. induction l as [|e l IH]; simpl; [done|]. naive_solver. Qed.

(** Taking the newest edit back moves it from one chain to the other, and redoing
    it moves it back. *)
Lemma undo_chain_step w e undo redo :
  undo_chain w (e :: undo) → redo_chain w redo →
  let w' := store_at w (edit_offset e) (edit_before e) in
  undo_chain w' undo ∧ redo_chain w' (e :: redo).
Proof.
  intros (Hoff & Hafter & Hne & Hu) Hr w'. split; [done|]. simpl. unfold w'.
  rewrite sizeZ_store_at, byte_at_store_at, store_at_store_at by lia.
  rewrite <- Hafter, store_at_byte_at by lia. split_and!; done || lia.
Qed.
Lemma redo_chain_step w e undo redo :
  undo_chain w undo → redo_chain w (e :: redo) →
  let w' := store_at w (edit_offset e) (edit_after e) in
  undo_chain w' (e :: undo) ∧ redo_chain w' redo.
Proof.
  intros Hu (Hoff & Hbefore & Hne & Hr) w'. split; [|done]. simpl. unfold w'.
  rewrite sizeZ_store_at, byte_at_store_at, store_at_store_at by lia.
  rewrite <- Hbefore, store_at_byte_at by lia. split_and!; done || lia.
Qed.

Lemma push_history_wf w offset value undo :
  0 ≤ offset < sizeZ w → byte_at w offset ≠ value →
  sizeZ undo ≤ kMaxEditHistory → undo_chain w (reverse undo) →
  let undo' := push_history undo (mkByteEdit offset (byte_at w offset) value) in
  sizeZ undo' ≤ kMaxEditHistory ∧ undo_chain (store_at w offset value) (reverse undo').
Proof.
  intros Hoff Hne Hsz Hch undo'. unfold undo', push_history.
  set (e := mkByteEdit offset (byte_at w offset) value).
  assert (undo_chain (store_at w offset value) (reverse (undo ++ [e]))) as Hch'.
  { rewrite reverse_app. simpl. rewrite sizeZ_store_at, byte_at_store_at by lia.
    rewrite store_at_store_at, store_at_byte_at by lia. done. }
  rewrite sizeZ_app. change (sizeZ [e]) with 1.
  destruct (Z.ltb_spec kMaxEditHistory (sizeZ undo + 1)).
  - destruct undo as [|e0 undo]; [by unfold sizeZ, kMaxEditHistory in *; simpl in *; lia|].
    simpl. rewrite drop_0. split.
    + unfold sizeZ in *. rewrite length_app. simpl in *. lia.
    + rewrite <- app_comm_cons, reverse_cons in Hch'. by apply undo_chain_app in Hch'.
  - split; [|done]. rewrite sizeZ_app. change (sizeZ [e]) with 1. lia.
Qed.

Lemma last_snoc_inv {A} (l : list A) e : last l = Some e → l = pop_back l ++ [e].
Proof.
  intros Hl. unfold pop_back. apply last_Some in Hl as [l' ->].
  rewrite length_app. simpl. replace (length l' + 1 - 1)%nat with (length l') by lia.
  by rewrite take_app_length.
Qed.
Lemma pop_back_snoc {A} (l : list A) e : pop_back (l ++ [e]) = l.
Proof.
  unfold pop_back. rewrite length_app. simpl.
  replace (length l + 1 - 1)%nat with (length l) by lia. apply take_app_length.
Qed.
(** The page reached by taking edits back, newest first. *)
Definition unwind (w : list Z) (edits : list ByteEdit) : list Z :=
  foldl (λ w e, store_at w (edit_offset e) (edit_before e)) w edits.

(** ** Facts about the runs *)

Lemma dirty_bit_at a b i :
  sizeZ a = sizeZ b → 0 ≤ i < sizeZ a →
  nth (Z.to_nat i) (diff_bitmap a b) false = negb (byte_at a i =? byte_at b i).
Proof.
  intros Hl Hi. apply nth_lookup_Some. unfold diff_bitmap. apply lookup_zip_with_Some.
  exists (byte_at a i), (byte_at b i). split; [done|]. split; apply byte_at_lookup; lia.
Qed.

Lemma run_end_spec n fuel d o :
  o ≤ n →
  let e := run_end n fuel d o in
  o ≤ e ≤ n ∧
  (∀ i, o ≤ i < e → nth (Z.to_nat i) d false = true) ∧
  (n - o ≤ Z.of_nat fuel → e = n ∨ nth (Z.to_nat e) d false = false).
Proof.
  revert o. induction fuel as [|fuel IH]; intros o Ho; simpl.
  { split_and!; [lia..| |]; intros; [lia|left; lia]. }
  destruct (Z.ltb_spec o n); simpl.
  2:{ split_and!; [lia..| |left; lia]. intros; lia. }
  destruct (nth (Z.to_nat o) d false) eqn:E.
  - destruct (IH (o + 1)) as (? & Hb & Hend); [lia|]. split_and!; [lia..| |].
    + intros i Hi. destruct (decide (i = o)) as [->|]; [done|]. apply Hb. lia.
    + intros. apply Hend. lia.
  - split_and!; [lia..| |by right]. intros; lia.
Qed.

#[global] Opaque run_end.
#[global] Arguments run_end : simpl never.

Definition patch_all (w : list Z) (runs : list DiffRun) (bytes : DiffRun → list Z) : list Z :=
  foldl (λ w r, patch w (dr_offset r) (bytes r)) w runs.

Definition run_stop (r : DiffRun) : Z := dr_offset r + sizeZ (dr_after r).

(** A run is a non-empty stretch of bytes that all differ, with both versions. *)
Definition run_ok (baseline working : list Z) (r : DiffRun) : Prop :=
  let len := sizeZ (dr_after r) in
  0 ≤ dr_offset r ∧ 0 < len ∧ run_stop r ≤ sizeZ working ∧
  dr_before r = slice baseline (dr_offset r) len ∧ dr_after r = slice working (dr_offset r) len ∧
  ∀ i, dr_offset r ≤ i < run_stop r → byte_at baseline i ≠ byte_at working i.

Section Runs.
Context (base work : list Z).
Context (n : Z) (Hbase : sizeZ base = n) (Hwork : sizeZ work = n).

Let dirty := diff_bitmap base work.

Lemma dirty_nth i :
  0 ≤ i < n →
  nth (Z.to_nat i) dirty false = negb (byte_at base i =? byte_at work i).
Proof using Hbase Hwork.
  intros. unfold dirty. apply dirty_bit_at; lia.
Qed.

(** The first run found from an offset whose bit is set. *)
Lemma first_run_ok o :
  0 ≤ o < n → nth (Z.to_nat o) dirty false = true →
  let e := run_end n (Z.to_nat n) dirty o in
  let r := mkDiffRun o (slice base o (e - o)) (slice work o (e - o)) in
  run_ok base work r ∧ run_stop r = e ∧ o < e ≤ n ∧
  (e = n ∨ nth (Z.to_nat e) dirty false = false).
Proof using Hbase Hwork.
  intros Ho Hbit e r.
  destruct (run_end_spec n (Z.to_nat n) dirty o) as (He & Hb & Hend); [lia|].
  fold e in He, Hb, Hend. specialize (Hend ltac:(lia)). clearbody e.
  assert (o < e) as Hlt.
  { destruct (decide (e = o)) as [Heq|]; [|lia]. rewrite Heq in Hend.
    destruct Hend; [lia|congruence]. }
  assert (sizeZ (dr_after r) = e - o) as Hsz.
  { unfold r. simpl. apply sizeZ_slice; lia. }
  assert (run_stop r = e) as Hstop.
  { unfold run_stop. rewrite Hsz. unfold r. simpl. lia. }
  split_and!; try done; [|lia]. unfold run_ok. rewrite Hstop, Hsz.
  split_and!; simpl; try done; try lia. intros i Hi Heq.
  assert (nth (Z.to_nat i) dirty false = true) as Hi1 by (apply Hb; lia).
  rewrite dirty_nth in Hi1 by lia. apply negb_true_iff, Z.eqb_neq in Hi1. done.
Qed.

Lemma diff_runs_from_ok fuel o :
  0 ≤ o → Forall (run_ok base work) (diff_runs_from n fuel dirty base work o) ∧
  Forall (λ r, o ≤ dr_offset r) (diff_runs_from n fuel dirty base work o) ∧
  (nth (Z.to_nat o) dirty false = false →
   Forall (λ r, o < dr_offset r) (diff_runs_from n fuel dirty base work o)).
Proof using Hbase Hwork.
  revert o. induction fuel as [|fuel IH]; intros o Ho; simpl; [by repeat constructor|].
  destruct (Z.leb_spec n o); [by repeat constructor|].
  destruct (nth (Z.to_nat o) dirty false) eqn:Hbit; simpl.
  - destruct (first_run_ok o) as (Hok & Hstop & He & _); [lia|done|].
    destruct (IH (run_end n (Z.to_nat n) dirty o)) as (IH1 & IH2 & _); [lia|].
    split_and!; [by constructor| |done]. constructor; [done|].
    eapply Forall_impl; [exact IH2|]. intros r Hr. simpl in *. lia.
  - destruct (IH (o + 1)) as (IH1 & IH2 & _); [lia|].
    split_and!; [done| |intros _]; eapply Forall_impl; try exact IH2; intros r Hr; simpl in *; lia.
Qed.

Lemma diff_runs_from_sorted fuel o :
  0 ≤ o →
  StronglySorted (λ r r', run_stop r < dr_offset r') (diff_runs_from n fuel dirty base work o).
Proof using Hbase Hwork.
  revert o. induction fuel as [|fuel IH]; intros o Ho; simpl; [constructor|].
  destruct (Z.leb_spec n o); [constructor|].
  destruct (nth (Z.to_nat o) dirty false) eqn:Hbit; simpl; [|apply IH; lia].
  destruct (first_run_ok o) as (Hok & Hstop & He & Hend); [lia|done|].
  constructor; [apply IH; lia|]. rewrite Hstop.
  destruct Hend as [Hend|Hend].
  - rewrite Hend. destruct fuel; simpl; [by apply Forall_nil_2|].
    rewrite (proj2 (Z.leb_le n n)) by lia. by apply Forall_nil_2.
  - by apply diff_runs_from_ok; [lia|].
Qed.

(** Patching left to right: the processed prefix is the target, the rest the
    source. *)
Lemma diff_runs_from_patch (bytes : DiffRun → list Z) src dst fuel o w :
  sizeZ src = n → sizeZ dst = n →
  (∀ i, 0 ≤ i < n → byte_at base i = byte_at work i → byte_at src i = byte_at dst i) →
  (∀ r, run_ok base work r → bytes r = slice dst (dr_offset r) (sizeZ (dr_after r))) →
  0 ≤ o → n - o < Z.of_nat fuel → sizeZ w = n →
  (∀ i, 0 ≤ i < o → i < n → byte_at w i = byte_at dst i) →
  (∀ i, o ≤ i < n → byte_at w i = byte_at src i) →
  patch_all w (diff_runs_from n fuel dirty base work o) bytes = dst.
Proof using Hbase Hwork.
  intros Hsrc Hdst Hsame Hbytes. revert o w.
  induction fuel as [|fuel IH]; intros o w Ho Hf Hw Hlo Hhi;
    (assert (n ≤ o → w = dst) as Hdone;
     [intros; apply byte_at_ext; [congruence|]; intros i Hi; rewrite Hw in Hi; apply Hlo; lia|]);
    simpl; [apply Hdone; lia|].
  destruct (Z.leb_spec n o); [by apply Hdone|].
  destruct (nth (Z.to_nat o) dirty false) eqn:Hbit; simpl.
  - destruct (first_run_ok o) as (Hok & Hstop & He & _); [lia|done|].
    set (e := run_end n _ dirty o) in *. set (r := mkDiffRun _ _ _) in *.
    assert (sizeZ (bytes r) = e - o ∧ bytes r = slice dst o (e - o)) as [Hsz Hbs].
    { rewrite (Hbytes r Hok). assert (sizeZ (dr_after r) = e - o) as ->.
      { unfold r. simpl. apply sizeZ_slice; lia. }
      split; [|done]. apply sizeZ_slice; simpl; lia. }
    unfold patch_all. simpl. apply IH; try lia.
    + rewrite sizeZ_patch; lia.
    + intros i Hi ?. rewrite byte_at_patch, Hsz by lia.
      destruct (Z.leb_spec o i), (Z.ltb_spec i (o + (e - o))); simpl; try lia; [|apply Hlo; lia].
      rewrite Hbs, byte_at_slice by lia. f_equal. lia.
    + intros i Hi. rewrite byte_at_patch, Hsz by lia.
      destruct (Z.leb_spec o i), (Z.ltb_spec i (o + (e - o))); simpl; try lia. apply Hhi. lia.
  - apply IH; try done; try lia; [|intros; apply Hhi; lia].
    intros i Hi ?. destruct (decide (i = o)) as [->|]; [|apply Hlo; lia].
    rewrite Hhi by lia. apply Hsame; [lia|].
    rewrite dirty_nth in Hbit by lia. by apply negb_false_iff, Z.eqb_eq in Hbit.
Qed.
End Runs.
