(* ===== verification/PageSession.v ===== *)
(** [core/memory/PhysicalPageSession]: one 4 KiB physical page being edited.

    The session keeps the bytes it loaded ([baseline_]), the bytes the user
    wants ([working_]), the dirty bitmap, the edit history and the material for
    a rollback.  A write is a transaction against the backend: validate the
    page, open the one-shot gate, compare/write the whole page, close the gate,
    check what the driver read back. *)

From S2P Require Import Prelude CppStd Common PfnAddress X64PageTable MemoryBackend EditBuffer.

(** ** State *)

Inductive PageSessionState :=
  | PS_Empty
  | PS_Loading
  | PS_Clean
  | PS_Dirty
  | PS_Preflight
  | PS_Writing
  | PS_Verifying
  | PS_Conflict
  | PS_VerificationFailed
  | PS_Error.

#[export] Instance PageSessionState_eq_dec : EqDecision PageSessionState.
Proof. solve_decision. Defined.

Record PhysicalPageEvidence := mkEvidence {
  ev_baseline : option (list Z);
  ev_preflight : option (list Z);
  ev_expected_after : option (list Z);
  ev_readback : option (list Z);
  ev_independent_reload : option (list Z);
  ev_rollback : option (list Z)
}.

#[export] Instance Evidence_eta : Eta PhysicalPageEvidence := fun e =>
  mkEvidence (ev_baseline e) (ev_preflight e) (ev_expected_after e) (ev_readback e)
    (ev_independent_reload e) (ev_rollback e).

Definition empty_evidence : PhysicalPageEvidence := mkEvidence None None None None None None.

Definition Complete (e : PhysicalPageEvidence) : bool :=
  match ev_baseline e, ev_preflight e, ev_expected_after e, ev_readback e,
        ev_independent_reload e, ev_rollback e with
  | Some baseline, Some preflight, Some expected_after, Some rb, Some independent_reload,
      Some rollback =>
      bytes_eqb preflight baseline && bytes_eqb rb expected_after &&
      bytes_eqb independent_reload expected_after && bytes_eqb rollback baseline
  | _, _, _, _, _, _ => false
  end.

(** The deques hold their back at the end of the list. *)
Record PhysicalPageSession := mkSession {
  target_ : option PhysicalWriteTarget;
  baseline_ : list Z;
  working_ : list Z;
  rollback_snapshot_ : option (list Z);
  rollback_expected_ : option (list Z);
  evidence_ : PhysicalPageEvidence;
  dirty_ : list bool;
  last_conflicts_ : list Z;
  last_mismatches_ : list Z;
  undo_stack_ : list ByteEdit;
  redo_stack_ : list ByteEdit;
  state_ : PageSessionState;
  write_unlocked_ : bool;
  last_apply_verified_ : bool;
  recovery_observation_required_ : bool;
  revision_ : Z
}.

#[export] Instance Session_eta : Eta PhysicalPageSession := fun s =>
  mkSession (target_ s) (baseline_ s) (working_ s) (rollback_snapshot_ s)
    (rollback_expected_ s) (evidence_ s) (dirty_ s) (last_conflicts_ s) (last_mismatches_ s)
    (undo_stack_ s) (redo_stack_ s) (state_ s) (write_unlocked_ s) (last_apply_verified_ s)
    (recovery_observation_required_ s) (revision_ s).

Definition no_dirty : list bool := replicate (Z.to_nat kPhysicalPageSize) false.

Definition make_PhysicalPageSession : PhysicalPageSession :=
  mkSession None zero_page zero_page None None empty_evidence no_dirty [] [] [] []
    PS_Empty false false false 0.

(** ** Small helpers of the class *)

Definition bump_revision (s : PhysicalPageSession) : PhysicalPageSession :=
  s <| revision_ := u64 (revision_ s + 1) |>.

Definition ClearEvidence (s : PhysicalPageSession) : PhysicalPageSession :=
  s <| evidence_ := empty_evidence |>.

Definition LockWrite (s : PhysicalPageSession) : PhysicalPageSession :=
  s <| write_unlocked_ := false |>.

Definition ClearPageData (s : PhysicalPageSession) : PhysicalPageSession :=
  s <| target_ := None |>
    <| baseline_ := zero_page |> <| working_ := zero_page |>
    <| rollback_snapshot_ := None |> <| rollback_expected_ := None |>
    <| last_apply_verified_ := false |> <| recovery_observation_required_ := false |>
    <| evidence_ := empty_evidence |> <| dirty_ := no_dirty |>
    <| last_conflicts_ := [] |> <| last_mismatches_ := [] |>
    <| undo_stack_ := [] |> <| redo_stack_ := [] |>.

Definition RecomputeDirty (s : PhysicalPageSession) : PhysicalPageSession :=
  s <| dirty_ := diff_bitmap (baseline_ s) (working_ s) |>.

Definition FirstOffsetMessage (prefix : string) (offsets : list Z) : string :=
  match offsets with
  | [] => prefix
  | first :: rest =>
      prefix +:+ " at offset 0x" +:+ hex_string first +:+
      (if 1 <? sizeZ offsets then
         " (" +:+ dec_string (sizeZ offsets) +:+ " total mismatches)"
       else "")
  end.

Definition session_busy (st : PageSessionState) : bool :=
  match st with PS_Preflight | PS_Writing | PS_Verifying => true | _ => false end.

Definition Invalidate (s : PhysicalPageSession) : PhysicalPageSession :=
  (bump_revision (ClearPageData (LockWrite s))) <| state_ := PS_Empty |>.

(** ** Editing *)

Definition session_error (c : ErrorCode) (msg op : string) : Result unit :=
  Failure (MakeError c msg op).

Definition ApplyLocalEdit (offset value : Z) (record_history : bool) (s : PhysicalPageSession)
    : Result unit * PhysicalPageSession :=
  match target_ s with
  | None =>
      (session_error InvalidArgument "No physical page is loaded"
         "PhysicalPageSession::ApplyLocalEdit", s)
  | Some _ =>
      if kPhysicalPageSize <=? offset then
        (session_error InvalidArgument "Byte offset is outside the 4 KiB page"
           "PhysicalPageSession::ApplyLocalEdit", s)
      else if session_busy (state_ s) then
        (session_error InvalidArgument
           "The page cannot be edited while an apply operation is active"
           "PhysicalPageSession::ApplyLocalEdit", s)
      else
        let previous := byte_at (working_ s) offset in
        if previous =? value then (Success tt, s)
        else
          let s :=
            if record_history then
              s <| undo_stack_ := push_history (undo_stack_ s) (mkByteEdit offset previous value) |>
                <| redo_stack_ := [] |>
            else s in
          let s := s <| working_ := store_at (working_ s) offset value |> in
          let s := s <| dirty_ := store_at (dirty_ s) offset
            (negb (byte_at (baseline_ s) offset =? byte_at (working_ s) offset)) |> in
          let s := LockWrite (bump_revision s) in
          (Success tt, s <| state_ := if any (dirty_ s) then PS_Dirty else PS_Clean |>)
  end.

Definition EditByte (offset value : Z) (s : PhysicalPageSession)
    : Result unit * PhysicalPageSession :=
  ApplyLocalEdit offset value true s.

Definition RevertByte (offset : Z) (s : PhysicalPageSession)
    : Result unit * PhysicalPageSession :=
  if bool_decide (target_ s = None) || (kPhysicalPageSize <=? offset) then
    (session_error InvalidArgument "Cannot revert the requested byte"
       "PhysicalPageSession::RevertByte", s)
  else ApplyLocalEdit offset (byte_at (baseline_ s) offset) true s.

Definition Undo (s : PhysicalPageSession) : Result unit * PhysicalPageSession :=
  match last (undo_stack_ s) with
  | None =>
      (session_error InvalidArgument "No physical-page edit is available to undo"
         "PhysicalPageSession::Undo", s)
  | Some edit =>
      let s := s <| redo_stack_ := redo_stack_ s ++ [edit] |> in
      match ApplyLocalEdit (edit_offset edit) (edit_before edit) false s with
      | (Failure e, s) => (Failure e, s <| redo_stack_ := pop_back (redo_stack_ s) |>)
      | (Success _, s) => (Success tt, s <| undo_stack_ := pop_back (undo_stack_ s) |>)
      end
  end.

Definition Redo (s : PhysicalPageSession) : Result unit * PhysicalPageSession :=
  match last (redo_stack_ s) with
  | None =>
      (session_error InvalidArgument "No physical-page edit is available to redo"
         "PhysicalPageSession::Redo", s)
  | Some edit =>
      let s := s <| undo_stack_ := undo_stack_ s ++ [edit] |> in
      match ApplyLocalEdit (edit_offset edit) (edit_after edit) false s with
      | (Failure e, s) => (Failure e, s <| undo_stack_ := pop_back (undo_stack_ s) |>)
      | (Success _, s) => (Success tt, s <| redo_stack_ := pop_back (redo_stack_ s) |>)
      end
  end.

Definition RevertAll (s : PhysicalPageSession) : PhysicalPageSession :=
  match target_ s with
  | None => s
  | Some _ =>
      let s := s <| working_ := baseline_ s |> <| dirty_ := no_dirty |>
                 <| last_conflicts_ := [] |> <| last_mismatches_ := [] |>
                 <| undo_stack_ := [] |> <| redo_stack_ := [] |> in
      (bump_revision (LockWrite s)) <| state_ := PS_Clean |>
  end.

(** ** Unlocking one write *)

Definition UnlockForOneApply (retyped_pfn : Z) (s : PhysicalPageSession)
    : Result unit * PhysicalPageSession :=
  match target_ s with
  | None =>
      (session_error InvalidArgument "No physical page is loaded"
         "PhysicalPageSession::UnlockForOneApply", s)
  | Some target =>
      if negb (any (dirty_ s)) then
        (session_error InvalidArgument "There are no changes to apply"
           "PhysicalPageSession::UnlockForOneApply", s)
      else if negb (retyped_pfn =? pfn (address target)) then
        (session_error WriteLocked "Retyped PFN does not match the current page"
           "PhysicalPageSession::UnlockForOneApply", s)
      else (Success tt, s <| write_unlocked_ := true |>)
  end.

Definition UnlockForRollback (retyped_pfn : Z) (s : PhysicalPageSession)
    : Result unit * PhysicalPageSession :=
  match target_ s, rollback_snapshot_ s, rollback_expected_ s with
  | Some target, Some _, Some _ =>
      if negb (retyped_pfn =? pfn (address target)) then
        (session_error WriteLocked "Retyped PFN does not match the current page"
           "PhysicalPageSession::UnlockForRollback", s)
      else (Success tt, s <| write_unlocked_ := true |>)
  | _, _, _ =>
      (session_error InvalidArgument "No previous successful apply is available for rollback"
         "PhysicalPageSession::UnlockForRollback", s)
  end.

(** ** Accessors *)

Definition HasPage (s : PhysicalPageSession) : bool := bool_decide (is_Some (target_ s)).
Definition IsDirty (s : PhysicalPageSession) : bool := any (dirty_ s).
Definition DirtyCount (s : PhysicalPageSession) : Z := count (dirty_ s).
Definition CanRollback (s : PhysicalPageSession) : bool :=
  bool_decide (is_Some (rollback_snapshot_ s)) && bool_decide (is_Some (rollback_expected_ s)).
Definition CanUndo (s : PhysicalPageSession) : bool := negb (bool_decide (undo_stack_ s = [])).
Definition CanRedo (s : PhysicalPageSession) : bool := negb (bool_decide (redo_stack_ s = [])).
Definition UndoDepth (s : PhysicalPageSession) : Z := sizeZ (undo_stack_ s).
Definition RedoDepth (s : PhysicalPageSession) : Z := sizeZ (redo_stack_ s).

(** [for (offset = 0; offset < 4096; ++offset) if (dirty_.test(offset)) …]. *)
Definition ByteDiffs (s : PhysicalPageSession) : list ByteDiff :=
  omap (λ offset,
    if nth (Z.to_nat offset) (dirty_ s) false then
      Some (mkByteDiff offset (byte_at (baseline_ s) offset) (byte_at (working_ s) offset))
    else None) (seqZ 0 kPhysicalPageSize).

Definition DiffRuns (s : PhysicalPageSession) : list DiffRun :=
  diff_runs_from kPhysicalPageSize (S (Z.to_nat kPhysicalPageSize)) (dirty_ s) (baseline_ s) (working_ s) 0.

(** ** The write gate guard

    [WriteGateGuard] is RAII: [gate_Enable] and [gate_Close] return the
    guard's [enabled_] member, and [gate_destroy] is its destructor, which runs
    on every path that leaves the scope of the guard. *)

Section Backend.
Context {B : Type} `{IMemoryBackend B}.

Definition gate_Enable (b : B) : Result unit * bool * B :=
  match SetWriteEnabled true b with
  | (Failure result, b) =>
      match SetWriteEnabled false b with
      | (Failure error, b) =>
          (Failure (error <| message :=
             "Physical write-gate enable failed and fail-closed cleanup also failed: " +:+
             message error |>), false, b)
      | (Success _, b) => (Failure result, false, b)
      end
  | (Success _, b) => (Success tt, true, b)
  end.

Definition gate_Close (enabled : bool) (b : B) : Result unit * bool * B :=
  if negb enabled then (Success tt, enabled, b)
  else
    match SetWriteEnabled false b with
    | (Success _, b) => (Success tt, false, b)
    | (Failure e, b) => (Failure e, enabled, b)
    end.

Definition gate_destroy (enabled : bool) (b : B) : B :=
  if enabled then (SetWriteEnabled false b).2 else b.

(** ** Reading *)

Definition ValidatePageRange (s : PhysicalPageSession) (b : B) : Result unit * B :=
  match target_ s with
  | None =>
      (session_error InvalidArgument "No physical page is selected"
         "PhysicalPageSession::ValidatePageRange", b)
  | Some target =>
      match GetPhysicalRanges b with
      | (Failure e, b) => (Failure e, b)
      | (Success ranges, b) =>
          let found := existsb (λ range,
            Contains range (physical_address (address target)) kPhysicalPageSize) ranges in
          if negb found then
            (session_error OutsidePhysicalRam
               "The complete 4 KiB page is not inside a physical RAM range"
               "PhysicalPageSession::ValidatePageRange", b)
          else (Success tt, b)
      end
  end.

Definition ReadExactPage (s : PhysicalPageSession) (b : B) : Result (list Z) * B :=
  match target_ s with
  | None =>
      (Failure (MakeError InvalidArgument "No physical page is selected"
         "PhysicalPageSession::ReadExactPage"), b)
  | Some target =>
      match ReadPhysical (physical_address (address target)) kPhysicalPageSize b with
      | (Failure e, b) => (Failure e, b)
      | (Success bytes, b) =>
          if negb (sizeZ bytes =? kPhysicalPageSize) then
            (Failure (MakeErrorFull ShortRead "Backend did not return a complete 4 KiB page"
               "PhysicalPageSession::ReadExactPage" 0 kPhysicalPageSize (sizeZ bytes)), b)
          else (Success bytes, b)
      end
  end.

Definition Load (target : PhysicalWriteTarget) (s : PhysicalPageSession) (b : B)
    : Result unit * PhysicalPageSession * B :=
  let s := (ClearPageData (LockWrite s)) <| state_ := PS_Loading |> in
  if negb (IsConsistent (address target)) then
    (session_error InvalidPfn "PFN and physical address do not identify the same complete page"
       "PhysicalPageSession::Load", s <| state_ := PS_Error |>, b)
  else if negb (TargetIsConsistent target) then
    (session_error InvalidArgument
       "Physical write target metadata is incomplete or inconsistent"
       "PhysicalPageSession::Load", s <| state_ := PS_Error |>, b)
  else
    let s := s <| target_ := Some target |> in
    match ValidatePageRange s b with
    | (Failure e, b) => (Failure e, s <| state_ := PS_Error |> <| target_ := None |>, b)
    | (Success _, b) =>
        match ReadExactPage s b with
        | (Failure e, b) => (Failure e, s <| state_ := PS_Error |> <| target_ := None |>, b)
        | (Success page, b) =>
            let s := s <| baseline_ := page |> <| working_ := page |> in
            let s := s <| evidence_ := (evidence_ s) <| ev_baseline := Some page |> |> in
            (Success tt, (bump_revision s) <| state_ := PS_Clean |>, b)
        end
    end.

Definition LoadPfn (a : PfnAddress) (s : PhysicalPageSession) (b : B)
    : Result unit * PhysicalPageSession * B :=
  Load (TargetRawPfn a) s b.

(** The backend went away: drop everything; any other failure is reported in
    the given state. *)
Definition fail_or_invalidate (st : PageSessionState) (e : Error) (s : PhysicalPageSession)
    : PhysicalPageSession :=
  if bool_decide (code e = BackendDisconnected) then Invalidate s else s <| state_ := st |>.

Definition ReloadPreservingRollback (s : PhysicalPageSession) (b : B)
    : Result unit * PhysicalPageSession * B :=
  let op := "PhysicalPageSession::ReloadPreservingRollback" in
  match target_ s with
  | None => (session_error InvalidArgument "No physical page is loaded" op, s, b)
  | Some _ =>
  if any (dirty_ s) && negb (recovery_observation_required_ s) then
    (session_error InvalidArgument "Revert or apply staged edits before an independent reload"
       op, s, b)
  else if bool_decide (rollback_snapshot_ s = None) then
    (session_error InvalidArgument
       "Independent evidence reload requires a previous successful apply" op, s, b)
  else if session_busy (state_ s) then
    (session_error InvalidArgument
       "The page cannot be reloaded while a physical operation is active" op, s, b)
  else
    let s := s <| evidence_ := (evidence_ s) <| ev_independent_reload := None |> |> in
    let s := (LockWrite s) <| last_conflicts_ := [] |> <| last_mismatches_ := [] |> in
    match ValidatePageRange s b with
    | (Failure e, b) => (Failure e, fail_or_invalidate PS_Error e s, b)
    | (Success _, b) =>
        let s := s <| state_ := PS_Verifying |> in
        match ReadExactPage s b with
        | (Failure e, b) => (Failure e, fail_or_invalidate PS_VerificationFailed e s, b)
        | (Success reloaded, b) =>
            let s := s <| evidence_ :=
              (evidence_ s) <| ev_independent_reload := Some reloaded |> |> in
            if recovery_observation_required_ s then
              let s := s <| rollback_expected_ := Some reloaded |>
                         <| recovery_observation_required_ := false |>
                         <| baseline_ := reloaded |> <| working_ := reloaded |>
                         <| dirty_ := no_dirty |>
                         <| undo_stack_ := [] |> <| redo_stack_ := [] |> in
              let s := (bump_revision s) <| state_ := PS_Clean |> in
              let s := if bool_decide (rollback_snapshot_ s = Some reloaded) then
                         s <| rollback_snapshot_ := None |> <| rollback_expected_ := None |>
                       else s in
              (Success tt, s, b)
            else
              let s := s <| last_mismatches_ :=
                last_mismatches_ s ++ mismatch_offsets reloaded (baseline_ s) |> in
              if negb (bool_decide (last_mismatches_ s = [])) then
                (session_error VerificationMismatch
                   (FirstOffsetMessage "Independent reload does not match the verified write"
                      (last_mismatches_ s)) op,
                 s <| state_ := PS_VerificationFailed |>, b)
              else
                let s := s <| baseline_ := reloaded |> <| working_ := reloaded |>
                           <| dirty_ := no_dirty |>
                           <| undo_stack_ := [] |> <| redo_stack_ := [] |> in
                (Success tt, (bump_revision s) <| state_ := PS_Clean |>, b)
        end
    end
  end.

(** ** The write transaction

    The member updates between two backend calls are named, in source order. *)

Definition apply_begin (s : PhysicalPageSession) : PhysicalPageSession :=
  let s := (LockWrite s) <| last_apply_verified_ := false |>
             <| recovery_observation_required_ := false |>
             <| last_conflicts_ := [] |> <| last_mismatches_ := [] |> in
  (ClearEvidence s) <| evidence_ := empty_evidence <| ev_baseline := Some (baseline_ s) |> |>.

Definition apply_arm (s : PhysicalPageSession) : PhysicalPageSession :=
  s <| rollback_snapshot_ := Some (baseline_ s) |> <| rollback_expected_ := None |>
    <| evidence_ := (evidence_ s) <| ev_expected_after := Some (working_ s) |> |>.

(** The transport failed: the page may or may not have been written. *)
Definition transaction_indeterminate (s : PhysicalPageSession) : PhysicalPageSession :=
  s <| rollback_expected_ := None |> <| recovery_observation_required_ := true |>
    <| state_ := PS_VerificationFailed |>.

Definition apply_observe (result : PhysicalPageCompareWriteResult) (s : PhysicalPageSession)
    : PhysicalPageSession :=
  let s := s <| evidence_ := (evidence_ s) <| ev_readback := Some (readback result) |> |> in
  if bool_decide (outcome result = Conflict) then
    s <| evidence_ := (evidence_ s) <| ev_preflight := Some (readback result) |> |>
      <| rollback_snapshot_ := None |> <| recovery_observation_required_ := false |>
      <| last_conflicts_ :=
           last_conflicts_ s ++ mismatch_offsets (readback result) (baseline_ s) |>
  else
    s <| evidence_ := (evidence_ s) <| ev_preflight := Some (baseline_ s) |> |>
      <| rollback_expected_ := Some (readback result) |>
      <| recovery_observation_required_ := false |>.

(** Enter [Verifying] and collect the offsets that differ from what was wanted. *)
Definition verify_readback (result : PhysicalPageCompareWriteResult) (wanted : list Z)
    (s : PhysicalPageSession) : PhysicalPageSession :=
  s <| state_ := PS_Verifying |>
    <| last_mismatches_ := last_mismatches_ s ++ mismatch_offsets (readback result) wanted |>.

(** [outcome != Applied || transferred != kPhysicalPageSize || !last_mismatches_.empty()]. *)
Definition not_verified (result : PhysicalPageCompareWriteResult) (s : PhysicalPageSession) : bool :=
  negb (bool_decide (outcome result = Applied)) ||
  negb (transferred result =? kPhysicalPageSize) ||
  negb (bool_decide (last_mismatches_ s = [])).

Definition apply_commit (result : PhysicalPageCompareWriteResult) (s : PhysicalPageSession)
    : PhysicalPageSession :=
  let s := s <| baseline_ := readback result |> <| working_ := readback result |>
             <| dirty_ := no_dirty |> <| undo_stack_ := [] |> <| redo_stack_ := [] |>
             <| last_apply_verified_ := true |> in
  (bump_revision s) <| state_ := PS_Clean |>.

Definition ApplyAndVerify (s : PhysicalPageSession) (b : B)
    : Result unit * PhysicalPageSession * B :=
  let op := "PhysicalPageSession::ApplyAndVerify" in
  match target_ s with
  | None => (session_error InvalidArgument "No physical page is loaded" op, s, b)
  | Some target =>
  if negb (any (dirty_ s)) then
    (session_error InvalidArgument "There are no dirty bytes" op, s, b)
  else if negb (write_unlocked_ s) then
    (session_error WriteLocked "Write is locked for the current page" op, s, b)
  else
    let s := apply_begin s in
    match ValidatePageRange s b with
    | (Failure e, b) => (Failure e, fail_or_invalidate PS_Error e s, b)
    | (Success _, b) =>
    let s := apply_arm s in
    match gate_Enable b with
    | (Failure e, enabled, b) =>
        (Failure e, fail_or_invalidate PS_Error e (s <| rollback_snapshot_ := None |>),
         gate_destroy enabled b)
    | (Success _, enabled, b) =>
    let s := s <| state_ := PS_Writing |> in
    match CompareWritePhysicalPage (physical_address (address target))
            (baseline_ s) (working_ s) b with
    | (Failure e, b) =>
        let s := transaction_indeterminate s in
        match gate_Close enabled b with
        | (Failure e', enabled, b) => (Failure e', s, gate_destroy enabled b)
        | (Success _, enabled, b) => (Failure e, s, gate_destroy enabled b)
        end
    | (Success result, b) =>
    let s := apply_observe result s in
    match gate_Close enabled b with
    | (Failure e, enabled, b) =>
        (Failure e, s <| state_ := PS_Error |>, gate_destroy enabled b)
    | (Success _, enabled, b) =>
    let b := gate_destroy enabled b in
    if bool_decide (outcome result = Conflict) then
      (session_error ConcurrentModification
         (FirstOffsetMessage "Live page changed after it was loaded" (last_conflicts_ s)) op,
       s <| state_ := PS_Conflict |>, b)
    else
      let s := verify_readback result (working_ s) s in
      if not_verified result s then
        let error_code :=
          if negb (transferred result =? 0) && negb (transferred result =? kPhysicalPageSize)
          then ShortWrite else VerificationMismatch in
        (Failure (MakeErrorFull error_code
           (FirstOffsetMessage
              "Verified physical transaction did not produce the requested page"
              (last_mismatches_ s)) op
           (native_status result) kPhysicalPageSize (transferred result)),
         s <| state_ := PS_VerificationFailed |>, b)
      else (Success tt, apply_commit result s, b)
    end end end end
  end.

Definition rollback_begin (s : PhysicalPageSession) : PhysicalPageSession :=
  (LockWrite s) <| last_conflicts_ := [] |> <| last_mismatches_ := [] |>
    <| evidence_ := (evidence_ s) <| ev_rollback := None |> |>.

Definition rollback_observe (result : PhysicalPageCompareWriteResult) (s : PhysicalPageSession)
    : PhysicalPageSession :=
  let s := s <| evidence_ := (evidence_ s) <| ev_rollback := Some (readback result) |> |> in
  if negb (bool_decide (outcome result = Conflict)) then
    s <| rollback_expected_ := Some (readback result) |>
  else s.

Definition rollback_commit (snapshot : list Z) (s : PhysicalPageSession) : PhysicalPageSession :=
  let s := s <| baseline_ := snapshot |> <| working_ := snapshot |>
             <| rollback_snapshot_ := None |> <| rollback_expected_ := None |>
             <| recovery_observation_required_ := false |> <| dirty_ := no_dirty |>
             <| last_conflicts_ := [] |> <| last_mismatches_ := [] |>
             <| undo_stack_ := [] |> <| redo_stack_ := [] |>
             <| last_apply_verified_ := false |> in
  (bump_revision s) <| state_ := PS_Clean |>.

Definition RollbackBaseline (s : PhysicalPageSession) (b : B)
    : Result unit * PhysicalPageSession * B :=
  let op := "PhysicalPageSession::RollbackBaseline" in
  match target_ s with
  | None => (session_error InvalidArgument "No physical page is loaded" op, s, b)
  | Some target =>
  match rollback_snapshot_ s, rollback_expected_ s with
  | Some snapshot, Some expected =>
  if negb (write_unlocked_ s) then
    (session_error WriteLocked "Rollback requires a one-apply write unlock" op, s, b)
  else
    let s := rollback_begin s in
    match ValidatePageRange s b with
    | (Failure e, b) => (Failure e, fail_or_invalidate PS_Error e s, b)
    | (Success _, b) =>
    match gate_Enable b with
    | (Failure e, enabled, b) =>
        (Failure e, fail_or_invalidate PS_Error e s, gate_destroy enabled b)
    | (Success _, enabled, b) =>
    let s := s <| state_ := PS_Writing |> in
    match CompareWritePhysicalPage (physical_address (address target)) expected snapshot b with
    | (Failure e, b) =>
        let s := transaction_indeterminate s in
        match gate_Close enabled b with
        | (Failure e', enabled, b) => (Failure e', s, gate_destroy enabled b)
        | (Success _, enabled, b) => (Failure e, s, gate_destroy enabled b)
        end
    | (Success result, b) =>
    let s := rollback_observe result s in
    match gate_Close enabled b with
    | (Failure e, enabled, b) =>
        (Failure e, s <| state_ := PS_Error |>, gate_destroy enabled b)
    | (Success _, enabled, b) =>
    let b := gate_destroy enabled b in
    if bool_decide (outcome result = Conflict) then
      let s := s <| last_conflicts_ :=
        last_conflicts_ s ++ mismatch_offsets (readback result) expected |> in
      (session_error ConcurrentModification
         (FirstOffsetMessage "Live page changed before rollback" (last_conflicts_ s)) op,
       s <| state_ := PS_Conflict |>, b)
    else
      let s := verify_readback result snapshot s in
      if not_verified result s then
        (Failure (MakeErrorFull RollbackFailed
           (FirstOffsetMessage "Rollback read-back does not match the baseline"
              (last_mismatches_ s)) op
           (native_status result) kPhysicalPageSize (transferred result)),
         s <| rollback_expected_ := Some (readback result) |>
           <| state_ := PS_VerificationFailed |>, b)
      else (Success tt, rollback_commit snapshot s, b)
    end end end end
  | _, _ =>
      (session_error InvalidArgument "No previous baseline snapshot is available for rollback"
         op, s, b)
  end
  end.
End Backend.
