(* ===== verification/PageTransaction.v ===== *)
(** The well-formedness invariant of [PhysicalPageSession], that every public
    operation preserves it against any backend that keeps its promises, and the
    behaviour of the edit history.

    The write transactions of [PhysicalPageSession], [ApplyAndVerify] and
    [RollbackBaseline], against any backend that keeps its promises.

    Both run the same sequence of backend calls and differ in the page they
    expect, the page they write and how they record the outcome.  [run_tx] is
    the common sequence; [ApplyAndVerify_tx] and [RollbackBaseline_tx] show that
    the two methods are exactly it followed by their own bookkeeping. *)

From S2P Require Import Prelude CppStd Common PfnAddress X64PageTable MemoryBackend EditBuffer PageSession.

Definition opt_page (p : option (list Z)) : Prop :=
  match p with None => True | Some p => is_page p end.

(** The states a session can be in between two calls. *)
Definition at_rest (st : PageSessionState) : bool :=
  match st with PS_Loading | PS_Preflight | PS_Writing | PS_Verifying => false | _ => true end.

(** ** The invariant *)

Record session_wf (s : PhysicalPageSession) : Prop := {
  wf_baseline : is_page (baseline_ s);
  wf_working : is_page (working_ s);
  wf_snapshot : opt_page (rollback_snapshot_ s);
  wf_expected : opt_page (rollback_expected_ s);
  wf_dirty : dirty_ s = diff_bitmap (baseline_ s) (working_ s);
  wf_history_bound : sizeZ (undo_stack_ s) + sizeZ (redo_stack_ s) ≤ kMaxEditHistory;
  wf_undo : undo_chain (working_ s) (reverse (undo_stack_ s));
  wf_redo : redo_chain (working_ s) (reverse (redo_stack_ s));
  wf_rest : at_rest (state_ s) = true;
  wf_clean : state_ s = PS_Clean → working_ s = baseline_ s;
  wf_dirty_state : state_ s = PS_Dirty → working_ s ≠ baseline_ s;
  wf_target : ∀ t, target_ s = Some t → TargetIsConsistent t = true;
  wf_no_target : target_ s = None →
    baseline_ s = zero_page ∧ working_ s = zero_page ∧ rollback_snapshot_ s = None ∧
    undo_stack_ s = [] ∧ redo_stack_ s = [] ∧ write_unlocked_ s = false;
  wf_unlocked : write_unlocked_ s = true →
    working_ s ≠ baseline_ s ∨ CanRollback s = true;
  wf_rollback : is_Some (rollback_expected_ s) → is_Some (rollback_snapshot_ s);
  wf_recovery : recovery_observation_required_ s = true →
    is_Some (rollback_snapshot_ s) ∧ rollback_expected_ s = None
}.

Lemma no_dirty_diff p : is_page p → no_dirty = diff_bitmap p p.
Proof.
  intros Hp. rewrite diff_bitmap_refl. unfold no_dirty. f_equal.
  symmetry. by apply length_of_sizeZ.
Qed.
Lemma any_no_dirty : any no_dirty = false.
Proof. apply any_replicate_false. Qed.
Lemma pages_any_dirty p q : is_page p → is_page q → any (diff_bitmap p q) = false ↔ q = p.
Proof.
  intros Hp Hq. rewrite any_diff_bitmap; [split; congruence|].
  by rewrite (length_of_sizeZ p _ Hp), (length_of_sizeZ q _ Hq).
Qed.
Lemma IsDirty_spec s : session_wf s → IsDirty s = false ↔ working_ s = baseline_ s.
Proof. intros []. unfold IsDirty. rewrite wf_dirty0. by apply pages_any_dirty. Qed.

Lemma is_page_store p i v : is_page p → is_page (store_at p i v).
Proof. unfold is_page. by rewrite sizeZ_store_at. Qed.
#[export] Hint Resolve is_page_store : kdbg.
#[global] Opaque no_dirty.

(** Close the invariant's fields at a concrete record: the page fields are in
    the context, the rest is computation. *)
Ltac solve_wf_field :=
  simpl in *; first
  [ assumption
  | done
  | apply no_dirty_diff; solve [auto with kdbg]
  | solve [auto with kdbg]
  | by intros; simplify_eq/=; intuition (eauto || congruence)
  | by intros ?%is_Some_None
  | by unfold sizeZ, kMaxEditHistory in *; simpl; lia ].
Ltac solve_wf := split; try unfold CanRollback in *; try solve_wf_field.

Lemma session_wf_init : session_wf make_PhysicalPageSession.
Proof. solve_wf. Qed.
Lemma Invalidate_wf s : session_wf s → session_wf (Invalidate s).
Proof. intros _. destruct s. solve_wf. Qed.

(** ** Editing *)

(** The part of the invariant an edit needs; unlike the history it also holds
    in the middle of [Undo] and [Redo]. *)
Definition pages_wf (s : PhysicalPageSession) : Prop :=
  is_page (baseline_ s) ∧ is_page (working_ s) ∧
  dirty_ s = diff_bitmap (baseline_ s) (working_ s) ∧ at_rest (state_ s) = true.

Lemma session_pages_wf s : session_wf s → pages_wf s.
Proof. intros []. by unfold pages_wf. Qed.
#[export] Hint Resolve session_pages_wf : kdbg.

(** The session after one byte of [working_] changed. *)
Definition edited (offset value : Z) (undo redo : list ByteEdit) (s : PhysicalPageSession)
    : PhysicalPageSession :=
  let w := store_at (working_ s) offset value in
  let d := diff_bitmap (baseline_ s) w in
  s <| working_ := w |> <| dirty_ := d |> <| undo_stack_ := undo |> <| redo_stack_ := redo |>
    <| state_ := if any d then PS_Dirty else PS_Clean |> <| write_unlocked_ := false |>
    <| revision_ := u64 (revision_ s + 1) |>.

Lemma ApplyLocalEdit_change offset value rec s :
  pages_wf s → is_Some (target_ s) → 0 ≤ offset < kPhysicalPageSize →
  byte_at (working_ s) offset ≠ value →
  ApplyLocalEdit offset value rec s =
    (Success tt,
     if rec then
       edited offset value
         (push_history (undo_stack_ s) (mkByteEdit offset (byte_at (working_ s) offset) value))
         [] s
     else edited offset value (undo_stack_ s) (redo_stack_ s) s).
Proof.
  intros (Hb & Hw & Hd & Hr) [t Ht] Hoff Hne. unfold ApplyLocalEdit. rewrite Ht.
  destruct (Z.leb_spec kPhysicalPageSize offset); [lia|].
  assert (session_busy (state_ s) = false) as -> by by destruct (state_ s).
  destruct (Z.eqb_spec (byte_at (working_ s) offset) value); [done|].
  unfold is_page, edited in *. destruct s, rec; simpl in *; subst;
    rewrite byte_at_store_at by lia; by rewrite diff_bitmap_store_at by lia.
Qed.

Lemma EditByte_change offset value s :
  pages_wf s → is_Some (target_ s) → 0 ≤ offset < kPhysicalPageSize →
  byte_at (working_ s) offset ≠ value →
  EditByte offset value s =
    (Success tt, edited offset value
       (push_history (undo_stack_ s) (mkByteEdit offset (byte_at (working_ s) offset) value)) [] s).
Proof. intros. unfold EditByte. by rewrite ApplyLocalEdit_change. Qed.

(** Otherwise nothing changes. *)
Lemma ApplyLocalEdit_same offset value rec s :
  pages_wf s → target_ s = None ∨ kPhysicalPageSize ≤ offset ∨ byte_at (working_ s) offset = value →
  ∃ r, ApplyLocalEdit offset value rec s = (r, s).
Proof.
  intros (_ & _ & _ & Hr) Hcase. unfold ApplyLocalEdit.
  destruct (target_ s); [|eauto].
  destruct (Z.leb_spec kPhysicalPageSize offset); [eauto|].
  assert (session_busy (state_ s) = false) as -> by by destruct (state_ s).
  destruct (Z.eqb_spec (byte_at (working_ s) offset) value); [eauto|]. exfalso. naive_solver lia.
Qed.

Lemma edited_wf offset value undo redo s :
  session_wf s → is_Some (target_ s) →
  sizeZ undo + sizeZ redo ≤ kMaxEditHistory →
  undo_chain (store_at (working_ s) offset value) (reverse undo) →
  redo_chain (store_at (working_ s) offset value) (reverse redo) →
  session_wf (edited offset value undo redo s).
Proof.
  intros Hwf [t Ht] Hsz Hu Hr.
  pose proof (pages_any_dirty (baseline_ s) (store_at (working_ s) offset value)
    (wf_baseline s Hwf) (is_page_store _ _ _ (wf_working s Hwf))) as Hany.
  unfold edited. destruct Hwf, s; simpl in *. destruct (any _) eqn:E; solve_wf.
Qed.

Lemma EditByte_wf offset value s r s' :
  session_wf s → 0 ≤ offset → EditByte offset value s = (r, s') → session_wf s'.
Proof.
  intros Hwf Hoff He. unfold EditByte in He.
  destruct (decide (is_Some (target_ s) ∧ offset < kPhysicalPageSize ∧
    byte_at (working_ s) offset ≠ value)) as [(Ht & ? & ?)|Hn].
  - rewrite ApplyLocalEdit_change in He by (auto with kdbg lia). simplify_eq.
    destruct (push_history_wf (working_ s) offset value (undo_stack_ s)); try apply Hwf;
      [by rewrite (wf_working s Hwf)|done| |].
    { pose proof (wf_history_bound s Hwf). pose proof (sizeZ_nonneg (redo_stack_ s)). lia. }
    apply edited_wf; try done. unfold sizeZ in *. simpl. lia.
  - destruct (ApplyLocalEdit_same offset value true s) as [r' Hr]; [auto with kdbg| |congruence].
    destruct (decide (is_Some (target_ s))) as [|?%eq_None_not_Some];
      [|tauto].
    destruct (Z.le_gt_cases kPhysicalPageSize offset); [tauto|].
    destruct (decide (byte_at (working_ s) offset = value)); tauto.
Qed.

(** The client's view of an edit that changes a byte. *)
Lemma EditByte_staged offset value s :
  session_wf s → is_Some (target_ s) → 0 ≤ offset < kPhysicalPageSize →
  byte_at (working_ s) offset ≠ value →
  ∃ s', EditByte offset value s = (Success tt, s') ∧ session_wf s' ∧
    working_ s' = store_at (working_ s) offset value ∧ baseline_ s' = baseline_ s ∧
    target_ s' = target_ s.
Proof.
  intros Hwf Ht Hoff Hne. eexists. split; [apply EditByte_change; auto with kdbg|].
  split; [|done]. eapply (EditByte_wf offset value s); [done|lia|].
  apply EditByte_change; auto with kdbg.
Qed.

Lemma RevertByte_wf offset s r s' :
  session_wf s → 0 ≤ offset → RevertByte offset s = (r, s') → session_wf s'.
Proof.
  unfold RevertByte. intros Hwf Hoff Hr. case_match; [by simplify_eq|].
  by apply EditByte_wf in Hr.
Qed.

Lemma undo_needs_target s e :
  session_wf s → last (undo_stack_ s) = Some e → is_Some (target_ s).
Proof.
  intros Hwf Hl. destruct (target_ s) eqn:Ht; [done|].
  apply (wf_no_target s Hwf) in Ht as (_ & _ & _ & Hu & _). by rewrite Hu in Hl.
Qed.
Lemma redo_needs_target s e :
  session_wf s → last (redo_stack_ s) = Some e → is_Some (target_ s).
Proof.
  intros Hwf Hl. destruct (target_ s) eqn:Ht; [done|].
  apply (wf_no_target s Hwf) in Ht as (_ & _ & _ & _ & Hu & _). by rewrite Hu in Hl.
Qed.

(** [Undo] moves the newest edit to the redo stack and puts the byte back. *)
Lemma Undo_spec s undo e :
  session_wf s → undo_stack_ s = undo ++ [e] →
  Undo s = (Success tt,
    edited (edit_offset e) (edit_before e) undo (redo_stack_ s ++ [e]) s) ∧
  session_wf (edited (edit_offset e) (edit_before e) undo (redo_stack_ s ++ [e]) s).
Proof.
  intros Hwf Hu. assert (last (undo_stack_ s) = Some e) as Hl by by rewrite Hu, last_snoc.
  pose proof (undo_needs_target s e Hwf Hl) as Ht.
  pose proof (wf_undo s Hwf) as Hch. rewrite Hu, reverse_snoc in Hch.
  destruct (undo_chain_step _ _ _ _ Hch (wf_redo s Hwf)) as [Hch1 Hch2].
  destruct Hch as (Hoff & Hbyte & Hne & _). rewrite (wf_working s Hwf) in Hoff.
  split.
  - unfold Undo. rewrite Hl. rewrite ApplyLocalEdit_change; [|by apply session_pages_wf in Hwf|
      by destruct s|done|by destruct s; simpl in *; congruence].
    destruct s; simpl in *; subst. by rewrite pop_back_snoc.
  - apply edited_wf; rewrite ?reverse_snoc; try done.
    pose proof (wf_history_bound s Hwf) as Hsz. rewrite Hu, sizeZ_app in Hsz.
    rewrite sizeZ_app. change (sizeZ [e]) with 1 in *. lia.
Qed.

(** [Redo] is the converse. *)
Lemma Redo_spec s redo e :
  session_wf s → redo_stack_ s = redo ++ [e] →
  Redo s = (Success tt,
    edited (edit_offset e) (edit_after e) (undo_stack_ s ++ [e]) redo s) ∧
  session_wf (edited (edit_offset e) (edit_after e) (undo_stack_ s ++ [e]) redo s).
Proof.
  intros Hwf Hu. assert (last (redo_stack_ s) = Some e) as Hl by by rewrite Hu, last_snoc.
  pose proof (redo_needs_target s e Hwf Hl) as Ht.
  pose proof (wf_redo s Hwf) as Hch. rewrite Hu, reverse_snoc in Hch.
  destruct (redo_chain_step _ _ _ _ (wf_undo s Hwf) Hch) as [Hch1 Hch2].
  destruct Hch as (Hoff & Hbyte & Hne & _). rewrite (wf_working s Hwf) in Hoff.
  split.
  - unfold Redo. rewrite Hl. rewrite ApplyLocalEdit_change; [|by apply session_pages_wf in Hwf|
      by destruct s|done|by destruct s; simpl in *; congruence].
    destruct s; simpl in *; subst. by rewrite pop_back_snoc.
  - apply edited_wf; rewrite ?reverse_snoc; try done.
    pose proof (wf_history_bound s Hwf) as Hsz. rewrite Hu, sizeZ_app in Hsz.
    rewrite sizeZ_app. change (sizeZ [e]) with 1 in *. lia.
Qed.

Lemma Undo_wf s r s' : session_wf s → Undo s = (r, s') → session_wf s'.
Proof.
  intros Hwf Hu. destruct (last (undo_stack_ s)) as [e|] eqn:Hl.
  - apply last_snoc_inv in Hl. destruct (Undo_spec s _ e Hwf Hl) as [Hu' ?].
    rewrite Hu' in Hu. by simplify_eq.
  - unfold Undo in Hu. rewrite Hl in Hu. by simplify_eq.
Qed.
Lemma Redo_wf s r s' : session_wf s → Redo s = (r, s') → session_wf s'.
Proof.
  intros Hwf Hu. destruct (last (redo_stack_ s)) as [e|] eqn:Hl.
  - apply last_snoc_inv in Hl. destruct (Redo_spec s _ e Hwf Hl) as [Hu' ?].
    rewrite Hu' in Hu. by simplify_eq.
  - unfold Redo in Hu. rewrite Hl in Hu. by simplify_eq.
Qed.

Lemma RevertAll_wf s : session_wf s → session_wf (RevertAll s).
Proof.
  intros Hwf. unfold RevertAll. destruct (target_ s) eqn:Ht; [|done].
  destruct Hwf, s; simpl in *; subst. solve_wf.
Qed.

Lemma UnlockForOneApply_wf p s r s' :
  session_wf s → UnlockForOneApply p s = (r, s') → session_wf s'.
Proof.
  intros Hwf. pose proof (IsDirty_spec s Hwf) as Hd. unfold UnlockForOneApply, IsDirty in *.
  intros Hu. destruct (target_ s) eqn:Ht; [|by simplify_eq].
  destruct (any (dirty_ s)) eqn:E; simpl in Hu; [|by simplify_eq].
  case_match; simplify_eq; [done|]. destruct Hwf, s; simpl in *; subst. solve_wf.
Qed.
Lemma UnlockForRollback_wf p s r s' :
  session_wf s → UnlockForRollback p s = (r, s') → session_wf s'.
Proof.
  intros Hwf. unfold UnlockForRollback. intros Hu. repeat case_match; simplify_eq; try done.
  destruct Hwf, s; simpl in *; subst. solve_wf.
Qed.

(** ** Backend operations *)

Section Backend.
Context {B : Type} `{BackendSpec B}.

Lemma ReadExactPage_page s (b : B) page b' :
  ReadExactPage s b = (Success page, b') → is_page page.
Proof.
  unfold ReadExactPage. intros Hr. repeat case_match; simplify_eq. boolify.
  by unfold is_page.
Qed.

Lemma fail_or_invalidate_wf st e s :
  session_wf (s <| state_ := st |>) → session_wf (fail_or_invalidate st e s).
Proof.
  intros Hwf. unfold fail_or_invalidate. case_bool_decide; [|done].
  destruct Hwf, s; simpl in *. solve_wf.
Qed.

Lemma Load_wf t s (b : B) r s' b' :
  session_wf s → Load t s b = (r, s', b') → session_wf s'.
Proof.
  intros _ Hl. unfold Load in Hl.
  destruct (negb (IsConsistent _)); [simplify_eq; destruct s; solve_wf|].
  destruct (negb (TargetIsConsistent t)) eqn:Ht; [simplify_eq; destruct s; solve_wf|].
  boolify.
  destruct (ValidatePageRange _ b) as [[[]|e] b1]; [|simplify_eq; destruct s; solve_wf].
  destruct (ReadExactPage _ b1) as [[page|e] b2] eqn:Hr; [|simplify_eq; destruct s; solve_wf].
  apply ReadExactPage_page in Hr. simplify_eq. destruct s; solve_wf.
Qed.

Lemma ReloadPreservingRollback_wf s (b : B) r s' b' :
  session_wf s → ReloadPreservingRollback s b = (r, s', b') → session_wf s'.
Proof.
  intros Hwf Hl. unfold ReloadPreservingRollback in Hl.
  destruct (target_ s) eqn:Ht; [|by simplify_eq].
  destruct (_ && _) eqn:Hg; [by simplify_eq|].
  case_bool_decide as Hsnap; [by simplify_eq|].
  destruct (session_busy (state_ s)); [by simplify_eq|].
  destruct (ValidatePageRange _ b) as [[[]|e] b1].
  2:{ simplify_eq. apply fail_or_invalidate_wf. destruct Hwf, s; simpl in *; subst. solve_wf. }
  destruct (ReadExactPage _ b1) as [[page|e] b2] eqn:Hr.
  2:{ simplify_eq. apply fail_or_invalidate_wf. destruct Hwf, s; simpl in *; subst. solve_wf. }
  apply ReadExactPage_page in Hr.
  destruct Hwf, s as [? base work snap exp ev d lc lm un re st wu lav rec rev]; simpl in *; subst.
  destruct rec.
  - destruct snap; [|done]. case_bool_decide; simplify_eq; solve_wf.
  - case_bool_decide; simpl in *; simplify_eq; solve_wf.
Qed.
End Backend.

(** How a transaction ended. *)
Inductive tx_end :=
  | TxRangeFailed (e : Error)
  | TxGateFailed (e : Error)
  | TxIndeterminate (e : Error)
  | TxObserved (res : PhysicalPageCompareWriteResult) (closed : Result unit).

(** ** The bookkeeping after the backend calls *)

Definition apply_writing (s : PhysicalPageSession) : PhysicalPageSession :=
  (apply_arm (apply_begin s)) <| state_ := PS_Writing |>.

Definition apply_finish (s : PhysicalPageSession) (en : tx_end)
    : Result unit * PhysicalPageSession :=
  let op := "PhysicalPageSession::ApplyAndVerify" in
  match en with
  | TxRangeFailed e => (Failure e, fail_or_invalidate PS_Error e (apply_begin s))
  | TxGateFailed e =>
      (Failure e, fail_or_invalidate PS_Error e
         ((apply_arm (apply_begin s)) <| rollback_snapshot_ := None |>))
  | TxIndeterminate e => (Failure e, transaction_indeterminate (apply_writing s))
  | TxObserved res (Failure e) =>
      (Failure e, (apply_observe res (apply_writing s)) <| state_ := PS_Error |>)
  | TxObserved res (Success _) =>
      let s1 := apply_observe res (apply_writing s) in
      if bool_decide (outcome res = Conflict) then
        (session_error ConcurrentModification
           (FirstOffsetMessage "Live page changed after it was loaded" (last_conflicts_ s1)) op,
         s1 <| state_ := PS_Conflict |>)
      else
        let s2 := verify_readback res (working_ s) s1 in
        if not_verified res s2 then
          (Failure (MakeErrorFull
             (if negb (transferred res =? 0) && negb (transferred res =? kPhysicalPageSize)
              then ShortWrite else VerificationMismatch)
             (FirstOffsetMessage
                "Verified physical transaction did not produce the requested page"
                (last_mismatches_ s2)) op
             (native_status res) kPhysicalPageSize (transferred res)),
           s2 <| state_ := PS_VerificationFailed |>)
        else (Success tt, apply_commit res s2)
  end.

Definition rollback_writing (s : PhysicalPageSession) : PhysicalPageSession :=
  (rollback_begin s) <| state_ := PS_Writing |>.

Definition rollback_finish (s : PhysicalPageSession) (snapshot expected : list Z) (en : tx_end)
    : Result unit * PhysicalPageSession :=
  let op := "PhysicalPageSession::RollbackBaseline" in
  match en with
  | TxRangeFailed e | TxGateFailed e =>
      (Failure e, fail_or_invalidate PS_Error e (rollback_begin s))
  | TxIndeterminate e => (Failure e, transaction_indeterminate (rollback_writing s))
  | TxObserved res (Failure e) =>
      (Failure e, (rollback_observe res (rollback_writing s)) <| state_ := PS_Error |>)
  | TxObserved res (Success _) =>
      let s1 := rollback_observe res (rollback_writing s) in
      if bool_decide (outcome res = Conflict) then
        let s1 := s1 <| last_conflicts_ :=
          last_conflicts_ s1 ++ mismatch_offsets (readback res) expected |> in
        (session_error ConcurrentModification
           (FirstOffsetMessage "Live page changed before rollback" (last_conflicts_ s1)) op,
         s1 <| state_ := PS_Conflict |>)
      else
        let s2 := verify_readback res snapshot s1 in
        if not_verified res s2 then
          (Failure (MakeErrorFull RollbackFailed
             (FirstOffsetMessage "Rollback read-back does not match the baseline"
                (last_mismatches_ s2)) op
             (native_status res) kPhysicalPageSize (transferred res)),
           s2 <| rollback_expected_ := Some (readback res) |>
              <| state_ := PS_VerificationFailed |>)
        else (Success tt, rollback_commit snapshot s2)
  end.

(** ** The backend calls *)

Section Run.
Context {B : Type} `{IMemoryBackend B}.

Definition close_guard (enabled : bool) (b : B) : Result unit * B :=
  let '(r, enabled, b) := gate_Close enabled b in (r, gate_destroy enabled b).

Definition run_tx (s : PhysicalPageSession) (pa : Z) (expected desired : list Z) (b : B)
    : tx_end * B :=
  match ValidatePageRange s b with
  | (Failure e, b) => (TxRangeFailed e, b)
  | (Success _, b) =>
  match gate_Enable b with
  | (Failure e, enabled, b) => (TxGateFailed e, gate_destroy enabled b)
  | (Success _, enabled, b) =>
  match CompareWritePhysicalPage pa expected desired b with
  | (Failure e, b) =>
      match close_guard enabled b with
      | (Failure e', b) => (TxIndeterminate e', b)
      | (Success _, b) => (TxIndeterminate e, b)
      end
  | (Success res, b) => let '(r, b) := close_guard enabled b in (TxObserved res r, b)
  end end end.

Lemma working_apply_observe res s : working_ (apply_observe res s) = working_ s.
Proof. unfold apply_observe. by case_bool_decide. Qed.

Lemma ApplyAndVerify_tx s (b : B) :
  ApplyAndVerify s b =
  match target_ s with
  | Some t =>
      if any (dirty_ s) && write_unlocked_ s then
        let '(en, b') := run_tx (apply_begin s) (physical_address (address t))
                           (baseline_ s) (working_ s) b in
        (apply_finish s en, b')
      else ((ApplyAndVerify s b).1.1, s, b)
  | None => ((ApplyAndVerify s b).1.1, s, b)
  end.
Proof.
  destruct (target_ s) as [t|] eqn:Ht; [|unfold ApplyAndVerify; by rewrite Ht].
  destruct (any (dirty_ s)) eqn:Hd, (write_unlocked_ s) eqn:Hu; cbn [andb];
    try (unfold ApplyAndVerify; rewrite Ht, Hd, ?Hu; done).
  unfold ApplyAndVerify. rewrite Ht, Hd, Hu. cbn [negb].
  change (baseline_ (update state_ _ _)) with (baseline_ s).
  change (working_ (update state_ _ _)) with (working_ s). fold (apply_writing s).
  unfold run_tx, close_guard.
  destruct (ValidatePageRange _ b) as [[[]|e] b1]; [|done].
  destruct (gate_Enable b1) as [[[[]|e] en] b2]; [|done].
  destruct (CompareWritePhysicalPage _ _ _ b2) as [[res|e] b3].
  - destruct (gate_Close en b3) as [[[[]|e'] en'] b4]; [|done].
    rewrite working_apply_observe. change (working_ (apply_writing s)) with (working_ s).
    unfold apply_finish. case_bool_decide; [done|]. by case_match.
  - by destruct (gate_Close en b3) as [[[[]|e'] en'] b4].
Qed.

Lemma RollbackBaseline_tx s (b : B) :
  RollbackBaseline s b =
  match target_ s, rollback_snapshot_ s, rollback_expected_ s with
  | Some t, Some snapshot, Some expected =>
      if write_unlocked_ s then
        let '(en, b') := run_tx (rollback_begin s) (physical_address (address t))
                           expected snapshot b in
        (rollback_finish s snapshot expected en, b')
      else ((RollbackBaseline s b).1.1, s, b)
  | _, _, _ => ((RollbackBaseline s b).1.1, s, b)
  end.
Proof.
  destruct (target_ s) as [t|] eqn:Ht; [|unfold RollbackBaseline; by rewrite Ht].
  destruct (rollback_snapshot_ s) as [snap|] eqn:Hs, (rollback_expected_ s) as [exp|] eqn:He,
    (write_unlocked_ s) eqn:Hu;
    try (unfold RollbackBaseline; rewrite Ht, Hs, ?He, ?Hu; done).
  unfold RollbackBaseline. rewrite Ht, Hs, He, Hu. cbn [negb]. fold (rollback_writing s).
  unfold run_tx, close_guard.
  destruct (ValidatePageRange _ b) as [[[]|e] b1]; [|done].
  destruct (gate_Enable b1) as [[[[]|e] en] b2]; [|done].
  destruct (CompareWritePhysicalPage _ _ _ b2) as [[res|e] b3].
  - destruct (gate_Close en b3) as [[[[]|e'] en'] b4]; [|done].
    unfold rollback_finish. case_bool_decide; [done|]. by case_match.
  - by destruct (gate_Close en b3) as [[[[]|e'] en'] b4].
Qed.
End Run.

(** ** What the backend calls establish *)

Section Transaction.
Context {B : Type} `{BackendSpec B}.

Lemma gate_Enable_spec (b : B) r en b' :
  gate_Enable b = (r, en, b') →
  en = Ok r ∧ (∀ x, phys b' x = phys b x) ∧
  (Ok r = false → gate b = false → gate b' = false).
Proof.
  unfold gate_Enable. intros Hg.
  destruct (SetWriteEnabled true b) as [[[]|e] b1] eqn:H1.
  { simplify_eq/=. split_and!; try done. by eapply gate_frame. }
  destruct (SetWriteEnabled false b1) as [[[]|e'] b2] eqn:H2; simplify_eq/=.
  - split_and!; [done| |by intros; eapply gate_success].
    intros x. by rewrite (gate_frame _ _ _ _ H2), (gate_frame _ _ _ _ H1).
  - split_and!; [done| |].
    + intros x. by rewrite (gate_frame _ _ _ _ H2), (gate_frame _ _ _ _ H1).
    + intros _ Hg. eapply gate_failure; [exact H2|]. by eapply gate_failure.
Qed.

Lemma set_disabled_closed (b : B) r b' :
  SetWriteEnabled false b = (r, b') → gate b = false → gate b' = false.
Proof.
  intros Hs Hg. destruct r as [[]|e]; [by eapply gate_success|].
  by eapply gate_failure.
Qed.

Lemma close_guard_spec en (b : B) r b' :
  close_guard en b = (r, b') →
  (∀ x, phys b' x = phys b x) ∧ (gate b = false → gate b' = false).
Proof.
  unfold close_guard, gate_Close. intros Hc. destruct en; simpl in Hc; [|by simplify_eq].
  destruct (SetWriteEnabled false b) as [[[]|e] b1] eqn:H1; simplify_eq/=.
  - split; [by eapply gate_frame|by eauto using set_disabled_closed].
  - destruct (SetWriteEnabled false b1) as [r b2] eqn:H2; simpl. split.
    + intros x. by rewrite (gate_frame _ _ _ _ H2), (gate_frame _ _ _ _ H1).
    + eauto using set_disabled_closed.
Qed.

Lemma ValidatePageRange_frame s (b : B) r b' :
  ValidatePageRange s b = (r, b') → (∀ x, phys b' x = phys b x) ∧ gate b' = gate b.
Proof.
  unfold ValidatePageRange. intros Hv. destruct (target_ s); [|by simplify_eq].
  destruct (GetPhysicalRanges b) as [[ranges|e] b1] eqn:Hr; apply ranges_frame in Hr;
    repeat case_match; by simplify_eq.
Qed.

Lemma mem_bytes_phys_ext (b b' : B) pa n :
  (∀ x, phys b' x = phys b x) → mem_bytes (phys b') pa n = mem_bytes (phys b) pa n.
Proof. intros Hx. by apply mem_bytes_ext. Qed.

(** The transaction leaves the gate closed; it changes memory only through the
    compare/write, and reports the page as it is when it returns. *)
Lemma run_tx_spec s pa expected desired (b : B) en b' :
  run_tx s pa expected desired b = (en, b') →
  (gate b = false → gate b' = false) ∧
  match en with
  | TxRangeFailed _ | TxGateFailed _ => ∀ x, phys b' x = phys b x
  | TxIndeterminate _ => True
  | TxObserved res _ =>
      is_page (readback res) ∧ mem_bytes (phys b') pa kPhysicalPageSize = readback res ∧
      (outcome res = Applied → readback res = desired) ∧
      (outcome res = Conflict → readback res ≠ expected)
  end.
Proof.
  unfold run_tx. intros Hr.
  destruct (ValidatePageRange s b) as [[[]|e] b1] eqn:Hv; apply ValidatePageRange_frame in Hv;
    [|simplify_eq; by destruct Hv as [? ->]].
  destruct Hv as [Hp1 Hg1].
  destruct (gate_Enable b1) as [[[[]|e] en1] b2] eqn:He;
    apply gate_Enable_spec in He as (-> & Hp2 & Hg2); simpl in *.
  2:{ simplify_eq. split; [naive_solver congruence|]. intros. by rewrite Hp2, Hp1. }
  destruct (CompareWritePhysicalPage pa expected desired b2) as [r b3] eqn:Hcw.
  pose proof (compare_write_gate _ _ _ _ _ _ Hcw) as Hg3.
  destruct r as [res|e].
  - destruct (close_guard true b3) as [r' b4] eqn:Hc. simplify_eq.
    apply close_guard_spec in Hc as [Hp4 Hg4]. split; [auto|].
    rewrite (mem_bytes_phys_ext b3 b') by done.
    destruct (compare_write_page _ _ _ _ _ _ Hcw).
    split_and!; eauto using compare_write_applied, compare_write_conflict.
  - destruct (close_guard true b3) as [[?|e'] b4] eqn:Hc; simplify_eq;
      apply close_guard_spec in Hc as [_ Hg4]; auto.
Qed.
(** ** The invariant is preserved *)

Lemma apply_finish_wf s t en r s' :
  session_wf s → target_ s = Some t →
  (∀ res c, en = TxObserved res c → is_page (readback res)) →
  apply_finish s en = (r, s') → session_wf s'.
Proof.
  intros Hwf Ht Hrb Hf. destruct Hwf.
  assert (∀ st, at_rest st = true → st ≠ PS_Clean → st ≠ PS_Dirty →
    session_wf ((apply_begin s) <| state_ := st |>)) as Hbegin.
  { intros. destruct s; simpl in *. subst. solve_wf. }
  assert (session_wf ((apply_arm (apply_begin s)) <| rollback_snapshot_ := None |>
    <| state_ := PS_Error |>)) as Harm.
  { destruct s; simpl in *. subst. solve_wf. }
  assert (∀ st, at_rest st = true → st ≠ PS_Clean → st ≠ PS_Dirty →
    ∀ res, is_page (readback res) →
    session_wf ((apply_observe res (apply_writing s)) <| state_ := st |>)) as Hobs.
  { intros. unfold apply_observe. case_bool_decide; destruct s; simpl in *; subst; solve_wf. }
  destruct en as [e|e|e|res [[]|e]]; simpl in Hf.
  - simplify_eq. apply fail_or_invalidate_wf. by apply Hbegin.
  - simplify_eq. by apply fail_or_invalidate_wf.
  - simplify_eq. destruct s; simpl in *; subst. solve_wf.
  - specialize (Hrb _ _ eq_refl). case_bool_decide; [simplify_eq; by apply Hobs|].
    case_match; simplify_eq; unfold apply_observe; rewrite bool_decide_eq_false_2 by done;
      destruct s; simpl in *; subst; solve_wf.
  - simplify_eq. apply Hobs; naive_solver.
Qed.

Lemma rollback_finish_wf s t snap exp en r s' :
  session_wf s → target_ s = Some t →
  rollback_snapshot_ s = Some snap → rollback_expected_ s = Some exp →
  (∀ res c, en = TxObserved res c → is_page (readback res)) →
  rollback_finish s snap exp en = (r, s') → session_wf s'.
Proof.
  intros Hwf Ht Hs He Hrb Hf. destruct Hwf.
  destruct en as [e|e|e|res [[]|e]]; simpl in Hf.
  1,2: simplify_eq; apply fail_or_invalidate_wf; destruct s; simpl in *; subst; solve_wf.
  - simplify_eq. destruct s; simpl in *; subst. solve_wf.
  - specialize (Hrb _ _ eq_refl). unfold rollback_observe in Hf. case_bool_decide.
    { simplify_eq. destruct s; simpl in *; subst. solve_wf. }
    cbn [negb] in Hf. case_match; simplify_eq; destruct s; simpl in *; subst; solve_wf.
  - specialize (Hrb _ _ eq_refl). simplify_eq. unfold rollback_observe.
    case_bool_decide; destruct s; simpl in *; subst; solve_wf.
Qed.

Lemma run_tx_pages s pa expected desired (b : B) en b' :
  run_tx s pa expected desired b = (en, b') →
  ∀ res c, en = TxObserved res c → is_page (readback res).
Proof. intros [_ Hr]%run_tx_spec res c ->. by destruct Hr. Qed.

Lemma ApplyAndVerify_wf s (b : B) r s' b' :
  session_wf s → ApplyAndVerify s b = (r, s', b') → session_wf s'.
Proof.
  intros Hwf Ha. rewrite ApplyAndVerify_tx in Ha.
  destruct (target_ s) as [t|] eqn:Ht; [|by simplify_eq].
  destruct (_ && _); [|by simplify_eq].
  destruct (run_tx _ _ _ _ b) as [en b1] eqn:Hr. destruct (apply_finish s en) eqn:Hf.
  simplify_eq. eauto using apply_finish_wf, run_tx_pages.
Qed.

Lemma RollbackBaseline_wf s (b : B) r s' b' :
  session_wf s → RollbackBaseline s b = (r, s', b') → session_wf s'.
Proof.
  intros Hwf Ha. rewrite RollbackBaseline_tx in Ha.
  destruct (target_ s) as [t|] eqn:Ht; [|by simplify_eq].
  destruct (rollback_snapshot_ s) as [snap|] eqn:Hs; [|by simplify_eq].
  destruct (rollback_expected_ s) as [exp|] eqn:He; [|by simplify_eq].
  destruct (write_unlocked_ s); [|by simplify_eq].
  destruct (run_tx _ _ _ _ b) as [en b1] eqn:Hr. destruct (rollback_finish s snap exp en) eqn:Hf.
  simplify_eq. eauto using rollback_finish_wf, run_tx_pages.
Qed.
End Transaction.
