(* ===== verification/PageSessionMock.v ===== *)
(** [PhysicalPageSession] on the mock backend: what each operation does when no fault
    interferes, when the page was changed behind the session's back and when the
    transport dies after the write; and a concrete scenario built from them. *)

From S2P Require Import Prelude CppStd Common PfnAddress X64PageTable MemoryBackend MockMemoryBackend EditBuffer PageSession PageTransaction.

(** ** A connected mock *)

(** The only injected fault considered is losing the reply of a compare/write. *)
Definition lossy_faults (lossy : bool) : MockFaults :=
  no_faults <| fail_compare_write_transport_after_write := lossy |>.
Definition mock_open (lossy : bool) (b : MockMemoryBackend) : Prop :=
  open_ b = true ∧ faults_ b = lossy_faults lossy.
Definition mock_ready : MockMemoryBackend → Prop := mock_open false.

Definition mock_page (pa : Z) (b : MockMemoryBackend) : list Z :=
  mem_bytes (memory_ b) (pa - kBaseAddress) kPhysicalPageSize.

(** Page frames inside the mock's RAM. *)
Definition mock_frame (p : Z) : Prop := 256 ≤ p < 512.

Lemma mock_frame_contains p : mock_frame p → Mock_Contains (4096 * p) kPhysicalPageSize = true.
Proof.
  intros Hp. unfold mock_frame, Mock_Contains in *.
  apply Contains_spec; unfold is_u64, kBaseAddress, kMemorySize, kPhysicalPageSize; simpl; lia.
Qed.
Lemma mock_frame_consistent p : mock_frame p → IsConsistent (mkPfnAddress p (4096 * p)) = true.
Proof.
  intros Hp. unfold mock_frame in *. apply IsConsistent_spec; unfold is_u64, kPhysicalPageSize;
    simpl; lia.
Qed.
Lemma page_aligned q : ((4096 * q) `mod` kPhysicalPageSize =? 0) = true.
Proof. apply Z.eqb_eq. rewrite Z.mul_comm. by apply Z.mod_mul. Qed.
Lemma mock_page_is_page pa b : is_page (mock_page pa b).
Proof. by apply sizeZ_mem_bytes. Qed.

Section Cycle.
Context (p : Z) (Hp : mock_frame p).

Let target := TargetRawPfn (mkPfnAddress p (4096 * p)).

Lemma mock_validate lossy s b :
  mock_open lossy b → target_ s = Some target → ValidatePageRange s b = (Success tt, b).
Proof using Hp.
  intros [Ho Hf] Ht. unfold ValidatePageRange. rewrite Ht. simpl.
  unfold Mock_GetPhysicalRanges. rewrite Ho, Hf. simpl.
  pose proof (mock_frame_contains p Hp) as Hc. unfold Mock_Contains in Hc. by rewrite Hc.
Qed.

Lemma mock_read lossy s b :
  mock_open lossy b → target_ s = Some target →
  ∃ b', ReadExactPage s b = (Success (mock_page (4096 * p) b), b') ∧
    mock_open lossy b' ∧ memory_ b' = memory_ b.
Proof using Hp.
  intros [Ho Hf] Ht. unfold ReadExactPage. rewrite Ht.
  destruct b as [m f o w wc rc ec dc cc]. cbn in Ho, Hf. subst.
  cbn [ReadPhysical MockMemoryBackend_IMemoryBackend address target TargetRawPfn physical_address].
  unfold Mock_ReadPhysical, apply_mutate_before_read.
  rewrite mock_frame_contains by done. simpl.
  rewrite sizeZ_mem_bytes by done. eexists. split; [reflexivity|]. done.
Qed.

Lemma lossy_no_mutate_before lossy b :
  faults_ b = lossy_faults lossy → apply_mutate_before_read b = b.
Proof. unfold apply_mutate_before_read. by intros ->. Qed.
Lemma lossy_no_mutate_after lossy b :
  faults_ b = lossy_faults lossy → apply_mutate_after_write b = b.
Proof. unfold apply_mutate_after_write. by intros ->. Qed.

(** What an armed mock does with a well-shaped compare/write before it writes. *)
Lemma mock_compare_write_begin lossy b expected desired :
  mock_open lossy b → write_enabled_ b = true → is_page expected → is_page desired →
  ∃ b1, mock_open lossy b1 ∧ memory_ b1 = memory_ b ∧
    Mock_CompareWritePhysicalPage (4096 * p) expected desired b =
    match first_mismatch expected (mock_page (4096 * p) b) with
    | Some k => (Success (default_compare_write_result <| outcome := Conflict |>
                   <| first_mismatch_offset := k |> <| readback := mock_page (4096 * p) b |>), b1)
    | None =>
        let b2 := b1 <| write_call_count_ := u64 (write_call_count_ b1 + 1) |> in
        let b3 := copy_into_memory desired kPhysicalPageSize (4096 * p - kBaseAddress) b2 in
        let page := mem_bytes (memory_ b3) (4096 * p - kBaseAddress) kPhysicalPageSize in
        if lossy then
          (Failure (MakeError IoFailure "Mock compare/write post-write transport failure was injected"
             "MockMemoryBackend::CompareWritePhysicalPage"), b3)
        else match first_mismatch desired page with
        | Some k => (Success (default_compare_write_result <| readback := page |>
                       <| transferred := kPhysicalPageSize |> <| outcome := OutcomeFailure |>
                       <| native_status := compare_write_native_status (faults_ b3) |>
                       <| first_mismatch_offset := k |>), b3)
        | None => (Success (default_compare_write_result <| readback := page |>
                     <| transferred := kPhysicalPageSize |> <| outcome := Applied |>
                     <| first_mismatch_offset := u32_max |>), b3)
        end
    end.
Proof using Hp.
  intros [Ho Hf] Hw He Hd. unfold is_page in He, Hd. unfold Mock_CompareWritePhysicalPage.
  set (b0 := b <| compare_write_call_count_ := _ |>). cbv zeta.
  assert (open_ b0 = true) as -> by exact Ho. assert (write_enabled_ b0 = true) as -> by exact Hw.
  cbn [negb]. set (b1 := b0 <| write_enabled_ := false |>).
  assert (faults_ b1 = lossy_faults lossy) as Hf1 by exact Hf.
  rewrite He, Hd, mock_frame_contains, page_aligned by done.
  exists b1. split; [exact (conj Ho Hf)|]. split; [reflexivity|].
  change (memory_ b) with (memory_ b1). unfold mock_page. change (memory_ b) with (memory_ b1).
  clearbody b1. rewrite (lossy_no_mutate_before lossy b1 Hf1).
  assert (fail_compare_write_transport (faults_ b1) = false) as -> by by rewrite Hf1.
  cbn [negb orb]. rewrite !Z.eqb_refl. cbn [negb orb].
  destruct (first_mismatch expected _); [reflexivity|].
  set (b2 := b1 <| write_call_count_ := _ |>).
  assert (faults_ b2 = lossy_faults lossy) as Hf2 by exact Hf1. clearbody b2.
  assert (short_write (faults_ b2) = false) as -> by by rewrite Hf2.
  assert (ignore_write (faults_ b2) = false) as -> by by rewrite Hf2.
  cbn [negb]. set (b3 := copy_into_memory _ _ _ b2).
  assert (faults_ b3 = lossy_faults lossy) as Hf3 by exact Hf2. clearbody b3.
  rewrite (lossy_no_mutate_after lossy b3 Hf3).
  assert (fail_compare_write_transport_after_write (faults_ b3) = lossy) as -> by by rewrite Hf3.
  assert (compare_write_failure (faults_ b3) = false) as -> by by rewrite Hf3.
  destruct lossy; [reflexivity|].
  set (page := mem_bytes (memory_ b3) _ _). clearbody page. cbn [orb].
  match goal with |- context [first_mismatch desired (readback ?r)] =>
    change (readback r) with page end.
  by destruct (first_mismatch desired page).
Qed.

(** A compare/write against the expected page on a ready, unlocked mock. *)
Lemma mock_compare_write b desired :
  mock_ready b → write_enabled_ b = true → is_page desired →
  ∃ b' res, Mock_CompareWritePhysicalPage (4096 * p) (mock_page (4096 * p) b) desired b
      = (Success res, b') ∧
    outcome res = Applied ∧ transferred res = kPhysicalPageSize ∧ readback res = desired ∧
    mock_ready b' ∧ memory_ b' = mem_store (memory_ b) (4096 * p - kBaseAddress) desired.
Proof using Hp.
  intros Hb Hw Hd.
  destruct (mock_compare_write_begin false b _ desired Hb Hw (mock_page_is_page (4096 * p) b) Hd)
    as (b1 & [Ho Hf] & Hm & ->). unfold is_page in Hd.
  rewrite (proj2 (first_mismatch_None _ _ eq_refl) eq_refl). cbv zeta.
  set (b3 := copy_into_memory _ _ _ _).
  assert (memory_ b3 = mem_store (memory_ b) (4096 * p - kBaseAddress) desired) as Hm3.
  { unfold b3, copy_into_memory, slice. rewrite drop_0, (take_ge desired), <- Hm;
      [reflexivity|unfold sizeZ in Hd; lia]. }
  assert (mock_ready b3) as Hb3 by exact (conj Ho Hf). clearbody b3. rewrite Hm3.
  assert (mem_bytes (mem_store (memory_ b) (4096 * p - kBaseAddress) desired)
    (4096 * p - kBaseAddress) kPhysicalPageSize = desired) as -> by (rewrite <- Hd; apply mem_bytes_store).
  rewrite (proj2 (first_mismatch_None desired _ eq_refl) eq_refl).
  do 2 eexists. split; [reflexivity|]. cbn [outcome transferred readback]. split_and!; done.
Qed.

(** The reply is lost after the page was written. *)
Lemma mock_compare_write_lost b desired :
  mock_open true b → write_enabled_ b = true → is_page desired →
  ∃ b' e, Mock_CompareWritePhysicalPage (4096 * p) (mock_page (4096 * p) b) desired b
      = (Failure e, b') ∧ mock_open true b'.
Proof using Hp.
  intros Hb Hw Hd.
  destruct (mock_compare_write_begin true b _ desired Hb Hw (mock_page_is_page (4096 * p) b) Hd)
    as (b1 & [Ho Hf] & Hm & ->).
  rewrite (proj2 (first_mismatch_None _ _ eq_refl) eq_refl). cbv zeta.
  do 2 eexists. split; [reflexivity|]. exact (conj Ho Hf).
Qed.

(** The page is not the expected one. *)
Lemma mock_compare_write_conflict b expected desired :
  mock_ready b → write_enabled_ b = true → is_page expected → is_page desired →
  mock_page (4096 * p) b ≠ expected →
  ∃ b' res, Mock_CompareWritePhysicalPage (4096 * p) expected desired b = (Success res, b') ∧
    outcome res = Conflict ∧ mock_ready b'.
Proof using Hp.
  intros Hb Hw He Hd Hne.
  destruct (mock_compare_write_begin false b expected desired Hb Hw He Hd) as (b1 & Hb1 & _ & ->).
  destruct (first_mismatch _ _) eqn:Hm.
  - do 2 eexists. split; [reflexivity|]. split; [reflexivity|done].
  - apply first_mismatch_None in Hm; [congruence|].
    pose proof (mock_page_is_page (4096 * p) b). unfold is_page in *. congruence.
Qed.

Lemma mock_gate_on lossy b :
  mock_open lossy b → ∃ b1, gate_Enable b = (Success tt, true, b1) ∧ mock_open lossy b1 ∧
    write_enabled_ b1 = true ∧ memory_ b1 = memory_ b.
Proof. intros [Ho Hf]. destruct b; simpl in *; subst. eexists. split; [reflexivity|]. done. Qed.
Lemma mock_gate_off lossy b :
  mock_open lossy b → ∃ b1, close_guard true b = (Success tt, b1) ∧ mock_open lossy b1 ∧
    memory_ b1 = memory_ b.
Proof. intros [Ho Hf]. destruct b; simpl in *; subst. eexists. split; [reflexivity|]. done. Qed.

(** On a ready mock whose page is the expected one, a transaction applies. *)
Lemma mock_tx s b desired :
  mock_ready b → target_ s = Some target → is_page desired →
  ∃ b' res, run_tx s (4096 * p) (mock_page (4096 * p) b) desired b
      = (TxObserved res (Success tt), b') ∧
    outcome res = Applied ∧ transferred res = kPhysicalPageSize ∧ readback res = desired ∧
    mock_ready b' ∧ memory_ b' = mem_store (memory_ b) (4096 * p - kBaseAddress) desired.
Proof using Hp.
  intros Hb Ht Hd. unfold run_tx. rewrite (mock_validate false) by done.
  destruct (mock_gate_on false b Hb) as (b1 & -> & Hb1 & Hw1 & Hm1).
  destruct (mock_compare_write b1 desired Hb1 Hw1 Hd) as (b2 & res & Hcw & ? & ? & ? & Hb2 & Hm2).
  unfold mock_page in *. rewrite Hm1 in *.
  cbn [CompareWritePhysicalPage MockMemoryBackend_IMemoryBackend]. rewrite Hcw.
  destruct (mock_gate_off false b2 Hb2) as (b3 & -> & Hb3 & Hm3).
  exists b3, res. rewrite Hm3. done.
Qed.

Lemma mock_tx_lost s b desired :
  mock_open true b → target_ s = Some target → is_page desired →
  ∃ b' e, run_tx s (4096 * p) (mock_page (4096 * p) b) desired b = (TxIndeterminate e, b') ∧
    mock_open true b'.
Proof using Hp.
  intros Hb Ht Hd. unfold run_tx. rewrite (mock_validate true) by done.
  destruct (mock_gate_on true b Hb) as (b1 & -> & Hb1 & Hw1 & Hm1).
  destruct (mock_compare_write_lost b1 desired Hb1 Hw1 Hd) as (b2 & e & Hcw & Hb2).
  unfold mock_page in *. rewrite Hm1 in *.
  cbn [CompareWritePhysicalPage MockMemoryBackend_IMemoryBackend]. rewrite Hcw.
  destruct (mock_gate_off true b2 Hb2) as (b3 & -> & Hb3 & Hm3). by exists b3, e.
Qed.

Lemma mock_tx_conflict s b expected desired :
  mock_ready b → target_ s = Some target → is_page expected → is_page desired →
  mock_page (4096 * p) b ≠ expected →
  ∃ b' res, run_tx s (4096 * p) expected desired b = (TxObserved res (Success tt), b') ∧
    outcome res = Conflict.
Proof using Hp.
  intros Hb Ht He Hd Hne. unfold run_tx. rewrite (mock_validate false) by done.
  destruct (mock_gate_on false b Hb) as (b1 & -> & Hb1 & Hw1 & Hm1).
  destruct (mock_compare_write_conflict b1 expected desired Hb1 Hw1 He Hd) as (b2 & res & Hcw & ? & Hb2).
  { unfold mock_page in *. by rewrite Hm1. }
  cbn [CompareWritePhysicalPage MockMemoryBackend_IMemoryBackend]. rewrite Hcw.
  destruct (mock_gate_off false b2 Hb2) as (b3 & -> & Hb3 & Hm3). by exists b3, res.
Qed.

Lemma mock_load s b :
  mock_ready b →
  ∃ s' b', Load target s b = (Success tt, s', b') ∧
    target_ s' = Some target ∧ baseline_ s' = mock_page (4096 * p) b ∧
    working_ s' = mock_page (4096 * p) b ∧ write_unlocked_ s' = false ∧ undo_stack_ s' = [] ∧
    mock_ready b' ∧ memory_ b' = memory_ b.
Proof using Hp.
  intros Hb. unfold Load.
  assert (IsConsistent (address target) = true) as -> by by apply mock_frame_consistent.
  assert (TargetIsConsistent target = true) as ->.
  { unfold TargetIsConsistent, target. simpl. by rewrite mock_frame_consistent. }
  cbn [negb]. rewrite (mock_validate false) by done.
  destruct (mock_read false ((ClearPageData (LockWrite s)) <| state_ := PS_Loading |>
    <| target_ := Some target |>) b Hb) as (b' & -> & Hb' & Hm); [done|].
  do 2 eexists. split; [reflexivity|]. done.
Qed.

Lemma mock_apply s b :
  session_wf s → mock_ready b → target_ s = Some target → write_unlocked_ s = true →
  IsDirty s = true → mock_page (4096 * p) b = baseline_ s →
  ∃ s' b', ApplyAndVerify s b = (Success tt, s', b') ∧ mock_ready b' ∧
    memory_ b' = mem_store (memory_ b) (4096 * p - kBaseAddress) (working_ s) ∧
    mock_page (4096 * p) b' = working_ s ∧ target_ s' = Some target ∧
    recovery_observation_required_ s' = false ∧ rollback_snapshot_ s' = Some (baseline_ s) ∧
    rollback_expected_ s' = Some (working_ s) ∧ baseline_ s' = working_ s ∧
    dirty_ s' = no_dirty ∧ state_ s' = PS_Clean ∧
    evidence_ s' = mkEvidence (Some (baseline_ s)) (Some (baseline_ s)) (Some (working_ s))
                     (Some (working_ s)) None None.
Proof using Hp.
  intros Hwf Hb Ht Hu Hd Hpg. rewrite ApplyAndVerify_tx, Ht. unfold IsDirty in Hd.
  rewrite Hd, Hu. cbn [andb]. rewrite <- Hpg.
  change (physical_address (address target)) with (4096 * p).
  destruct (mock_tx (apply_begin s) b (working_ s)) as
    (b' & res & -> & Hout & Htr & Hrb & Hb' & Hm); [done|by destruct s|apply Hwf|].
  pose proof (wf_working s Hwf) as Hw.
  unfold apply_finish, apply_observe. rewrite Hout, bool_decide_eq_false_2 by done.
  unfold not_verified. rewrite Hout, Htr, Hrb, bool_decide_eq_true_2, Z.eqb_refl by done.
  simpl. rewrite Hrb, mismatch_offsets_refl. simpl.
  do 2 eexists. split; [reflexivity|]. rewrite Hpg.
  split_and!; try done. unfold mock_page. rewrite Hm, <- Hw. apply mem_bytes_store.
Qed.

Lemma mock_reload s b :
  session_wf s → mock_ready b → target_ s = Some target → IsDirty s = false →
  recovery_observation_required_ s = false →
  is_Some (rollback_snapshot_ s) → mock_page (4096 * p) b = baseline_ s →
  ∃ s' b', ReloadPreservingRollback s b = (Success tt, s', b') ∧ mock_ready b' ∧
    memory_ b' = memory_ b ∧ session_wf s' ∧ target_ s' = Some target ∧
    rollback_snapshot_ s' = rollback_snapshot_ s ∧ rollback_expected_ s' = rollback_expected_ s ∧
    evidence_ s' = (evidence_ s) <| ev_independent_reload := Some (baseline_ s) |>.
Proof using Hp.
  intros Hwf Hb Ht Hd Hrec [snap Hsnap] Hpg.
  destruct (ReloadPreservingRollback s b) as [[r s'] b'] eqn:Hr.
  pose proof (ReloadPreservingRollback_wf _ _ _ _ _ Hwf Hr) as Hwf'.
  assert (session_busy (state_ s) = false) as Hst
    by (pose proof (wf_rest s Hwf); by destruct (state_ s)).
  unfold IsDirty in Hd. unfold ReloadPreservingRollback in Hr.
  rewrite Ht, Hd, Hrec, Hst, Hsnap in Hr. simpl in Hr.
  rewrite (mock_validate false) in Hr by done.
  match type of Hr with context [ReadExactPage ?s1 _] =>
    destruct (mock_read false s1 b Hb Ht) as (b1 & Hrd & Hb1 & Hm1); rewrite Hrd in Hr end.
  rewrite Hrec in Hr. cbn in Hr. rewrite Hpg, mismatch_offsets_refl in Hr.
  cbn in Hr. simplify_eq. do 2 eexists. split; [reflexivity|]. split_and!; done.
Qed.

(** Reloading after a lost reply. *)
Lemma mock_reload_recovery lossy s b :
  session_wf s → mock_open lossy b → target_ s = Some target →
  recovery_observation_required_ s = true →
  ∃ s' b', ReloadPreservingRollback s b = (Success tt, s', b').
Proof using Hp.
  intros Hwf Hb Ht Hrec. destruct (wf_recovery s Hwf Hrec) as [[snap Hsnap] _].
  assert (session_busy (state_ s) = false) as Hst
    by (pose proof (wf_rest s Hwf); by destruct (state_ s)).
  unfold ReloadPreservingRollback. rewrite Ht, Hrec, andb_false_r, Hst, Hsnap.
  rewrite bool_decide_eq_false_2 by done.
  rewrite (mock_validate lossy) by done.
  match goal with |- context [ReadExactPage ?s1 _] =>
    destruct (mock_read lossy s1 b Hb Ht) as (b1 & -> & _) end.
  match goal with |- context [recovery_observation_required_ ?s1] =>
    change (recovery_observation_required_ s1) with (recovery_observation_required_ s) end.
  rewrite Hrec. do 2 eexists. reflexivity.
Qed.

Lemma mock_rollback s b snap exp :
  session_wf s → mock_ready b → target_ s = Some target → write_unlocked_ s = true →
  rollback_snapshot_ s = Some snap → rollback_expected_ s = Some exp →
  mock_page (4096 * p) b = exp →
  ∃ s' b', RollbackBaseline s b = (Success tt, s', b') ∧ mock_ready b' ∧
    memory_ b' = mem_store (memory_ b) (4096 * p - kBaseAddress) snap ∧
    evidence_ s' = (evidence_ s) <| ev_rollback := Some snap |>.
Proof using Hp.
  intros Hwf Hb Ht Hu Hs He Hpg. rewrite RollbackBaseline_tx, Ht, Hs, He, Hu.
  pose proof (wf_snapshot s Hwf) as Hsp. rewrite Hs in Hsp. rewrite <- Hpg.
  change (physical_address (address target)) with (4096 * p).
  destruct (mock_tx (rollback_begin s) b snap) as
    (b' & res & -> & Hout & Htr & Hrb & Hb' & Hm); [done|by destruct s|done|].
  unfold rollback_finish, rollback_observe. rewrite Hout, bool_decide_eq_false_2 by done.
  unfold not_verified. rewrite Hout, Htr, Hrb, bool_decide_eq_true_2, Z.eqb_refl by done.
  simpl. rewrite Hrb, mismatch_offsets_refl. simpl.
  do 2 eexists. split; [reflexivity|]. done.
Qed.

(** Load, edit one byte and unlock: the page is staged for a write. *)
Lemma mock_stage offset value s b :
  session_wf s → mock_ready b → 0 ≤ offset < kPhysicalPageSize →
  byte_at (mock_page (4096 * p) b) offset ≠ value →
  ∃ s1 b1 s2 s3, Load target s b = (Success tt, s1, b1) ∧
    EditByte offset value s1 = (Success tt, s2) ∧ UnlockForOneApply p s2 = (Success tt, s3) ∧
    session_wf s3 ∧ mock_ready b1 ∧ memory_ b1 = memory_ b ∧ target_ s3 = Some target ∧
    write_unlocked_ s3 = true ∧ IsDirty s3 = true ∧ baseline_ s3 = mock_page (4096 * p) b ∧
    working_ s3 = store_at (mock_page (4096 * p) b) offset value.
Proof using Hp.
  intros Hwf0 Hb Hoff Hne.
  destruct (mock_load s b Hb) as (s1 & b1 & Hl & Ht1 & Hbase1 & Hwork1 & _ & _ & Hb1 & Hm1).
  pose proof (Load_wf _ _ _ _ _ _ Hwf0 Hl) as Hwf1.
  pose proof (mock_page_is_page (4096 * p) b) as Hpage.
  set (page := mock_page (4096 * p) b) in *. clearbody page.
  destruct (EditByte_staged offset value s1 Hwf1 ltac:(by rewrite Ht1) Hoff
    ltac:(by rewrite Hwork1)) as (s2 & He & Hwf2 & Hw2 & Hb2 & Ht2).
  rewrite Hwork1 in Hw2. rewrite Hbase1 in Hb2. rewrite Ht1 in Ht2.
  assert (IsDirty s2 = true) as Hd2.
  { destruct (IsDirty s2) eqn:E; [done|]. apply IsDirty_spec in E; [|done]. exfalso.
    rewrite Hw2, Hb2 in E. apply Hne. rewrite <- E. apply byte_at_store_at. by rewrite Hpage. }
  assert (UnlockForOneApply p s2 = (Success tt, s2 <| write_unlocked_ := true |>)) as Hu.
  { unfold UnlockForOneApply. rewrite Ht2. unfold IsDirty in Hd2. rewrite Hd2. simpl.
    by rewrite Z.eqb_refl. }
  exists s1, b1, s2, (s2 <| write_unlocked_ := true |>).
  pose proof (UnlockForOneApply_wf _ _ _ _ Hwf2 Hu). split_and!; try done; simpl; congruence.
Qed.
End Cycle.

(** ** The scenario of the witnesses

    Frame 256 is loaded, byte 16 set to 0xAA and the page unlocked; then the apply
    either goes through, meets a page someone else changed, or loses its reply. *)

Definition demo_target : PhysicalWriteTarget := TargetRawPfn (mkPfnAddress 256 (4096 * 256)).
Definition demo_b0 : MockMemoryBackend := (Mock_Open make_MockMemoryBackend).2.
Definition demo_loaded : PhysicalPageSession :=
  (Load demo_target make_PhysicalPageSession demo_b0).1.2.
Definition demo_edited : PhysicalPageSession := (EditByte 16 0xAA demo_loaded).2.
Definition demo_unlocked : PhysicalPageSession := (UnlockForOneApply 256 demo_edited).2.
Definition demo_raced : MockMemoryBackend := Mock_Mutate 0x100020 0x77 demo_b0.
Definition demo_lossy : MockMemoryBackend := Mock_SetFaults (lossy_faults true) demo_b0.

Lemma triple_eta {A S B} (x : A * S * B) : x = (x.1.1, x.1.2, x.2).
Proof. by destruct x as [[??]?]. Qed.
Lemma triple_code {A S B} (x : A * S * B) r : x.1.1 = r → x = (r, x.1.2, x.2).
Proof. by destruct x as [[??]?]; simpl; intros ->. Qed.

Lemma demo_frame : mock_frame 256.
Proof. unfold mock_frame. lia. Qed.
Lemma demo_ready : mock_ready demo_b0.
Proof. split; reflexivity. Qed.
Lemma demo_byte b i : 0 ≤ i < kPhysicalPageSize → byte_at (mock_page (4096 * 256) b) i = memory_ b i.
Proof.
  intros Hi. unfold mock_page. rewrite byte_at_mem_bytes by done. f_equal.
Qed.
Lemma demo_byte_16 : byte_at (mock_page (4096 * 256) demo_b0) 16 ≠ 0xAA.
Proof. rewrite demo_byte by (unfold kPhysicalPageSize; lia). vm_compute. congruence. Qed.

Lemma demo_steps :
  ∃ b1, Load demo_target make_PhysicalPageSession demo_b0 = (Success tt, demo_loaded, b1) ∧
    EditByte 16 0xAA demo_loaded = (Success tt, demo_edited) ∧
    UnlockForOneApply 256 demo_edited = (Success tt, demo_unlocked) ∧
    target_ demo_unlocked = Some demo_target ∧ write_unlocked_ demo_unlocked = true ∧
    IsDirty demo_unlocked = true ∧ baseline_ demo_unlocked = mock_page (4096 * 256) demo_b0.
Proof.
  destruct (mock_stage 256 demo_frame 16 0xAA make_PhysicalPageSession demo_b0) as
    (s1 & b1 & s2 & s3 & Hl & He & Hu & _ & _ & _ & Ht & Hw & Hd & Hb & _);
    [apply session_wf_init|apply demo_ready|unfold kPhysicalPageSize; lia|apply demo_byte_16|].
  fold demo_target in Hl, Ht. exists b1. unfold demo_unlocked, demo_edited, demo_loaded.
  rewrite Hl. cbn [fst snd]. rewrite He. cbn [fst snd]. rewrite Hu. cbn [fst snd].
  exact (conj eq_refl (conj eq_refl (conj eq_refl (conj Ht (conj Hw (conj Hd Hb)))))).
Qed.

Lemma demo_loaded_state :
  target_ demo_loaded = Some demo_target ∧ working_ demo_loaded = mock_page (4096 * 256) demo_b0 ∧
    write_unlocked_ demo_loaded = false ∧ undo_stack_ demo_loaded = [].
Proof.
  destruct (mock_load 256 demo_frame make_PhysicalPageSession demo_b0 demo_ready) as
    (s1 & b1 & Hl & Ht & _ & Hw & Hu & Hn & _).
  fold demo_target in Hl, Ht. unfold demo_loaded. rewrite Hl.
  exact (conj Ht (conj Hw (conj Hu Hn))).
Qed.
#[global] Opaque demo_loaded demo_edited demo_unlocked.

Lemma demo_loaded_wf : session_wf demo_loaded.
Proof. destruct demo_steps as (b1 & Hl & _). exact (Load_wf _ _ _ _ _ _ session_wf_init Hl). Qed.
Lemma demo_edited_wf : session_wf demo_edited.
Proof.
  destruct demo_steps as (b1 & _ & He & _).
  refine (EditByte_wf _ _ _ _ _ demo_loaded_wf _ He). lia.
Qed.
Lemma demo_unlocked_wf : session_wf demo_unlocked.
Proof.
  destruct demo_steps as (b1 & _ & _ & Hu & _). exact (UnlockForOneApply_wf _ _ _ _ demo_edited_wf Hu).
Qed.

(** The apply goes through, and so does its rollback. *)
Definition demo_applied : PhysicalPageSession := (ApplyAndVerify demo_unlocked demo_b0).1.2.
Definition demo_b1 : MockMemoryBackend := (ApplyAndVerify demo_unlocked demo_b0).2.
Definition demo_rollback : PhysicalPageSession := (UnlockForRollback 256 demo_applied).2.
Definition demo_restored : PhysicalPageSession := (RollbackBaseline demo_rollback demo_b1).1.2.
Definition demo_b2 : MockMemoryBackend := (RollbackBaseline demo_rollback demo_b1).2.

Lemma demo_apply :
  ApplyAndVerify demo_unlocked demo_b0 = (Success tt, demo_applied, demo_b1) ∧
  RollbackBaseline demo_rollback demo_b1 = (Success tt, demo_restored, demo_b2) ∧
  session_wf demo_rollback.
Proof.
  destruct demo_steps as (b1 & _ & _ & _ & Ht & Hu & Hd & Hb).
  destruct (mock_apply 256 demo_frame demo_unlocked demo_b0 demo_unlocked_wf demo_ready Ht Hu Hd
    (eq_sym Hb)) as (s' & b' & Ha & Hr & _ & Hpg & Ht' & _ & Hs & He & _).
  pose proof (ApplyAndVerify_wf _ _ _ _ _ demo_unlocked_wf Ha) as Hwf.
  assert (UnlockForRollback 256 s' = (Success tt, s' <| write_unlocked_ := true |>)) as Hu'.
  { unfold UnlockForRollback. by rewrite Ht', Hs, He. }
  pose proof (UnlockForRollback_wf _ _ _ _ Hwf Hu') as Hwf'.
  unfold demo_restored, demo_b2, demo_rollback, demo_applied, demo_b1.
  rewrite Ha. cbn [fst snd]. rewrite Hu'. cbn [fst snd].
  destruct (mock_rollback 256 demo_frame (s' <| write_unlocked_ := true |>) b'
    (baseline_ demo_unlocked) (working_ demo_unlocked) Hwf' Hr Ht' eq_refl Hs He Hpg)
    as (s2 & b2 & Hrb & _).
  rewrite Hrb. exact (conj eq_refl (conj eq_refl Hwf')).
Qed.

(** Someone else wrote the page first. *)
Definition demo_conflict := ApplyAndVerify demo_unlocked demo_raced.
Lemma demo_conflict_state : state_ demo_conflict.1.2 = PS_Conflict.
Proof.
  destruct demo_steps as (b1 & _ & _ & _ & Ht & Hu & Hd & Hb). unfold demo_conflict.
  rewrite ApplyAndVerify_tx, Ht, Hu. unfold IsDirty in Hd. rewrite Hd. cbn [andb].
  destruct (mock_tx_conflict 256 demo_frame (apply_begin demo_unlocked) demo_raced
    (baseline_ demo_unlocked) (working_ demo_unlocked)) as (b' & res & Hr & Hout);
    [split; reflexivity|exact Ht|apply demo_unlocked_wf|apply demo_unlocked_wf| |].
  { rewrite Hb. intros E. apply (f_equal (λ l, byte_at l 32)) in E.
    rewrite !demo_byte in E by (unfold kPhysicalPageSize; lia). vm_compute in E. congruence. }
  change (physical_address (address demo_target)) with (4096 * 256). rewrite Hr. cbn [fst snd].
  unfold apply_finish. by rewrite Hout, bool_decide_eq_true_2.
Qed.

(** The reply of the apply is lost. *)
Definition demo_lost : PhysicalPageSession := (ApplyAndVerify demo_unlocked demo_lossy).1.2.
Definition demo_b1_lossy : MockMemoryBackend := (ApplyAndVerify demo_unlocked demo_lossy).2.
Definition demo_recovered := ReloadPreservingRollback demo_lost demo_b1_lossy.
Lemma demo_lost_recovers :
  session_wf demo_lost ∧ recovery_observation_required_ demo_lost = true ∧
  ReloadPreservingRollback demo_lost demo_b1_lossy
    = (Success tt, demo_recovered.1.2, demo_recovered.2).
Proof.
  destruct demo_steps as (b1 & _ & _ & _ & Ht & Hu & Hd & Hb).
  unfold demo_recovered, demo_lost, demo_b1_lossy.
  destruct (ApplyAndVerify demo_unlocked demo_lossy) as [[r s'] b'] eqn:Ha.
  pose proof (ApplyAndVerify_wf _ _ _ _ _ demo_unlocked_wf Ha) as Hwf.
  rewrite ApplyAndVerify_tx, Ht, Hu in Ha. unfold IsDirty in Hd. rewrite Hd in Ha. cbn [andb] in Ha.
  destruct (mock_tx_lost 256 demo_frame (apply_begin demo_unlocked) demo_lossy
    (working_ demo_unlocked)) as (b2 & e & Hr & Hb2);
    [split; reflexivity|exact Ht|apply demo_unlocked_wf|].
  change (physical_address (address demo_target)) with (4096 * 256) in Ha.
  change (mock_page (4096 * 256) demo_lossy) with (mock_page (4096 * 256) demo_b0) in Hr.
  rewrite <- Hb in Hr. rewrite Hr in Ha. cbn [apply_finish] in Ha. injection Ha as <- <- <-.
  cbn [fst snd].
  assert (recovery_observation_required_ (transaction_indeterminate (apply_writing demo_unlocked))
    = true) as Hrec by reflexivity.
  split; [done|]. split; [done|].
  destruct (mock_reload_recovery 256 demo_frame true _ b2 Hwf Hb2 Ht Hrec) as (s3 & b3 & ->).
  reflexivity.
Qed.
#[global] Opaque demo_applied demo_b1 demo_rollback demo_restored demo_b2 demo_lost demo_b1_lossy
  demo_recovered.
