(* ===== verification/PageSessionTheorems.v ===== *)
(** The theorems about [PhysicalPageSession]: the invariant over all call
    sequences, the guarantees of the two transactions, the edit history and the
    diff views.  Witnesses run the session on the mock backend. *)

From stdpp Require Import relations.
From S2P Require Import Prelude CppStd Common PfnAddress X64PageTable MemoryBackend MockMemoryBackend EditBuffer PageSession PageTransaction PageSessionMock.

(** ** Call sequences *)

Section Steps.
Context {B : Type} `{IMemoryBackend B}.

(** One public call, or a change of the backend behind the session's back. *)
Inductive session_step : PhysicalPageSession * B → PhysicalPageSession * B → Prop :=
  | step_Load t s b r s' b' : Load t s b = (r, s', b') → session_step (s, b) (s', b')
  | step_Reload s b r s' b' :
      ReloadPreservingRollback s b = (r, s', b') → session_step (s, b) (s', b')
  | step_Invalidate s b : session_step (s, b) (Invalidate s, b)
  | step_EditByte offset value s b r s' :
      0 ≤ offset → EditByte offset value s = (r, s') → session_step (s, b) (s', b)
  | step_RevertByte offset s b r s' :
      0 ≤ offset → RevertByte offset s = (r, s') → session_step (s, b) (s', b)
  | step_Undo s b r s' : Undo s = (r, s') → session_step (s, b) (s', b)
  | step_Redo s b r s' : Redo s = (r, s') → session_step (s, b) (s', b)
  | step_RevertAll s b : session_step (s, b) (RevertAll s, b)
  | step_UnlockForOneApply p s b r s' :
      UnlockForOneApply p s = (r, s') → session_step (s, b) (s', b)
  | step_UnlockForRollback p s b r s' :
      UnlockForRollback p s = (r, s') → session_step (s, b) (s', b)
  | step_ApplyAndVerify s b r s' b' :
      ApplyAndVerify s b = (r, s', b') → session_step (s, b) (s', b')
  | step_RollbackBaseline s b r s' b' :
      RollbackBaseline s b = (r, s', b') → session_step (s, b) (s', b')
  | step_environment s b b' : session_step (s, b) (s, b').
End Steps.

(** ** The invariant *)

(** [C1] Whatever sequence of public calls a client makes, and however memory and
    the backend change in between, the session is well formed: both pages are
    4 KiB, the dirty bitmap is exactly the set of offsets where [working_] and
    [baseline_] differ, the edit history is bounded and replays, no transient
    state is left behind, a loaded target is a consistent address, a page is
    only unlocked when there is something to write, and an indeterminate
    transaction always keeps the snapshot needed to recover. *)
Theorem session_invariant {B} `{BackendSpec B} (b0 : B) s b :
  rtc session_step (make_PhysicalPageSession, b0) (s, b) → session_wf s.
Proof.
  intros Hr. assert (∀ x y : PhysicalPageSession * B,
    rtc session_step x y → session_wf x.1 → session_wf y.1) as Hind.
  { intros x y. induction 1 as [|x y z Hstep _ IH]; [done|]. intros Hx. apply IH. clear IH Hr.
    destruct Hstep; cbn [fst snd] in *.
    - by eapply Load_wf.
    - by eapply ReloadPreservingRollback_wf.
    - by apply Invalidate_wf.
    - by eapply EditByte_wf.
    - by eapply RevertByte_wf.
    - by eapply Undo_wf.
    - by eapply Redo_wf.
    - by apply RevertAll_wf.
    - by eapply UnlockForOneApply_wf.
    - by eapply UnlockForRollback_wf.
    - by eapply ApplyAndVerify_wf.
    - by eapply RollbackBaseline_wf.
    - done. }
  apply (Hind _ _ Hr). apply session_wf_init.
Qed.

Lemma session_invariant_witness : session_wf demo_edited.
Proof.
  destruct demo_steps as (b1 & Hl & He & _).
  refine (session_invariant demo_b0 demo_edited b1 (rtc_l _ _ _ _
    (step_Load demo_target _ _ _ _ _ Hl) (rtc_once _ _ (step_EditByte 16 0xAA _ _ _ _ _ He)))).
  lia.
Defined.

(** ** Applying *)

(** [C2] A successful [ApplyAndVerify] means what it says: the page was unlocked,
    physical memory now holds exactly the edited page, the backend's write gate
    is closed, the session is clean at the new contents, and the previous
    contents are kept for a rollback bound to the page just written. *)
Theorem apply_success {B} `{BackendSpec B} s (b : B) s' b' :
  session_wf s → ApplyAndVerify s b = (Success tt, s', b') →
  ∃ t, target_ s = Some t ∧ target_ s' = Some t ∧ write_unlocked_ s = true ∧
    working_ s ≠ baseline_ s ∧
    mem_bytes (phys b') (physical_address (address t)) kPhysicalPageSize = working_ s ∧
    baseline_ s' = working_ s ∧ working_ s' = working_ s ∧ IsDirty s' = false ∧
    rollback_snapshot_ s' = Some (baseline_ s) ∧ rollback_expected_ s' = Some (working_ s) ∧
    last_apply_verified_ s' = true ∧ state_ s' = PS_Clean ∧ write_unlocked_ s' = false.
Proof.
  intros Hwf Ha. pose proof (IsDirty_spec s Hwf) as Hd. rewrite ApplyAndVerify_tx in Ha.
  destruct (target_ s) as [t|] eqn:Ht.
  2:{ unfold ApplyAndVerify in Ha. rewrite Ht in Ha. by simplify_eq. }
  destruct (_ && _) eqn:Hg.
  2:{ unfold ApplyAndVerify in Ha. rewrite Ht in Ha.
      destruct (any (dirty_ s)), (write_unlocked_ s); simplify_eq/=. }
  boolify. unfold IsDirty in *.
  destruct (run_tx _ _ _ _ b) as [en b1] eqn:Hr. apply run_tx_spec in Hr as [_ Hr].
  destruct (apply_finish s en) as [r1 s1] eqn:Hf. simplify_eq.
  destruct en as [| | |res [[]|]]; simpl in Hf; try by simplify_eq.
  case_bool_decide as Hc; [by simplify_eq|].
  destruct (not_verified _ _) eqn:Hnv; simplify_eq.
  unfold not_verified in Hnv. boolify.
  destruct Hr as (_ & Hm & Hap & _). rewrite <- Hap by done. exists t.
  unfold apply_observe. rewrite bool_decide_eq_false_2 by done.
  rewrite Hm. simpl. split_and!; try done.
  rewrite Hap by done. naive_solver congruence.
Qed.

Lemma apply_success_witness : working_ demo_applied = working_ demo_unlocked.
Proof.
  destruct (apply_success demo_unlocked demo_b0 demo_applied demo_b1 demo_unlocked_wf
    (proj1 demo_apply)) as (t & _ & _ & _ & _ & _ & _ & H & _).
  exact H.
Defined.



(** A transaction that got past its guards leaves the session locked. *)
Lemma apply_finish_locked s en : write_unlocked_ (apply_finish s en).2 = false.
Proof.
  destruct en as [| | |? []]; simpl; unfold fail_or_invalidate, apply_observe;
    repeat case_match; done.
Qed.
Lemma rollback_finish_locked s snap exp en :
  write_unlocked_ (rollback_finish s snap exp en).2 = false.
Proof.
  destruct en as [| | |? []]; simpl; unfold fail_or_invalidate, rollback_observe;
    repeat case_match; done.
Qed.

(** The session's own lock is one-shot and mandatory.  While the page is
    locked, [ApplyAndVerify] and [RollbackBaseline] fail without making a single
    backend call or changing the session; and if the page is still unlocked when
    one of them returns, it did nothing at all. *)
Theorem write_requires_unlock {B} `{IMemoryBackend B} s (b : B) r s' b' :
  ApplyAndVerify s b = (r, s', b') ∨ RollbackBaseline s b = (r, s', b') →
  write_unlocked_ s = false ∨ write_unlocked_ s' = true →
  Ok r = false ∧ s' = s ∧ b' = b.
Proof.
  intros [Ha|Ha] Hl.
  - rewrite ApplyAndVerify_tx in Ha. pose proof (apply_finish_locked s) as Hf.
    destruct (target_ s) eqn:Ht.
    2:{ unfold ApplyAndVerify in Ha. rewrite Ht in Ha. by simplify_eq. }
    destruct (any (dirty_ s)) eqn:Hd, (write_unlocked_ s) eqn:Hu; simpl in Ha;
      try (unfold ApplyAndVerify in Ha; rewrite Ht, Hd, ?Hu in Ha; by simplify_eq).
    destruct (run_tx _ _ _ _ b) as [en b1]. specialize (Hf en).
    destruct (apply_finish s en). simplify_eq/=. exfalso. naive_solver congruence.
  - rewrite RollbackBaseline_tx in Ha.
    destruct (target_ s) eqn:Ht, (rollback_snapshot_ s) as [snap|] eqn:Hs,
      (rollback_expected_ s) as [exp|] eqn:He, (write_unlocked_ s) eqn:Hu;
      try (unfold RollbackBaseline in Ha; rewrite Ht, ?Hs, ?He, ?Hu in Ha; by simplify_eq).
    destruct (run_tx _ _ _ _ b) as [en b1].
    pose proof (rollback_finish_locked s snap exp en) as Hf.
    destruct (rollback_finish s snap exp en). simplify_eq/=. exfalso. naive_solver congruence.
Qed.

Lemma write_requires_unlock_witness : (ApplyAndVerify demo_loaded demo_b0).1.2 = demo_loaded.
Proof.
  refine (proj1 (proj2 (write_requires_unlock demo_loaded demo_b0 _ _ _
    (or_introl (triple_eta _)) (or_introl _)))).
  apply demo_loaded_state.
Defined.

(** A conflict overwrites nothing the session can see: when an unlocked dirty
    page ends in [Conflict], the page in memory is not the one that was loaded,
    the reported offsets are exactly those where it differs, the user's edits are
    still staged, and there is nothing to roll back. *)
Theorem apply_conflict_reported {B} `{BackendSpec B} s (b : B) r s' b' t :
  session_wf s → target_ s = Some t → write_unlocked_ s = true → IsDirty s = true →
  ApplyAndVerify s b = (r, s', b') → state_ s' = PS_Conflict →
  let page := mem_bytes (phys b') (physical_address (address t)) kPhysicalPageSize in
  fails_with ConcurrentModification r ∧ page ≠ baseline_ s ∧
  baseline_ s' = baseline_ s ∧ working_ s' = working_ s ∧ dirty_ s' = dirty_ s ∧
  undo_stack_ s' = undo_stack_ s ∧ CanRollback s' = false ∧
  ∀ k, k ∈ last_conflicts_ s' ↔ 0 ≤ k < kPhysicalPageSize ∧ byte_at page k ≠ byte_at (baseline_ s) k.
Proof.
  intros Hwf Ht Hu Hd Ha Hst page. unfold IsDirty in Hd.
  rewrite ApplyAndVerify_tx, Ht, Hu, Hd in Ha. cbn [andb] in Ha.
  destruct (run_tx _ _ _ _ b) as [en b1] eqn:Hr. apply run_tx_spec in Hr as [_ Hr].
  destruct (apply_finish s en) as [r1 s1] eqn:Hf. simplify_eq.
  destruct en as [| | |res [[]|]]; simpl in Hf; simplify_eq;
    unfold fail_or_invalidate in Hst; try (repeat case_match; done).
  case_bool_decide as Hc; [|case_match; by simplify_eq]. simplify_eq.
  unfold apply_observe. rewrite bool_decide_eq_true_2 by done.
  destruct Hr as (Hpg & Hm & _ & Hne). unfold page. rewrite Hm. simpl.
  split_and!; try done; [by apply Hne|]. intros k. rewrite elem_of_mismatch_offsets.
  - by rewrite Hpg.
  - by rewrite Hpg, (wf_baseline s Hwf).
Qed.

Lemma apply_conflict_reported_witness : working_ demo_conflict.1.2 = working_ demo_unlocked.
Proof.
  destruct demo_steps as (b1 & _ & _ & _ & Ht & Hu & Hd & _).
  exact (proj1 (proj2 (proj2 (proj2 (apply_conflict_reported demo_unlocked demo_raced
    demo_conflict.1.1 demo_conflict.1.2 demo_conflict.2 demo_target demo_unlocked_wf Ht Hu Hd
    (triple_eta demo_conflict) demo_conflict_state))))).
Defined.

(** ** Rolling back *)

(** A successful [RollbackBaseline] puts the snapshot taken by the apply back
    into physical memory, byte for byte, makes it the session's clean contents and
    consumes the rollback. *)
Theorem rollback_success {B} `{BackendSpec B} s (b : B) s' b' :
  session_wf s → RollbackBaseline s b = (Success tt, s', b') →
  ∃ t snapshot, target_ s = Some t ∧ rollback_snapshot_ s = Some snapshot ∧
    write_unlocked_ s = true ∧
    mem_bytes (phys b') (physical_address (address t)) kPhysicalPageSize = snapshot ∧
    target_ s' = Some t ∧ baseline_ s' = snapshot ∧ working_ s' = snapshot ∧
    IsDirty s' = false ∧ CanRollback s' = false ∧ write_unlocked_ s' = false ∧
    state_ s' = PS_Clean ∧ ev_rollback (evidence_ s') = Some snapshot.
Proof.
  intros Hwf Ha. rewrite RollbackBaseline_tx in Ha.
  destruct (target_ s) as [t|] eqn:Ht, (rollback_snapshot_ s) as [snap|] eqn:Hs,
    (rollback_expected_ s) as [exp|] eqn:He, (write_unlocked_ s) eqn:Hu;
    try (unfold RollbackBaseline in Ha; rewrite Ht, ?Hs, ?He, ?Hu in Ha; by simplify_eq).
  destruct (run_tx _ _ _ _ b) as [en b1] eqn:Hr. apply run_tx_spec in Hr as [_ Hr].
  destruct (rollback_finish s snap exp en) as [r1 s1] eqn:Hf. simplify_eq.
  destruct en as [| | |res [[]|]]; simpl in Hf; try by simplify_eq.
  case_bool_decide as Hc; [by simplify_eq|].
  destruct (not_verified _ _) eqn:Hnv; simplify_eq.
  unfold not_verified in Hnv. boolify.
  destruct Hr as (_ & Hm & Hap & _). rewrite <- Hap in Hs by done.
  exists t, (readback res). unfold rollback_observe. rewrite bool_decide_eq_false_2 by done.
  rewrite Hap in * by done. split_and!; try done.
Qed.

Lemma rollback_success_witness : IsDirty demo_restored = false.
Proof.
  destruct (rollback_success demo_rollback demo_b1 demo_restored demo_b2
    (proj2 (proj2 demo_apply)) (proj1 (proj2 demo_apply)))
    as (t & snap & _ & _ & _ & _ & _ & _ & _ & H & _).
  exact H.
Defined.

(** After an indeterminate transaction the session refuses to guess: a
    successful observation adopts the page that is really in memory, and then
    offers the rollback bound to exactly that page, or drops it when the page is
    already the snapshot. *)
Theorem reload_recovers {B} `{BackendSpec B} s (b : B) s' b' :
  session_wf s → recovery_observation_required_ s = true →
  ReloadPreservingRollback s b = (Success tt, s', b') →
  ∃ t snapshot, target_ s = Some t ∧ rollback_snapshot_ s = Some snapshot ∧
    let page := mem_bytes (phys b') (physical_address (address t)) kPhysicalPageSize in
    baseline_ s' = page ∧ working_ s' = page ∧ IsDirty s' = false ∧
    recovery_observation_required_ s' = false ∧
    if decide (page = snapshot) then CanRollback s' = false
    else rollback_snapshot_ s' = Some snapshot ∧ rollback_expected_ s' = Some page.
Proof.
  intros Hwf Hrec Hl. destruct (wf_recovery s Hwf Hrec) as [[snap Hsnap] Hexp].
  unfold ReloadPreservingRollback in Hl. destruct (target_ s) as [t|] eqn:Ht; [|by simplify_eq].
  exists t, snap. split; [done|]. split; [done|]. intros page.
  rewrite Hrec, andb_false_r, Hsnap, bool_decide_eq_false_2 in Hl by done.
  destruct (session_busy (state_ s)); [by simplify_eq|].
  destruct (ValidatePageRange _ b) as [[[]|e] b1]; [|by simplify_eq].
  destruct (ReadExactPage _ b1) as [[bytes|e] b2] eqn:Hr; [|by simplify_eq].
  assert (page = bytes ∧ b2 = b') as [-> ->].
  { assert (b2 = b') as -> by (clear Hr; repeat case_match; simplify_eq/=; done).
    split; [|done]. unfold ReadExactPage in Hr. simpl in Hr. rewrite Ht in Hr.
    destruct (ReadPhysical _ _ b1) as [[bs|?] b3] eqn:Hrd; [|by simplify_eq].
    destruct (negb (sizeZ bs =? kPhysicalPageSize)) eqn:Hsz; [by simplify_eq|]. simplify_eq.
    boolify. by apply read_page in Hrd. }
  clear Hr. destruct s as [? base work ? exp ev d lc lm un re st wu lav rec rev]; simpl in *.
  subst. case_bool_decide; simplify_eq/=; split_and!; try done.
  - by rewrite decide_True.
  - rewrite decide_False by congruence. done.
Qed.

Lemma reload_recovers_witness : IsDirty demo_recovered.1.2 = false.
Proof.
  destruct demo_lost_recovers as (Hwf & Hrec & Hr).
  destruct (reload_recovers demo_lost demo_b1_lossy demo_recovered.1.2 demo_recovered.2 Hwf Hrec
    Hr) as (t & snap & _ & _ & _ & _ & H & _).
  exact H.
Defined.

(** ** Editing *)

(** [Undo] after an edit restores the page, the dirty bitmap and (up to the
    history bound, which drops the oldest entry) the history; [Redo] after that
    [Undo] restores the edited session's page and history. *)
Theorem edit_undo_redo s offset value :
  session_wf s → is_Some (target_ s) → 0 ≤ offset < kPhysicalPageSize →
  byte_at (working_ s) offset ≠ value →
  ∃ s1 s2 s3, EditByte offset value s = (Success tt, s1) ∧ Undo s1 = (Success tt, s2) ∧
    Redo s2 = (Success tt, s3) ∧
    working_ s1 = store_at (working_ s) offset value ∧
    working_ s2 = working_ s ∧ dirty_ s2 = dirty_ s ∧
    undo_stack_ s2 = (if UndoDepth s <? kMaxEditHistory then undo_stack_ s
                      else drop 1 (undo_stack_ s)) ∧
    working_ s3 = working_ s1 ∧ dirty_ s3 = dirty_ s1 ∧
    undo_stack_ s3 = undo_stack_ s1 ∧ redo_stack_ s3 = [] ∧ redo_stack_ s1 = [].
Proof.
  intros Hwf Ht Hoff Hne.
  set (e := mkByteEdit offset (byte_at (working_ s) offset) value).
  pose proof (ApplyLocalEdit_change offset value true s (session_pages_wf s Hwf) Ht Hoff Hne) as He.
  cbv iota in He. fold e in He. fold (EditByte offset value s) in He.
  set (s1 := edited offset value (push_history (undo_stack_ s) e) [] s) in He.
  assert (session_wf s1) as Hwf1 by (eapply EditByte_wf; [exact Hwf| |exact He]; lia).
  set (rest := if UndoDepth s <? kMaxEditHistory then undo_stack_ s else drop 1 (undo_stack_ s)).
  assert (undo_stack_ s1 = rest ++ [e]) as Hu1.
  { unfold rest, UndoDepth. simpl. unfold push_history. rewrite sizeZ_app.
    change (sizeZ [e]) with 1. pose proof (wf_history_bound s Hwf).
    destruct (Z.ltb_spec (sizeZ (undo_stack_ s)) kMaxEditHistory),
      (Z.ltb_spec kMaxEditHistory (sizeZ (undo_stack_ s) + 1)); try lia; [done|].
    destruct (undo_stack_ s); [unfold sizeZ, kMaxEditHistory in *; simpl in *; lia|].
    done. }
  destruct (Undo_spec s1 rest e Hwf1 Hu1) as [Hundo Hwf2].
  set (s2 := edited _ _ rest _ s1) in *.
  destruct (Redo_spec s2 [] e Hwf2 eq_refl) as [Hredo _].
  pose proof (wf_working s Hwf) as Hw. unfold is_page in Hw.
  assert (working_ s2 = working_ s) as Hw2.
  { unfold s2, s1. simpl. rewrite store_at_store_at. by apply store_at_byte_at; lia. }
  exists s1, s2. eexists. split_and!; try done.
  - change (dirty_ s2) with (diff_bitmap (baseline_ s2) (working_ s2)).
    rewrite Hw2. symmetry. apply Hwf.
  - simpl. rewrite !store_at_store_at. done.
  - simpl. rewrite !store_at_store_at. done.
Qed.

Lemma edit_undo_redo_witness :
  ∃ s2, Undo demo_edited = (Success tt, s2) ∧ working_ s2 = working_ demo_loaded.
Proof.
  destruct demo_steps as (b1 & _ & He & _).
  destruct (edit_undo_redo demo_loaded 16 0xAA) as (s1 & s2 & s3 & H1 & H2 & _ & _ & H3 & _).
  - apply demo_loaded_wf.
  - rewrite (proj1 demo_loaded_state). by eexists.
  - unfold kPhysicalPageSize. lia.
  - rewrite (proj1 (proj2 demo_loaded_state)). apply demo_byte_16.
  - rewrite He in H1. injection H1 as <-. exists s2. exact (conj H2 H3).
Defined.
