(* ===== verification/PageSessionProtocol.v ===== *)
(** The edit history as a whole and the two diff views of
    [PhysicalPageSession].

    The order of backend calls in a page transaction, and complete edit / apply /
    reload / roll back cycles on a fault-free mock backend. *)

From stdpp Require Import sorting.
From S2P Require Import Prelude CppStd Common PfnAddress X64PageTable MemoryBackend MockMemoryBackend EditBuffer PageSession PageTransaction PageSessionMock PageSessionTheorems.

(** ** Undoing everything *)

Definition edit_all (edits : list (Z * Z)) (s : PhysicalPageSession) : PhysicalPageSession :=
  foldl (λ s e, (EditByte e.1 e.2 s).2) s edits.

Fixpoint undo_times (n : nat) (s : PhysicalPageSession) : PhysicalPageSession :=
  match n with O => s | S n => undo_times n (Undo s).2 end.

Lemma undo_times_unwind s :
  session_wf s →
  working_ (undo_times (length (undo_stack_ s)) s) = unwind (working_ s) (reverse (undo_stack_ s)).
Proof.
  intros Hwf. remember (length (undo_stack_ s)) as n eqn:Hn. revert s Hwf Hn.
  induction n as [|n IH]; intros s Hwf Hn; simpl.
  { by destruct (undo_stack_ s). }
  destruct (undo_stack_ s) as [|e u _] eqn:Hu using rev_ind; [done|].
  destruct (Undo_spec s u e Hwf Hu) as [-> Hwf'].
  rewrite length_app in Hn. simpl in Hn. cbn [snd]. rewrite (IH _ Hwf') by (simpl; lia).
  simpl. by rewrite reverse_snoc.
Qed.

(** An edit with room in the history does not lose the way back. *)
Lemma EditByte_unwind offset value s :
  session_wf s → 0 ≤ offset → UndoDepth s < kMaxEditHistory →
  let s' := (EditByte offset value s).2 in
  unwind (working_ s') (reverse (undo_stack_ s')) = unwind (working_ s) (reverse (undo_stack_ s)) ∧
  UndoDepth s' ≤ UndoDepth s + 1.
Proof.
  intros Hwf Hoff Hroom. unfold UndoDepth, EditByte in *.
  destruct (decide (is_Some (target_ s) ∧ offset < kPhysicalPageSize ∧
    byte_at (working_ s) offset ≠ value)) as [(Ht & ? & ?)|Hn].
  - rewrite ApplyLocalEdit_change by (auto with kdbg lia). simpl. unfold push_history.
    set (e := mkByteEdit _ _ _). rewrite sizeZ_app. change (sizeZ [e]) with 1.
    destruct (Z.ltb_spec kMaxEditHistory (sizeZ (undo_stack_ s) + 1)); [lia|].
    rewrite sizeZ_app, reverse_snoc. change (sizeZ [e]) with 1. simpl.
    pose proof (wf_working s Hwf) as Hw. unfold is_page in Hw.
    rewrite store_at_store_at, store_at_byte_at by lia. split; [done|lia].
  - destruct (ApplyLocalEdit_same offset value true s) as [r ->];
      [auto with kdbg| |simpl; split; [done|lia]].
    destruct (decide (is_Some (target_ s))) as [|?%eq_None_not_Some]; [|tauto].
    destruct (Z.le_gt_cases kPhysicalPageSize offset); [tauto|].
    destruct (decide (byte_at (working_ s) offset = value)); tauto.
Qed.

Lemma edit_all_unwind edits s :
  session_wf s → Forall (λ e, 0 ≤ e.1) edits →
  UndoDepth s + sizeZ edits ≤ kMaxEditHistory →
  let s' := edit_all edits s in
  session_wf s' ∧
  unwind (working_ s') (reverse (undo_stack_ s')) = unwind (working_ s) (reverse (undo_stack_ s)).
Proof.
  revert s. induction edits as [|[o v] edits IH]; intros s Hwf Hnn Hsz; simpl; [done|].
  apply Forall_cons_1 in Hnn as [Ho Hnn]. simpl in Ho.
  assert (sizeZ ((o, v) :: edits) = sizeZ edits + 1) as Hcons by (unfold sizeZ; simpl; lia).
  pose proof (sizeZ_nonneg edits).
  destruct (EditByte_unwind o v s Hwf Ho) as [Hun Hd]; [lia|].
  destruct (EditByte o v s) as [r s1] eqn:He. cbn [fst snd] in *.
  rewrite <- Hun. apply IH; [by apply (EditByte_wf o v s r)|done|lia].
Qed.

(** Any sequence of at most 4096 byte edits can be undone completely: calling
    [Undo] once per recorded edit brings the page back to what it was before the
    first edit. *)
Theorem undo_all_edits s edits :
  session_wf s → undo_stack_ s = [] → Forall (λ e, 0 ≤ e.1) edits →
  sizeZ edits ≤ kMaxEditHistory →
  let s' := edit_all edits s in
  working_ (undo_times (length (undo_stack_ s')) s') = working_ s.
Proof.
  intros Hwf Hu Hnn Hsz s'.
  destruct (edit_all_unwind edits s Hwf Hnn) as [Hwf' Hun].
  { unfold UndoDepth. by rewrite Hu. }
  unfold s'. rewrite undo_times_unwind by done. rewrite Hun, Hu. done.
Qed.

Lemma undo_all_edits_witness :
  let s' := edit_all [(1, 2); (1, 3); (4095, 9)] demo_loaded in
  working_ (undo_times (length (undo_stack_ s')) s') = working_ demo_loaded.
Proof.
  refine (undo_all_edits demo_loaded [(1, 2); (1, 3); (4095, 9)] demo_loaded_wf _ _ _).
  - apply demo_loaded_state.
  - repeat constructor; simpl; lia.
  - vm_compute. congruence.
Defined.

(** ** Diff views *)

(** [DiffRuns] is an exact and minimal description of the staged edits: writing
    the [after] bytes of the runs over the baseline gives the working page, writing
    the [before] bytes over the working page gives the baseline back, every byte of
    every run really differs, and the runs are in order and separated by at least
    one unchanged byte. *)
Theorem DiffRuns_exact s :
  session_wf s →
  patch_all (baseline_ s) (DiffRuns s) dr_after = working_ s ∧
  patch_all (working_ s) (DiffRuns s) dr_before = baseline_ s ∧
  Forall (run_ok (baseline_ s) (working_ s)) (DiffRuns s) ∧
  StronglySorted (λ r r', run_stop r < dr_offset r') (DiffRuns s).
Proof.
  intros [Hb Hw _ _ Hd]. unfold DiffRuns. rewrite Hd.
  assert (kPhysicalPageSize - 0 < Z.of_nat (S (Z.to_nat kPhysicalPageSize))) by (vm_compute; done).
  split_and!.
  - apply diff_runs_from_patch with (src := baseline_ s); try done; try lia. by intros r (_&_&_&_&?&_).
  - apply diff_runs_from_patch with (src := working_ s); try done; try lia. by intros r (_&_&_&?&_).
  - by apply diff_runs_from_ok.
  - by apply diff_runs_from_sorted.
Qed.

Lemma DiffRuns_exact_witness :
  patch_all (baseline_ demo_edited) (DiffRuns demo_edited) dr_after = working_ demo_edited.
Proof. exact (proj1 (DiffRuns_exact demo_edited demo_edited_wf)). Defined.

(** ** A backend that records the calls it gets *)

Inductive backend_call :=
  | CallRanges
  | CallRead (pa n : Z)
  | CallGate (enabled : bool)
  | CallCompareWrite (pa : Z) (expected desired : list Z)
  | CallOther.

Record Traced (B : Type) := mkTraced { inner : B; log : list backend_call }.
Arguments mkTraced {B} _ _.
Arguments inner {B} _.
Arguments log {B} _.

Definition logged {B T} (c : backend_call) (f : B → T * B) (t : Traced B) : T * Traced B :=
  let '(r, b) := f (inner t) in (r, mkTraced b (log t ++ [c])).

#[export] Instance Traced_IMemoryBackend `{IMemoryBackend B} : IMemoryBackend (Traced B) := {
  Open := logged CallOther Open;
  Close t := mkTraced (Close (inner t)) (log t ++ [CallOther]);
  Info t := Info (inner t);
  QuerySessionStatus := logged CallOther QuerySessionStatus;
  GetPhysicalRanges := logged CallRanges GetPhysicalRanges;
  ReadPhysical pa n := logged (CallRead pa n) (ReadPhysical pa n);
  SetWriteEnabled e := logged (CallGate e) (SetWriteEnabled e);
  WritePhysical pa data := logged CallOther (WritePhysical pa data);
  CompareWritePhysicalPage pa exp des :=
    logged (CallCompareWrite pa exp des) (CompareWritePhysicalPage pa exp des);
  GetProcessContext p := logged CallOther (GetProcessContext p);
  ReadProcessVirtual p va n := logged CallOther (ReadProcessVirtual p va n);
  WriteProcessVirtual p va data := logged CallOther (WriteProcessVirtual p va data);
  ReadKernelVirtual va n := logged CallOther (ReadKernelVirtual va n);
  TranslateVirtual dtb va := logged CallOther (TranslateVirtual dtb va)
}.

(** The call sequences a transaction may make: it may stop after the range query,
    or after a refused gate request (which is followed by a fail-closed request);
    otherwise there is exactly one compare/write, between opening and closing the
    gate, and a failed close is retried once by the guard's destructor. *)
Definition tx_protocol (pa : Z) (expected desired : list Z) : list (list backend_call) :=
  let opened := [CallRanges; CallGate true] in
  let written := opened ++ [CallCompareWrite pa expected desired] in
  [ [CallRanges];
    opened ++ [CallGate false];
    written ++ [CallGate false];
    written ++ [CallGate false; CallGate false] ].

Section Protocol.
Context {B : Type} `{IMemoryBackend B}.

Lemma run_tx_protocol s t pa expected desired (b : Traced B) :
  target_ s = Some t →
  ∃ calls, log (run_tx s pa expected desired b).2 = log b ++ calls ∧
    calls ∈ tx_protocol pa expected desired.
Proof.
  intros Ht. unfold run_tx, close_guard, gate_Close, gate_Enable, ValidatePageRange. rewrite Ht.
  unfold tx_protocol. simpl. unfold logged.
  destruct (GetPhysicalRanges (inner b)) as [[ranges|e] b1]; simpl.
  2:{ eexists. split; [reflexivity|]. apply elem_of_cons. by left. }
  destruct (negb (existsb _ _)); simpl.
  { eexists. split; [reflexivity|]. apply elem_of_cons. by left. }
  destruct (SetWriteEnabled true b1) as [[[]|e] b2]; simpl.
  2:{ destruct (SetWriteEnabled false b2) as [[[]|e'] b3]; simpl;
      (eexists; split; [rewrite <- !app_assoc; reflexivity|]; do 1 (apply elem_of_cons; right);
       apply elem_of_cons; by left). }
  destruct (CompareWritePhysicalPage pa expected desired b2) as [[res|e] b3]; simpl;
    destruct (SetWriteEnabled false b3) as [[[]|e'] b4]; simpl;
    unfold logged; simpl; try destruct (SetWriteEnabled false b4) as [r5 b5]; simpl;
    (eexists; split; [rewrite <- !app_assoc; reflexivity|]).
  1,3: do 2 (apply elem_of_cons; right); apply elem_of_cons; by left.
  all: do 3 (apply elem_of_cons; right); apply elem_of_cons; by left.
Qed.
End Protocol.

(** The only way a page session writes memory is one whole-page compare/write
    of the loaded target, with the baseline as the expected page and the working
    page as the new one, bracketed by opening and closing the write gate.  When
    [ApplyAndVerify] does not refuse up front, the calls it makes on any backend are
    one of the four sequences of [tx_protocol]; otherwise it makes none. *)
Theorem apply_call_protocol {B} `{IMemoryBackend B} s (b : B) r s' b' calls :
  ApplyAndVerify s (mkTraced b []) = (r, s', mkTraced b' calls) →
  calls = [] ∨
  ∃ t, target_ s = Some t ∧ write_unlocked_ s = true ∧ IsDirty s = true ∧
    calls ∈ tx_protocol (physical_address (address t)) (baseline_ s) (working_ s).
Proof.
  intros Ha. rewrite ApplyAndVerify_tx in Ha.
  destruct (target_ s) as [t|] eqn:Ht; [|simplify_eq; by left].
  destruct (_ && _) eqn:Hg; [|simplify_eq; by left]. boolify. right. exists t.
  destruct (run_tx_protocol (apply_begin s) t (physical_address (address t)) (baseline_ s)
    (working_ s) (mkTraced b [])) as (calls' & Hlog & Hin); [done|].
  destruct (run_tx _ _ _ _ _) as [en bt] eqn:Hr. simplify_eq/=. done.
Qed.

Definition demo_traced := ApplyAndVerify demo_unlocked (mkTraced demo_b0 []).
Definition demo_log : list backend_call := log demo_traced.2.

Lemma demo_log_nonempty : demo_log ≠ [].
Proof.
  destruct demo_steps as (b1 & _ & _ & _ & Ht & Hu & Hd & _). unfold demo_log, demo_traced.
  rewrite ApplyAndVerify_tx, Ht, Hu. unfold IsDirty in Hd. rewrite Hd. cbn [andb].
  destruct (run_tx_protocol (apply_begin demo_unlocked) demo_target
    (physical_address (address demo_target)) (baseline_ demo_unlocked) (working_ demo_unlocked)
    (mkTraced demo_b0 []) Ht) as (calls & Hlog & Hin).
  destruct (run_tx _ _ _ _ _) as [en bt]. cbn [snd log app] in Hlog |- *. rewrite Hlog.
  intros ->. unfold tx_protocol in Hin. repeat (apply elem_of_cons in Hin as [?|Hin]; [done|]).
  by apply elem_of_nil in Hin.
Qed.

Lemma apply_call_protocol_witness :
  demo_log ∈ tx_protocol (4096 * 256) (mock_page (4096 * 256) demo_b0) (working_ demo_unlocked).
Proof.
  destruct demo_steps as (b1 & _ & _ & _ & Ht & _ & _ & Hb).
  destruct (apply_call_protocol demo_unlocked demo_b0 demo_traced.1.1 demo_traced.1.2
    (inner demo_traced.2) demo_log) as [Hc|(t & Ht' & _ & _ & Hin)].
  - unfold demo_log, demo_traced. by destruct (ApplyAndVerify _ _) as [[??][??]].
  - destruct (demo_log_nonempty Hc).
  - rewrite Ht in Ht'. injection Ht' as <-. rewrite Hb in Hin. exact Hin.
Defined.

(** ** Complete cycles on a fault-free mock *)

(** The evidence workflow on one byte of one page: load, edit, unlock with the
    retyped PFN, apply, reload independently, unlock again, roll back.  Returns the
    seven results, the page right after the apply, and the final states. *)
Definition evidence_cycle (p offset value : Z) (s : PhysicalPageSession) (b : MockMemoryBackend)
    : list (Result unit) * list Z * PhysicalPageSession * MockMemoryBackend :=
  let pa := 4096 * p in
  let '(r1, s, b) := Load (TargetRawPfn (mkPfnAddress p pa)) s b in
  let '(r2, s) := EditByte offset value s in
  let '(r3, s) := UnlockForOneApply p s in
  let '(r4, s, b) := ApplyAndVerify s b in
  let applied := mock_page pa b in
  let '(r5, s, b) := ReloadPreservingRollback s b in
  let '(r6, s) := UnlockForRollback p s in
  let '(r7, s, b) := RollbackBaseline s b in
  ([r1; r2; r3; r4; r5; r6; r7], applied, s, b).

(** The evidence workflow completes: on a connected mock without injected
    faults, for every page frame of its RAM, every offset and every new byte value,
    starting from any well-formed session, all seven steps succeed, memory holds the
    edited page after the apply and the original page after the rollback, and the
    collected evidence satisfies [Complete]. *)
Theorem evidence_cycle_complete p offset value s b :
  session_wf s → mock_frame p → mock_ready b → 0 ≤ offset < kPhysicalPageSize →
  byte_at (mock_page (4096 * p) b) offset ≠ value →
  ∃ s' b', evidence_cycle p offset value s b =
      (replicate 7 (Success tt), store_at (mock_page (4096 * p) b) offset value, s', b') ∧
    mock_page (4096 * p) b' = mock_page (4096 * p) b ∧ Complete (evidence_ s') = true.
Proof.
  intros Hwf0 Hp Hb Hoff Hne. unfold evidence_cycle.
  destruct (mock_stage p Hp offset value s b Hwf0 Hb Hoff Hne) as
    (s1 & b1 & s2 & s3 & -> & -> & -> & Hwf3 & Hb1 & Hm1 & Ht3 & Hu3 & Hd3 & Hbase3 & Hwork3).
  pose proof (mock_page_is_page (4096 * p) b) as Hpage.
  destruct (mock_apply p Hp s3 b1 Hwf3 Hb1 Ht3 Hu3 Hd3) as
    (s4 & b4 & Ha & Hrdy4 & Hm4 & Hpg4 & Ht4 & Hrec4 & Hs4 & He4 & Hba4 & Hd4 & _ & Hev4).
  { unfold mock_page in *. by rewrite Hm1. }
  rewrite Ha. pose proof (ApplyAndVerify_wf _ _ _ _ _ Hwf3 Ha) as Hwf4.
  destruct (mock_reload p Hp s4 b4) as (s5 & b5 & -> & Hrdy5 & Hm5 & Hwf5 & Ht5 & Hs5 & He5 & Hev5);
    [done|done|done|unfold IsDirty; rewrite Hd4; apply any_no_dirty|done|by rewrite Hs4|congruence|].
  assert (UnlockForRollback p s5 = (Success tt, s5 <| write_unlocked_ := true |>)) as Hu5.
  { unfold UnlockForRollback. rewrite Ht5, Hs5, He5, Hs4, He4. simpl. by rewrite Z.eqb_refl. }
  rewrite Hu5. pose proof (UnlockForRollback_wf _ _ _ _ Hwf5 Hu5) as Hwf6.
  destruct (mock_rollback p Hp (s5 <| write_unlocked_ := true |>) b5 (baseline_ s3) (working_ s3))
    as (s7 & b7 & -> & Hrdy7 & Hm7 & Hev7);
    [done|done|done|done|by simpl; congruence|by simpl; congruence
    |unfold mock_page in *; by rewrite Hm5|].
  exists s7, b7. split_and!.
  - by rewrite Hpg4, Hwork3.
  - unfold mock_page at 1. rewrite Hm7, Hbase3, <- Hpage. apply mem_bytes_store.
  - rewrite Hev7. change (evidence_ (update write_unlocked_ _ s5)) with (evidence_ s5).
    rewrite Hev5, Hev4, Hba4. unfold Complete. cbn.
    rewrite !(proj2 (bytes_eqb_eq _ _)) by done. done.
Qed.

Lemma evidence_cycle_complete_witness :
  ∃ s' b', evidence_cycle 300 5 0xEE make_PhysicalPageSession demo_b0 =
      (replicate 7 (Success tt), store_at (mock_page (4096 * 300) demo_b0) 5 0xEE, s', b').
Proof.
  destruct (evidence_cycle_complete 300 5 0xEE make_PhysicalPageSession demo_b0)
    as (s' & b' & H & _).
  - exact session_wf_init.
  - unfold mock_frame. lia.
  - exact demo_ready.
  - unfold kPhysicalPageSize. lia.
  - unfold mock_page. rewrite byte_at_mem_bytes by (unfold kPhysicalPageSize; lia).
    vm_compute. congruence.
  - exists s', b'. exact H.
Defined.
