(* ===== verification/VerifiedWriter.v ===== *)
(** [core/memory/VerifiedWriter]: generic writes to process-virtual memory, armed
    by a one-shot token bound to a PID, checked before and after. *)

From S2P Require Import Prelude Common X64PageTable MemoryBackend MockMemoryBackend.

(** ** The arm token *)

Record VerifiedWriteArmToken := mkArmToken { token_pid : Z; token_valid : bool }.

(** The private constructor. *)
Definition make_token (p : Z) : VerifiedWriteArmToken := mkArmToken p (negb (p =? 0)).

(** The move constructor: the new token, and what is left of the old one. *)
Definition token_move (other : VerifiedWriteArmToken)
    : VerifiedWriteArmToken * VerifiedWriteArmToken :=
  (mkArmToken (token_pid other) (token_valid other), mkArmToken 0 false).

(** Move assignment to another token; self-assignment changes nothing. *)
Definition token_assign (self other : VerifiedWriteArmToken)
    : VerifiedWriteArmToken * VerifiedWriteArmToken :=
  (mkArmToken (token_pid other) (token_valid other), mkArmToken 0 false).

Definition Consume (p : Z) (t : VerifiedWriteArmToken) : bool * VerifiedWriteArmToken :=
  (token_valid t && negb (p =? 0) && (token_pid t =? p), mkArmToken 0 false).

Definition ArmProcessWrite (confirmed_pid : Z) : Result VerifiedWriteArmToken :=
  if confirmed_pid =? 0 then
    Failure (MakeError InvalidArgument "Process-write confirmation requires a non-zero PID"
      "VerifiedWriter::ArmProcessWrite")
  else Success (make_token confirmed_pid).

(** ** Writing *)

Record VerifiedWriteResult := mkVerifiedWriteResult {
  vw_space : MemorySpace;
  vw_address : Z;
  vw_before : list Z;
  vw_requested : list Z;
  vw_readback : list Z;
  vw_verified : bool
}.

Definition kMaxWriteLength : Z := 1024 * 1024.

Section Writer.
Context {B : Type} `{IMemoryBackend B}.

(** The gate is opened, used for one write and closed; every failure on the way
    leaves it requested closed. *)
Definition gated_write (space : MemorySpace) (address : Z) (data : list Z) (b : B)
    : Result Z * B :=
  match SetWriteEnabled true b with
  | (Failure enabled, b) =>
      match SetWriteEnabled false b with
      | (Failure error, b) =>
          (Failure (error <| message :=
             "Write-gate enable failed and fail-closed cleanup also failed: " +:+
             message error |>), b)
      | (Success _, b) => (Failure enabled, b)
      end
  | (Success _, b) =>
      let '(written, b) := WriteMemory space address data b in
      match SetWriteEnabled false b with
      | (Failure error, b) =>
          let '(retry, b) := SetWriteEnabled false b in
          let error := error <| message := message error +:+
            match retry with
            | Success _ => "; a cleanup retry locked the gate, but the transaction is failed"
            | Failure e => "; cleanup retry also failed: " +:+ message e
            end |> in
          let error := match written with
            | Success _ => error
            | Failure e => error <| message :=
                message error +:+ "; the write also failed: " +:+ message e |>
            end in
          (Failure error, b)
      | (Success _, b) => (written, b)
      end
  end.

Definition VerifiedWrite (arm_token : VerifiedWriteArmToken) (space : MemorySpace)
    (address : Z) (data : list Z) (expected_before : option (list Z)) (b : B)
    : Result VerifiedWriteResult * B :=
  let op := "VerifiedWriter::Write" in
  if negb (bool_decide (kind space = ProcessVirtual)) then
    (Failure (MakeError Unsupported
       "Generic verified writes are process-virtual only; use PhysicalPageSession for typed-confirmed physical transactions"
       op), b)
  else if pid space =? 0 then
    (Failure (MakeError InvalidArgument "Process-virtual writes require a non-zero PID" op), b)
  else if negb (Consume (pid space) arm_token).1 then
    (Failure (MakeError WriteLocked
       "Verified process write requires a fresh matching PID arm token" op), b)
  else if (sizeZ data =? 0) || (kMaxWriteLength <? sizeZ data) || (u32_max <? sizeZ data) then
    (Failure (MakeErrorFull
       (if kMaxWriteLength <? sizeZ data then LimitReached else InvalidArgument)
       "Verified write requires a non-empty bounded payload" op 0 kMaxWriteLength (sizeZ data)), b)
  else if u64_max - sizeZ data <? address then
    (Failure (MakeError AddressOverflow "Verified write address range overflowed" op), b)
  else if match expected_before with Some e => negb (sizeZ e =? sizeZ data) | None => false end then
    (Failure (MakeErrorFull InvalidArgument "Expected-before data must match the write length" op
       0 (sizeZ data) (sizeZ (default [] expected_before))), b)
  else
    let length := sizeZ data in
    match ReadMemory space address length b with
    | (Failure e, b) => (Failure e, b)
    | (Success before, b) =>
    if negb (sizeZ before =? sizeZ data) then
      (Failure (MakeErrorFull ShortRead "Pre-write read returned fewer bytes than requested" op
         0 (sizeZ data) (sizeZ before)), b)
    else if match expected_before with
            | Some e => negb (sizeZ e =? sizeZ before) || negb (bytes_eqb e before)
            | None => false
            end then
      (Failure (MakeError ConcurrentModification
         "Memory changed after it was presented to the user" op), b)
    else
    match gated_write space address data b with
    | (Failure e, b) => (Failure e, b)
    | (Success written, b) =>
    if negb (written =? sizeZ data) then
      (Failure (MakeErrorFull ShortWrite "Backend wrote fewer bytes than requested" op
         0 (sizeZ data) written), b)
    else
    match ReadMemory space address length b with
    | (Failure e, b) => (Failure e, b)
    | (Success rb, b) =>
    if negb (sizeZ rb =? sizeZ data) || negb (bytes_eqb data rb) then
      (Failure (MakeErrorFull VerificationMismatch
         "Write read-back did not match the requested bytes" op 0 (sizeZ data) (sizeZ rb)), b)
    else (Success (mkVerifiedWriteResult space address before data rb true), b)
    end end end.
End Writer.

(** ** What it needs from the backend

    Process-virtual accesses of a backend: the memory of each process, reads that
    return it and leave the gate alone, writes that consume the gate. *)

Class ProcessVirtualSpec (B : Type) `{BackendSpec B} := {
  pmem : B → Z → Z → Z;
  process_read_gate p va n b r b' :
    ReadProcessVirtual p va n b = (r, b') → gate b' = gate b;
  process_read_bytes p va n b bytes b' :
    ReadProcessVirtual p va n b = (Success bytes, b') → sizeZ bytes = n →
    mem_bytes (pmem b' p) va n = bytes;
  process_write_gate p va data b r b' :
    WriteProcessVirtual p va data b = (r, b') → gate b' = false
}.

Definition mock_pmem (b : MockMemoryBackend) (_ : Z) : Z → Z := λ va, memory_ b (va - kVirtualBase).

#[export] Instance Mock_ProcessVirtualSpec : ProcessVirtualSpec MockMemoryBackend.
Proof.
  refine {| pmem := mock_pmem |}.
  - simpl. unfold Mock_ReadProcessVirtual. intros * Hr. case_match; [by simplify_eq|].
    by apply Mock_ReadPhysical_cases in Hr as [? _].
  - simpl. unfold Mock_ReadProcessVirtual. intros * Hr Hn. case_match; [by simplify_eq|].
    apply Mock_ReadPhysical_cases in Hr as [_ Hr]. rewrite (Hr Hn). unfold mock_pmem.
    rewrite mem_bytes_shift. f_equal. lia.
  - simpl. unfold Mock_WriteProcessVirtual, Mock_WritePhysical, mock_gate. intros * Hw.
    case_match; [simplify_eq/=; apply andb_false_r|].
    destruct b as [m f [] [] wc rc ec dc cc]; simpl in Hw; try by (simplify_eq; done).
    case_match; simplify_eq; [done|].
    unfold apply_mutate_after_write. repeat case_match; done.
Defined.

(** ** Theorems *)

Section Facts.
Context {B : Type} `{ProcessVirtualSpec B}.

Lemma ReadMemory_process space a n (b : B) :
  kind space = ProcessVirtual → pid space ≠ 0 →
  ReadMemory space a n b = ReadProcessVirtual (pid space) a n b.
Proof. intros Hk Hp. unfold ReadMemory. rewrite Hk. by destruct (Z.eqb_spec (pid space) 0). Qed.
Lemma WriteMemory_process space a data (b : B) :
  kind space = ProcessVirtual → pid space ≠ 0 →
  WriteMemory space a data b = WriteProcessVirtual (pid space) a data b.
Proof. intros Hk Hp. unfold WriteMemory. rewrite Hk. by destruct (Z.eqb_spec (pid space) 0). Qed.

Lemma gated_write_closed space a data (b : B) r b' :
  kind space = ProcessVirtual → pid space ≠ 0 → gate b = false →
  gated_write space a data b = (r, b') → gate b' = false.
Proof.
  intros Hk Hp Hg Hw. unfold gated_write in Hw.
  assert (∀ (b1 : B) r1 b2, SetWriteEnabled false b1 = (r1, b2) → gate b1 = false → gate b2 = false)
    as Hoff.
  { intros b1 [[]|e] b2 Hs Hg1; [by eapply gate_success|].
    by eapply gate_failure. }
  destruct (SetWriteEnabled true b) as [[[]|e] b1] eqn:Hs1.
  - rewrite WriteMemory_process in Hw by done.
    destruct (WriteProcessVirtual _ _ _ b1) as [w b2] eqn:Hs2. apply process_write_gate in Hs2.
    destruct (SetWriteEnabled false b2) as [[[]|e] b3] eqn:Hs3; [simplify_eq; eauto|].
    destruct (SetWriteEnabled false b3) as [r4 b4] eqn:Hs4. simplify_eq. eauto.
  - pose proof (gate_failure _ _ _ _ Hs1 Hg) as Hg1. destruct (SetWriteEnabled false b1) as [[[]|e'] b2] eqn:Hs2;
      simplify_eq; by eapply Hoff.
Qed.
End Facts.

Lemma VerifiedWrite_success {B} `{ProcessVirtualSpec B} token space a data exp (b : B) res b' :
  gate b = false → VerifiedWrite token space a data exp b = (Success res, b') →
  kind space = ProcessVirtual ∧ token_valid token = true ∧ token_pid token = pid space ∧
  0 < sizeZ data ≤ kMaxWriteLength ∧ a + sizeZ data ≤ u64_max ∧
  mem_bytes (pmem b' (pid space)) a (sizeZ data) = data ∧
  vw_readback res = data ∧ vw_verified res = true ∧ from_option (eq (vw_before res)) True exp ∧
  gate b' = false.
Proof.
  intros Hg Hw. unfold VerifiedWrite, Consume in Hw. pose proof (sizeZ_nonneg data).
  case_bool_decide as Hk; [|done]. simpl in Hw.
  destruct (Z.eqb_spec (pid space) 0) as [|Hp]; [done|]. simpl in Hw. rewrite andb_true_r in Hw.
  destruct (token_valid token && (token_pid token =? pid space)) eqn:Ht; [|done]. simpl in Hw.
  destruct (_ || _) eqn:Hsz in Hw; [done|].
  destruct (Z.ltb_spec (u64_max - sizeZ data) a); [done|].
  destruct (match exp with Some _ => _ | None => _ end) in Hw; [done|].
  rewrite ReadMemory_process in Hw by done.
  destruct (ReadProcessVirtual _ _ _ b) as [[before|] b1] eqn:Hr1; [|done].
  apply process_read_gate in Hr1.
  destruct (negb (sizeZ before =? _)); [done|].
  destruct (match exp with Some _ => _ | None => _ end) eqn:Hexp in Hw; [done|].
  destruct (gated_write space a data b1) as [[written|] b2] eqn:Hgw; [|done].
  apply gated_write_closed in Hgw; [|done..|congruence].
  destruct (negb (written =? _)); [done|].
  rewrite ReadMemory_process in Hw by done.
  destruct (ReadProcessVirtual _ _ _ b2) as [[rb|] b3] eqn:Hr2; [|done].
  destruct (_ || _) eqn:Hrb in Hw; [done|]. simplify_eq.
  pose proof (process_read_gate _ _ _ _ _ _ Hr2) as Hg2. boolify.
  match goal with E : bytes_eqb data rb = true |- _ => apply bytes_eqb_eq in E as <- end.
  apply process_read_bytes in Hr2; [|done].
  split_and!; simpl; try done; try lia; [|congruence].
  destruct exp as [e|]; [|done]. simpl in *. boolify. symmetry. by apply bytes_eqb_eq.
Qed.

(** A verified write reports success only when the target process's memory now
    holds exactly the requested bytes, the token was armed for that very process,
    memory held the expected bytes beforehand (when the caller gave them), and the
    write gate is closed again. *)
Theorem verified_write_success {B} `{ProcessVirtualSpec B} token space a data exp (b : B) res b' :
  gate b = false → VerifiedWrite token space a data exp b = (Success res, b') →
  kind space = ProcessVirtual ∧ token_valid token = true ∧ token_pid token = pid space ∧
  0 < sizeZ data ≤ kMaxWriteLength ∧ a + sizeZ data ≤ u64_max ∧
  mem_bytes (pmem b' (pid space)) a (sizeZ data) = data ∧
  vw_readback res = data ∧ vw_verified res = true ∧ from_option (eq (vw_before res)) True exp ∧
  gate b' = false.
Proof. apply VerifiedWrite_success. Qed.

(** A verified write of four bytes to the mock process. *)
Definition demo_writer_backend : MockMemoryBackend := (Mock_Open make_MockMemoryBackend).2.
Definition demo_write := VerifiedWrite (make_token 1337) (ProcessSpace 1337 0 "") 0x140000010
  [1; 2; 3; 4] None demo_writer_backend.

Lemma verified_write_success_witness :
  ∃ res, demo_write.1 = Success res ∧
    mem_bytes (pmem demo_write.2 1337) 0x140000010 4 = [1; 2; 3; 4].
Proof.
  eexists. split; [vm_compute; reflexivity|].
  refine (proj1 (proj2 (proj2 (proj2 (proj2 (proj2 (verified_write_success (make_token 1337)
    (ProcessSpace 1337 0 "") 0x140000010 [1; 2; 3; 4] None demo_writer_backend _ demo_write.2
    _ _))))))).
  - reflexivity.
  - rewrite (surjective_pairing (VerifiedWrite _ _ _ _ _ _)). f_equal.
Defined.

Lemma VerifiedWrite_closed {B} `{ProcessVirtualSpec B} token space a data exp (b : B) r b' :
  gate b = false → VerifiedWrite token space a data exp b = (r, b') →
  gate b' = false ∧
  (kind space ≠ ProcessVirtual ∨ (Consume (pid space) token).1 = false → Ok r = false ∧ b' = b).
Proof.
  intros Hg Hw. unfold VerifiedWrite in Hw.
  case_bool_decide as Hk; cbn [negb] in Hw; cbv iota in Hw; [|simplify_eq; split; [done|]; by intros _].
  destruct (Z.eqb_spec (pid space) 0) as [|Hp]; [simplify_eq; split; [done|]; by intros _|].
  destruct (Consume _ _).1 eqn:Hc; cbn [negb] in Hw; cbv iota in Hw; [|simplify_eq; split; [done|]; by intros _].
  split; [|by intros []].
  destruct (_ || _) in Hw; [by simplify_eq|].
  destruct (_ <? a) in Hw; [by simplify_eq|].
  destruct (match exp with Some _ => _ | None => _ end) in Hw; [by simplify_eq|].
  rewrite ReadMemory_process in Hw by done.
  destruct (ReadProcessVirtual _ _ _ b) as [r1 b1] eqn:Hr1. apply process_read_gate in Hr1.
  assert (gate b1 = false) as Hg1 by congruence.
  destruct r1 as [before|]; [|by simplify_eq].
  destruct (negb (sizeZ before =? _)); [by simplify_eq|].
  destruct (match exp with Some _ => _ | None => _ end) in Hw; [by simplify_eq|].
  destruct (gated_write space a data b1) as [r2 b2] eqn:Hgw.
  apply gated_write_closed in Hgw; [|done..].
  destruct r2 as [written|]; [|by simplify_eq].
  destruct (negb (written =? _)); [by simplify_eq|].
  rewrite ReadMemory_process in Hw by done.
  destruct (ReadProcessVirtual _ _ _ b2) as [r3 b3] eqn:Hr3. apply process_read_gate in Hr3.
  destruct r3; [case_match|]; simplify_eq; congruence.
Qed.

(** The generic writer fails closed: if the gate was closed before the call it
    is closed after it on every path, and a call that is not for process memory or
    not armed for that process never reaches the backend. *)
Theorem verified_write_fail_closed {B} `{ProcessVirtualSpec B} token space a data exp (b : B) r b' :
  gate b = false → VerifiedWrite token space a data exp b = (r, b') →
  gate b' = false ∧
  (kind space ≠ ProcessVirtual ∨ (Consume (pid space) token).1 = false → Ok r = false ∧ b' = b).
Proof. apply VerifiedWrite_closed. Qed.

Lemma verified_write_fail_closed_witness : gate demo_write.2 = false.
Proof.
  refine (proj1 (verified_write_fail_closed (make_token 1337) (ProcessSpace 1337 0 "")
    0x140000010 [1; 2; 3; 4] None demo_writer_backend demo_write.1 demo_write.2 _ _)).
  - reflexivity.
  - apply (surjective_pairing demo_write).
Defined.
