(* ===== verification/ProcessMemory.v ===== *)
(** [core/process/IProcessMemory.h] and [core/process/MockProcessMemory]: access to
    the memory of an attached process, with the one-shot write arm, and the
    promises its clients rely on. *)

From S2P Require Import Prelude Common.

(** ** Data *)

Record ProcessModule := mkProcessModule {
  mod_base : Z; mod_size : Z; mod_name : string; mod_path : string }.

Definition ModuleContains (m : ProcessModule) (address : Z) : bool :=
  negb (mod_size m =? 0) && (mod_base m <=? address) && (address - mod_base m <? mod_size m).

Record MemoryRegion := mkMemoryRegion {
  region_base : Z;
  region_size : Z;
  region_state : Z;
  region_protection : Z;
  region_type : Z;
  region_committed : bool;
  region_readable : bool;
  region_writable : bool;
  region_executable : bool;
  region_guard : bool;
  region_copy_on_write : bool;
  region_mapped_name : string
}.

Definition RegionContains (r : MemoryRegion) (address length : Z) : bool :=
  if (region_size r =? 0) || (length =? 0) || (address <? region_base r) then false
  else
    let offset := address - region_base r in
    (offset <? region_size r) && (length <=? region_size r - offset).

(** ** The interface *)

Class IProcessMemory (P : Type) := {
  ProcessId : P → Z;
  ProcessIdentityToken : P → Z;
  PointerSize : P → Z;
  IsOpen : P → bool;
  WritesArmed : P → bool;
  SetWritesArmed : bool → P → Result unit * P;
  Read : Z → Z → P → Result (list Z) * P;
  Write : Z → list Z → P → Result Z * P;
  Regions : P → Result (list MemoryRegion) * P;
  Modules : P → Result (list ProcessModule) * P
}.

(** ** What an implementation promises

    [vmem] is the process's memory.  Arming moves only the arm, and only when it
    succeeds; one attempted write consumes the arm whatever happens, and an unarmed
    write is refused without touching memory; whole reads return what memory holds. *)

Class ProcessMemorySpec (P : Type) `{IProcessMemory P} := {
  vmem : P → Z → Z;
  arm_frame e p r p' : SetWritesArmed e p = (r, p') → ∀ x, vmem p' x = vmem p x;
  arm_success e p p' : SetWritesArmed e p = (Success tt, p') → WritesArmed p' = e;
  arm_failure e p er p' : SetWritesArmed e p = (Failure er, p') → WritesArmed p' = WritesArmed p;
  read_arm a n p r p' : Read a n p = (r, p') → WritesArmed p' = WritesArmed p;
  read_bytes a n p bytes p' :
    Read a n p = (Success bytes, p') → sizeZ bytes = n → mem_bytes (vmem p') a n = bytes;
  write_disarms a data p r p' : Write a data p = (r, p') → WritesArmed p' = false;
  write_unarmed a data p r p' :
    Write a data p = (r, p') → WritesArmed p = false →
    Ok r = false ∧ ∀ x, vmem p' x = vmem p x
}.

(** ** core/process/MockProcessMemory.cpp *)

Record MockProcessMemory := mkMockProcessMemory {
  base_ : Z;
  pointer_size_ : Z;
  bytes_ : list Z;
  regions_ : list MemoryRegion;
  modules_ : list ProcessModule;
  writes_armed_ : bool
}.

#[export] Instance MockProcessMemory_eta : Eta MockProcessMemory := fun m =>
  mkMockProcessMemory (base_ m) (pointer_size_ m) (bytes_ m) (regions_ m) (modules_ m)
    (writes_armed_ m).

Definition make_MockProcessMemory (base size pointer_size : Z) : MockProcessMemory :=
  mkMockProcessMemory base pointer_size (replicate (Z.to_nat size) 0)
    [mkMemoryRegion base size 0 0 0 true true true false false false "mock"] [] false.

Definition MockProcess_SetWritesArmed (armed : bool) (m : MockProcessMemory)
    : Result unit * MockProcessMemory :=
  (Success tt, m <| writes_armed_ := armed |>).

Definition MockProcess_Read (address length : Z) (m : MockProcessMemory)
    : Result (list Z) * MockProcessMemory :=
  if (length =? 0) || (address <? base_ m) then
    (Failure (MakeError InvalidArgument "Mock process read is outside the address range"
       "MockProcessMemory::Read"), m)
  else
    let offset := address - base_ m in
    if (sizeZ (bytes_ m) <? offset) || (sizeZ (bytes_ m) - offset <? length) then
      (Failure (MakeError ShortRead "Mock process read crosses the address range"
         "MockProcessMemory::Read"), m)
    else (Success (slice (bytes_ m) offset length), m).

Definition MockProcess_Write (address : Z) (data : list Z) (m : MockProcessMemory)
    : Result Z * MockProcessMemory :=
  if negb (writes_armed_ m) then
    (Failure (MakeError WriteLocked "Mock process writes are not armed"
       "MockProcessMemory::Write"), m)
  else
    let m := m <| writes_armed_ := false |> in
    if (sizeZ data =? 0) || (address <? base_ m) then
      (Failure (MakeError InvalidArgument "Invalid mock process write"
         "MockProcessMemory::Write"), m)
    else
      let offset := address - base_ m in
      if (sizeZ (bytes_ m) <? offset) || (sizeZ (bytes_ m) - offset <? sizeZ data) then
        (Failure (MakeError ShortWrite "Mock process write crosses the address range"
           "MockProcessMemory::Write"), m)
      else (Success (u32 (sizeZ data)), m <| bytes_ := patch (bytes_ m) offset data |>).

Definition MockProcess_AddRegion (region : MemoryRegion) (m : MockProcessMemory)
    : MockProcessMemory := m <| regions_ := regions_ m ++ [region] |>.
Definition MockProcess_SetModules (modules : list ProcessModule) (m : MockProcessMemory)
    : MockProcessMemory := m <| modules_ := modules |>.

#[export] Instance MockProcessMemory_IProcessMemory : IProcessMemory MockProcessMemory := {
  ProcessId _ := 1337;
  ProcessIdentityToken _ := 0;
  PointerSize := pointer_size_;
  IsOpen _ := true;
  WritesArmed := writes_armed_;
  SetWritesArmed := MockProcess_SetWritesArmed;
  Read := MockProcess_Read;
  Write := MockProcess_Write;
  Regions m := (Success (regions_ m), m);
  Modules m := (Success (modules_ m), m)
}.

(** ** The promises hold *)

Definition mock_vmem (m : MockProcessMemory) : Z → Z := λ x, byte_at (bytes_ m) (x - base_ m).

#[export] Instance MockProcessMemory_Spec : ProcessMemorySpec MockProcessMemory.
Proof.
  refine {| vmem := mock_vmem |}; simpl.
  - unfold MockProcess_SetWritesArmed. intros. by simplify_eq.
  - unfold MockProcess_SetWritesArmed. intros. by simplify_eq.
  - unfold MockProcess_SetWritesArmed. intros. by simplify_eq.
  - unfold MockProcess_Read. intros. by repeat case_match; simplify_eq.
  - unfold MockProcess_Read. intros a n p bytes p' Hr Hn.
    repeat (case_match; [by simplify_eq|]). injection Hr as <- <-. boolify.
    pose proof (sizeZ_nonneg (slice (bytes_ p) (a - base_ p) n)).
    apply mem_bytes_lookup_eq; [lia|done|]. intros i Hi. unfold mock_vmem.
    rewrite byte_at_slice by lia. f_equal. lia.
  - unfold MockProcess_Write. intros. repeat case_match; simplify_eq; try done. by boolify.
  - unfold MockProcess_Write. intros * Hw Ha. rewrite Ha in Hw. simpl in Hw. by simplify_eq.
Defined.

(** Inside its range, the mock reads what it holds. *)
Lemma MockProcess_Read_exact a n m :
  0 < n → base_ m ≤ a → a + n ≤ base_ m + sizeZ (bytes_ m) →
  MockProcess_Read a n m = (Success (mem_bytes (mock_vmem m) a n), m).
Proof.
  intros Hn Ha Hr. unfold MockProcess_Read.
  rewrite (proj2 (Z.eqb_neq _ _)), !(proj2 (Z.ltb_ge _ _)) by lia. simpl. do 2 f_equal.
  symmetry. apply mem_bytes_lookup_eq; [lia|rewrite sizeZ_slice; lia|].
  intros i Hi. unfold mock_vmem. rewrite byte_at_slice by lia. f_equal. lia.
Qed.

(** ** A process that records the writes it gets *)

Record WriteLogged (P : Type) := mkWriteLogged { wl_inner : P; wl_log : list (Z * list Z) }.
Arguments mkWriteLogged {P} _ _.
Arguments wl_inner {P} _.
Arguments wl_log {P} _.

Definition unlogged {P T} (f : P → T * P) (w : WriteLogged P) : T * WriteLogged P :=
  let '(r, p) := f (wl_inner w) in (r, mkWriteLogged p (wl_log w)).

#[export] Instance WriteLogged_IProcessMemory `{IProcessMemory P}
    : IProcessMemory (WriteLogged P) := {
  ProcessId w := ProcessId (wl_inner w);
  ProcessIdentityToken w := ProcessIdentityToken (wl_inner w);
  PointerSize w := PointerSize (wl_inner w);
  IsOpen w := IsOpen (wl_inner w);
  WritesArmed w := WritesArmed (wl_inner w);
  SetWritesArmed armed := unlogged (SetWritesArmed armed);
  Read a n := unlogged (Read a n);
  Write a data w :=
    let '(r, p) := Write a data (wl_inner w) in
    (r, mkWriteLogged p (wl_log w ++ [(a, data)]));
  Regions := unlogged Regions;
  Modules := unlogged Modules
}.

Section Logged.
Context {P : Type} `{IProcessMemory P}.

Lemma arm_log e (w : WriteLogged P) : wl_log (SetWritesArmed e w).2 = wl_log w.
Proof. simpl. unfold unlogged. by destruct (SetWritesArmed e (wl_inner w)). Qed.
Lemma plain_read_log a n (w : WriteLogged P) : wl_log (Read a n w).2 = wl_log w.
Proof. simpl. unfold unlogged. by destruct (Read a n (wl_inner w)). Qed.
Lemma write_log a data (w : WriteLogged P) : wl_log (Write a data w).2 = wl_log w ++ [(a, data)].
Proof. simpl. by destruct (Write a data (wl_inner w)). Qed.
End Logged.
