(* ===== verification/ProcessSession.v ===== *)
(** [core/memory/ProcessMemorySession]: a view of an attached process's memory being
    edited.  Unlike the physical session it writes the dirty runs one by one, each
    under its own one-shot arm, and keeps enough to roll back a partial write. *)

From S2P Require Import Prelude Common EditBuffer ProcessMemory.

(** ** State *)

Inductive ProcessMemorySessionState :=
  | PM_Empty | PM_Clean | PM_Dirty | PM_Conflict | PM_VerificationFailed | PM_Error.

#[export] Instance ProcessMemorySessionState_eq_dec : EqDecision ProcessMemorySessionState.
Proof. solve_decision. Defined.

Definition kMaximumViewSize : Z := 1024 * 1024.

Record ProcessMemorySession := mkProcessMemorySession {
  pid_ : Z;
  address_ : Z;
  baseline_ : list Z;
  working_ : list Z;
  dirty_ : list bool;
  dirty_count_ : Z;
  rollback_ : option (list Z);
  rollback_expected_ : option (list Z);
  rollback_allows_partial_ : bool;
  conflicts_ : list Z;
  mismatches_ : list Z;
  undo_stack_ : list ByteEdit;
  redo_stack_ : list ByteEdit;
  state_ : ProcessMemorySessionState
}.

#[export] Instance ProcessMemorySession_eta : Eta ProcessMemorySession := fun s =>
  mkProcessMemorySession (pid_ s) (address_ s) (baseline_ s) (working_ s) (dirty_ s)
    (dirty_count_ s) (rollback_ s) (rollback_expected_ s) (rollback_allows_partial_ s)
    (conflicts_ s) (mismatches_ s) (undo_stack_ s) (redo_stack_ s) (state_ s).

Definition make_ProcessMemorySession : ProcessMemorySession :=
  mkProcessMemorySession 0 0 [] [] [] 0 None None false [] [] [] [] PM_Empty.

(** [Reset] assigns every member its initial value. *)
Definition Reset (_ : ProcessMemorySession) : ProcessMemorySession := make_ProcessMemorySession.

Definition HasBuffer (s : ProcessMemorySession) : bool :=
  negb (address_ s =? 0) && negb (bool_decide (working_ s = [])).
Definition IsDirty (s : ProcessMemorySession) : bool := negb (dirty_count_ s =? 0).
Definition CanRollback (s : ProcessMemorySession) : bool := bool_decide (is_Some (rollback_ s)).

Definition psession_error (c : ErrorCode) (msg op : string) : Result unit :=
  Failure (MakeError c msg op).

(** ** Editing *)

Definition ApplyLocalEdit (offset value : Z) (record_history : bool) (s : ProcessMemorySession)
    : Result unit * ProcessMemorySession :=
  if negb (HasBuffer s) || (sizeZ (working_ s) <=? offset) then
    (psession_error InvalidArgument "Process memory edit offset is outside the loaded view"
       "ProcessMemorySession::ApplyLocalEdit", s)
  else
    let previous := byte_at (working_ s) offset in
    if previous =? value then (Success tt, s)
    else
      let s :=
        if record_history then
          s <| undo_stack_ := push_history (undo_stack_ s) (mkByteEdit offset previous value) |>
            <| redo_stack_ := [] |>
        else s in
      let was_dirty := nth (Z.to_nat offset) (dirty_ s) false in
      let s := s <| working_ := store_at (working_ s) offset value |> in
      let is_dirty := negb (byte_at (working_ s) offset =? byte_at (baseline_ s) offset) in
      let s := s <| dirty_ := store_at (dirty_ s) offset is_dirty |> in
      let s :=
        if negb (eqb was_dirty is_dirty) then
          s <| dirty_count_ :=
            u64 (if is_dirty then dirty_count_ s + 1 else dirty_count_ s - 1) |>
        else s in
      (Success tt, s <| state_ := if IsDirty s then PM_Dirty else PM_Clean |>).

Definition EditByte (offset value : Z) (s : ProcessMemorySession)
    : Result unit * ProcessMemorySession :=
  ApplyLocalEdit offset value true s.

Definition RevertByte (offset : Z) (s : ProcessMemorySession)
    : Result unit * ProcessMemorySession :=
  if negb (HasBuffer s) || (sizeZ (working_ s) <=? offset) then
    (psession_error InvalidArgument "Process memory revert offset is outside the loaded view"
       "ProcessMemorySession::RevertByte", s)
  else ApplyLocalEdit offset (byte_at (baseline_ s) offset) true s.

Definition Undo (s : ProcessMemorySession) : Result unit * ProcessMemorySession :=
  match last (undo_stack_ s) with
  | None =>
      (psession_error InvalidArgument "No process-memory edit is available to undo"
         "ProcessMemorySession::Undo", s)
  | Some edit =>
      let s := s <| redo_stack_ := redo_stack_ s ++ [edit] |> in
      match ApplyLocalEdit (edit_offset edit) (edit_before edit) false s with
      | (Failure e, s) => (Failure e, s <| redo_stack_ := pop_back (redo_stack_ s) |>)
      | (Success _, s) => (Success tt, s <| undo_stack_ := pop_back (undo_stack_ s) |>)
      end
  end.

Definition Redo (s : ProcessMemorySession) : Result unit * ProcessMemorySession :=
  match last (redo_stack_ s) with
  | None =>
      (psession_error InvalidArgument "No process-memory edit is available to redo"
         "ProcessMemorySession::Redo", s)
  | Some edit =>
      let s := s <| undo_stack_ := undo_stack_ s ++ [edit] |> in
      match ApplyLocalEdit (edit_offset edit) (edit_after edit) false s with
      | (Failure e, s) => (Failure e, s <| undo_stack_ := pop_back (undo_stack_ s) |>)
      | (Success _, s) => (Success tt, s <| redo_stack_ := pop_back (redo_stack_ s) |>)
      end
  end.

(** [std::fill(dirty_.begin(), dirty_.end(), false)]. *)
Definition all_clean (dirty : list bool) : list bool := replicate (length dirty) false.

Definition RevertAll (s : ProcessMemorySession) : ProcessMemorySession :=
  if negb (HasBuffer s) then s
  else
    s <| working_ := baseline_ s |> <| dirty_ := all_clean (dirty_ s) |> <| dirty_count_ := 0 |>
      <| conflicts_ := [] |> <| mismatches_ := [] |>
      <| undo_stack_ := [] |> <| redo_stack_ := [] |> <| state_ := PM_Clean |>.

(** ** Views *)

Fixpoint byte_diffs_from (max_count index : Z) (dirty : list bool) (baseline working : list Z)
    : list ByteDiff :=
  match dirty with
  | [] => []
  | d :: dirty =>
      if negb d then byte_diffs_from max_count (index + 1) dirty baseline working
      else
        mkByteDiff index (byte_at baseline index) (byte_at working index) ::
        (if max_count - 1 =? 0 then []
         else byte_diffs_from (max_count - 1) (index + 1) dirty baseline working)
  end.
Definition ByteDiffs (max_count : Z) (s : ProcessMemorySession) : list ByteDiff :=
  if max_count =? 0 then []
  else byte_diffs_from max_count 0 (dirty_ s) (baseline_ s) (working_ s).

Definition DiffRuns (s : ProcessMemorySession) : list DiffRun :=
  diff_runs_from (sizeZ (dirty_ s)) (S (length (dirty_ s))) (dirty_ s) (baseline_ s)
    (working_ s) 0.

Definition RecomputeDirty (s : ProcessMemorySession) : ProcessMemorySession :=
  if negb (sizeZ (baseline_ s) =? sizeZ (working_ s)) then s
  else
    let d := diff_bitmap (baseline_ s) (working_ s) in
    s <| dirty_ := d |> <| dirty_count_ := count d |>.

(** ** Backend operations *)

Section Process.
Context {P : Type} `{IProcessMemory P}.

(** [ProcessWriteArmGuard]: [armed_] is the guard's member. *)
Definition guard_Disarm (armed : bool) (p : P) : Result unit * bool * P :=
  if negb armed then (Success tt, armed, p)
  else
    match SetWritesArmed false p with
    | (Success _, p) => (Success tt, false, p)
    | (Failure e, p) => (Failure e, armed, p)
    end.
Definition guard_destroy (armed : bool) (p : P) : P :=
  if armed then (SetWritesArmed false p).2 else p.

(** The [finish] lambda, followed by the guard's destructor. *)
Definition finish (outcome : Result unit) (armed : bool) (s : ProcessMemorySession) (p : P)
    : Result unit * ProcessMemorySession * P :=
  match guard_Disarm armed p with
  | (Failure e, armed, p) => (Failure e, s <| state_ := PM_Error |>, guard_destroy armed p)
  | (Success _, armed, p) => (outcome, s, guard_destroy armed p)
  end.

Definition Load (address length : Z) (s : ProcessMemorySession) (p : P)
    : Result unit * ProcessMemorySession * P :=
  let op := "ProcessMemorySession::Load" in
  let s := (Reset s) <| state_ := PM_Error |> in
  if negb (IsOpen p) then
    (psession_error BackendDisconnected "Target process is not attached" op, s, p)
  else if ProcessId p =? 0 then
    (psession_error InvalidArgument "Target process has no valid PID" op, s, p)
  else if (address =? 0) || (length =? 0) || (kMaximumViewSize <? length) ||
          (u64_max - (length - 1) <? address) then
    (psession_error InvalidArgument "Process memory view address or length is invalid" op, s, p)
  else
    match Read address length p with
    | (Failure e, p) => (Failure e, s, p)
    | (Success bytes, p) =>
        if negb (sizeZ bytes =? length) then
          (Failure (MakeErrorFull ShortRead
             "Process memory view returned fewer bytes than requested" op 0 length
             (sizeZ bytes)), s, p)
        else
          (Success tt,
           s <| pid_ := ProcessId p |> <| address_ := address |>
             <| baseline_ := bytes |> <| working_ := bytes |>
             <| dirty_ := replicate (Z.to_nat (sizeZ bytes)) false |> <| dirty_count_ := 0 |>
             <| rollback_ := None |> <| rollback_expected_ := None |>
             <| rollback_allows_partial_ := false |>
             <| conflicts_ := [] |> <| mismatches_ := [] |>
             <| undo_stack_ := [] |> <| redo_stack_ := [] |> <| state_ := PM_Clean |>, p)
    end.

Definition ReadExact (s : ProcessMemorySession) (p : P) : Result (list Z) * P :=
  if negb (HasBuffer s) || (u32_max <? sizeZ (working_ s)) then
    (Failure (MakeError InternalInvariant "Process memory session is not loaded"
       "ProcessMemorySession::ReadExact"), p)
  else
    match Read (address_ s) (sizeZ (working_ s)) p with
    | (Failure e, p) => (Failure e, p)
    | (Success bytes, p) =>
        if negb (sizeZ bytes =? sizeZ (working_ s)) then
          (Failure (MakeErrorFull ShortRead
             "Process memory read returned fewer bytes than requested"
             "ProcessMemorySession::ReadExact" 0 (sizeZ (working_ s)) (sizeZ bytes)), p)
        else (Success bytes, p)
    end.

Definition ValidateTarget (s : ProcessMemorySession) (p : P) : Result unit :=
  let op := "ProcessMemorySession::ValidateTarget" in
  if negb (HasBuffer s) || (pid_ s =? 0) then
    psession_error InternalInvariant "Process memory session is not bound to a target PID" op
  else if negb (IsOpen p) then
    psession_error BackendDisconnected "Target process is no longer attached" op
  else if negb (ProcessId p =? pid_ s) then
    Failure (MakeErrorFull InvalidArgument
      "Process memory session was applied to a different PID" op 0 (pid_ s) (ProcessId p))
  else Success tt.

(** One armed write: arm, write, disarm, in that order whatever the write does. *)
Definition armed_write (address : Z) (data : list Z) (short_message op : string) (p : P)
    : Result unit * P :=
  match SetWritesArmed true p with
  | (Failure e, p) => (Failure e, p)
  | (Success _, p) =>
      let '(written, p) := Write address data p in
      match SetWritesArmed false p with
      | (Failure e, p) => (Failure e, p)
      | (Success _, p) =>
          match written with
          | Failure e => (Failure e, p)
          | Success n =>
              if negb (n =? sizeZ data) then
                (Failure (MakeErrorFull ShortWrite short_message op 0 (sizeZ data) n), p)
              else (Success tt, p)
          end
      end
  end.

(** The loop over [DiffRuns()]. *)
Fixpoint write_runs (address : Z) (runs : list DiffRun) (p : P) : Result unit * P :=
  match runs with
  | [] => (Success tt, p)
  | run :: runs =>
      match armed_write (u64 (address + dr_offset run)) (dr_after run)
              "Process memory write returned a short byte count"
              "ProcessMemorySession::ApplyAndVerify" p with
      | (Failure e, p) => (Failure e, p)
      | (Success _, p) => write_runs address runs p
      end
  end.

(** The member updates of a successful apply. *)
Definition apply_commit (s : ProcessMemorySession) : ProcessMemorySession :=
  s <| baseline_ := working_ s |> <| dirty_ := all_clean (dirty_ s) |> <| dirty_count_ := 0 |>
    <| conflicts_ := [] |> <| mismatches_ := [] |> <| undo_stack_ := [] |>
    <| redo_stack_ := [] |> <| rollback_allows_partial_ := false |> <| state_ := PM_Clean |>.

(** The rollback material is recorded before the first byte is written. *)
Definition apply_arm (s : ProcessMemorySession) : ProcessMemorySession :=
  s <| rollback_ := Some (baseline_ s) |> <| rollback_expected_ := Some (working_ s) |>
    <| rollback_allows_partial_ := true |>.

Definition ApplyAndVerify (s : ProcessMemorySession) (p : P)
    : Result unit * ProcessMemorySession * P :=
  let op := "ProcessMemorySession::ApplyAndVerify" in
  let writes_armed := WritesArmed p in
  if negb (HasBuffer s) || negb (IsDirty s) then
    finish (psession_error InvalidArgument "No process memory edits are pending" op)
      writes_armed s p
  else if negb writes_armed then
    finish (psession_error WriteLocked "Arm process writes before applying the memory view" op)
      writes_armed s p
  else
  match ValidateTarget s p with
  | Failure e => finish (Failure e) writes_armed s p
  | Success _ =>
  match ReadExact s p with
  | (Failure e, p) => finish (Failure e) writes_armed (s <| state_ := PM_Error |>) p
  | (Success live, p) =>
  let s := s <| conflicts_ := mismatch_offsets live (baseline_ s) |> <| mismatches_ := [] |> in
  if negb (bool_decide (conflicts_ s = [])) then
    finish (Failure (MakeErrorFull ConcurrentModification
        "Process memory changed after the view was loaded" op
        0 (sizeZ (baseline_ s)) (sizeZ (conflicts_ s))))
      writes_armed (s <| state_ := PM_Conflict |>) p
  else
  let s := apply_arm s in
  let runs := DiffRuns s in
  if bool_decide (length runs = 0%nat) then
    finish (psession_error InternalInvariant "Dirty process-memory view has no dirty byte" op)
      writes_armed (s <| state_ := PM_Error |>) p
  else
  match write_runs (address_ s) runs p with
  | (Failure e, p) => finish (Failure e) writes_armed (s <| state_ := PM_Error |>) p
  | (Success _, p) =>
  match guard_Disarm writes_armed p with
  | (Failure e, armed, p) => (Failure e, s <| state_ := PM_Error |>, guard_destroy armed p)
  | (Success _, armed, p) =>
  match ReadExact s p with
  | (Failure e, p) =>
      (Failure e, s <| state_ := PM_VerificationFailed |>, guard_destroy armed p)
  | (Success rb, p) =>
  let s := s <| mismatches_ := mismatch_offsets rb (working_ s) |> in
  if negb (bool_decide (mismatches_ s = [])) then
    (Failure (MakeErrorFull VerificationMismatch
       "Process memory read-back differs from the staged view" op
       0 (sizeZ (working_ s)) (sizeZ (working_ s) - sizeZ (mismatches_ s))),
     s <| state_ := PM_VerificationFailed |>, guard_destroy armed p)
  else (Success tt, apply_commit s, guard_destroy armed p)
  end end end end end.

(** The offsets where live memory is neither what the last verified transaction
    left nor, while a partial write is possible, one of its two versions. *)
Definition rollback_conflicts (partial : bool) (rollback : list Z) (expected : option (list Z))
    (live baseline : list Z) : list Z :=
  filter (λ index, negb (
    match partial, expected with
    | true, Some e =>
        (byte_at live index =? byte_at rollback index) || (byte_at live index =? byte_at e index)
    | _, _ => byte_at live index =? byte_at baseline index
    end) = true) (seqZ 0 (sizeZ baseline)).

Definition rollback_scan (rollback live : list Z) (s : ProcessMemorySession)
    : ProcessMemorySession :=
  s <| conflicts_ := conflicts_ s ++ rollback_conflicts (rollback_allows_partial_ s)
         rollback (rollback_expected_ s) live (baseline_ s) |>.

(** Before writing, bind a later retry to what was seen. *)
Definition rollback_arm (live : list Z) (s : ProcessMemorySession) : ProcessMemorySession :=
  s <| rollback_expected_ := Some live |> <| rollback_allows_partial_ := true |>.

Definition rollback_commit (rollback : list Z) (s : ProcessMemorySession) : ProcessMemorySession :=
  s <| baseline_ := rollback |> <| working_ := rollback |> <| dirty_ := all_clean (dirty_ s) |>
    <| dirty_count_ := 0 |> <| rollback_ := None |> <| rollback_expected_ := None |>
    <| rollback_allows_partial_ := false |> <| conflicts_ := [] |> <| mismatches_ := [] |>
    <| undo_stack_ := [] |> <| redo_stack_ := [] |> <| state_ := PM_Clean |>.

Definition Rollback (s : ProcessMemorySession) (p : P)
    : Result unit * ProcessMemorySession * P :=
  let op := "ProcessMemorySession::Rollback" in
  let writes_armed := WritesArmed p in
  match rollback_ s with
  | None =>
      finish (psession_error InvalidArgument "No process memory rollback snapshot is available" op)
        writes_armed s p
  | Some rollback =>
  if negb writes_armed then
    finish (psession_error WriteLocked "Arm process writes before rollback" op) writes_armed s p
  else
  match ValidateTarget s p with
  | Failure e => finish (Failure e) writes_armed s p
  | Success _ =>
  let s := s <| conflicts_ := [] |> <| mismatches_ := [] |> in
  match ReadExact s p with
  | (Failure e, p) => finish (Failure e) writes_armed (s <| state_ := PM_Error |>) p
  | (Success live, p) =>
  if negb (sizeZ rollback =? sizeZ (baseline_ s)) ||
     match rollback_expected_ s with
     | Some e => negb (sizeZ e =? sizeZ (baseline_ s))
     | None => false
     end then
    finish (psession_error InternalInvariant "Process rollback evidence has an invalid size" op)
      writes_armed (s <| state_ := PM_Error |>) p
  else
  let s := rollback_scan rollback live s in
  if negb (bool_decide (conflicts_ s = [])) then
    finish (Failure (MakeErrorFull ConcurrentModification
        "Process memory changed before rollback" op 0 (sizeZ (baseline_ s))
        (sizeZ (conflicts_ s))))
      writes_armed (s <| state_ := PM_Conflict |>) p
  else
  let s := rollback_arm live s in
  match armed_write (address_ s) rollback
          "Process memory rollback returned a short byte count" op p with
  | (Failure e, p) => finish (Failure e) writes_armed (s <| state_ := PM_Error |>) p
  | (Success _, p) =>
  match guard_Disarm writes_armed p with
  | (Failure e, armed, p) => (Failure e, s <| state_ := PM_Error |>, guard_destroy armed p)
  | (Success _, armed, p) =>
  match ReadExact s p with
  | (Failure e, p) =>
      (Failure e, s <| state_ := PM_VerificationFailed |>, guard_destroy armed p)
  | (Success rb, p) =>
  let s := s <| mismatches_ := mismatches_ s ++ mismatch_offsets rb rollback |> in
  if negb (bool_decide (mismatches_ s = [])) then
    (Failure (MakeErrorFull RollbackFailed "Process memory rollback read-back failed" op
       0 (sizeZ rollback) (sizeZ rollback - sizeZ (mismatches_ s))),
     s <| state_ := PM_VerificationFailed |>, guard_destroy armed p)
  else (Success tt, rollback_commit rollback s, guard_destroy armed p)
  end end end end end end.
End Process.
