(* ===== verification/ProcessSessionTheorems.v ===== *)
(** The theorems about [ProcessMemorySession]: the invariant over all call
    sequences, verified apply and rollback, and the writes it makes. *)

From stdpp Require Import relations.
From S2P Require Import Prelude Common EditBuffer ProcessMemory ProcessSession.

(** ** The invariant *)

Definition opt_size (n : Z) (p : option (list Z)) : Prop :=
  match p with None => True | Some p => sizeZ p = n end.

Record psession_wf (s : ProcessMemorySession) : Prop := {
  pwf_size : sizeZ (baseline_ s) = sizeZ (working_ s);
  pwf_view : sizeZ (working_ s) ≤ kMaximumViewSize;
  pwf_address : 0 ≤ address_ s ∧ address_ s + sizeZ (working_ s) ≤ u64_max + 1;
  pwf_dirty : dirty_ s = diff_bitmap (baseline_ s) (working_ s);
  pwf_count : dirty_count_ s = count (dirty_ s);
  pwf_rollback : opt_size (sizeZ (working_ s)) (rollback_ s);
  pwf_expected : opt_size (sizeZ (working_ s)) (rollback_expected_ s);
  pwf_expected_rollback : is_Some (rollback_expected_ s) → is_Some (rollback_ s);
  pwf_history_bound : sizeZ (undo_stack_ s) + sizeZ (redo_stack_ s) ≤ kMaxEditHistory;
  pwf_undo : undo_chain (working_ s) (reverse (undo_stack_ s));
  pwf_redo : redo_chain (working_ s) (reverse (redo_stack_ s));
  pwf_clean : state_ s = PM_Clean → working_ s = baseline_ s;
  pwf_dirty_state : state_ s = PM_Dirty → working_ s ≠ baseline_ s;
  pwf_buffer : address_ s = 0 → working_ s = []
}.

Lemma HasBuffer_spec s : psession_wf s → HasBuffer s = true ↔ working_ s ≠ [].
Proof.
  intros Hwf. unfold HasBuffer. rewrite andb_true_iff, !negb_true_iff, Z.eqb_neq.
  rewrite bool_decide_eq_false. pose proof (pwf_buffer s Hwf). naive_solver.
Qed.
Lemma psession_dirty s : psession_wf s → IsDirty s = false ↔ working_ s = baseline_ s.
Proof.
  intros Hwf. unfold IsDirty. rewrite negb_false_iff, Z.eqb_eq, (pwf_count s Hwf), count_zero.
  rewrite (pwf_dirty s Hwf), any_diff_bitmap; [split; congruence|].
  pose proof (pwf_size s Hwf). unfold sizeZ in *. lia.
Qed.
Lemma all_clean_diff (a b : list Z) :
  sizeZ a = sizeZ b → all_clean (diff_bitmap a b) = diff_bitmap a a ∧
  all_clean (diff_bitmap a b) = diff_bitmap b b.
Proof.
  intros Hl. unfold all_clean. rewrite !diff_bitmap_refl, length_diff_bitmap by (unfold sizeZ in *; lia).
  split; [done|]. f_equal. unfold sizeZ in *; lia.
Qed.
Lemma count_diff_refl a : count (diff_bitmap a a) = 0.
Proof. rewrite diff_bitmap_refl. apply count_replicate_false. Qed.
Lemma all_clean_count d : count (all_clean d) = 0.
Proof. apply count_replicate_false. Qed.

Ltac solve_pwf_field :=
  simpl in *; first
  [ assumption | done
  | by intros; simplify_eq/=; intuition (eauto || congruence)
  | by unfold sizeZ, kMaxEditHistory in *; simpl in *; lia
  | congruence ].
Ltac solve_pwf := split; try solve_pwf_field.

Lemma psession_wf_init : psession_wf make_ProcessMemorySession.
Proof. solve_pwf. Qed.

(** ** Editing *)

Definition edited (offset value : Z) (undo redo : list ByteEdit) (s : ProcessMemorySession)
    : ProcessMemorySession :=
  let w := store_at (working_ s) offset value in
  let d := diff_bitmap (baseline_ s) w in
  s <| working_ := w |> <| dirty_ := d |> <| dirty_count_ := count d |>
    <| undo_stack_ := undo |> <| redo_stack_ := redo |>
    <| state_ := if negb (count d =? 0) then PM_Dirty else PM_Clean |>.

Definition pages_wf (s : ProcessMemorySession) : Prop :=
  sizeZ (baseline_ s) = sizeZ (working_ s) ∧ sizeZ (working_ s) ≤ kMaximumViewSize ∧
  dirty_ s = diff_bitmap (baseline_ s) (working_ s) ∧ dirty_count_ s = count (dirty_ s).
Lemma psession_pages_wf s : psession_wf s → pages_wf s.
Proof. intros []. by unfold pages_wf. Qed.
#[export] Hint Resolve psession_pages_wf : kdbg.

Lemma process_ApplyLocalEdit_change offset value rec s :
  pages_wf s → HasBuffer s = true → 0 ≤ offset < sizeZ (working_ s) →
  byte_at (working_ s) offset ≠ value →
  ApplyLocalEdit offset value rec s =
    (Success tt,
     if rec then
       edited offset value
         (push_history (undo_stack_ s) (mkByteEdit offset (byte_at (working_ s) offset) value))
         [] s
     else edited offset value (undo_stack_ s) (redo_stack_ s) s).
Proof.
  intros (Hsz & Hmax & Hd & Hc) Hb Hoff Hne. unfold ApplyLocalEdit. rewrite Hb. simpl.
  destruct (Z.leb_spec (sizeZ (working_ s)) offset); [lia|].
  destruct (Z.eqb_spec (byte_at (working_ s) offset) value); [done|].
  set (d' := diff_bitmap (baseline_ s) (store_at (working_ s) offset value)).
  assert (d' = store_at (dirty_ s) offset (negb (value =? byte_at (baseline_ s) offset))) as Hd'.
  { unfold d'. rewrite diff_bitmap_store_at by lia. rewrite Hd, Z.eqb_sym. done. }
  assert (sizeZ (dirty_ s) = sizeZ (working_ s)) as Hds.
  { rewrite Hd. unfold sizeZ in *. rewrite length_diff_bitmap; lia. }
  pose proof (count_store_at (dirty_ s) offset (negb (value =? byte_at (baseline_ s) offset))
    ltac:(lia)) as Hcount. rewrite <- Hd', <- Hc in Hcount.
  assert (is_u64 (count d')) as Hr.
  { pose proof (count_nonneg d'). pose proof (count_le d'). rewrite Hd' in *.
    rewrite sizeZ_store_at in *. unfold is_u64, kMaximumViewSize in *. lia. }
  set (is_dirty := negb (value =? byte_at (baseline_ s) offset)) in *.
  assert (u64 (count d') = count d') as Hu by by apply u64_id.
  assert ((if negb (eqb (nth (Z.to_nat offset) (dirty_ s) false) is_dirty) then
             u64 (if is_dirty then dirty_count_ s + 1 else dirty_count_ s - 1)
           else dirty_count_ s) = count d') as Hstep.
  { destruct (nth _ _ _), is_dirty; simpl in *; try lia;
      transitivity (u64 (count d')); [f_equal; lia|done|f_equal; lia|done]. }
  unfold edited, IsDirty. fold d'. rewrite <- Hstep, Hd'.
  destruct s; simpl in *; destruct rec; simpl; rewrite byte_at_store_at by lia; fold is_dirty;
    by destruct (negb (eqb _ _)).
Qed.

Lemma process_ApplyLocalEdit_same offset value rec s :
  pages_wf s → HasBuffer s = false ∨ sizeZ (working_ s) ≤ offset ∨ byte_at (working_ s) offset = value →
  ∃ r, ApplyLocalEdit offset value rec s = (r, s).
Proof.
  intros _ Hcase. unfold ApplyLocalEdit. destruct (HasBuffer s); [|eauto]. simpl.
  destruct (Z.leb_spec (sizeZ (working_ s)) offset); [eauto|].
  destruct (Z.eqb_spec (byte_at (working_ s) offset) value); [eauto|].
  destruct Hcase as [|[|]]; [done|lia|done].
Qed.

Lemma process_edited_wf offset value undo redo s :
  psession_wf s →
  sizeZ undo + sizeZ redo ≤ kMaxEditHistory →
  undo_chain (store_at (working_ s) offset value) (reverse undo) →
  redo_chain (store_at (working_ s) offset value) (reverse redo) →
  psession_wf (edited offset value undo redo s).
Proof.
  intros Hwf Hsz Hu Hr. set (w := store_at (working_ s) offset value) in *.
  assert (sizeZ w = sizeZ (working_ s)) as Hw by apply sizeZ_store_at.
  assert (count (diff_bitmap (baseline_ s) w) = 0 ↔ w = baseline_ s) as Hd.
  { rewrite count_zero, any_diff_bitmap; [split; congruence|].
    pose proof (pwf_size s Hwf). unfold sizeZ in *. lia. }
  destruct Hwf. unfold edited. fold w. split; simpl; rewrite ?Hw; try done.
  - destruct (Z.eqb_spec (count (diff_bitmap (baseline_ s) w)) 0); simpl; [tauto|done].
  - destruct (Z.eqb_spec (count (diff_bitmap (baseline_ s) w)) 0); simpl; [done|tauto].
  - intros Ha. apply pwf_buffer0 in Ha. apply sizeZ_nil_inv. rewrite Hw, Ha. done.
Qed.

Lemma in_buffer s offset : psession_wf s → 0 ≤ offset < sizeZ (working_ s) → HasBuffer s = true.
Proof.
  intros Hwf Ho. apply HasBuffer_spec; [done|]. intros E. rewrite E in Ho.
  unfold sizeZ in Ho. simpl in Ho. lia.
Qed.

Lemma process_EditByte_wf offset value s r s' :
  psession_wf s → 0 ≤ offset → EditByte offset value s = (r, s') → psession_wf s'.
Proof.
  intros Hwf Hoff He. unfold EditByte in He.
  destruct (decide (offset < sizeZ (working_ s) ∧ byte_at (working_ s) offset ≠ value))
    as [[Hlt Hne]|Hn].
  - rewrite process_ApplyLocalEdit_change in He by (eauto using psession_pages_wf, in_buffer with lia).
    simplify_eq.
    destruct (push_history_wf (working_ s) offset value (undo_stack_ s)); try done;
      try apply Hwf.
    { pose proof (pwf_history_bound s Hwf). pose proof (sizeZ_nonneg (redo_stack_ s)). lia. }
    apply process_edited_wf; try done. unfold sizeZ in *. simpl. lia.
  - destruct (process_ApplyLocalEdit_same offset value true s) as [r' Hr]; [auto with kdbg| |congruence].
    destruct (Z.le_gt_cases (sizeZ (working_ s)) offset); [tauto|].
    destruct (decide (byte_at (working_ s) offset = value)); tauto.
Qed.
Lemma process_RevertByte_wf offset s r s' :
  psession_wf s → 0 ≤ offset → RevertByte offset s = (r, s') → psession_wf s'.
Proof.
  unfold RevertByte. intros Hwf Hoff Hr. case_match; [by simplify_eq|]. by apply process_EditByte_wf in Hr.
Qed.

Lemma process_Undo_spec s undo e :
  psession_wf s → undo_stack_ s = undo ++ [e] →
  Undo s = (Success tt,
    edited (edit_offset e) (edit_before e) undo (redo_stack_ s ++ [e]) s) ∧
  psession_wf (edited (edit_offset e) (edit_before e) undo (redo_stack_ s ++ [e]) s).
Proof.
  intros Hwf Hu. assert (last (undo_stack_ s) = Some e) as Hl by by rewrite Hu, last_snoc.
  pose proof (pwf_undo s Hwf) as Hch. rewrite Hu, reverse_snoc in Hch.
  destruct (undo_chain_step _ _ _ _ Hch (pwf_redo s Hwf)) as [Hch1 Hch2].
  destruct Hch as (Hoff & Hbyte & Hne & _). pose proof (in_buffer s _ Hwf Hoff) as Hb. split.
  - unfold Undo. rewrite Hl. rewrite process_ApplyLocalEdit_change; [|by apply psession_pages_wf in Hwf|
      done|done|by destruct s; simpl in *; congruence].
    destruct s; simpl in *; subst. by rewrite pop_back_snoc.
  - apply process_edited_wf; rewrite ?reverse_snoc; try done.
    pose proof (pwf_history_bound s Hwf) as Hsz. rewrite Hu, sizeZ_app in Hsz.
    rewrite sizeZ_app. change (sizeZ [e]) with 1 in *. lia.
Qed.
Lemma process_Redo_spec s redo e :
  psession_wf s → redo_stack_ s = redo ++ [e] →
  Redo s = (Success tt,
    edited (edit_offset e) (edit_after e) (undo_stack_ s ++ [e]) redo s) ∧
  psession_wf (edited (edit_offset e) (edit_after e) (undo_stack_ s ++ [e]) redo s).
Proof.
  intros Hwf Hu. assert (last (redo_stack_ s) = Some e) as Hl by by rewrite Hu, last_snoc.
  pose proof (pwf_redo s Hwf) as Hch. rewrite Hu, reverse_snoc in Hch.
  destruct (redo_chain_step _ _ _ _ (pwf_undo s Hwf) Hch) as [Hch1 Hch2].
  destruct Hch as (Hoff & Hbyte & Hne & _). pose proof (in_buffer s _ Hwf Hoff) as Hb. split.
  - unfold Redo. rewrite Hl. rewrite process_ApplyLocalEdit_change; [|by apply psession_pages_wf in Hwf|
      done|done|by destruct s; simpl in *; congruence].
    destruct s; simpl in *; subst. by rewrite pop_back_snoc.
  - apply process_edited_wf; rewrite ?reverse_snoc; try done.
    pose proof (pwf_history_bound s Hwf) as Hsz. rewrite Hu, sizeZ_app in Hsz.
    rewrite sizeZ_app. change (sizeZ [e]) with 1 in *. lia.
Qed.
Lemma process_Undo_wf s r s' : psession_wf s → Undo s = (r, s') → psession_wf s'.
Proof.
  intros Hwf Hu. destruct (last (undo_stack_ s)) as [e|] eqn:Hl.
  - apply last_snoc_inv in Hl. destruct (process_Undo_spec s _ e Hwf Hl) as [Hu' ?].
    rewrite Hu' in Hu. by simplify_eq.
  - unfold Undo in Hu. rewrite Hl in Hu. by simplify_eq.
Qed.
Lemma process_Redo_wf s r s' : psession_wf s → Redo s = (r, s') → psession_wf s'.
Proof.
  intros Hwf Hu. destruct (last (redo_stack_ s)) as [e|] eqn:Hl.
  - apply last_snoc_inv in Hl. destruct (process_Redo_spec s _ e Hwf Hl) as [Hu' ?].
    rewrite Hu' in Hu. by simplify_eq.
  - unfold Redo in Hu. rewrite Hl in Hu. by simplify_eq.
Qed.

(** A session whose two buffers were just made equal. *)
Lemma synced_wf page s s' :
  psession_wf s → sizeZ page = sizeZ (working_ s) →
  working_ s' = page → baseline_ s' = page → address_ s' = address_ s →
  dirty_ s' = all_clean (dirty_ s) → dirty_count_ s' = 0 →
  opt_size (sizeZ page) (rollback_ s') → opt_size (sizeZ page) (rollback_expected_ s') →
  (is_Some (rollback_expected_ s') → is_Some (rollback_ s')) →
  undo_stack_ s' = [] → redo_stack_ s' = [] → state_ s' ≠ PM_Dirty →
  psession_wf s'.
Proof.
  intros Hwf Hsz Hw Hb Ha Hd Hc Hr He Hre Hu Hre' Hst.
  assert (dirty_ s' = diff_bitmap page page) as Hd'.
  { rewrite Hd, (pwf_dirty s Hwf). unfold all_clean. rewrite diff_bitmap_refl.
    pose proof (pwf_size s Hwf). rewrite length_diff_bitmap by (unfold sizeZ in *; lia).
    f_equal. unfold sizeZ in *. lia. }
  pose proof (pwf_view s Hwf). pose proof (pwf_address s Hwf). pose proof (pwf_buffer s Hwf) as Hbuf.
  split; rewrite ?Hw, ?Hb, ?Ha, ?Hu, ?Hre', ?Hc, ?Hsz in *; try done.
  - by rewrite Hd', count_diff_refl.
  - intros Ha'. apply sizeZ_nil_inv. rewrite Hsz, (Hbuf Ha'). done.
Qed.

Lemma process_RevertAll_wf s : psession_wf s → psession_wf (RevertAll s).
Proof.
  intros Hwf. unfold RevertAll. destruct (negb (HasBuffer s)); [done|].
  eapply (synced_wf (baseline_ s) s); try done; try apply Hwf.
  all: rewrite (pwf_size s Hwf); apply Hwf.
Qed.

(** ** Backend operations *)

(** Only the reporting members, and possibly the rollback material, changed. *)
Lemma noted_wf s s' :
  psession_wf s → working_ s' = working_ s → baseline_ s' = baseline_ s →
  address_ s' = address_ s → dirty_ s' = dirty_ s → dirty_count_ s' = dirty_count_ s →
  undo_stack_ s' = undo_stack_ s → redo_stack_ s' = redo_stack_ s →
  opt_size (sizeZ (working_ s)) (rollback_ s') →
  opt_size (sizeZ (working_ s)) (rollback_expected_ s') →
  (is_Some (rollback_expected_ s') → is_Some (rollback_ s')) →
  state_ s' ≠ PM_Clean ∧ state_ s' ≠ PM_Dirty ∨ state_ s' = state_ s →
  psession_wf s'.
Proof.
  intros [] Hw Hb Ha Hd Hc Hu Hr ? ? ? Hst.
  split; rewrite ?Hw, ?Hb, ?Ha, ?Hd, ?Hc, ?Hu, ?Hr; try done.
  - intros E. destruct Hst as [[? _]|Hst]; [done|]. rewrite Hst in E. auto.
  - intros E. destruct Hst as [[_ ?]|Hst]; [done|]. rewrite Hst in E. auto.
Qed.

Lemma report_wf s c m st :
  psession_wf s → st ≠ PM_Clean → st ≠ PM_Dirty →
  psession_wf (s <| conflicts_ := c |> <| mismatches_ := m |> <| state_ := st |>).
Proof. intros Hwf ??. eapply (noted_wf s); try done; try apply Hwf. by left. Qed.
Lemma report_state_wf s st :
  psession_wf s → st ≠ PM_Clean → st ≠ PM_Dirty → psession_wf (s <| state_ := st |>).
Proof. intros Hwf ??. eapply (noted_wf s); try done; try apply Hwf. by left. Qed.
Lemma offsets_wf s c m :
  psession_wf s → psession_wf (s <| conflicts_ := c |> <| mismatches_ := m |>).
Proof. intros Hwf. eapply (noted_wf s); try done; try apply Hwf. by right. Qed.

Section Process.
Context {P : Type} `{IProcessMemory P}.

Lemma ReadExact_size s (p : P) bytes p' :
  ReadExact s p = (Success bytes, p') → sizeZ bytes = sizeZ (working_ s) ∧
  Read (address_ s) (sizeZ (working_ s)) p = (Success bytes, p').
Proof.
  unfold ReadExact. intros Hr. case_match; [done|].
  destruct (Read _ _ p) as [[bs|] p1] eqn:E; [|done]. case_match; [done|]. simplify_eq. boolify.
  done.
Qed.

Lemma ValidateTarget_ok s (p : P) u :
  ValidateTarget s p = Success u → IsOpen p = true ∧ ProcessId p = pid_ s.
Proof.
  unfold ValidateTarget, psession_error. intros Hv. repeat (case_match; [done|]). by boolify.
Qed.

Lemma finish_session outcome armed s (p : P) r s' p' :
  finish outcome armed s p = (r, s', p') → s' = s ∨ s' = s <| state_ := PM_Error |>.
Proof. unfold finish. intros. repeat case_match; simplify_eq; auto. Qed.

Lemma finish_wf outcome armed s (p : P) r s' p' :
  psession_wf s → finish outcome armed s p = (r, s', p') → psession_wf s'.
Proof.
  intros Hwf [->| ->]%finish_session; [done|].
  eapply (noted_wf s); try done; try apply Hwf. by left.
Qed.

Lemma process_Load_wf a n s (p : P) r s' p' :
  0 ≤ a → Load a n s p = (r, s', p') → psession_wf s'.
Proof.
  intros Ha Hl. unfold Load in Hl.
  destruct (negb (IsOpen p)); [simplify_eq; solve_pwf|].
  destruct (ProcessId p =? 0); [simplify_eq; solve_pwf|].
  destruct (_ || _) eqn:Hg; [simplify_eq; solve_pwf|].
  destruct (Read a n p) as [[bytes|e] p1]; [|simplify_eq; solve_pwf].
  destruct (negb (sizeZ bytes =? n)) eqn:Hn; [simplify_eq; solve_pwf|].
  boolify. simplify_eq. split; simpl; try done; try lia.
  - rewrite diff_bitmap_refl. f_equal. unfold sizeZ. lia.
  - by rewrite count_replicate_false.
Qed.

Lemma apply_arm_wf s : psession_wf s → psession_wf (apply_arm s).
Proof.
  intros Hwf. eapply (noted_wf s); try done; try apply Hwf. by right.
Qed.

Lemma process_ApplyAndVerify_wf s (p : P) r s' p' :
  psession_wf s → ApplyAndVerify s p = (r, s', p') → psession_wf s'.
Proof.
  intros Hwf Ha. unfold ApplyAndVerify in Ha.
  destruct (_ || _) in Ha; [by eapply finish_wf in Ha|].
  destruct (negb (WritesArmed p)); [by eapply finish_wf in Ha|].
  destruct (ValidateTarget s p); [|by eapply finish_wf in Ha].
  destruct (ReadExact s p) as [[live|e] p1].
  2:{ eapply finish_wf; [|exact Ha]. by apply report_state_wf. }
  pose proof (offsets_wf s (mismatch_offsets live (baseline_ s)) [] Hwf) as Hwf1.
  set (s1 := s <| conflicts_ := _ |> <| mismatches_ := [] |>) in *.
  destruct (negb _) in Ha; [eapply finish_wf; [|exact Ha]; by apply report_state_wf|].
  pose proof (apply_arm_wf s1 Hwf1) as Hwf2. clearbody s1.
  case_bool_decide; [eapply finish_wf; [|exact Ha]; by apply report_state_wf|].
  destruct (write_runs _ _ p1) as [[?|?] p2];
    [|eapply finish_wf; [|exact Ha]; by apply report_state_wf].
  destruct (guard_Disarm _ p2) as [[[?|?] armed] p3]; [|simplify_eq; by apply report_state_wf].
  destruct (ReadExact _ p3) as [[rb|e] p4]; [|simplify_eq; by apply report_state_wf].
  destruct (negb _) in Ha; simplify_eq.
  - eapply (noted_wf (apply_arm s1)); try done; try apply Hwf2. by left.
  - eapply (synced_wf (working_ (apply_arm s1)) (apply_arm s1)); try done; apply Hwf2.
Qed.

Lemma Rollback_wf s (p : P) r s' p' :
  psession_wf s → Rollback s p = (r, s', p') → psession_wf s'.
Proof.
  intros Hwf Ha. unfold Rollback in Ha.
  destruct (rollback_ s) as [rollback|] eqn:Hrb; [|by eapply finish_wf in Ha].
  destruct (negb (WritesArmed p)); [by eapply finish_wf in Ha|].
  destruct (ValidateTarget s p); [|by eapply finish_wf in Ha].
  destruct (ReadExact _ p) as [[live|e] p1] eqn:Hlive.
  2:{ eapply finish_wf; [|exact Ha]. by apply report_wf. }
  apply ReadExact_size in Hlive as [Hlive _].
  destruct (_ || _) eqn:Hsz in Ha; [eapply finish_wf; [|exact Ha]; by apply report_wf|].
  boolify. pose proof (pwf_size s Hwf) as Hs.
  match goal with E : sizeZ rollback = _ |- _ => rename E into Hsize end. simpl in Hlive, Hsize.
  pose proof (offsets_wf s [] [] Hwf) as Hwf1.
  set (s1 := s <| conflicts_ := [] |> <| mismatches_ := [] |>) in *.
  assert (psession_wf (rollback_scan rollback live s1)) as Hwf2.
  { eapply (noted_wf s1); try done; try apply Hwf1. by right. }
  assert (working_ s1 = working_ s ∧ rollback_ s1 = Some rollback) as [Hw1 Hr1] by done.
  clearbody s1. set (s2 := rollback_scan rollback live s1) in *.
  assert (working_ s2 = working_ s ∧ rollback_ s2 = Some rollback) as [Hw2 Hr2] by done.
  clearbody s2.
  destruct (negb _) in Ha; [eapply finish_wf; [|exact Ha]; by apply report_state_wf|].
  assert (psession_wf (rollback_arm live s2)) as Hwf3.
  { eapply (noted_wf s2); try done; try apply Hwf2.
    all: simpl; first [by right|by rewrite Hr2|congruence]. }
  assert (working_ (rollback_arm live s2) = working_ s) as Hw3 by done.
  set (s3 := rollback_arm live s2) in *. clearbody s3.
  destruct (armed_write _ _ _ _ p1) as [[?|?] p2];
    [|eapply finish_wf; [|exact Ha]; by apply report_state_wf].
  destruct (guard_Disarm _ p2) as [[[?|?] armed] p3]; [|simplify_eq; by apply report_state_wf].
  destruct (ReadExact _ p3) as [[rb|e] p4]; [|simplify_eq; by apply report_state_wf].
  destruct (negb _) in Ha; simplify_eq.
  - eapply (noted_wf s3); try done; try apply Hwf3. by left.
  - eapply (synced_wf rollback s3); try done. congruence.
Qed.
End Process.

(** ** Call sequences *)

Section Steps.
Context {P : Type} `{IProcessMemory P}.

Inductive psession_step : ProcessMemorySession * P → ProcessMemorySession * P → Prop :=
  | pstep_Load a n s p r s' p' :
      0 ≤ a → Load a n s p = (r, s', p') → psession_step (s, p) (s', p')
  | pstep_Reset s p : psession_step (s, p) (Reset s, p)
  | pstep_EditByte offset value s p r s' :
      0 ≤ offset → EditByte offset value s = (r, s') → psession_step (s, p) (s', p)
  | pstep_RevertByte offset s p r s' :
      0 ≤ offset → RevertByte offset s = (r, s') → psession_step (s, p) (s', p)
  | pstep_Undo s p r s' : Undo s = (r, s') → psession_step (s, p) (s', p)
  | pstep_Redo s p r s' : Redo s = (r, s') → psession_step (s, p) (s', p)
  | pstep_RevertAll s p : psession_step (s, p) (RevertAll s, p)
  | pstep_ApplyAndVerify s p r s' p' :
      ApplyAndVerify s p = (r, s', p') → psession_step (s, p) (s', p')
  | pstep_Rollback s p r s' p' :
      Rollback s p = (r, s', p') → psession_step (s, p) (s', p')
  | pstep_environment s p p' : psession_step (s, p) (s, p').
End Steps.

(** [C21] Whatever sequence of public calls a client makes against whatever process,
    the view is well formed: both buffers have the view's length, the incremental
    dirty counter equals the number of differing bytes, the bitmap is exact, the view
    lies inside the 64-bit address space and under its size limit, the history is
    bounded and replays, and rollback material always has the view's size. *)
Theorem psession_invariant {P} `{IProcessMemory P} (p0 : P) s p :
  rtc psession_step (make_ProcessMemorySession, p0) (s, p) → psession_wf s.
Proof.
  intros Hr. assert (∀ x y : ProcessMemorySession * P,
    rtc psession_step x y → psession_wf x.1 → psession_wf y.1) as Hind.
  { intros x y. induction 1 as [|x y z Hstep _ IH]; [done|]. intros Hx. apply IH. clear IH Hr.
    destruct Hstep; cbn [fst snd] in *.
    - by eapply process_Load_wf.
    - apply psession_wf_init.
    - by eapply process_EditByte_wf.
    - by eapply process_RevertByte_wf.
    - by eapply process_Undo_wf.
    - by eapply process_Redo_wf.
    - by apply process_RevertAll_wf.
    - by eapply process_ApplyAndVerify_wf.
    - by eapply Rollback_wf.
    - done. }
  apply (Hind _ _ Hr). apply psession_wf_init.
Qed.

(** A 64-byte view of the mock process with three staged edits in two runs. *)
Definition pdemo_p0 : MockProcessMemory := make_MockProcessMemory 0x10000000 0x1000 8.
Definition pdemo_loaded : ProcessMemorySession :=
  (Load 0x10000100 64 make_ProcessMemorySession pdemo_p0).1.2.
Definition pdemo_edited : ProcessMemorySession :=
  (EditByte 40 7 (EditByte 4 9 (EditByte 3 8 pdemo_loaded).2).2).2.
Definition pdemo_armed : MockProcessMemory := (MockProcess_SetWritesArmed true pdemo_p0).2.

Lemma psession_invariant_witness : psession_wf pdemo_loaded.
Proof.
  refine (psession_invariant pdemo_p0 pdemo_loaded pdemo_p0 (rtc_once _ _ _)).
  eapply (pstep_Load 0x10000100 64 _ _ (Success tt)); [lia|]. vm_compute. reflexivity.
Defined.

Lemma pdemo_loaded_wf : psession_wf pdemo_loaded.
Proof. eapply (process_Load_wf 0x10000100 64 make_ProcessMemorySession pdemo_p0 (Success tt));
  [lia|vm_compute; reflexivity]. Qed.
Lemma pdemo_edited_wf : psession_wf pdemo_edited.
Proof.
  unfold pdemo_edited.
  eapply (process_EditByte_wf 40 7); [|lia|apply surjective_pairing].
  eapply (process_EditByte_wf 4 9); [|lia|apply surjective_pairing].
  eapply (process_EditByte_wf 3 8); [apply pdemo_loaded_wf|lia|apply surjective_pairing].
Qed.

(** ** Applying and rolling back *)

Section Facts.
Context {P : Type} `{ProcessMemorySpec P}.

Lemma ReadExact_mem s (p : P) bytes p' :
  ReadExact s p = (Success bytes, p') →
  mem_bytes (vmem p') (address_ s) (sizeZ (working_ s)) = bytes ∧ WritesArmed p' = WritesArmed p.
Proof.
  intros [Hsz Hr]%ReadExact_size. split; [by eapply read_bytes|by eapply read_arm].
Qed.
Lemma guard_Disarm_ok armed (p : P) en p' :
  guard_Disarm armed p = (Success tt, en, p') → WritesArmed p = armed ∨ armed = true →
  en = false ∧ WritesArmed p' = false.
Proof.
  unfold guard_Disarm. destruct armed; simpl; [|intros ? [?|?]; by simplify_eq].
  destruct (SetWritesArmed false p) as [[[]|] p1] eqn:E; intros; simplify_eq.
  split; [done|]. by eapply arm_success.
Qed.
End Facts.

(** [C22] A successful process apply means: the session was armed and bound to this
    very process, the staged bytes are now in the process's memory, the arm is off,
    and the previous contents are kept for a rollback. *)
Theorem process_apply_success {P} `{ProcessMemorySpec P} s (p : P) s' p' :
  psession_wf s → ApplyAndVerify s p = (Success tt, s', p') →
  WritesArmed p = true ∧ ProcessId p = pid_ s ∧ working_ s ≠ baseline_ s ∧
  mem_bytes (vmem p') (address_ s) (sizeZ (working_ s)) = working_ s ∧
  WritesArmed p' = false ∧
  baseline_ s' = working_ s ∧ working_ s' = working_ s ∧ IsDirty s' = false ∧
  rollback_ s' = Some (baseline_ s) ∧ state_ s' = PM_Clean.
Proof.
  intros Hwf Ha. pose proof (psession_dirty s Hwf) as Hd. unfold ApplyAndVerify in Ha.
  assert (∀ e armed s1 (p1 : P), finish (Failure e) armed s1 p1 = (Success tt, s', p') → False)
    as Hfin by (unfold finish; intros; repeat case_match; simplify_eq).
  destruct (_ || _) eqn:Hg in Ha; [by apply Hfin in Ha|]. boolify.
  destruct (WritesArmed p) eqn:Harm; cbn [negb] in Ha; [|by apply Hfin in Ha].
  destruct (ValidateTarget s p) eqn:Hv; [|by apply Hfin in Ha].
  apply ValidateTarget_ok in Hv as [_ Hpid].
  destruct (ReadExact s p) as [[live|e] p1]; [|by apply Hfin in Ha].
  destruct (negb _) in Ha; [by apply Hfin in Ha|].
  case_bool_decide; [by apply Hfin in Ha|].
  destruct (write_runs _ _ p1) as [[?|?] p2]; [|by apply Hfin in Ha].
  destruct (guard_Disarm true p2) as [[[[]|?] armed] p3] eqn:Hdis; [|by simplify_eq].
  apply guard_Disarm_ok in Hdis as [-> Hd3]; [|by right].
  destruct (ReadExact _ p3) as [[rb|e] p4] eqn:Hrb; [|by simplify_eq].
  pose proof (ReadExact_size _ _ _ _ Hrb) as [Hsz _].
  apply ReadExact_mem in Hrb as [Hm Ha4].
  destruct (negb _) eqn:Hmm in Ha; [done|]. simplify_eq. boolify. simpl in *.
  apply mismatch_offsets_nil in Hmm as ->; [|done].
  split_and!; try done; [|congruence]. naive_solver congruence.
Qed.

Lemma process_apply_success_witness :
  mem_bytes (vmem (ApplyAndVerify pdemo_edited pdemo_armed).2) 0x10000100 64 = working_ pdemo_edited.
Proof.
  refine (proj1 (proj2 (proj2 (proj2 (process_apply_success pdemo_edited pdemo_armed
    (ApplyAndVerify pdemo_edited pdemo_armed).1.2 (ApplyAndVerify pdemo_edited pdemo_armed).2
    pdemo_edited_wf _))))).
  vm_compute. reflexivity.
Defined.
