(* ===== verification/ProcessSessionWrites.v ===== *)
(** Which writes a [ProcessMemorySession] makes, when it leaves the process armed,
    and its rollback. *)

From S2P Require Import Prelude Common EditBuffer ProcessMemory ProcessSession ProcessSessionTheorems.

(** The writes that put a list of runs at an address. *)
Definition run_writes (address : Z) (runs : list DiffRun) : list (Z * list Z) :=
  (λ r, (u64 (address + dr_offset r), dr_after r)) <$> runs.

Section Log.
Context {P : Type} `{IProcessMemory P}.

Lemma read_log s (w : WriteLogged P) : wl_log (ReadExact s w).2 = wl_log w.
Proof.
  unfold ReadExact. case_match; [done|]. simpl. unfold unlogged.
  destruct (Read _ _ (wl_inner w)) as [[?|?] ?]; simpl; [|done]. by case_match.
Qed.
Lemma disarm_log armed (w : WriteLogged P) :
  wl_log (guard_Disarm armed w).2 = wl_log w ∧ wl_log (guard_destroy armed w) = wl_log w.
Proof.
  unfold guard_Disarm, guard_destroy. pose proof (arm_log false w) as Ha.
  destruct armed; simpl in *; [|done].
  destruct (SetWritesArmed false (wl_inner w)) as [[?|?] ?] eqn:E; unfold unlogged in *;
    rewrite E in *; done.
Qed.
Lemma finish_log outcome armed s (w : WriteLogged P) : wl_log (finish outcome armed s w).2 = wl_log w.
Proof.
  unfold finish. destruct (disarm_log armed w) as [Hd _].
  destruct (guard_Disarm armed w) as [[[?|?] en] w'] eqn:E; simpl in *;
    destruct (disarm_log en w') as [_ ->]; done.
Qed.
Lemma armed_write_log a data msg op (w : WriteLogged P) :
  ∃ k, wl_log (armed_write a data msg op w).2 = wl_log w ++ take k [(a, data)] ∧
    (Ok (armed_write a data msg op w).1 = true → k = 1%nat).
Proof.
  unfold armed_write. pose proof (arm_log true w) as Ha.
  destruct (SetWritesArmed true w) as [[?|?] w1]; simpl in Ha.
  2:{ exists 0%nat. simpl. rewrite app_nil_r. done. }
  exists 1%nat. split; [|done]. simpl. destruct (Write a data (wl_inner w1)) as [wr p2]. simpl.
  pose proof (arm_log false (mkWriteLogged p2 (wl_log w1 ++ [(a, data)]))) as Hb. simpl in Hb.
  rewrite <- Ha. unfold unlogged in *. simpl in *.
  destruct (SetWritesArmed false p2) as [[?|?] p3]; simpl in *; [|done].
  destruct wr; [|done]. by case_match.
Qed.
Lemma write_runs_log a runs (w : WriteLogged P) :
  ∃ k, wl_log (write_runs a runs w).2 = wl_log w ++ take k (run_writes a runs) ∧
    (Ok (write_runs a runs w).1 = true → k = length runs).
Proof.
  revert w. induction runs as [|run runs IH]; intros w; simpl.
  { exists 0%nat. simpl. rewrite app_nil_r. done. }
  match goal with |- context [armed_write ?x ?d ?m ?o w] =>
    destruct (armed_write_log x d m o w) as (k & Hlog & Hk);
    destruct (armed_write x d m o w) as [[?|?] w1] end; simpl in *.
  - rewrite (Hk eq_refl) in Hlog. simpl in Hlog.
    destruct (IH w1) as (k' & Hlog' & Hk'). exists (S k'). split; [|by intros ->%Hk'].
    rewrite Hlog', Hlog, <- app_assoc. done.
  - destruct k as [|k]; simpl in Hlog.
    + exists 0%nat. simpl. done.
    + exists 1%nat. simpl. rewrite take_0. rewrite take_nil in Hlog. done.
Qed.
End Log.

(** A prefix of the runs' writes stays inside the view and only carries staged
    bytes. *)
Definition staged_write (s : ProcessMemorySession) (w : Z * list Z) : Prop :=
  ∃ offset, 0 ≤ offset ∧ offset + sizeZ w.2 ≤ sizeZ (working_ s) ∧ w.1 = address_ s + offset ∧
    w.2 = slice (working_ s) offset (sizeZ w.2) ∧
    ∀ i, offset ≤ i < offset + sizeZ w.2 → byte_at (baseline_ s) i ≠ byte_at (working_ s) i.

Lemma DiffRuns_ok s :
  psession_wf s →
  Forall (run_ok (baseline_ s) (working_ s)) (DiffRuns s) ∧
  patch_all (baseline_ s) (DiffRuns s) dr_after = working_ s.
Proof.
  intros Hwf. unfold DiffRuns. rewrite (pwf_dirty s Hwf). pose proof (pwf_size s Hwf) as Hs.
  assert (sizeZ (diff_bitmap (baseline_ s) (working_ s)) = sizeZ (working_ s)) as Hd.
  { unfold sizeZ in *. rewrite length_diff_bitmap; lia. }
  rewrite Hd. split.
  - by apply diff_runs_from_ok.
  - apply diff_runs_from_patch with (src := baseline_ s); try done; try lia.
    + by intros r (_&_&_&_&?&_).
    + unfold sizeZ in *. lia.
Qed.

Lemma run_writes_staged s runs :
  psession_wf s → Forall (run_ok (baseline_ s) (working_ s)) runs →
  Forall (staged_write s) (run_writes (address_ s) runs).
Proof.
  intros Hwf Hok. apply Forall_fmap. eapply Forall_impl; [exact Hok|].
  intros r (Ho & Hn & Hstop & _ & Hafter & Hdiff). unfold run_stop in *. simpl.
  pose proof (pwf_address s Hwf). exists (dr_offset r). simpl. split_and!; try done.
  - apply u64_id. unfold is_u64. lia.
Qed.

(** The writes a process apply makes are exactly the staged runs, in order: the
    log of writes is a prefix of them, all of them when it succeeds; every write lies
    inside the loaded view and carries only bytes the user staged; and as soon as one
    write was attempted, the session holds the material to roll back even a partial
    write. *)
Theorem process_apply_writes {P} `{IProcessMemory P} s (p : P) r s' p' log :
  psession_wf s → ApplyAndVerify s (mkWriteLogged p []) = (r, s', mkWriteLogged p' log) →
  Forall (staged_write s) log ∧
  (∃ k, log = take k (run_writes (address_ s) (DiffRuns s)) ∧
    (Ok r = true → k = length (DiffRuns s))) ∧
  (log ≠ [] → rollback_ s' = Some (baseline_ s) ∧ rollback_expected_ s' = Some (working_ s)).
Proof.
  intros Hwf Ha.
  assert (∀ k, Forall (staged_write s) (take k (run_writes (address_ s) (DiffRuns s)))) as Hst.
  { intros k. apply Forall_take, run_writes_staged; [done|]. by apply DiffRuns_ok. }
  assert (∀ e armed s1 (w1 : WriteLogged P), wl_log w1 = [] →
    finish (Failure e) armed s1 w1 = (r, s', mkWriteLogged p' log) → log = [] ∧ Ok r = false) as Hfin.
  { intros e armed s1 w1 Hw Hf. pose proof (finish_log (Failure e) armed s1 w1) as Hl.
    rewrite Hf, Hw in Hl. simpl in Hl. split; [done|].
    unfold finish in Hf. repeat case_match; by simplify_eq. }
  assert (log = [] ∧ Ok r = false → Forall (staged_write s) log ∧
    (∃ k, log = take k (run_writes (address_ s) (DiffRuns s)) ∧
      (Ok r = true → k = length (DiffRuns s))) ∧
    (log ≠ [] → rollback_ s' = Some (baseline_ s) ∧ rollback_expected_ s' = Some (working_ s)))
    as Hnone.
  { intros [-> Hr]. rewrite Hr. split_and!; [by apply Forall_nil_2|by exists 0%nat|done]. }
  unfold ApplyAndVerify in Ha. set (armed0 := WritesArmed (mkWriteLogged p [])) in Ha.
  clearbody armed0. destruct (_ || _) in Ha; [by apply Hnone; eapply Hfin; [|exact Ha]|].
  destruct (negb _) in Ha; [by apply Hnone; eapply Hfin; [|exact Ha]|].
  destruct (ValidateTarget s _); [|by apply Hnone; eapply Hfin; [|exact Ha]].
  pose proof (read_log s (mkWriteLogged p [])) as Hl1.
  destruct (ReadExact s _) as [[live|e] w1]; simpl in Hl1;
    [|by apply Hnone; eapply Hfin; [|exact Ha]].
  destruct (negb _) in Ha; [by apply Hnone; eapply Hfin; [|exact Ha]|].
  set (s1 := apply_arm _) in Ha.
  case_bool_decide; [by apply Hnone; eapply Hfin; [|exact Ha]|].
  change (DiffRuns s1) with (DiffRuns s) in Ha. change (address_ s1) with (address_ s) in Ha.
  destruct (write_runs_log (address_ s) (DiffRuns s) w1) as (k & Hl2 & Hk).
  rewrite Hl1 in Hl2. simpl in Hl2.
  assert (rollback_ s1 = Some (baseline_ s) ∧ rollback_expected_ s1 = Some (working_ s)) as Hrb by done.
  clearbody s1.
  destruct (write_runs (address_ s) (DiffRuns s) w1) as [[?|e] w2]; cbn [fst snd Ok] in Hl2, Hk.
  2:{ match type of Ha with finish ?o ?a ?x ?w = _ => pose proof (finish_log o a x w) as Hl end.
      rewrite Ha, Hl2 in Hl. simpl in Hl. subst log. split_and!; [done| |].
      - exists k. split; [done|]. unfold finish in Ha. repeat case_match; by simplify_eq.
      - intros _. by destruct (finish_session _ _ _ _ _ _ _ Ha) as [->| ->]. }
  rewrite (Hk eq_refl) in *. clear Hk.
  destruct (guard_Disarm armed0 w2) as [[rd armed] w3] eqn:Hd.
  destruct (disarm_log armed0 w2) as [Hl3 _]. rewrite Hd, Hl2 in Hl3. simpl in Hl3.
  pose proof (read_log s1 w3) as Hl4. rewrite Hl3 in Hl4.
  destruct (ReadExact s1 w3) as [rr w4]. simpl in Hl4.
  assert (wl_log (mkWriteLogged p' log) = take (length (DiffRuns s)) (run_writes (address_ s) (DiffRuns s))
    ∧ rollback_ s' = rollback_ s1 ∧ rollback_expected_ s' = rollback_expected_ s1)
    as (Hlog & -> & ->).
  { destruct (disarm_log armed w3) as [_ Hd3]. destruct (disarm_log armed w4) as [_ Hd4].
    destruct rd as [?|?]; [destruct rr as [rb|?]; [case_match|]|]; injection Ha as <- <- <-;
      split_and!; try done; congruence. }
  simpl in Hlog. subst log. split_and!; [done| |done]. by eexists.
Qed.

Definition pdemo_logged := ApplyAndVerify pdemo_edited (mkWriteLogged pdemo_armed []).

Lemma process_apply_writes_witness :
  Forall (staged_write pdemo_edited) [(0x10000103, [8; 9]); (0x10000128, [7])].
Proof.
  refine (proj1 (process_apply_writes pdemo_edited pdemo_armed (Success tt) pdemo_logged.1.2
    (wl_inner pdemo_logged.2) [(0x10000103, [8; 9]); (0x10000128, [7])] pdemo_edited_wf _)).
  vm_compute. reflexivity.
Defined.

(** ** Disarming *)

Section Disarm.
Context {P : Type} `{ProcessMemorySpec P}.
Context (Hreliable : ∀ q : P, Ok (SetWritesArmed false q).1 = true).

Lemma reliable_disarm (q : P) : WritesArmed (SetWritesArmed false q).2 = false.
Proof using Hreliable H0.
  pose proof (Hreliable q) as Hq. destruct (SetWritesArmed false q) as [[[]|] q'] eqn:E; [|done].
  by eapply arm_success.
Qed.
Lemma guard_cleanup armed (q : P) :
  armed = true ∨ WritesArmed q = false →
  let '(r, en, q') := guard_Disarm armed q in WritesArmed (guard_destroy en q') = false ∧
    (Ok r = true → en = false ∧ WritesArmed q' = false).
Proof using Hreliable H0.
  intros Ha. unfold guard_Disarm, guard_destroy. destruct armed; simpl.
  - pose proof (reliable_disarm q) as Hd. pose proof (Hreliable q) as Hr.
    destruct (SetWritesArmed false q) as [[[]|] q'] eqn:E; simpl in *; done.
  - by destruct Ha.
Qed.
Lemma finish_disarmed outcome armed s (q : P) r s' q' :
  armed = true ∨ WritesArmed q = false → finish outcome armed s q = (r, s', q') →
  WritesArmed q' = false.
Proof using Hreliable H0.
  intros Ha Hf. unfold finish in Hf. pose proof (guard_cleanup armed q Ha) as Hg.
  destruct (guard_Disarm armed q) as [[[?|?] en] q1]; simplify_eq; by destruct Hg.
Qed.
Lemma ReadExact_arm s (q : P) r q' : ReadExact s q = (r, q') → WritesArmed q' = WritesArmed q.
Proof using H0.
  unfold ReadExact. intros Hr. case_match; [by simplify_eq|].
  destruct (Read _ _ q) as [rd q1] eqn:E. apply read_arm in E.
  repeat case_match; simplify_eq; congruence.
Qed.
End Disarm.

(** The process session never leaves a process armed: when disarming itself
    works, both transactions return with the arm off on every path. *)
Theorem process_transactions_disarm {P} `{ProcessMemorySpec P} s (p : P) r s' p' :
  (∀ q : P, Ok (SetWritesArmed false q).1 = true) →
  ApplyAndVerify s p = (r, s', p') ∨ Rollback s p = (r, s', p') →
  WritesArmed p' = false.
Proof.
  intros Hrel Ha.
  assert (∀ o s1 p1, finish o true s1 p1 = (r, s', p') → WritesArmed p' = false) as Hf
    by (intros o s1 p1 Hf; eapply finish_disarmed in Hf; auto).
  destruct (WritesArmed p) eqn:Hp.
  2:{ destruct Ha as [Ha|Ha]; [unfold ApplyAndVerify in Ha|unfold Rollback in Ha];
        rewrite Hp in Ha; cbn [negb] in Ha; repeat case_match;
        eapply (finish_disarmed Hrel) in Ha; eauto. }
  destruct Ha as [Ha|Ha]; [unfold ApplyAndVerify in Ha|unfold Rollback in Ha];
    rewrite Hp in Ha; cbn [negb] in Ha.
  - destruct (_ || _) in Ha; [by eapply Hf|].
    destruct (ValidateTarget s p); [|by eapply Hf].
    destruct (ReadExact s p) as [[live|e] p1]; [|by eapply Hf].
    destruct (negb _) in Ha; [by eapply Hf|].
    case_bool_decide; [by eapply Hf|].
    destruct (write_runs _ _ p1) as [[?|?] p2]; [|by eapply Hf].
    pose proof (guard_cleanup Hrel true p2 (or_introl eq_refl)) as Hg.
    destruct (guard_Disarm true p2) as [[[?|?] en] p3]; [|simplify_eq; by destruct Hg].
    destruct Hg as [_ [-> Hp3]]; [done|]. unfold guard_destroy in Ha.
    destruct (ReadExact _ p3) as [rr p4] eqn:Hr4. apply ReadExact_arm in Hr4.
    destruct rr; [destruct (negb _) in Ha|]; simplify_eq; congruence.
  - destruct (rollback_ s) as [rb|]; [|by eapply Hf].
    destruct (ValidateTarget s p); [|by eapply Hf].
    destruct (ReadExact _ p) as [[live|e] p1]; [|by eapply Hf].
    destruct (_ || _) in Ha; [by eapply Hf|].
    destruct (negb _) in Ha; [by eapply Hf|].
    destruct (armed_write _ _ _ _ p1) as [[?|?] p2]; [|by eapply Hf].
    pose proof (guard_cleanup Hrel true p2 (or_introl eq_refl)) as Hg.
    destruct (guard_Disarm true p2) as [[[?|?] en] p3]; [|simplify_eq; by destruct Hg].
    destruct Hg as [_ [-> Hp3]]; [done|]. unfold guard_destroy in Ha.
    destruct (ReadExact _ p3) as [rr p4] eqn:Hr4. apply ReadExact_arm in Hr4.
    destruct rr; [destruct (negb _) in Ha|]; simplify_eq; congruence.
Qed.

Lemma process_transactions_disarm_witness :
  WritesArmed (ApplyAndVerify pdemo_edited pdemo_armed).2 = false.
Proof.
  refine (process_transactions_disarm pdemo_edited pdemo_armed (Success tt)
    (ApplyAndVerify pdemo_edited pdemo_armed).1.2 _ _ (or_introl _)).
  - intros q. reflexivity.
  - vm_compute. reflexivity.
Defined.

(** ** Rolling back *)

(** A rollback is refused exactly for the offsets that hold neither version: while
    a partial write is possible, an offset conflicts iff its live byte is neither the
    original nor the staged one; otherwise iff it is not the verified one.  So any
    byte-wise mixture left by an interrupted apply can be rolled back. *)
Theorem rollback_conflicts_exact partial rollback expected live baseline k :
  k ∈ rollback_conflicts partial rollback expected live baseline ↔
  0 ≤ k < sizeZ baseline ∧
  match partial, expected with
  | true, Some e => byte_at live k ≠ byte_at rollback k ∧ byte_at live k ≠ byte_at e k
  | _, _ => byte_at live k ≠ byte_at baseline k
  end.
Proof.
  unfold rollback_conflicts. rewrite list_elem_of_filter, elem_of_seqZ, negb_true_iff.
  assert (0 ≤ k < 0 + sizeZ baseline ↔ 0 ≤ k < sizeZ baseline) as -> by lia.
  destruct partial, expected; rewrite ?orb_false_iff, ?Z.eqb_neq; tauto.
Qed.

(** A successful process rollback puts the bytes from before the apply back into
    the process's memory and makes them the clean contents of the view. *)
Theorem process_rollback_success {P} `{ProcessMemorySpec P} s (p : P) s' p' :
  psession_wf s → Rollback s p = (Success tt, s', p') →
  ∃ rollback, rollback_ s = Some rollback ∧ WritesArmed p = true ∧ ProcessId p = pid_ s ∧
    mem_bytes (vmem p') (address_ s) (sizeZ (working_ s)) = rollback ∧ WritesArmed p' = false ∧
    baseline_ s' = rollback ∧ working_ s' = rollback ∧ IsDirty s' = false ∧
    CanRollback s' = false ∧ state_ s' = PM_Clean.
Proof.
  intros Hwf Ha. unfold Rollback in Ha.
  assert (∀ e armed s1 (p1 : P), finish (Failure e) armed s1 p1 = (Success tt, s', p') → False)
    as Hfin by (unfold finish; intros; repeat case_match; simplify_eq).
  destruct (rollback_ s) as [rb|] eqn:Hrb; [|by apply Hfin in Ha].
  destruct (WritesArmed p) eqn:Harm; cbn [negb] in Ha; [|by apply Hfin in Ha].
  destruct (ValidateTarget s p) eqn:Hv; [|by apply Hfin in Ha].
  apply ValidateTarget_ok in Hv as [_ Hpid].
  destruct (ReadExact _ p) as [[live|e] p1]; [|by apply Hfin in Ha].
  destruct (_ || _) in Ha; [by apply Hfin in Ha|].
  destruct (negb _) in Ha; [by apply Hfin in Ha|].
  destruct (armed_write _ _ _ _ p1) as [[?|?] p2]; [|by apply Hfin in Ha].
  destruct (guard_Disarm true p2) as [[[[]|?] armed] p3] eqn:Hdis; [|by simplify_eq].
  apply guard_Disarm_ok in Hdis as [-> Hd3]; [|by right].
  destruct (ReadExact _ p3) as [[rb'|e] p4] eqn:Hr4; [|by simplify_eq].
  pose proof (ReadExact_size _ _ _ _ Hr4) as [Hsz _].
  apply ReadExact_mem in Hr4 as [Hm Ha4].
  destruct (negb _) eqn:Hmm in Ha; [done|]. simplify_eq. boolify. simpl in *.
  pose proof (pwf_rollback s Hwf) as Hrs. rewrite Hrb in Hrs. simpl in Hrs.
  apply mismatch_offsets_nil in Hmm as ->; [|congruence].
  exists rb. split_and!; try done. congruence.
Qed.

Definition pdemo_applied : ProcessMemorySession := (ApplyAndVerify pdemo_edited pdemo_armed).1.2.
Definition pdemo_p1 : MockProcessMemory :=
  (MockProcess_SetWritesArmed true (ApplyAndVerify pdemo_edited pdemo_armed).2).2.

Lemma process_rollback_success_witness :
  IsDirty (Rollback pdemo_applied pdemo_p1).1.2 = false.
Proof.
  destruct (process_rollback_success pdemo_applied pdemo_p1 (Rollback pdemo_applied pdemo_p1).1.2
    (Rollback pdemo_applied pdemo_p1).2) as (rb & _ & _ & _ & _ & _ & _ & _ & H & _).
  - eapply (process_ApplyAndVerify_wf pdemo_edited pdemo_armed (Success tt)); [apply pdemo_edited_wf|].
    vm_compute. reflexivity.
  - vm_compute. reflexivity.
  - exact H.
Defined.
