(* ===== verification/PointerResolver.v ===== *)
(** [core/address/PointerResolver]: following a pointer path through memory. *)

From S2P Require Import Prelude CppStd Common X64PageTable MemoryBackend MockMemoryBackend.

Record AddressPointerPath := mkAddressPointerPath {
  path_space : MemorySpace;
  base_address : Z;
  offsets : list Z;      (* [std::int64_t] *)
  pointer_size : Z       (* [std::uint32_t] *)
}.

Definition kMaxDepth : Z := 32.

Section PointerResolver.
Context {B : Type} `{IMemoryBackend B}.

Definition resolver_error {T} (c : ErrorCode) (msg : string) : Result T :=
  Failure (MakeError c msg "PointerResolver::Resolve").

(** One offset added to an address, as both the intermediate and the final step
    of the loop do it; [what] names the step in the error messages. *)
Definition add_offset (what : string) (pointer_size address offset : Z) : Result Z :=
  match
    if 0 <=? offset then
      if u64_max - u64 offset <? address then
        resolver_error AddressOverflow ("Pointer-path " +:+ what +:+ " overflowed")
      else Success (u64 (address + u64 offset))
    else
      let magnitude := u64 (u64 (- (offset + 1)) + 1) in
      if address <? magnitude then
        resolver_error AddressOverflow ("Pointer-path " +:+ what +:+ " underflowed")
      else Success (u64 (address - magnitude))
  with
  | Failure e => Failure e
  | Success current =>
      if (pointer_size =? 4) && (u32_max <? current) then
        resolver_error AddressOverflow "32-bit pointer-path result exceeded the address width"
      else Success current
  end.

(** The pointer stored at [current]. *)
Definition read_pointer (space : MemorySpace) (pointer_size current : Z) (b : B)
    : Result Z * B :=
  match ReadMemory space current pointer_size b with
  | (Failure e, b) => (Failure e, b)
  | (Success bytes, b) =>
      if negb (sizeZ bytes =? pointer_size) then
        (resolver_error ShortRead "Pointer read returned fewer bytes than requested", b)
      else
        let pointer := le_value bytes in
        if pointer =? 0 then
          (resolver_error NotFound "Pointer path encountered a null intermediate pointer", b)
        else (Success pointer, b)
  end.

Fixpoint resolve_loop (space : MemorySpace) (pointer_size current : Z) (offsets : list Z) (b : B)
    : Result Z * B :=
  match offsets with
  | [] => (Success current, b)
  | [offset] => (add_offset "final offset" pointer_size current offset, b)
  | offset :: rest =>
      match read_pointer space pointer_size current b with
      | (Failure e, b) => (Failure e, b)
      | (Success pointer, b) =>
          match add_offset "offset" pointer_size pointer offset with
          | Failure e => (Failure e, b)
          | Success current => resolve_loop space pointer_size current rest b
          end
      end
  end.

Definition Resolve (path : AddressPointerPath) (b : B) : Result Z * B :=
  if negb (pointer_size path =? 4) && negb (pointer_size path =? 8) then
    (resolver_error InvalidArgument "Pointer size must be 4 or 8 bytes", b)
  else if (base_address path =? 0) || (kMaxDepth <? sizeZ (offsets path)) ||
          ((pointer_size path =? 4) && (u32_max <? base_address path)) then
    (Failure (MakeErrorFull
       (if kMaxDepth <? sizeZ (offsets path) then LimitReached else InvalidArgument)
       "Pointer path has an invalid base address or exceeds the depth cap"
       "PointerResolver::Resolve" 0 kMaxDepth (sizeZ (offsets path))), b)
  else if match kind (path_space path) with
          | Physical | KernelVirtual => negb (pid (path_space path) =? 0)
          | ProcessVirtual => false
          end then
    (resolver_error InvalidArgument "Non-process pointer paths must not carry a PID", b)
  else if match kind (path_space path) with
          | Physical | KernelVirtual => false
          | ProcessVirtual => pid (path_space path) =? 0
          end then
    (resolver_error InvalidArgument "Process pointer paths require a non-zero PID", b)
  else
    match offsets path with
    | [] => (Success (base_address path), b)
    | _ => resolve_loop (path_space path) (pointer_size path) (base_address path) (offsets path) b
    end.

(** ** Specification *)

(** The addresses a path of this width may visit. *)
Definition address_max (pointer_size : Z) : Z := if pointer_size =? 4 then u32_max else u64_max.

(** Following offsets in exact integer arithmetic: every offset but the last is
    added to the non-null pointer read at the current address, the last one to
    the current address itself, and no sum leaves the address range. *)
Inductive follows (space : MemorySpace) (pointer_size : Z) : Z → list Z → B → Z → B → Prop :=
  | follows_last current offset b :
      0 ≤ current + offset ≤ address_max pointer_size →
      follows space pointer_size current [offset] b (current + offset) b
  | follows_deref current offset rest b bytes b1 final b' :
      rest ≠ [] →
      ReadMemory space current pointer_size b = (Success bytes, b1) →
      sizeZ bytes = pointer_size → le_value bytes ≠ 0 →
      0 ≤ le_value bytes + offset ≤ address_max pointer_size →
      follows space pointer_size (le_value bytes + offset) rest b1 final b' →
      follows space pointer_size current (offset :: rest) b final b'.

Definition is_i64 (x : Z) : Prop := - 2 ^ 63 ≤ x < 2 ^ 63.

(** The field types of a path. *)
Definition path_typed (p : AddressPointerPath) : Prop :=
  is_u64 (base_address p) ∧ Forall is_i64 (offsets p).

Definition path_valid (p : AddressPointerPath) : Prop :=
  (pointer_size p = 4 ∨ pointer_size p = 8) ∧
  0 < base_address p ≤ address_max (pointer_size p) ∧ sizeZ (offsets p) ≤ kMaxDepth ∧
  (kind (path_space p) = ProcessVirtual ↔ pid (path_space p) ≠ 0).

Lemma add_offset_exact what psz a offset r :
  is_u64 a → is_i64 offset → add_offset what psz a offset = Success r ↔
  r = a + offset ∧ 0 ≤ a + offset ≤ address_max psz.
Proof.
  unfold is_u64, is_i64, add_offset, address_max. intros Ha Ho.
  assert (2 ^ 63 = 9223372036854775808) as E by done. rewrite E in Ho.
  assert (∀ x, 0 ≤ x ≤ 18446744073709551615 → u64 x = x) as Hid by (intros; by apply u64_id).
  assert (∀ c, (if (psz =? 4) && (4294967295 <? c) then resolver_error AddressOverflow
    "32-bit pointer-path result exceeded the address width" else Success c) = Success r ↔
    r = c ∧ (psz = 4 → c ≤ 4294967295)) as Hw.
  { intros c. destruct (Z.eqb_spec psz 4), (Z.ltb_spec 4294967295 c); simpl;
      (split; [intros Hs; simplify_eq; lia|intros [-> ?]; done || lia]). }
  destruct (Z.leb_spec 0 offset).
  - rewrite (Hid offset) by lia. destruct (Z.ltb_spec (18446744073709551615 - offset) a).
    + split; [done|]. destruct (psz =? 4); lia.
    + rewrite Hw, Hid by lia. destruct (Z.eqb_spec psz 4); lia.
  - rewrite (Hid (- (offset + 1))), Hid by lia. destruct (Z.ltb_spec a (- (offset + 1) + 1)).
    + split; [done|]. lia.
    + rewrite Hw, Hid by lia. destruct (Z.eqb_spec psz 4); lia.
Qed.

Lemma read_pointer_exact space psz current b pointer b1 :
  read_pointer space psz current b = (Success pointer, b1) ↔
  ∃ bytes, ReadMemory space current psz b = (Success bytes, b1) ∧ sizeZ bytes = psz ∧
    le_value bytes ≠ 0 ∧ pointer = le_value bytes.
Proof.
  unfold read_pointer. destruct (ReadMemory space current psz b) as [[bytes|e] b2].
  2:{ split; [done|]. intros (? & ? & _). simplify_eq. }
  destruct (Z.eqb_spec (sizeZ bytes) psz), (Z.eqb_spec (le_value bytes) 0); simpl;
    (split; [intros; simplify_eq; eauto|intros (? & ? & ? & ? & ?); simplify_eq; done]).
Qed.

Lemma resolve_loop_exact space psz current offs b a b' :
  psz = 4 ∨ psz = 8 → is_u64 current → Forall is_i64 offs → offs ≠ [] →
  resolve_loop space psz current offs b = (Success a, b') ↔ follows space psz current offs b a b'.
Proof.
  intros Hp. revert current b.
  induction offs as [|offset offs IH]; intros current b Hc Ho Hne; [done|].
  inversion Ho as [|?? Hoff Hoffs]; subst. destruct offs as [|o2 offs]; cbn [resolve_loop].
  - split.
    + intros [= Ha ->]. apply add_offset_exact in Ha as [-> ?]; [|done..]. by constructor.
    + intros Hf. inversion Hf; subst; [|done].
      f_equal. by apply add_offset_exact.
  - split.
    + destruct (read_pointer space psz current b) as [[pointer|e] b1] eqn:Hr; [|done].
      apply read_pointer_exact in Hr as (bytes & Hrd & Hs & Hnz & ->).
      pose proof (le_value_u64 bytes ltac:(lia)) as Hu.
      destruct (add_offset _ _ _ _) as [next|e] eqn:Ha; [|done].
      apply add_offset_exact in Ha as [-> Hr']; [|done..].
      intros Hl. apply IH in Hl; [by econstructor| |done|done].
      unfold is_u64, address_max in *. destruct (psz =? 4); lia.
    + intros Hf. inversion Hf as [|? ? ? ? bytes b1 ? ? _ Hrd Hs Hnz Hr' Hrest]; subst.
      rewrite (proj2 (read_pointer_exact _ _ _ _ (le_value bytes) b1)) by eauto.
      pose proof (le_value_u64 bytes ltac:(lia)) as Hu.
      rewrite (proj2 (add_offset_exact "offset" _ _ offset _ Hu Hoff)) by done.
      apply IH; [|done..]. unfold is_u64, address_max in *. destruct (_ =? 4); lia.
Qed.

Lemma Resolve_valid p b a b' :
  is_u64 (base_address p) → Resolve p b = (Success a, b') → path_valid p.
Proof.
  unfold is_u64, Resolve, path_valid, address_max. intros Hb Hr.
  destruct (negb _ && negb _) eqn:Hp; [done|]. destruct (_ || _ || _) eqn:Hg; [done|].
  apply orb_false_iff in Hg as [[Hg1 Hg2]%orb_false_iff Hg3].
  assert (pointer_size p = 4 ∨ pointer_size p = 8) as Hpsz.
  { apply andb_false_iff in Hp as [Hp|Hp]; apply negb_false_iff, Z.eqb_eq in Hp; auto. }
  apply Z.eqb_neq in Hg1. apply Z.ltb_ge in Hg2.
  split; [done|]. split_and!; [lia| |done|..].
  - destruct (pointer_size p =? 4); [|lia]. by apply Z.ltb_ge in Hg3.
  - destruct (kind _), (Z.eqb_spec (pid (path_space p)) 0); done.
Qed.
End PointerResolver.

(** [C37] Following a pointer path is exact: [Resolve] succeeds with an address just
    when the path is well formed and following its offsets in unbounded integer
    arithmetic, through pointers read from memory of which none is null, never
    leaves the address range of its pointer width and ends at that address.
    Signed offsets down to the smallest [int64_t] are handled without wrap-around. *)
Theorem Resolve_exact {B} `{IMemoryBackend B} p (b : B) a b' :
  path_typed p →
  Resolve p b = (Success a, b') ↔
  path_valid p ∧
  ((offsets p = [] ∧ a = base_address p ∧ b' = b) ∨
   follows (path_space p) (pointer_size p) (base_address p) (offsets p) b a b').
Proof.
  intros [Hb Ho]. split.
  - intros Hr. pose proof (Resolve_valid _ _ _ _ Hb Hr) as Hv. split; [done|].
    unfold Resolve in Hr.
    repeat match type of Hr with (if ?c then _ else _) = _ => destruct c; [done|] end.
    destruct (offsets p) as [|o os] eqn:E; [left; by simplify_eq|right].
    apply resolve_loop_exact in Hr; [done|apply Hv|done|done|done].
  - intros [Hv Hf]. unfold Resolve. destruct Hv as (Hp & Hr & Hd & Hs).
    replace (negb (pointer_size p =? 4) && negb (pointer_size p =? 8)) with false.
    2:{ symmetry. destruct Hp as [-> | ->]; done. }
    replace ((base_address p =? 0) || _ || _) with false.
    2:{ symmetry. rewrite !orb_false_iff, Z.eqb_neq, Z.ltb_ge. split_and!; [lia|done|].
        unfold address_max in Hr. destruct (pointer_size p =? 4); [|done]. apply Z.ltb_ge. lia. }
    destruct Hf as [(E & -> & ->)|Hf].
    + rewrite E. destruct (kind _), (Z.eqb_spec (pid (path_space p)) 0); simpl; try done; naive_solver.
    + assert (offsets p ≠ []) as Hne by (by inversion Hf).
      rewrite <- (resolve_loop_exact _ _ _ _ _ _ _ Hp Hb Ho Hne) in Hf.
      destruct (offsets p); [done|].
      destruct (kind _), (Z.eqb_spec (pid (path_space p)) 0); simpl; try done; naive_solver.
Qed.

(** A 32-bit physical path: the pointer at 0x100010 is 0x100000, 8 bytes further
    the path ends 12 bytes back. *)
Definition demo_pointer_memory : MockMemoryBackend :=
  foldl (λ b '(a, v), Mock_Mutate a v b) ((Mock_Open make_MockMemoryBackend).2)
    [(0x100010, 0); (0x100011, 0); (0x100012, 0x10); (0x100013, 0)].
Definition demo_path : AddressPointerPath :=
  mkAddressPointerPath PhysicalSpace 0x100010 [8; -12] 4.

Lemma Resolve_exact_witness :
  ∃ b', follows PhysicalSpace 4 0x100010 [8; -12] demo_pointer_memory 0xFFFFC b'.
Proof.
  exists (Resolve demo_path demo_pointer_memory).2.
  destruct (proj1 (Resolve_exact demo_path demo_pointer_memory 0xFFFFC
    (Resolve demo_path demo_pointer_memory).2 ltac:(split; [done|repeat constructor; done])))
    as [_ [[? _]|Hf]].
  - vm_compute. reflexivity.
  - discriminate.
  - exact Hf.
Defined.
