(* ===== verification/AobPattern.v ===== *)
(** [core/scanner/AobPattern]: byte patterns with wildcards. *)

From S2P Require Import Prelude CppStd Common.
From Stdlib Require Import Ascii String.

Definition kMaxAobPatternBytes : Z := 1024 * 1024.

Record AobPattern := mkAobPattern { aob_bytes : list Z; aob_exact : list bool }.

Definition Empty (p : AobPattern) : bool := bool_decide (aob_bytes p = []).
Definition Size (p : AobPattern) : Z := sizeZ (aob_bytes p).

(** The loop of [Matches]: the [i]-th byte counts only where [exact[i]] is set. *)
Fixpoint matches_loop (bytes : list Z) (exact : list bool) (input : list Z) : bool :=
  match bytes, exact, input with
  | byte :: bytes, ex :: exact, x :: input =>
      if ex && negb (x =? byte) then false else matches_loop bytes exact input
  | _, _, _ => true
  end.

Definition Matches (p : AobPattern) (input : list Z) : bool :=
  if negb (sizeZ (aob_exact p) =? sizeZ (aob_bytes p)) || (sizeZ input <? sizeZ (aob_bytes p))
  then false
  else matches_loop (aob_bytes p) (aob_exact p) input.

(** The two inner loops over the text: white space, then a token. *)
Fixpoint skip_spaces (text : chars) : chars :=
  match text with
  | c :: rest => if isspace c then skip_spaces rest else text
  | [] => []
  end.
Fixpoint take_token (text : chars) : chars * chars :=
  match text with
  | c :: rest =>
      if isspace c then ([], text) else let '(t, r) := take_token rest in (c :: t, r)
  | [] => ([], [])
  end.

Definition push (byte : Z) (ex : bool) (p : AobPattern) : AobPattern :=
  mkAobPattern (aob_bytes p ++ [byte]) (aob_exact p ++ [ex]).

Definition aob_error {T} (c : ErrorCode) (msg : string) : Result T :=
  Failure (MakeError c msg "ParseAobPattern").

Definition add_token (token : chars) (pattern : AobPattern) : Result AobPattern :=
  if kMaxAobPatternBytes <=? sizeZ (aob_bytes pattern) then
    Failure (MakeErrorFull LimitReached "AOB pattern exceeds the product byte cap"
      "ParseAobPattern" 0 kMaxAobPatternBytes (sizeZ (aob_bytes pattern) + 1))
  else if bool_decide (token = str "?") || bool_decide (token = str "??") ||
          bool_decide (token = str "**") then
    Success (push 0 false pattern)
  else if negb (sizeZ token =? 2) then
    aob_error ParseError "AOB tokens must be two hex digits or ??"
  else
    let result := from_chars_unsigned 16 u32_max token in
    if negb (bool_decide (fc_ec result = errc_ok)) || negb (bool_decide (fc_ptr result = [])) ||
       (0xFF <? fc_value result) then
      aob_error ParseError "Invalid AOB hex token"
    else Success (push (u8 (fc_value result)) true pattern).

(** The outer loop; every round but the last consumes a token, so one round more
    than there are characters is enough. *)
Fixpoint parse_loop (fuel : nat) (text : chars) (pattern : AobPattern) : Result AobPattern :=
  match fuel with
  | O => Success pattern
  | S fuel =>
      match skip_spaces text with
      | [] => Success pattern
      | text =>
          let '(token, rest) := take_token text in
          match add_token token pattern with
          | Failure e => Failure e
          | Success pattern => parse_loop fuel rest pattern
          end
      end
  end.

Definition ParseAobPattern (text : chars) : Result AobPattern :=
  match parse_loop (S (List.length text)) text (mkAobPattern [] []) with
  | Failure e => Failure e
  | Success pattern =>
      if Empty pattern then aob_error ParseError "AOB pattern is empty" else Success pattern
  end.

(** ** Specification *)

(** A pattern is a list of positions, each a byte or a wildcard. *)
Definition positions (p : AobPattern) : list (option Z) :=
  zip_with (λ (ex : bool) byte, if ex then Some byte else None) (aob_exact p) (aob_bytes p).

(** The pattern with given positions; a wildcard's byte is 0. *)
Definition of_positions (pos : list (option Z)) : AobPattern :=
  mkAobPattern (default 0 <$> pos) ((λ o, bool_decide (is_Some o)) <$> pos).

(** The tokens of a text, by the definition of a token: maximal runs of
    characters that are not white space. *)
Inductive tokens_of : chars → list chars → Prop :=
  | tokens_end spaces : forallb isspace spaces = true → tokens_of spaces []
  | tokens_last spaces token :
      forallb isspace spaces = true → token ≠ [] →
      forallb (λ c, negb (isspace c)) token = true →
      tokens_of (spaces ++ token) [token]
  | tokens_cons spaces token c rest ts :
      forallb isspace spaces = true → token ≠ [] →
      forallb (λ c, negb (isspace c)) token = true → isspace c = true →
      tokens_of (c :: rest) ts → tokens_of (spaces ++ token ++ c :: rest) (token :: ts).

(** What a token means. *)
Definition token_position (token : chars) : option (option Z) :=
  if decide (token = str "?" ∨ token = str "??" ∨ token = str "**") then Some None
  else match token with
       | [c1; c2] =>
           match digit_value c1, digit_value c2 with
           | Some d1, Some d2 => Some (Some (16 * d1 + d2))
           | _, _ => None
           end
       | _ => None
       end.

(** ** Parsing *)

Definition extend (p : AobPattern) (pos : list (option Z)) : AobPattern :=
  mkAobPattern (aob_bytes p ++ aob_bytes (of_positions pos))
    (aob_exact p ++ aob_exact (of_positions pos)).

Lemma extend_extend p pos1 pos2 : extend (extend p pos1) pos2 = extend p (pos1 ++ pos2).
Proof. unfold extend, of_positions. simpl. by rewrite !fmap_app, !app_assoc. Qed.
Lemma extend_nil p : extend p [] = p.
Proof. destruct p. unfold extend. simpl. by rewrite !app_nil_r. Qed.
Lemma extend_empty pos : extend (mkAobPattern [] []) pos = of_positions pos.
Proof. done. Qed.
Lemma Size_extend p pos : Size (extend p pos) = Size p + sizeZ pos.
Proof. unfold Size, extend. simpl. rewrite sizeZ_app. unfold sizeZ. by rewrite length_fmap. Qed.

Lemma digit_value_lt16 c d : digit_value c = Some d → 0 ≤ d < 16.
Proof. unfold digit_value. intros H. repeat case_match; simplify_eq; boolify; lia. Qed.

(** Two characters read as a number in base 16. *)
Lemma from_chars_two c1 c2 :
  let r := from_chars_unsigned 16 u32_max [c1; c2] in
  match digit_value c1, digit_value c2 with
  | Some d1, Some d2 => r = mk_from_chars_result errc_ok (16 * d1 + d2) []
  | _, _ => fc_ec r ≠ errc_ok ∨ fc_ptr r ≠ []
  end.
Proof.
  unfold from_chars_unsigned. simpl.
  destruct (digit_value c1) as [d1|] eqn:E1; [|by left].
  pose proof (digit_value_lt16 _ _ E1). destruct (Z.ltb_spec d1 16); [|lia].
  destruct (digit_value c2) as [d2|] eqn:E2.
  - pose proof (digit_value_lt16 _ _ E2). destruct (Z.ltb_spec d2 16); [|lia].
    unfold digits_value. simpl. destruct (Z.leb_spec ((0 * 16 + d1) * 16 + d2) u32_max); [|lia].
    f_equal. lia.
  - right. by destruct (_ <=? _).
Qed.

Lemma add_token_exact token p q :
  add_token token p = Success q ↔
  Size p < kMaxAobPatternBytes ∧ ∃ pos, token_position token = Some pos ∧ q = extend p [pos].
Proof.
  unfold add_token, token_position, Size.
  destruct (Z.leb_spec kMaxAobPatternBytes (sizeZ (aob_bytes p))).
  { split; [done|]. intros [? _]. lia. }
  destruct (decide _) as [Ht|Ht].
  { replace (_ || _) with true.
    2:{ symmetry. rewrite !orb_true_iff, !bool_decide_eq_true. tauto. }
    split; [intros [= <-]; split; [done|]; by exists None|by intros (_ & ? & [= <-] & ->)]. }
  replace (bool_decide _ || _ || _) with false.
  2:{ symmetry. rewrite !orb_false_iff, !bool_decide_eq_false. tauto. }
  destruct token as [|c1 [|c2 [|c3 token]]].
  1,2: split; [done|]; by intros (_ & ? & ? & _).
  2:{ replace (sizeZ (c1 :: c2 :: c3 :: token) =? 2) with false
        by (symmetry; apply Z.eqb_neq; unfold sizeZ; simpl; lia).
      split; [done|]. by intros (_ & ? & ? & _). }
  change (sizeZ [c1; c2] =? 2) with true. cbn [negb].
  pose proof (from_chars_two c1 c2) as Hf. cbv zeta in Hf.
  destruct (digit_value c1) as [d1|] eqn:E1, (digit_value c2) as [d2|] eqn:E2.
  2-4: destruct Hf as [Hf|Hf];
    [rewrite (bool_decide_eq_false_2 _ Hf)|rewrite (bool_decide_eq_false_2 _ Hf)];
    rewrite ?orb_true_r; simpl; (split; [done|]; by intros (_ & ? & ? & _)).
  rewrite Hf. simpl. apply digit_value_lt16 in E1, E2.
  destruct (Z.ltb_spec 255 (16 * d1 + d2)); [lia|].
  replace (u8 (16 * d1 + d2)) with (16 * d1 + d2) by (unfold u8; rewrite Z.mod_small; lia).
  split; [intros [= <-]; split; [done|]; by exists (Some (16 * d1 + d2))|].
  by intros (_ & ? & [= <-] & ->).
Qed.

Fixpoint add_tokens (ts : list chars) (p : AobPattern) : Result AobPattern :=
  match ts with
  | [] => Success p
  | t :: ts => match add_token t p with Failure e => Failure e | Success p => add_tokens ts p end
  end.

Lemma add_tokens_exact ts p q :
  add_tokens ts p = Success q ↔
  (ts = [] ∨ Size p + sizeZ ts ≤ kMaxAobPatternBytes) ∧
  ∃ pos, mapM token_position ts = Some pos ∧ q = extend p pos.
Proof.
  revert p. induction ts as [|t ts IH]; intros p; simpl.
  - split; [intros [= <-]; split; [by left|]; exists []; by rewrite extend_nil|].
    intros (_ & ? & [= <-] & ->). by rewrite extend_nil.
  - assert (sizeZ (t :: ts) = 1 + sizeZ ts) as Hs by (unfold sizeZ; simpl; lia).
    pose proof (sizeZ_nonneg ts). split.
    + destruct (add_token t p) as [p1|] eqn:Ha; [|done].
      apply add_token_exact in Ha as (Hc & pos & Ht & ->). rewrite IH, Size_extend.
      intros (Hcap & rest & Hr & ->). change (sizeZ [pos]) with 1 in Hcap.
      split.
      * right. destruct Hcap as [->|]; [change (sizeZ (A:=chars) []) with 0 in *|]; lia.
      * exists (pos :: rest). rewrite Ht. simpl. rewrite Hr. simpl. by rewrite extend_extend.
    + intros ([?|Hcap] & pos & Hm & ->); [done|].
      apply bind_Some in Hm as (x & Ht & (rest & Hr & [= <-])%bind_Some).
      rewrite (proj2 (add_token_exact t p (extend p [x]))).
      2:{ split; [lia|]. by exists x. }
      apply IH. rewrite Size_extend. change (sizeZ [x]) with 1.
      split; [right; lia|]. exists rest. by rewrite extend_extend.
Qed.

(** ** Tokens *)

Lemma skip_spaces_app spaces text :
  forallb isspace spaces = true → skip_spaces (spaces ++ text) = skip_spaces text.
Proof.
  induction spaces as [|c spaces IH]; [done|]. simpl. intros [Hc Hs]%andb_true_iff.
  rewrite Hc. by apply IH.
Qed.
Lemma take_token_app token rest :
  forallb (λ c, negb (isspace c)) token = true →
  match rest with c :: _ => isspace c = true | [] => True end →
  take_token (token ++ rest) = (token, rest).
Proof.
  intros Ht Hr. induction token as [|c token IH]; simpl in *.
  - destruct rest as [|c rest]; [done|]. simpl. by rewrite Hr.
  - apply andb_true_iff in Ht as [Hc Ht]. apply negb_true_iff in Hc. by rewrite Hc, IH.
Qed.
Lemma solid_head token rest :
  token ≠ [] → forallb (λ c, negb (isspace c)) token = true →
  skip_spaces (token ++ rest) = token ++ rest ∧ token ++ rest ≠ [].
Proof.
  destruct token as [|c token]; [done|]. simpl. intros _ [Hc _]%andb_true_iff.
  apply negb_true_iff in Hc. by rewrite Hc.
Qed.

Lemma parse_loop_tokens text ts fuel p :
  tokens_of text ts → (List.length text < fuel)%nat → parse_loop fuel text p = add_tokens ts p.
Proof.
  intros Ht. revert fuel p.
  induction Ht as [spaces Hs|spaces token Hs Hne Htok|spaces token c rest ts Hs Hne Htok Hc Ht IH];
    intros [|fuel] p Hf; try lia; cbn [parse_loop add_tokens].
  - rewrite <- (app_nil_r spaces), skip_spaces_app by done. done.
  - rewrite skip_spaces_app by done.
    destruct (solid_head token [] Hne Htok) as [Hsk Hn]. rewrite app_nil_r in Hsk, Hn.
    rewrite Hsk. pose proof (take_token_app token [] Htok I) as Htk. rewrite app_nil_r in Htk.
    destruct token as [|c token]; [done|]. rewrite Htk.
    destruct (add_token _ p); [|done]. by destruct fuel.
  - rewrite skip_spaces_app by done.
    destruct (solid_head token (c :: rest) Hne Htok) as [-> Hn].
    pose proof (take_token_app token (c :: rest) Htok Hc) as Htk.
    destruct (token ++ c :: rest) as [|c' l] eqn:E; [done|]. rewrite Htk.
    destruct (add_token _ p); [|done]. apply IH.
    rewrite !length_app in Hf. pose proof (f_equal List.length E) as El. simpl in *.
    rewrite length_app in El. destruct token; simpl in *; [done|lia].
Qed.

Lemma skip_spaces_split text :
  ∃ spaces, text = spaces ++ skip_spaces text ∧ forallb isspace spaces = true ∧
    match skip_spaces text with c :: _ => isspace c = false | [] => True end.
Proof.
  induction text as [|c text (spaces & E & Hs & Hh)]; [by exists []|]. simpl.
  destruct (isspace c) eqn:Hc; [|by exists []].
  exists (c :: spaces). simpl. rewrite Hc. split_and!; [by f_equal|done|done].
Qed.
Lemma take_token_split text :
  let '(token, rest) := take_token text in
  text = token ++ rest ∧ forallb (λ c, negb (isspace c)) token = true ∧
    match rest with c :: _ => isspace c = true | [] => True end.
Proof.
  induction text as [|c text IH]; [done|]. simpl. destruct (isspace c) eqn:Hc; [done|].
  destruct (take_token text) as [token rest]. destruct IH as (-> & Ht & Hr).
  split_and!; [done| |done]. simpl. by rewrite Hc.
Qed.

Lemma tokens_exist text : ∃ ts, tokens_of text ts.
Proof.
  remember (List.length text) as n eqn:Hn. revert text Hn.
  induction n as [n IH] using lt_wf_ind. intros text ->.
  destruct (skip_spaces_split text) as (spaces & E & Hs & Hh).
  pose proof (take_token_split (skip_spaces text)) as Ht.
  destruct (take_token (skip_spaces text)) as [token rest] eqn:Etok.
  destruct Ht as (E' & Ht & Hr).
  assert (skip_spaces text = [] ∨ token ≠ []) as [Hnil|Hne].
  { destruct (skip_spaces text) as [|c l]; [by left|right]. simpl in Etok. rewrite Hh in Etok.
    destruct (take_token l). by simplify_eq. }
  { rewrite Hnil, app_nil_r in E. rewrite E. exists []. by constructor. }
  rewrite E' in E. destruct rest as [|c rest].
  - exists [token]. rewrite E, app_nil_r. by constructor.
  - destruct (IH (List.length (c :: rest))) with (text := c :: rest) as [ts Hts]; [|done|].
    + rewrite E, !length_app. destruct token; simpl; [done|lia].
    + exists (token :: ts). rewrite E. by constructor.
Qed.

(** Pattern texts mean what they look like: a text splits into the tokens
    between white space, and [ParseAobPattern] accepts it just when there is a
    token, there are no more than the cap, and every one is a wildcard or two hex
    digits; the pattern then has exactly the positions the tokens denote, in order.
    In particular the scanning loop never runs out of rounds. *)
Theorem ParseAobPattern_exact text :
  ∃ ts, tokens_of text ts ∧ ∀ p,
    ParseAobPattern text = Success p ↔
    0 < sizeZ ts ≤ kMaxAobPatternBytes ∧
    ∃ pos, mapM token_position ts = Some pos ∧ p = of_positions pos.
Proof.
  destruct (tokens_exist text) as [ts Hts]. exists ts. split; [done|]. intros p.
  unfold ParseAobPattern. rewrite (parse_loop_tokens _ _ _ _ Hts) by lia.
  assert (∀ pos, mapM token_position ts = Some pos → Empty (of_positions pos) = bool_decide (ts = []))
    as Hemp.
  { intros pos Hm%length_mapM. unfold Empty. apply bool_decide_ext. simpl.
    rewrite <- !length_zero_iff_nil, length_fmap. by rewrite Hm. }
  split.
  - destruct (add_tokens ts _) as [q|] eqn:Ha; [|done].
    apply add_tokens_exact in Ha as (Hc & pos & Hm & ->). rewrite extend_empty.
    rewrite (Hemp _ Hm). case_bool_decide as Hnil; [done|]. intros Hq.
    assert (p = of_positions pos) as -> by congruence.
    destruct Hc as [?|Hc]; [done|]. change (Size _) with 0 in Hc.
    split; [|by exists pos]. destruct ts; [done|]. unfold sizeZ in *. simpl in *. lia.
  - intros (Hc & pos & Hm & ->).
    rewrite (proj2 (add_tokens_exact ts (mkAobPattern [] []) (of_positions pos))).
    + rewrite (Hemp _ Hm), bool_decide_eq_false_2; [done|]. intros ->. unfold sizeZ in Hc. simpl in Hc. lia.
    + change (Size (mkAobPattern [] [])) with 0. split; [right; lia|]. by exists pos.
Qed.

(** ** Matching *)

Lemma matches_loop_exact bytes exact input :
  List.length exact = List.length bytes → (List.length bytes ≤ List.length input)%nat →
  matches_loop bytes exact input = true ↔
  ∀ i byte, positions (mkAobPattern bytes exact) !! i = Some (Some byte) → input !! i = Some byte.
Proof.
  unfold positions. simpl. revert exact input.
  induction bytes as [|y bytes IH]; intros [|ex exact] [|x input] Hl Hn; simpl in *; try lia.
  1,2: split; [intros _ i ? Hi; by rewrite lookup_nil in Hi|done].
  injection Hl as Hl. apply le_S_n in Hn. specialize (IH exact input Hl Hn).
  destruct (ex && negb (x =? y)) eqn:E.
  - split; [done|]. intros Hall. boolify. subst. specialize (Hall O y eq_refl). simpl in Hall.
    congruence.
  - rewrite IH. split.
    + intros Hall [|i] byte; simpl; [|apply Hall]. destruct ex; [|done]. intros [= ->].
      simpl in E. apply negb_false_iff, Z.eqb_eq in E. by rewrite E.
    + intros Hall i byte. apply (Hall (S i)).
Qed.

(** A parsed pattern matches an input exactly when the input is at least as
    long and agrees with the pattern at every position that is not a wildcard. *)
Theorem Matches_exact pos input :
  Matches (of_positions pos) input = true ↔
  sizeZ pos ≤ sizeZ input ∧
  ∀ i byte, pos !! i = Some (Some byte) → input !! i = Some byte.
Proof.
  unfold Matches. assert (sizeZ (aob_bytes (of_positions pos)) = sizeZ pos) as Hb.
  { unfold sizeZ. simpl. by rewrite length_fmap. }
  assert (sizeZ (aob_exact (of_positions pos)) = sizeZ pos) as He.
  { unfold sizeZ. simpl. by rewrite length_fmap. }
  rewrite Hb, He, Z.eqb_refl. cbn [negb orb].
  destruct (Z.ltb_spec (sizeZ input) (sizeZ pos)); [split; [done|lia]|].
  rewrite matches_loop_exact.
  2,3: unfold sizeZ in *; simpl; rewrite ?length_fmap; lia.
  assert (positions (mkAobPattern (aob_bytes (of_positions pos)) (aob_exact (of_positions pos)))
    = pos) as ->; [|tauto].
  unfold positions. simpl. rewrite zip_with_fmap_l, zip_with_fmap_r. clear.
  induction pos as [|[y|] pos IH]; [done|..]; simpl; by rewrite IH.
Qed.
