(* ===== verification/ValueCodec.v ===== *)
(** [core/scanner/ScanTypes.h] and [core/scanner/ValueCodec]: typed values as text
    and as bytes, and the comparisons of a scan.

    Integers are little-endian two's complement.  [float] and [double] are the
    binary32 and binary64 numbers of the Standard Library's [SpecFloat]; the two
    conversions between them and text, [strtold] and the stream inserter, whose
    [long double] differs between compilers, are the operations of a class. *)

From S2P Require Import Prelude CppStd Common AobPattern.
From Stdlib Require Import SpecFloat.

#[local] Open Scope Z_scope.

(** ** ScanTypes.h *)

Inductive ScanValueType :=
  | Int8 | UInt8 | Int16 | UInt16 | Int32 | UInt32 | Int64 | UInt64
  | Float | Double | Utf8 | Utf16 | ByteArray.

Inductive ScanCompare :=
  | Exact | NotEqual | GreaterThan | LessThan | Between | UnknownInitial
  | Changed | Unchanged | Increased | Decreased | IncreasedBy | DecreasedBy.

#[export] Instance ScanValueType_eq_dec : EqDecision ScanValueType.
Proof. solve_decision. Defined.
#[export] Instance ScanCompare_eq_dec : EqDecision ScanCompare.
Proof. solve_decision. Defined.

Record ScanQuery := mkScanQuery {
  sq_type : ScanValueType;
  comparison : ScanCompare;
  sq_value : chars;
  second_value : chars;
  hexadecimal : bool;
  case_sensitive : bool;
  scan_private : bool;
  scan_image : bool;
  scan_mapped : bool;
  require_writable : bool;
  include_executable : bool;
  alignment : Z;
  max_results : Z;
  chunk_size : Z
}.

#[export] Instance ScanQuery_eta : Eta ScanQuery := fun q =>
  mkScanQuery (sq_type q) (comparison q) (sq_value q) (second_value q) (hexadecimal q)
    (case_sensitive q) (scan_private q) (scan_image q) (scan_mapped q) (require_writable q)
    (include_executable q) (alignment q) (max_results q) (chunk_size q).

Definition default_ScanQuery : ScanQuery :=
  mkScanQuery Int32 Exact [] [] false true true true true false true 0 1000000 (1024 * 1024).

(** ** Integers *)

(** Width in bytes and signedness of the integer types. *)
Definition integer_type (type : ScanValueType) : option (Z * bool) :=
  match type with
  | Int8 => Some (1, true) | UInt8 => Some (1, false)
  | Int16 => Some (2, true) | UInt16 => Some (2, false)
  | Int32 => Some (4, true) | UInt32 => Some (4, false)
  | Int64 => Some (8, true) | UInt64 => Some (8, false)
  | _ => None
  end.

Definition int_lowest (width : Z) (signed : bool) : Z :=
  if signed then - 2 ^ (8 * width - 1) else 0.
Definition int_max (width : Z) (signed : bool) : Z :=
  if signed then 2 ^ (8 * width - 1) - 1 else 2 ^ (8 * width) - 1.

(** The value of a bit pattern, and the bit pattern of a value. *)
Definition int_of_bits (width : Z) (signed : bool) (bits : Z) : Z :=
  if signed && (2 ^ (8 * width - 1) <=? bits) then bits - 2 ^ (8 * width) else bits.
Definition bits_of_int (width v : Z) : Z := v `mod` 2 ^ (8 * width).

Definition from_chars_int (width : Z) (signed : bool) (base : Z) (text : chars)
    : from_chars_result :=
  if signed then from_chars_signed base (int_lowest width true) (int_max width true) text
  else from_chars_unsigned base (int_max width false) text.

Definition starts_with_0x (text : chars) : bool :=
  bool_decide (take 2 text = str "0x") || bool_decide (take 2 text = str "0X").

Definition EncodeInteger (width : Z) (signed : bool) (text : chars) (hexadecimal : bool)
    : Result (list Z) :=
  let '(text, base) :=
    if starts_with_0x text then (drop 2 text, 16) else (text, if hexadecimal then 16 else 10) in
  if bool_decide (text = []) then
    Failure (MakeError ParseError "Numeric scan value is empty" "EncodeInteger")
  else
    let parsed := from_chars_int width signed base text in
    if negb (bool_decide (fc_ec parsed = errc_ok)) || negb (bool_decide (fc_ptr parsed = [])) then
      Failure (MakeError ParseError "Numeric scan value is invalid or out of range"
        "EncodeInteger")
    else Success (le_bytes width (bits_of_int width (fc_value parsed))).

(** ** Floating point *)

(** What the C library decides: the longest prefix of a C string that is a number,
    with its value, what follows it, and whether [errno] was set to [ERANGE]; and
    the text of a value at a number of significant digits. *)
Class FloatText := {
  strtold : chars → spec_float * chars * bool;
  print_float : Z → spec_float → chars
}.

(** Mantissa width with the hidden bit, and the exponent bound. *)
Record FloatFormat := mkFloatFormat { prec : Z; emax : Z; float_width : Z; max_digits10 : Z }.
Definition binary32 : FloatFormat := mkFloatFormat 24 128 4 9.
Definition binary64 : FloatFormat := mkFloatFormat 53 1024 8 17.

Definition isfinite (f : spec_float) : bool :=
  match f with S754_zero _ | S754_finite _ _ _ => true | _ => false end.

(** Comparison of two finite values, whatever their formats. *)
Definition sf_exponent (f : spec_float) : Z :=
  match f with S754_finite _ _ e => e | _ => 0 end.
Definition sf_scaled (f : spec_float) (e0 : Z) : Z :=
  match f with S754_finite s m e => cond_Zopp s (Zpos m) * 2 ^ (e - e0) | _ => 0 end.
Definition finite_ltb (a b : spec_float) : bool :=
  let e0 := Z.min (sf_exponent a) (sf_exponent b) in sf_scaled a e0 <? sf_scaled b e0.

(** [static_cast] to a narrower format rounds to nearest even. *)
Definition float_cast (fmt : FloatFormat) (f : spec_float) : spec_float :=
  match f with
  | S754_finite s m e => binary_normalize (prec fmt) (emax fmt) (cond_Zopp s (Zpos m)) e s
  | _ => f
  end.

(** The IEEE 754 interchange encoding. *)
Definition bits_of_float (fmt : FloatFormat) (f : spec_float) : Z :=
  let mw := prec fmt - 1 in
  let top := 8 * float_width fmt - 1 in
  let sign (s : bool) := if s then 2 ^ top else 0 in
  match f with
  | S754_zero s => sign s
  | S754_infinity s => sign s + (2 ^ top - 2 ^ mw)
  | S754_nan => 2 ^ top - 2 ^ (mw - 1)
  | S754_finite s m e =>
      if Zpos m <? 2 ^ mw then sign s + Zpos m
      else sign s + (e - emin (prec fmt) (emax fmt) + 1) * 2 ^ mw + (Zpos m - 2 ^ mw)
  end.
Definition float_of_bits (fmt : FloatFormat) (bits : Z) : spec_float :=
  let mw := prec fmt - 1 in
  let top := 8 * float_width fmt - 1 in
  let s := Z.testbit bits top in
  let m := bits `mod` 2 ^ mw in
  let ex := (bits `div` 2 ^ mw) `mod` (2 * emax fmt) in
  if ex =? 2 * emax fmt - 1 then (if m =? 0 then S754_infinity s else S754_nan)
  else if ex =? 0 then
    (if m =? 0 then S754_zero s else S754_finite s (Z.to_pos m) (emin (prec fmt) (emax fmt)))
  else S754_finite s (Z.to_pos (m + 2 ^ mw)) (ex + emin (prec fmt) (emax fmt) - 1).

(** A C string ends at its first NUL. *)
Fixpoint c_str (text : chars) : chars :=
  match text with
  | [] => []
  | c :: rest => if char_code c =? 0 then [] else c :: c_str rest
  end.

Definition EncodeFloating `{FloatText} (fmt : FloatFormat) (text : chars) : Result (list Z) :=
  if bool_decide (text = []) || (128 <? sizeZ text) ||
     match head text with Some c => isspace c | None => false end ||
     match last text with Some c => isspace c | None => false end then
    Failure (MakeError ParseError "Floating-point scan value is empty, padded, or too long"
      "EncodeFloating")
  else
    let owned := c_str text in
    let '(parsed, rest, erange) := strtold owned in
    if bool_decide (rest = owned) || negb (bool_decide (rest = [])) || erange ||
       negb (isfinite parsed) ||
       finite_ltb parsed (SFopp (SFmax_float (prec fmt) (emax fmt))) ||
       finite_ltb (SFmax_float (prec fmt) (emax fmt)) parsed then
      Failure (MakeError ParseError "Floating-point scan value is invalid" "EncodeFloating")
    else
      let value := float_cast fmt parsed in
      if negb (isfinite value) then
        Failure (MakeError ParseError "Floating-point scan value is out of range"
          "EncodeFloating")
      else Success (le_bytes (float_width fmt) (bits_of_float fmt value)).

(** ** Text *)

Definition utf_error {T} (msg : string) : Result T :=
  Failure (MakeError ParseError msg "Utf8ToUtf16").

(** The lead byte: the bits it contributes and the length of the sequence. *)
Definition utf8_lead (first : Z) : option (Z * Z) :=
  if Z.land first 0x80 =? 0 then Some (first, 1)
  else if Z.land first 0xE0 =? 0xC0 then Some (Z.land first 0x1F, 2)
  else if Z.land first 0xF0 =? 0xE0 then Some (Z.land first 0x0F, 3)
  else if Z.land first 0xF8 =? 0xF0 then Some (Z.land first 0x07, 4)
  else None.

(** The loop over the continuation bytes. *)
Fixpoint utf8_continue (cp : Z) (bytes : list Z) : option Z :=
  match bytes with
  | [] => Some cp
  | next :: bytes =>
      if Z.land next 0xC0 =? 0x80
      then utf8_continue (Z.lor (u32 (Z.shiftl cp 6)) (Z.land next 0x3F)) bytes
      else None
  end.

Definition utf8_invalid (count cp : Z) : bool :=
  ((count =? 2) && (cp <? 0x80)) || ((count =? 3) && (cp <? 0x800)) ||
  ((count =? 4) && (cp <? 0x10000)) || (0x10FFFF <? cp) ||
  ((0xD800 <=? cp) && (cp <=? 0xDFFF)).

Definition utf16_units (cp : Z) : list Z :=
  if cp <=? 0xFFFF then [cp]
  else
    let cp := cp - 0x10000 in
    [u16 (0xD800 + Z.shiftr cp 10); u16 (0xDC00 + Z.land cp 0x3FF)].

(** The loop over the input; a round consumes at least one byte. *)
Fixpoint utf8_loop (fuel : nat) (input output : list Z) : Result (list Z) :=
  match fuel with
  | O => Failure (MakeError InternalInvariant "" "")
  | S fuel =>
      match input with
      | [] => Success output
      | first :: _ =>
          match utf8_lead first with
          | None => utf_error "Invalid UTF-8 lead byte"
          | Some (cp, n) =>
              if sizeZ input <? n then utf_error "Truncated UTF-8 sequence"
              else
                match utf8_continue cp (slice input 1 (n - 1)) with
                | None => utf_error "Invalid UTF-8 continuation byte"
                | Some cp =>
                    if utf8_invalid n cp then utf_error "Invalid UTF-8 code point"
                    else utf8_loop fuel (drop (Z.to_nat n) input) (output ++ utf16_units cp)
                end
          end
      end
  end.
Definition Utf8ToUtf16 (input : chars) : Result (list Z) :=
  utf8_loop (S (List.length input)) (char_code <$> input) [].

Definition ByteEqual (left right : list Z) : bool := bytes_eqb left right.

Definition FoldAscii (value : Z) : Z :=
  if (65 <=? value) && (value <=? 90) then u8 (value + 32) else value.

(** Pairs of bytes as UTF-16 code units. *)
Fixpoint units_equal (ls rs : list Z) : bool :=
  match ls, rs with
  | l0 :: l1 :: ls, r0 :: r1 :: rs =>
      let fold v := if (65 <=? v) && (v <=? 90) then u16 (v + 32) else v in
      let lhs := Z.lor l0 (Z.shiftl l1 8) in
      let rhs := Z.lor r0 (Z.shiftl r1 8) in
      if negb (fold lhs =? fold rhs) then false else units_equal ls rs
  | _, _ => true
  end.

Definition TextEqual (type : ScanValueType) (left right : list Z) (case_sensitive : bool) : bool :=
  if case_sensitive || negb (sizeZ left =? sizeZ right) then ByteEqual left right
  else
    match type with
    | Utf8 => bytes_eqb (FoldAscii <$> left) (FoldAscii <$> right)
    | Utf16 => if negb (sizeZ left `mod` 2 =? 0) then false else units_equal left right
    | _ => false
    end.

(** ** Typed comparison *)

(** What the templates use of their type parameter. *)
Record ScalarOps := mkScalarOps {
  scalar : Type;
  sc_width : Z;
  sc_of_bits : Z → scalar;
  sc_eqb : scalar → scalar → bool;
  sc_ltb : scalar → scalar → bool;
  sc_leb : scalar → scalar → bool;
  sc_add : scalar → scalar → option scalar;
  sc_sub : scalar → scalar → option scalar
}.

(** [CheckedAdd] and [CheckedSubtract]: their tests, then the exact result. *)
Definition CheckedAdd_int (width : Z) (signed : bool) (left right : Z) : option Z :=
  let max := int_max width signed in
  let lowest := int_lowest width signed in
  if signed then
    if ((0 <? right) && (max - right <? left)) || ((right <? 0) && (left <? lowest - right))
    then None else Some (left + right)
  else if max - right <? left then None else Some (left + right).
Definition CheckedSubtract_int (width : Z) (signed : bool) (left right : Z) : option Z :=
  let max := int_max width signed in
  let lowest := int_lowest width signed in
  if signed then
    if ((0 <? right) && (left <? lowest + right)) || ((right <? 0) && (max + right <? left))
    then None else Some (left - right)
  else if left <? right then None else Some (left - right).

Definition int_ops (width : Z) (signed : bool) : ScalarOps :=
  mkScalarOps Z width (int_of_bits width signed) Z.eqb Z.ltb Z.leb
    (CheckedAdd_int width signed) (CheckedSubtract_int width signed).
Definition float_ops (fmt : FloatFormat) : ScalarOps :=
  mkScalarOps spec_float (float_width fmt) (float_of_bits fmt) SFeqb SFltb SFleb
    (λ a b, Some (SFadd (prec fmt) (emax fmt) a b)) (λ a b, Some (SFsub (prec fmt) (emax fmt) a b)).

Definition scalar_ops (type : ScanValueType) : option ScalarOps :=
  match type with
  | Float => Some (float_ops binary32)
  | Double => Some (float_ops binary64)
  | _ =>
      match integer_type type with Some (w, s) => Some (int_ops w s) | None => None end
  end.

Definition Load (o : ScalarOps) (bytes : list Z) : scalar o :=
  sc_of_bits o
    (if sc_width o <=? sizeZ bytes then le_value (slice bytes 0 (sc_width o)) else 0).

Section Typed.
Context (o : ScalarOps).
Implicit Types a b : scalar o.
Definition sc_min a b := if sc_ltb o b a then b else a.
Definition sc_max a b := if sc_ltb o a b then b else a.
Definition between (value a b : scalar o) : bool :=
  sc_leb o (sc_min a b) value && sc_leb o value (sc_max a b).

Definition MatchInitialTyped (cmp : ScanCompare) (current first second : list Z) : bool :=
  let value := Load o current in
  let a := Load o first in
  let b := Load o second in
  match cmp with
  | Exact => sc_eqb o value a
  | NotEqual => negb (sc_eqb o value a)
  | GreaterThan => sc_ltb o a value
  | LessThan => sc_ltb o value a
  | Between => between value a b
  | UnknownInitial => true
  | _ => false
  end.

Definition MatchNextTyped (cmp : ScanCompare) (previous current first second : list Z) : bool :=
  let old_value := Load o previous in
  let new_value := Load o current in
  let a := Load o first in
  let b := Load o second in
  match cmp with
  | Exact => sc_eqb o new_value a
  | NotEqual => negb (sc_eqb o new_value a)
  | GreaterThan => sc_ltb o a new_value
  | LessThan => sc_ltb o new_value a
  | Between => between new_value a b
  | Changed => negb (sc_eqb o new_value old_value)
  | Unchanged => sc_eqb o new_value old_value
  | Increased => sc_ltb o old_value new_value
  | Decreased => sc_ltb o new_value old_value
  | IncreasedBy =>
      match sc_add o old_value a with Some expected => sc_eqb o new_value expected | None => false end
  | DecreasedBy =>
      match sc_sub o old_value a with Some expected => sc_eqb o new_value expected | None => false end
  | UnknownInitial => true
  end.
End Typed.

(** ** Formatting *)

Definition FormatInteger (width : Z) (signed : bool) (bytes : list Z) (hex : bool) : chars :=
  let value := Load (int_ops width signed) bytes in
  if hex then str "0x" ++ print_number true 16 (bits_of_int width value)
  else if signed && (value <? 0) then str "-" ++ print_number false 10 (- value)
  else print_number false 10 value.

(** [std::setw(n) << std::setfill('0')]. *)
Definition zero_padded (n : Z) (text : chars) : chars :=
  replicate (Z.to_nat (n - sizeZ text)) (digit_char false 0) ++ text.

Fixpoint format_utf16 (bytes : list Z) : chars :=
  match bytes with
  | b0 :: b1 :: rest =>
      let ch := Z.lor b0 (Z.shiftl b1 8) in
      (if (0x20 <=? ch) && (ch <? 0x7F) then [Ascii.ascii_of_N (Z.to_N ch)]
       else str "\u" ++ zero_padded 4 (print_number false 16 ch)) ++ format_utf16 rest
  | _ => []
  end.

Definition format_byte (b : Z) : chars := zero_padded 2 (print_number true 16 b).
Fixpoint format_bytes (bytes : list Z) : chars :=
  match bytes with
  | [] => []
  | [b] => format_byte b
  | b :: rest => format_byte b ++ str " " ++ format_bytes rest
  end.

Definition FixedValueWidth (type : ScanValueType) : Z :=
  match type with
  | Int8 | UInt8 => 1
  | Int16 | UInt16 => 2
  | Int32 | UInt32 | Float => 4
  | Int64 | UInt64 | Double => 8
  | Utf8 | Utf16 | ByteArray => 0
  end.

Section Codec.
Context `{FloatText}.

Definition FormatFloating (fmt : FloatFormat) (bytes : list Z) : chars :=
  print_float (max_digits10 fmt) (Load (float_ops fmt) bytes).

Definition FormatValue (type : ScanValueType) (bytes : list Z) (hexadecimal : bool) : chars :=
  if (sizeZ bytes <? FixedValueWidth type) && negb (FixedValueWidth type =? 0) then str "<short>"
  else
    match type with
    | Float => FormatFloating binary32 bytes
    | Double => FormatFloating binary64 bytes
    | Utf8 => (λ b, Ascii.ascii_of_N (Z.to_N b)) <$> bytes
    | Utf16 => format_utf16 bytes
    | ByteArray => format_bytes bytes
    | _ =>
        match integer_type type with
        | Some (w, s) => FormatInteger w s bytes hexadecimal
        | None => []
        end
    end.

(** ** Encoding *)

Definition kMaxTextValueBytes : Z := 1024 * 1024.

Definition is_text (type : ScanValueType) : bool :=
  bool_decide (type = Utf8) || bool_decide (type = Utf16).

Definition EncodeValue (type : ScanValueType) (text : chars) (hexadecimal : bool)
    : Result (list Z) :=
  if is_text type && (kMaxTextValueBytes <? sizeZ text) then
    Failure (MakeErrorFull LimitReached "Text scan value exceeds the product byte cap"
      "EncodeValue" 0 kMaxTextValueBytes (sizeZ text))
  else
    match type with
    | Float => EncodeFloating binary32 text
    | Double => EncodeFloating binary64 text
    | Utf8 => Success (char_code <$> text)
    | Utf16 =>
        match Utf8ToUtf16 text with
        | Failure e => Failure e
        | Success units =>
            if kMaxTextValueBytes `div` 2 <? sizeZ units then
              Failure (MakeError LimitReached "UTF-16 scan value exceeds the product byte cap"
                "EncodeValue")
            else Success (mjoin (le_bytes 2 <$> units))
        end
    | ByteArray =>
        match ParseAobPattern text with
        | Failure e => Failure e
        | Success p =>
            if bool_decide (false ∈ aob_exact p) then
              Failure (MakeError ParseError "Wildcard AOB cannot be encoded as a concrete value"
                "EncodeValue")
            else Success (aob_bytes p)
        end
    | _ =>
        match integer_type type with
        | Some (w, s) => EncodeInteger w s text hexadecimal
        | None => Failure (MakeError Unsupported "Unsupported value type" "EncodeValue")
        end
    end.

(** ** Queries *)

Record CompiledScanQuery := mkCompiledScanQuery {
  query : ScanQuery;
  width : Z;
  first : list Z;
  second : list Z;
  aob : AobPattern
}.

#[export] Instance CompiledScanQuery_eta : Eta CompiledScanQuery := fun q =>
  mkCompiledScanQuery (query q) (width q) (first q) (second q) (aob q).

Definition no_pattern : AobPattern := mkAobPattern [] [].

Definition compile_error {T} (msg : string) : Result T :=
  Failure (MakeError InvalidArgument msg "CompileScanQuery").

Definition change_only (cmp : ScanCompare) : bool :=
  match cmp with Changed | Unchanged | Increased | Decreased => true | _ => false end.

Definition text_comparison (cmp : ScanCompare) : bool :=
  match cmp with Exact | NotEqual | Changed | Unchanged | UnknownInitial => true | _ => false end.
Definition aob_comparison (cmp : ScanCompare) : bool :=
  match cmp with Exact | NotEqual | Changed | Unchanged => true | _ => false end.

(** The three ways a query gets its operands. *)
Definition compile_operands (q : ScanQuery) : Result CompiledScanQuery :=
  if bool_decide (sq_type q = ByteArray) then
    if negb (aob_comparison (comparison q)) then
      compile_error "AOB scans support exact/not-equal/changed/unchanged comparisons"
    else if bool_decide (sq_value q = []) then
      compile_error "AOB next scans require the original pattern to preserve width"
    else
      match ParseAobPattern (sq_value q) with
      | Failure e => Failure e
      | Success p => Success (mkCompiledScanQuery q (Size p) (aob_bytes p) [] p)
      end
  else if bool_decide (comparison q = UnknownInitial) || change_only (comparison q) then
    let w := FixedValueWidth (sq_type q) in
    if w =? 0 then
      if bool_decide (sq_value q = []) then
        compile_error "Variable-width changed scans require the original value to preserve width"
      else
        match EncodeValue (sq_type q) (sq_value q) (hexadecimal q) with
        | Failure e => Failure e
        | Success original =>
            Success (mkCompiledScanQuery q (sizeZ original) original [] no_pattern)
        end
    else Success (mkCompiledScanQuery q w [] [] no_pattern)
  else
    match EncodeValue (sq_type q) (sq_value q) (hexadecimal q) with
    | Failure e => Failure e
    | Success fst =>
        if sizeZ fst =? 0 then compile_error "Scan value must not be empty"
        else if bool_decide (comparison q = Between) then
          match EncodeValue (sq_type q) (second_value q) (hexadecimal q) with
          | Failure e => Failure e
          | Success snd =>
              if negb (sizeZ snd =? sizeZ fst) then
                compile_error "Between-scan values have different widths"
              else Success (mkCompiledScanQuery q (sizeZ fst) fst snd no_pattern)
          end
        else Success (mkCompiledScanQuery q (sizeZ fst) fst [] no_pattern)
    end.

Definition CompileScanQuery (q : ScanQuery) : Result CompiledScanQuery :=
  if is_text (sq_type q) && negb (text_comparison (comparison q)) then
    compile_error
      "Text scans support exact/not-equal/changed/unchanged/unknown-initial comparisons"
  else
    match compile_operands q with
    | Failure e => Failure e
    | Success c =>
        let align :=
          if alignment q =? 0 then
            if bool_decide (sq_type q = ByteArray) || is_text (sq_type q) then 1 else width c
          else alignment q in
        let chunk := if chunk_size q <? width c then Z.max (width c) 4096 else chunk_size q in
        if max_results q =? 0 then compile_error "max_results must be greater than zero"
        else Success (c <| query := q <| alignment := align |> <| chunk_size := chunk |> |>)
    end.
End Codec.

(** ** Matching *)

Definition MatchByTypeInitial (c : CompiledScanQuery) (current : list Z) : bool :=
  match scalar_ops (sq_type (query c)) with
  | Some o => MatchInitialTyped o (comparison (query c)) current (first c) (second c)
  | None => false
  end.
Definition MatchByTypeNext (c : CompiledScanQuery) (previous current : list Z) : bool :=
  match scalar_ops (sq_type (query c)) with
  | Some o => MatchNextTyped o (comparison (query c)) previous current (first c) (second c)
  | None => false
  end.

Definition text_matches (c : CompiledScanQuery) (current : list Z) : bool :=
  TextEqual (sq_type (query c)) current (first c) (case_sensitive (query c)).

Definition MatchInitialValue (c : CompiledScanQuery) (current : list Z) : bool :=
  if sizeZ current <? width c then false
  else
    let value := slice current 0 (width c) in
    let negate m := if bool_decide (comparison (query c) = NotEqual) then negb m else m in
    match sq_type (query c) with
    | ByteArray => negate (Matches (aob c) value)
    | Utf8 | Utf16 => negate (text_matches c value)
    | _ => MatchByTypeInitial c value
    end.

Definition MatchNextValue (c : CompiledScanQuery) (previous current : list Z) : bool :=
  if (sizeZ previous <? width c) || (sizeZ current <? width c) then false
  else
    let old := slice previous 0 (width c) in
    let value := slice current 0 (width c) in
    match sq_type (query c) with
    | ByteArray | Utf8 | Utf16 =>
        let changed := negb (ByteEqual old value) in
        let matches :=
          if bool_decide (sq_type (query c) = ByteArray) then Matches (aob c) value
          else text_matches c value in
        match comparison (query c) with
        | Changed => changed
        | Unchanged => negb changed
        | Exact => matches
        | NotEqual => negb matches
        | _ => false
        end
    | _ => MatchByTypeNext c old value
    end.
