(* ===== verification/ValueCodecTheorems.v ===== *)
(** Integer values as text and back, and the arithmetic of next scans.

    [Utf8ToUtf16] against the definition of the two encodings. *)

From S2P Require Import Prelude CppStd Common AobPattern ValueCodec.
From Stdlib Require Import SpecFloat.

#[local] Open Scope Z_scope.

(** ** Integers and their bytes *)

Definition int_width (w : Z) : Prop := w = 1 ∨ w = 2 ∨ w = 4 ∨ w = 8.

Lemma integer_type_width type w s : integer_type type = Some (w, s) → int_width w.
Proof. unfold int_width. destruct type; simpl; intros; simplify_eq; auto. Qed.

Definition int_range (w : Z) (s : bool) (v : Z) : Prop := int_lowest w s ≤ v ≤ int_max w s.

(** The powers of two of the four widths. *)
Ltac int_widths H :=
  destruct H as [->|[->|[->| ->]]];
  change (2 ^ (8 * 1)) with 256 in *; change (2 ^ (8 * 1 - 1)) with 128 in *;
  change (2 ^ (8 * 2)) with 65536 in *; change (2 ^ (8 * 2 - 1)) with 32768 in *;
  change (2 ^ (8 * 4)) with 4294967296 in *; change (2 ^ (8 * 4 - 1)) with 2147483648 in *;
  change (2 ^ (8 * 8)) with 18446744073709551616 in *;
  change (2 ^ (8 * 8 - 1)) with 9223372036854775808 in *.

Lemma int_of_bits_range w s bits :
  int_width w → 0 ≤ bits < 2 ^ (8 * w) → int_range w s (int_of_bits w s bits).
Proof.
  intros Hw Hb. unfold int_range, int_lowest, int_max, int_of_bits.
  int_widths Hw; destruct s; cbn [andb]; cbv iota; try lia; case_match; boolify; lia.
Qed.
Lemma bits_of_int_of_bits w s bits :
  int_width w → 0 ≤ bits < 2 ^ (8 * w) → bits_of_int w (int_of_bits w s bits) = bits.
Proof.
  intros Hw Hb. unfold bits_of_int, int_of_bits. pose proof (Z.pow_pos_nonneg 2 (8 * w)) as Hp.
  case_match; [|by apply Z.mod_small].
  rewrite <- Zminus_mod_idemp_r, Z.mod_same, Z.sub_0_r by (unfold int_width in Hw; lia).
  by apply Z.mod_small.
Qed.

(** The value of a fixed-width integer's bytes. *)
Definition int_value (w : Z) (s : bool) (bytes : list Z) : Z := int_of_bits w s (le_value bytes).

Lemma le_value_width w bytes : sizeZ bytes = w → 0 ≤ w → 0 ≤ le_value bytes < 2 ^ (8 * w).
Proof.
  intros <- Hw. pose proof (le_value_range bytes). rewrite Z.pow_mul_r by lia.
  by change (2 ^ 8) with 256.
Qed.
Lemma Load_int w s bytes :
  int_width w → sizeZ bytes = w → Load (int_ops w s) bytes = int_value w s bytes.
Proof.
  intros Hw Hs. unfold Load, int_value. cbn [sc_of_bits sc_width int_ops].
  rewrite (proj2 (Z.leb_le _ _)) by lia. do 2 f_equal. unfold slice. change (Z.to_nat 0) with 0%nat.
  rewrite drop_0, take_ge; [done|]. unfold sizeZ in Hs. lia.
Qed.
Lemma int_value_range w s bytes :
  int_width w → sizeZ bytes = w → int_range w s (int_value w s bytes).
Proof.
  intros Hw Hs. apply int_of_bits_range; [done|]. apply le_value_width; [done|].
  unfold int_width in Hw. lia.
Qed.
Lemma int_value_bytes w s bytes :
  int_width w → sizeZ bytes = w → Forall is_u8 bytes →
  le_bytes w (bits_of_int w (int_value w s bytes)) = bytes.
Proof.
  intros Hw Hs Hb. unfold int_value. rewrite bits_of_int_of_bits; [|done|].
  - rewrite <- Hs. by apply le_bytes_le_value.
  - apply le_value_width; [done|]. unfold int_width in Hw. lia.
Qed.

(** ** Reading back printed integers *)

Lemma print_number_head upper base n :
  2 ≤ base ≤ 16 → 0 ≤ n →
  ∃ d rest, print_number upper base n = digit_char upper d :: rest ∧ 0 ≤ d < base.
Proof.
  intros Hb Hn. unfold print_number.
  replace (Z.to_nat (Z.log2 n + 1)) with (S (Z.to_nat (Z.log2 n)))
    by (pose proof (Z.log2_nonneg n); lia).
  pose proof (zdigits_range (S (Z.to_nat (Z.log2 n))) base n ltac:(lia) Hn) as Hr.
  destruct (zdigits _ base n) as [|d ds] eqn:E; [by apply zdigits_nonempty in E|].
  apply Forall_cons in Hr as [Hd _]. by exists d, (digit_char upper <$> ds).
Qed.

Lemma digit_char_not_minus upper d : 0 ≤ d < 16 → char_code (digit_char upper d) ≠ 45.
Proof.
  intros Hd E. pose proof (digit_value_char upper d Hd) as H. unfold digit_value in H.
  by rewrite E in H.
Qed.

(** [from_chars_int] on digits is the unsigned reading, cut to the type's range. *)
Lemma from_chars_int_print w s upper base n :
  int_width w → 2 ≤ base ≤ 16 → 0 ≤ n →
  let r := from_chars_int w s base (print_number upper base n) in
  if decide (n ≤ int_max w s) then r = mk_from_chars_result errc_ok n []
  else fc_ec r = result_out_of_range.
Proof.
  intros Hw Hb Hn r. subst r. unfold from_chars_int.
  pose proof (from_chars_print upper base n n Hb ltac:(lia)) as Hp.
  unfold from_chars_unsigned in Hp.
  assert (int_lowest w true ≤ 0) by (unfold int_lowest; int_widths Hw; lia).
  destruct s.
  - unfold from_chars_signed.
    destruct (print_number_head upper base n Hb Hn) as (d & rest & E & Hd).
    destruct (print_number upper base n) as [|c text]; [done|].
    assert ((char_code c =? 45) = false) as ->.
    { apply Z.eqb_neq. injection E as -> _. apply digit_char_not_minus. lia. }
    destruct (scan_digits base (c :: text)) as [[|d0 ds] r]; [done|].
    destruct (Z.leb_spec (digits_value base (d0 :: ds)) n); [|done]. injection Hp as -> ->.
    rewrite (proj2 (Z.leb_le (int_lowest w true) n)) by lia. cbn [andb].
    case_decide; [by rewrite (proj2 (Z.leb_le _ _))|]. by rewrite (proj2 (Z.leb_gt _ _)) by lia.
  - unfold from_chars_unsigned.
    destruct (scan_digits base (print_number upper base n)) as [[|d0 ds] r]; [done|].
    destruct (Z.leb_spec (digits_value base (d0 :: ds)) n); [|done]. injection Hp as -> ->.
    case_decide; [by rewrite (proj2 (Z.leb_le _ _))|]. by rewrite (proj2 (Z.leb_gt _ _)) by lia.
Qed.

(** A minus sign and digits. *)
Lemma from_chars_int_negative w n :
  int_width w → 0 < n → int_lowest w true ≤ - n →
  from_chars_int w true 10 (str "-" ++ print_number false 10 n) =
  mk_from_chars_result errc_ok (- n) [].
Proof.
  intros Hw Hn Hl. pose proof (from_chars_print false 10 n n ltac:(lia) ltac:(lia)) as Hp.
  unfold from_chars_int, from_chars_signed, from_chars_unsigned in *. cbn [str String.list_ascii_of_string app].
  change (char_code (Ascii.Ascii true false true true false true false false)) with 45.
  rewrite (Z.eqb_refl 45).
  destruct (scan_digits 10 (print_number false 10 n)) as [[|d0 ds] r]; [done|].
  destruct (Z.leb_spec (digits_value 10 (d0 :: ds)) n); [|done]. injection Hp as -> ->.
  rewrite (proj2 (Z.leb_le (int_lowest w true) (- n))) by lia.
  assert (0 ≤ int_max w true) by (unfold int_max; int_widths Hw; lia).
  by rewrite (proj2 (Z.leb_le _ (int_max w true))) by lia.
Qed.

(** Decimal text has no hexadecimal prefix. *)
Lemma decimal_not_0x n : 0 ≤ n → starts_with_0x (print_number false 10 n) = false.
Proof.
  intros Hn. unfold starts_with_0x, print_number.
  pose proof (zdigits_range (Z.to_nat (Z.log2 n + 1)) 10 n ltac:(lia) Hn) as Hr.
  destruct (zdigits _ 10 n) as [|d [|d2 ds]]; [done|by rewrite !bool_decide_eq_false_2|].
  apply Forall_cons in Hr as [_ [Hd _]%Forall_cons].
  assert (∀ c : Ascii.ascii, digit_value c = None → digit_char false d2 ≠ c) as Hne.
  { intros c Hc E. rewrite <- E, digit_value_char in Hc by lia. done. }
  csimpl. rewrite take_0.
  rewrite !bool_decide_eq_false_2; [done|..]; intros [= _ E]; by eapply Hne; [|exact E].
Qed.

Section Codec.
Context `{FloatText}.

(** [C39] Integer values survive formatting: the decimal text of the bytes of any
    integer type encodes back to the same bytes; so does the hexadecimal text of a
    non-negative value, while the hexadecimal text of a negative value, which is the
    unsigned bit pattern, is rejected as out of range. *)
Theorem integer_format_encode type w s bytes hex :
  integer_type type = Some (w, s) → sizeZ bytes = w → Forall is_u8 bytes →
  EncodeValue type (FormatValue type bytes false) false = Success bytes ∧
  let r := EncodeValue type (FormatValue type bytes true) hex in
  if decide (0 ≤ int_value w s bytes) then r = Success bytes else fails_with ParseError r.
Proof.
  intros Ht Hs Hb. pose proof (integer_type_width _ _ _ Ht) as Hw.
  assert (FixedValueWidth type = w ∧ is_text type = false) as [Hfw Htx].
  { destruct type; simpl in Ht; simplify_eq; done. }
  assert (∀ text h, EncodeValue type text h = EncodeInteger w s text h) as He.
  { intros. unfold EncodeValue. rewrite Htx, Ht. by destruct type. }
  assert (∀ h, FormatValue type bytes h = FormatInteger w s bytes h) as Hf.
  { intros. unfold FormatValue. rewrite Hfw, Hs, Z.ltb_irrefl, Ht. by destruct type. }
  rewrite !He, !Hf. clear He Hf Hfw Htx Ht. unfold FormatInteger.
  rewrite !(Load_int w s bytes) by done. pose proof (int_value_range w s bytes Hw Hs) as Hr.
  pose proof (int_value_bytes w s bytes Hw Hs Hb) as Hv.
  set (v := int_value w s bytes) in *. clearbody v. unfold int_range in Hr. split.
  - destruct (s && (v <? 0)) eqn:Hneg.
    + apply andb_true_iff in Hneg as [-> Hneg%Z.ltb_lt]. unfold EncodeInteger.
      change (starts_with_0x (str "-" ++ print_number false 10 (- v))) with false. cbv iota beta.
      rewrite bool_decide_eq_false_2 by done.
      rewrite from_chars_int_negative by (done || lia). cbn [fc_ec fc_ptr fc_value].
      rewrite !bool_decide_eq_true_2 by done. simpl negb. cbv iota. by rewrite Z.opp_involutive, Hv.
    + assert (0 ≤ v) as Hv0.
      { destruct s; simpl in Hneg; [by apply Z.ltb_ge|]. unfold int_lowest in Hr. lia. }
      unfold EncodeInteger. rewrite decimal_not_0x by done.
      destruct (print_number_head false 10 v ltac:(lia) Hv0) as (d & rest & E & _).
      rewrite bool_decide_eq_false_2 by (rewrite E; done). clear E.
      pose proof (from_chars_int_print w s false 10 v Hw ltac:(lia) Hv0) as Hp.
      rewrite decide_True in Hp by lia. rewrite Hp. cbn [fc_ec fc_ptr fc_value].
      rewrite !bool_decide_eq_true_2 by done. simpl negb. cbv iota. by rewrite Hv.
  - set (u := bits_of_int w v).
    assert (0 ≤ u) as Hu by (apply Z.mod_pos_bound, Z.pow_pos_nonneg; unfold int_width in Hw; lia).
    unfold EncodeInteger.
    assert (starts_with_0x (str "0x" ++ print_number true 16 u) = true) as -> by done.
    change (drop 2 (str "0x" ++ print_number true 16 u)) with (print_number true 16 u).
    destruct (print_number_head true 16 u ltac:(lia) Hu) as (d & rest & E & _).
    rewrite bool_decide_eq_false_2 by (rewrite E; done). clear E.
    pose proof (from_chars_int_print w s true 16 u Hw ltac:(lia) Hu) as Hp. cbv zeta in Hp.
    destruct (decide (0 ≤ v)) as [Hv0|Hv0].
    + assert (u = v) as Euv.
      { unfold u, bits_of_int. apply Z.mod_small. split; [done|].
        unfold int_max in Hr. int_widths Hw; destruct s; lia. }
      rewrite Euv in *. rewrite decide_True in Hp by lia. rewrite Hp.
      cbn [fc_ec fc_ptr fc_value]. rewrite !bool_decide_eq_true_2 by done.
      simpl negb. cbv iota. by rewrite Hv.
    + rewrite decide_False in Hp.
      * rewrite Hp. simpl. done.
      * unfold u, bits_of_int. unfold int_max, int_lowest in *. destruct s; [|lia].
        int_widths Hw; Z.div_mod_to_equations; lia.
Qed.

End Codec.

(** A C library without floating-point support. *)
Definition no_floats : FloatText :=
  {| strtold text := (S754_nan, text, false); print_float _ _ := [] |}.

(** 0xFFD6 is -42 as an [Int16]; 42 survives in hexadecimal, -42 does not. *)
Lemma integer_format_encode_witness :
  EncodeValue (H := no_floats) Int16 (FormatValue (H := no_floats) Int16 [0xD6; 0xFF] false) false =
    Success [0xD6; 0xFF] ∧
  fails_with ParseError
    (EncodeValue (H := no_floats) Int16 (FormatValue (H := no_floats) Int16 [0xD6; 0xFF] true) true).
Proof.
  apply (integer_format_encode (H := no_floats) Int16 2 true [0xD6; 0xFF] true).
  - reflexivity.
  - reflexivity.
  - unfold is_u8. repeat constructor; lia.
Defined.

(** The overflow tests are exact. *)
Lemma CheckedAdd_int_exact w s x y :
  int_range w s x → int_range w s y →
  CheckedAdd_int w s x y = if decide (int_range w s (x + y)) then Some (x + y) else None.
Proof.
  unfold int_range, CheckedAdd_int. intros Hx Hy.
  assert (s = false → int_lowest w s = 0) as Hl by (by intros ->).
  destruct s; [clear Hl|specialize (Hl eq_refl)];
    repeat match goal with |- context [?a <? ?b] => destruct (Z.ltb_spec a b) end; cbn [andb orb]; case_decide; try done; exfalso; lia.
Qed.
Lemma CheckedSubtract_int_exact w s x y :
  int_range w s x → int_range w s y →
  CheckedSubtract_int w s x y = if decide (int_range w s (x - y)) then Some (x - y) else None.
Proof.
  unfold int_range, CheckedSubtract_int. intros Hx Hy.
  assert (s = false → int_lowest w s = 0) as Hl by (by intros ->).
  destruct s; [clear Hl|specialize (Hl eq_refl)];
    repeat match goal with |- context [?a <? ?b] => destruct (Z.ltb_spec a b) end; cbn [andb orb]; case_decide; try done; exfalso; lia.
Qed.



(** ** The encodings *)

(** Unicode scalar values: code points that are not surrogates. *)
Definition scalar_value (cp : Z) : Prop :=
  0 ≤ cp ≤ 0x10FFFF ∧ ¬ (0xD800 ≤ cp ≤ 0xDFFF).

Definition utf8_of (cp : Z) : list Z :=
  if cp <? 0x80 then [cp]
  else if cp <? 0x800 then [0xC0 + cp `div` 64; 0x80 + cp `mod` 64]
  else if cp <? 0x10000 then
    [0xE0 + cp `div` 4096; 0x80 + (cp `div` 64) `mod` 64; 0x80 + cp `mod` 64]
  else
    [0xF0 + cp `div` 262144; 0x80 + (cp `div` 4096) `mod` 64;
     0x80 + (cp `div` 64) `mod` 64; 0x80 + cp `mod` 64].
Definition utf16_of (cp : Z) : list Z :=
  if cp <? 0x10000 then [cp]
  else [0xD800 + (cp - 0x10000) `div` 1024; 0xDC00 + (cp - 0x10000) `mod` 1024].

(** ** The bit tests *)

Lemma u8_check (P : Z → bool) : forallb P (seqZ 0 256) = true → ∀ b, is_u8 b → P b = true.
Proof.
  rewrite forallb_forall. unfold is_u8. intros H b Hb. apply H, list_elem_of_In, elem_of_seqZ. lia.
Qed.

Lemma utf8_lead_spec b :
  is_u8 b →
  utf8_lead b =
    if b <? 0x80 then Some (b, 1) else if b <? 0xC0 then None
    else if b <? 0xE0 then Some (b - 0xC0, 2) else if b <? 0xF0 then Some (b - 0xE0, 3)
    else if b <? 0xF8 then Some (b - 0xF0, 4) else None.
Proof.
  intros Hb. apply (bool_decide_eq_true_1 _).
  revert b Hb. apply u8_check. vm_compute. reflexivity.
Qed.
Lemma utf8_continuation_spec b :
  is_u8 b → (Z.land b 0xC0 =? 0x80) = (0x80 <=? b) && (b <? 0xC0) ∧ Z.land b 0x3F = b `mod` 64.
Proof.
  intros Hb. split; apply (bool_decide_eq_true_1 _); revert b Hb; apply u8_check;
    vm_compute; reflexivity.
Qed.

Lemma shiftl_lor a n x : 0 ≤ n → 0 ≤ x < 2 ^ n → Z.lor (Z.shiftl a n) x = a * 2 ^ n + x.
Proof.
  intros Hn Hx. assert (Z.land (Z.shiftl a n) x = 0) as Hd.
  { apply Z.bits_inj'. intros i Hi. rewrite Z.land_spec, Z.bits_0. destruct (Z.ltb_spec i n).
    - by rewrite Z.shiftl_spec_low by lia.
    - rewrite <- (Z.mod_small x (2 ^ n)), Z.mod_pow2_bits_high by lia. apply andb_false_r. }
  rewrite <- Z.lxor_lor, <- Z.add_nocarry_lxor by done. by rewrite Z.shiftl_mul_pow2.
Qed.

(** One continuation byte appends six bits. *)
Lemma utf8_continue_cons cp b bytes :
  is_u8 b → 0 ≤ cp < 2 ^ 24 →
  utf8_continue cp (b :: bytes) =
    if (0x80 <=? b) && (b <? 0xC0) then utf8_continue (cp * 64 + (b - 0x80)) bytes else None.
Proof.
  intros Hb Hcp. cbn [utf8_continue]. destruct (utf8_continuation_spec b Hb) as [-> ->].
  destruct (Z.leb_spec 0x80 b); [|done]. destruct (Z.ltb_spec b 0xC0); [|done]. cbn [andb]. f_equal.
  rewrite u32_id.
  - rewrite shiftl_lor by (change (2 ^ 6) with 64; Z.div_mod_to_equations; lia).
    change (2 ^ 6) with 64. Z.div_mod_to_equations. lia.
  - unfold is_u32. rewrite Z.shiftl_mul_pow2 by lia. change (2 ^ 6) with 64.
    change (2 ^ 24) with 16777216 in Hcp. lia.
Qed.

Lemma utf16_units_spec cp : scalar_value cp → utf16_units cp = utf16_of cp.
Proof.
  unfold scalar_value, utf16_units, utf16_of. intros [Hcp _].
  destruct (Z.leb_spec cp 0xFFFF), (Z.ltb_spec cp 0x10000); try lia; [done|].
  rewrite Z.shiftr_div_pow2 by lia. change 0x3FF with (Z.ones 10). rewrite Z.land_ones by lia.
  change (2 ^ 10) with 1024. unfold u16. f_equal; [|f_equal]; apply Z.mod_small;
    Z.div_mod_to_equations; lia.
Qed.

(** ** One sequence *)

Lemma slice_tail (a : Z) l rest : slice ((a :: l) ++ rest) 1 (sizeZ (a :: l) - 1) = l.
Proof.
  rewrite sizeZ_cons. replace (1 + sizeZ l - 1) with (sizeZ l) by lia.
  unfold slice, sizeZ. rewrite Nat2Z.id. change (Z.to_nat 1) with 1%nat. simpl.
  apply take_app_length.
Qed.

(** Decide the comparisons that the range of the code point settles. *)
Ltac settle :=
  repeat match goal with
  | |- context [?a <? ?b] =>
      first [rewrite (proj2 (Z.ltb_lt a b)) by (Z.div_mod_to_equations; lia)
            |rewrite (proj2 (Z.ltb_ge a b)) by (Z.div_mod_to_equations; lia)]
  | |- context [?a <=? ?b] =>
      first [rewrite (proj2 (Z.leb_le a b)) by (Z.div_mod_to_equations; lia)
            |rewrite (proj2 (Z.leb_gt a b)) by (Z.div_mod_to_equations; lia)]
  end; cbn [andb orb].
Ltac u8_range := unfold is_u8; change (2 ^ 24) with 16777216; Z.div_mod_to_equations; lia.

Lemma utf8_sequence_decode cp rest :
  scalar_value cp →
  ∃ c0 first, head (utf8_of cp ++ rest) = Some first ∧
    utf8_lead first = Some (c0, sizeZ (utf8_of cp)) ∧
    utf8_continue c0 (slice (utf8_of cp ++ rest) 1 (sizeZ (utf8_of cp) - 1)) = Some cp ∧
    utf8_invalid (sizeZ (utf8_of cp)) cp = false.
Proof.
  intros [Hr Hs]. unfold utf8_of.
  destruct (Z.ltb_spec cp 0x80); [|destruct (Z.ltb_spec cp 0x800);
    [|destruct (Z.ltb_spec cp 0x10000)]];
    rewrite slice_tail; cbn [app head]; eexists _, _; (split; [reflexivity|]);
    (split; [rewrite utf8_lead_spec by u8_range; settle; reflexivity|]);
    (split; [|unfold utf8_invalid; repeat match goal with
       | |- context [?a <? ?b] => destruct (Z.ltb_spec a b)
       | |- context [?a <=? ?b] => destruct (Z.leb_spec a b) end; try done; exfalso; lia]);
    repeat (rewrite utf8_continue_cons by u8_range; settle); cbn [utf8_continue]; f_equal;
    Z.div_mod_to_equations; lia.
Qed.

(** What a successful step consumed. *)
Lemma utf8_sequence_inv first rest c0 n cp :
  Forall is_u8 (first :: rest) → utf8_lead first = Some (c0, n) → n ≤ sizeZ (first :: rest) →
  utf8_continue c0 (slice (first :: rest) 1 (n - 1)) = Some cp → utf8_invalid n cp = false →
  scalar_value cp ∧ first :: rest = utf8_of cp ++ drop (Z.to_nat n) (first :: rest).
Proof.
  intros [Hf Hu]%Forall_cons. rewrite utf8_lead_spec by done. unfold is_u8 in Hf.
  intros Hlead Hn Hc Hi. rewrite sizeZ_cons in Hn.
  assert (∀ c b bytes v, is_u8 b → 0 ≤ c < 2 ^ 24 → utf8_continue c (b :: bytes) = Some v →
    0x80 ≤ b < 0xC0 ∧ utf8_continue (c * 64 + (b - 0x80)) bytes = Some v) as Hcons.
  { intros c b bytes v Hb Hc0. rewrite utf8_continue_cons by done.
    destruct (Z.leb_spec 0x80 b); [|done]. destruct (Z.ltb_spec b 0xC0); [|done]. done. }
  change (2 ^ 24) with 16777216 in Hcons. unfold utf8_invalid in Hi.
  rewrite !orb_false_iff, !andb_false_iff, !Z.ltb_ge, !Z.leb_gt in Hi.
  destruct Hi as ((((Hi2 & Hi3) & Hi4) & Hi5) & Hi6). unfold scalar_value.
  destruct (Z.ltb_spec first 0x80); [|destruct (Z.ltb_spec first 0xC0); [done|]].
  { injection Hlead as <- <-. change (slice (first :: rest) 1 (1 - 1)) with (@nil Z) in Hc.
    injection Hc as <-. split; [lia|]. unfold utf8_of. settle. done. }
  destruct (Z.ltb_spec first 0xE0); [|destruct (Z.ltb_spec first 0xF0);
    [|destruct (Z.ltb_spec first 0xF8); [|done]]]; injection Hlead as <- <-.
  - destruct rest as [|b1 rest]; [change (sizeZ (@nil Z)) with 0 in Hn; lia|].
    change (slice (first :: b1 :: rest) 1 (2 - 1)) with [b1] in Hc.
    apply Forall_cons in Hu as [Hb1 Hu].
    apply Hcons in Hc as [R1 Hc]; [|done|lia]. injection Hc as <-.
    destruct Hi2 as [Hi2|Hi2]; [done|].
    split; [lia|]. unfold utf8_of. settle. change (Z.to_nat 2) with 2%nat. simpl drop. cbn [app].
    rewrite drop_0. f_equal; [Z.div_mod_to_equations; lia|]. f_equal. Z.div_mod_to_equations; lia.
  - destruct rest as [|b1 [|b2 rest]]; [unfold sizeZ in Hn; simpl in Hn; lia..|].
    change (slice (first :: b1 :: b2 :: rest) 1 (3 - 1)) with [b1; b2] in Hc.
    apply Forall_cons in Hu as [Hb1 [Hb2 Hu]%Forall_cons].
    apply Hcons in Hc as [R1 Hc]; [|done|lia].
    apply Hcons in Hc as [R2 Hc]; [|done|lia]. injection Hc as <-.
    destruct Hi3 as [Hi3|Hi3]; [done|].
    split; [lia|]. unfold utf8_of. settle. change (Z.to_nat 3) with 3%nat. simpl drop. cbn [app].
    rewrite drop_0. f_equal; [Z.div_mod_to_equations; lia|].
    f_equal; [Z.div_mod_to_equations; lia|]. f_equal. Z.div_mod_to_equations; lia.
  - destruct rest as [|b1 [|b2 [|b3 rest]]]; [unfold sizeZ in Hn; simpl in Hn; lia..|].
    change (slice (first :: b1 :: b2 :: b3 :: rest) 1 (4 - 1)) with [b1; b2; b3] in Hc.
    apply Forall_cons in Hu as [Hb1 [Hb2 [Hb3 Hu]%Forall_cons]%Forall_cons].
    apply Hcons in Hc as [R1 Hc]; [|done|lia].
    apply Hcons in Hc as [R2 Hc]; [|done|lia].
    apply Hcons in Hc as [R3 Hc]; [|done|lia]. injection Hc as <-.
    destruct Hi4 as [Hi4|Hi4]; [done|].
    split; [lia|]. unfold utf8_of. settle. change (Z.to_nat 4) with 4%nat. simpl drop. cbn [app].
    rewrite drop_0. f_equal; [Z.div_mod_to_equations; lia|].
    f_equal; [Z.div_mod_to_equations; lia|]. f_equal; [Z.div_mod_to_equations; lia|].
    f_equal. Z.div_mod_to_equations; lia.
Qed.

(** ** Whole texts *)

Lemma char_codes_u8 text : Forall is_u8 (char_code <$> text).
Proof.
  apply Forall_fmap, Forall_true. intros c. unfold compose, char_code, is_u8.
  pose proof (Ascii.N_ascii_bounded c). lia.
Qed.

Lemma utf8_lead_positive first c0 n : is_u8 first → utf8_lead first = Some (c0, n) → 0 < n.
Proof. intros Hf. rewrite utf8_lead_spec by done. intros. repeat case_match; simplify_eq; lia. Qed.

Lemma utf8_loop_exact fuel input output units :
  (List.length input < fuel)%nat → Forall is_u8 input →
  utf8_loop fuel input output = Success units ↔
  ∃ cps, Forall scalar_value cps ∧ input = mjoin (utf8_of <$> cps) ∧
         units = output ++ mjoin (utf16_of <$> cps).
Proof.
  revert input output. induction fuel as [|fuel IH]; intros input output Hf Hu; [lia|].
  cbn [utf8_loop]. destruct input as [|first rest].
  { split.
    - intros [= <-]. exists []. by rewrite app_nil_r.
    - intros ([|cp cps] & Hs & E & ->); [by rewrite app_nil_r|]. exfalso.
      apply (f_equal List.length) in E. csimpl in E. rewrite length_app in E. unfold utf8_of in E.
      repeat case_match; simpl in E; lia. }
  split.
  - intros H. destruct (utf8_lead first) as [[c0 n]|] eqn:Hl; [|done].
    destruct (Z.ltb_spec (sizeZ (first :: rest)) n); [done|].
    destruct (utf8_continue _ _) as [cp|] eqn:Hc; [|done].
    destruct (utf8_invalid n cp) eqn:Hi; [done|].
    pose proof (utf8_lead_positive _ _ _ (Forall_inv Hu) Hl).
    destruct (utf8_sequence_inv first rest c0 n cp) as [Hs E]; [done..|].
    apply IH in H as (cps & Hs' & E' & ->).
    + exists (cp :: cps). split; [by constructor|]. csimpl. rewrite <- E'. split; [done|].
      rewrite utf16_units_spec by done. by rewrite <- app_assoc.
    + rewrite length_drop. simpl in *. lia.
    + by apply Forall_drop.
  - intros ([|cp cps] & Hs & E & ->); [done|]. apply Forall_cons in Hs as [Hcp Hs]. csimpl in E.
    destruct (utf8_sequence_decode cp (mjoin (utf8_of <$> cps)) Hcp)
      as (c0 & first' & Hh & Hl & Hc & Hi).
    rewrite <- E in Hh, Hc. injection Hh as <-. rewrite Hl.
    assert (sizeZ (first :: rest) = sizeZ (utf8_of cp) + sizeZ (mjoin (utf8_of <$> cps))) as Hsz
      by (by rewrite E, sizeZ_app).
    pose proof (sizeZ_nonneg (mjoin (utf8_of <$> cps))).
    rewrite (proj2 (Z.ltb_ge _ _)) by lia. rewrite Hc, Hi.
    assert (drop (Z.to_nat (sizeZ (utf8_of cp))) (first :: rest) = mjoin (utf8_of <$> cps)) as ->.
    { rewrite E. unfold sizeZ. by rewrite Nat2Z.id, drop_app_length. }
    pose proof (utf8_lead_positive _ _ _ (Forall_inv Hu) Hl) as Hpos.
    apply IH.
    + unfold sizeZ in *. simpl in Hf, Hsz. lia.
    + rewrite E in Hu. by apply Forall_app in Hu as [_ ?].
    + exists cps. split; [done|]. split; [done|]. csimpl. rewrite utf16_units_spec by done.
      by rewrite app_assoc.
Qed.

(** [C38] The transcoder is exact: [Utf8ToUtf16] accepts a text exactly when it is the
    UTF-8 encoding of a sequence of Unicode scalar values (no overlong forms, no
    surrogates, nothing above U+10FFFF, nothing truncated), and the result is the
    UTF-16 encoding of that sequence. *)
Theorem Utf8ToUtf16_exact text units :
  Utf8ToUtf16 text = Success units ↔
  ∃ cps, Forall scalar_value cps ∧ char_code <$> text = mjoin (utf8_of <$> cps) ∧
         units = mjoin (utf16_of <$> cps).
Proof.
  unfold Utf8ToUtf16. rewrite utf8_loop_exact.
  - done.
  - rewrite length_fmap. lia.
  - apply char_codes_u8.
Qed.
