(* ===== verification/MemoryScanner.v ===== *)
(** [core/scanner/MemoryScanner]: first scans over the regions of a process and next
    scans over the candidates found so far. *)

From S2P Require Import Prelude CppStd Common ProcessMemory AobPattern ValueCodec.

#[local] Open Scope Z_scope.

(** ** Data *)

Record ScanCandidate := mkScanCandidate {
  sc_address : Z; sc_previous : list Z; sc_current : list Z }.

#[export] Instance ScanCandidate_eq_dec : EqDecision ScanCandidate.
Proof. solve_decision. Defined.

Record ScanReadReport := mkScanReadReport {
  items_attempted : Z;
  items_completed : Z;
  items_skipped : Z;
  requested_bytes : Z;
  completed_bytes : Z;
  failed_reads : Z;
  short_reads : Z;
  partial : bool;
  cancelled : bool;
  first_error : Error
}.

#[export] Instance ScanReadReport_eta : Eta ScanReadReport := fun r =>
  mkScanReadReport (items_attempted r) (items_completed r) (items_skipped r) (requested_bytes r)
    (completed_bytes r) (failed_reads r) (short_reads r) (partial r) (cancelled r)
    (first_error r).

Definition no_error : Error := MakeError None_ "" "".
Definition empty_report : ScanReadReport := mkScanReadReport 0 0 0 0 0 0 0 false false no_error.

Record ScanSummary := mkScanSummary {
  result_count : Z; summary_bytes_scanned : Z; summary_truncated : bool }.

Definition kMaxResults : Z := 2000000.
Definition kMaxScanChunkBytes : Z := 16 * 1024 * 1024.
Definition kMaxQueryTextBytes : Z := 4 * 1024 * 1024.
Definition kMaxValueWidth : Z := 1024 * 1024.
Definition kMaxCandidateBytes : Z := 512 * 1024 * 1024.
Definition kMaxNextScanReadAmplification : Z := 16.

Record MemoryScanner := mkMemoryScanner {
  candidates_ : list ScanCandidate;
  active_query_ : CompiledScanQuery;
  has_scan_ : bool;
  generation_ : Z;
  last_read_report_ : ScanReadReport
}.

#[export] Instance MemoryScanner_eta : Eta MemoryScanner := fun s =>
  mkMemoryScanner (candidates_ s) (active_query_ s) (has_scan_ s) (generation_ s)
    (last_read_report_ s).

Definition empty_compiled : CompiledScanQuery :=
  mkCompiledScanQuery default_ScanQuery 0 [] [] no_pattern.
Definition make_MemoryScanner : MemoryScanner :=
  mkMemoryScanner [] empty_compiled false 0 empty_report.

Definition scanner_Reset (s : MemoryScanner) : MemoryScanner :=
  mkMemoryScanner [] empty_compiled false (u64 (generation_ s + 1)) empty_report.

Definition ActiveQuery (s : MemoryScanner) : option CompiledScanQuery :=
  if has_scan_ s then Some (active_query_ s) else None.

(** ** Counters and reports *)

(** [AddProgressBytes] and [AddReportBytes]: saturating addition. *)
Definition AddBytes (total amount : Z) : Z :=
  if u64_max - total <? amount then u64_max else total + amount.

Definition PreserveFirstError (e : Error) (r : ScanReadReport) : ScanReadReport :=
  if bool_decide (code (first_error r) = None_) then r <| first_error := e |> else r.

Definition cancel_error (operation : string) : Error :=
  MakeError Cancelled "Memory scan was cancelled" operation.

Definition MarkCancelled (operation : string) (r : ScanReadReport) : ScanReadReport :=
  PreserveFirstError (cancel_error operation) (r <| cancelled := true |> <| partial := true |>).

(** An attempted item; one that was read; one whose read failed or was short. *)
Definition attempt (amount : Z) (r : ScanReadReport) : ScanReadReport :=
  r <| items_attempted := u64 (items_attempted r + 1) |>
    <| requested_bytes := AddBytes (requested_bytes r) amount |>.
Definition read_completed (amount : Z) (r : ScanReadReport) : ScanReadReport :=
  r <| completed_bytes := AddBytes (completed_bytes r) amount |>.
Definition item_completed (r : ScanReadReport) : ScanReadReport :=
  r <| items_completed := u64 (items_completed r + 1) |>.
Definition read_failed (e : Error) (r : ScanReadReport) : ScanReadReport :=
  PreserveFirstError e
    (r <| items_skipped := u64 (items_skipped r + 1) |>
       <| failed_reads := u64 (failed_reads r + 1) |> <| partial := true |>).
Definition read_short (e : Error) (r : ScanReadReport) : ScanReadReport :=
  PreserveFirstError e
    (r <| items_skipped := u64 (items_skipped r + 1) |>
       <| short_reads := u64 (short_reads r + 1) |> <| partial := true |>).

(** ** Limits *)

Definition ValidateQueryLimits (q : ScanQuery) : Result unit :=
  if (max_results q =? 0) || (kMaxResults <? max_results q) then
    Failure (MakeErrorFull LimitReached "Scan result limit is zero or exceeds the core cap"
      "MemoryScanner::ValidateQueryLimits" 0 kMaxResults (max_results q))
  else if (chunk_size q =? 0) || (kMaxScanChunkBytes <? chunk_size q) then
    Failure (MakeErrorFull LimitReached "Scan chunk size is zero or exceeds the core cap"
      "MemoryScanner::ValidateQueryLimits" 0 kMaxScanChunkBytes (chunk_size q))
  else if (kMaxQueryTextBytes <? sizeZ (sq_value q)) ||
          (kMaxQueryTextBytes <? sizeZ (second_value q)) then
    Failure (MakeError LimitReached "Scan query text exceeds the core cap"
      "MemoryScanner::ValidateQueryLimits")
  else Success tt.

Definition ValidateCompiledLimits (c : CompiledScanQuery) : Result unit :=
  if (width c =? 0) || (kMaxValueWidth <? width c) then
    Failure (MakeErrorFull LimitReached "Scan value width is zero or exceeds the core cap"
      "MemoryScanner::ValidateCompiledLimits" 0 kMaxValueWidth (width c))
  else
    let bytes_per_candidate := width c * 2 in
    if kMaxCandidateBytes `div` bytes_per_candidate <? max_results (query c) then
      Failure (MakeError LimitReached "Scan candidate payload budget exceeds the core cap"
        "MemoryScanner::ValidateCompiledLimits")
    else Success tt.

(** The checks both scans start with. *)
Definition compile_checked `{FloatText} (q : ScanQuery) : Result CompiledScanQuery :=
  match ValidateQueryLimits q with
  | Failure e => Failure e
  | Success _ =>
      match CompileScanQuery q with
      | Failure e => Failure e
      | Success c =>
          match ValidateCompiledLimits c with Failure e => Failure e | Success _ => Success c end
      end
  end.

Definition kMemPrivate : Z := 0x00020000.
Definition kMemMapped : Z := 0x00040000.
Definition kMemImage : Z := 0x01000000.

Definition RegionAllowed (region : MemoryRegion) (q : ScanQuery) : bool :=
  if negb (region_committed region) || negb (region_readable region) || region_guard region ||
     (region_size region =? 0) then false
  else if require_writable q && negb (region_writable region) then false
  else if negb (include_executable q) && region_executable region then false
  else if (region_type region =? kMemPrivate) && negb (scan_private q) then false
  else if (region_type region =? kMemMapped) && negb (scan_mapped q) then false
  else if (region_type region =? kMemImage) && negb (scan_image q) then false
  else true.

(** ** First scans

    What a scan changes as it runs: the process it reads, the candidates found,
    the bytes scanned, the read report, and how often the stop token was asked.
    Progress callbacks only observe the scan. *)

Record ScanState (P : Type) := mkScanState {
  st_memory : P;
  st_output : list ScanCandidate;
  st_bytes_scanned : Z;
  st_report : ScanReadReport;
  st_polls : nat
}.
Arguments mkScanState {P}.
Arguments st_memory {P}.
Arguments st_output {P}.
Arguments st_bytes_scanned {P}.
Arguments st_report {P}.
Arguments st_polls {P}.

#[export] Instance ScanState_eta P : Eta (ScanState P) := fun s =>
  mkScanState (st_memory s) (st_output s) (st_bytes_scanned s) (st_report s) (st_polls s).

Section Scan.
Context {P : Type} `{IProcessMemory P} (stop : nat → bool).
Implicit Types st : ScanState P.

Definition polled (st : ScanState P) : ScanState P := st <| st_polls := S (st_polls st) |>.
Definition with_report (f : ScanReadReport → ScanReadReport) (st : ScanState P) : ScanState P :=
  st <| st_report := f (st_report st) |>.

(** A scan step ends with an error, or says whether the result limit was reached. *)
Definition cancel {T} (operation : string) (st : ScanState P) : Result T * ScanState P :=
  (Failure (cancel_error operation), with_report (MarkCancelled operation) (polled st)).

(** The loop over the offsets of one window, which starts at [window_base] with
    [carried] bytes of the chunk before. *)
Fixpoint window_loop (fuel : nat) (region : MemoryRegion) (c : CompiledScanQuery)
    (window : list Z) (window_base carried offset counter : Z) (st : ScanState P)
    : Result bool * ScanState P :=
  match fuel with
  | O => (Failure (MakeError InternalInvariant "" ""), st)
  | S fuel =>
      if sizeZ window - width c <? offset then (Success false, st)
      else
        let asked := Z.land counter 0x3FF =? 0 in
        if asked && stop (st_polls st) then cancel "MemoryScanner::ScanRegion" st
        else
          let st := if asked then polled st else st in
          let continue :=
            window_loop fuel region c window window_base carried
              (u64 (offset + alignment (query c))) (u64 (counter + 1)) in
          let address := u64 (window_base + offset) in
          let region_end := region_base region + region_size region in
          if (address <? region_base region) || (region_end <=? address) ||
             (region_end - address <? width c) then continue st
          else if negb (carried =? 0) && (offset + width c <=? carried) then continue st
          else
            let value := slice window offset (width c) in
            if negb (MatchInitialValue c value) then continue st
            else
              let st :=
                st <| st_output := st_output st ++ [mkScanCandidate address value value] |> in
              if max_results (query c) <=? sizeZ (st_output st) then (Success true, st)
              else continue st
  end.

(** The offsets of a window: from the first aligned address on. *)
Definition scan_window (region : MemoryRegion) (c : CompiledScanQuery) (window : list Z)
    (window_base carried : Z) (st : ScanState P) : Result bool * ScanState P :=
  if sizeZ window <? width c then (Success false, st)
  else
    let remainder := window_base `mod` alignment (query c) in
    let first := if remainder =? 0 then 0 else alignment (query c) - remainder in
    window_loop (S (List.length window)) region c window window_base carried first 0 st.

(** The loop over the chunks of a region; an iteration advances by a chunk or
    reaches the end. *)
Fixpoint chunk_loop (fuel : nat) (region : MemoryRegion) (c : CompiledScanQuery) (chunk cursor : Z)
    (carry : list Z) (st : ScanState P) : Result bool * ScanState P :=
  match fuel with
  | O => (Failure (MakeError InternalInvariant "" ""), st)
  | S fuel =>
      let region_end := region_base region + region_size region in
      if region_end <=? cursor then (Success false, st)
      else if stop (st_polls st) then cancel "MemoryScanner::ScanRegion" st
      else
        let st := polled st in
        let remaining := region_end - cursor in
        let request := Z.min remaining (Z.min chunk u32_max) in
        let st := with_report (attempt request) st in
        match Read cursor (u32 request) (st_memory st) with
        | (Failure e, p) =>
            let st := with_report (read_failed e) (st <| st_memory := p |>) in
            chunk_loop fuel region c chunk (u64 (cursor + request)) [] st
        | (Success bytes, p) =>
            let st := st <| st_memory := p |>
                         <| st_bytes_scanned := AddBytes (st_bytes_scanned st) (sizeZ bytes) |> in
            let st := with_report (read_completed (sizeZ bytes)) st in
            if negb (sizeZ bytes =? request) then
              let e := MakeErrorFull ShortRead "Memory scan returned a short read"
                         "MemoryScanner::ScanRegion" 0 request (sizeZ bytes) in
              (Failure e, with_report (read_short e) st)
            else
              let st := with_report item_completed st in
              let window := carry ++ bytes in
              let window_base := u64 (cursor - sizeZ carry) in
              match scan_window region c window window_base (sizeZ carry) st with
              | (Success false, st) =>
                  let overlap := if 1 <? width c then width c - 1 else 0 in
                  let carry_count := Z.min overlap (sizeZ window) in
                  chunk_loop fuel region c chunk (u64 (cursor + request))
                    (drop (Z.to_nat (sizeZ window - carry_count)) window) st
              | r => r
              end
        end
  end.

Definition ScanRegion (region : MemoryRegion) (c : CompiledScanQuery) (st : ScanState P)
    : Result bool * ScanState P :=
  if (width c =? 0) || (u32_max <? width c) then
    (Failure (MakeError InvalidArgument "Invalid scan width" "MemoryScanner::ScanRegion"), st)
  else if u64_max - region_base region <? region_size region then
    (Failure (MakeError AddressOverflow "Scan region address range overflows"
       "MemoryScanner::ScanRegion"), st)
  else
    let chunk := Z.max (chunk_size (query c)) (width c) in
    chunk_loop (Z.to_nat (region_size region / Z.min chunk u32_max + 2)) region c chunk
      (region_base region) [] st.

Fixpoint scan_regions (regions : list MemoryRegion) (c : CompiledScanQuery) (st : ScanState P)
    : Result bool * ScanState P :=
  match regions with
  | [] => (Success false, st)
  | region :: regions =>
      if stop (st_polls st) then cancel "MemoryScanner::FirstScan" st
      else
        match ScanRegion region c (polled st) with
        | (Success false, st) => scan_regions regions c st
        | r => r
        end
  end.

(** ** Next scans *)

(** The loop that extends a batch: the candidates it takes in, the rest, and the
    end of the batch. *)
Fixpoint extend_batch (c : CompiledScanQuery) (batch_start batch_end count : Z)
    (rest : list ScanCandidate) : list ScanCandidate * list ScanCandidate * Z :=
  match rest with
  | [] => ([], [], batch_end)
  | x :: rest' =>
      let address := sc_address x in
      if (address <? batch_start) || (u64_max - address <? width c) then ([], rest, batch_end)
      else
        let stop_address := address + width c in
        let span := stop_address - batch_start in
        let useful_bytes := (count + 1) * width c in
        if (chunk_size (query c) <? span) ||
           (useful_bytes * kMaxNextScanReadAmplification <? span) then ([], rest, batch_end)
        else
          let '(batch, rest, batch_end) :=
            extend_batch c batch_start (Z.max batch_end stop_address) (count + 1) rest' in
          (x :: batch, rest, batch_end)
  end.

(** The loop over one batch; without batch bytes every candidate is read alone. *)
Fixpoint batch_loop (c : CompiledScanQuery) (batch_start : Z) (batch_bytes : list Z)
    (batch : list ScanCandidate) (st : ScanState P) : Result bool * ScanState P :=
  match batch with
  | [] => (Success false, st)
  | x :: batch =>
      if stop (st_polls st) then cancel "MemoryScanner::NextScan" st
      else
        let st := with_report (attempt (width c)) (polled st) in
        let evaluate (current : list Z) (st : ScanState P) :=
          let st := st <| st_bytes_scanned := AddBytes (st_bytes_scanned st) (width c) |> in
          let st := with_report (read_completed (width c)) (with_report item_completed st) in
          if MatchNextValue c (sc_current x) current then
            let st := st <| st_output := st_output st ++
                              [mkScanCandidate (sc_address x) (sc_current x) current] |> in
            if max_results (query c) <=? sizeZ (st_output st) then (Success true, st)
            else batch_loop c batch_start batch_bytes batch st
          else batch_loop c batch_start batch_bytes batch st in
        if negb (bool_decide (batch_bytes = [])) then
          evaluate (slice batch_bytes (sc_address x - batch_start) (width c)) st
        else
          match Read (sc_address x) (u32 (width c)) (st_memory st) with
          | (Failure e, p) =>
              batch_loop c batch_start batch_bytes batch
                (with_report (read_failed e) (st <| st_memory := p |>))
          | (Success bytes, p) =>
              let st := st <| st_memory := p |> in
              if negb (sizeZ bytes =? width c) then
                let e := MakeErrorFull ShortRead "Next scan returned a short read"
                           "MemoryScanner::NextScan" 0 (width c) (sizeZ bytes) in
                let st :=
                  st <| st_bytes_scanned := AddBytes (st_bytes_scanned st) (sizeZ bytes) |> in
                batch_loop c batch_start batch_bytes batch
                  (with_report (read_short e) (with_report (read_completed (sizeZ bytes)) st))
              else evaluate bytes st
          end
  end.

(** Read a batch of more than one candidate at once; a failed or short batch read is
    dropped. *)
Definition read_batch (batch_start batch_end : Z) (count : nat) (st : ScanState P)
    : list Z * ScanState P :=
  let batch_length := u32 (batch_end - batch_start) in
  if bool_decide (1 < count)%nat then
    match Read batch_start batch_length (st_memory st) with
    | (Success bytes, p) =>
        (if sizeZ bytes =? batch_length then bytes else [], st <| st_memory := p |>)
    | (Failure _, p) => ([], st <| st_memory := p |>)
    end
  else ([], st).

(** The loop over the batches; a batch takes at least one candidate. *)
Fixpoint next_loop (fuel : nat) (c : CompiledScanQuery) (rest : list ScanCandidate)
    (st : ScanState P) : Result bool * ScanState P :=
  match fuel with
  | O => (Failure (MakeError InternalInvariant "" ""), st)
  | S fuel =>
      match rest with
      | [] => (Success false, st)
      | x :: rest =>
          if stop (st_polls st) then cancel "MemoryScanner::NextScan" st
          else
            let st := polled st in
            let batch_start := sc_address x in
            let '(more, rest, batch_end) :=
              extend_batch c batch_start (u64 (batch_start + width c)) 1 rest in
            let '(batch_bytes, st) := read_batch batch_start batch_end (S (List.length more)) st in
            match batch_loop c batch_start batch_bytes (x :: more) st with
            | (Success false, st) => next_loop fuel c rest st
            | r => r
            end
      end
  end.

(** ** The scanner's operations *)

Context `{FloatText}.

Definition scan_error {T} (code : ErrorCode) (msg operation : string) (s : MemoryScanner) (p : P)
    : Result T * MemoryScanner * P :=
  (Failure (MakeError code msg operation), s, p).

(** A scan that ran: on success the candidates and the query are replaced; the read
    report is kept in every case. *)
Definition finish_scan (c : CompiledScanQuery) (r : Result bool * ScanState P) (s : MemoryScanner)
    : Result ScanSummary * MemoryScanner * P :=
  let '(r, st) := r in
  let s := s <| last_read_report_ := st_report st |> in
  match r with
  | Failure e => (Failure e, s, st_memory st)
  | Success truncated =>
      (Success (mkScanSummary (sizeZ (st_output st)) (st_bytes_scanned st) truncated),
       s <| candidates_ := st_output st |> <| active_query_ := c |> <| has_scan_ := true |>
         <| generation_ := u64 (generation_ s + 1) |>, st_memory st)
  end.

Definition FirstScan (q : ScanQuery) (s : MemoryScanner) (p : P)
    : Result ScanSummary * MemoryScanner * P :=
  let s := s <| last_read_report_ := empty_report |> in
  if negb (IsOpen p) then
    scan_error BackendDisconnected "No process is attached" "MemoryScanner::FirstScan" s p
  else
    match compile_checked q with
    | Failure e => (Failure e, s, p)
    | Success c =>
        match Regions p with
        | (Failure e, p) => (Failure e, s, p)
        | (Success regions, p) =>
            let regions := filter (λ r, RegionAllowed r (query c) = true) regions in
            finish_scan c (scan_regions regions c (mkScanState p [] 0 empty_report 0)) s
        end
    end.

Definition NextScan (q : ScanQuery) (s : MemoryScanner) (p : P)
    : Result ScanSummary * MemoryScanner * P :=
  let s := s <| last_read_report_ := empty_report |> in
  if negb (has_scan_ s) then
    scan_error InvalidArgument "Run a first scan before a next scan" "MemoryScanner::NextScan" s p
  else if negb (IsOpen p) then
    scan_error BackendDisconnected "The attached process is no longer available"
      "MemoryScanner::NextScan" s p
  else
    match compile_checked q with
    | Failure e => (Failure e, s, p)
    | Success c =>
        if negb (width c =? width (active_query_ s)) ||
           negb (bool_decide (sq_type (query c) = sq_type (query (active_query_ s)))) then
          scan_error InvalidArgument
            "Next scan must use the same value type and width as the first scan"
            "MemoryScanner::NextScan" s p
        else
          finish_scan c (next_loop (S (List.length (candidates_ s))) c (candidates_ s)
                           (mkScanState p [] 0 empty_report 0)) s
    end.
End Scan.
