(* ===== verification/ReverseMapper.v ===== *)
(** [core/pfn/PageTableReverseMapper] (and the [ProcessUsage] model): finding the
    virtual addresses of selected processes that map a page frame, by walking
    their page tables. *)

From S2P Require Import Prelude CppStd Common X64PageTable MemoryBackend.
From stdpp Require Import gmap sorting.
#[local] Open Scope Z_scope.

(** ** core/model/ProcessUsage.h *)

Inductive MappingConfidence := ConfidenceUnknown | Low | Medium | High.

Record ProcessUsage := mkProcessUsage {
  pu_pid : Z;
  pu_process_name : string;
  pu_virtual_address : Z;
  pu_pte_address : Z;
  pu_page_size : Z;
  pu_mapping_type : string;
  pu_source : string;
  pu_confidence : MappingConfidence;
  pu_shared : bool;
  pu_writable : bool;
  pu_user_accessible : bool;
  pu_no_execute : bool
}.

Record PfnUsageResult := mkPfnUsageResult {
  pur_pfn : Z;
  pur_mappings : list ProcessUsage;
  pur_provider : string
}.

(** ** core/pfn/PageTableReverseMapper.h *)

Record ProcessScanTarget := mkProcessScanTarget {
  pst_pid : Z;
  pst_process_name : string;
  pst_directory_table_base : Z;
  pst_la57 : bool
}.

Record ReverseMapLimits := mkReverseMapLimits {
  max_table_pages : Z;
  max_results : Z;
  include_page_table_pages : bool;
  continue_on_read_error : bool
}.
Definition default_limits : ReverseMapLimits := mkReverseMapLimits 262144 4096 true true.

Definition kPageSize : Z := 0x1000.

Definition ShiftForLevel (level : nat) : Z :=
  match level with
  | 5%nat => 48 | 4%nat => 39 | 3%nat => 30 | 2%nat => 21 | 1%nat => 12 | _ => 0
  end.

Definition NextTableName (level : nat) : string :=
  match level with
  | 5%nat => "page-table: PML4" | 4%nat => "page-table: PDPT"
  | 3%nat => "page-table: PD" | 2%nat => "page-table: PT" | _ => "page-table"
  end.

Definition mapper_Name : string := "selected-process-page-table-scan".

(** [MappingKey]: pid, virtual address, entry address, page size and type. *)
Definition MappingKey : Type := Z * Z * Z * Z * string.
Definition mapping_key (u : ProcessUsage) : MappingKey :=
  (pu_pid u, pu_virtual_address u, pu_pte_address u, pu_page_size u, pu_mapping_type u).

(** [std::tuple]'s [<] on keys: lexicographic, strings by character code. *)
Definition key_lt (a b : MappingKey) : bool :=
  let '(a1, a2, a3, a4, a5) := a in let '(b1, b2, b3, b4, b5) := b in
  (a1 <? b1) || ((a1 =? b1) &&
  ((a2 <? b2) || ((a2 =? b2) &&
  ((a3 <? b3) || ((a3 =? b3) &&
  ((a4 <? b4) || ((a4 =? b4) && String.ltb a5 b5))))))).

Definition mapper_error {T} (c : ErrorCode) (msg : string) : Result T :=
  Failure (MakeError c msg "PageTableReverseMapper::Query").
Definition cancelled_error : Error :=
  MakeError Cancelled "PFN reverse mapping was cancelled" "PageTableReverseMapper::Query".

(** ** The query

    The local variables of [Query] that its closures capture, with the backend;
    [polls] counts the questions put to the stop token. *)

Record QueryState (B : Type) := mkQueryState {
  mappings : list ProcessUsage;
  seen_mappings : gset MappingKey;
  table_pages_read : Z;
  active_path : gset Z;
  polls : nat;
  backend : B
}.
Arguments mkQueryState {B}.
Arguments mappings {B}.
Arguments seen_mappings {B}.
Arguments table_pages_read {B}.
Arguments active_path {B}.
Arguments polls {B}.
Arguments backend {B}.

#[export] Instance QueryState_eta {B} : Eta (QueryState B) := fun s =>
  mkQueryState (mappings s) (seen_mappings s) (table_pages_read s) (active_path s)
    (polls s) (backend s).

(** [std::sort] by key.  The keys of the mappings are distinct, so every sorting
    algorithm gives the same list. *)
Definition usage_le (u v : ProcessUsage) : Prop := key_lt (mapping_key v) (mapping_key u) = false.
#[export] Instance usage_le_dec : RelDecision usage_le.
Proof. intros u v. unfold usage_le. apply _. Defined.
Definition sort_mappings (l : list ProcessUsage) : list ProcessUsage := merge_sort usage_le l.

Section Query.
Context {B : Type} `{IMemoryBackend B}.
(** The stop token: what the [n]-th [stop_requested()] answers. *)
Context (stop : nat → bool).
Context (limits : ReverseMapLimits) (target_pfn : Z).

Abbreviation State := (QueryState B).

Definition poll (s : State) : bool * State := (stop (polls s), s <| polls := S (polls s) |>).

Definition append_mapping (usage : ProcessUsage) (s : State) : Result unit * State :=
  let key := mapping_key usage in
  if bool_decide (key ∈ seen_mappings s) then (Success tt, s)
  else if max_results limits <=? sizeZ (mappings s) then
    (Failure (MakeErrorFull LimitReached "PFN reverse mapping reached the result limit"
       "PageTableReverseMapper::Query" 0 (max_results limits) (sizeZ (mappings s) + 1)), s)
  else
    (Success tt, s <| seen_mappings := {[key]} ∪ seen_mappings s |>
                   <| mappings := mappings s ++ [usage] |>).

(** The loops' view of one process: its scan target, with the table base found. *)
Section Walk.
Context (target : ProcessScanTarget).

Definition make_usage (va pte_pa size : Z) (mapping_type : string) (conf : MappingConfidence)
    (writable user nx : bool) : ProcessUsage :=
  mkProcessUsage (pst_pid target) (pst_process_name target) va pte_pa size mapping_type
    mapper_Name conf false writable user nx.

(** A large leaf: report the page of [target_pfn] inside it, if it is there. *)
Definition visit_large (level : PagingLevel) (size : Z) (mapping_type : string)
    (entry next_prefix entry_pa : Z) (writable user nx : bool) (s : State)
    : Result unit * State :=
  match LeafPhysicalAddress level entry 0 with
  | Failure _ => (Success tt, s)
  | Success base_address =>
      let base_pfn := Z.shiftr base_address 12 in
      let pages := size / kPageSize in
      if (base_pfn <=? target_pfn) && (u64 (target_pfn - base_pfn) <? pages) then
        append_mapping
          (make_usage
             (CanonicalizeVirtualAddress
                (u64 (next_prefix + u64 (Z.shiftl (target_pfn - base_pfn) 12))) (pst_la57 target))
             entry_pa size mapping_type High writable user nx) s
      else (Success tt, s)
  end.

(** One round of the loop over a table's entries; [walk] is the recursive call. *)
Definition visit_entry
    (walk : Z → Z → bool → bool → bool → State → Result unit * State)
    (level : nat) (table_pfn virtual_prefix : Z)
    (effective_writable effective_user effective_nx : bool)
    (page : list Z) (index : Z) (s : State) : Result unit * State :=
  let entry := le_value (slice page (index * 8) 8) in
  let flags := DecodePageEntry entry in
  if negb (present flags) then (Success tt, s)
  else if ((level =? 5)%nat || (level =? 4)%nat) && page_size flags then (Success tt, s)
  else
    let next_prefix := Z.lor virtual_prefix (u64 (Z.shiftl index (ShiftForLevel level))) in
    let writable := effective_writable && writable flags in
    let user := effective_user && user flags in
    let nx := effective_nx || no_execute flags in
    let entry_pa := u64 (u64 (Z.shiftl table_pfn 12) + index * 8) in
    if (level =? 3)%nat && page_size flags then
      visit_large Pdpt 0x40000000 "1 GiB large page" entry next_prefix entry_pa writable user nx s
    else if (level =? 2)%nat && page_size flags then
      visit_large Pd 0x200000 "2 MiB large page" entry next_prefix entry_pa writable user nx s
    else
      let next_pfn := Z.shiftr (Z.land entry kX64PageEntryAddressMask) 12 in
      if (level =? 1)%nat then
        if next_pfn =? target_pfn then
          append_mapping
            (make_usage (CanonicalizeVirtualAddress next_prefix (pst_la57 target)) entry_pa
               kPageSize "4 KiB page" High writable user nx) s
        else (Success tt, s)
      else
        match
          if include_page_table_pages limits && (next_pfn =? target_pfn) then
            append_mapping
              (make_usage (CanonicalizeVirtualAddress next_prefix (pst_la57 target)) entry_pa
                 kPageSize (NextTableName level) Medium writable user nx) s
          else (Success tt, s)
        with
        | (Failure e, s) => (Failure e, s)
        | (Success _, s) =>
            match walk next_pfn next_prefix writable user nx s with
            | (Failure e, s) =>
                (Failure e, s <| active_path := active_path s ∖ {[table_pfn]} |>)
            | (Success _, s) => (Success tt, s)
            end
        end.

(** The loop itself, over the indices still to visit. *)
Fixpoint visit_entries
    (visit : Z → State → Result unit * State) (indices : list Z) (s : State)
    : Result unit * State :=
  match indices with
  | [] => (Success tt, s)
  | index :: rest =>
      match visit index s with
      | (Failure e, s) => (Failure e, s)
      | (Success _, s) => visit_entries visit rest s
      end
  end.

Definition leave (table_pfn : Z) (s : State) : State :=
  s <| active_path := active_path s ∖ {[table_pfn]} |>.

(** The [walk] closure.  It is called with levels 5 to 1 only, since a level 1
    entry is never followed. *)
Fixpoint walk (level : nat) (table_pfn virtual_prefix : Z)
    (effective_writable effective_user effective_nx : bool) (s : State) {struct level}
    : Result unit * State :=
  match level with
  | O => (Success tt, s)
  | S below =>
  let '(stopped, s) := poll s in
  if stopped then (Failure cancelled_error, s)
  else if bool_decide (table_pfn ∈ active_path s) then (Success tt, s)
  else
    let s := s <| active_path := {[table_pfn]} ∪ active_path s |> in
    if max_table_pages limits <=? table_pages_read s then
      (Failure (MakeErrorFull LimitReached "PFN reverse mapping reached the table-page limit"
         "PageTableReverseMapper::Query" 0 (max_table_pages limits) (table_pages_read s)),
       leave table_pfn s)
    else if Z.shiftr u64_max 12 <? table_pfn then (Success tt, leave table_pfn s)
    else
      let '(page, b) := ReadPhysical (u64 (Z.shiftl table_pfn 12)) 0x1000 (backend s) in
      let s := s <| backend := b |> <| table_pages_read := table_pages_read s + 1 |> in
      match page with
      | Failure e =>
          (if continue_on_read_error limits then Success tt else Failure e, leave table_pfn s)
      | Success page =>
          if negb (sizeZ page =? 0x1000) then
            (if continue_on_read_error limits then Success tt
             else mapper_error ShortRead "Page-table read returned fewer than 4096 bytes",
             leave table_pfn s)
          else
            match visit_entries
                    (visit_entry (walk below) level table_pfn virtual_prefix
                       effective_writable effective_user effective_nx page)
                    (seqZ 0 512) s
            with
            | (Failure e, s) => (Failure e, s)
            | (Success _, s) => (Success tt, leave table_pfn s)
            end
      end
  end.
End Walk.

(** One round of the loop over the scan targets. *)
Definition query_target (target : ProcessScanTarget) (s : State) : Result unit * State :=
  let '(stopped, s) := poll s in
  if stopped then (Failure cancelled_error, s)
  else if pst_pid target =? 0 then (Success tt, s)
  else
    match
      if pst_directory_table_base target =? 0 then
        let '(context, b) := GetProcessContext (pst_pid target) (backend s) in
        let s := s <| backend := b |> in
        match context with
        | Failure e => (Failure e, s)
        | Success c =>
            (Success (mkProcessScanTarget (pst_pid target) (pst_process_name target)
               (pc_directory_table_base c) (pst_la57 target)), s)
        end
      else (Success target, s)
    with
    | (Failure e, s) => (if continue_on_read_error limits then Success tt else Failure e, s)
    | (Success target, s) =>
        let root_pfn := Z.shiftr (Z.land (pst_directory_table_base target)
                                    (Z.lxor u64_max 0xFFF)) 12 in
        match
          if include_page_table_pages limits && (root_pfn =? target_pfn) then
            append_mapping
              (mkProcessUsage (pst_pid target) (pst_process_name target) 0 0 0x1000
                 (if pst_la57 target then "page-table: PML5 root" else "page-table: PML4 root")
                 mapper_Name High false false false false) s
          else (Success tt, s)
        with
        | (Failure e, s) => (Failure e, s)
        | (Success _, s) =>
            let s := s <| active_path := ∅ |> in
            match walk target (if pst_la57 target then 5 else 4)%nat root_pfn 0
                    true true false s with
            | (Success _, s) => (Success tt, s)
            | (Failure e, s) =>
                if bool_decide (code e = LimitReached) || bool_decide (code e = Cancelled) ||
                   negb (continue_on_read_error limits)
                then (Failure e, s) else (Success tt, s)
            end
        end
    end.

Fixpoint query_targets (targets : list ProcessScanTarget) (s : State) : Result unit * State :=
  match targets with
  | [] => (Success tt, s)
  | target :: rest =>
      match query_target target s with
      | (Failure e, s) => (Failure e, s)
      | (Success _, s) => query_targets rest s
      end
  end.

End Query.

Record PageTableReverseMapper := mkMapper {
  targets_ : list ProcessScanTarget;
  limits_ : ReverseMapLimits
}.
#[export] Instance Mapper_eta : Eta PageTableReverseMapper := fun m =>
  mkMapper (targets_ m) (limits_ m).

Definition make_PageTableReverseMapper : PageTableReverseMapper := mkMapper [] default_limits.
Definition SetTargets (targets : list ProcessScanTarget) (m : PageTableReverseMapper)
    : PageTableReverseMapper := m <| targets_ := targets |>.
Definition SetLimits (limits : ReverseMapLimits) (m : PageTableReverseMapper)
    : PageTableReverseMapper := m <| limits_ := limits |>.

Definition Query {B} `{IMemoryBackend B} (stop : nat → bool) (m : PageTableReverseMapper)
    (target_pfn : Z) (b : B) : Result PfnUsageResult * B :=
  if kX64MaxPageFrameNumber <? target_pfn then
    (mapper_error InvalidPfn "PFN exceeds the 40-bit x64 page-table address field", b)
  else if negb (bi_connected (Info b)) then
    (mapper_error BackendDisconnected "Memory backend is not connected", b)
  else if bool_decide (targets_ m = []) then
    (mapper_error InvalidArgument "No process scan target is configured", b)
  else if (max_table_pages (limits_ m) =? 0) || (max_results (limits_ m) =? 0) then
    (mapper_error InvalidArgument "Reverse-map limits must be non-zero", b)
  else
    match query_targets stop (limits_ m) target_pfn (targets_ m) (mkQueryState [] ∅ 0 ∅ 0 b) with
    | (Failure e, s) => (Failure e, backend s)
    | (Success _, s) =>
        (Success (mkPfnUsageResult target_pfn (sort_mappings (mappings s)) mapper_Name),
         backend s)
    end.
