(* ===== verification/ReverseMapperEntry.v ===== *)
(** Address translation as the processor does it: the reference against which the
    reverse mapper is verified, and how virtual-address prefixes built from table
    indices relate to it.

    What one page-table entry contributes to a reverse-mapping query, in terms of
    the reference translation. *)

From S2P Require Import Prelude CppStd Common X64PageTable ReverseMapper MemoryBackend.
From stdpp Require Import gmap.

#[local] Open Scope Z_scope.

(** ** Reference translation *)

Record Leaf := mkLeaf {
  leaf_pa : Z;          (* physical address of the byte *)
  leaf_bytes : Z;       (* size of the page *)
  leaf_pte : Z;         (* physical address of the entry that maps it *)
  leaf_writable : bool;
  leaf_user : bool;
  leaf_nx : bool
}.

Definition va_index (level : nat) (va : Z) : Z := (va `div` 2 ^ ShiftForLevel level) `mod` 512.
Definition entry_address (table_pfn index : Z) : Z := 4096 * table_pfn + 8 * index.
Definition entry_at (m : Z → Z) (table_pfn index : Z) : Z :=
  le_value (mem_bytes m (entry_address table_pfn index) 8).

(** The level of an entry that can be a large leaf, or is always one. *)
Definition leaf_level (level : nat) : option PagingLevel :=
  match level with 3%nat => Some Pdpt | 2%nat => Some Pd | 1%nat => Some Pt | _ => None end.

(** What an entry is for the processor: nothing, a leaf, or the next table. *)
Inductive entry_kind := NotMapped | LeafEntry (l : PagingLevel) | NextTable (pfn : Z).
Definition classify (level : nat) (entry : Z) : entry_kind :=
  let flags := DecodePageEntry entry in
  if negb (present flags) then NotMapped
  else match level, page_size flags with
       | 5%nat, true | 4%nat, true => NotMapped
       | 3%nat, true => LeafEntry Pdpt
       | 2%nat, true => LeafEntry Pd
       | 1%nat, _ => LeafEntry Pt
       | _, _ => NextTable (entry_pfn flags)
       end.

Fixpoint translate_from (m : Z → Z) (level : nat) (table_pfn va : Z) (w u nx : bool)
    : option Leaf :=
  match level with
  | O => None
  | S below =>
      let index := va_index level va in
      let entry := entry_at m table_pfn index in
      let flags := DecodePageEntry entry in
      let w := w && writable flags in
      let u := u && user flags in
      let nx := nx || no_execute flags in
      match classify level entry with
      | NotMapped => None
      | LeafEntry l =>
          match LeafPhysicalAddress l entry va, leaf_size l with
          | Success pa, Some size =>
              Some (mkLeaf pa size (entry_address table_pfn index) w u nx)
          | _, _ => None
          end
      | NextTable pfn => translate_from m below pfn va w u nx
      end
  end.

Definition top_level (la57 : bool) : nat := if la57 then 5%nat else 4%nat.

(** [va] under the tables rooted at [dtb]. *)
Definition translate (m : Z → Z) (dtb : Z) (la57 : bool) (va : Z) : option Leaf :=
  translate_from m (top_level la57) (dtb `div` 4096) va true true false.

(** The tables a translation goes through. *)
Fixpoint tables_from (m : Z → Z) (level : nat) (table_pfn va : Z) : list Z :=
  match level with
  | O => []
  | S below =>
      table_pfn ::
      match classify level (entry_at m table_pfn (va_index level va)) with
      | NextTable pfn => tables_from m below pfn va
      | _ => []
      end
  end.
Definition tables (m : Z → Z) (dtb : Z) (la57 : bool) (va : Z) : list Z :=
  tables_from m (top_level la57) (dtb `div` 4096) va.

(** ** Leaf addresses *)

(** A leaf translates an address to its size-aligned base plus the page offset,
    and translates every address if it translates one. *)
Lemma leaf_address_split l entry va pa :
  LeafPhysicalAddress l entry va = Success pa →
  ∃ base size, leaf_size l = Some size ∧ base `mod` size = 0 ∧ 0 ≤ base ∧
    ∀ va', LeafPhysicalAddress l entry va' = Success (base + va' `mod` size).
Proof.
  intros Hl. unfold LeafPhysicalAddress in Hl |- *.
  destruct (negb (present _)); [done|].
  assert (∀ k n, 0 ≤ k → 0 ≤ n →
    ((entry `div` 2 ^ k) `mod` 2 ^ n * 2 ^ k) `mod` 2 ^ k = 0 ∧
    0 ≤ (entry `div` 2 ^ k) `mod` 2 ^ n * 2 ^ k) as Hb.
  { intros k n ??. pose proof (Z.pow_pos_nonneg 2 k). pose proof (Z.pow_pos_nonneg 2 n).
    pose proof (Z.mod_pos_bound (entry `div` 2 ^ k) (2 ^ n)).
    split; [apply Z.mod_mul; lia|nia]. }
  destruct l; try done.
  - repeat (destruct (negb _) in Hl |- *; [done|]).
    exists ((entry `div` 2 ^ 30) `mod` 2 ^ 22 * 2 ^ 30), 0x40000000.
    split; [done|]. destruct (Hb 30 22) as [H0 H1]; [lia..|]. split; [exact H0|]. split; [done|].
    intros va'. f_equal. apply leaf_masks.
  - repeat (destruct (negb _) in Hl |- *; [done|]).
    exists ((entry `div` 2 ^ 21) `mod` 2 ^ 31 * 2 ^ 21), 0x200000.
    split; [done|]. destruct (Hb 21 31) as [H0 H1]; [lia..|]. split; [exact H0|]. split; [done|].
    intros va'. f_equal. apply leaf_masks.
  - exists ((entry `div` 2 ^ 12) `mod` 2 ^ 40 * 2 ^ 12), 0x1000.
    split; [done|]. destruct (Hb 12 40) as [H0 H1]; [lia..|]. split; [exact H0|]. split; [done|].
    intros va'. f_equal. apply leaf_masks.
Qed.

(** The frame a 4 KiB leaf maps. *)
Lemma leaf_address_pt entry va :
  Z.testbit entry 0 = true →
  LeafPhysicalAddress Pt entry va =
    Success (4096 * Z.shiftr (Z.land entry kX64PageEntryAddressMask) 12 + va `mod` 4096).
Proof.
  intros Hp. unfold LeafPhysicalAddress. simpl. rewrite entry_bit_testbit, Hp by lia. simpl.
  f_equal. unfold kX64PageEntryAddressMask. rewrite (proj1 (leaf_masks entry va)).
  change 0x000FFFFFFFFFF000 with (Z.shiftl (Z.ones 40) 12).
  rewrite land_field, Z.shiftr_div_pow2, Z.div_mul by lia. change (2 ^ 12) with 4096. lia.
Qed.

(** ** Prefixes *)

(** The bits of a virtual address above a table's level. *)
Definition top_shift (level : nat) : Z := ShiftForLevel level + 9.

Definition agrees (la57 : bool) (level : nat) (prefix va : Z) : Prop :=
  (va `mod` 2 ^ address_bits la57) `div` 2 ^ top_shift level * 2 ^ top_shift level = prefix.

Lemma level_cases level (la57 : bool) :
  (1 ≤ level ≤ top_level la57)%nat →
  level = 1%nat ∨ level = 2%nat ∨ level = 3%nat ∨ level = 4%nat ∨ (level = 5%nat ∧ la57 = true).
Proof. destruct la57; simpl; lia. Qed.

(** Below a table, at entry [index]: the address agrees with the longer prefix
    exactly when it agrees with the table's and selects that entry. *)
Lemma agrees_step la57 level prefix index va :
  (1 ≤ level ≤ top_level la57)%nat → 0 ≤ index < 512 → prefix `mod` 2 ^ top_shift level = 0 →
  (va `mod` 2 ^ address_bits la57) `div` 2 ^ ShiftForLevel level * 2 ^ ShiftForLevel level =
    prefix + index * 2 ^ ShiftForLevel level ↔
  agrees la57 level prefix va ∧ va_index level va = index.
Proof.
  intros Hl Hi Hp. unfold agrees, top_shift, va_index in *.
  set (k := ShiftForLevel level) in *. set (w := address_bits la57).
  assert (0 ≤ k ∧ k + 9 ≤ w) as [Hk Hw].
  { unfold k, w. destruct (level_cases level la57 Hl) as [->|[->|[->|[->|[-> ->]]]]];
      try destruct la57; simpl; lia. }
  clearbody k w. rewrite Z.pow_add_r in Hp |- * by lia. change (2 ^ 9) with 512 in *.
  pose proof (Z.pow_pos_nonneg 2 k). set (r := va `mod` 2 ^ w).
  assert ((va `div` 2 ^ k) `mod` 512 = (r `div` 2 ^ k) `mod` 512) as ->.
  { unfold r. replace w with (k + (9 + (w - k - 9))) by lia.
    rewrite Z.pow_add_r by lia. pose proof (Z.pow_pos_nonneg 2 (9 + (w - k - 9))).
    rewrite Z.rem_mul_r, (Z.mul_comm (2 ^ k)), Z.div_add by lia.
    rewrite (Z.div_small (va `mod` 2 ^ k)) by (apply Z.mod_pos_bound; lia).
    rewrite Z.pow_add_r, Z.rem_mul_r by lia. change (2 ^ 9) with 512. rewrite Z.add_0_l.
    rewrite (Z.mul_comm 512), Z.mod_add, Z.mod_mod by lia. done. }
  rewrite <- Z.div_div by lia. set (q := r `div` 2 ^ k).
  apply Z.div_exact in Hp; [|lia]. set (p := prefix `div` (2 ^ k * 512)) in *.
  pose proof (Z.div_mod q 512 ltac:(lia)) as Hq. pose proof (Z.mod_pos_bound q 512 ltac:(lia)).
  set (q1 := q `div` 512) in *. set (q0 := q `mod` 512) in *. clearbody q p q1 q0. subst prefix.
  split.
  - intros E. assert (q = 512 * p + index) as E' by nia. assert (q1 = p ∧ q0 = index) as [-> ->] by lia.
    split; [lia|done].
  - intros [E ->]. assert (q1 = p) as -> by nia. subst q. lia.
Qed.

(** ** Arithmetic of prefixes *)

Lemma sign_extend_low w k x :
  0 ≤ k ≤ w → w ≤ 64 → sign_extend w x `mod` 2 ^ k = x `mod` 2 ^ k.
Proof.
  intros Hk Hw. unfold sign_extend.
  assert ((x `mod` 2 ^ w) `mod` 2 ^ k = x `mod` 2 ^ k) as Hm.
  { apply Z.mod_mod_divide. exists (2 ^ (w - k)). rewrite <- Z.pow_add_r by lia. f_equal. lia. }
  destruct (_ <? _); [done|]. rewrite <- Hm.
  replace (2 ^ 64 - 2 ^ w) with ((2 ^ (64 - k) - 2 ^ (w - k)) * 2 ^ k).
  - apply Z.mod_add. apply Z.pow_nonzero; lia.
  - rewrite Z.mul_sub_distr_r, <- !Z.pow_add_r by lia. f_equal; f_equal; lia.
Qed.

(** A table the walk may be at: its level, frame and virtual-address prefix. *)
Record table_at (la57 : bool) (level : nat) (table_pfn prefix : Z) : Prop := {
  ta_level : (1 ≤ level ≤ top_level la57)%nat;
  ta_pfn : 0 ≤ table_pfn < 2 ^ 52;
  ta_aligned : prefix `mod` 2 ^ top_shift level = 0;
  ta_prefix : 0 ≤ prefix < 2 ^ address_bits la57
}.

Lemma level_shifts la57 level :
  (1 ≤ level ≤ top_level la57)%nat →
  12 ≤ ShiftForLevel level ∧ top_shift level ≤ address_bits la57 ≤ 57.
Proof.
  intros Hl. unfold top_shift.
  destruct (level_cases level la57 Hl) as [->|[->|[->|[->|[-> ->]]]]];
    try destruct la57; simpl; lia.
Qed.

Lemma next_prefix_add la57 level tbl prefix index :
  table_at la57 level tbl prefix → 0 ≤ index < 512 →
  Z.lor prefix (u64 (Z.shiftl index (ShiftForLevel level))) =
    prefix + index * 2 ^ ShiftForLevel level.
Proof.
  intros [Hl _ Ha _] Hi. destruct (level_shifts la57 level Hl) as [Hs Ht].
  unfold top_shift in *. set (k := ShiftForLevel level) in *. clearbody k.
  pose proof (Z.pow_pos_nonneg 2 k).
  assert (index * 2 ^ k < 2 ^ (k + 9)) as Hlt
    by (rewrite Z.pow_add_r by lia; change (2 ^ 9) with 512; nia).
  assert (2 ^ (k + 9) ≤ 2 ^ 57) as Hle by (apply Z.pow_le_mono_r; lia).
  change (2 ^ 57) with 144115188075855872 in Hle.
  rewrite Z.shiftl_mul_pow2, u64_id by (unfold is_u64; nia).
  apply lor_add with (k := k + 9); [lia|nia|done].
Qed.

Lemma next_prefix_range la57 level tbl prefix index :
  table_at la57 level tbl prefix → 0 ≤ index < 512 →
  (prefix + index * 2 ^ ShiftForLevel level) `mod` 2 ^ ShiftForLevel level = 0 ∧
  0 ≤ prefix + index * 2 ^ ShiftForLevel level ≤ 2 ^ address_bits la57 - 2 ^ ShiftForLevel level.
Proof.
  intros [Hl _ Ha Hp] Hi. destruct (level_shifts la57 level Hl) as [Hs Ht].
  unfold top_shift in *. set (k := ShiftForLevel level) in *. clearbody k.
  set (w := address_bits la57) in *. clearbody w.
  rewrite Z.pow_add_r in Ha by lia. change (2 ^ 9) with 512 in Ha.
  pose proof (Z.pow_pos_nonneg 2 k). apply Z.div_exact in Ha; [|lia].
  set (p := prefix `div` (2 ^ k * 512)) in *. clearbody p.
  replace w with (k + 9 + (w - k - 9)) in * by lia.
  rewrite !(Z.pow_add_r 2 (k + 9)), !(Z.pow_add_r 2 k 9) in * by lia. change (2 ^ 9) with 512 in *.
  pose proof (Z.pow_pos_nonneg 2 (w - k - 9)). set (W := 2 ^ (w - k - 9)) in *. clearbody W.
  assert (0 ≤ p) by nia. assert (p < W) by nia.
  assert (0 ≤ 512 * p + index ≤ 512 * W - 1) by lia.
  split; [|nia].
  replace (prefix + index * 2 ^ k) with ((512 * p + index) * 2 ^ k) by lia. apply Z.mod_mul. lia.
Qed.

(** An address inside entry [index]'s span: built from the next prefix and an offset
    within the span, canonicalised. *)
Lemma canonical_in_span la57 level tbl prefix index off :
  table_at la57 level tbl prefix → 0 ≤ index < 512 → 0 ≤ off < 2 ^ ShiftForLevel level →
  let va := CanonicalizeVirtualAddress (prefix + index * 2 ^ ShiftForLevel level + off) la57 in
  agrees la57 level prefix va ∧ va_index level va = index ∧
  va `mod` 2 ^ ShiftForLevel level = off.
Proof.
  intros Ht Hi Ho va. destruct (next_prefix_range _ _ _ _ _ Ht Hi) as [Hm Hr].
  pose proof (ta_level _ _ _ _ Ht) as Hl. destruct (level_shifts la57 level Hl) as [Hs Hw].
  unfold top_shift in Hw. set (np := prefix + index * 2 ^ ShiftForLevel level) in *.
  assert (va `mod` 2 ^ address_bits la57 = np + off) as Hva.
  { unfold va. rewrite Canonicalize_sign_extend, sign_extend_low by lia. apply Z.mod_small. lia. }
  assert (va `mod` 2 ^ ShiftForLevel level = off) as Hoff.
  { unfold va. rewrite Canonicalize_sign_extend, sign_extend_low by lia.
    apply Z.div_exact in Hm; [|lia]. rewrite Hm, Z.add_comm, Z.mul_comm, Z.mod_add by lia.
    by apply Z.mod_small. }
  assert (agrees la57 level prefix va ∧ va_index level va = index) as [Ha Hx]; [|done].
  apply agrees_step; [done|done|apply Ht|]. rewrite Hva. fold np.
  apply Z.div_exact in Hm; [|lia]. rewrite Hm at 1.
  rewrite (Z.mul_comm (2 ^ ShiftForLevel level) (np `div` _)), Z.div_add_l by lia.
  rewrite (Z.div_small off) by lia. lia.
Qed.

(** ** Entries *)

Definition leaf_type (l : PagingLevel) : string :=
  match l with
  | Pdpt => "1 GiB large page" | Pd => "2 MiB large page" | _ => "4 KiB page"
  end.
Definition leaf_length (l : PagingLevel) : Z := default 0x1000 (leaf_size l).

(** The span of a leaf entry is the span of its level's entries. *)
Lemma classify_leaf level entry l :
  classify level entry = LeafEntry l →
  leaf_size l = Some (2 ^ ShiftForLevel level) ∧ leaf_length l = 2 ^ ShiftForLevel level ∧
  Z.testbit entry 0 = true.
Proof.
  unfold classify. simpl. rewrite !entry_bit_testbit by lia.
  destruct (Z.testbit entry 0); [|done]. simpl.
  destruct level as [|[|[|[|[|[|level]]]]]], (Z.testbit entry 7); simpl; intros; by simplify_eq.
Qed.
Lemma classify_next level entry pfn :
  classify level entry = NextTable pfn →
  pfn = Z.shiftr (Z.land entry kX64PageEntryAddressMask) 12 ∧ 0 ≤ pfn < 2 ^ 40.
Proof.
  unfold classify. simpl. destruct (negb _); [done|].
  assert (0 ≤ Z.shiftr (Z.land entry kX64PageEntryAddressMask) 12 < 2 ^ 40) as Hr.
  { unfold kX64PageEntryAddressMask. change 0x000FFFFFFFFFF000 with (Z.shiftl (Z.ones 40) 12).
    rewrite land_field, Z.shiftr_div_pow2, Z.div_mul by lia. apply Z.mod_pos_bound. lia. }
  destruct level as [|[|[|[|[|[|level]]]]]], (entry_bit entry 7); intros; by simplify_eq.
Qed.

Section Entry.
Context {B : Type} `{IMemoryBackend B}.
Context (stop : nat → bool) (limits : ReverseMapLimits) (target_pfn : Z).
Context (target : ProcessScanTarget).
Hypothesis Hpfn : 0 ≤ target_pfn ≤ kX64MaxPageFrameNumber.

Abbreviation State := (QueryState B).
Abbreviation la57 := (pst_la57 target).

(** The usage a leaf entry is reported as. *)
Definition leaf_usage (l : PagingLevel) (next_prefix base entry_pa : Z) (w u nx : bool)
    : ProcessUsage :=
  make_usage target (CanonicalizeVirtualAddress (next_prefix + (4096 * target_pfn - base)) la57)
    entry_pa (leaf_length l) (leaf_type l) High w u nx.

(** A leaf reports one usage if its page holds the target frame, and nothing
    otherwise. *)
Lemma visit_large_cases l entry np epa w u nx (s : State) size :
  leaf_size l = Some size → 0 ≤ np ≤ 2 ^ 57 - size →
  (∃ base, LeafPhysicalAddress l entry 0 = Success base ∧
     0 ≤ 4096 * target_pfn - base < size ∧
     visit_large limits target_pfn target l (leaf_length l) (leaf_type l) entry np epa w u nx s =
       append_mapping limits (leaf_usage l np base epa w u nx) s) ∨
  ((∀ va pa, LeafPhysicalAddress l entry va = Success pa → pa `div` 4096 ≠ target_pfn) ∧
   visit_large limits target_pfn target l (leaf_length l) (leaf_type l) entry np epa w u nx s =
     (Success tt, s)).
Proof using Hpfn.
  intros Hsz Hnp. unfold visit_large, leaf_usage, leaf_length in *. rewrite Hsz. simpl.
  destruct (LeafPhysicalAddress l entry 0) as [base|e] eqn:E0.
  2:{ right. split; [|done]. intros va pa Hva.
      destruct (leaf_address_split _ _ _ _ Hva) as (? & ? & _ & _ & _ & Hall).
      by rewrite Hall in E0. }
  destruct (leaf_address_split _ _ _ _ E0) as (base' & size' & Hsz' & Hm & Hnn & Hall).
  rewrite Hsz in Hsz'. injection Hsz' as <-.
  assert (base = base') as <-.
  { rewrite Hall, Z.mod_0_l in E0; [injection E0; lia|]. destruct l; simplify_eq/=; lia. }
  clear E0.
  assert (∃ n, 0 < n ∧ size = 4096 * n ∧ n < 2 ^ 45) as (n & Hn0 & -> & Hn1).
  { destruct l; simplify_eq/=.
    - by exists 262144.
    - by exists 512.
    - by exists 1. }
  apply Z.div_exact in Hm; [|lia]. set (q := base `div` _) in Hm. clearbody q.
  assert (Z.shiftr base 12 = n * q) as ->.
  { rewrite Z.shiftr_div_pow2 by lia. change (2 ^ 12) with 4096. rewrite Hm.
    replace (4096 * n * q) with (n * q * 4096) by lia. apply Z.div_mul. lia. }
  replace (4096 * n / kPageSize) with n.
  2:{ unfold kPageSize. symmetry. rewrite Z.mul_comm. apply Z.div_mul. lia. }
  unfold kX64MaxPageFrameNumber in Hpfn. change (Z.shiftr _ 12) with (2 ^ 40 - 1) in Hpfn.
  change (2 ^ 57) with 144115188075855872 in *. change (2 ^ 40) with 1099511627776 in *.
  change (2 ^ 45) with 35184372088832 in *.
  assert (∀ va, 0 ≤ va `mod` (4096 * n) < 4096 * n) as Hmod by (intros; apply Z.mod_pos_bound; lia).
  destruct (Z.leb_spec (n * q) target_pfn) as [Hle|Hgt]; simpl.
  2:{ right. split; [|done]. intros va pa Hva. rewrite Hall in Hva. injection Hva as <-.
      specialize (Hmod va). intros Hd. Z.div_mod_to_equations. nia. }
  rewrite u64_id by (unfold is_u64; nia).
  destruct (Z.ltb_spec (target_pfn - n * q) n).
  - left. exists base. split; [done|].
    split; [nia|]. do 2 f_equal.
    rewrite Z.shiftl_mul_pow2 by lia. change (2 ^ 12) with 4096.
    rewrite (u64_id ((target_pfn - n * q) * 4096)) by (unfold is_u64; nia).
    rewrite u64_id by (unfold is_u64; nia). f_equal. nia.
  - right. split; [|done]. intros va pa Hva. rewrite Hall in Hva. injection Hva as <-.
    specialize (Hmod va). intros Hd. Z.div_mod_to_equations. nia.
Qed.

Context (m : Z → Z).

(** One round of the entry loop, by what the entry is for the processor. *)
Lemma visit_entry_classify walk level tbl prefix w u nx index (s : State) :
  table_at la57 level tbl prefix → 0 ≤ index < 512 →
  let entry := entry_at m tbl index in
  let np := prefix + index * 2 ^ ShiftForLevel level in
  let epa := entry_address tbl index in
  let flags := DecodePageEntry entry in
  let w' := w && writable flags in
  let u' := u && user flags in
  let nx' := nx || no_execute flags in
  visit_entry limits target_pfn target walk level tbl prefix w u nx
    (mem_bytes m (4096 * tbl) 4096) index s =
  match classify level entry with
  | NotMapped => (Success tt, s)
  | LeafEntry l =>
      visit_large limits target_pfn target l (leaf_length l) (leaf_type l) entry np epa w' u' nx' s
  | NextTable pfn =>
      match
        if include_page_table_pages limits && (pfn =? target_pfn) then
          append_mapping limits
            (make_usage target (CanonicalizeVirtualAddress np la57) epa 0x1000
               (NextTableName level) Medium w' u' nx') s
        else (Success tt, s)
      with
      | (Failure e, s) => (Failure e, s)
      | (Success _, s) =>
          match walk pfn np w' u' nx' s with
          | (Failure e, s) => (Failure e, leave tbl s)
          | (Success _, s) => (Success tt, s)
          end
      end
  end.
Proof using Hpfn.
  intros Ht Hi entry np epa flags w' u' nx'. unfold visit_entry.
  rewrite slice_mem_bytes by lia.
  replace (4096 * tbl + index * 8) with (entry_address tbl index) by (unfold entry_address; lia).
  fold (entry_at m tbl index). fold entry. fold flags.
  rewrite (next_prefix_add la57 level tbl) by done. fold np.
  assert (u64 (u64 (Z.shiftl tbl 12) + index * 8) = epa) as ->.
  { pose proof (ta_pfn _ _ _ _ Ht) as Hb. rewrite Z.shiftl_mul_pow2 by lia.
    change (2 ^ 52) with 4503599627370496 in Hb. change (2 ^ 12) with 4096.
    rewrite (u64_id (tbl * 4096)), u64_id by (unfold is_u64; lia).
    unfold epa, entry_address. lia. }
  fold w' u' nx'. unfold classify. fold flags. destruct (present flags) eqn:Hpr; [|done]. cbn [negb].
  change (entry_pfn flags) with (Z.shiftr (Z.land entry kX64PageEntryAddressMask) 12).
  destruct (level_cases level la57 (ta_level _ _ _ _ Ht)) as [->|[->|[->|[->|[-> _]]]]];
    destruct (page_size flags); cbn [Nat.eqb orb andb];
    try reflexivity.
  1,2: unfold visit_large; change (present flags) with (entry_bit entry 0) in Hpr;
    rewrite entry_bit_testbit in Hpr by lia;
    rewrite leaf_address_pt, Z.mod_0_l, Z.add_0_r by done;
    set (pfn := Z.shiftr (Z.land _ _) 12);
    assert (Z.shiftr (4096 * pfn) 12 = pfn) as -> by
      (rewrite Z.shiftr_div_pow2, Z.mul_comm by lia; by apply Z.div_mul);
    change (leaf_length Pt / kPageSize) with 1;
    destruct (Z.eqb_spec pfn target_pfn) as [->|Hne].
  1,3: rewrite Z.leb_refl, Z.sub_diag; change (Z.shiftl 0 12) with 0; change (u64 0) with 0;
    rewrite Z.add_0_r; cbn [andb Z.ltb];
    destruct (next_prefix_range _ _ _ _ _ Ht Hi) as [_ Hr];
    destruct (level_shifts _ _ (ta_level _ _ _ _ Ht)) as [_ [_ Hw]];
    assert (2 ^ address_bits la57 ≤ 2 ^ 57) as Hle by (apply Z.pow_le_mono_r; lia);
    change (2 ^ 57) with 144115188075855872 in Hle;
    rewrite u64_id by (unfold is_u64; cbn [ShiftForLevel] in *; lia); reflexivity.
  1,2: replace ((pfn <=? target_pfn) && (u64 (target_pfn - pfn) <? 1)) with false; [reflexivity|];
    symmetry; destruct (Z.leb_spec pfn target_pfn); [|reflexivity]; cbn [andb];
    apply Z.ltb_ge.
  1,2: assert (0 ≤ pfn) by (apply Z.shiftr_nonneg, Z.land_nonneg; right; done);
    unfold kX64MaxPageFrameNumber in Hpfn; change (Z.shiftr _ 12) with 1099511627775 in Hpfn;
    rewrite u64_id by (unfold is_u64; lia); lia.
Qed.
End Entry.
