(* ===== verification/ReverseMapperTheorems.v ===== *)
(** Correctness of the reverse mapper: what it reports is mapped, what is mapped it
    reports, and its limits hold. *)

From S2P Require Import Prelude CppStd Common X64PageTable MemoryBackend MockMemoryBackend ReverseMapper ReverseMapperEntry.
From stdpp Require Import gmap sorting.
#[local] Open Scope Z_scope.

(** ** The memory the tables are read from

    While a query runs, whole reads return the contents of one memory [m], and
    the table base of a process is the one [dtb_of] gives. *)
Class StableReads {B} `{IMemoryBackend B} (m : Z → Z) (dtb_of : Z → option Z) (I : B → Prop) := {
  stable_read b pa n r b' :
    I b → ReadPhysical pa n b = (r, b') →
    I b' ∧ match r with
           | Success bytes => sizeZ bytes = n → bytes = mem_bytes m pa n
           | Failure _ => True
           end;
  stable_context b p r b' :
    I b → GetProcessContext p b = (r, b') →
    I b' ∧ match r with
           | Success c => dtb_of p = Some (pc_directory_table_base c)
           | Failure _ => True
           end
}.

Section Correctness.
Context {B : Type} `{IMemoryBackend B}.
Context (m : Z → Z) (dtb_of : Z → option Z) (I : B → Prop) `{!StableReads m dtb_of I}.
Context (stop : nat → bool) (limits : ReverseMapLimits).

Abbreviation State := (QueryState B).

(** ** The invariant of a running query *)

Record query_ok (s : State) : Prop := {
  qo_backend : I (backend s);
  qo_seen k : k ∈ seen_mappings s ↔ k ∈ mapping_key <$> mappings s;
  qo_nodup : NoDup (mapping_key <$> mappings s);
  qo_results : sizeZ (mappings s) ≤ max_results limits;
  qo_pages : table_pages_read s ≤ max_table_pages limits
}.

(** The query went on from [s] to [s'] and added usages satisfying [P] only. *)
Definition grows (P : ProcessUsage → Prop) (s s' : State) : Prop :=
  query_ok s' ∧ ∃ new, mappings s' = mappings s ++ new ∧ Forall P new.

Lemma grows_refl P s : query_ok s → grows P s s.
Proof. split; [done|]. exists []. by rewrite app_nil_r. Qed.
Lemma grows_trans P s1 s2 s3 : grows P s1 s2 → grows P s2 s3 → grows P s1 s3.
Proof.
  intros [_ (n1 & E1 & F1)] [Hok (n2 & E2 & F2)]. split; [done|]. exists (n1 ++ n2).
  rewrite E2, E1, app_assoc. by rewrite Forall_app.
Qed.
Lemma grows_keys P s s' k :
  grows P s s' → k ∈ mapping_key <$> mappings s → k ∈ mapping_key <$> mappings s'.
Proof. intros [_ (new & -> & _)] Hk. rewrite fmap_app. apply elem_of_app. by left. Qed.
Lemma grows_mono P Q s s' : (∀ u, P u → Q u) → grows P s s' → grows Q s s'.
Proof. intros HPQ [Hok (new & E & F)]. split; [done|]. exists new. by eauto using Forall_impl. Qed.

(** Only the mappings, the page count and the backend matter to [query_ok]. *)
Lemma query_ok_active s a : query_ok s → query_ok (s <| active_path := a |>).
Proof. intros []. by constructor. Qed.
Lemma query_ok_poll s : query_ok s → query_ok (poll stop s).2.
Proof. intros []. by constructor. Qed.

Lemma append_grows (P : ProcessUsage → Prop) usage s r s' :
  query_ok s → P usage → append_mapping limits usage s = (r, s') →
  grows P s s' ∧ active_path s' = active_path s ∧
  (r = Success tt → mapping_key usage ∈ mapping_key <$> mappings s').
Proof.
  intros Hok HP. unfold append_mapping. case_bool_decide as Hin.
  { intros [= <- <-]. split_and!; [by apply grows_refl|done|]. intros _. by apply Hok. }
  destruct (Z.leb_spec (max_results limits) (sizeZ (mappings s))).
  { intros [= <- <-]. split_and!; [by apply grows_refl|done|done]. }
  intros [= <- <-]. assert (∀ k, k ∈ mapping_key <$> mappings s ++ [usage] ↔
    k ∈ mapping_key <$> mappings s ∨ k = mapping_key usage) as Hk.
  { intros k. rewrite fmap_app, elem_of_app. simpl. by rewrite list_elem_of_singleton. }
  split_and!; [|done|].
  - split.
    + destruct Hok as [? Hs Hn ??]. constructor; simpl; try done.
      * intros k. rewrite Hk, elem_of_union, elem_of_singleton, Hs. tauto.
      * rewrite fmap_app. apply NoDup_app. split_and!; [done| |apply NoDup_singleton].
        intros k Hk1 ->%list_elem_of_singleton. by apply Hin, Hs.
      * rewrite sizeZ_app. change (sizeZ [usage]) with 1. lia.
    + exists [usage]. split; [done|]. by constructor.
  - intros _. simpl. apply Hk. by right.
Qed.

(** ** One process *)

Context (target_pfn : Z).
Hypothesis Hpfn : 0 ≤ target_pfn ≤ kX64MaxPageFrameNumber.

Section Target.
Context (target : ProcessScanTarget) (dtb : Z).
Abbreviation la57 := (pst_la57 target).

(** Usages of the kinds a data page is reported as. *)
Definition data_mapping (u : ProcessUsage) : Prop := ∃ l, pu_mapping_type u = leaf_type l.

(** A usage of the target process that is true: translating its address ends at
    the target frame, through the reported entry, page size and rights. *)
Definition reported_ok (u : ProcessUsage) : Prop :=
  pu_pid u = pst_pid target ∧ pu_process_name u = pst_process_name target ∧
  (data_mapping u →
   translate m dtb la57 (pu_virtual_address u) =
     Some (mkLeaf (4096 * target_pfn) (pu_page_size u) (pu_pte_address u)
             (pu_writable u) (pu_user_accessible u) (pu_no_execute u))).

(** Below this table, translation is what it is from the root. *)
Definition sees (level : nat) (tbl prefix : Z) (w u nx : bool) : Prop :=
  ∀ va, agrees la57 level prefix va →
    translate m dtb la57 va = translate_from m level tbl va w u nx.

Lemma table_at_next below tbl prefix index pfn :
  table_at la57 (S below) tbl prefix → 0 ≤ index < 512 →
  classify (S below) (entry_at m tbl index) = NextTable pfn →
  (1 ≤ below)%nat ∧
  table_at la57 below pfn (prefix + index * 2 ^ ShiftForLevel (S below)) ∧
  ∀ va, agrees la57 below (prefix + index * 2 ^ ShiftForLevel (S below)) va ↔
    agrees la57 (S below) prefix va ∧ va_index (S below) va = index.
Proof.
  intros Ht Hi Hc. pose proof (ta_level _ _ _ _ Ht) as Hl.
  assert (1 ≤ below)%nat as Hb.
  { destruct below; [|lia]. exfalso. unfold classify in Hc.
    by destruct (negb _). }
  assert (top_shift below = ShiftForLevel (S below)) as Hsh.
  { destruct (level_cases (S below) la57 Hl) as [E|[E|[E|[E|[E _]]]]]; simplify_eq; done || lia. }
  destruct (next_prefix_range _ _ _ _ _ Ht Hi) as [Hm Hr].
  apply classify_next in Hc as [_ Hn]. split; [done|]. split.
  - constructor; [lia| |by rewrite Hsh|].
    + split; [lia|]. etrans; [apply Hn|]. done.
    + pose proof (Z.pow_pos_nonneg 2 (ShiftForLevel (S below))).
      destruct (level_shifts _ _ Hl). lia.
  - intros va. unfold agrees at 1. rewrite Hsh. apply agrees_step; [done|done|apply Ht].
Qed.

Lemma sees_next below tbl prefix w u nx index pfn :
  table_at la57 (S below) tbl prefix → 0 ≤ index < 512 →
  sees (S below) tbl prefix w u nx →
  let entry := entry_at m tbl index in
  classify (S below) entry = NextTable pfn →
  sees below pfn (prefix + index * 2 ^ ShiftForLevel (S below))
    (w && writable (DecodePageEntry entry)) (u && user (DecodePageEntry entry))
    (nx || no_execute (DecodePageEntry entry)).
Proof.
  intros Ht Hi Hs entry Hc va Hva.
  destruct (table_at_next _ _ _ _ _ Ht Hi Hc) as (_ & _ & Hag). apply Hag in Hva as [Hva Hx].
  rewrite (Hs va Hva). cbn [translate_from]. rewrite Hx. fold entry. by rewrite Hc.
Qed.

Lemma sees_leaf level tbl prefix w u nx index l base :
  table_at la57 level tbl prefix → 0 ≤ index < 512 → sees level tbl prefix w u nx →
  let entry := entry_at m tbl index in
  classify level entry = LeafEntry l → LeafPhysicalAddress l entry 0 = Success base →
  0 ≤ 4096 * target_pfn - base < 2 ^ ShiftForLevel level →
  reported_ok (leaf_usage target_pfn target l (prefix + index * 2 ^ ShiftForLevel level) base
    (entry_address tbl index) (w && writable (DecodePageEntry entry))
    (u && user (DecodePageEntry entry)) (nx || no_execute (DecodePageEntry entry))).
Proof.
  intros Ht Hi Hs entry Hc Hb Hoff. unfold reported_ok, leaf_usage, make_usage. simpl.
  split_and!; [done|done|]. intros _.
  destruct (canonical_in_span _ _ _ _ _ _ Ht Hi Hoff) as (Hag & Hx & Hm).
  set (va := CanonicalizeVirtualAddress _ _) in *. rewrite (Hs va Hag).
  destruct (classify_leaf _ _ _ Hc) as (Hsz & Hlen & _).
  destruct (leaf_address_split _ _ _ _ Hb) as (base' & size & Hsz' & _ & _ & Hall).
  rewrite Hsz in Hsz'. injection Hsz' as <-.
  assert (base = base') as <-.
  { rewrite Hall, Z.mod_0_l in Hb; [injection Hb; lia|]. lia. }
  destruct level as [|below]; [pose proof (ta_level _ _ _ _ Ht); lia|].
  cbn [translate_from]. rewrite Hx. fold entry. rewrite Hc, Hall, Hm, Hsz, Hlen.
  do 2 f_equal. lia.
Qed.

Lemma not_data_next level va epa w u nx :
  reported_ok (make_usage target va epa 0x1000 (NextTableName level) Medium w u nx).
Proof.
  split_and!; [done|done|]. intros [l E]. simpl in E.
  by destruct level as [|[|[|[|[|[|?]]]]]], l.
Qed.

(** The entry loop, given what each round does. *)
Lemma visit_entries_grows P visit indices s r s' :
  (∀ i s r s', i ∈ indices → query_ok s → visit i s = (r, s') →
     grows P s s' ∧ (r = Success tt → active_path s' = active_path s)) →
  query_ok s → visit_entries visit indices s = (r, s') →
  grows P s s' ∧ (r = Success tt → active_path s' = active_path s).
Proof.
  revert s. induction indices as [|i indices IH]; intros s Hv Hok Hr; simpl in Hr.
  { simplify_eq. split; [by apply grows_refl|done]. }
  destruct (visit i s) as [[[]|e] s1] eqn:E.
  - apply Hv in E as [Hg Ha]; [|apply elem_of_cons; by left|done].
    apply IH in Hr as [Hg' Ha']; [|intros; eapply Hv; [apply elem_of_cons; by right|done..]|apply Hg].
    split; [by eapply grows_trans|]. intros ->. rewrite Ha', Ha; done.
  - simplify_eq. apply Hv in E; [|apply elem_of_cons; by left|done]. by destruct E.
Qed.

Lemma elem_of_indices i : i ∈ seqZ 0 512 ↔ 0 ≤ i < 512.
Proof. rewrite elem_of_seqZ. lia. Qed.

Lemma leave_enter (s : State) tbl : tbl ∉ active_path s →
  active_path (leave tbl (s <| active_path := {[tbl]} ∪ active_path s |>)) = active_path s.
Proof. intros Hn. unfold leave. simpl. set_solver. Qed.

Abbreviation walk := (walk stop limits target_pfn target).

Lemma visit_entry_grows below tbl prefix w u nx index s r s' :
  (∀ pfn prefix w u nx s r s',
     table_at la57 below pfn prefix → sees below pfn prefix w u nx → query_ok s →
     walk below pfn prefix w u nx s = (r, s') →
     grows reported_ok s s' ∧ (r = Success tt → active_path s' = active_path s)) →
  table_at la57 (S below) tbl prefix → sees (S below) tbl prefix w u nx → 0 ≤ index < 512 →
  query_ok s →
  visit_entry limits target_pfn target (walk below) (S below) tbl prefix w u nx
    (mem_bytes m (4096 * tbl) 4096) index s = (r, s') →
  grows reported_ok s s' ∧ (r = Success tt → active_path s' = active_path s).
Proof.
  intros IH Ht Hs Hi Hok. rewrite visit_entry_classify by done. cbv zeta.
  destruct (classify (S below) (entry_at m tbl index)) as [|l|pfn] eqn:Hc.
  - intros [= <- <-]. split; [by apply grows_refl|done].
  - destruct (classify_leaf _ _ _ Hc) as (Hsz & _ & _).
    destruct (next_prefix_range _ _ _ _ _ Ht Hi) as [_ Hr].
    destruct (level_shifts _ _ (ta_level _ _ _ _ Ht)) as [_ [_ Hw]].
    assert (2 ^ address_bits la57 ≤ 2 ^ 57) by (apply Z.pow_le_mono_r; lia).
    destruct (visit_large_cases limits target_pfn target Hpfn l (entry_at m tbl index)
      (prefix + index * 2 ^ ShiftForLevel (S below)) (entry_address tbl index)
      (w && writable (DecodePageEntry (entry_at m tbl index)))
      (u && user (DecodePageEntry (entry_at m tbl index)))
      (nx || no_execute (DecodePageEntry (entry_at m tbl index))) s _ Hsz)
      as [(base & Hb & Hoff & ->)|[_ ->]]; [lia| |].
    + intros Happ. apply (append_grows reported_ok) in Happ as (Hg & Ha & _); [done|done|].
      by apply sees_leaf.
    + intros [= <- <-]. split; [by apply grows_refl|done].
  - destruct (table_at_next _ _ _ _ _ Ht Hi Hc) as (_ & Ht' & _).
    pose proof (sees_next _ _ _ _ _ _ _ _ Ht Hi Hs Hc) as Hs'. cbv zeta in Hs'.
    intros Hr. destruct (if _ : bool then _ else _) as [[[]|e] s1] eqn:Happ in Hr.
    + assert (grows reported_ok s s1 ∧ active_path s1 = active_path s) as [Hg Ha].
      { destruct (_ && _) in Happ; [|simplify_eq; split; [by apply grows_refl|done]].
        apply (append_grows reported_ok) in Happ as (? & ? & _); [done|done|].
        apply not_data_next. }
      destruct (walk below pfn _ _ _ _ s1) as [[[]|e] s2] eqn:Hwk; simplify_eq.
      * apply IH in Hwk as [Hg' Ha']; [|done|done|apply Hg].
        split; [by eapply grows_trans|]. intros _. by rewrite Ha', Ha.
      * apply IH in Hwk as [Hg' _]; [|done|done|apply Hg]. split; [|done].
        eapply grows_trans; [done|]. destruct Hg' as [Hok' Hnew].
        split; [by apply query_ok_active|done].
    + simplify_eq. split; [|done]. destruct (_ && _) in Happ; [|done].
      apply (append_grows reported_ok) in Happ as (? & ? & _); [done|done|].
      apply not_data_next.
Qed.

(** How a walk that gets past its guards goes on. *)
Inductive walk_case (below : nat) (tbl prefix : Z) (w u nx : bool) (s : State)
    : Result unit * State → Prop :=
  | walk_stopped s1 :
      query_ok s1 → mappings s1 = mappings s →
      walk_case below tbl prefix w u nx s (Failure cancelled_error, s1)
  | walk_again s1 :
      tbl ∈ active_path s → query_ok s1 → mappings s1 = mappings s →
      active_path s1 = active_path s →
      walk_case below tbl prefix w u nx s (Success tt, s1)
  | walk_skipped r s1 :
      tbl ∉ active_path s → query_ok s1 → mappings s1 = mappings s →
      active_path s1 = active_path s → (r = Success tt → continue_on_read_error limits = true) →
      walk_case below tbl prefix w u nx s (r, s1)
  | walk_read s1 r s2 :
      tbl ∉ active_path s → query_ok s1 → mappings s1 = mappings s →
      active_path s1 = {[tbl]} ∪ active_path s →
      visit_entries (visit_entry limits target_pfn target (walk below) (S below) tbl
        prefix w u nx (mem_bytes m (4096 * tbl) 4096)) (seqZ 0 512) s1 = (r, s2) →
      walk_case below tbl prefix w u nx s (r, if Ok r then leave tbl s2 else s2).

Lemma walk_cases below tbl prefix w u nx s :
  query_ok s → 0 ≤ tbl < 2 ^ 52 →
  walk_case below tbl prefix w u nx s (walk (S below) tbl prefix w u nx s).
Proof.
  intros Hok Hb. cbn [ReverseMapper.walk]. unfold poll.
  set (s0 := s <| polls := S (polls s) |>).
  assert (query_ok s0) as Hok0 by by apply (query_ok_poll s).
  destruct (stop (polls s)); [by constructor|].
  case_bool_decide as Hin; [by apply walk_again|].
  set (s1 := s0 <| active_path := _ |>).
  assert (query_ok s1) as Hok1 by by apply query_ok_active.
  assert (active_path (leave tbl s1) = active_path s) as Hleave by by apply (leave_enter s0).
  destruct (Z.leb_spec (max_table_pages limits) (table_pages_read s1)) as [|Hpg].
  { apply walk_skipped; try done. by apply query_ok_active. }
  change (2 ^ 52) with 4503599627370496 in Hb.
  destruct (Z.ltb_spec (Z.shiftr u64_max 12) tbl) as [Hbig|_].
  { change (Z.shiftr u64_max 12) with 4503599627370495 in Hbig. lia. }
  replace (u64 (Z.shiftl tbl 12)) with (4096 * tbl).
  2:{ rewrite Z.shiftl_mul_pow2 by lia. change (2 ^ 12) with 4096.
      rewrite u64_id by (unfold is_u64; lia). lia. }
  destruct (ReadPhysical (4096 * tbl) 4096 (backend s1)) as [page b] eqn:Hrd.
  apply stable_read in Hrd as [HI Hpage]; [|apply Hok1].
  set (s2 := s1 <| backend := b |> <| table_pages_read := _ |>).
  assert (query_ok s2) as Hok2.
  { destruct Hok1. constructor; try done.
    change (table_pages_read s1 + 1 ≤ max_table_pages limits). lia. }
  destruct page as [page|e].
  2:{ apply walk_skipped; try done; [by apply query_ok_active|].
      by destruct (continue_on_read_error limits). }
  destruct (Z.eqb_spec (sizeZ page) 4096) as [Hsz|]; cbn [negb].
  2:{ apply walk_skipped; try done; [by apply query_ok_active|].
      by destruct (continue_on_read_error limits). }
  rewrite (Hpage Hsz).
  destruct (visit_entries _ _ s2) as [[[]|e] s3] eqn:Hv.
  - by apply (walk_read _ _ _ _ _ _ _ s2 (Success tt) s3).
  - by apply (walk_read _ _ _ _ _ _ _ s2 (Failure e) s3).
Qed.

Lemma grows_same P s s1 : query_ok s1 → mappings s1 = mappings s → grows P s s1.
Proof. split; [done|]. exists []. by rewrite app_nil_r. Qed.

(** Soundness of a walk: it reports true usages only, and on success leaves the
    set of active tables as it found it. *)
Lemma walk_grows level tbl prefix w u nx s r s' :
  table_at la57 level tbl prefix → sees level tbl prefix w u nx → query_ok s →
  walk level tbl prefix w u nx s = (r, s') →
  grows reported_ok s s' ∧ (r = Success tt → active_path s' = active_path s).
Proof.
  revert tbl prefix w u nx s r s'. induction level as [|below IH];
    intros tbl prefix w u nx s r s' Ht Hs Hok Hr.
  { pose proof (ta_level _ _ _ _ Ht). lia. }
  pose proof (walk_cases below tbl prefix w u nx s Hok (ta_pfn _ _ _ _ Ht)) as Hc. rewrite Hr in Hc.
  inversion Hc as [s1 Ho Hm|s1 Hin Ho Hm Ha|r1 s1 Hin Ho Hm Ha _|s1 r1 s2 Hin Ho Hm Ha Hve]; subst.
  1-3: split; [by apply grows_same|done].
  apply (visit_entries_grows reported_ok) in Hve as [Hg Hact]; [| |done].
  2:{ intros i sa ra sb Hi%elem_of_indices Hoka Hvi.
      exact (visit_entry_grows _ _ _ _ _ _ _ _ _ _ IH Ht Hs Hi Hoka Hvi). }
  assert (grows reported_ok s s2) as Hgs.
  { eapply grows_trans; [by apply grows_same|done]. }
  destruct r as [[]|e]; simpl.
  - split; [destruct Hgs as [Hgo Hgn]; split; [by apply query_ok_active|done]|].
    intros _. unfold leave. simpl. rewrite Hact, Ha by done. clear -Hin. set_solver.
  - done.
Qed.

(** *** Completeness *)

(** A reported key that covers the page of [va]. *)
Definition covers_key (va : Z) (leaf : Leaf) (k : MappingKey) : Prop :=
  ∃ l, k = (pst_pid target, CanonicalizeVirtualAddress (va - va `mod` 4096) la57,
            leaf_pte leaf, leaf_bytes leaf, leaf_type l).

Lemma covers_leaf level tbl prefix va l entry base pa :
  table_at la57 level tbl prefix → agrees la57 level prefix va →
  classify level entry = LeafEntry l →
  LeafPhysicalAddress l entry 0 = Success base → LeafPhysicalAddress l entry va = Success pa →
  pa `div` 4096 = target_pfn →
  CanonicalizeVirtualAddress
    (prefix + va_index level va * 2 ^ ShiftForLevel level + (4096 * target_pfn - base)) la57 =
  CanonicalizeVirtualAddress (va - va `mod` 4096) la57.
Proof.
  intros Ht Hag Hc Hb Hpa Hp. pose proof (ta_level _ _ _ _ Ht) as Hl.
  destruct (level_shifts _ _ Hl) as [Hs [Hw H57]]. unfold top_shift in Hw.
  destruct (classify_leaf _ _ _ Hc) as (Hsz & _ & _).
  destruct (leaf_address_split _ _ _ _ Hb) as (base' & size & Hsz' & Hm & _ & Hall).
  rewrite Hsz in Hsz'. injection Hsz' as <-. set (k := ShiftForLevel level) in *.
  pose proof (Z.pow_pos_nonneg 2 k). rewrite Hall in Hb, Hpa. rewrite Z.mod_0_l in Hb by lia.
  injection Hb as <-. injection Hpa as <-.
  assert (0 ≤ va_index level va < 512) as Hi by (apply Z.mod_pos_bound; lia).
  pose proof (proj2 (agrees_step la57 level prefix (va_index level va) va Hl Hi (ta_aligned _ _ _ _ Ht))
    (conj Hag eq_refl)) as Hnp. fold k in Hnp. rewrite <- Hnp.
  set (r := va `mod` 2 ^ address_bits la57) in *.
  assert (∀ j, 0 ≤ j ≤ address_bits la57 → r `mod` 2 ^ j = va `mod` 2 ^ j) as Hr.
  { intros j Hj. apply Z.mod_mod_divide. exists (2 ^ (address_bits la57 - j)).
    rewrite <- Z.pow_add_r by lia. f_equal. lia. }
  assert (2 ^ k = 4096 * 2 ^ (k - 12)) as H4k.
  { change 4096 with (2 ^ 12). rewrite <- Z.pow_add_r by lia. f_equal. lia. }
  assert (4096 * target_pfn - base' = va `mod` 2 ^ k - va `mod` 4096) as Hoff.
  { replace (base' + 0) with base' in Hp by lia.
    assert ((base' + va `mod` 2 ^ k) `mod` 4096 = va `mod` 4096) as Hmm.
    { apply Z.div_exact in Hm; [|lia]. rewrite Hm, H4k.
      replace (4096 * 2 ^ (k - 12) * (base' `div` (4096 * 2 ^ (k - 12))) +
        va `mod` (4096 * 2 ^ (k - 12))) with (va `mod` (4096 * 2 ^ (k - 12)) +
        (2 ^ (k - 12) * (base' `div` (4096 * 2 ^ (k - 12)))) * 4096) by lia.
      rewrite Z.mod_add by lia. apply Z.mod_mod_divide. exists (2 ^ (k - 12)). lia. }
    pose proof (Z.div_mod (base' + va `mod` 2 ^ k) 4096). lia. }
  rewrite Z.add_0_r, Hoff, <- (Hr k) by lia.
  replace (r `div` 2 ^ k * 2 ^ k + (r `mod` 2 ^ k - va `mod` 4096)) with (r - va `mod` 4096)
    by (pose proof (Z.div_mod r (2 ^ k)); lia).
  rewrite !Canonicalize_sign_extend. rewrite <- (sign_extend_mod _ (r - _)) by lia.
  unfold r. rewrite Zminus_mod_idemp_l. apply sign_extend_mod. lia.
Qed.

Lemma visit_entries_app visit l1 l2 s :
  visit_entries (B := B) visit (l1 ++ l2) s =
  match visit_entries visit l1 s with
  | (Failure e, s1) => (Failure e, s1)
  | (Success _, s1) => visit_entries visit l2 s1
  end.
Proof.
  revert s. induction l1 as [|i l1 IH]; intros s; [done|]. simpl.
  by destruct (visit i s) as [[[]|e] s1].
Qed.

(** The entry an address selects is enough for its page to be reported. *)
Lemma visit_entry_complete below tbl prefix w u nx s s' va leaf :
  (∀ pfn prefix w u nx s s',
     table_at la57 below pfn prefix → sees below pfn prefix w u nx → query_ok s →
     walk below pfn prefix w u nx s = (Success tt, s') → agrees la57 below prefix va →
     translate_from m below pfn va w u nx = Some leaf →
     NoDup (tables_from m below pfn va) →
     (∀ t, t ∈ tables_from m below pfn va → t ∉ active_path s) →
     ∃ k, k ∈ mapping_key <$> mappings s' ∧ covers_key va leaf k) →
  table_at la57 (S below) tbl prefix → sees (S below) tbl prefix w u nx → query_ok s →
  agrees la57 (S below) prefix va →
  translate_from m (S below) tbl va w u nx = Some leaf → leaf_pa leaf `div` 4096 = target_pfn →
  NoDup (tables_from m (S below) tbl va) →
  (∀ t, t ∈ tables_from m (S below) tbl va → t ∈ active_path s → t = tbl) →
  visit_entry limits target_pfn target (walk below) (S below) tbl prefix w u nx
    (mem_bytes m (4096 * tbl) 4096) (va_index (S below) va) s = (Success tt, s') →
  ∃ k, k ∈ mapping_key <$> mappings s' ∧ covers_key va leaf k.
Proof.
  intros IH Ht Hs Hok Hag Htr Hpa Hnd Hact.
  assert (0 ≤ va_index (S below) va < 512) as Hi by (apply Z.mod_pos_bound; lia).
  rewrite visit_entry_classify by done. cbv zeta. cbn [translate_from tables_from] in Htr, Hnd, Hact.
  set (index := va_index (S below) va) in *. set (entry := entry_at m tbl index) in *.
  destruct (classify (S below) entry) as [|l|pfn] eqn:Hc; [done| |].
  - destruct (LeafPhysicalAddress l entry va) as [pa|] eqn:Hla; [|done].
    destruct (classify_leaf _ _ _ Hc) as (Hsz & Hlen & _). rewrite Hsz in Htr.
    injection Htr as <-. simpl in Hpa.
    destruct (next_prefix_range _ _ _ _ _ Ht Hi) as [_ Hr].
    destruct (level_shifts _ _ (ta_level _ _ _ _ Ht)) as [_ [_ Hw]].
    assert (2 ^ address_bits la57 ≤ 2 ^ 57) by (apply Z.pow_le_mono_r; lia).
    match goal with |- visit_large _ _ _ _ _ _ _ ?np ?epa ?w1 ?u1 ?nx1 _ = _ → _ =>
      destruct (visit_large_cases limits target_pfn target Hpfn l entry np epa w1 u1 nx1 s _ Hsz)
        as [(base & Hb & _ & ->)|[Hno _]]; [lia| |by apply Hno in Hla] end.
    intros Happ. apply (append_grows (λ _, True)) in Happ as (_ & _ & Hin); [|done|done].
    eexists. split; [by apply Hin|]. exists l.
    unfold leaf_usage, make_usage, mapping_key.
    cbn [pu_pid pu_virtual_address pu_pte_address pu_page_size pu_mapping_type leaf_pte leaf_bytes].
    pose proof (covers_leaf (S below) tbl prefix va l entry base pa Ht Hag Hc Hb Hla Hpa) as Hcv.
    fold index in Hcv. by rewrite Hcv, Hlen.
  - destruct (table_at_next _ _ _ _ _ Ht Hi Hc) as (_ & Ht' & Hag').
    pose proof (sees_next _ _ _ _ _ _ _ _ Ht Hi Hs Hc) as Hs'. cbv zeta in Hs'.
    intros Hr. destruct (if _ : bool then _ else _) as [[[]|e] s1] eqn:Happ in Hr; [|done].
    assert (query_ok s1 ∧ active_path s1 = active_path s) as [Hok1 Ha].
    { destruct (_ && _) in Happ; [|by simplify_eq].
      apply (append_grows (λ _, True)) in Happ as (Hg & ? & _); [|done|done].
      split; [apply Hg|done]. }
    destruct (walk below pfn _ _ _ _ s1) as [[[]|e] s2] eqn:Hwk; simplify_eq.
    apply NoDup_cons in Hnd as [Hn1 Hn2].
    apply IH in Hwk; [done|done|done|done|by apply Hag'|done|done|].
    intros t Ht1 Ht2. rewrite Ha in Ht2. apply Hact in Ht2; [by subst|].
    apply elem_of_cons. by right.
Qed.

Lemma walk_complete level tbl prefix w u nx s s' va leaf :
  continue_on_read_error limits = false → leaf_pa leaf `div` 4096 = target_pfn →
  table_at la57 level tbl prefix → sees level tbl prefix w u nx → query_ok s →
  walk level tbl prefix w u nx s = (Success tt, s') → agrees la57 level prefix va →
  translate_from m level tbl va w u nx = Some leaf →
  NoDup (tables_from m level tbl va) →
  (∀ t, t ∈ tables_from m level tbl va → t ∉ active_path s) →
  ∃ k, k ∈ mapping_key <$> mappings s' ∧ covers_key va leaf k.
Proof.
  intros Hstrict Hpa. revert tbl prefix w u nx s s'. induction level as [|below IH];
    intros tbl prefix w u nx s s' Ht Hs Hok Hr Hag Htr Hnd Hact; [done|].
  pose proof (walk_cases below tbl prefix w u nx s Hok (ta_pfn _ _ _ _ Ht)) as Hc. rewrite Hr in Hc.
  assert (tbl ∉ active_path s) as Hfresh by (apply Hact; simpl; apply elem_of_cons; by left).
  inversion Hc as [|s1 Hin|r1 s1 _ _ _ _ Hsk|s1 r1 s2 _ Ho Hm Ha Hve]; subst.
  { by destruct Hfresh. } { rewrite Hsk in Hstrict; done. }
  cbn [Ok]. destruct (list_elem_of_split (seqZ 0 512) (va_index (S below) va)) as (pre & post & E).
  { apply elem_of_indices, Z.mod_pos_bound. lia. }
  assert (∀ i sa ra sb, i ∈ pre ++ va_index (S below) va :: post → query_ok sa →
    visit_entry limits target_pfn target (walk below) (S below) tbl prefix w u nx
      (mem_bytes m (4096 * tbl) 4096) i sa = (ra, sb) →
    grows reported_ok sa sb ∧ (ra = Success tt → active_path sb = active_path sa)) as Hstep.
  { intros i sa ra sb Hi Hoka Hvi. rewrite <- E in Hi. apply elem_of_indices in Hi.
    exact (visit_entry_grows _ _ _ _ _ _ _ _ _ _ (walk_grows below) Ht Hs Hi Hoka Hvi). }
  rewrite E, visit_entries_app in Hve. clear E Hc Hr.
  destruct (visit_entries _ pre s1) as [[[]|e] sa] eqn:Hpre; [|done].
  apply (visit_entries_grows reported_ok) in Hpre as [Hga Haa]; [| |done].
  2:{ intros i ????. apply Hstep, elem_of_app. by left. }
  cbn [visit_entries] in Hve.
  destruct (visit_entry _ _ _ _ _ _ _ _ _ _ _ _ sa) as [[[]|e] sb] eqn:Hvi; [|done].
  assert (query_ok sb) as Hokb.
  { apply Hstep in Hvi as [[? _] _]; [done|apply elem_of_app; right; apply elem_of_cons; by left|].
    apply Hga. }
  apply (visit_entry_complete below tbl prefix w u nx sa sb va leaf) in Hvi as (k & Hk & Hcov);
    [|done|done|done|apply Hga|done|done|done|done|].
  2:{ intros t Hin Hta. rewrite Haa, Ha in Hta by done.
      apply elem_of_union in Hta as [?%elem_of_singleton|Hta]; [done|]. by apply Hact in Hin. }
  exists k. split; [|done]. change (mappings (leave tbl s2)) with (mappings s2).
  apply (visit_entries_grows reported_ok) in Hve as [Hgb _]; [by eapply grows_keys| |done].
  intros i ????. apply Hstep, elem_of_app. right. apply elem_of_cons. by right.
Qed.
End Target.
End Correctness.
