(* ===== verification/ReverseMapperQuery.v ===== *)
(** Sparse page tables: walking a table with one entry in use, and a concrete
    four-level mapping on the mock backend that the theorems are instantiated with.

    The reverse-mapping query as a whole: soundness, completeness, and the order and
    bounds of its result. *)

From S2P Require Import Prelude CppStd Common X64PageTable MemoryBackend MockMemoryBackend ReverseMapper ReverseMapperEntry ReverseMapperTheorems.
From stdpp Require Import gmap.
From stdpp Require Import gmap sorting.
From Stdlib Require Import Ascii String.

#[local] Open Scope Z_scope.

(** ** Memory given by its table entries

    [entries] gives the 64-bit word at each multiple of 8. *)
Definition table_memory (entries : Z → Z) : Z → Z :=
  λ a, u8 (Z.shiftr (entries (a `div` 8)) (8 * (a `mod` 8))).

Lemma entry_at_table_memory entries tbl index :
  is_u64 (entries (512 * tbl + index)) →
  entry_at (table_memory entries) tbl index = entries (512 * tbl + index).
Proof.
  intros Hv. unfold is_u64 in Hv. unfold entry_at. rewrite mem_bytes_seqZ.
  set (v := entries (512 * tbl + index)) in *.
  transitivity (le_value (le_bytes 8 v)).
  { f_equal. apply list_fmap_ext. intros i k Hk%list_elem_of_lookup_2%elem_of_seqZ.
    unfold table_memory, entry_address.
      replace (4096 * tbl + 8 * index + k) with (k + (512 * tbl + index) * 8) by lia.
      by rewrite Z.div_add, Z.mod_add, Z.div_small, Z.mod_small, Z.add_0_l by lia. }
  apply le_value_le_bytes; [lia|]. change (256 ^ 8) with 18446744073709551616. lia.
Qed.

(** ** The mock backend reads a fixed memory *)

Definition mock_holds (m : Z → Z) (b : MockMemoryBackend) : Prop :=
  open_ b = true ∧ faults_ b = no_faults ∧ ∀ i, memory_ b i = m (i + kBaseAddress).

Lemma mock_holds_bytes m b pa n :
  mock_holds m b → mem_bytes (memory_ b) (pa - kBaseAddress) n = mem_bytes m pa n.
Proof.
  intros (_ & _ & Hm). rewrite <- mem_bytes_shift. apply mem_bytes_ext. intros i _.
  rewrite Hm. f_equal. lia.
Qed.

Lemma mock_holds_read m b pa n :
  mock_holds m b → Mock_Contains pa n = true →
  ∃ b', Mock_ReadPhysical pa n b = (Success (mem_bytes m pa n), b') ∧ mock_holds m b'.
Proof.
  intros Hm Hc. pose proof (mock_holds_bytes m b pa n Hm) as Hb. destruct Hm as (Ho & Hf & Hm).
  unfold Mock_ReadPhysical. destruct b as [mem f o w wc rc ec dc cc]. simpl in *. subst.
  unfold apply_mutate_before_read. simpl. rewrite Hc.
  destruct (Z.eqb_spec n 0) as [->|_].
  { exfalso. unfold Mock_Contains, Contains in Hc. by rewrite orb_true_r in Hc. }
  simpl. rewrite Hb. eexists. split; [reflexivity|]. done.
Qed.

#[export] Instance mock_StableReads m :
  StableReads m (λ p, if p =? kMockPid then Some kBaseAddress else None) (mock_holds m).
Proof.
  constructor.
  - intros b pa n r b' Hm Hr. simpl in Hr. destruct (Mock_Contains pa n) eqn:Hc.
    + destruct (mock_holds_read m b pa n Hm Hc) as (b1 & Hr' & Hm').
      rewrite Hr' in Hr. injection Hr as <- <-. done.
    + destruct Hm as (Ho & Hf & Hm). unfold Mock_ReadPhysical in Hr.
      destruct b as [mem f o w wc rc ec dc cc]. simpl in *. subst. rewrite Hc, orb_true_r in Hr.
      injection Hr as <- <-. split; [|done]. split_and!; done.
  - intros b p r b' Hm Hr. simpl in Hr. unfold Mock_GetProcessContext in Hr.
    rewrite (proj1 Hm) in Hr. simpl in Hr.
    destruct (Z.eqb_spec p kMockPid); simplify_eq/=; done.
Qed.

(** ** Tables with one entry in use *)

Section Sparse.
Context (entries : Z → Z) (limits : ReverseMapLimits) (target_pfn : Z) (target : ProcessScanTarget).
Hypothesis Hpfn : 0 ≤ target_pfn ≤ kX64MaxPageFrameNumber.
Abbreviation m := (table_memory entries).
Abbreviation State := (QueryState MockMemoryBackend).
Abbreviation la57 := (pst_la57 target).

Lemma visit_entries_skip (visit : Z → State → Result unit * State) l s :
  (∀ j s, j ∈ l → visit j s = (Success tt, s)) → visit_entries visit l s = (Success tt, s).
Proof.
  induction l as [|j l IH]; intros Hv; [done|]. simpl.
  rewrite Hv by (apply elem_of_cons; by left). apply IH. intros. apply Hv, elem_of_cons. by right.
Qed.
Lemma visit_entries_only (visit : Z → State → Result unit * State) i s :
  0 ≤ i < 512 → (∀ j s, 0 ≤ j < 512 → j ≠ i → visit j s = (Success tt, s)) →
  visit_entries visit (seqZ 0 512) s =
  (let r := visit i s in if Ok r.1 then (Success tt, r.2) else r).
Proof.
  intros Hi Hv. destruct (list_elem_of_split (seqZ 0 512) i) as (pre & post & E).
  { by apply elem_of_indices. }
  pose proof (NoDup_seqZ 0 512) as Hnd. rewrite E in Hnd.
  apply NoDup_app in Hnd as (_ & Hd & [Hi' _]%NoDup_cons).
  assert (∀ j, j ∈ pre ∨ j ∈ post → 0 ≤ j < 512) as Hin.
  { intros j Hj. apply elem_of_indices. rewrite E, elem_of_app, elem_of_cons. tauto. }
  rewrite E, visit_entries_app, visit_entries_skip.
  2:{ intros j s' Hj. apply Hv; [by auto|]. intros ->. apply (Hd i Hj), elem_of_cons. by left. }
  cbn [visit_entries]. destruct (visit i s) as [[[]|e] s1]; [|done]. simpl.
  apply visit_entries_skip. intros j s' Hj. apply Hv; [by auto|]. by intros ->.
Qed.

(** A walk on a table whose only non-zero entry is [i]. *)
Lemma walk_sparse below tbl prefix w u nx s i :
  table_at la57 (S below) tbl prefix → 0 ≤ i < 512 →
  (∀ j, 0 ≤ j < 512 → j ≠ i → entries (512 * tbl + j) = 0) →
  Mock_Contains (4096 * tbl) 4096 = true → mock_holds m (backend s) →
  tbl ∉ active_path s → table_pages_read s < max_table_pages limits →
  ∃ s1, mock_holds m (backend s1) ∧ mappings s1 = mappings s ∧
    seen_mappings s1 = seen_mappings s ∧ table_pages_read s1 = table_pages_read s + 1 ∧
    active_path s1 = {[tbl]} ∪ active_path s ∧
    walk (λ _, false) limits target_pfn target (S below) tbl prefix w u nx s =
    (let r := visit_entry limits target_pfn target
                (walk (λ _, false) limits target_pfn target below)
                (S below) tbl prefix w u nx (mem_bytes m (4096 * tbl) 4096) i s1 in
     if Ok r.1 then (Success tt, leave tbl r.2) else r).
Proof using Hpfn.
  intros Ht Hi Hz Hc Hm Hn Hp. cbn [ReverseMapper.walk]. unfold poll.
  set (s0 := s <| polls := S (polls s) |>).
  assert (tbl ∉ active_path s0) as Hn0 by exact Hn. rewrite bool_decide_eq_false_2 by exact Hn0.
  set (sa := s0 <| active_path := _ |>).
  assert (table_pages_read sa < max_table_pages limits) as Hpa by exact Hp.
  destruct (Z.leb_spec (max_table_pages limits) (table_pages_read sa)); [lia|].
  pose proof (ta_pfn _ _ _ _ Ht) as Hb. change (2 ^ 52) with 4503599627370496 in Hb.
  destruct (Z.ltb_spec (Z.shiftr u64_max 12) tbl) as [Hbig|_].
  { change (Z.shiftr u64_max 12) with 4503599627370495 in Hbig. lia. }
  replace (u64 (Z.shiftl tbl 12)) with (4096 * tbl).
  2:{ rewrite Z.shiftl_mul_pow2 by lia. change (2 ^ 12) with 4096.
      rewrite u64_id by (unfold is_u64; lia). lia. }
  destruct (mock_holds_read m (backend s) (4096 * tbl) 4096 Hm Hc) as (b1 & Hrd & Hm1).
  change (ReadPhysical (4096 * tbl) 4096 (backend sa)) with
    (Mock_ReadPhysical (4096 * tbl) 4096 (backend s)). rewrite Hrd.
  rewrite sizeZ_mem_bytes by done. cbn [negb Z.eqb Pos.eqb].
  set (s1 := sa <| backend := b1 |> <| table_pages_read := _ |>).
  exists s1. split_and!; [done|done|done|done|done|].
  rewrite (visit_entries_only _ i) by
    (done || (intros j s' Hj Hne; rewrite visit_entry_classify by done; cbv zeta;
      rewrite entry_at_table_memory; rewrite Hz by done; done)).
  cbv zeta. by destruct (visit_entry _ _ _ _ _ _ _ _ _ _ _ i s1) as [[[]|e] s2].
Qed.

(** If the entry points to another table, the walk succeeds when the walk there does. *)
Lemma walk_sparse_next below tbl prefix w u nx s i entry pfn :
  table_at la57 (S below) tbl prefix → 0 ≤ i < 512 →
  (∀ j, 0 ≤ j < 512 → j ≠ i → entries (512 * tbl + j) = 0) →
  entries (512 * tbl + i) = entry → is_u64 entry →
  classify (S below) entry = NextTable pfn → pfn ≠ target_pfn →
  Mock_Contains (4096 * tbl) 4096 = true → mock_holds m (backend s) →
  tbl ∉ active_path s → table_pages_read s < max_table_pages limits →
  ∃ s1 w' u' nx', mock_holds m (backend s1) ∧ mappings s1 = mappings s ∧
    table_pages_read s1 = table_pages_read s + 1 ∧ active_path s1 = {[tbl]} ∪ active_path s ∧
    Ok (walk (λ _, false) limits target_pfn target (S below) tbl prefix w u nx s).1 =
    Ok (walk (λ _, false) limits target_pfn target below pfn
          (prefix + i * 2 ^ ShiftForLevel (S below)) w' u' nx' s1).1.
Proof using Hpfn.
  intros Ht Hi Hz He Hu Hc Hne Hram Hm Hn Hp.
  destruct (walk_sparse below tbl prefix w u nx s i) as (s1 & Hm1 & ? & _ & ? & ? & ->); [done..|].
  rewrite visit_entry_classify by done. cbv zeta.
  rewrite entry_at_table_memory; rewrite He; [|done]. rewrite Hc.
  rewrite (proj2 (Z.eqb_neq _ _) Hne), andb_false_r.
  exists s1, (w && writable (DecodePageEntry entry)), (u && user (DecodePageEntry entry)),
    (nx || no_execute (DecodePageEntry entry)). split_and!; [done..|].
  by destruct (walk _ _ _ _ _ _ _ _ _ _ s1) as [[[]|e] s2].
Qed.

(** If it is a leaf, the walk succeeds as long as there is room for a result. *)
Lemma walk_sparse_leaf below tbl prefix w u nx s i entry l :
  table_at la57 (S below) tbl prefix → 0 ≤ i < 512 →
  (∀ j, 0 ≤ j < 512 → j ≠ i → entries (512 * tbl + j) = 0) →
  entries (512 * tbl + i) = entry → is_u64 entry →
  classify (S below) entry = LeafEntry l →
  Mock_Contains (4096 * tbl) 4096 = true → mock_holds m (backend s) →
  tbl ∉ active_path s → table_pages_read s < max_table_pages limits →
  sizeZ (mappings s) < max_results limits →
  Ok (walk (λ _, false) limits target_pfn target (S below) tbl prefix w u nx s).1 = true.
Proof using Hpfn.
  intros Ht Hi Hz He Hu Hc Hram Hm Hn Hp Hmax.
  destruct (walk_sparse below tbl prefix w u nx s i) as (s1 & Hm1 & Hmap & _ & _ & _ & ->); [done..|].
  rewrite visit_entry_classify by done. cbv zeta.
  rewrite entry_at_table_memory; rewrite He; [|done]. rewrite Hc.
  assert (∀ us, Ok (append_mapping limits us s1).1 = true) as Happ.
  { intros us. unfold append_mapping. case_bool_decide; [done|]. rewrite Hmap.
    by destruct (Z.leb_spec (max_results limits) (sizeZ (mappings s))); [lia|]. }
  unfold visit_large. destruct (LeafPhysicalAddress l entry 0); [|done].
  destruct (_ && _); [|done].
  match goal with |- context [append_mapping limits ?us s1] => specialize (Happ us) end.
  rewrite Happ. done.
Qed.
End Sparse.

(** ** A concrete mapping

    Process 1337 of the mock, whose tables start at the base of the mock's RAM: the
    virtual address 0x8080604000 goes through entries 1, 2, 3 and 4 of four tables
    to frame 0x12C. *)
Definition map_entries (q : Z) : Z :=
  if q =? 512 * 256 + 1 then 0x101007
  else if q =? 512 * 257 + 2 then 0x102007
  else if q =? 512 * 258 + 3 then 0x103003
  else if q =? 512 * 259 + 4 then 0x12C003
  else 0.
Definition map_memory : Z → Z := table_memory map_entries.
Definition map_backend : MockMemoryBackend :=
  ((Mock_Open make_MockMemoryBackend).2) <| memory_ := λ i, map_memory (i + kBaseAddress) |>.
Definition map_target : ProcessScanTarget := mkProcessScanTarget kMockPid "demo.exe" 0 false.
Definition map_limits : ReverseMapLimits := mkReverseMapLimits 16 8 true false.
Definition map_mapper : PageTableReverseMapper :=
  SetLimits map_limits (SetTargets [map_target] make_PageTableReverseMapper).
Definition map_va : Z := 0x8080604000.

Lemma map_holds : mock_holds map_memory map_backend.
Proof. by split_and!. Qed.

Lemma map_entries_other tbl i :
  (tbl, i) ∈ [(256, 1); (257, 2); (258, 3); (259, 4)] →
  ∀ j, 0 ≤ j < 512 → j ≠ i → map_entries (512 * tbl + j) = 0.
Proof.
  intros Hin j Hj Hne. unfold map_entries.
  repeat (apply elem_of_cons in Hin as [[= -> ->]|Hin]); [..|by apply elem_of_nil in Hin];
    repeat match goal with |- context [Z.eqb ?a ?b] => destruct (Z.eqb_spec a b); [lia|] end; done.
Qed.

Lemma map_walk (s : QueryState MockMemoryBackend) w u nx t :
  mock_holds map_memory (backend s) → active_path s = ∅ → table_pages_read s = 0 →
  mappings s = [] → pst_la57 t = false →
  Ok (walk (λ _, false) map_limits 0x12C t 4 256 0 w u nx s).1 = true.
Proof.
  intros Hm Ha Hp Hmap Hla.
  assert (0 ≤ 0x12C ≤ kX64MaxPageFrameNumber) as Hpfn by (unfold kX64MaxPageFrameNumber; done).
  assert (∀ level tbl prefix, (1 ≤ level ≤ 4)%nat → 0 ≤ tbl < 2 ^ 52 →
    prefix `mod` 2 ^ top_shift level = 0 → 0 ≤ prefix < 2 ^ 48 →
    table_at (pst_la57 t) level tbl prefix) as Hat.
  { intros level tbl prefix ????. rewrite Hla. by constructor. }
  destruct (walk_sparse_next map_entries map_limits 0x12C t Hpfn 3 256 0 w u nx s 1 0x101007 257)
    as (s1 & w1 & u1 & nx1 & Hm1 & Hmap1 & Hp1 & Ha1 & ->); try done.
  { by apply Hat; lia || done. } { apply map_entries_other. set_solver. }
  { rewrite Ha. set_solver. } { rewrite Hp. done. }
  destruct (walk_sparse_next map_entries map_limits 0x12C t Hpfn 2 257 (0 + 1 * 2 ^ ShiftForLevel 4) w1 u1 nx1
    s1 2 0x102007 258) as (s2 & w2 & u2 & nx2 & Hm2 & Hmap2 & Hp2 & Ha2 & ->); try done.
  { by apply Hat; lia || done. } { apply map_entries_other. set_solver. }
  { rewrite Ha1, Ha. set_solver by lia. } { rewrite Hp1, Hp. done. }
  destruct (walk_sparse_next map_entries map_limits 0x12C t Hpfn 1 258
    (0 + 1 * 2 ^ ShiftForLevel 4 + 2 * 2 ^ ShiftForLevel 3) w2 u2 nx2
    s2 3 0x103003 259) as (s3 & w3 & u3 & nx3 & Hm3 & Hmap3 & Hp3 & Ha3 & ->); try done.
  { by apply Hat; lia || done. } { apply map_entries_other. set_solver. }
  { rewrite Ha2, Ha1, Ha. set_solver by lia. } { rewrite Hp2, Hp1, Hp. done. }
  apply (walk_sparse_leaf map_entries map_limits 0x12C t Hpfn 0 259
    (0 + 1 * 2 ^ ShiftForLevel 4 + 2 * 2 ^ ShiftForLevel 3 + 3 * 2 ^ ShiftForLevel 2) w3 u3 nx3 s3 4 0x12C003 Pt); try done.
  { by apply Hat; lia || done. } { apply map_entries_other. set_solver. }
  { rewrite Ha3, Ha2, Ha1, Ha. set_solver by lia. } { rewrite Hp3, Hp2, Hp1, Hp. done. }
  rewrite Hmap3, Hmap2, Hmap1, Hmap. done.
Qed.

(** ** The order of the result *)

Lemma key_lt_iff a1 a2 a3 a4 a5 b1 b2 b3 b4 b5 :
  key_lt (a1, a2, a3, a4, a5) (b1, b2, b3, b4, b5) = true ↔
  a1 < b1 ∨ a1 = b1 ∧ (a2 < b2 ∨ a2 = b2 ∧ (a3 < b3 ∨ a3 = b3 ∧
    (a4 < b4 ∨ a4 = b4 ∧ String.compare a5 b5 = Lt))).
Proof.
  unfold key_lt, String.ltb.
  rewrite !orb_true_iff, !andb_true_iff, !orb_true_iff, !andb_true_iff, !orb_true_iff,
    !andb_true_iff, !orb_true_iff, !andb_true_iff, !Z.ltb_lt, !Z.eqb_eq.
  assert ((match String.compare a5 b5 with Lt => true | _ => false end) = true ↔
    String.compare a5 b5 = Lt) as -> by by destruct (String.compare a5 b5).
  done.
Qed.

Lemma key_lt_trans a b c : key_lt a b = true → key_lt b c = true → key_lt a c = true.
Proof.
  destruct a as [[[[a1 a2] a3] a4] a5], b as [[[[b1 b2] b3] b4] b5], c as [[[[c1 c2] c3] c4] c5].
  rewrite !key_lt_iff. intros H1 H2.
  destruct H1 as [?|[? [?|[? [?|[? [?|[??]]]]]]]], H2 as [?|[? [?|[? [?|[? [?|[??]]]]]]]];
    try lia.
  do 4 (right; split; [lia|]). by eapply string_compare_trans.
Qed.
Lemma key_lt_trichotomy a b : key_lt a b = true ∨ a = b ∨ key_lt b a = true.
Proof.
  destruct a as [[[[a1 a2] a3] a4] a5], b as [[[[b1 b2] b3] b4] b5]. rewrite !key_lt_iff.
  destruct (Z.lt_trichotomy a1 b1) as [?|[->|?]]; [lia| |lia].
  destruct (Z.lt_trichotomy a2 b2) as [?|[->|?]]; [lia| |lia].
  destruct (Z.lt_trichotomy a3 b3) as [?|[->|?]]; [lia| |lia].
  destruct (Z.lt_trichotomy a4 b4) as [?|[->|?]]; [lia| |lia].
  rewrite (String.compare_antisym b5 a5).
  destruct (String.compare a5 b5) eqn:E; [|tauto..].
  apply String.compare_eq_iff in E as ->. tauto.
Qed.
Lemma key_lt_irrefl a : key_lt a a = false.
Proof.
  destruct (key_lt a a) eqn:E; [|done]. destruct a as [[[[a1 a2] a3] a4] a5].
  apply key_lt_iff in E as [?|[_ [?|[_ [?|[_ [?|[_ E]]]]]]]]; [lia..|].
  pose proof (String.compare_antisym a5 a5) as Ha. by rewrite E in Ha.
Qed.
Lemma key_lt_asym a b : key_lt a b = true → key_lt b a = false.
Proof.
  intros H1. destruct (key_lt b a) eqn:H2; [|done].
  pose proof (key_lt_trans _ _ _ H1 H2) as H3. by rewrite key_lt_irrefl in H3.
Qed.

#[export] Instance usage_le_total : Total usage_le.
Proof.
  intros u v. unfold usage_le.
  destruct (key_lt (mapping_key u) (mapping_key v)) eqn:E; [left; by apply key_lt_asym|by right].
Qed.
#[export] Instance usage_le_trans : Transitive usage_le.
Proof.
  intros u v w. unfold usage_le. intros H1 H2.
  destruct (key_lt (mapping_key w) (mapping_key u)) eqn:E; [|done].
  destruct (key_lt_trichotomy (mapping_key v) (mapping_key w)) as [H|[H|H]]; [|congruence..].
  pose proof (key_lt_trans _ _ _ H E). congruence.
Qed.

Definition usage_lt (u v : ProcessUsage) : Prop := key_lt (mapping_key u) (mapping_key v) = true.

(** Usages with distinct keys are sorted strictly. *)
Lemma sort_mappings_strict l :
  NoDup (mapping_key <$> l) → StronglySorted usage_lt (sort_mappings l) ∧ sort_mappings l ≡ₚ l.
Proof.
  intros Hnd. assert (sort_mappings l ≡ₚ l) as Hp by apply merge_sort_Permutation.
  split; [|done]. assert (NoDup (mapping_key <$> sort_mappings l)) as Hnd' by by rewrite Hp.
  pose proof (StronglySorted_merge_sort usage_le l) as Hs.
  unfold sort_mappings in *. generalize dependent (merge_sort usage_le l). clear. intros l' _ Hnd Hs.
  induction Hs as [|u l' Hs IH Hf]; [constructor|].
  apply NoDup_cons in Hnd as [Hu Hnd]. constructor; [by apply IH|].
  rewrite Forall_forall in Hf |- *. intros v Hv. specialize (Hf v Hv). unfold usage_le in Hf.
  destruct (key_lt_trichotomy (mapping_key u) (mapping_key v)) as [?|[E|?]]; [done| |congruence].
  destruct Hu. rewrite E. by apply list_elem_of_fmap_2.
Qed.

(** The page of a canonical address is canonical. *)
Lemma canonical_page_base va la57 :
  is_u64 va → CanonicalizeVirtualAddress va la57 = va →
  CanonicalizeVirtualAddress (va - va `mod` 4096) la57 = va - va `mod` 4096.
Proof.
  intros Hva. rewrite !Canonicalize_sign_extend. unfold is_u64 in *.
  pose proof (Z.mod_pos_bound va 4096 ltac:(lia)). pose proof (Z.mod_le va 4096).
  assert (1 ≤ address_bits la57 ≤ 64) as Hw by (destruct la57; simpl; lia).
  rewrite (sign_extend_fixed _ va) by done.
  rewrite sign_extend_fixed by (unfold is_u64; lia || done).
  intros [?|Hge]; [left; lia|right].
  assert ((2 ^ 64 - 2 ^ (address_bits la57 - 1)) `mod` 4096 = 0) as Hm by by destruct la57.
  set (t := 2 ^ 64 - 2 ^ (address_bits la57 - 1)) in *. clearbody t.
  Z.div_mod_to_equations. lia.
Qed.

(** ** One target, all targets *)

Section Query.
Context {B : Type} `{IMemoryBackend B}.
Context (m : Z → Z) (dtb_of : Z → option Z) (I : B → Prop) `{!StableReads m dtb_of I}.
Hypothesis dtb_typed : ∀ p d, dtb_of p = Some d → is_u64 d.
Context (stop : nat → bool) (limits : ReverseMapLimits) (target_pfn : Z).
Hypothesis Hpfn : 0 ≤ target_pfn ≤ kX64MaxPageFrameNumber.

Abbreviation State := (QueryState B).
Abbreviation query_ok := (query_ok I limits).
Abbreviation grows := (grows I limits).

(** The table base a target is scanned with: its own, or the process's. *)
Definition scan_base (t : ProcessScanTarget) : option Z :=
  if pst_directory_table_base t =? 0 then dtb_of (pst_pid t)
  else Some (pst_directory_table_base t).

(** A usage of [t] that is true under the table base [t] is scanned with. *)
Definition usage_of (t : ProcessScanTarget) (u : ProcessUsage) : Prop :=
  pst_pid t ≠ 0 ∧ ∃ d, scan_base t = Some d ∧ reported_ok m target_pfn t d u.

Lemma root_pfn_div d :
  is_u64 d → Z.shiftr (Z.land d (Z.lxor u64_max 0xFFF)) 12 = d `div` 4096 ∧
             0 ≤ d `div` 4096 < 2 ^ 52.
Proof.
  intros Hd. change (Z.lxor u64_max 0xFFF) with (Z.shiftl (Z.ones 52) 12).
  unfold is_u64 in Hd. rewrite land_field, Z.shiftr_div_pow2, Z.div_mul by lia.
  change (2 ^ 12) with 4096. change (2 ^ 52) with 4503599627370496.
  assert (0 ≤ d `div` 4096 < 4503599627370496) by (split; [apply Z.div_pos|apply Z.div_lt_upper_bound]; lia).
  by rewrite Z.mod_small by lia.
Qed.

Lemma root_table_at t d :
  is_u64 d → table_at (pst_la57 t) (top_level (pst_la57 t)) (d `div` 4096) 0.
Proof.
  intros Hd. constructor; [destruct (pst_la57 t); simpl; lia|by apply root_pfn_div|done|].
  by destruct (pst_la57 t).
Qed.
Lemma root_agrees la57 va : agrees la57 (top_level la57) 0 va.
Proof.
  unfold agrees. assert (top_shift (top_level la57) = address_bits la57) as -> by by destruct la57.
  rewrite Z.div_small by (apply Z.mod_pos_bound; by destruct la57). done.
Qed.
Lemma root_sees t d :
  sees m t d (top_level (pst_la57 t)) (d `div` 4096) 0 true true false.
Proof. intros va _. done. Qed.

Definition target_typed (t : ProcessScanTarget) : Prop := is_u64 (pst_directory_table_base t).

(** The part of a round after the table base is known. *)
Definition scan_target (target : ProcessScanTarget) (s : State) : Result unit * State :=
  let root_pfn := Z.shiftr (Z.land (pst_directory_table_base target) (Z.lxor u64_max 0xFFF)) 12 in
  match
    if include_page_table_pages limits && (root_pfn =? target_pfn) then
      append_mapping limits
        (mkProcessUsage (pst_pid target) (pst_process_name target) 0 0 0x1000
           (if pst_la57 target then "page-table: PML5 root" else "page-table: PML4 root")
           mapper_Name High false false false false) s
    else (Success tt, s)
  with
  | (Failure e, s) => (Failure e, s)
  | (Success _, s) =>
      match walk stop limits target_pfn target (top_level (pst_la57 target)) root_pfn 0
              true true false (s <| active_path := ∅ |>) with
      | (Success _, s) => (Success tt, s)
      | (Failure e, s) =>
          if bool_decide (code e = LimitReached) || bool_decide (code e = Cancelled) ||
             negb (continue_on_read_error limits)
          then (Failure e, s) else (Success tt, s)
      end
  end.

Lemma scan_target_grows t s r s' :
  target_typed t → query_ok s → scan_target t s = (r, s') →
  grows (reported_ok m target_pfn t (pst_directory_table_base t)) s s'.
Proof using Hpfn StableReads0.
  intros Hty Hok Hr. unfold scan_target in Hr. set (d := pst_directory_table_base t) in *.
  destruct (root_pfn_div d Hty) as [Hroot _]. rewrite Hroot in Hr.
  destruct (if _ : bool then _ else _) as [r1 s1] eqn:Happ in Hr.
  assert (grows (reported_ok m target_pfn t d) s s1) as Hg1.
  { destruct (_ && _) in Happ; [|simplify_eq; by apply grows_refl].
    apply (append_grows I limits (reported_ok m target_pfn t d)) in Happ as (? & _); [done|done|].
    split_and!; [done|done|]. intros [l E]. simpl in E. by destruct (pst_la57 t), l. }
  destruct r1 as [[]|e]; [|by simplify_eq].
  destruct (walk _ _ _ _ _ _ _ _ _ _ _) as [r2 s2] eqn:Hw.
  apply (walk_grows m dtb_of I stop limits target_pfn Hpfn t d) in Hw as [Hg2 _];
    [|by apply root_table_at|by apply root_sees|apply query_ok_active, Hg1].
  assert (s' = s2) as -> by (repeat case_match; congruence).
  eapply grows_trans; [exact Hg1|exact Hg2].
Qed.

Lemma scan_target_complete t s s' va leaf :
  continue_on_read_error limits = false → target_typed t → query_ok s →
  scan_target t s = (Success tt, s') →
  translate m (pst_directory_table_base t) (pst_la57 t) va = Some leaf →
  leaf_pa leaf `div` 4096 = target_pfn →
  NoDup (tables m (pst_directory_table_base t) (pst_la57 t) va) →
  ∃ k, k ∈ mapping_key <$> mappings s' ∧ covers_key t va leaf k.
Proof using Hpfn StableReads0.
  intros Hstrict Hty Hok Hr Htr Hpa Hnd. unfold scan_target in Hr.
  set (d := pst_directory_table_base t) in *.
  destruct (root_pfn_div d Hty) as [Hroot _]. rewrite Hroot in Hr.
  destruct (if _ : bool then _ else _) as [[[]|e] s1] eqn:Happ in Hr; [|done].
  assert (query_ok s1) as Hok1.
  { destruct (_ && _) in Happ; [|by simplify_eq].
    apply (append_grows I limits (λ _, True)) in Happ as ([? _] & _); done. }
  destruct (walk _ _ _ _ _ _ _ _ _ _ _) as [[[]|e] s2] eqn:Hw.
  2:{ rewrite Hstrict in Hr. cbn [negb] in Hr. by rewrite orb_true_r in Hr. }
  injection Hr as ->.
  eapply (walk_complete m dtb_of I stop limits target_pfn Hpfn t d); [done|done| | | |exact Hw| |done|done|].
  - by apply root_table_at.
  - apply root_sees.
  - by apply query_ok_active.
  - apply root_agrees.
  - intros x _. apply not_elem_of_empty.
Qed.

(** A round either reports nothing or scans the tables at the target's base. *)
Lemma query_target_cases t s r s' :
  target_typed t → query_ok s → query_target stop limits target_pfn t s = (r, s') →
  (query_ok s' ∧ mappings s' = mappings s ∧
   (r = Success tt → pst_pid t = 0 ∨ continue_on_read_error limits = true)) ∨
  (∃ s1 d, pst_pid t ≠ 0 ∧ scan_base t = Some d ∧ is_u64 d ∧ query_ok s1 ∧
     mappings s1 = mappings s ∧
     scan_target (mkProcessScanTarget (pst_pid t) (pst_process_name t) d (pst_la57 t)) s1
       = (r, s')).
Proof using dtb_typed StableReads0.
  intros Hty Hok Hr. unfold query_target, poll in Hr.
  set (s0 := s <| polls := S (polls s) |>) in Hr.
  assert (query_ok s0) as Hok0 by by apply (query_ok_poll I stop limits s).
  destruct (stop (polls s)); [left; by simplify_eq|].
  destruct (Z.eqb_spec (pst_pid t) 0) as [Hp|Hp]; [left; simplify_eq; auto|].
  unfold scan_base. destruct (Z.eqb_spec (pst_directory_table_base t) 0) as [Hz|Hz].
  - destruct (GetProcessContext (pst_pid t) (backend s0)) as [context b] eqn:Hctx.
    apply stable_context in Hctx as [HI Hc]; [|apply Hok0].
    set (s1 := s0 <| backend := b |>) in Hr.
    assert (query_ok s1) as Hok1 by (destruct Hok0; by constructor).
    destruct context as [c|e].
    + right. exists s1, (pc_directory_table_base c). split_and!; try done. by eapply dtb_typed.
    + left. injection Hr as Hr <-. split_and!; [done|done|]. intros ->. right.
      by destruct (continue_on_read_error limits).
  - right. exists s0, (pst_directory_table_base t). split_and!; done.
Qed.

Lemma query_targets_grows ts s r s' :
  Forall target_typed ts → query_ok s → query_targets stop limits target_pfn ts s = (r, s') →
  grows (λ u, ∃ t, t ∈ ts ∧ usage_of t u) s s'.
Proof using dtb_typed Hpfn StableReads0.
  intros Hty. revert s. induction Hty as [|t ts Ht Hty IH]; intros s Hok Hr; simpl in Hr.
  { simplify_eq. by apply grows_refl. }
  destruct (query_target _ _ _ t s) as [r1 s1] eqn:Hq.
  assert (grows (λ u, ∃ t', t' ∈ t :: ts ∧ usage_of t' u) s s1) as Hg.
  { apply query_target_cases in Hq as
      [(Hok1 & Hm & _)|(s0 & d & Hp & Hb & Hd & Hok0 & Hm & Hq)]; [by apply grows_same| |done|done].
    apply scan_target_grows in Hq; [|done|done].
    eapply grows_trans; [by apply (grows_same _ _ _ s s0)|].
    eapply grows_mono; [|exact Hq]. intros u Hu. exists t.
    split; [apply elem_of_cons; by left|]. split; [done|]. by exists d. }
  destruct r1 as [[]|e]; [|by simplify_eq]. eapply grows_trans; [exact Hg|].
  eapply grows_mono; [|apply IH; [apply Hg|exact Hr]]. intros u (t' & Hin & Hu). exists t'.
  split; [apply elem_of_cons; by right|done].
Qed.

Lemma query_targets_complete ts s s' t d va leaf :
  continue_on_read_error limits = false →
  Forall target_typed ts → query_ok s →
  query_targets stop limits target_pfn ts s = (Success tt, s') →
  t ∈ ts → pst_pid t ≠ 0 → scan_base t = Some d →
  translate m d (pst_la57 t) va = Some leaf → leaf_pa leaf `div` 4096 = target_pfn →
  NoDup (tables m d (pst_la57 t) va) →
  ∃ k, k ∈ mapping_key <$> mappings s' ∧ covers_key t va leaf k.
Proof using dtb_typed Hpfn StableReads0.
  intros Hstrict Hty. revert s. induction Hty as [|t0 ts Ht Hty IH];
    intros s Hok Hr Hin Hp Hd Htr Hpa Hnd; simpl in Hr; [by apply elem_of_nil in Hin|].
  pose proof (query_targets_grows [t0] s) as Hg0. simpl in Hg0.
  destruct (query_target _ _ _ t0 s) as [[[]|e] s1] eqn:Hq; [|done].
  specialize (Hg0 (Success tt) s1 ltac:(by constructor) Hok eq_refl) as [Hok1 _].
  apply elem_of_cons in Hin as [->|Hin]; [|by eapply IH].
  apply query_target_cases in Hq as
    [(_ & _ & Hr0)|(s0 & d' & _ & Hb & Hty' & Hok0 & _ & Hq)]; [|clear IH|done|done].
  { destruct Hr0 as [?|Hc]; [done|done|congruence]. }
  rewrite Hd in Hb. injection Hb as <-.
  apply (scan_target_complete _ _ _ va leaf) in Hq as (k & Hk & Hcov); [|done..].
  exists k. split; [|exact Hcov].
  eapply grows_keys; [|exact Hk]. by eapply query_targets_grows.
Qed.
End Query.

(** ** Correctness of the query *)

Section Theorems.
Context {B : Type} `{IMemoryBackend B}.
Context (m : Z → Z) (dtb_of : Z → option Z) (I : B → Prop) `{!StableReads m dtb_of I}.

(** What the field types of a mapper and of process contexts guarantee. *)
Record query_typed (M : PageTableReverseMapper) (pfn : Z) : Prop := {
  qt_targets : Forall target_typed (targets_ M);
  qt_contexts p d : dtb_of p = Some d → is_u64 d;
  qt_limits : 0 ≤ max_results (limits_ M) ∧ 0 ≤ max_table_pages (limits_ M);
  qt_pfn : 0 ≤ pfn
}.

Lemma Query_success stop M pfn (b : B) out b' :
  Query stop M pfn b = (Success out, b') →
  pfn ≤ kX64MaxPageFrameNumber ∧
  ∃ s, query_targets stop (limits_ M) pfn (targets_ M) (mkQueryState [] ∅ 0 ∅ 0 b)
         = (Success tt, s) ∧
    out = mkPfnUsageResult pfn (sort_mappings (mappings s)) mapper_Name.
Proof.
  unfold Query. destruct (Z.ltb_spec kX64MaxPageFrameNumber pfn); [done|].
  destruct (negb _); [done|]. destruct (bool_decide _); [done|]. destruct (_ || _); [done|].
  destruct (query_targets _ _ _ _ _) as [[[]|e] s] eqn:E; [|done].
  intros [= <- _]. split; [done|]. by exists s.
Qed.

Lemma query_ok_start M pfn (b : B) :
  I b → query_typed M pfn → query_ok I (limits_ M) (mkQueryState [] ∅ 0 ∅ 0 b).
Proof.
  intros HI Hty. destruct (qt_limits _ _ Hty) as [Hr Hp].
  constructor; simpl; [done|set_solver|apply NoDup_nil_2|exact Hr|exact Hp].
Qed.

(** [C32] What the reverse mapper reports is mapped: every usage in a successful
    result belongs to a scanned process, and a usage reported as a 4 KiB, 2 MiB or
    1 GiB page names a virtual address that the processor, walking the tables of
    that process, translates to the start of the queried frame through exactly the
    reported entry, with the reported page size and effective rights. *)
Theorem Query_sound stop M pfn b out b' u :
  I b → query_typed M pfn → Query stop M pfn b = (Success out, b') → u ∈ pur_mappings out →
  ∃ t d, t ∈ targets_ M ∧ scan_base dtb_of t = Some d ∧
    pu_pid u = pst_pid t ∧ pu_process_name u = pst_process_name t ∧
    (data_mapping u →
     translate m d (pst_la57 t) (pu_virtual_address u) =
       Some (mkLeaf (4096 * pfn) (pu_page_size u) (pu_pte_address u)
               (pu_writable u) (pu_user_accessible u) (pu_no_execute u))).
Proof using StableReads0.
  intros HI Hty Hq Hu. destruct (Query_success _ _ _ _ _ _ Hq) as (Hpfn & s & Hs & ->).
  apply (query_targets_grows m dtb_of I (qt_contexts _ _ Hty)) in Hs as [_ (new & Hm & Hf)];
    [|split; [apply Hty|done]|apply Hty|by eapply query_ok_start].
  simpl in Hm, Hu. rewrite <- Hm in Hf. rewrite Forall_forall in Hf.
  destruct (Hf u) as (t & Hin & _ & d & Hd & Hrep).
  { unfold sort_mappings in Hu. by rewrite merge_sort_Permutation in Hu. }
  exists t, d. destruct Hrep as (? & ? & ?). done.
Qed.

(** [C33] What is mapped the reverse mapper reports: when reads must not fail, a
    successful query lists, for every scanned process, the page of every canonical
    virtual address that translates into the queried frame, as long as the walk to
    it does not come back to a table it already went through. *)
Theorem Query_complete stop M pfn b out b' t d va leaf :
  I b → query_typed M pfn → continue_on_read_error (limits_ M) = false →
  Query stop M pfn b = (Success out, b') →
  t ∈ targets_ M → pst_pid t ≠ 0 → scan_base dtb_of t = Some d →
  is_u64 va → CanonicalizeVirtualAddress va (pst_la57 t) = va →
  translate m d (pst_la57 t) va = Some leaf → leaf_pa leaf `div` 4096 = pfn →
  NoDup (tables m d (pst_la57 t) va) →
  ∃ u, u ∈ pur_mappings out ∧ data_mapping u ∧ pu_pid u = pst_pid t ∧
    pu_virtual_address u = va - va `mod` 4096 ∧
    pu_pte_address u = leaf_pte leaf ∧ pu_page_size u = leaf_bytes leaf.
Proof using StableReads0.
  intros HI Hty Hstrict Hq Hin Hp Hd Hva Hcan Htr Hpa Hnd.
  destruct (Query_success _ _ _ _ _ _ Hq) as (Hpfn & s & Hs & ->).
  apply (query_targets_complete m dtb_of I (qt_contexts _ _ Hty) stop (limits_ M) pfn
    ltac:(split; [apply Hty|done]) _ _ _ t d va leaf) in Hs as (k & Hk & l & ->);
    [|done|apply Hty|by eapply query_ok_start|done..].
  apply list_elem_of_fmap in Hk as (u & Hk & Hu). exists u.
  unfold mapping_key in Hk. injection Hk as E1 E2 E3 E4 E5.
  split; [simpl; unfold sort_mappings; by rewrite merge_sort_Permutation|].
  split; [by exists l|]. split; [done|]. split; [|done]. rewrite <- E2.
  by apply canonical_page_base.
Qed.

(** The result of a query is well formed: strictly ordered by process, virtual
    address, entry, size and kind, hence without duplicates, and no longer than the
    result limit. *)
Theorem Query_ordered stop M pfn b out b' :
  I b → query_typed M pfn → Query stop M pfn b = (Success out, b') →
  pur_pfn out = pfn ∧ StronglySorted usage_lt (pur_mappings out) ∧
  sizeZ (pur_mappings out) ≤ max_results (limits_ M).
Proof using StableReads0.
  intros HI Hty Hq. destruct (Query_success _ _ _ _ _ _ Hq) as (Hpfn & s & Hs & ->).
  apply (query_targets_grows m dtb_of I (qt_contexts _ _ Hty)) in Hs as [Hok _];
    [|split; [apply Hty|done]|apply Hty|by eapply query_ok_start].
  destruct (sort_mappings_strict (mappings s)) as [Hsort Hperm]; [apply Hok|].
  split; [done|]. split; [done|]. simpl. unfold sizeZ. rewrite Hperm. apply Hok.
Qed.
End Theorems.

(** ** The theorems at the concrete mapping *)

Definition map_query := Query (λ _, false) map_mapper 0x12C map_backend.
Definition usages (r : Result PfnUsageResult) : PfnUsageResult :=
  match r with Success out => out | Failure _ => mkPfnUsageResult 0 [] "" end.
Definition map_result : PfnUsageResult := usages map_query.1.
Definition map_dtb (p : Z) : option Z := if p =? kMockPid then Some kBaseAddress else None.

Lemma map_typed : query_typed map_dtb map_mapper 0x12C.
Proof.
  constructor; [by repeat constructor| |done|done].
  intros p d. unfold map_dtb. destruct (p =? kMockPid); [|done]. by intros [= <-].
Qed.

Lemma Query_intro {B} `{IMemoryBackend B} stop M pfn (b : B) :
  pfn ≤ kX64MaxPageFrameNumber → bi_connected (Info b) = true → targets_ M ≠ [] →
  max_table_pages (limits_ M) ≠ 0 → max_results (limits_ M) ≠ 0 →
  Ok (query_targets stop (limits_ M) pfn (targets_ M) (mkQueryState [] ∅ 0 ∅ 0 b)).1 = true →
  Ok (Query stop M pfn b).1 = true.
Proof.
  intros Hp Hc Ht Hl1 Hl2 Hq. unfold Query.
  destruct (Z.ltb_spec kX64MaxPageFrameNumber pfn); [lia|]. rewrite Hc.
  rewrite bool_decide_eq_false_2, (proj2 (Z.eqb_neq _ _) Hl1), (proj2 (Z.eqb_neq _ _) Hl2) by done.
  cbn [negb orb]. by destruct (query_targets _ _ _ _ _) as [[[]|e] s].
Qed.

Lemma map_target_ok s :
  mock_holds map_memory (backend s) → table_pages_read s = 0 → mappings s = [] →
  Ok (query_target (λ _, false) map_limits 0x12C map_target s).1 = true.
Proof.
  intros Hm Hp Hmap. unfold query_target, poll.
  change (pst_pid map_target =? 0) with false. change (pst_directory_table_base map_target =? 0) with true.
  set (s0 := s <| polls := S (polls s) |>).
  assert (GetProcessContext (pst_pid map_target) (backend s0) =
    (Success (mkProcessContext kMockPid 1 0xFFFF800000001337 kBaseAddress false), backend s)) as ->.
  { cbn [GetProcessContext MockMemoryBackend_IMemoryBackend]. unfold Mock_GetProcessContext.
    change (backend s0) with (backend s). rewrite (proj1 Hm). done. }
  cbv zeta. cbn [pc_directory_table_base pst_directory_table_base pst_la57 pst_pid pst_process_name].
  change (Z.shiftr (Z.land kBaseAddress _) 12) with 256.
  change (include_page_table_pages map_limits && (256 =? 0x12C)) with false.
  set (s1 := s0 <| backend := backend s |>). cbv beta iota.
  change (if pst_la57 map_target then 5%nat else 4%nat) with 4%nat.
  match goal with |- context [walk _ _ _ ?t _ _ _ _ _ _ ?x] =>
    pose proof (map_walk x true true false t Hm ltac:(reflexivity) Hp Hmap ltac:(reflexivity)) as Hw
  end.
  destruct (walk _ _ _ _ 4 256 0 _ _ _ _) as [[[]|e] s2]; [done|done].
Qed.

Lemma map_query_success :
  Query (λ _, false) map_mapper 0x12C map_backend = (Success map_result, map_query.2).
Proof.
  fold map_query. assert (Ok map_query.1 = true) as Hok.
  { apply Query_intro; [done..|].
    change (targets_ map_mapper) with [map_target]. change (limits_ map_mapper) with map_limits.
    cbn [query_targets].
    pose proof (map_target_ok (mkQueryState [] ∅ 0 ∅ 0 map_backend) map_holds eq_refl eq_refl) as Ht.
    by destruct (query_target _ _ _ _ _) as [[[]|e] s]. }
  unfold map_result. by destruct map_query as [[out|e] b].
Qed.
#[global] Opaque map_query map_result.

(** The queried frame is mapped, so the result is not empty. *)
Lemma map_translates :
  translate map_memory kBaseAddress false map_va =
    Some (mkLeaf (4096 * 0x12C) 4096 0x103020 true false false).
Proof. vm_compute. reflexivity. Qed.

Lemma map_acyclic : NoDup (tables map_memory kBaseAddress false map_va).
Proof.
  assert (tables map_memory kBaseAddress false map_va = [256; 257; 258; 259]) as ->
    by (vm_compute; reflexivity).
  repeat (apply NoDup_cons; split; [set_solver by lia|]). apply NoDup_nil_2.
Qed.

Lemma Query_complete_witness :
  ∃ u, u ∈ pur_mappings map_result ∧ data_mapping u ∧ pu_pid u = kMockPid ∧
    pu_virtual_address u = map_va ∧ pu_pte_address u = 0x103020 ∧ pu_page_size u = 4096.
Proof.
  refine (Query_complete map_memory map_dtb (mock_holds map_memory) (λ _, false) map_mapper 0x12C
    map_backend map_result map_query.2 map_target kBaseAddress map_va
    (mkLeaf (4096 * 0x12C) 4096 0x103020 true false false) map_holds map_typed eq_refl
    map_query_success _ _ _ _ _ map_translates _ _).
  - by apply list_elem_of_singleton.
  - done.
  - done.
  - done.
  - vm_compute. reflexivity.
  - reflexivity.
  - exact map_acyclic.
Defined.

Lemma map_nonempty : ∃ u, u ∈ pur_mappings map_result ∧ data_mapping u.
Proof.
  assert (0 ≤ 0x12C ≤ kX64MaxPageFrameNumber) as Hp by done.
  assert (map_target ∈ targets_ map_mapper) as Hin by by apply list_elem_of_singleton.
  assert (pst_pid map_target ≠ 0) as Hpid by done.
  destruct (Query_success _ _ _ _ _ _ map_query_success) as (Hpfn & s & Hs & E).
  pose proof (query_targets_complete map_memory map_dtb (mock_holds map_memory)
    (qt_contexts _ _ _ map_typed) (λ _, false) (limits_ map_mapper) 0x12C Hp) as Hc.
  destruct (Hc (targets_ map_mapper) (mkQueryState [] ∅ 0 ∅ 0 map_backend) s map_target kBaseAddress
    map_va (mkLeaf (4096 * 0x12C) 4096 0x103020 true false false) eq_refl
    (qt_targets _ _ _ map_typed)
    (query_ok_start map_memory map_dtb (mock_holds map_memory) map_mapper 0x12C map_backend map_holds map_typed)
    Hs Hin Hpid eq_refl map_translates eq_refl map_acyclic) as (k & Hk & l & ->).
  clear Hs Hc. apply list_elem_of_fmap in Hk as (u & Hu & Hu'). exists u. rewrite E. clear E. simpl.
  unfold sort_mappings. rewrite merge_sort_Permutation. split; [exact Hu'|]. exists l.
  unfold mapping_key in Hu. by injection Hu.
Qed.

Lemma Query_sound_witness :
  ∃ u, data_mapping u ∧ u ∈ pur_mappings map_result ∧
    translate map_memory kBaseAddress false (pu_virtual_address u) =
      Some (mkLeaf (4096 * 0x12C) (pu_page_size u) (pu_pte_address u)
              (pu_writable u) (pu_user_accessible u) (pu_no_execute u)).
Proof.
  destruct map_nonempty as (u & Hu & Hdata). exists u. split; [done|]. split; [done|].
  destruct (Query_sound map_memory map_dtb (mock_holds map_memory) (λ _, false) map_mapper 0x12C
    map_backend map_result map_query.2 u map_holds map_typed map_query_success Hu)
    as (t & d & Hin & Hd & _ & _ & Htr).
  apply list_elem_of_singleton in Hin as ->. injection Hd as <-. exact (Htr Hdata).
Defined.

Lemma Query_ordered_witness :
  StronglySorted usage_lt (pur_mappings map_result) ∧ sizeZ (pur_mappings map_result) ≤ 8.
Proof.
  exact (proj2 (Query_ordered map_memory map_dtb (mock_holds map_memory) (λ _, false) map_mapper
    0x12C map_backend map_result map_query.2 map_holds map_typed map_query_success)).
Defined.
