(* ===== verification/FileSystem.v ===== *)
(** The file system the persistent formats are written to and read from, and the
    replacement of a file by writing a temporary sibling first, which the snapshot,
    the watch list and the address list share. *)

From stdpp Require Import gmap.
From S2P Require Import Prelude CppStd Common.

#[local] Open Scope Z_scope.

(** ** The state

    A path is its parent and its file name; an empty parent is the current
    directory.  Every operation may fail: [fault k] is the error code of the
    [k]-th operation, 0 when it works, and for a write the number of bytes that
    reached the file all the same.  [sequence] is the static counter of the saving
    component. *)

Record path := mkPath { parent_path : string; filename : string }.

#[export] Instance path_eq_dec : EqDecision path.
Proof. solve_decision. Defined.
#[export] Instance path_countable : Countable path.
Proof.
  refine (inj_countable' (λ p, (parent_path p, filename p)) (λ q, mkPath q.1 q.2) _).
  by intros [].
Defined.

Definition path_empty (p : path) : bool := bool_decide (p = mkPath "" "").
(** The file a path names. *)
Definition resolve (p : path) : path :=
  if bool_decide (parent_path p = "") then mkPath "." (filename p) else p.

Record FileSystem := mkFileSystem {
  files : gmap path (list Z);
  fault : nat → Z * nat;
  fs_ops : nat;
  process_id : Z;
  sequence : Z
}.

#[export] Instance FileSystem_eta : Eta FileSystem := fun f =>
  mkFileSystem (files f) (fault f) (fs_ops f) (process_id f) (sequence f).

(** One operation: its error code, and the partial effect of a failed write. *)
Definition fs_step (fs : FileSystem) : Z * nat * FileSystem :=
  (fault fs (fs_ops fs), fs <| fs_ops := S (fs_ops fs) |>).
Definition file (fs : FileSystem) (p : path) : option (list Z) := files fs !! resolve p.

(** [std::filesystem::exists(path, error)] answers no when it fails. *)
Definition fs_exists (p : path) (fs : FileSystem) : bool * FileSystem :=
  let '(err, _, fs) := fs_step fs in
  ((err =? 0) && bool_decide (is_Some (file fs p)), fs).
(** [std::filesystem::remove(path, error)], the error ignored. *)
Definition fs_remove (p : path) (fs : FileSystem) : FileSystem :=
  let '(err, _, fs) := fs_step fs in
  if err =? 0 then fs <| files := delete (resolve p) (files fs) |> else fs.

(** [std::ofstream]: its file, and whether no operation on it has failed yet.
    A failed stream ignores further output. *)
Record ofstream := mkOfstream { os_path : path; os_good : bool }.

Definition os_open (p : path) (fs : FileSystem) : ofstream * FileSystem :=
  let '(err, _, fs) := fs_step fs in
  if err =? 0 then (mkOfstream p true, fs <| files := <[resolve p := []]> (files fs) |>)
  else (mkOfstream p false, fs).
Definition os_append (p : path) (data : list Z) (fs : FileSystem) : FileSystem :=
  fs <| files := <[resolve p := default [] (file fs p) ++ data]> (files fs) |>.
Definition os_write (data : list Z) (o : ofstream) (fs : FileSystem) : ofstream * FileSystem :=
  if negb (os_good o) then (o, fs)
  else
    let '(err, partial, fs) := fs_step fs in
    if err =? 0 then (o, os_append (os_path o) data fs)
    else (mkOfstream (os_path o) false, os_append (os_path o) (take partial data) fs).
(** [flush] and [close]. *)
Definition os_sync (o : ofstream) (fs : FileSystem) : ofstream * FileSystem :=
  if negb (os_good o) then (o, fs)
  else
    let '(err, _, fs) := fs_step fs in (mkOfstream (os_path o) (err =? 0), fs).

(** ** Input streams *)

(** [std::ifstream]: what is left to read, and whether no operation failed. *)
Record ifstream := mkIfstream { is_rest : list Z; is_good : bool }.

Definition is_open (p : path) (fs : FileSystem) : ifstream * FileSystem :=
  let '(err, _, fs) := fs_step fs in
  match file fs p with
  | Some content => if err =? 0 then (mkIfstream content true, fs) else (mkIfstream [] false, fs)
  | None => (mkIfstream [] false, fs)
  end.
(** [read(buffer, n)]: fewer than [n] bytes left sets the fail bit. *)
Definition is_read (n : Z) (i : ifstream) (fs : FileSystem) : list Z * ifstream * FileSystem :=
  if negb (is_good i) then ([], i, fs)
  else
    let '(err, _, fs) := fs_step fs in
    if (err =? 0) && (n <=? sizeZ (is_rest i)) then
      (take (Z.to_nat n) (is_rest i), mkIfstream (drop (Z.to_nat n) (is_rest i)) true, fs)
    else ([], mkIfstream [] false, fs).
Definition kErrorFileNotFound : Z := 2.
(** [std::filesystem::file_size(path, error)]. *)
Definition fs_file_size (p : path) (fs : FileSystem) : Z * Z * FileSystem :=
  let '(err, _, fs) := fs_step fs in
  match file fs p with
  | Some content => if err =? 0 then (sizeZ content, 0, fs) else (0, err, fs)
  | None => (0, if err =? 0 then kErrorFileNotFound else err, fs)
  end.

(** ** Replacing a file *)

(** [TemporarySibling]: the first candidate that does not exist.  The candidates
    are distinct, so one more round than there are files finds one. *)
Definition temporary_candidate (process_id ordinal : Z) (destination : path) : path :=
  mkPath (if bool_decide (parent_path destination = "") then "." else parent_path destination)
    (filename destination +:+ ".kdbg-tmp-" +:+ dec_string process_id +:+ "-" +:+
     dec_string ordinal).
Fixpoint temporary_loop (fuel : nat) (destination : path) (fs : FileSystem)
    : option path * FileSystem :=
  match fuel with
  | O => (None, fs)
  | S fuel =>
      let ordinal := sequence fs in
      let fs := fs <| sequence := u64 (ordinal + 1) |> in
      let candidate := temporary_candidate (process_id fs) ordinal destination in
      match fs_exists candidate fs with
      | (false, fs) => (Some candidate, fs)
      | (true, fs) => temporary_loop fuel destination fs
      end
  end.
Definition TemporarySibling (destination : path) (fs : FileSystem) : option path * FileSystem :=
  temporary_loop (S (size (files fs))) destination fs.

(** The texts of the two steps that make a file durable, and their operation. *)
Record FileMessages := mkFileMessages {
  fm_reopen : string;
  fm_flush : string;
  fm_replace : string;
  fm_operation : string
}.

(** The Windows branches: [GetLastError] is the code of the failed call;
    [CreateFileW] with [OPEN_EXISTING] fails on a missing file. *)
Definition FlushFileToDisk (m : FileMessages) (p : path) (fs : FileSystem)
    : Result unit * FileSystem :=
  let '(open_error, _, fs) := fs_step fs in
  let open_error :=
    if open_error =? 0 then match file fs p with Some _ => 0 | None => kErrorFileNotFound end else open_error in
  if negb (open_error =? 0) then
    (Failure (MakeErrorFull IoFailure (fm_reopen m) (fm_operation m) open_error 0 0), fs)
  else
    let '(flush_error, _, fs) := fs_step fs in
    if negb (flush_error =? 0) then
      (Failure (MakeErrorFull IoFailure (fm_flush m) (fm_operation m) flush_error 0 0), fs)
    else (Success tt, fs).

(** [MoveFileExW] replaces the destination in one step, or changes nothing. *)
Definition ReplaceAtomically (m : FileMessages) (temporary destination : path) (fs : FileSystem)
    : Result unit * FileSystem :=
  let '(err, _, fs) := fs_step fs in
  let err :=
    if err =? 0 then match file fs temporary with Some _ => 0 | None => kErrorFileNotFound end else err in
  if negb (err =? 0) then
    (Failure (MakeErrorFull IoFailure (fm_replace m) (fm_operation m) err 0 0), fs)
  else
    (Success tt, fs <| files := <[resolve destination := default [] (file fs temporary)]>
                                  (delete (resolve temporary) (files fs)) |>).

(** Filling the temporary file with a stream and putting it in place of the
    destination; [injected] is the error of the fault that tests inject. *)
Definition commit_stream (create_error : Error) (injected : option Error) (m : FileMessages)
    (stream : ofstream → FileSystem → option (Result unit) * FileSystem)
    (temporary destination : path) (fs : FileSystem) : Result unit * FileSystem :=
  let '(o, fs) := os_open temporary fs in
  if negb (os_good o) then (Failure create_error, fs)
  else
    match stream o fs with
    | (Some r, fs) => (r, fs)
    | (None, fs) =>
        match FlushFileToDisk m temporary fs with
        | (Failure e, fs) => (Failure e, fs)
        | (Success _, fs) =>
            match injected with
            | Some e => (Failure e, fs)
            | None => ReplaceAtomically m temporary destination fs
            end
        end
    end.

(** A save: [body] fills the temporary file and puts it in place of the destination;
    the destructor of [TemporaryCleanup] removes it unless the body succeeded. *)
Definition with_temporary (body : path → FileSystem → Result unit * FileSystem)
    (destination : path) (fs : FileSystem) : Result unit * FileSystem :=
  match TemporarySibling destination fs with
  | (None, fs) => (Failure (MakeError InternalInvariant "" ""), fs)
  | (Some temporary, fs) =>
      match body temporary fs with
      | (Success _, fs) => (Success tt, fs)
      | (Failure e, fs) => (Failure e, fs_remove temporary fs)
      end
  end.

(** ** Frames

    Every step before the replacement touches the temporary file only. *)
Definition only_changes (t : path) (fs fs' : FileSystem) : Prop :=
  ∀ q, q ≠ resolve t → files fs' !! q = files fs !! q.

#[export] Instance only_changes_refl t : Reflexive (only_changes t).
Proof. by intros fs q. Qed.
#[export] Instance only_changes_trans t : Transitive (only_changes t).
Proof. intros x y z H1 H2 q Hq. by rewrite H2, H1. Qed.

Lemma only_changes_same t fs fs' : files fs' = files fs → only_changes t fs fs'.
Proof. by intros E q _; rewrite E. Qed.
Lemma only_changes_insert t fs fs' v :
  files fs' = <[resolve t := v]> (files fs) → only_changes t fs fs'.
Proof. intros E q Hq. by rewrite E, lookup_insert_ne. Qed.
#[export] Hint Resolve only_changes_same only_changes_insert : kdbg.

(** Case analysis on what the next operation does. *)
Ltac fs_result H :=
  simpl in H;
  match type of H with
  | context [fault ?fs ?n] =>
      let err := fresh "err" in let partial := fresh "partial" in
      let Herr := fresh "Herr" in
      destruct (fault fs n) as [err partial]; simpl in H;
      destruct (err =? 0) eqn:Herr; simpl in H; rewrite ?Herr in H; simpl in H
  end.

Lemma os_open_frame t fs o fs' :
  os_open t fs = (o, fs') →
  only_changes t fs fs' ∧ os_path o = t ∧ (os_good o = true → file fs' t = Some []).
Proof.
  unfold os_open. intros H. fs_result H; injection H as <- <-; simpl.
  - split; [by eapply only_changes_insert|]. split; [done|].
    intros _. unfold file. simpl. by rewrite lookup_insert_eq.
  - split; [by apply only_changes_same|done].
Qed.

Lemma os_write_frame data o fs o' fs' :
  os_write data o fs = (o', fs') →
  only_changes (os_path o) fs fs' ∧ os_path o' = os_path o ∧
  (os_good o' = true → os_good o = true ∧
   file fs' (os_path o) = Some (default [] (file fs (os_path o)) ++ data)).
Proof.
  unfold os_write. intros H. destruct (os_good o) eqn:Hg; simpl in H.
  2:{ injection H as <- <-. split; [reflexivity|]. split; [done|]. by rewrite Hg. }
  fs_result H; injection H as <- <-; simpl.
  - split; [by eapply only_changes_insert|]. split; [done|]. intros _. split; [done|].
    unfold file. simpl. by rewrite lookup_insert_eq.
  - split; [by eapply only_changes_insert|done].
Qed.

Lemma os_sync_frame o fs o' fs' :
  os_sync o fs = (o', fs') →
  files fs' = files fs ∧ os_path o' = os_path o ∧ (os_good o' = true → os_good o = true).
Proof.
  unfold os_sync. intros H. destruct (os_good o) eqn:Hg; simpl in H; [fs_result H|];
    injection H as <- <-; rewrite ?Hg; done.
Qed.

Lemma FlushFileToDisk_frame m p fs r fs' :
  FlushFileToDisk m p fs = (r, fs') → files fs' = files fs.
Proof. unfold FlushFileToDisk. simpl. intros H. repeat case_match; by simplify_eq. Qed.

(** ** The temporary file *)

Lemma temporary_loop_spec fuel dest fs t fs' :
  temporary_loop fuel dest fs = (t, fs') →
  files fs' = files fs ∧ fault fs' = fault fs ∧
  ∀ t', t = Some t' → ∃ ordinal, t' = temporary_candidate (process_id fs) ordinal dest.
Proof.
  revert fs. induction fuel as [|fuel IH]; intros fs H; cbn [temporary_loop] in H.
  { injection H as <- <-. split; [done|]. split; [done|]. by intros. }
  unfold fs_exists in H. simpl in H. destruct (fault fs (fs_ops fs)) as [err n]. simpl in H.
  destruct (_ && _).
  2:{ injection H as <- <-. split; [done|]. split; [done|]. intros t' [= <-]. by eexists. }
  apply IH in H as (Hf & Hg & Ht). simpl in *. done.
Qed.

Lemma string_app_length (a b : string) :
  String.length (a +:+ b) = (String.length a + String.length b)%nat.
Proof. induction a as [|x a IH]; [done|]. simpl. by rewrite <- IH. Qed.

Lemma filename_resolve p : filename (resolve p) = filename p.
Proof. unfold resolve. by destruct (bool_decide _). Qed.

(** A candidate is never the destination itself. *)
Lemma temporary_candidate_ne process_id ordinal dest :
  resolve (temporary_candidate process_id ordinal dest) ≠ resolve dest.
Proof.
  intros H. apply (f_equal filename) in H. rewrite !filename_resolve in H.
  apply (f_equal String.length) in H. unfold temporary_candidate in H. cbn [filename] in H.
  rewrite !string_app_length in H. simpl in H. lia.
Qed.

Lemma fs_remove_frame t fs : only_changes t fs (fs_remove t fs).
Proof.
  unfold fs_remove. simpl. destruct (fault _ _) as [err n]. destruct (err =? 0); simpl.
  - intros q Hq. simpl. by rewrite lookup_delete_ne.
  - by apply only_changes_same.
Qed.

(** ** What a save does to the files *)

Definition save_effect (content : list Z) (t dest : path) (fs : FileSystem) (r : Result unit)
    (fs' : FileSystem) : Prop :=
  match r with
  | Success _ => files fs' = <[resolve dest := content]> (delete (resolve t) (files fs))
  | Failure _ => only_changes t fs fs'
  end.

Lemma ReplaceAtomically_effect m t dest content fs0 fs r fs' :
  only_changes t fs0 fs → file fs t = Some content →
  ReplaceAtomically m t dest fs = (r, fs') → save_effect content t dest fs0 r fs'.
Proof.
  intros F Ht H. unfold ReplaceAtomically, file in *. simpl in H. rewrite Ht in H.
  fs_result H; simplify_eq; [|done]. simpl. apply map_eq. intros q.
  destruct (decide (q = resolve dest)) as [->|Hq1]; [by rewrite !lookup_insert_eq|].
  rewrite !lookup_insert_ne by done.
  destruct (decide (q = resolve t)) as [->|Hq2]; [by rewrite !lookup_delete_eq|].
  rewrite !lookup_delete_ne by done. by apply F.
Qed.

(** What a stream must do to the temporary file. *)
Definition stream_writes (content : list Z)
    (stream : ofstream → FileSystem → option (Result unit) * FileSystem) : Prop :=
  ∀ o fs r fs', stream o fs = (r, fs') → file fs (os_path o) = Some [] →
    only_changes (os_path o) fs fs' ∧
    match r with Some r => Ok r = false | None => file fs' (os_path o) = Some content end.

Lemma commit_stream_effect content ce inj m stream t dest fs r fs' :
  stream_writes content stream →
  commit_stream ce inj m stream t dest fs = (r, fs') → save_effect content t dest fs r fs'.
Proof.
  unfold commit_stream. intros Hw H.
  destruct (os_open t fs) as [o fs1] eqn:E1. destruct (os_open_frame _ _ _ _ E1) as (F1 & P1 & G1).
  destruct (os_good o); cbn [negb] in H; [|by injection H as <- <-]. specialize (G1 eq_refl).
  destruct (stream o fs1) as [r2 fs2] eqn:E2.
  destruct (Hw o fs1 r2 fs2 E2) as [F2 G2]; [by rewrite P1|]. rewrite P1 in F2, G2.
  assert (only_changes t fs fs2) as F by (transitivity fs1; [exact F1|exact F2]).
  destruct r2 as [[]|]; [done|by injection H as <- <-|].
  destruct (FlushFileToDisk _ t fs2) as [[[]|e] fs3] eqn:E3;
    pose proof (FlushFileToDisk_frame _ _ _ _ _ E3) as F3;
    (assert (only_changes t fs fs3) as F'
      by (transitivity fs2; [exact F|by apply only_changes_same]));
    [|by injection H as <- <-].
  destruct inj; [by injection H as <- <-|].
  eapply ReplaceAtomically_effect; [exact F'| |exact H]. unfold file in *. by rewrite F3.
Qed.

Lemma with_temporary_effect content body dest fs r fs' :
  (∀ t fs r fs', body t fs = (r, fs') → save_effect content t dest fs r fs') →
  with_temporary body dest fs = (r, fs') →
  ∃ ordinal, save_effect content (temporary_candidate (process_id fs) ordinal dest) dest fs r fs'.
Proof.
  intros Hbody H. unfold with_temporary in H.
  destruct (TemporarySibling dest fs) as [[t|] fs1] eqn:E1;
    destruct (temporary_loop_spec _ _ _ _ _ E1) as (F1 & _ & Ht).
  2:{ exists 0. injection H as <- <-. by apply only_changes_same. }
  destruct (Ht t eq_refl) as [ordinal ->]. exists ordinal.
  set (t := temporary_candidate _ ordinal dest) in *.
  destruct (body _ _) as [[[]|e] fs2] eqn:E2; injection H as <- <-; apply Hbody in E2;
    unfold save_effect in *; [by rewrite <- F1|].
  transitivity fs2; [|apply fs_remove_frame]. intros q Hq. by rewrite E2, F1.
Qed.

(** A save either succeeds with the whole new content in place and no temporary file,
    or fails and leaves the destination as it was; no other file is touched. *)
Definition atomic_save (content : list Z) (dest : path) (fs : FileSystem) (r : Result unit)
    (fs' : FileSystem) : Prop :=
  ∃ ordinal, let t := temporary_candidate (process_id fs) ordinal dest in
  (∀ q, q ≠ resolve dest → q ≠ resolve t → files fs' !! q = files fs !! q) ∧
  match r with
  | Success _ => file fs' dest = Some content ∧ file fs' t = None
  | Failure _ => file fs' dest = file fs dest
  end.

Lemma save_effect_atomic content ordinal dest fs r fs' :
  save_effect content (temporary_candidate (process_id fs) ordinal dest) dest fs r fs' →
  atomic_save content dest fs r fs'.
Proof.
  intros H. exists ordinal. cbv zeta.
  pose proof (temporary_candidate_ne (process_id fs) ordinal dest) as Hne.
  set (t := temporary_candidate _ ordinal dest) in *. clearbody t. unfold file, save_effect in *.
  destruct r.
  - rewrite H. split; [|split].
    + intros q Hq Hqt. by rewrite lookup_insert_ne, lookup_delete_ne.
    + by rewrite lookup_insert_eq.
    + by rewrite lookup_insert_ne, lookup_delete_eq.
  - split; [intros q _ Hq|]; by apply H.
Qed.

Lemma atomic_save_same content dest fs e : atomic_save content dest fs (Failure e) fs.
Proof. apply (save_effect_atomic content 0). by apply only_changes_same. Qed.

(** ** Without faults *)

Definition fault_free (fs : FileSystem) : Prop := ∀ k, (fault fs k).1 = 0.

Lemma fs_step_ok fs : fault_free fs →
  ∃ n, fs_step fs = (0, n, fs <| fs_ops := S (fs_ops fs) |>).
Proof.
  intros H. unfold fs_step. specialize (H (fs_ops fs)).
  destruct (fault fs (fs_ops fs)) as [err n]. simpl in H. subst err. by exists n.
Qed.

(** One more operation. *)
Definition ticked (fs fs' : FileSystem) : Prop :=
  files fs' = files fs ∧ fault fs' = fault fs.
#[export] Instance ticked_refl : Reflexive ticked.
Proof. by split. Qed.
#[export] Instance ticked_trans : Transitive ticked.
Proof. by intros x y z [H1 H2] [H3 H4]; split; congruence. Qed.
Lemma ticked_fault_free fs fs' : ticked fs fs' → fault_free fs → fault_free fs'.
Proof. intros [_ E] H k. rewrite E. apply H. Qed.
Lemma ticked_tick fs : ticked fs (fs <| fs_ops := S (fs_ops fs) |>).
Proof. by split. Qed.
#[export] Hint Resolve ticked_tick ticked_fault_free : kdbg.

Lemma is_open_ok p fs content :
  fault_free fs → file fs p = Some content →
  ∃ fs', ticked fs fs' ∧ is_open p fs = (mkIfstream content true, fs').
Proof.
  intros Hf Hp. unfold is_open. destruct (fs_step_ok fs Hf) as [m ->].
  unfold file in *. simpl. rewrite Hp. eexists. split; [|reflexivity]. by split.
Qed.
Lemma fs_file_size_ok p fs content :
  fault_free fs → file fs p = Some content →
  ∃ fs', ticked fs fs' ∧ fs_file_size p fs = (sizeZ content, 0, fs').
Proof.
  intros Hf Hp. unfold fs_file_size. destruct (fs_step_ok fs Hf) as [m ->].
  unfold file in *. simpl. rewrite Hp. eexists. split; [|reflexivity]. by split.
Qed.
Lemma is_read_ok n i fs :
  fault_free fs → is_good i = true → n ≤ sizeZ (is_rest i) →
  ∃ fs', ticked fs fs' ∧
    is_read n i fs = (take (Z.to_nat n) (is_rest i),
                      mkIfstream (drop (Z.to_nat n) (is_rest i)) true, fs').
Proof.
  intros Hf Hg Hn. unfold is_read. rewrite Hg. destruct (fs_step_ok fs Hf) as [m ->]. simpl.
  rewrite (proj2 (Z.leb_le _ _)) by done. eexists. split; [|reflexivity]. by split.
Qed.
Lemma is_read_short n i fs :
  fault_free fs → is_good i = true → sizeZ (is_rest i) < n →
  ∃ fs', ticked fs fs' ∧ is_read n i fs = ([], mkIfstream [] false, fs').
Proof.
  intros Hf Hg Hn. unfold is_read. rewrite Hg. destruct (fs_step_ok fs Hf) as [m ->]. simpl.
  rewrite (proj2 (Z.leb_gt _ _)) by done. eexists. split; [|reflexivity]. by split.
Qed.

Lemma os_write_ok data o fs :
  fault_free fs → os_good o = true →
  ∃ fs', fault fs' = fault fs ∧ os_write data o fs = (o, fs').
Proof.
  intros Hf Hg. unfold os_write. rewrite Hg. destruct (fs_step_ok fs Hf) as [n ->]. simpl.
  eexists. by split; [|reflexivity].
Qed.
Lemma os_sync_ok o fs :
  fault_free fs → os_good o = true →
  ∃ fs', fault fs' = fault fs ∧ os_sync o fs = (o, fs').
Proof.
  intros Hf Hg. unfold os_sync. rewrite Hg. destruct (fs_step_ok fs Hf) as [n ->]. simpl.
  eexists. split; [|destruct o; simpl in *; subst; reflexivity]. done.
Qed.
Lemma same_fault_free fs fs' : fault fs' = fault fs → fault_free fs → fault_free fs'.
Proof. intros E H k. rewrite E. apply H. Qed.
#[export] Hint Resolve same_fault_free : kdbg.

(** ** The temporary name is found *)

Lemma append_inj_l (a b c : string) : a +:+ b = a +:+ c → b = c.
Proof. induction a as [|x a IH]; simpl; [done|]. intros [= E]. by apply IH. Qed.

Lemma dec_string_inj n m : 0 ≤ n → 0 ≤ m → dec_string n = dec_string m → n = m.
Proof.
  unfold dec_string. intros Hn Hm E. apply (f_equal String.list_ascii_of_string) in E.
  rewrite !String.list_ascii_of_string_of_list_ascii in E.
  pose proof (from_chars_print false 10 (Z.max n m) n) as H1.
  pose proof (from_chars_print false 10 (Z.max n m) m) as H2.
  rewrite E, H2 in H1 by lia. specialize (H1 ltac:(lia) ltac:(lia)). congruence.
Qed.

Lemma temporary_candidate_inj pid a b dest :
  0 ≤ a → 0 ≤ b →
  resolve (temporary_candidate pid a dest) = resolve (temporary_candidate pid b dest) → a = b.
Proof.
  intros Ha Hb E. apply (f_equal filename) in E. rewrite !filename_resolve in E.
  unfold temporary_candidate in E. cbn [filename] in E.
  do 4 apply append_inj_l in E. by apply dec_string_inj in E.
Qed.

(** A search that fails has seen as many distinct files as it made rounds. *)
Lemma temporary_loop_None fuel dest fs fs' :
  is_u64 (sequence fs) → temporary_loop fuel dest fs = (None, fs') →
  ∀ i, 0 ≤ i < Z.of_nat fuel →
    is_Some (files fs !! resolve (temporary_candidate (process_id fs) (u64 (sequence fs + i)) dest)).
Proof.
  revert fs. induction fuel as [|fuel IH]; intros fs Hq H i Hi; [lia|]. cbn [temporary_loop] in H.
  unfold fs_exists in H. simpl in H. destruct (fault fs (fs_ops fs)) as [err n]. simpl in H.
  destruct (_ && _) eqn:E; [|done]. apply andb_true_iff in E as [_ E%bool_decide_eq_true].
  unfold file in E. simpl in E. destruct (decide (i = 0)) as [->|Hi0].
  { by rewrite Z.add_0_r, u64_id. }
  eapply IH with (i := i - 1) in H; [|apply u64_range|lia]. simpl in H.
  replace (u64 (sequence fs + i)) with (u64 (u64 (sequence fs + 1) + (i - 1))); [done|].
  unfold u64. rewrite Z.add_mod_idemp_l by lia. f_equal. lia.
Qed.

Lemma TemporarySibling_found dest fs :
  is_u64 (sequence fs) → Z.of_nat (size (files fs)) ≤ u64_max →
  ∃ t fs', TemporarySibling dest fs = (Some t, fs').
Proof.
  intros Hq Hn. unfold TemporarySibling.
  destruct (temporary_loop _ dest fs) as [[t|] fs'] eqn:E; [by eauto|]. exfalso.
  pose proof (temporary_loop_None _ _ _ _ Hq E) as Hall.
  set (n := size (files fs)) in *.
  set (names := (λ i, resolve (temporary_candidate (process_id fs) (u64 (sequence fs + i)) dest))
                <$> seqZ 0 (Z.of_nat (S n))).
  assert (NoDup names) as Hnd.
  { apply NoDup_fmap_2_strong; [|apply NoDup_seqZ]. intros a b Ha%elem_of_seqZ Hb%elem_of_seqZ Eab.
    pose proof (u64_range (sequence fs + a)) as Ra. pose proof (u64_range (sequence fs + b)) as Rb.
    unfold is_u64 in *. apply temporary_candidate_inj in Eab; [|lia..].
    unfold u64 in Eab. Z.div_mod_to_equations. lia. }
  assert (size (list_to_set names : gset path) ≤ size (dom (files fs)))%nat as Hle.
  { apply subseteq_size. intros q Hin%elem_of_list_to_set. apply elem_of_dom.
    apply list_elem_of_fmap in Hin as (i & -> & Hi%elem_of_seqZ). apply Hall. lia. }
  rewrite size_list_to_set, size_dom in Hle by done.
  unfold names in Hle. rewrite length_fmap, length_seqZ in Hle. fold n in Hle. lia.
Qed.

Lemma os_open_ok t fs :
  fault_free fs →
  ∃ fs', fault fs' = fault fs ∧ os_open t fs = (mkOfstream t true, fs').
Proof.
  intros Hf. unfold os_open. destruct (fs_step_ok fs Hf) as [n ->]. simpl. eexists.
  split; [|reflexivity]. done.
Qed.
Lemma FlushFileToDisk_ok m t content fs :
  fault_free fs → file fs t = Some content →
  ∃ fs', ticked fs fs' ∧ FlushFileToDisk m t fs = (Success tt, fs').
Proof.
  intros Hf Hc. unfold FlushFileToDisk, file in *. destruct (fs_step_ok fs Hf) as [n ->]. simpl.
  rewrite Hc. simpl. pose proof (Hf (S (fs_ops fs))) as H. destruct (fault fs _) as [e k].
  simpl in H. subst e. simpl. eexists. split; [|reflexivity]. by split.
Qed.
Lemma ReplaceAtomically_ok m t dest content fs :
  fault_free fs → file fs t = Some content →
  ∃ fs', fault fs' = fault fs ∧ ReplaceAtomically m t dest fs = (Success tt, fs').
Proof.
  intros Hf Hc. unfold ReplaceAtomically, file in *. destruct (fs_step_ok fs Hf) as [n ->]. simpl.
  rewrite Hc. simpl. eexists. split; [|reflexivity]. done.
Qed.

Lemma with_temporary_ok body dest fs :
  fault_free fs → is_u64 (sequence fs) → Z.of_nat (size (files fs)) ≤ u64_max →
  (∀ t fs, fault_free fs → ∃ fs', fault fs' = fault fs ∧ body t fs = (Success tt, fs')) →
  ∃ fs', fault fs' = fault fs ∧ with_temporary body dest fs = (Success tt, fs').
Proof.
  intros Hf Hq Hn Hbody. unfold with_temporary.
  destruct (TemporarySibling_found dest fs Hq Hn) as (t & fs1 & Et). rewrite Et.
  apply temporary_loop_spec in Et as (_ & E1 & _).
  destruct (Hbody t fs1) as (fs2 & E2 & ->); [by eauto with kdbg|]. exists fs2.
  split; [congruence|done].
Qed.

Lemma commit_stream_ok content ce m stream t dest fs :
  stream_writes content stream →
  (∀ o fs, fault_free fs → os_good o = true → ∃ fs', fault fs' = fault fs ∧ stream o fs = (None, fs')) →
  fault_free fs →
  ∃ fs', fault fs' = fault fs ∧ commit_stream ce None m stream t dest fs = (Success tt, fs').
Proof.
  intros Hw Hok Hf. unfold commit_stream. destruct (os_open_ok t fs Hf) as (fs1 & E1 & Eo). rewrite Eo.
  destruct (os_open_frame _ _ _ _ Eo) as (_ & _ & G1). specialize (G1 eq_refl). cbn [os_good negb].
  destruct (Hok (mkOfstream t true) fs1) as (fs2 & E2 & Es); [by eauto with kdbg|done|].
  rewrite Es. destruct (Hw _ _ _ _ Es G1) as [_ Hc]. cbn [os_path] in Hc.
  destruct (FlushFileToDisk_ok m t content fs2) as (fs3 & [F3 E3] & ->); [by eauto with kdbg|done|].
  destruct (ReplaceAtomically_ok m t dest content fs3) as (fs4 & E4 & ->);
    [by eauto with kdbg|by unfold file; rewrite F3|].
  exists fs4. split; [congruence|done].
Qed.
