(* ===== verification/Iostream.v ===== *)
(** The formatted streams of the C++ standard library, as far as the address list uses
    them: extraction of integers, words and quoted strings from a line, insertion of
    the same, and [istream::getline]. *)

From stdpp Require Import list.
From S2P Require Import Prelude CppStd Wire Common FileSystem.
From Stdlib Require Import Ascii.

#[local] Open Scope Z_scope.

Abbreviation i32_max := 2147483647.
Abbreviation i64_max := 9223372036854775807.

(** ** Extraction

    A string stream is what is left of it and its end-of-file bit; an extraction that
    sets the fail bit is [None].  How a library stores a negative field in an unsigned
    integer, as its value modulo the width or as a failure, is a parameter; what it
    stores is a value of the type. *)

Record istream := mkIstream { in_rest : chars; in_eof : bool }.
Class NumGet := {
  negated_unsigned : Z → Z → option Z;
  negated_range max v r : negated_unsigned max v = Some r → 0 ≤ r ≤ max
}.

Definition istringstream (text : chars) : istream := mkIstream text false.

Fixpoint skip_ws (text : chars) : chars :=
  match text with [] => [] | c :: rest => if isspace c then skip_ws rest else text end.

(** What is left after reading up to the end sets the end-of-file bit. *)
Definition stopped (rest : chars) : istream := mkIstream rest (bool_decide (rest = [])).

(** [stream >> std::ws] *)
Definition ws (s : istream) : istream := if in_eof s then s else stopped (skip_ws (in_rest s)).

(** The sentry of a formatted extraction: skips white space and fails at the end. *)
Definition sentry (s : istream) : option chars :=
  if in_eof s then None else match skip_ws (in_rest s) with [] => None | text => Some text end.

Definition minus : ascii := "-"%char.
Definition plus : ascii := "+"%char.

(** An optional sign and the longest run of decimal digits. *)
Definition int_field (text : chars) : bool * list Z * chars :=
  let '(negative, text) :=
    match text with
    | c :: rest => if bool_decide (c = minus) then (true, rest)
                   else if bool_decide (c = plus) then (false, rest) else (false, text)
    | [] => (false, text)
    end in
  let '(digits, rest) := scan_digits 10 text in (negative, digits, rest).

Definition extract_int (convert : bool → Z → option Z) (s : istream) : option (Z * istream) :=
  match sentry s with
  | None => None
  | Some text =>
      let '(negative, digits, rest) := int_field text in
      if bool_decide (digits = []) then None
      else
        match convert negative (digits_value 10 digits) with
        | None => None
        | Some v => Some (v, stopped rest)
        end
  end.

Section NumGet.
Context `{NumGet}.

Definition extract_unsigned (max : Z) : istream → option (Z * istream) :=
  extract_int (λ negative v,
    if negative then negated_unsigned max v else if v <=? max then Some v else None).
End NumGet.

Definition extract_signed (max : Z) : istream → option (Z * istream) :=
  extract_int (λ negative v,
    let v := if negative then - v else v in
    if (- max - 1 <=? v) && (v <=? max) then Some v else None).

Fixpoint span_word (text : chars) : chars * chars :=
  match text with
  | [] => ([], [])
  | c :: rest => if isspace c then ([], text) else let '(w, r) := span_word rest in (c :: w, r)
  end.

(** [stream >> string] *)
Definition extract_word (s : istream) : option (chars * istream) :=
  match sentry s with
  | None => None
  | Some text => let '(word, rest) := span_word text in Some (word, stopped rest)
  end.

Definition quote_mark : ascii := ascii_of_N 34.
Definition backslash : ascii := ascii_of_N 92.

(** Up to the closing quote; the character after a backslash is itself. *)
Fixpoint read_quoted (text : chars) : option (chars * chars) :=
  match text with
  | [] => None
  | c :: rest =>
      if bool_decide (c = quote_mark) then Some ([], rest)
      else if bool_decide (c = backslash) then
        match rest with
        | [] => None
        | c :: rest => match read_quoted rest with Some (t, r) => Some (c :: t, r) | None => None end
        end
      else match read_quoted rest with Some (t, r) => Some (c :: t, r) | None => None end
  end.

(** [stream >> std::quoted(string)]: a word when it does not start with a quote. *)
Definition extract_quoted (s : istream) : option (chars * istream) :=
  match sentry s with
  | None => None
  | Some (c :: rest) =>
      if bool_decide (c = quote_mark) then
        match read_quoted rest with Some (t, r) => Some (t, mkIstream r false) | None => None end
      else let '(word, rest) := span_word (c :: rest) in Some (word, stopped rest)
  | Some [] => None
  end.

(** ** Insertion *)

Definition insert_int (n : Z) : chars :=
  if n <? 0 then minus :: print_number false 10 (- n) else print_number false 10 n.

Fixpoint escaped (text : chars) : chars :=
  match text with
  | [] => []
  | c :: rest =>
      (if bool_decide (c = quote_mark) || bool_decide (c = backslash) then [backslash; c] else [c]) ++
      escaped rest
  end.
Definition insert_quoted (text : chars) : chars := quote_mark :: escaped text ++ [quote_mark].

(** ** Lines of a file *)

(** A file stream read by lines: what is left and the state bits. *)
Record LineStream := mkLineStream {
  ls_rest : list Z;
  ls_eof : bool;
  ls_fail : bool;
  ls_bad : bool
}.
Definition ls_good (s : LineStream) : bool := negb (ls_eof s) && negb (ls_fail s) && negb (ls_bad s).

Inductive LineEnd := AtDelimiter (rest : list Z) | AtEof | AtLimit (rest : list Z).

(** At most [limit] bytes are stored. *)
Fixpoint scan_line (limit : Z) (bytes : list Z) : list Z * LineEnd :=
  match bytes with
  | [] => ([], AtEof)
  | b :: rest =>
      if b =? 10 then ([], AtDelimiter rest)
      else if limit <=? 0 then ([], AtLimit bytes)
      else let '(line, e) := scan_line (limit - 1) rest in (b :: line, e)
  end.

(** [getline(buffer, size)]: the bytes stored, whether the delimiter was extracted, and
    the stream.  A read of the file may fail. *)
Definition getline (size : Z) (s : LineStream) (fs : FileSystem) : list Z * bool * LineStream * FileSystem :=
  if negb (ls_good s) then
    ([], false, mkLineStream (ls_rest s) (ls_eof s) true (ls_bad s), fs)
  else
    let '(err, _, fs) := fs_step fs in
    if negb (err =? 0) then ([], false, mkLineStream (ls_rest s) false true true, fs)
    else
      match scan_line (size - 1) (ls_rest s) with
      | (line, AtDelimiter rest) => (line, true, mkLineStream rest false false false, fs)
      | (line, AtEof) => (line, false, mkLineStream [] true (bool_decide (line = [])) false, fs)
      | (line, AtLimit rest) => (line, false, mkLineStream rest false true false, fs)
      end.

Definition byte_chars (bytes : list Z) : chars := (λ b, ascii_of_N (Z.to_N b)) <$> bytes.
Definition chars_bytes (text : chars) : list Z := char_code <$> text.

(** ** Fields

    Fields that are written with a tab before each come back one by one. *)

Definition tab : ascii := ascii_of_N 9.
Definition newline : ascii := ascii_of_N 10.

Fixpoint tabbed (fields : list chars) : chars :=
  match fields with
  | [] => []
  | [f] => f
  | f :: fields => f ++ tab :: tabbed fields
  end.
(** The fields that follow another one. *)
Definition trail (fields : list chars) : chars := mjoin ((λ f, tab :: f) <$> fields).

Lemma tabbed_cons f fields : tabbed (f :: fields) = f ++ trail fields.
Proof.
  revert f. induction fields as [|g fields IH]; intros f; [by cbn; rewrite app_nil_r|].
  change (tabbed (f :: g :: fields)) with (f ++ tab :: tabbed (g :: fields)). by rewrite IH.
Qed.
Lemma trail_cons f fields : trail (f :: fields) = tab :: f ++ trail fields.
Proof. done. Qed.

(** A field starts with something else than white space; what follows a field is white
    space or the end. *)
Definition solid (f : chars) : Prop := match f with c :: _ => isspace c = false | [] => False end.
Definition bounded (rest : chars) : Prop := match rest with c :: _ => isspace c = true | [] => True end.

Lemma trail_bounded fields : bounded (trail fields).
Proof. by destruct fields. Qed.
Lemma stopped_bounded c rest : stopped (c :: rest) = mkIstream (c :: rest) false.
Proof. unfold stopped. by rewrite bool_decide_false. Qed.
#[export] Hint Resolve trail_bounded : kdbg.

Lemma skip_ws_solid f rest : solid f → skip_ws (f ++ rest) = f ++ rest.
Proof. destruct f as [|c f]; [done|]. cbn. by intros ->. Qed.
Lemma sentry_solid f rest : solid f → sentry (mkIstream (f ++ rest) false) = Some (f ++ rest).
Proof. intros Hf. unfold sentry. cbn [in_eof in_rest]. rewrite skip_ws_solid by done. by destruct f. Qed.
Lemma sentry_tabbed f fields : solid f → sentry (istringstream (tabbed (f :: fields))) = Some (f ++ trail fields).
Proof. intros Hf. unfold istringstream. rewrite tabbed_cons. by apply sentry_solid. Qed.
Lemma sentry_trail f fields : solid f → sentry (stopped (trail (f :: fields))) = Some (f ++ trail fields).
Proof.
  intros Hf. rewrite trail_cons, stopped_bounded. unfold sentry. cbn. rewrite skip_ws_solid by done.
  by destruct f.
Qed.
Lemma ws_trail f fields : solid f → ws (stopped (trail (f :: fields))) = mkIstream (f ++ trail fields) false.
Proof.
  intros Hf. rewrite trail_cons, stopped_bounded. unfold ws. cbn. rewrite skip_ws_solid by done.
  destruct f as [|c f]; [done|]. apply stopped_bounded.
Qed.

(** ** Integers *)

Lemma space_not_digit c : isspace c = true → digit_value c = None.
Proof. by destruct c as [[] [] [] [] [] [] [] []]. Qed.

Lemma digit_char_solid upper d : 0 ≤ d < 16 →
  isspace (digit_char upper d) = false ∧ digit_char upper d ≠ minus ∧ digit_char upper d ≠ plus ∧
  digit_char upper d ≠ newline ∧ char_code (digit_char upper d) ≠ 0.
Proof.
  intros Hd. pose proof (digit_value_char upper d Hd) as E.
  split_and!; [|by intros H; rewrite H in E..|].
  - destruct (isspace _) eqn:Hs; [|done]. apply space_not_digit in Hs. congruence.
  - intros H. unfold digit_value in E. rewrite H in E. done.
Qed.

Lemma print_number_digits upper n :
  0 ≤ n → ∃ d ds, print_number upper 10 n = digit_char upper <$> (d :: ds) ∧
    Forall (λ d, 0 ≤ d < 10) (d :: ds) ∧ digits_value 10 (d :: ds) = n.
Proof.
  intros Hn. pose proof (from_chars_print upper 10 n n ltac:(lia) ltac:(lia)) as Hf.
  unfold from_chars_unsigned, print_number in *.
  pose proof (zdigits_range (Z.to_nat (Z.log2 n + 1)) 10 n ltac:(lia) Hn) as Hr.
  rewrite <- (app_nil_r (digit_char upper <$> _)), scan_digits_print in Hf; [|lia|done|done].
  destruct (zdigits _ 10 n) as [|d ds]; [done|]. exists d, ds. split; [done|]. split; [done|].
  destruct (_ <=? n); by injection Hf.
Qed.

Lemma insert_int_solid n : solid (insert_int n).
Proof.
  unfold insert_int. destruct (n <? 0) eqn:E; [done|]. apply Z.ltb_ge in E.
  destruct (print_number_digits false n E) as (d & ds & -> & Hd & _). apply Forall_cons in Hd as [Hd _].
  cbn. apply digit_char_solid. lia.
Qed.
#[export] Hint Resolve insert_int_solid : kdbg.

Lemma int_field_insert n rest :
  bounded rest →
  ∃ ds, int_field (insert_int n ++ rest) = (n <? 0, ds, rest) ∧ ds ≠ [] ∧ digits_value 10 ds = Z.abs n.
Proof.
  intros Hb. assert (∀ m, 0 ≤ m → ∃ d ds, print_number false 10 m = digit_char false <$> (d :: ds) ∧
    0 ≤ d < 10 ∧ digits_value 10 (d :: ds) = m ∧
    scan_digits 10 (print_number false 10 m ++ rest) = (d :: ds, rest)) as Hp.
  { intros m Hm. destruct (print_number_digits false m Hm) as (d & ds & E & Hd & Hv). exists d, ds.
    split; [done|]. split; [by inversion Hd|]. split; [done|]. rewrite E.
    apply scan_digits_print; [lia|done|]. destruct rest; [done|]. by apply space_not_digit. }
  unfold insert_int, int_field. destruct (Z.ltb_spec n 0) as [Hn|Hn].
  - destruct (Hp (- n)) as (d & ds & E & Hd & Hv & Hs); [lia|]. exists (d :: ds). cbn [app].
    rewrite bool_decide_true by done. rewrite Hs. split; [done|]. split; [done|]. lia.
  - destruct (Hp n Hn) as (d & ds & E & Hd & Hv & Hs). exists (d :: ds). rewrite E in Hs |- *.
    destruct (digit_char_solid false d) as (_ & H1 & H2 & _); [lia|].
    cbn [fmap list_fmap app] in Hs |- *. rewrite !bool_decide_false by done. rewrite Hs.
    split; [done|]. split; [done|]. lia.
Qed.

Lemma extract_int_field convert n v fields s :
  sentry s = Some (insert_int n ++ trail fields) → convert (n <? 0) (Z.abs n) = Some v →
  extract_int convert s = Some (v, stopped (trail fields)).
Proof.
  intros Hs Hc. unfold extract_int. rewrite Hs.
  destruct (int_field_insert n (trail fields)) as (ds & -> & Hne & Hv); [by auto with kdbg|].
  by rewrite bool_decide_false, Hv, Hc.
Qed.

Lemma extract_unsigned_range `{NumGet} max s v s' : extract_unsigned max s = Some (v, s') → 0 ≤ v ≤ max.
Proof.
  unfold extract_unsigned, extract_int. destruct (sentry s) as [text|]; [|done].
  assert (0 ≤ digits_value 10 (int_field text).1.2) as Hd.
  { unfold int_field. destruct (match text with [] => _ | _ => _ end) as [negative t].
    pose proof (scan_digits_nonneg 10 t) as Hd. destruct (scan_digits 10 t) as [ds rest].
    by apply digits_value_nonneg. }
  destruct (int_field text) as [[negative ds] rest]. cbn [fst snd] in Hd. destruct (bool_decide _); [done|].
  destruct negative.
  - destruct (negated_unsigned _ _) eqn:E; [|done]. intros [= <- _]. by eapply negated_range.
  - destruct (Z.leb_spec (digits_value 10 ds) max); [|done]. by intros [= <- _].
Qed.

Lemma extract_unsigned_field `{NumGet} max n fields s :
  0 ≤ n ≤ max → sentry s = Some (insert_int n ++ trail fields) →
  extract_unsigned max s = Some (n, stopped (trail fields)).
Proof.
  intros Hn Hs. eapply extract_int_field; [exact Hs|]. rewrite (proj2 (Z.ltb_ge n 0)) by lia.
  rewrite Z.abs_eq by lia. by rewrite (proj2 (Z.leb_le n max)) by lia.
Qed.
Lemma extract_signed_field max n fields s :
  - max - 1 ≤ n ≤ max → sentry s = Some (insert_int n ++ trail fields) →
  extract_signed max s = Some (n, stopped (trail fields)).
Proof.
  intros Hn Hs. eapply extract_int_field; [exact Hs|]. cbv zeta.
  replace (if n <? 0 then - Z.abs n else Z.abs n) with n by (destruct (Z.ltb_spec n 0); lia).
  by rewrite !(proj2 (Z.leb_le _ _)) by lia.
Qed.

Lemma extract_unsigned_trail `{NumGet} max n fields :
  0 ≤ n ≤ max →
  extract_unsigned max (stopped (trail (insert_int n :: fields))) = Some (n, stopped (trail fields)).
Proof. intros Hn. apply extract_unsigned_field; [done|]. apply sentry_trail. by auto with kdbg. Qed.
Lemma extract_signed_trail max n fields :
  - max - 1 ≤ n ≤ max →
  extract_signed max (stopped (trail (insert_int n :: fields))) = Some (n, stopped (trail fields)).
Proof. intros Hn. apply extract_signed_field; [done|]. apply sentry_trail. by auto with kdbg. Qed.

(** ** Words and quoted strings *)

Lemma span_word_app w rest : Forall (λ c, isspace c = false) w → bounded rest → span_word (w ++ rest) = (w, rest).
Proof.
  intros Hw Hb. induction Hw as [|c w Hc _ IH]; cbn [app span_word].
  - destruct rest as [|c rest]; [done|]. cbn in Hb |- *. by rewrite Hb.
  - by rewrite Hc, IH.
Qed.
Lemma extract_word_field w fields s :
  Forall (λ c, isspace c = false) w → sentry s = Some (w ++ trail fields) →
  extract_word s = Some (w, stopped (trail fields)).
Proof. intros Hw Hs. unfold extract_word. rewrite Hs, span_word_app; [done|done|by auto with kdbg]. Qed.

Lemma read_quoted_escaped text rest : read_quoted (escaped text ++ quote_mark :: rest) = Some (text, rest).
Proof.
  induction text as [|c text IH]; [done|]. cbn [escaped].
  destruct (bool_decide (c = quote_mark)) eqn:E1; destruct (bool_decide (c = backslash)) eqn:E2; cbn [orb app read_quoted];
    try (change (bool_decide (backslash = quote_mark)) with false; change (bool_decide (backslash = backslash)) with true;
         cbn iota; by rewrite IH).
  by rewrite E1, E2, IH.
Qed.
Lemma extract_quoted_field text f fields s :
  sentry s = Some (insert_quoted text ++ trail (f :: fields)) →
  extract_quoted s = Some (text, stopped (trail (f :: fields))).
Proof.
  intros Hs. unfold extract_quoted. rewrite Hs. unfold insert_quoted. cbn [app].
  change (bool_decide (quote_mark = quote_mark)) with true. cbn iota.
  rewrite <- app_assoc. cbn [app]. rewrite read_quoted_escaped, trail_cons. by rewrite stopped_bounded.
Qed.
Lemma insert_quoted_solid text : solid (insert_quoted text).
Proof. done. Qed.
#[export] Hint Resolve insert_quoted_solid : kdbg.

(** ** Lines *)

Lemma byte_chars_bytes text : byte_chars (chars_bytes text) = text.
Proof.
  unfold byte_chars, chars_bytes. rewrite <- list_fmap_compose, (list_fmap_ext _ id); [by rewrite list_fmap_id|].
  intros _ c _. unfold compose, char_code. rewrite N2Z.id. apply Ascii.ascii_N_embedding.
Qed.

Lemma scan_line_app limit line rest :
  Forall (λ b, b ≠ 10) line → sizeZ line ≤ limit →
  scan_line limit (line ++ 10 :: rest) = (line, AtDelimiter rest).
Proof.
  intros Hl. revert limit. induction Hl as [|b line Hb _ IH]; intros limit Hs; [done|].
  rewrite sizeZ_cons in Hs. pose proof (sizeZ_nonneg line). cbn [app scan_line].
  rewrite (proj2 (Z.eqb_neq b 10)), (proj2 (Z.leb_gt limit 0)) by (done || lia). by rewrite IH by lia.
Qed.
Lemma getline_line size line rest fs :
  fault_free fs → Forall (λ b, b ≠ 10) line → sizeZ line < size →
  ∃ fs', ticked fs fs' ∧
    getline size (mkLineStream (line ++ 10 :: rest) false false false) fs =
      (line, true, mkLineStream rest false false false, fs').
Proof.
  intros Hf Hl Hs. unfold getline. cbn [ls_good ls_eof ls_fail ls_bad ls_rest negb andb].
  destruct (fs_step_ok fs Hf) as [n ->]. cbn [Z.eqb negb]. rewrite scan_line_app by (done || lia).
  eexists. split; [|reflexivity]. by split.
Qed.
Lemma getline_end size fs :
  fault_free fs →
  ∃ fs', ticked fs fs' ∧ getline size (mkLineStream [] false false false) fs =
    ([], false, mkLineStream [] true true false, fs').
Proof.
  intros Hf. unfold getline. cbn [ls_good ls_eof ls_fail ls_bad ls_rest negb andb].
  destruct (fs_step_ok fs Hf) as [n ->]. eexists. split; [|reflexivity]. by split.
Qed.

(** A line that does not fit sets the fail bit. *)
Lemma scan_line_long limit line rest :
  Forall (λ b, b ≠ 10) line → 0 ≤ limit < sizeZ line →
  ∃ stored rest', scan_line limit (line ++ rest) = (stored, AtLimit rest').
Proof.
  intros Hl. revert limit. induction Hl as [|b line Hb _ IH]; intros limit Hs; [unfold sizeZ in Hs; simpl in Hs; lia|].
  rewrite sizeZ_cons in Hs. cbn [app scan_line]. rewrite (proj2 (Z.eqb_neq b 10)) by done.
  destruct (Z.leb_spec limit 0); [by eauto|]. destruct (IH (limit - 1)) as (stored & rest' & ->); [lia|]. by eauto.
Qed.
Lemma getline_long size line rest fs :
  fault_free fs → Forall (λ b, b ≠ 10) line → 1 ≤ size ≤ sizeZ line →
  ∃ stored rest' fs', ticked fs fs' ∧
    getline size (mkLineStream (line ++ rest) false false false) fs =
      (stored, false, mkLineStream rest' false true false, fs').
Proof.
  intros Hf Hl Hs. unfold getline. cbn [ls_good ls_eof ls_fail ls_bad ls_rest negb andb].
  destruct (fs_step_ok fs Hf) as [n ->]. cbn [Z.eqb negb].
  destruct (scan_line_long (size - 1) line rest Hl) as (stored & rest' & ->); [lia|].
  eexists _, _, _. split; [|reflexivity]. by split.
Qed.
