(* ===== verification/Crc32.v ===== *)
(** [MemorySnapshot::Crc32]: the table-driven checksum of snapshot payloads, its
    equivalence with the bitwise definition of CRC-32, and what it detects. *)

From S2P Require Import Prelude CppStd Common.

(** ** The code *)

Definition kCrcPolynomial : Z := 0xEDB88320.

(** One bit of the constexpr table construction. *)
Definition crc_bit (value : Z) : Z :=
  let mask := u32 (0 - Z.land value 1) in
  Z.lxor (Z.shiftr value 1) (Z.land kCrcPolynomial mask).
Definition crc_entry (seed : Z) : Z := Nat.iter 8 crc_bit seed.
Definition kTable : list Z := crc_entry <$> seqZ 0 256.

(** One byte of the loop. *)
Definition crc_update (crc byte : Z) : Z :=
  let index := u8 (Z.lxor crc byte) in
  Z.lxor (Z.shiftr crc 8) (nth (Z.to_nat index) kTable 0).

Definition kProgressCheckpointBytes : Z := 64 * 1024.

Definition snapshot_cancelled {T} (operation msg : string) : Result T :=
  Failure (MakeError Cancelled msg operation).

(** The loop, with the stop token asked every 64 KiB; [stop] is what the token
    answers each time, [polls] how often it was asked. *)
Fixpoint crc_loop (stop : nat → bool) (operation : string) (bytes : list Z)
    (offset next_checkpoint crc : Z) (polls : nat) : Result Z * nat :=
  match bytes with
  | [] => (Success (Z.lxor crc u32_max), polls)
  | byte :: rest =>
      if next_checkpoint <=? offset then
        if stop polls then
          (snapshot_cancelled operation "Snapshot checksum was cancelled", S polls)
        else crc_loop stop operation rest (offset + 1) (offset + kProgressCheckpointBytes)
               (crc_update crc byte) (S polls)
      else crc_loop stop operation rest (offset + 1) next_checkpoint (crc_update crc byte) polls
  end.

Definition Crc32 (stop : nat → bool) (operation : string) (bytes : list Z) (polls : nat)
    : Result Z * nat :=
  crc_loop stop operation bytes 0 0 0xFFFFFFFF polls.

(** ** The definition of CRC-32

    Bit by bit, reflected: xor the next byte into the low end, then eight times
    shift right and xor the polynomial when a one falls out. *)
Definition crc_shift (v : Z) : Z :=
  if Z.testbit v 0 then Z.lxor (v `div` 2) 0xEDB88320 else v `div` 2.
Definition crc_byte (crc byte : Z) : Z := Nat.iter 8 crc_shift (Z.lxor crc byte).
Definition crc32_of (bytes : list Z) : Z := Z.lxor (foldl crc_byte 0xFFFFFFFF bytes) 0xFFFFFFFF.

(** ** Equivalence *)

Lemma crc_bit_shift v : crc_bit v = crc_shift v.
Proof.
  unfold crc_bit, crc_shift, kCrcPolynomial. rewrite Z.shiftr_div_pow2 by lia.
  change (Z.land v 1) with (Z.land v (Z.ones 1)). rewrite Z.land_ones by lia.
  change (2 ^ 1) with 2. pose proof (Z.bit0_mod v) as Hv.
  destruct (Z.testbit v 0); simpl in Hv; rewrite <- Hv; [done|].
  change (u32 (0 - 0)) with 0. by rewrite Z.land_0_r, Z.lxor_0_r.
Qed.

(** Shifting is linear. *)
Lemma crc_shift_lxor a b : crc_shift (Z.lxor a b) = Z.lxor (crc_shift a) (crc_shift b).
Proof.
  unfold crc_shift. rewrite Z.lxor_spec.
  assert ((Z.lxor a b) `div` 2 = Z.lxor (a `div` 2) (b `div` 2)) as ->.
  { change 2 with (2 ^ 1). rewrite <- !Z.shiftr_div_pow2 by lia. apply Z.shiftr_lxor. }
  set (x := a `div` 2). set (y := b `div` 2). set (p := 0xEDB88320).
  destruct (Z.testbit a 0), (Z.testbit b 0); simpl; try done.
  - rewrite (Z.lxor_comm y p), Z.lxor_assoc, <- (Z.lxor_assoc p p y).
    by rewrite Z.lxor_nilpotent, Z.lxor_0_l.
  - by rewrite !Z.lxor_assoc, (Z.lxor_comm y p).
  - by rewrite Z.lxor_assoc.
Qed.
Lemma crc_iter_lxor n a b :
  Nat.iter n crc_shift (Z.lxor a b) = Z.lxor (Nat.iter n crc_shift a) (Nat.iter n crc_shift b).
Proof. induction n as [|n IH]; simpl; [done|]. by rewrite IH, crc_shift_lxor. Qed.

(** Zero bits only shift out. *)
Lemma crc_iter_zeros n a :
  Nat.iter n crc_shift (a * 2 ^ Z.of_nat n) = a.
Proof.
  revert a. induction n as [|n IH]; intros a; simpl; [lia|].
  replace (a * 2 ^ Z.of_nat (S n)) with (2 * a * 2 ^ Z.of_nat n)
    by (rewrite Nat2Z.inj_succ, Z.pow_succ_r by lia; lia).
  rewrite IH. unfold crc_shift. rewrite Z.testbit_even_0.
  replace (2 * a) with (a * 2) by lia. apply Z.div_mul. lia.
Qed.

Lemma kTable_lookup i : 0 ≤ i < 256 → nth (Z.to_nat i) kTable 0 = Nat.iter 8 crc_shift i.
Proof.
  intros Hi. unfold kTable. apply nth_lookup_Some. rewrite list_lookup_fmap, lookup_seqZ_lt by lia.
  rewrite Z2Nat.id, Z.add_0_l by lia. unfold crc_entry. change (Some (Nat.iter 8 crc_bit i) =
    Some (Nat.iter 8 crc_shift i)). f_equal.
  generalize 8%nat. intros n. induction n as [|n IH]; simpl; [done|]. by rewrite IH, crc_bit_shift.
Qed.

(** The table lookup does eight bits at once. *)
Lemma crc_update_byte crc byte : is_u8 byte → crc_update crc byte = crc_byte crc byte.
Proof.
  intros Hb. unfold crc_update, crc_byte, is_u8 in *. set (x := Z.lxor crc byte).
  rewrite kTable_lookup by apply (Z.mod_pos_bound x 256 ltac:(lia)). unfold u8.
  assert (x = Z.lxor (x `div` 256 * 256) (x `mod` 256)) as Hx.
  { rewrite <- Z.add_nocarry_lxor; [pose proof (Z.div_mod x 256); lia|].
    change 256 with (2 ^ 8). rewrite <- Z.shiftr_div_pow2, <- Z.shiftl_mul_pow2 by lia.
    apply Z.bits_inj'. intros i Hi. rewrite Z.land_spec, Z.bits_0.
    destruct (Z.ltb_spec i 8).
    - by rewrite Z.shiftl_spec_low by lia.
    - by rewrite Z.mod_pow2_bits_high, andb_false_r by lia. }
  rewrite Hx at 2. rewrite crc_iter_lxor.
  change (x `div` 256 * 256) with (x `div` 256 * 2 ^ Z.of_nat 8). rewrite crc_iter_zeros.
  f_equal. rewrite Z.shiftr_div_pow2 by lia. change (2 ^ 8) with 256.
  unfold x. change 256 with (2 ^ 8). rewrite <- !Z.shiftr_div_pow2, Z.shiftr_lxor by lia.
  rewrite (Z.shiftr_div_pow2 byte), (Z.div_small byte) by lia. by rewrite Z.lxor_0_r.
Qed.

Lemma crc_loop_ok op bytes offset next crc polls stop :
  Forall is_u8 bytes → (∀ n, stop n = false) →
  (crc_loop stop op bytes offset next crc polls).1 =
    Success (Z.lxor (foldl crc_byte crc bytes) u32_max).
Proof.
  intros Hb Hs. revert offset next crc polls.
  induction Hb as [|b bytes Hb _ IH]; intros offset next crc polls; simpl; [done|].
  rewrite Hs. destruct (next <=? offset); by rewrite IH, crc_update_byte.
Qed.

(** The table-driven checksum is CRC-32: unless the scan is cancelled, [Crc32]
    of any bytes, from any number of earlier polls, is the value the bitwise
    definition gives. *)
Theorem Crc32_reference stop operation bytes polls :
  Forall is_u8 bytes → (∀ n, stop n = false) →
  (Crc32 stop operation bytes polls).1 = Success (crc32_of bytes).
Proof. intros Hb Hs. unfold Crc32. by rewrite crc_loop_ok. Qed.

(** The check value of CRC-32: the digits 1 to 9. *)
Lemma Crc32_reference_witness :
  (Crc32 (λ _, false) "" (seqZ 49 9) 0).1 = Success 0xCBF43926.
Proof.
  rewrite (Crc32_reference (λ _, false) "" (seqZ 49 9) 0).
  - vm_compute. reflexivity.
  - vm_compute. repeat constructor; congruence.
  - done.
Defined.

(** ** What it detects *)

Lemma lxor_bound n a b : 0 ≤ n → 0 ≤ a < 2 ^ n → 0 ≤ b < 2 ^ n → 0 ≤ Z.lxor a b < 2 ^ n.
Proof.
  intros Hn Ha Hb. assert (Z.lxor a b = (Z.lxor a b) `mod` 2 ^ n) as ->.
  { apply Z.bits_inj'. intros i Hi. destruct (Z.ltb_spec i n).
    - by rewrite Z.mod_pow2_bits_low by lia.
    - rewrite Z.mod_pow2_bits_high, Z.lxor_spec by lia.
      rewrite <- (Z.mod_small a (2 ^ n)), <- (Z.mod_small b (2 ^ n)) by lia.
      by rewrite !Z.mod_pow2_bits_high by lia. }
  apply Z.mod_pos_bound. lia.
Qed.

Lemma crc_shift_u32 v : is_u32 v → is_u32 (crc_shift v).
Proof.
  unfold is_u32, crc_shift. intros Hv.
  assert (0 ≤ v `div` 2 < 2 ^ 31) as Hd
    by (change (2 ^ 31) with 2147483648; Z.div_mod_to_equations; lia).
  destruct (Z.testbit v 0); [|change (2 ^ 31) with 2147483648 in Hd; lia].
  change (2 ^ 31) with 2147483648 in Hd.
  pose proof (lxor_bound 32 (v `div` 2) 0xEDB88320) as H. change (2 ^ 32) with 4294967296 in H. lia.
Qed.

(** The bit that fell out is the top bit of the result, so a shift loses nothing. *)
Lemma crc_shift_top v : is_u32 v → Z.testbit (crc_shift v) 31 = Z.testbit v 0.
Proof.
  unfold is_u32, crc_shift. intros Hv.
  assert (Z.testbit (v `div` 2) 31 = false) as Hd.
  { rewrite <- (Z.mod_small (v `div` 2) (2 ^ 31)).
    - apply Z.mod_pow2_bits_high. lia.
    - change (2 ^ 31) with 2147483648. Z.div_mod_to_equations. lia. }
  destruct (Z.testbit v 0); [rewrite Z.lxor_spec|]; by rewrite Hd.
Qed.
Lemma crc_shift_inj v w : is_u32 v → is_u32 w → crc_shift v = crc_shift w → v = w.
Proof.
  intros Hv Hw E. pose proof (crc_shift_top v Hv) as Tv. pose proof (crc_shift_top w Hw) as Tw.
  rewrite E, Tw in Tv. pose proof (Z.bit0_mod v) as Mv. pose proof (Z.bit0_mod w) as Mw.
  unfold crc_shift in E. rewrite Tv in *.
  assert (v `div` 2 = w `div` 2) as Ed.
  { destruct (Z.testbit v 0); [|done].
    apply (f_equal (λ x, Z.lxor x 0xEDB88320)) in E.
    by rewrite !Z.lxor_assoc, Z.lxor_nilpotent, !Z.lxor_0_r in E. }
  pose proof (Z.div_mod v 2). pose proof (Z.div_mod w 2). lia.
Qed.

Lemma crc_iter_u32 n v : is_u32 v → is_u32 (Nat.iter n crc_shift v).
Proof. induction n; simpl; [done|]. intros. by apply crc_shift_u32, IHn. Qed.
Lemma crc_iter_inj n v w :
  is_u32 v → is_u32 w → Nat.iter n crc_shift v = Nat.iter n crc_shift w → v = w.
Proof.
  intros Hv Hw. induction n as [|n IH]; simpl; [done|]. intros E. apply IH.
  apply crc_shift_inj in E; [done|by apply crc_iter_u32..].
Qed.

Lemma lxor_u32 a b : is_u32 a → is_u8 b → is_u32 (Z.lxor a b).
Proof.
  unfold is_u32, is_u8. intros Ha Hb.
  pose proof (lxor_bound 32 a b) as H. change (2 ^ 32) with 4294967296 in H. lia.
Qed.
Lemma lxor_cancel_l a b c : Z.lxor a b = Z.lxor a c → b = c.
Proof.
  intros E. apply (f_equal (Z.lxor a)) in E.
  by rewrite <- !Z.lxor_assoc, Z.lxor_nilpotent, !Z.lxor_0_l in E.
Qed.

Lemma crc_byte_u32 c b : is_u32 c → is_u8 b → is_u32 (crc_byte c b).
Proof. intros. by apply crc_iter_u32, lxor_u32. Qed.
Lemma crc_fold_u32 c bytes : is_u32 c → Forall is_u8 bytes → is_u32 (foldl crc_byte c bytes).
Proof.
  intros Hc Hb. revert c Hc. induction Hb as [|b bytes Hb _ IH]; intros c Hc; simpl; [done|].
  by apply IH, crc_byte_u32.
Qed.

Lemma crc32_of_u32 bytes : Forall is_u8 bytes → is_u32 (crc32_of bytes).
Proof.
  intros Hb. unfold crc32_of.
  assert (is_u32 (foldl crc_byte 0xFFFFFFFF bytes)) as Hc by (apply crc_fold_u32; done).
  pose proof (lxor_bound 32 (foldl crc_byte 0xFFFFFFFF bytes) 0xFFFFFFFF) as H.
  change (2 ^ 32) with 4294967296 in H. unfold is_u32 in *. lia.
Qed.
Lemma crc_fold_inj c d bytes :
  is_u32 c → is_u32 d → Forall is_u8 bytes →
  foldl crc_byte c bytes = foldl crc_byte d bytes → c = d.
Proof.
  intros Hc Hd Hb. revert c d Hc Hd. induction Hb as [|b bytes Hb _ IH]; intros c d Hc Hd; simpl; [done|].
  intros E. apply IH in E; [|by apply crc_byte_u32..].
  apply crc_iter_inj in E; [|by apply lxor_u32..].
  rewrite !(Z.lxor_comm _ b) in E. by apply lxor_cancel_l in E.
Qed.

(** Changing one byte changes the checksum. *)
Lemma crc32_of_one_byte pre x y post :
  Forall is_u8 (pre ++ x :: post) → is_u8 y → x ≠ y →
  crc32_of (pre ++ x :: post) ≠ crc32_of (pre ++ y :: post).
Proof.
  intros [Hpre [Hx Hpost]%Forall_cons]%Forall_app Hy Hne E. unfold crc32_of in E.
  rewrite !(Z.lxor_comm _ 0xFFFFFFFF) in E. apply lxor_cancel_l in E.
  rewrite !foldl_app in E. simpl in E.
  assert (is_u32 (foldl crc_byte 0xFFFFFFFF pre)) as Hc by by apply crc_fold_u32.
  apply crc_fold_inj in E; [|by apply crc_byte_u32..|done].
  apply crc_iter_inj in E; [|by apply lxor_u32..].
  by apply lxor_cancel_l in E.
Qed.
