(* ===== verification/MemorySnapshot.v ===== *)
(** [core/snapshot/MemorySnapshot]: capturing a range of memory in chunks and
    comparing two captures.

    What [MemorySnapshot::Diff] computes: the maximal runs of differing bytes,
    within the caller's budgets. *)

From stdpp Require Import sorting.
From S2P Require Import Prelude CppStd Wire Common MemoryBackend ProcessMemory Crc32.

(** ** Data *)

Record SnapshotDiffRun := mkSnapshotDiffRun { sr_offset : Z; sr_length : Z }.

#[export] Instance SnapshotDiffRun_eq_dec : EqDecision SnapshotDiffRun.
Proof. solve_decision. Defined.

Definition kMaxSnapshotBytes : Z := 512 * 1024 * 1024.
Definition kMaxChunkBytes : Z := 1024 * 1024.
Definition kMaxLabelBytes : Z := 1024 * 1024.
Definition kMaxDiffRuns : Z := 1000000.

Record MemorySnapshot := mkMemorySnapshot {
  space_ : MemorySpace;
  address_ : Z;
  snap_bytes : list Z;
  checksum_ : Z
}.

#[export] Instance MemorySnapshot_eta : Eta MemorySnapshot := fun s =>
  mkMemorySnapshot (space_ s) (address_ s) (snap_bytes s) (checksum_ s).
#[export] Instance MemorySnapshot_eq_dec : EqDecision MemorySnapshot.
Proof. solve_decision. Defined.

Definition label_size (space : MemorySpace) : Z := sizeZ (label_bytes (label space)).

(** ** Validation *)

Definition ValidateSnapshotSpace (space : MemorySpace) (operation : string) : Result unit :=
  if kMaxLabelBytes <? label_size space then
    Failure (MakeError LimitReached "Snapshot label exceeds the core limit" operation)
  else
    match kind space with
    | Physical | KernelVirtual =>
        if negb (pid space =? 0) || negb (directory_table_base space =? 0) then
          Failure (MakeError InvalidArgument
            "Non-process snapshots must not carry a PID or directory-table base" operation)
        else Success tt
    | ProcessVirtual =>
        if pid space =? 0 then
          Failure (MakeError InvalidArgument "Process snapshots require a non-zero PID" operation)
        else Success tt
    end.

Definition CheckedAdd (left right : Z) : option Z :=
  if u64_max - left <? right then None else Some (u64 (left + right)).

(** ** Capture

    A reader is a function of the address, the length and the state it reads
    from; [stop] is what the stop token answers at each poll. *)

Section Capture.
Context {S : Type} (reader : Z → Z → S → Result (list Z) * S) (stop : nat → bool).

Definition capture_cancelled {T} : Result T :=
  snapshot_cancelled "MemorySnapshot::Capture" "Snapshot capture was cancelled".

(** [while (offset < size)]; an iteration advances by a chunk or finishes, so
    [size / chunk_size + 2] rounds are enough. *)
Fixpoint capture_loop (fuel : nat) (address size chunk_size offset : Z) (bytes : list Z)
    (polls : nat) (s : S) : Result (list Z) * nat * S :=
  match fuel with
  | O => (Failure (MakeError InternalInvariant "" ""), polls, s)
  | Datatypes.S fuel =>
      if offset <? size then
        if stop polls then (capture_cancelled, Datatypes.S polls, s)
        else
          let remaining := size - offset in
          let current := u32 (Z.min remaining chunk_size) in
          match reader (u64 (address + offset)) current s with
          | (Failure e, s) => (Failure e, Datatypes.S polls, s)
          | (Success chunk, s) =>
              if negb (sizeZ chunk =? current) then
                (Failure (MakeErrorFull ShortRead "Snapshot capture returned a short read"
                   "MemorySnapshot::Capture" 0 current (sizeZ chunk)), Datatypes.S polls, s)
              else
                capture_loop fuel address size chunk_size (offset + current) (bytes ++ chunk)
                  (Datatypes.S polls) s
          end
      else (Success bytes, polls, s)
  end.

(** The checks before the loop; the chunk size they settle on. *)
Definition capture_checks (space : MemorySpace) (address size chunk_size : Z) : Result Z :=
  match ValidateSnapshotSpace space "MemorySnapshot::Capture" with
  | Failure e => Failure e
  | Success _ =>
      if (size =? 0) || (u64_max <? size) then
        Failure (MakeError InvalidArgument "Snapshot size is zero or cannot fit in this process"
          "MemorySnapshot::Capture")
      else if kMaxSnapshotBytes <? size then
        Failure (MakeErrorFull LimitReached "Snapshot size exceeds the 512 MiB core limit"
          "MemorySnapshot::Capture" 0 kMaxSnapshotBytes size)
      else
        match CheckedAdd address size with
        | None =>
            Failure (MakeError AddressOverflow "Snapshot address range overflows"
              "MemorySnapshot::Capture")
        | Some _ =>
            if (chunk_size =? 0) || (kMaxChunkBytes <? chunk_size) then
              Failure (MakeErrorFull InvalidArgument
                "Snapshot chunk size is zero or exceeds the 1 MiB core limit"
                "MemorySnapshot::Capture" 0 kMaxChunkBytes chunk_size)
            else Success (Z.max 4096 chunk_size)
        end
  end.

Definition CaptureWithReader (space : MemorySpace) (address size chunk_size : Z) (s : S)
    : Result MemorySnapshot * S :=
  match capture_checks space address size chunk_size with
  | Failure e => (Failure e, s)
  | Success chunk_size =>
      if stop 0%nat then (capture_cancelled, s)
      else
        match capture_loop (Z.to_nat (size / chunk_size + 2)) address size chunk_size 0 [] 1 s with
        | (Failure e, _, s) => (Failure e, s)
        | (Success bytes, polls, s) =>
            match Crc32 stop "MemorySnapshot::Capture" bytes polls with
            | (Failure e, _) => (Failure e, s)
            | (Success checksum, _) =>
                (Success (mkMemorySnapshot space address bytes checksum), s)
            end
        end
  end.
End Capture.

(** The two overloads: from a backend, and from an attached process. *)
Definition CaptureBackend {B} `{IMemoryBackend B} (stop : nat → bool) (space : MemorySpace)
    (address size chunk_size : Z) (b : B) : Result MemorySnapshot * B :=
  CaptureWithReader (ReadMemory space) stop space address size chunk_size b.

Definition CaptureProcess {P} `{IProcessMemory P} (stop : nat → bool)
    (address size chunk_size : Z) (p : P) : Result MemorySnapshot * P :=
  if negb (IsOpen p) then
    (Failure (MakeError BackendDisconnected
       "Cannot capture a snapshot without an attached process" "MemorySnapshot::Capture"), p)
  else
    let space := ProcessSpace (ProcessId p) 0 ("PID " +:+ dec_string (ProcessId p)) in
    CaptureWithReader Read stop space address size chunk_size p.

(** ** Diff

    The loops walk [index] along both byte vectors; [rest] is what is left of
    them from [index] on, paired. *)

Definition diff_cancelled {T} : Result T :=
  snapshot_cancelled "MemorySnapshot::Diff" "Snapshot diff was cancelled".

(** The inner loop, which extends a run; [None] when it is cancelled. *)
Fixpoint run_loop (stop : nat → bool) (rest : list (Z * Z)) (index next_checkpoint : Z)
    (polls : nat) : option (list (Z * Z) * Z * Z) * nat :=
  match rest with
  | [] => (Some ([], index, next_checkpoint), polls)
  | (older, newer) :: rest' =>
      if older =? newer then (Some (rest, index, next_checkpoint), polls)
      else
        let index := index + 1 in
        if next_checkpoint <=? index then
          if stop polls then (None, S polls)
          else run_loop stop rest' index (index + kProgressCheckpointBytes) (S polls)
        else run_loop stop rest' index next_checkpoint polls
  end.

(** The outer loop; every round consumes a byte, so one more round than there
    are bytes is enough. *)
Fixpoint diff_loop (stop : nat → bool) (fuel : nat) (max_runs max_changed_bytes : Z)
    (rest : list (Z * Z)) (index next_checkpoint changed_bytes : Z) (runs : list SnapshotDiffRun)
    (polls : nat) : Result (list SnapshotDiffRun) :=
  match fuel with
  | O => Failure (MakeError InternalInvariant "" "")
  | S fuel =>
      match rest with
      | [] => Success runs
      | (older, newer) :: rest' =>
          let checkpoint := next_checkpoint <=? index in
          if checkpoint && stop polls then diff_cancelled
          else
            let next_checkpoint :=
              if checkpoint then index + kProgressCheckpointBytes else next_checkpoint in
            let polls := if checkpoint then S polls else polls in
            if older =? newer then
              diff_loop stop fuel max_runs max_changed_bytes rest' (index + 1) next_checkpoint
                changed_bytes runs polls
            else if max_runs <=? sizeZ runs then
              Failure (MakeErrorFull LimitReached "Snapshot diff reached the configured run limit"
                "MemorySnapshot::Diff" 0 max_runs (sizeZ runs))
            else
              match run_loop stop rest index next_checkpoint polls with
              | (None, _) => diff_cancelled
              | (Some (rest, stop_index, next_checkpoint), polls) =>
                  let length := stop_index - index in
                  if max_changed_bytes - changed_bytes <? length then
                    Failure (MakeErrorFull LimitReached
                      "Snapshot diff reached the configured changed-byte limit"
                      "MemorySnapshot::Diff" 0 max_changed_bytes (changed_bytes + length))
                  else
                    diff_loop stop fuel max_runs max_changed_bytes rest stop_index next_checkpoint
                      (changed_bytes + length) (runs ++ [mkSnapshotDiffRun index length]) polls
              end
      end
  end.

Definition same_range (older newer : MemorySnapshot) : bool :=
  bool_decide (kind (space_ older) = kind (space_ newer)) &&
  (pid (space_ older) =? pid (space_ newer)) &&
  (address_ older =? address_ newer) &&
  (sizeZ (snap_bytes older) =? sizeZ (snap_bytes newer)).

Definition budgets_ok (max_runs max_changed_bytes : Z) : bool :=
  negb ((max_runs =? 0) || (kMaxDiffRuns <? max_runs) ||
        (max_changed_bytes =? 0) || (kMaxSnapshotBytes <? max_changed_bytes)).

Definition Diff (stop : nat → bool) (max_runs max_changed_bytes : Z)
    (older newer : MemorySnapshot) : Result (list SnapshotDiffRun) :=
  if negb (same_range older newer) then
    Failure (MakeError InvalidArgument "Snapshots cover different address spaces or ranges"
      "MemorySnapshot::Diff")
  else if negb (budgets_ok max_runs max_changed_bytes) then
    Failure (MakeError InvalidArgument "Snapshot diff budgets are zero or exceed the core limits"
      "MemorySnapshot::Diff")
  else if stop 0%nat then diff_cancelled
  else
    diff_loop stop (S (List.length (snap_bytes older))) max_runs max_changed_bytes
      (zip (snap_bytes older) (snap_bytes newer)) 0 0 0 [] 1.

(** ** Capturing is exact *)

Section CaptureExact.
Context {S : Type} (reader : Z → Z → S → Result (list Z) * S) (inv : S → Prop) (mem : Z → Z)
  (address size : Z).

(** In the states the reader stays in, it returns, in full, what [mem] holds in
    the range. *)
Definition reads_range : Prop :=
  ∀ a n s, inv s → 0 < n → address ≤ a → a + n ≤ address + size →
    (reader a n s).1 = Success (mem_bytes mem a n) ∧ inv (reader a n s).2.

Definition capture_args_ok (space : MemorySpace) (chunk_size : Z) : Prop :=
  ValidateSnapshotSpace space "MemorySnapshot::Capture" = Success tt ∧
  0 < size ≤ kMaxSnapshotBytes ∧ address + size ≤ u64_max ∧ 0 < chunk_size ≤ kMaxChunkBytes.

Context (stop : nat → bool) (Hstop : ∀ n, stop n = false) (Hreads : reads_range).

Lemma capture_loop_exact chunk_size fuel offset polls s :
  0 ≤ address → address + size ≤ u64_max → size ≤ kMaxSnapshotBytes →
  4096 ≤ chunk_size ≤ kMaxChunkBytes → 0 ≤ offset ≤ size →
  size - offset ≤ (Z.of_nat fuel - 1) * chunk_size → inv s →
  (capture_loop reader stop fuel address size chunk_size offset
     (mem_bytes mem address offset) polls s).1.1 = Success (mem_bytes mem address size).
Proof.
  unfold kMaxSnapshotBytes, kMaxChunkBytes. intros Ha Hov Hsz Hc. revert offset polls s.
  induction fuel as [|fuel IH]; intros offset polls s Ho Hf Hi; [nia|]. simpl.
  destruct (Z.ltb_spec offset size) as [Hlt|Hge].
  2:{ simpl. by replace offset with size by lia. }
  rewrite Hstop. set (current := Z.min (size - offset) chunk_size).
  rewrite (u32_id current), u64_id by (unfold is_u32, is_u64, current; lia).
  destruct (Hreads (address + offset) current s Hi) as [Hr Hi']; [unfold current; lia..|].
  destruct (reader (address + offset) current s) as [r s'].
  simpl in Hr, Hi'. rewrite Hr. clear Hr.
  rewrite sizeZ_mem_bytes by (unfold current; lia). rewrite Z.eqb_refl. simpl.
  rewrite <- mem_bytes_app by (unfold current; lia). rewrite Nat2Z.inj_succ in Hf.
  assert (1 ≤ Z.of_nat fuel) by nia.
  apply IH; [lia| |done]. subst current.
  destruct (Z.min_spec (size - offset) chunk_size) as [[_ ->]|[_ ->]]; nia.
Qed.

Lemma capture_checks_ok space chunk_size :
  is_u64 address → is_u64 size → is_u32 chunk_size →
  capture_args_ok space chunk_size →
  capture_checks space address size chunk_size = Success (Z.max 4096 chunk_size).
Proof.
  unfold is_u64, is_u32, capture_checks, CheckedAdd, kMaxSnapshotBytes, kMaxChunkBytes.
  intros Ha Hs Hc (-> & Hsz & Hov & Hch). unfold kMaxSnapshotBytes, kMaxChunkBytes in *.
  rewrite !(proj2 (Z.eqb_neq _ _)), !(proj2 (Z.ltb_ge _ _)) by lia. done.
Qed.
Lemma capture_checks_inv space chunk_size c :
  is_u64 address → is_u64 size → is_u32 chunk_size →
  capture_checks space address size chunk_size = Success c → capture_args_ok space chunk_size.
Proof.
  unfold is_u64, is_u32, capture_checks, CheckedAdd, capture_args_ok.
  intros Ha Hs Hc H. destruct (ValidateSnapshotSpace _ _) as [[]|]; [|done].
  repeat (case_match; simplify_eq). boolify. split; [done|]. lia.
Qed.

(** A capture is exact: over a reader that returns what memory holds in the
    range, and with no cancellation, [CaptureWithReader] succeeds exactly for valid
    arguments (a well-formed space, a non-empty range of at most 512 MiB that does
    not wrap, a chunk size up to 1 MiB), whatever the chunking, and the snapshot is
    the space, the address, the whole range in order, and its CRC-32. *)
Theorem CaptureWithReader_exact space chunk_size s snap :
  is_u64 address → is_u64 size → is_u32 chunk_size → (∀ x, is_u8 (mem x)) → inv s →
  (CaptureWithReader reader stop space address size chunk_size s).1 = Success snap ↔
  capture_args_ok space chunk_size ∧
  snap = mkMemorySnapshot space address (mem_bytes mem address size)
           (crc32_of (mem_bytes mem address size)).
Proof.
  intros Ha Hs Hc Hm Hi.
  assert (capture_args_ok space chunk_size →
    (CaptureWithReader reader stop space address size chunk_size s).1 =
    Success (mkMemorySnapshot space address (mem_bytes mem address size)
      (crc32_of (mem_bytes mem address size)))) as Hok.
  { intros Hargs. unfold CaptureWithReader. rewrite capture_checks_ok, Hstop by done.
    destruct Hargs as (_ & Hsz & Hov & Hch). unfold is_u64, kMaxChunkBytes in *.
    set (c := Z.max 4096 chunk_size).
    pose proof (capture_loop_exact c (Z.to_nat (size / c + 2)) 0 1 s) as Hl.
    assert (mem_bytes mem address 0 = []) as E0 by (rewrite mem_bytes_seqZ; done).
    rewrite E0 in Hl.
    destruct (capture_loop _ _ _ _ _ _ _ _ _ _) as [[r polls] s']. simpl in Hl.
    rewrite Hl; clear Hl; [|lia|done|lia|unfold c, kMaxChunkBytes; lia|lia| |done].
    2:{ assert (4096 ≤ c) by (unfold c; lia). pose proof (Z.div_mod size c ltac:(lia)).
        pose proof (Z.mod_pos_bound size c ltac:(lia)).
        assert (0 ≤ size / c) by (apply Z.div_pos; lia). rewrite Z2Nat.id by lia. nia. }
    pose proof (crc_loop_ok "MemorySnapshot::Capture" (mem_bytes mem address size) 0 0 0xFFFFFFFF
      polls stop) as Hcrc. unfold Crc32. destruct (crc_loop _ _ _ _ _ _ _) as [v polls'].
    simpl in Hcrc. rewrite Hcrc; [done| |done].
    rewrite mem_bytes_seqZ. apply Forall_fmap, Forall_true. intros. apply Hm. }
  split.
  - intros H. assert (capture_args_ok space chunk_size) as Hargs.
    { unfold CaptureWithReader in H.
      destruct (capture_checks space address size chunk_size) eqn:E; [|done].
      by eapply capture_checks_inv. }
    split; [done|]. rewrite Hok in H by done. by injection H as <-.
  - intros [Hargs ->]. by apply Hok.
Qed.
End CaptureExact.

(** Two chunks of a process's memory. *)
Definition capture_demo : MockProcessMemory :=
  mkMockProcessMemory 0x1000 8 ((λ k, k `mod` 251) <$> seqZ 0 6000) [] [] false.
Lemma CaptureWithReader_exact_witness :
  ∃ snap,
    (CaptureWithReader Read (λ _, false) (ProcessSpace 7 0 "") 0x1000 6000 1 capture_demo).1 =
    Success snap.
Proof.
  eexists. eapply (CaptureWithReader_exact Read (eq capture_demo) (mock_vmem capture_demo)
    0x1000 6000 (λ _, false)); [done| |unfold is_u64; lia..|unfold is_u32; lia| |exact eq_refl|].
  - intros a n _ <- Hn Ha Hr.
    change (@Read _ MockProcessMemory_IProcessMemory) with MockProcess_Read.
    rewrite MockProcess_Read_exact; [split; exact eq_refl|done|exact Ha|].
    unfold sizeZ, capture_demo. cbn [bytes_ base_]. rewrite length_fmap, length_seqZ. lia.
  - intros x. unfold mock_vmem. apply byte_at_u8, Forall_fmap, Forall_true. intros k.
    unfold compose, is_u8. pose proof (Z.mod_pos_bound k 251). lia.
  - split; [|exact eq_refl]. split; [reflexivity|]. unfold kMaxSnapshotBytes, kMaxChunkBytes. lia.
Defined.

(** ** The runs of a bitmap

    By recursion on the bitmap: a set bit extends the run that starts right
    after it, or starts one of its own. *)
Fixpoint runs_of (i : Z) (d : list bool) : list SnapshotDiffRun :=
  match d with
  | [] => []
  | false :: d => runs_of (i + 1) d
  | true :: d =>
      match runs_of (i + 1) d with
      | r :: rs =>
          if sr_offset r =? i + 1 then mkSnapshotDiffRun i (sr_length r + 1) :: rs
          else mkSnapshotDiffRun i 1 :: r :: rs
      | [] => [mkSnapshotDiffRun i 1]
      end
  end.

Definition in_run (k : Z) (r : SnapshotDiffRun) : Prop :=
  sr_offset r ≤ k < sr_offset r + sr_length r.
(** Runs are not empty, and one byte at least separates two of them. *)
Definition run_before (r r' : SnapshotDiffRun) : Prop :=
  sr_offset r + sr_length r < sr_offset r'.

Definition bit_at (d : list bool) (i : Z) : bool := nth (Z.to_nat i) d false.

Lemma bit_at_cons b d i : 0 < i → bit_at (b :: d) i = bit_at d (i - 1).
Proof.
  intros. unfold bit_at. replace (Z.to_nat i) with (S (Z.to_nat (i - 1))) by lia. done.
Qed.

Lemma runs_of_wf i d :
  Forall (λ r, i ≤ sr_offset r ∧ 0 < sr_length r) (runs_of i d) ∧
  StronglySorted run_before (runs_of i d).
Proof.
  revert i. induction d as [|[] d IH]; intros i; simpl.
  - by repeat constructor.
  - destruct (IH (i + 1)) as [Hf Hs].
    destruct (runs_of (i + 1) d) as [|r rs]; [split; repeat constructor; simpl; lia|].
    apply Forall_cons in Hf as [[Hr Hl] Hf]. apply StronglySorted_inv in Hs as [Hs Hrs].
    assert (Forall (λ r, i ≤ sr_offset r ∧ 0 < sr_length r) rs) as Hf'
      by (eapply Forall_impl; [exact Hf|simpl; lia]).
    destruct (Z.eqb_spec (sr_offset r) (i + 1)); split.
    + constructor; [simpl; lia|done].
    + constructor; [done|]. eapply Forall_impl; [exact Hrs|]. unfold run_before. simpl. lia.
    + repeat constructor; simpl; try lia. done.
    + constructor; [by constructor|]. constructor; [unfold run_before; simpl; lia|].
      eapply Forall_impl; [exact Hrs|]. unfold run_before. simpl. lia.
  - destruct (IH (i + 1)) as [Hf Hs]. split; [|done].
    eapply Forall_impl; [exact Hf|]. simpl. lia.
Qed.

(** The runs cover exactly the set bits. *)
Lemma runs_of_cover i d k :
  Exists (in_run k) (runs_of i d) ↔ i ≤ k ∧ bit_at d (k - i) = true.
Proof.
  revert i. induction d as [|b d IH]; intros i.
  - simpl. rewrite Exists_nil. unfold bit_at. destruct (Z.to_nat (k - i)); intuition done.
  - assert (i ≤ k ∧ bit_at (b :: d) (k - i) = true ↔
      (k = i ∧ b = true) ∨ Exists (in_run k) (runs_of (i + 1) d)) as ->.
    { rewrite IH. destruct (Z.lt_trichotomy k i) as [Hk|[->|Hk]].
      - split; [lia|]. intros [[? ?]|[? ?]]; lia.
      - rewrite Z.sub_diag. change (bit_at (b :: d) 0) with b.
        split; [intros [_ ?]; by left|]. intros [[_ ?]|[? ?]]; [done|lia].
      - rewrite bit_at_cons by lia. replace (k - i - 1) with (k - (i + 1)) by lia.
        split; [intros [_ ?]; right; split; [lia|done]|]. intros [[? ?]|[? ?]]; [lia|].
        split; [lia|done]. }
    destruct b; simpl; [|naive_solver].
    destruct (runs_of_wf (i + 1) d) as [Hf _].
    destruct (runs_of (i + 1) d) as [|r rs].
    + rewrite Exists_cons, Exists_nil. unfold in_run. simpl. intuition lia.
    + apply Forall_cons in Hf as [[Hr Hl] _].
      destruct (Z.eqb_spec (sr_offset r) (i + 1)); rewrite !Exists_cons; unfold in_run; simpl;
        intuition lia.
Qed.

(** ** The loops *)

Definition bits_of (rest : list (Z * Z)) : list bool := (λ p, negb (p.1 =? p.2)) <$> rest.

Lemma bits_of_zip a b : bits_of (zip a b) = diff_bitmap a b.
Proof.
  unfold bits_of, diff_bitmap. revert b. induction a as [|x a IH]; intros [|y b]; csimpl; try done.
  by rewrite IH.
Qed.

Section Loops.
Context (stop : nat → bool) (Hstop : ∀ n, stop n = false).

(** The inner loop consumes the differing bytes up to the next equal one. *)
Lemma run_loop_spec rest index next polls :
  ∃ k rest' next' polls',
    run_loop stop rest index next polls = (Some (rest', index + Z.of_nat k, next'), polls') ∧
    bits_of rest = replicate k true ++ bits_of rest' ∧
    head (bits_of rest') ≠ Some true ∧ List.length rest = (k + List.length rest')%nat.
Proof.
  revert index next polls. induction rest as [|[x y] rest IH]; intros index next polls.
  - exists 0%nat, [], next, polls. by rewrite Z.add_0_r.
  - cbn [run_loop List.length]. destruct (Z.eqb_spec x y) as [->|Hne].
    + exists 0%nat, ((y, y) :: rest), next, polls. rewrite Z.add_0_r. split; [done|].
      split; [done|]. split; [|done]. csimpl. by rewrite Z.eqb_refl.
    + rewrite Hstop.
      assert (∀ next polls, ∃ k rest' next' polls',
        run_loop stop rest (index + 1) next polls =
          (Some (rest', index + Z.of_nat k, next'), polls') ∧
        bits_of ((x, y) :: rest) = replicate k true ++ bits_of rest' ∧
        head (bits_of rest') ≠ Some true ∧
        S (List.length rest) = (k + List.length rest')%nat) as Hr.
      { intros next0 polls0. destruct (IH (index + 1) next0 polls0)
          as (k & rest' & next' & polls' & -> & Hb & Hh & Hl).
        exists (S k), rest', next', polls'. split; [by replace (index + 1 + Z.of_nat k) with (index + Z.of_nat (S k)) by lia|].
        split; [|split; [done|lia]]. csimpl. rewrite (proj2 (Z.eqb_neq x y)) by done.
        simpl. by rewrite <- Hb. }
      destruct (next <=? index + 1); apply Hr.
Qed.

Lemma runs_of_run i k d :
  head d ≠ Some true →
  runs_of i (replicate (S k) true ++ d) =
    mkSnapshotDiffRun i (Z.of_nat (S k)) :: runs_of (i + Z.of_nat (S k)) d.
Proof.
  intros Hd. revert i. induction k as [|k IH]; intros i.
  - change (Z.of_nat 1) with 1. simpl. destruct (runs_of (i + 1) d) as [|r rs] eqn:E; [done|].
    destruct (Z.eqb_spec (sr_offset r) (i + 1)) as [Er|]; [|done]. exfalso.
    destruct d as [|[] d]; [done..|]. simpl in E.
    pose proof (proj1 (runs_of_wf (i + 1 + 1) d)) as Hf. rewrite E in Hf.
    apply Forall_cons in Hf as [[? _] _]. lia.
  - change (replicate (S (S k)) true ++ d) with (true :: (replicate (S k) true ++ d)).
    cbn [runs_of]. rewrite IH. cbn [sr_offset sr_length]. rewrite Z.eqb_refl.
    f_equal; [f_equal; lia|f_equal; lia].
Qed.

Lemma count_run k d : count (replicate k true ++ d) = Z.of_nat k + count d.
Proof. induction k as [|k IH]; [done|]. csimpl. rewrite count_cons, IH. simpl Z.b2z. lia. Qed.

Lemma diff_loop_spec fuel max_runs max_bytes rest index next changed runs polls :
  (List.length rest < fuel)%nat → changed ≤ max_bytes →
  sizeZ runs ≤ max_runs →
  let r := diff_loop stop fuel max_runs max_bytes rest index next changed runs polls in
  let d := bits_of rest in
  if decide (sizeZ runs + sizeZ (runs_of index d) ≤ max_runs ∧ changed + count d ≤ max_bytes)
  then r = Success (runs ++ runs_of index d) else fails_with LimitReached r.
Proof.
  revert rest index next changed runs polls.
  induction fuel as [|fuel IH]; intros rest index next changed runs polls Hf Hc Hr r d; [lia|].
  subst r d. destruct rest as [|[x y] rest]; cbn [diff_loop].
  { simpl. rewrite decide_True; [by rewrite app_nil_r|].
    change (count []) with 0. change (sizeZ (@nil SnapshotDiffRun)) with 0. lia. }
  rewrite Hstop, andb_false_r. cbn [List.length] in Hf.
  set (next1 := if next <=? index then _ else next).
  set (polls1 := if next <=? index then S polls else polls). clearbody next1 polls1.
  destruct (Z.eqb_spec x y) as [->|Hne].
  { specialize (IH rest (index + 1) next1 changed runs polls1 ltac:(lia) Hc Hr). simpl in IH.
    csimpl. rewrite Z.eqb_refl. simpl. rewrite count_cons. exact IH. }
  destruct (run_loop_spec ((x, y) :: rest) index next1 polls1)
    as (k & rest' & next' & polls' & E & Hb & Hh & Hl).
  assert (∃ j, k = S j) as [j ->].
  { destruct k as [|j]; [|by eexists]. simpl in Hb. rewrite <- Hb in Hh. csimpl in Hh.
    rewrite (proj2 (Z.eqb_neq x y)) in Hh by done. done. }
  rewrite E. rewrite Hb, runs_of_run, count_run by done. clear E Hb.
  replace (index + Z.of_nat (S j) - index) with (Z.of_nat (S j)) by lia.
  pose proof (count_nonneg (bits_of rest')) as Hcn.
  pose proof (sizeZ_nonneg (runs_of (index + Z.of_nat (S j)) (bits_of rest'))) as Hsn.
  rewrite sizeZ_cons.
  destruct (Z.leb_spec max_runs (sizeZ runs)).
  { rewrite decide_False; [done|lia]. }
  destruct (Z.ltb_spec (max_bytes - changed) (Z.of_nat (S j))).
  { rewrite decide_False; [done|lia]. }
  cbn [List.length] in Hl.
  specialize (IH rest' (index + Z.of_nat (S j)) next' (changed + Z.of_nat (S j))
    (runs ++ [mkSnapshotDiffRun index (Z.of_nat (S j))]) polls' ltac:(lia) ltac:(lia)).
  rewrite sizeZ_app in IH. change (sizeZ [mkSnapshotDiffRun index (Z.of_nat (S j))]) with 1 in *.
  specialize (IH ltac:(lia)). simpl in IH. simpl app. rewrite <- app_assoc in IH. simpl app in IH.
  case_decide as H1; case_decide as H2; try (exfalso; lia); exact IH.
Qed.
End Loops.

(** [Diff] is exact: for comparable snapshots and valid budgets, with no
    cancellation, it succeeds exactly when the maximal runs of differing bytes fit
    the run budget and the differing bytes fit the byte budget, and fails with
    LimitReached otherwise; the runs it reports are non-empty, in order, separated
    by at least one equal byte, and cover an offset exactly when the two snapshots
    differ there. *)
Theorem Diff_exact stop max_runs max_bytes older newer :
  (∀ n, stop n = false) → same_range older newer = true →
  is_u64 max_runs → is_u64 max_bytes → budgets_ok max_runs max_bytes = true →
  let d := diff_bitmap (snap_bytes older) (snap_bytes newer) in
  let r := Diff stop max_runs max_bytes older newer in
  ∃ runs,
    (if decide (sizeZ runs ≤ max_runs ∧ count d ≤ max_bytes)
     then r = Success runs else fails_with LimitReached r) ∧
    Forall (λ run, 0 < sr_length run) runs ∧ StronglySorted run_before runs ∧
    ∀ k, Exists (in_run k) runs ↔ 0 ≤ k ∧ bit_at d k = true.
Proof.
  intros Hstop Hsame Hm1 Hm2 Hb d r. subst r. unfold Diff. rewrite Hsame, Hb, Hstop. simpl negb.
  cbv iota. exists (runs_of 0 d). destruct (runs_of_wf 0 d) as [Hf Hs].
  split; [|split; [eapply Forall_impl; [exact Hf|simpl; lia]|split; [done|]]].
  - pose proof (diff_loop_spec stop Hstop (S (List.length (snap_bytes older))) max_runs max_bytes
      (zip (snap_bytes older) (snap_bytes newer)) 0 0 0 [] 1) as H.
    rewrite bits_of_zip in H. simpl in H. apply H.
    + rewrite length_zip_with. lia.
    + unfold is_u64 in Hm2. lia.
    + unfold is_u64 in Hm1. change (sizeZ (@nil SnapshotDiffRun)) with 0. lia.
  - intros k. by rewrite runs_of_cover, Z.sub_0_r.
Qed.

Definition diff_demo (bytes : list Z) : MemorySnapshot := mkMemorySnapshot PhysicalSpace 0 bytes 0.
Lemma Diff_exact_witness :
  Diff (λ _, false) 2 3 (diff_demo [1; 2; 3; 4; 5]) (diff_demo [9; 9; 3; 4; 9]) =
    Success [mkSnapshotDiffRun 0 2; mkSnapshotDiffRun 4 1] ∧
  ∃ runs : list SnapshotDiffRun, Forall (λ run, 0 < sr_length run) runs.
Proof.
  split; [vm_compute; reflexivity|].
  destruct (Diff_exact (λ _, false) 2 3 (diff_demo [1; 2; 3; 4; 5]) (diff_demo [9; 9; 3; 4; 9]))
    as (runs & _ & Hr & _); [done|vm_compute; reflexivity|unfold is_u64; lia..|
      vm_compute; reflexivity|]. exists runs. exact Hr.
Defined.
