(* ===== verification/SnapshotFile.v ===== *)
(** [MemorySnapshot::Save] and [MemorySnapshot::Load]: the snapshot file, and the
    replacement of a file by writing a temporary sibling first. *)

From stdpp Require Import gmap.
From S2P Require Import Prelude CppStd Wire Common FileSystem Crc32 MemorySnapshot.

#[local] Open Scope Z_scope.

(** ** The header *)

Record SnapshotHeader := mkSnapshotHeader {
  sh_magic : list Z;
  sh_version : Z;
  sh_kind : Z;
  sh_pid : Z;
  sh_reserved : Z;
  sh_directory_table_base : Z;
  sh_address : Z;
  sh_byte_count : Z;
  sh_checksum : Z;
  sh_label_size : Z
}.

Definition kMagic : list Z := [75; 68; 66; 71; 83; 78; 80; 0].
Definition kHeaderSize : Z := 56.

(** The packed struct as the bytes [reinterpret_cast<const char *>] shows, and the
    struct those bytes fill. *)
Definition header_bytes (h : SnapshotHeader) : list Z :=
  sh_magic h ++ le_bytes 4 (sh_version h) ++ le_bytes 4 (sh_kind h) ++ le_bytes 4 (sh_pid h) ++
  le_bytes 4 (sh_reserved h) ++ le_bytes 8 (sh_directory_table_base h) ++
  le_bytes 8 (sh_address h) ++ le_bytes 8 (sh_byte_count h) ++ le_bytes 4 (sh_checksum h) ++
  le_bytes 4 (sh_label_size h).
Definition bytes_header (b : list Z) : SnapshotHeader :=
  mkSnapshotHeader (slice b 0 8) (le_value (slice b 8 4)) (le_value (slice b 12 4))
    (le_value (slice b 16 4)) (le_value (slice b 20 4)) (le_value (slice b 24 8))
    (le_value (slice b 32 8)) (le_value (slice b 40 8)) (le_value (slice b 48 4))
    (le_value (slice b 52 4)).

(** [static_cast] between the enumeration and its underlying integer. *)
Definition kind_code (k : MemorySpaceKind) : Z :=
  match k with Physical => 0 | ProcessVirtual => 1 | KernelVirtual => 2 end.
Definition kind_of_code (n : Z) : MemorySpaceKind :=
  if n =? 0 then Physical else if n =? 1 then ProcessVirtual else KernelVirtual.

Definition snapshot_header (s : MemorySnapshot) : SnapshotHeader :=
  mkSnapshotHeader kMagic 1 (kind_code (kind (space_ s))) (pid (space_ s)) 0
    (directory_table_base (space_ s)) (address_ s) (sizeZ (snap_bytes s)) (checksum_ s)
    (u32 (label_size (space_ s))).

(** ** Saving *)

Definition save_error {T} (c : ErrorCode) (msg : string) : Result T :=
  Failure (MakeError c msg "MemorySnapshot::Save").
Definition save_cancelled {T} (msg : string) : Result T :=
  snapshot_cancelled "MemorySnapshot::Save" msg.

Definition snapshot_messages : FileMessages :=
  mkFileMessages "Unable to reopen the temporary snapshot for flush"
    "Unable to flush the temporary snapshot to disk"
    "Unable to atomically replace the snapshot file" "MemorySnapshot::Save".

(** [while (offset < bytes_.size())]: the payload in chunks of 1 MiB; the result
    is [None] when all of it was written. *)
Fixpoint save_loop (stop : nat → bool) (fuel : nat) (bytes : list Z) (offset : Z)
    (polls : nat) (o : ofstream) (fs : FileSystem)
    : option (Result unit) * nat * ofstream * FileSystem :=
  match fuel with
  | O => (Some (Failure (MakeError InternalInvariant "" "")), polls, o, fs)
  | S fuel =>
      if offset <? sizeZ bytes then
        if stop polls then
          (Some (save_cancelled "Snapshot save was cancelled"), S polls, o, fs)
        else
          let count := Z.min (sizeZ bytes - offset) kMaxChunkBytes in
          let '(o, fs) := os_write (slice bytes offset count) o fs in
          if negb (os_good o) then
            (Some (save_error IoFailure "Failed while writing snapshot file"), S polls, o, fs)
          else save_loop stop fuel bytes (offset + count) (S polls) o fs
      else (None, polls, o, fs)
  end.

Inductive SnapshotSaveFault := NoFault | AfterFlushBeforeReplace.

#[export] Instance SnapshotSaveFault_eq_dec : EqDecision SnapshotSaveFault.
Proof. solve_decision. Defined.

(** The checks before the file is touched. *)
Definition save_checks (s : MemorySnapshot) : Result unit :=
  if bool_decide (snap_bytes s = []) then
    save_error InvalidArgument "Cannot save an empty snapshot"
  else if (kMaxSnapshotBytes <? sizeZ (snap_bytes s)) ||
          (kMaxLabelBytes <? label_size (space_ s)) then
    save_error LimitReached "Snapshot label is too long"
  else
    match ValidateSnapshotSpace (space_ s) "MemorySnapshot::Save" with
    | Failure e => Failure e
    | Success _ =>
        match CheckedAdd (address_ s) (sizeZ (snap_bytes s)) with
        | None => save_error AddressOverflow "Snapshot address range overflows"
        | Some _ => Success tt
        end
    end.

(** From the first write to the stream being closed and flushed. *)
Definition save_stream (stop : nat → bool) (s : MemorySnapshot) (polls : nat) (o : ofstream)
    (fs : FileSystem) : option (Result unit) * nat * FileSystem :=
  let '(o, fs) := os_write (header_bytes (snapshot_header s)) o fs in
  if stop polls then
    (Some (save_cancelled "Snapshot save was cancelled"), S polls, fs)
  else
    let polls := S polls in
    let '(o, fs) := os_write (label_bytes (label (space_ s))) o fs in
    let rounds := Z.to_nat (sizeZ (snap_bytes s) / kMaxChunkBytes + 2) in
    match save_loop stop rounds (snap_bytes s) 0 polls o fs with
    | (Some r, polls, _, fs) => (Some r, polls, fs)
    | (None, polls, o, fs) =>
        if stop polls then
          (Some (save_cancelled "Snapshot save was cancelled"), S polls, fs)
        else
          let polls := S polls in
          let '(o, fs) := os_sync o fs in
          if negb (os_good o) then
            (Some (save_error IoFailure "Failed while flushing the temporary snapshot"), polls, fs)
          else
            let '(o, fs) := os_sync o fs in
            if negb (os_good o) then
              (Some (save_error IoFailure "Failed while closing the temporary snapshot"),
               polls, fs)
            else (None, polls, fs)
    end.

(** Writing the temporary file and putting it in place of the destination. *)
Definition save_commit (stop : nat → bool) (flt : SnapshotSaveFault) (s : MemorySnapshot)
    (temporary destination : path) (polls : nat) (fs : FileSystem) : Result unit * FileSystem :=
  let '(o, fs) := os_open temporary fs in
  if negb (os_good o) then (save_error IoFailure "Unable to create snapshot file", fs)
  else
    match save_stream stop s polls o fs with
    | (Some r, _, fs) => (r, fs)
    | (None, polls, fs) =>
        match FlushFileToDisk snapshot_messages temporary fs with
        | (Failure e, fs) => (Failure e, fs)
        | (Success _, fs) =>
            if stop polls then
              (save_cancelled "Snapshot save was cancelled before commit", fs)
            else if bool_decide (flt = AfterFlushBeforeReplace) then
              (save_error IoFailure "Injected snapshot failure before atomic replacement", fs)
            else ReplaceAtomically snapshot_messages temporary destination fs
        end
    end.

Definition Save (stop : nat → bool) (flt : SnapshotSaveFault) (s : MemorySnapshot)
    (destination : path) (fs : FileSystem) : Result unit * FileSystem :=
  match save_checks s with
  | Failure e => (Failure e, fs)
  | Success _ =>
      if stop 0%nat then (save_cancelled "Snapshot save was cancelled", fs)
      else if path_empty destination || bool_decide (filename destination = "") then
        (save_error InvalidArgument "Snapshot destination path is invalid", fs)
      else
        with_temporary (λ temporary, save_commit stop flt s temporary destination 1) destination fs
  end.

(** ** Loading *)

Definition load_error {T} (c : ErrorCode) (msg : string) : Result T :=
  Failure (MakeError c msg "MemorySnapshot::Load").
Definition load_cancelled {T} : Result T :=
  snapshot_cancelled "MemorySnapshot::Load" "Snapshot load was cancelled".

Definition header_ok (h : SnapshotHeader) : bool :=
  bytes_eqb (sh_magic h) kMagic && (sh_version h =? 1) && (sh_reserved h =? 0) &&
  (sh_kind h <=? kind_code KernelVirtual) && negb (sh_byte_count h =? 0) &&
  (sh_byte_count h <=? kMaxSnapshotBytes) && (sh_byte_count h <=? u64_max) &&
  (sh_label_size h <=? kMaxLabelBytes).

Definition lengths_ok (h : SnapshotHeader) (file_size : Z) : bool :=
  match CheckedAdd (sh_label_size h) (sh_byte_count h) with
  | None => false
  | Some payload_size =>
      match CheckedAdd kHeaderSize payload_size with
      | None => false
      | Some expected_size =>
          (expected_size =? file_size) &&
          match CheckedAdd (sh_address h) (sh_byte_count h) with None => false | Some _ => true end
      end
  end.

(** The payload in chunks of 1 MiB. *)
Fixpoint load_loop (stop : nat → bool) (fuel : nat) (byte_count offset : Z) (bytes : list Z)
    (polls : nat) (i : ifstream) (fs : FileSystem)
    : Result (list Z) * nat * ifstream * FileSystem :=
  match fuel with
  | O => (Failure (MakeError InternalInvariant "" ""), polls, i, fs)
  | S fuel =>
      if offset <? byte_count then
        if stop polls then (load_cancelled, S polls, i, fs)
        else
          let count := Z.min (byte_count - offset) kMaxChunkBytes in
          let '(chunk, i, fs) := is_read count i fs in
          if negb (is_good i) then
            (load_error ParseError "Snapshot file is truncated", S polls, i, fs)
          else load_loop stop fuel byte_count (offset + count) (bytes ++ chunk) (S polls) i fs
      else (Success bytes, polls, i, fs)
  end.

(** From the accepted header on. *)
Definition load_payload (stop : nat → bool) (h : SnapshotHeader) (i : ifstream)
    (fs : FileSystem) : Result MemorySnapshot * FileSystem :=
  let space :=
    mkMemorySpace (kind_of_code (sh_kind h)) (sh_pid h) (sh_directory_table_base h) "" in
  match ValidateSnapshotSpace space "MemorySnapshot::Load" with
  | Failure e => (load_error ParseError (message e), fs)
  | Success _ =>
      if stop 1%nat then (load_cancelled, fs)
      else
        let '(text, i, fs) := is_read (sh_label_size h) i fs in
        if negb (is_good i) then (load_error ParseError "Snapshot file is truncated", fs)
        else
          let rounds := Z.to_nat (sh_byte_count h / kMaxChunkBytes + 2) in
          match load_loop stop rounds (sh_byte_count h) 0 [] 2 i fs with
          | (Failure e, _, _, fs) => (Failure e, fs)
          | (Success bytes, polls, i, fs) =>
              if negb (is_good i) || negb (bool_decide (is_rest i = [])) then
                (load_error ParseError "Snapshot file is truncated or has trailing data", fs)
              else
                match Crc32 stop "MemorySnapshot::Load" bytes polls with
                | (Failure e, _) => (Failure e, fs)
                | (Success checksum, _) =>
                    if negb (checksum =? sh_checksum h) then
                      (load_error VerificationMismatch
                         "Snapshot checksum does not match its payload", fs)
                    else
                      (Success (mkMemorySnapshot
                         (mkMemorySpace (kind space) (pid space) (directory_table_base space)
                            (bytes_label text))
                         (sh_address h) bytes checksum), fs)
                end
          end
  end.

Definition Load (stop : nat → bool) (p : path) (fs : FileSystem)
    : Result MemorySnapshot * FileSystem :=
  if stop 0%nat then (load_cancelled, fs)
  else
    let '(i, fs) := is_open p fs in
    if negb (is_good i) then (load_error IoFailure "Unable to open snapshot file", fs)
    else
      let '(file_size, file_error, fs) := fs_file_size p fs in
      if negb (file_error =? 0) then
        (Failure (MakeErrorFull IoFailure "Unable to determine snapshot file size"
           "MemorySnapshot::Load" file_error 0 0), fs)
      else
        let '(raw, i, fs) := is_read kHeaderSize i fs in
        let h := bytes_header raw in
        if negb (is_good i) || negb (header_ok h) then
          (load_error ParseError "Snapshot file header is invalid", fs)
        else if negb (lengths_ok h file_size) then
          (load_error ParseError "Snapshot file length or address range is invalid", fs)
        else load_payload stop h i fs.
