(* ===== verification/SnapshotRoundTrip.v ===== *)
(** What [MemorySnapshot::Save] guarantees of the destination file, whatever
    fails and whenever it is cancelled.

    Snapshot files: which files [MemorySnapshot::Load] accepts, that it returns
    what [MemorySnapshot::Save] wrote, and that it notices a corrupted payload.

    The snapshot file format end to end: [MemorySnapshot::Load] accepts exactly the
    encodings of valid snapshots, returns what [MemorySnapshot::Save] wrote, and
    notices a corrupted payload byte. *)

From stdpp Require Import gmap.
From S2P Require Import Prelude CppStd Wire Common FileSystem Crc32 MemorySnapshot SnapshotFile.

#[local] Open Scope Z_scope.

(** The file of a snapshot. *)
Definition encode (s : MemorySnapshot) : list Z :=
  header_bytes (snapshot_header s) ++ label_bytes (label (space_ s)) ++ snap_bytes s.

Lemma slice_drop {A} (l : list A) offset count :
  0 ≤ offset → 0 ≤ count →
  drop (Z.to_nat offset) l = slice l offset count ++ drop (Z.to_nat (offset + count)) l.
Proof.
  intros. unfold slice. rewrite <- (take_drop (Z.to_nat count) (drop _ l)) at 1.
  f_equal. rewrite drop_drop. f_equal. lia.
Qed.

Lemma save_loop_frame stop fuel bytes offset polls o fs r polls' o' fs' :
  0 ≤ offset ≤ sizeZ bytes →
  save_loop stop fuel bytes offset polls o fs = (r, polls', o', fs') →
  only_changes (os_path o) fs fs' ∧ os_path o' = os_path o ∧
  match r with
  | Some r => Ok r = false
  | None => os_good o' = true → os_good o = true ∧ ∀ content,
      file fs (os_path o) = Some content →
      file fs' (os_path o) = Some (content ++ drop (Z.to_nat offset) bytes)
  end.
Proof.
  revert offset polls o fs. induction fuel as [|fuel IH]; intros offset polls o fs Ho H.
  { simpl in H. simplify_eq. split; [reflexivity|done]. }
  cbn [save_loop] in H. destruct (Z.ltb_spec offset (sizeZ bytes)).
  2:{ simplify_eq. split; [reflexivity|]. split; [done|]. intros Hg. split; [done|].
      intros content Hc. rewrite drop_ge by (unfold sizeZ in *; lia). by rewrite app_nil_r. }
  destruct (stop polls); [simplify_eq; split; [reflexivity|done]|].
  set (n := Z.min (sizeZ bytes - offset) kMaxChunkBytes) in H.
  assert (0 ≤ n ≤ sizeZ bytes - offset) as Hn by (unfold n, kMaxChunkBytes; lia). clearbody n.
  destruct (os_write (slice bytes offset n) o fs) as [o1 fs1] eqn:E.
  destruct (os_write_frame _ _ _ _ _ E) as (F1 & P1 & G1).
  destruct (os_good o1) eqn:Hg1; simpl in H; [|by simplify_eq].
  destruct (G1 eq_refl) as [Hg Hf].
  apply IH in H as (F2 & P2 & G2); [|lia]. rewrite P1 in *.
  split; [transitivity fs1; [exact F1|exact F2]|]. split; [done|]. destruct r; [done|].
  intros Hgo. destruct (G2 Hgo) as [_ Hc2]. split; [done|]. intros content Hc.
  rewrite Hc in Hf. rewrite (Hc2 _ Hf). simpl. by rewrite (slice_drop bytes offset n), app_assoc by lia.
Qed.

Lemma save_stream_frame stop s polls o fs r polls' fs' :
  save_stream stop s polls o fs = (r, polls', fs') → file fs (os_path o) = Some [] →
  only_changes (os_path o) fs fs' ∧
  match r with Some r => Ok r = false | None => file fs' (os_path o) = Some (encode s) end.
Proof.
  unfold save_stream. intros H Hf0.
  destruct (os_write (header_bytes _) o fs) as [o1 fs1] eqn:E1.
  destruct (os_write_frame _ _ _ _ _ E1) as (F1 & P1 & G1).
  destruct (stop polls); [by simplify_eq|].
  destruct (os_write (label_bytes _) o1 fs1) as [o2 fs2] eqn:E2.
  destruct (os_write_frame _ _ _ _ _ E2) as (F2 & P2 & G2). rewrite P1 in P2, F2, G2.
  destruct (save_loop _ _ _ _ _ o2 fs2) as [[[r3 polls3] o3] fs3] eqn:E3.
  apply save_loop_frame in E3 as (F3 & P3 & G3); [|pose proof (sizeZ_nonneg (snap_bytes s)); lia].
  rewrite P2 in P3, F3, G3.
  assert (only_changes (os_path o) fs fs3) as F
    by (transitivity fs1; [exact F1|]; transitivity fs2; [exact F2|exact F3]).
  destruct r3 as [r3|]; [by simplify_eq|].
  destruct (stop polls3); [by simplify_eq|].
  destruct (os_sync o3 fs3) as [o4 fs4] eqn:E4.
  destruct (os_sync_frame _ _ _ _ E4) as (F4 & _ & G4).
  destruct (os_good o4) eqn:Hg4; simpl in H.
  2:{ simplify_eq. split; [|done]. transitivity fs3; [exact F|by apply only_changes_same]. }
  destruct (os_sync o4 fs4) as [o5 fs5] eqn:E5.
  destruct (os_sync_frame _ _ _ _ E5) as (F5 & _ & _). rewrite F4 in F5.
  destruct (os_good o5); simpl in H; simplify_eq;
    (split; [transitivity fs3; [exact F|by apply only_changes_same]|]); [|done].
  destruct (G3 (G4 eq_refl)) as [Hg2 Hc3]. destruct (G2 Hg2) as [Hg1 Hf2].
  destruct (G1 Hg1) as [_ Hf1]. rewrite Hf0 in Hf1. rewrite Hf1 in Hf2.
  specialize (Hc3 _ Hf2). unfold file in *. rewrite F5, Hc3. unfold encode.
  generalize (header_bytes (snapshot_header s)). intros hb. simpl. by rewrite app_assoc.
Qed.

Lemma save_commit_effect stop flt s t dest polls fs r fs' :
  save_commit stop flt s t dest polls fs = (r, fs') → save_effect (encode s) t dest fs r fs'.
Proof.
  unfold save_commit. intros H.
  destruct (os_open t fs) as [o fs1] eqn:E1. destruct (os_open_frame _ _ _ _ E1) as (F1 & P1 & G1).
  destruct (os_good o); simpl in H; [|by simplify_eq]. specialize (G1 eq_refl).
  destruct (save_stream _ _ _ o fs1) as [[r2 polls2] fs2] eqn:E2.
  apply save_stream_frame in E2 as [F2 G2]; [|by rewrite P1].
  rewrite P1 in F2, G2. clear P1.
  assert (only_changes t fs fs2) as F by (transitivity fs1; [exact F1|exact F2]).
  destruct r2 as [[]|]; [done|by simplify_eq|].
  destruct (FlushFileToDisk _ t fs2) as [[[]|e] fs3] eqn:E3;
    pose proof (FlushFileToDisk_frame _ _ _ _ _ E3) as F3;
    (assert (only_changes t fs fs3) as F'
      by (transitivity fs2; [exact F|by apply only_changes_same]));
    [|by simplify_eq].
  destruct (stop polls2); [by simplify_eq|]. case_bool_decide; [by simplify_eq|].
  eapply ReplaceAtomically_effect; [exact F'| |exact H]. unfold file in *. by rewrite F3.
Qed.

Lemma Save_effect stop flt s dest fs r fs' :
  Save stop flt s dest fs = (r, fs') →
  ∃ ordinal, save_effect (encode s) (temporary_candidate (process_id fs) ordinal dest) dest fs r fs'.
Proof.
  unfold Save. intros H.
  destruct (save_checks s) as [[]|e]; [|by exists 0; simplify_eq].
  destruct (stop 0%nat); [by exists 0; simplify_eq|].
  destruct (_ || _); [by exists 0; simplify_eq|].
  eapply with_temporary_effect; [|exact H]. intros t fs0 r0 fs0'. apply save_commit_effect.
Qed.

(** Saving is atomic: whatever operation of the file system fails, whenever the
    save is cancelled and whatever fault is injected, the only other file it touches
    is one temporary sibling; if it reports success, the destination holds exactly the
    encoded snapshot and the temporary file is gone; if it reports failure, the
    destination is what it was before, absent if it was absent. *)
Theorem save_atomic stop flt s dest fs r fs' :
  Save stop flt s dest fs = (r, fs') → atomic_save (encode s) dest fs r fs'.
Proof. intros [ordinal H]%Save_effect. by eapply save_effect_atomic. Qed.

Definition save_demo : MemorySnapshot :=
  mkMemorySnapshot (mkMemorySpace ProcessVirtual 7 0 "demo") 0x1000 [1; 2; 3] 0x55BC801D.
(** A file system with one file, whose operation number [failing] fails; the
    tenth operation of the save below is the replacement. *)
Definition fs_demo (failing : nat) : FileSystem :=
  mkFileSystem {[mkPath "dir" "a.snap" := [9; 9]]}
    (λ k, (if bool_decide (k = failing) then 5 else 0, 0%nat)) 0 42 0.

Lemma save_atomic_witness :
  file (Save (λ _, false) NoFault save_demo (mkPath "dir" "a.snap") (fs_demo 9)).2
    (mkPath "dir" "a.snap") = Some [9; 9].
Proof.
  destruct (Save (λ _, false) NoFault save_demo (mkPath "dir" "a.snap") (fs_demo 9))
    as [r fs'] eqn:E.
  destruct (save_atomic _ _ _ _ _ _ _ E) as (ordinal & _ & H).
  assert (Ok r = false) as Hr.
  { change r with (r, fs').1. rewrite <- E. vm_compute. reflexivity. }
  destruct r as [[]|e]; [discriminate Hr|]. simpl. rewrite H. vm_compute. reflexivity.
Defined.

(** ** Loading without faults is a function of the file's content *)

Section NoStop.
Context (stop : nat → bool) (Hstop : ∀ n, stop n = false).

Lemma load_loop_ok fuel byte_count offset bytes polls i fs :
  fault_free fs → is_good i = true → 0 ≤ offset ≤ byte_count →
  byte_count - offset ≤ sizeZ (is_rest i) →
  byte_count - offset ≤ (Z.of_nat fuel - 1) * kMaxChunkBytes →
  ∃ polls' fs', ticked fs fs' ∧
    load_loop stop fuel byte_count offset bytes polls i fs =
      (Success (bytes ++ take (Z.to_nat (byte_count - offset)) (is_rest i)), polls',
       mkIfstream (drop (Z.to_nat (byte_count - offset)) (is_rest i)) true, fs').
Proof.
  unfold kMaxChunkBytes.
  revert offset bytes polls i fs. induction fuel as [|fuel IH];
    intros offset bytes polls i fs Hf Hg Ho Hn Hfuel; [lia|]. cbn [load_loop].
  destruct (Z.ltb_spec offset byte_count).
  2:{ exists polls, fs. split; [reflexivity|]. replace (byte_count - offset) with 0 by lia.
      simpl. rewrite take_0, drop_0, app_nil_r. destruct i; simpl in *. by subst. }
  rewrite Hstop. unfold kMaxChunkBytes.
  set (n := Z.min (byte_count - offset) (1024 * 1024)).
  assert (0 ≤ n ≤ byte_count - offset) as Hnb by lia.
  destruct (is_read_ok n i fs) as (fs1 & T1 & ->); [done..|lia|]. simpl.
  destruct (IH (offset + n) (bytes ++ take (Z.to_nat n) (is_rest i)) (S polls)
    (mkIfstream (drop (Z.to_nat n) (is_rest i)) true) fs1)
    as (polls' & fs' & T2 & ->); [by eauto with kdbg|done|lia| |lia|].
  { simpl. unfold sizeZ in *. rewrite length_drop. lia. }
  exists polls', fs'. split; [by transitivity fs1|]. simpl. rewrite <- app_assoc, drop_drop.
  replace (Z.to_nat (byte_count - offset)) with
    (Z.to_nat n + Z.to_nat (byte_count - (offset + n)))%nat by lia.
  by rewrite take_take_drop.
Qed.

Definition payload_space (h : SnapshotHeader) (text : string) : MemorySpace :=
  mkMemorySpace (kind_of_code (sh_kind h)) (sh_pid h) (sh_directory_table_base h) text.

(** What the code makes of a file's bytes. *)
Definition decode (content : list Z) : Result MemorySnapshot :=
  let h := bytes_header (take 56 content) in
  if (sizeZ content <? kHeaderSize) || negb (header_ok h) then
    load_error ParseError "Snapshot file header is invalid"
  else if negb (lengths_ok h (sizeZ content)) then
    load_error ParseError "Snapshot file length or address range is invalid"
  else
    match ValidateSnapshotSpace (payload_space h "") "MemorySnapshot::Load" with
    | Failure e => load_error ParseError (message e)
    | Success _ =>
        let text := take (Z.to_nat (sh_label_size h)) (drop 56 content) in
        let bytes := drop (Z.to_nat (sh_label_size h)) (drop 56 content) in
        if negb (crc32_of bytes =? sh_checksum h) then
          load_error VerificationMismatch "Snapshot checksum does not match its payload"
        else
          Success (mkMemorySnapshot (payload_space h (bytes_label text)) (sh_address h) bytes
                     (sh_checksum h))
    end.

Lemma lengths_ok_size h n :
  is_u32 (sh_label_size h) → is_u64 (sh_byte_count h) → sh_byte_count h ≤ kMaxSnapshotBytes →
  is_u64 (sh_address h) →
  lengths_ok h n = true ↔
    n = 56 + sh_label_size h + sh_byte_count h ∧ sh_address h + sh_byte_count h ≤ u64_max.
Proof.
  unfold is_u32, is_u64, kMaxSnapshotBytes, lengths_ok, CheckedAdd, kHeaderSize. intros Hl Hc Hm Ha.
  rewrite !(proj2 (Z.ltb_ge _ (sh_byte_count h))) by lia.
  rewrite (u64_id (_ + sh_byte_count h)) by (unfold is_u64; lia).
  rewrite (proj2 (Z.ltb_ge _ _)) by lia. rewrite u64_id by (unfold is_u64; lia).
  rewrite andb_true_iff, Z.eqb_eq.
  destruct (Z.ltb_spec (u64_max - sh_address h) (sh_byte_count h)); intuition lia.
Qed.

Lemma sizeZ_slice_le {A} (l : list A) off len : 0 ≤ len → sizeZ (slice l off len) ≤ len.
Proof. intros. unfold sizeZ, slice. rewrite length_take. lia. Qed.

Lemma bytes_header_ranges b :
  let h := bytes_header b in
  is_u32 (sh_pid h) ∧ is_u32 (sh_checksum h) ∧ is_u32 (sh_label_size h) ∧
  is_u64 (sh_directory_table_base h) ∧ is_u64 (sh_address h) ∧ is_u64 (sh_byte_count h) ∧
  is_u32 (sh_kind h).
Proof.
  simpl. do 6 (split; [(apply le_value_u32 || apply le_value_u64); by apply sizeZ_slice_le|]).
  apply le_value_u32. by apply sizeZ_slice_le.
Qed.

Lemma header_ok_bounds h : header_ok h = true →
  sh_magic h = kMagic ∧ sh_version h = 1 ∧ sh_reserved h = 0 ∧ sh_kind h ≤ 2 ∧
  sh_byte_count h ≠ 0 ∧ sh_byte_count h ≤ kMaxSnapshotBytes ∧ sh_label_size h ≤ kMaxLabelBytes.
Proof.
  unfold header_ok. rewrite !andb_true_iff, bytes_eqb_eq, negb_true_iff, !Z.eqb_eq, !Z.leb_le,
    Z.eqb_neq. simpl kind_code. tauto.
Qed.

Lemma Load_decode p fs content :
  fault_free fs → file fs p = Some content → Forall is_u8 content →
  (Load stop p fs).1 = decode content.
Proof.
  intros Hf Hp Hu. unfold Load. rewrite Hstop.
  destruct (is_open_ok p fs content Hf Hp) as (fs1 & T1 & ->). cbn [is_good negb].
  destruct (fs_file_size_ok p fs1 content) as (fs2 & T2 & ->);
    [by eauto with kdbg|by unfold file; rewrite (proj1 T1)|]. change (negb (0 =? 0)) with false.
  assert (fault_free fs2) as Hf2 by eauto with kdbg. clear T1 T2 Hf Hp fs fs1.
  unfold decode. destruct (Z.ltb_spec (sizeZ content) kHeaderSize) as [Hs|Hs].
  { destruct (is_read_short kHeaderSize (mkIfstream content true) fs2) as (fs3 & T3 & ->); done. }
  destruct (is_read_ok kHeaderSize (mkIfstream content true) fs2) as (fs3 & T3 & ->); [done..|].
  unfold kHeaderSize in *. change (Z.to_nat 56) with 56%nat. cbn [is_rest is_good negb orb].
  destruct (bytes_header_ranges (take 56 content)) as (Hpid & Hck & Hl & Hd & Ha & Hc & Hk).
  set (h := bytes_header (take 56 content)) in *. clearbody h.
  destruct (header_ok h) eqn:Hok; cbn [negb]; [|done].
  apply header_ok_bounds in Hok as (_ & _ & _ & _ & _ & Hbc & _).
  destruct (lengths_ok h (sizeZ content)) eqn:Hlen; cbn [negb]; [|done].
  apply lengths_ok_size in Hlen as [Hsize _]; [|done..].
  unfold load_payload. fold (payload_space h "").
  destruct (ValidateSnapshotSpace _ _) as [[]|e]; [|done]. rewrite Hstop.
  unfold is_u32, is_u64, kMaxSnapshotBytes in *.
  assert (sizeZ (drop 56 content) = sh_label_size h + sh_byte_count h) as Hd1.
  { unfold sizeZ in *. rewrite length_drop. lia. }
  destruct (is_read_ok (sh_label_size h) (mkIfstream (drop 56 content) true) fs3)
    as (fs4 & T4 & ->); [by eauto with kdbg|done|simpl; lia|]. cbn [is_rest is_good negb].
  set (payload := drop (Z.to_nat (sh_label_size h)) (drop 56 content)).
  assert (sizeZ payload = sh_byte_count h) as Hpl.
  { unfold payload, sizeZ in *. rewrite length_drop. lia. }
  destruct (load_loop_ok (Z.to_nat (sh_byte_count h / kMaxChunkBytes + 2)) (sh_byte_count h) 0 [] 2
    (mkIfstream payload true) fs4) as (polls' & fs5 & T5 & ->);
    [by eauto with kdbg|done|lia|simpl; lia| |].
  { unfold kMaxChunkBytes. pose proof (Z.div_mod (sh_byte_count h) (1024 * 1024)).
    pose proof (Z.mod_pos_bound (sh_byte_count h) (1024 * 1024)).
    assert (0 ≤ sh_byte_count h / (1024 * 1024)) by (apply Z.div_pos; lia). lia. }
  cbn [is_rest is_good negb orb app]. rewrite Z.sub_0_r.
  rewrite take_ge, drop_ge by (unfold sizeZ in Hpl; lia). rewrite bool_decide_true by done.
  cbn [negb]. pose proof (crc_loop_ok "MemorySnapshot::Load" payload 0 0 0xFFFFFFFF polls' stop) as Hcrc.
  unfold Crc32. destruct (crc_loop _ _ _ _ _ _ _) as [v polls'']. simpl in Hcrc.
  rewrite Hcrc; [|by apply Forall_drop, Forall_drop|done]. fold (crc32_of payload).
  destruct (Z.eqb_spec (crc32_of payload) (sh_checksum h)) as [E|]; cbn [negb fst]; [|done].
  by rewrite E.
Qed.
End NoStop.

(** ** The encoding *)

(** Snapshots as [Capture] and [Load] make them. *)
Definition snapshot_ok (s : MemorySnapshot) : Prop :=
  save_checks s = Success tt ∧ checksum_ s = crc32_of (snap_bytes s) ∧
  Forall is_u8 (snap_bytes s) ∧ is_u32 (pid (space_ s)) ∧
  is_u64 (directory_table_base (space_ s)) ∧ is_u64 (address_ s).

Definition space_ok (space : MemorySpace) : Prop :=
  match kind space with
  | ProcessVirtual => pid space ≠ 0
  | _ => pid space = 0 ∧ directory_table_base space = 0
  end.

Lemma ValidateSnapshotSpace_ok space op :
  ValidateSnapshotSpace space op = Success tt ↔ label_size space ≤ kMaxLabelBytes ∧ space_ok space.
Proof.
  unfold ValidateSnapshotSpace, space_ok.
  destruct (Z.ltb_spec kMaxLabelBytes (label_size space)); [split; [done|lia]|].
  destruct (kind space); destruct (Z.eqb_spec (pid space) 0);
    destruct (Z.eqb_spec (directory_table_base space) 0); simpl; intuition done.
Qed.

Lemma save_checks_ok s :
  is_u64 (address_ s) →
  save_checks s = Success tt ↔
    0 < sizeZ (snap_bytes s) ≤ kMaxSnapshotBytes ∧ label_size (space_ s) ≤ kMaxLabelBytes ∧
    space_ok (space_ s) ∧ address_ s + sizeZ (snap_bytes s) ≤ u64_max.
Proof.
  intros Ha. unfold save_checks, is_u64 in *. pose proof (sizeZ_nonneg (snap_bytes s)).
  case_bool_decide as E.
  { rewrite E. change (sizeZ (@nil Z)) with 0. split; [done|lia]. }
  assert (sizeZ (snap_bytes s) ≠ 0) by (intros ?%sizeZ_nil_inv; done).
  destruct (Z.ltb_spec kMaxSnapshotBytes (sizeZ (snap_bytes s))); [split; [done|lia]|].
  destruct (Z.ltb_spec kMaxLabelBytes (label_size (space_ s))); [split; [done|lia]|]. simpl.
  pose proof (ValidateSnapshotSpace_ok (space_ s) "MemorySnapshot::Save") as Hv.
  destruct (ValidateSnapshotSpace _ _) as [[]|]; [|split; [done|]; intuition congruence].
  unfold CheckedAdd.
  destruct (Z.ltb_spec (u64_max - address_ s) (sizeZ (snap_bytes s))); simpl;
    [split; [done|lia]|]. split; [intros _|done]. pose proof (proj1 Hv eq_refl). intuition lia.
Qed.

Lemma sizeZ_header_bytes h : sizeZ (sh_magic h) = 8 → sizeZ (header_bytes h) = 56.
Proof. intros E. unfold header_bytes. rewrite !sizeZ_app, !sizeZ_le_bytes, E by lia. done. Qed.

Definition header_fits (h : SnapshotHeader) : Prop :=
  sizeZ (sh_magic h) = 8 ∧ is_u32 (sh_version h) ∧ is_u32 (sh_kind h) ∧ is_u32 (sh_pid h) ∧
  is_u32 (sh_reserved h) ∧ is_u64 (sh_directory_table_base h) ∧ is_u64 (sh_address h) ∧
  is_u64 (sh_byte_count h) ∧ is_u32 (sh_checksum h) ∧ is_u32 (sh_label_size h).

Lemma slice_whole {A} (a : list A) len : sizeZ a = len → slice a 0 len = a.
Proof. intros <-. unfold slice, sizeZ. rewrite Nat2Z.id. change (Z.to_nat 0) with 0%nat. by rewrite drop_0, firstn_all. Qed.

Lemma le_field_u32 v : is_u32 v → le_value (le_bytes 4 v) = v.
Proof. unfold is_u32. intros. apply le_value_le_bytes; [lia|]. change (256 ^ 4) with 4294967296. lia. Qed.
Lemma le_field_u64 v : is_u64 v → le_value (le_bytes 8 v) = v.
Proof.
  unfold is_u64. intros. apply le_value_le_bytes; [lia|].
  change (256 ^ 8) with 18446744073709551616. lia.
Qed.

(** Skip the fields before an offset, then read the field there. *)
Ltac field_size Hmagic := first [exact Hmagic | apply sizeZ_le_bytes; lia].
Ltac read_field Hmagic :=
  repeat (erewrite slice_app_r; [|field_size Hmagic|lia];
          match goal with
          | |- context [slice _ (?a - ?b) _] =>
              let c := eval vm_compute in (a - b) in change (a - b) with c
          end);
  first [rewrite slice_app_l by field_size Hmagic | rewrite slice_whole by field_size Hmagic].

Lemma bytes_header_bytes h : header_fits h → bytes_header (header_bytes h) = h.
Proof.
  intros (Hm & ? & ? & ? & ? & ? & ? & ? & ? & ?). unfold bytes_header, header_bytes.
  destruct h as [mg ver kd pd rs dt ad bc ck ls].
  cbn [sh_magic sh_version sh_kind sh_pid sh_reserved sh_directory_table_base sh_address
    sh_byte_count sh_checksum sh_label_size] in *. f_equal.
  - by rewrite slice_app_l.
  - read_field Hm. by apply le_field_u32.
  - read_field Hm. by apply le_field_u32.
  - read_field Hm. by apply le_field_u32.
  - read_field Hm. by apply le_field_u32.
  - read_field Hm. by apply le_field_u64.
  - read_field Hm. by apply le_field_u64.
  - read_field Hm. by apply le_field_u64.
  - read_field Hm. by apply le_field_u32.
  - read_field Hm. by apply le_field_u32.
Qed.

Lemma le_bytes_slice b off len :
  Forall is_u8 b → 0 ≤ off → 0 ≤ len → off + len ≤ sizeZ b →
  le_bytes len (le_value (slice b off len)) = slice b off len.
Proof.
  intros Hb Ho Hl Hs. rewrite <- (sizeZ_slice b off len) at 1 by lia.
  apply le_bytes_le_value. unfold slice. by apply Forall_take, Forall_drop.
Qed.

Lemma header_bytes_header b : sizeZ b = 56 → Forall is_u8 b → header_bytes (bytes_header b) = b.
Proof.
  intros Hs Hb. unfold header_bytes, bytes_header.
  cbn [sh_magic sh_version sh_kind sh_pid sh_reserved sh_directory_table_base sh_address
    sh_byte_count sh_checksum sh_label_size].
  rewrite !le_bytes_slice by (done || lia).
  transitivity (drop (Z.to_nat 0) b); [|done].
  assert (∀ o n m, 0 ≤ o → 0 ≤ n → m = o + n →
    drop (Z.to_nat o) b = slice b o n ++ drop (Z.to_nat m) b) as Hcut
    by (intros o n m ? ? ->; by apply slice_drop).
  rewrite (Hcut 0 8 8), (Hcut 8 4 12), (Hcut 12 4 16), (Hcut 16 4 20), (Hcut 20 4 24),
    (Hcut 24 8 32), (Hcut 32 8 40), (Hcut 40 8 48), (Hcut 48 4 52), (Hcut 52 4 56) by lia.
  rewrite (drop_ge b (Z.to_nat 56)) by (unfold sizeZ in Hs; lia). by rewrite app_nil_r.
Qed.

(** ** Decoding an encoding *)

Lemma snapshot_header_fits s : snapshot_ok s → header_fits (snapshot_header s).
Proof.
  intros (Hc & Hsum & Hb & Hp & Hd & Ha). apply save_checks_ok in Hc as (Hs & Hl & _ & _); [|done].
  unfold header_fits, snapshot_header, kMaxSnapshotBytes in *.
  cbn [sh_magic sh_version sh_kind sh_pid sh_reserved sh_directory_table_base sh_address
    sh_byte_count sh_checksum sh_label_size].
  split; [done|]. split; [unfold is_u32; lia|].
  split; [unfold is_u32; destruct (kind (space_ s)); simpl; lia|].
  split; [done|]. split; [unfold is_u32; lia|]. split; [done|]. split; [done|].
  split; [unfold is_u64; lia|]. split; [rewrite Hsum; by apply crc32_of_u32|]. apply u32_range.
Qed.

(** The header and label of a valid snapshot, with any payload of its size. *)
Lemma decode_payload s payload :
  snapshot_ok s → sizeZ payload = sizeZ (snap_bytes s) →
  decode (header_bytes (snapshot_header s) ++ label_bytes (label (space_ s)) ++ payload) =
  if crc32_of payload =? checksum_ s
  then Success (mkMemorySnapshot (space_ s) (address_ s) payload (checksum_ s))
  else load_error VerificationMismatch "Snapshot checksum does not match its payload".
Proof.
  intros Hok Hn. pose proof (snapshot_header_fits s Hok) as Hfit.
  destruct Hok as (Hc & _ & Hb & Hp & Hd & Ha).
  apply save_checks_ok in Hc as (Hs & Hl & Hsp & Hov); [|done].
  pose proof (sizeZ_nonneg (label_bytes (label (space_ s)))) as Hln. fold (label_size (space_ s)) in Hln.
  assert (u32 (label_size (space_ s)) = label_size (space_ s)) as Hu32
    by (apply u32_id; unfold is_u32, kMaxLabelBytes in *; lia).
  set (h := snapshot_header s) in *. set (lab := label_bytes _) in *.
  assert (sizeZ (header_bytes h) = 56) as Hh by by apply sizeZ_header_bytes.
  assert (List.length (header_bytes h) = 56%nat) as Hh' by (unfold sizeZ in Hh; lia).
  assert (sh_label_size h = label_size (space_ s)) as Ehl by exact Hu32.
  unfold decode. rewrite <- Hh', take_app_length, drop_app_length, bytes_header_bytes by done.
  rewrite !sizeZ_app, Hh, Hn. unfold kHeaderSize.
  rewrite (proj2 (Z.ltb_ge _ _)) by (pose proof (sizeZ_nonneg lab); lia).
  assert (header_ok h = true) as ->.
  { unfold header_ok, h, snapshot_header. cbn [sh_magic sh_version sh_kind sh_reserved
      sh_byte_count sh_label_size]. rewrite Hu32. unfold kMaxSnapshotBytes, kMaxLabelBytes in *.
    rewrite !andb_true_iff, negb_true_iff, Z.eqb_neq, !Z.leb_le, bytes_eqb_eq, !Z.eqb_eq.
    destruct (kind (space_ s)); simpl; repeat split; lia. }
  cbn [orb negb].
  destruct Hfit as (_ & _ & _ & _ & _ & _ & Fa & Fb & _ & Fl).
  assert (lengths_ok h (56 + (sizeZ lab + sizeZ (snap_bytes s))) = true) as ->.
  { apply lengths_ok_size; [done..| |done|].
    - simpl. lia.
    - rewrite Ehl. simpl. unfold label_size. fold lab. lia. }
  cbn [negb].
  assert (payload_space h "" = mkMemorySpace (kind (space_ s)) (pid (space_ s))
    (directory_table_base (space_ s)) "") as Esp.
  { unfold payload_space, h. simpl. by destruct (kind (space_ s)). }
  assert (ValidateSnapshotSpace (payload_space h "") "MemorySnapshot::Load" = Success tt) as ->.
  { apply ValidateSnapshotSpace_ok. rewrite Esp. split; [done|exact Hsp]. }
  assert (Z.to_nat (sh_label_size h) = List.length lab) as El.
  { rewrite Ehl. unfold label_size, sizeZ. fold lab. lia. }
  rewrite El, take_app_length, drop_app_length. change (sh_checksum h) with (checksum_ s).
  destruct (crc32_of payload =? checksum_ s); [|done]. cbn [negb]. f_equal.
  unfold lab. rewrite bytes_label_bytes. change (sh_address h) with (address_ s). f_equal.
  unfold payload_space, h. simpl. destruct (space_ s) as [[] pd db lb]; reflexivity.
Qed.

Lemma decode_encode s : snapshot_ok s → decode (encode s) = Success s.
Proof.
  intros Hok. unfold encode. rewrite decode_payload by done.
  destruct Hok as (_ & E & _). rewrite <- E, Z.eqb_refl. by destruct s.
Qed.

(** Only encodings decode. *)
Lemma decode_inv content s :
  Forall is_u8 content → decode content = Success s → content = encode s ∧ snapshot_ok s.
Proof.
  intros Hu. unfold decode.
  destruct (bytes_header_ranges (take 56 content)) as (Hpid & Hck & Hl & Hd & Ha & Hc & Hk).
  destruct (Z.ltb_spec (sizeZ content) kHeaderSize) as [|Hs]; [done|]. unfold kHeaderSize in Hs.
  assert (header_bytes (bytes_header (take 56 content)) = take 56 content) as Ehd.
  { apply header_bytes_header; [|by apply Forall_take]. unfold sizeZ in *. rewrite length_take. lia. }
  set (h := bytes_header (take 56 content)) in *. clearbody h. cbn [orb].
  destruct (header_ok h) eqn:Hok; cbn [negb]; [|done].
  apply header_ok_bounds in Hok as (Em & Ev & Er & Hk2 & Hn0 & Hbc & Hlb).
  destruct (lengths_ok h (sizeZ content)) eqn:Hlen; cbn [negb]; [|done].
  apply lengths_ok_size in Hlen as [Hsize Hov]; [|done..].
  destruct (ValidateSnapshotSpace _ _) as [[]|] eqn:Hv; [|done].
  apply ValidateSnapshotSpace_ok in Hv as [_ Hsp].
  set (text := take _ (drop 56 content)). set (bytes := drop _ (drop 56 content)).
  destruct (Z.eqb_spec (crc32_of bytes) (sh_checksum h)) as [Hsum|]; cbn [negb]; [|done].
  unfold is_u64, is_u32 in *. assert (Forall is_u8 (drop 56 content)) as Hud by by apply Forall_drop.
  assert (Forall is_u8 text) as Hut by by apply Forall_take.
  assert (Forall is_u8 bytes) as Hub by by apply Forall_drop.
  assert (sizeZ text = sh_label_size h) as Est
    by (unfold text, sizeZ in *; rewrite length_take, length_drop; lia).
  assert (sizeZ bytes = sh_byte_count h) as Esb
    by (unfold bytes, sizeZ in *; rewrite !length_drop; lia).
  assert (content = take 56 content ++ text ++ bytes) as Econtent
    by (unfold text, bytes; by rewrite !take_drop).
  clearbody text bytes. intros [= <-].
  assert (label_size (payload_space h (bytes_label text)) = sh_label_size h) as Els
    by (unfold label_size; simpl; by rewrite label_bytes_label).
  assert (snapshot_ok (mkMemorySnapshot (payload_space h (bytes_label text)) (sh_address h) bytes
    (sh_checksum h))) as Hsok.
  { split; [|split; [done|split; [done|split; [exact Hpid|split; [exact Hd|exact Ha]]]]].
    apply save_checks_ok; [exact Ha|]. cbn [snap_bytes space_ address_]. rewrite Els, Esb.
    split; [lia|]. split; [done|]. split; [exact Hsp|done]. }
  split; [|done]. rewrite Econtent. unfold encode. cbn [space_ snap_bytes].
  simpl (label _). rewrite label_bytes_label by done. f_equal. rewrite <- Ehd. f_equal.
  unfold snapshot_header. cbn [space_ address_ snap_bytes checksum_]. rewrite Els, Esb.
  rewrite u32_id by (unfold is_u32; lia). unfold payload_space. simpl.
  assert (kind_code (kind_of_code (sh_kind h)) = sh_kind h) as ->.
  { unfold kind_of_code. destruct (Z.eqb_spec (sh_kind h) 0) as [->|]; [done|].
    destruct (Z.eqb_spec (sh_kind h) 1) as [->|]; [done|]. simpl. lia. }
  destruct h; simpl in *. congruence.
Qed.

(** ** Loading *)

(** [C36] The loader accepts exactly the encodings of valid snapshots: from a file
    system without faults and without cancellation, [Load] returns a snapshot if and
    only if the file's bytes are that snapshot's encoding and the snapshot is valid
    (a consistent space, 1 byte to 512 MiB, a range that does not wrap, a label of at
    most 1 MiB, and the CRC-32 of its bytes as checksum). *)
Theorem Load_exact stop p fs content s :
  (∀ n, stop n = false) → fault_free fs → file fs p = Some content → Forall is_u8 content →
  (Load stop p fs).1 = Success s ↔ content = encode s ∧ snapshot_ok s.
Proof.
  intros Hs Hf Hp Hu. rewrite (Load_decode stop Hs p fs content) by done. split.
  - by apply decode_inv.
  - intros [-> Hok]. by apply decode_encode.
Qed.

Lemma encode_u8 s : snapshot_ok s → Forall is_u8 (encode s).
Proof.
  intros (_ & _ & Hb & _). unfold encode, header_bytes, snapshot_header.
  repeat (apply Forall_app_2); try apply le_bytes_u8; try done.
  - simpl. unfold is_u8. repeat constructor; lia.
  - apply Forall_fmap, Forall_true. intros c. unfold compose, char_code, is_u8.
    pose proof (Ascii.N_ascii_bounded c). lia.
Qed.

Definition fs_with (p : path) (content : list Z) : FileSystem :=
  mkFileSystem {[resolve p := content]} (λ _, (0, 0%nat)) 0 42 0.

Lemma save_demo_ok : snapshot_ok save_demo.
Proof.
  split; [reflexivity|]. split; [vm_compute; reflexivity|]. unfold is_u8, is_u32, is_u64.
  split; [repeat constructor; lia|]. simpl. lia.
Qed.

Lemma Load_exact_witness :
  (Load (λ _, false) (mkPath "" "a") (fs_with (mkPath "" "a") (encode save_demo))).1 =
  Success save_demo.
Proof.
  apply (Load_exact (λ _, false) (mkPath "" "a") _ (encode save_demo)).
  - done.
  - done.
  - unfold file, fs_with. cbn [files]. by rewrite lookup_singleton_eq.
  - apply encode_u8, save_demo_ok.
  - split; [reflexivity|apply save_demo_ok].
Defined.

(** A corrupted payload is noticed: if one payload byte of the file of a valid
    snapshot has any other value, [Load] fails with VerificationMismatch. *)
Theorem Load_detects_corruption stop p fs s pre x y post :
  (∀ n, stop n = false) → fault_free fs → snapshot_ok s →
  snap_bytes s = pre ++ x :: post → is_u8 y → x ≠ y →
  file fs p = Some (header_bytes (snapshot_header s) ++ label_bytes (label (space_ s)) ++
                    pre ++ y :: post) →
  fails_with VerificationMismatch (Load stop p fs).1.
Proof.
  intros Hs Hf Hok Hb Hy Hne Hp. pose proof (encode_u8 s Hok) as Hu. unfold encode in Hu.
  rewrite Hb in Hu. apply Forall_app in Hu as [Hu1 [Hu2 Hu3]%Forall_app].
  assert (Forall is_u8 (pre ++ y :: post)) as Hu3'.
  { apply Forall_app in Hu3 as [? [_ ?]%Forall_cons]. by apply Forall_app_2; [|constructor]. }
  erewrite Load_decode; [|done|done|exact Hp|apply Forall_app_2; [done|by apply Forall_app_2]].
  rewrite decode_payload; [|done|rewrite Hb, !sizeZ_app, !sizeZ_cons; done].
  destruct Hok as (_ & -> & _). rewrite Hb.
  destruct (Z.eqb_spec (crc32_of (pre ++ y :: post)) (crc32_of (pre ++ x :: post))) as [E|];
    [|done]. by apply eq_sym, crc32_of_one_byte in E.
Qed.

Lemma Load_detects_corruption_witness :
  let bad := header_bytes (snapshot_header save_demo) ++ label_bytes "demo" ++ [1; 2; 7] in
  fails_with VerificationMismatch
    (Load (λ _, false) (mkPath "" "a") (fs_with (mkPath "" "a") bad)).1.
Proof.
  apply (Load_detects_corruption (λ _, false) (mkPath "" "a") _ save_demo [1; 2] 3 7 []).
  - done.
  - done.
  - apply save_demo_ok.
  - reflexivity.
  - unfold is_u8. lia.
  - done.
  - unfold file, fs_with. cbn [files]. by rewrite lookup_singleton_eq.
Defined.

(** ** Saving without faults succeeds *)

Section NoStop.
Context (stop : nat → bool) (Hstop : ∀ n, stop n = false).

Lemma save_loop_ok fuel bytes offset polls o fs :
  fault_free fs → os_good o = true → 0 ≤ offset ≤ sizeZ bytes →
  sizeZ bytes - offset ≤ (Z.of_nat fuel - 1) * kMaxChunkBytes →
  ∃ polls' fs', fault fs' = fault fs ∧
    save_loop stop fuel bytes offset polls o fs = (None, polls', o, fs').
Proof.
  unfold kMaxChunkBytes. revert offset polls fs.
  induction fuel as [|fuel IH]; intros offset polls fs Hf Hg Ho Hfuel; [lia|]. cbn [save_loop].
  destruct (Z.ltb_spec offset (sizeZ bytes)); [|by eauto]. rewrite Hstop.
  set (n := Z.min _ _). assert (n = Z.min (sizeZ bytes - offset) (1024 * 1024)) as Hn by done.
  destruct (os_write_ok (slice bytes offset n) o fs) as (fs1 & E1 & ->); [done..|].
  rewrite Hg. cbn [negb].
  destruct (IH (offset + n) (S polls) fs1) as (polls' & fs' & E2 & ->);
    [by eauto with kdbg|done|lia|lia|]. eexists _, _. split; [|reflexivity]. by rewrite E2.
Qed.

Lemma save_stream_ok s polls o fs :
  fault_free fs → os_good o = true →
  ∃ polls' fs', fault fs' = fault fs ∧ save_stream stop s polls o fs = (None, polls', fs').
Proof.
  intros Hf Hg. unfold save_stream.
  destruct (os_write_ok (header_bytes (snapshot_header s)) o fs) as (fs1 & E1 & ->); [done..|].
  rewrite Hstop.
  destruct (os_write_ok (label_bytes (label (space_ s))) o fs1) as (fs2 & E2 & ->);
    [by eauto with kdbg|done|]. rewrite <- E1.
  pose proof (sizeZ_nonneg (snap_bytes s)) as Hn.
  destruct (save_loop_ok (Z.to_nat (sizeZ (snap_bytes s) / kMaxChunkBytes + 2)) (snap_bytes s) 0
    (S polls) o fs2) as (polls3 & fs3 & E3 & ->); [by eauto with kdbg|done|lia| |].
  { unfold kMaxChunkBytes. pose proof (Z.div_mod (sizeZ (snap_bytes s)) (1024 * 1024)).
    pose proof (Z.mod_pos_bound (sizeZ (snap_bytes s)) (1024 * 1024)).
    assert (0 ≤ sizeZ (snap_bytes s) / (1024 * 1024)) by (apply Z.div_pos; lia). lia. }
  rewrite Hstop. destruct (os_sync_ok o fs3) as (fs4 & E4 & ->); [by eauto with kdbg|done|].
  rewrite Hg. cbn [negb].
  destruct (os_sync_ok o fs4) as (fs5 & E5 & ->); [by eauto with kdbg|done|].
  rewrite Hg. eexists _, _. split; [|reflexivity]. congruence.
Qed.

Lemma save_commit_ok s t dest polls fs :
  fault_free fs →
  ∃ fs', fault fs' = fault fs ∧ save_commit stop NoFault s t dest polls fs = (Success tt, fs').
Proof.
  intros Hf. unfold save_commit. destruct (os_open_ok t fs Hf) as (fs1 & E1 & Eo). rewrite Eo.
  destruct (os_open_frame _ _ _ _ Eo) as (_ & P1 & G1). specialize (G1 eq_refl). cbn [os_good negb].
  destruct (save_stream_ok s polls (mkOfstream t true) fs1) as (polls2 & fs2 & E2 & Es);
    [by eauto with kdbg|done|].
  rewrite Es. apply save_stream_frame in Es as [_ Hc]; [|done]. cbn [os_path] in Hc.
  destruct (FlushFileToDisk_ok snapshot_messages t (encode s) fs2) as (fs3 & [F3 E3] & ->);
    [by eauto with kdbg|done|].
  rewrite Hstop, bool_decide_eq_false_2 by done.
  destruct (ReplaceAtomically_ok snapshot_messages t dest (encode s) fs3)
    as (fs4 & E4 & ->); [by eauto with kdbg|by unfold file; rewrite F3|].
  exists fs4. split; [congruence|done].
Qed.

(** What is saved is loaded: for a valid snapshot and a destination with a file
    name, [Save] on a file system without faults finds a free temporary name, succeeds,
    and a [Load] of the destination then returns the same snapshot. *)
Theorem Save_Load_roundtrip s dest fs r fs' :
  snapshot_ok s → fault_free fs → filename dest ≠ "" →
  is_u64 (sequence fs) → Z.of_nat (size (files fs)) ≤ u64_max →
  Save stop NoFault s dest fs = (r, fs') →
  r = Success tt ∧ (Load stop dest fs').1 = Success s.
Proof.
  intros Hok Hf Hd Hq Hn H. pose proof H as Hsave. apply Save_effect in Hsave as (ordinal & Hr).
  unfold Save in H. rewrite (proj1 Hok), Hstop in H.
  assert (path_empty dest = false) as Hp
    by (apply bool_decide_eq_false; intros E; by rewrite E in Hd).
  rewrite Hp, bool_decide_false in H by done. cbn [orb] in H.
  edestruct (with_temporary_ok (λ t, save_commit stop NoFault s t dest 1) dest fs) as (fs2 & E2 & Ec);
    [done..| |].
  { intros t fs0 Hf0. by apply save_commit_ok. }
  rewrite Ec in H. injection H as <- <-. split; [done|].
  rewrite (Load_decode stop Hstop dest fs2 (encode s)).
  - by apply decode_encode.
  - by eauto with kdbg.
  - unfold file. rewrite Hr. by rewrite lookup_insert_eq.
  - by apply encode_u8.
Qed.
End NoStop.

Lemma Save_Load_roundtrip_witness :
  ∃ fs', Save (λ _, false) NoFault save_demo (mkPath "dir" "a.snap")
           (fs_with (mkPath "dir" "a.snap") [9]) = (Success tt, fs') ∧
         (Load (λ _, false) (mkPath "dir" "a.snap") fs').1 = Success save_demo.
Proof.
  destruct (Save (λ _, false) NoFault save_demo (mkPath "dir" "a.snap")
    (fs_with (mkPath "dir" "a.snap") [9])) as [r fs'] eqn:E.
  apply (Save_Load_roundtrip (λ _, false)) in E as [-> H].
  - exists fs'. split; [reflexivity|exact H].
  - intros n. reflexivity.
  - apply save_demo_ok.
  - intros k. reflexivity.
  - discriminate.
  - unfold is_u64. simpl. lia.
  - vm_compute. congruence.
Defined.
