(* ===== verification/ScanTheorems.v ===== *)
(** First scans: the chunked scan with carried bytes finds exactly the matching
    aligned addresses of every region, in order.

    Next scans: batching the reads of neighbouring candidates does not change which
    candidates survive. *)

From S2P Require Import Prelude CppStd Common ProcessMemory AobPattern ValueCodec ValueCodecTheorems Crc32 MemorySnapshot MemoryScanner.

#[local] Open Scope Z_scope.

(** ** The reference scan *)

Section Reference.
Context (c : CompiledScanQuery) (mem : Z → Z).

Definition scan_match (a : Z) : Prop :=
  a `mod` alignment (query c) = 0 ∧ MatchInitialValue c (mem_bytes mem a (width c)) = true.

#[export] Instance scan_match_dec a : Decision (scan_match a).
Proof. unfold scan_match. apply _. Defined.

Definition candidate_at (a : Z) : ScanCandidate :=
  let v := mem_bytes mem a (width c) in mkScanCandidate a v v.

(** The candidates at the addresses from [lo] up to, not including, [hi]. *)
Definition candidates_in (lo hi : Z) : list ScanCandidate :=
  candidate_at <$> filter scan_match (seqZ lo (hi - lo)).

Definition region_candidates (r : MemoryRegion) : list ScanCandidate :=
  candidates_in (region_base r) (region_base r + region_size r - width c + 1).

Lemma candidates_in_app lo mid hi :
  lo ≤ mid ≤ hi → candidates_in lo hi = candidates_in lo mid ++ candidates_in mid hi.
Proof.
  intros Hm. unfold candidates_in. rewrite <- fmap_app, <- filter_app. do 2 f_equal.
  replace (hi - lo) with ((mid - lo) + (hi - mid)) by lia. rewrite seqZ_app by lia.
  do 2 f_equal. lia.
Qed.
Lemma candidates_in_empty lo hi : hi ≤ lo → candidates_in lo hi = [].
Proof. intros. unfold candidates_in. by rewrite seqZ_nil by lia. Qed.
Lemma candidates_in_none lo hi :
  (∀ a, lo ≤ a < hi → a `mod` alignment (query c) ≠ 0) → candidates_in lo hi = [].
Proof.
  intros Hn. unfold candidates_in.
  destruct (filter scan_match (seqZ lo (hi - lo))) as [|a l] eqn:E; [done|]. exfalso.
  assert (a ∈ filter scan_match (seqZ lo (hi - lo))) as Ha by (rewrite E; left).
  apply list_elem_of_filter in Ha as [[Hm _] Ha%elem_of_seqZ]. apply (Hn a); [lia|done].
Qed.
Lemma candidates_in_one a :
  a `mod` alignment (query c) = 0 →
  candidates_in a (a + 1) =
    if MatchInitialValue c (mem_bytes mem a (width c)) then [candidate_at a] else [].
Proof.
  intros Ha. unfold candidates_in. replace (a + 1 - a) with 1 by lia.
  rewrite seqZ_cons by lia. change (Z.pred 1) with 0. rewrite seqZ_nil by lia.
  rewrite filter_cons, filter_nil. case_decide as E; unfold scan_match in E.
  - by rewrite (proj2 E).
  - destruct (MatchInitialValue c (mem_bytes mem a (width c))); [|done]. by destruct E.
Qed.
End Reference.

(** Collecting candidates up to a limit. *)
Definition collects (limit : Z) (out new : list ScanCandidate) (r : Result bool)
    (out' : list ScanCandidate) : Prop :=
  let full := out ++ new in
  if decide (sizeZ full < limit) then r = Success false ∧ out' = full
  else r = Success true ∧ out' = take (Z.to_nat limit) full.

Lemma collects_nil limit out : sizeZ out < limit → collects limit out [] (Success false) out.
Proof. intros. unfold collects. by rewrite app_nil_r, decide_True. Qed.
(** A part that stops the collection stops the whole; otherwise it goes on. *)
Lemma collects_stop limit out new new' out' :
  sizeZ out < limit →
  collects limit out new (Success true) out' → collects limit out (new ++ new') (Success true) out'.
Proof.
  unfold collects. intros Ho. case_decide as H; [by intros [? _]|]. intros [_ ->].
  rewrite decide_False by (rewrite !sizeZ_app in *; pose proof (sizeZ_nonneg new'); lia).
  split; [done|]. rewrite app_assoc, (take_app_le (out ++ new) new'); [done|]. unfold sizeZ in *. lia.
Qed.
Lemma collects_go limit out new new' out' r out'' :
  collects limit out new (Success false) out' →
  (sizeZ out' < limit → collects limit out' new' r out'') →
  collects limit out (new ++ new') r out''.
Proof.
  unfold collects at 1. case_decide as H; [|by intros [? _]]. intros [_ ->] Hn.
  specialize (Hn H). unfold collects in *. by rewrite app_assoc.
Qed.
Lemma collects_result limit out new r out' :
  collects limit out new r out' → r = Success false ∨ r = Success true.
Proof. unfold collects. case_decide; intros [-> _]; auto. Qed.
Lemma collects_one limit out x :
  sizeZ out < limit →
  collects limit out [x] (Success (limit <=? sizeZ (out ++ [x]))) (out ++ [x]).
Proof.
  intros Ho. unfold collects. case_decide as H.
  - by rewrite (proj2 (Z.leb_gt _ _)) by done.
  - rewrite (proj2 (Z.leb_le _ _)) by lia. split; [done|]. rewrite take_ge; [done|].
    rewrite sizeZ_app in H. unfold sizeZ in *. rewrite length_app. simpl in *. lia.
Qed.
Lemma collects_go_one limit out new new' r out'' :
  sizeZ (out ++ new) < limit → collects limit (out ++ new) new' r out'' →
  collects limit out (new ++ new') r out''.
Proof.
  intros Hlt Hn. eapply collects_go; [|intros _; exact Hn].
  unfold collects. by rewrite decide_True.
Qed.

Lemma collects_all limit new r out :
  0 < limit → collects limit [] new r out →
  r = Success (limit <=? sizeZ new) ∧ out = take (Z.to_nat limit) new.
Proof.
  intros Hl. unfold collects. cbn [app]. case_decide as H; intros [-> ->].
  - rewrite (proj2 (Z.leb_gt _ _)) by done. split; [done|]. rewrite take_ge; [done|].
    unfold sizeZ in H. lia.
  - by rewrite (proj2 (Z.leb_le _ _)) by lia.
Qed.

(** ** One window *)

Section Scan.
Context {P : Type} `{IProcessMemory P} (stop : nat → bool) (Hstop : ∀ n, stop n = false).
Context (c : CompiledScanQuery) (mem : Z → Z).
Context (Hw : 0 < width c ≤ kMaxValueWidth) (Ha : 0 < alignment (query c) ≤ 2 ^ 63).

(** No multiple of [m] lies strictly between two neighbours. *)
Lemma window_loop_exact fuel region wb n carried offset counter (st : ScanState P) :
  is_u64 (region_base region) → region_base region + region_size region ≤ u64_max →
  region_base region ≤ wb → wb + n ≤ region_base region + region_size region →
  0 ≤ carried < width c → 0 ≤ offset → 0 ≤ n ≤ 2 ^ 62 →
  Z.max 0 (n - width c - offset + 1) < Z.of_nat fuel →
  (offset ≤ n - width c → (wb + offset) `mod` alignment (query c) = 0) →
  sizeZ (st_output st) < max_results (query c) →
  let '(r, st') := window_loop stop fuel region c (mem_bytes mem wb n) wb carried offset counter st in
  collects (max_results (query c)) (st_output st)
    (candidates_in c mem (wb + offset) (wb + n - width c + 1)) r (st_output st') ∧
  st_memory st' = st_memory st.
Proof.
  change (2 ^ 63) with 9223372036854775808 in Ha. change (2 ^ 62) with 4611686018427387904.
  unfold is_u64. intros Hb Hov Hwb Hend Hcar. revert offset counter st.
  induction fuel as [|fuel IH]; intros offset counter st Ho Hn Hf Hal Hout.
  { lia. }
  cbn [window_loop]. rewrite sizeZ_mem_bytes by lia.
  destruct (Z.ltb_spec (n - width c) offset) as [Hlast|Hlast].
  { split; [|done]. rewrite candidates_in_empty by lia. by apply collects_nil. }
  rewrite Hstop, andb_false_r.
  set (st1 := if Z.land counter 0x3FF =? 0 then polled st else st).
  assert (st_output st1 = st_output st ∧ st_memory st1 = st_memory st) as [Eo Em]
    by (unfold st1; by case_match). clearbody st1.
  set (step := alignment (query c)) in *. specialize (Hal Hlast).
  rewrite (u64_id (wb + offset)) by (unfold is_u64; lia).
  rewrite (u64_id (offset + step)) by (unfold is_u64; lia).
  rewrite (proj2 (Z.ltb_ge (wb + offset) _)), (proj2 (Z.leb_gt _ (wb + offset))) by lia.
  rewrite (proj2 (Z.ltb_ge (_ - (wb + offset)) _)) by lia. cbn [orb].
  rewrite (proj2 (Z.leb_gt (offset + width c) carried)), andb_false_r by lia.
  rewrite slice_mem_bytes by lia.
  (* the rest of the window starts at the next multiple *)
  assert (∀ st2 : ScanState P, sizeZ (st_output st2) < max_results (query c) →
    let '(r, st') := window_loop stop fuel region c (mem_bytes mem wb n) wb carried
                       (offset + step) (u64 (counter + 1)) st2 in
    collects (max_results (query c)) (st_output st2)
      (candidates_in c mem (wb + offset + 1) (wb + n - width c + 1)) r (st_output st') ∧
    st_memory st' = st_memory st2) as Hrest.
  { intros st2 Hout2.
    replace (candidates_in c mem (wb + offset + 1) (wb + n - width c + 1)) with
      (candidates_in c mem (wb + (offset + step)) (wb + n - width c + 1)).
    - apply IH; [lia..| |done]. intros _.
      replace (wb + (offset + step)) with (wb + offset + 1 * step) by lia.
      by rewrite Z.mod_add by lia.
    - assert (∀ a, wb + offset + 1 ≤ a < wb + offset + step → a `mod` step ≠ 0) as Hnone
        by (intros a Hr; apply (between_multiples step (wb + offset)); [lia|done|lia]).
      destruct (decide (offset + step ≤ n - width c + 1)).
      + rewrite (candidates_in_app c mem (wb + offset + 1) (wb + (offset + step))) by lia.
        rewrite (candidates_in_none c mem (wb + offset + 1)) by (intros; apply Hnone; lia). done.
      + rewrite candidates_in_empty by lia. symmetry. apply candidates_in_none.
        intros; apply Hnone; lia. }
  clear IH. rewrite (candidates_in_app c mem (wb + offset) (wb + offset + 1)) by lia.
  rewrite candidates_in_one by done.
  destruct (MatchInitialValue c (mem_bytes mem (wb + offset) (width c))); cbn [negb].
  2:{ specialize (Hrest st1 ltac:(by rewrite Eo)). destruct (window_loop _ _ _ _ _ _ _ _ _ st1).
      cbn [app]. by rewrite Eo, Em in Hrest. }
  fold (candidate_at c mem (wb + offset)). cbv zeta.
  set (st2 := st1 <| st_output := _ |>).
  assert (st_output st2 = st_output st ++ [candidate_at c mem (wb + offset)] ∧
    st_memory st2 = st_memory st) as [Eo2 Em2] by (unfold st2; simpl; by rewrite Eo, Em).
  clearbody st2. rewrite Eo2.
  pose proof (collects_one (max_results (query c)) (st_output st) (candidate_at c mem (wb + offset))
    Hout) as H1.
  destruct (Z.leb_spec (max_results (query c)) (sizeZ (st_output st ++ [candidate_at c mem (wb + offset)]))) as [Hle|Hlt].
  - split; [|done]. apply collects_stop; [done|]. by rewrite Eo2.
  - specialize (Hrest st2 ltac:(by rewrite Eo2)). destruct (window_loop _ _ _ _ _ _ _ _ _ st2) as [r st'].
    destruct Hrest as [Hc Hm]. rewrite Eo2 in Hc. split; [|by rewrite Hm].
    by apply collects_go_one.
Qed.

Lemma scan_window_exact region wb n carried (st : ScanState P) :
  is_u64 (region_base region) → region_base region + region_size region ≤ u64_max →
  region_base region ≤ wb → wb + n ≤ region_base region + region_size region →
  0 ≤ carried < width c → 0 ≤ n ≤ 2 ^ 62 →
  sizeZ (st_output st) < max_results (query c) →
  let '(r, st') := scan_window stop region c (mem_bytes mem wb n) wb carried st in
  collects (max_results (query c)) (st_output st)
    (candidates_in c mem wb (wb + n - width c + 1)) r (st_output st') ∧
  st_memory st' = st_memory st.
Proof.
  intros Hb Hov Hwb Hend Hcar Hn Hout. unfold scan_window. rewrite sizeZ_mem_bytes by lia.
  destruct (Z.ltb_spec n (width c)).
  { split; [|done]. rewrite candidates_in_empty by lia. by apply collects_nil. }
  set (step := alignment (query c)) in *. set (rem := wb `mod` step).
  assert (0 ≤ rem < step) as Hrem by (apply Z.mod_pos_bound; lia).
  set (fst := if rem =? 0 then 0 else step - rem).
  assert (0 ≤ fst ∧ (wb + fst) `mod` step = 0 ∧ (∀ a, wb ≤ a < wb + fst → a `mod` step ≠ 0))
    as (Hfst & Hal & Hnone).
  { unfold fst. pose proof (Z.div_mod wb step ltac:(lia)) as Hd. fold rem in Hd.
    destruct (Z.eqb_spec rem 0) as [E|E].
    - split; [lia|]. split; [by rewrite Z.add_0_r|lia].
    - split; [lia|]. split.
      + replace (wb + (step - rem)) with ((wb `div` step + 1) * step) by lia. apply Z.mod_mul. lia.
      + intros a Hr. apply (between_multiples step (wb - rem)); [lia| |lia].
        replace (wb - rem) with ((wb `div` step) * step) by lia. apply Z.mod_mul. lia. }
  clearbody fst.
  assert (candidates_in c mem wb (wb + n - width c + 1) =
          candidates_in c mem (wb + fst) (wb + n - width c + 1)) as ->.
  { destruct (decide (fst ≤ n - width c + 1)).
    - rewrite (candidates_in_app c mem wb (wb + fst)) by lia.
      by rewrite (candidates_in_none c mem wb) by (intros; apply Hnone; lia).
    - rewrite (candidates_in_empty c mem (wb + fst)) by lia. apply candidates_in_none.
      intros; apply Hnone; lia. }
  apply window_loop_exact; try done; [lia..|].
  assert (List.length (mem_bytes mem wb n) = Z.to_nat n) as ->
    by (apply length_of_sizeZ, sizeZ_mem_bytes; lia).
  lia.
Qed.

(** ** One region *)

Context (inv : P → Prop).

(** Every read inside the region returns what memory holds there. *)
Definition region_readable_at (r : MemoryRegion) : Prop :=
  is_u64 (region_base r) ∧ region_base r + region_size r ≤ u64_max ∧
  reads_range Read inv mem (region_base r) (region_size r).

Lemma chunk_loop_exact region chunk fuel cursor k (st : ScanState P) :
  region_readable_at region → 0 < chunk → 0 ≤ region_size region →
  region_base region ≤ cursor ≤ region_base region + region_size region →
  k = Z.min (width c - 1) (cursor - region_base region) →
  region_base region + region_size region - cursor ≤ (Z.of_nat fuel - 1) * Z.min chunk u32_max →
  inv (st_memory st) → sizeZ (st_output st) < max_results (query c) →
  let '(r, st') :=
    chunk_loop stop fuel region c chunk cursor (mem_bytes mem (cursor - k) k) st in
  collects (max_results (query c)) (st_output st)
    (candidates_in c mem (cursor - k) (region_base region + region_size region - width c + 1))
    r (st_output st') ∧ inv (st_memory st').
Proof.
  intros (Hb & Hov & Hreads) Hch Hsz. unfold is_u64, kMaxValueWidth in *. revert cursor k st.
  induction fuel as [|fuel IH]; intros cursor k st Hcur Hk Hf Hinv Hout.
  { change (Z.of_nat 0) with 0 in Hf. exfalso. nia. }
  cbn [chunk_loop]. set (bend := region_base region + region_size region) in *.
  destruct (Z.leb_spec bend cursor) as [Hdone|Hmore].
  { split; [|done]. rewrite candidates_in_empty by lia. by apply collects_nil. }
  rewrite Hstop. set (request := Z.min (bend - cursor) (Z.min chunk u32_max)).
  assert (0 < request ≤ u32_max ∧ request ≤ bend - cursor) as [Hrq Hrq2] by lia.
  rewrite (u32_id request) by (unfold is_u32; lia).
  set (st1 := with_report (attempt request) (polled st)).
  assert (st_memory st1 = st_memory st ∧ st_output st1 = st_output st) as [Em Eo] by done.
  clearbody st1. rewrite Em.
  destruct (Hreads cursor request (st_memory st) Hinv) as [Hr Hinv']; [lia..|].
  destruct (Read cursor request (st_memory st)) as [rd p]. simpl in Hr, Hinv'. rewrite Hr.
  rewrite sizeZ_mem_bytes, Z.eqb_refl by lia. cbn [negb].
  rewrite <- mem_bytes_prepend by lia.
  rewrite (sizeZ_mem_bytes mem (cursor - k) k) by lia.
  rewrite (u64_id (cursor - k)), (u64_id (cursor + request)) by (unfold is_u64; lia).
  set (st2 := with_report item_completed _).
  assert (st_memory st2 = p ∧ st_output st2 = st_output st) as [Em2 Eo2] by done. clearbody st2.
  pose proof (scan_window_exact region (cursor - k) (k + request) k st2) as Hwin.
  rewrite Eo2, Em2 in Hwin.
  destruct (scan_window stop region c _ _ _ st2) as [r3 st3].
  destruct Hwin as [Hc3 Em3];
    [done|done|lia|fold bend; lia|lia|change (2 ^ 62) with 4611686018427387904; lia|done|].
  set (cursor' := cursor + request). set (k' := Z.min (width c - 1) (cursor' - region_base region)).
  assert (candidates_in c mem (cursor - k) (bend - width c + 1) =
    candidates_in c mem (cursor - k) (cursor - k + (k + request) - width c + 1) ++
    candidates_in c mem (cursor' - k') (bend - width c + 1)) as ->.
  { destruct (decide (region_base region ≤ cursor' - width c + 1)).
    - rewrite (candidates_in_app c mem (cursor - k) (cursor' - k')) by lia. do 2 f_equal. lia.
    - rewrite (candidates_in_empty c mem (cursor - k) (_ + _ - _ + 1)) by lia. simpl. f_equal. lia. }
  destruct (collects_result _ _ _ _ _ Hc3) as [-> | ->].
  2:{ split; [by apply collects_stop|]. by rewrite Em3. }
  rewrite sizeZ_mem_bytes by lia.
  assert (drop (Z.to_nat (k + request - Z.min (if 1 <? width c then width c - 1 else 0) (k + request)))
    (mem_bytes mem (cursor - k) (k + request)) = mem_bytes mem (cursor' - k') k') as ->.
  { assert (Z.min (if 1 <? width c then width c - 1 else 0) (k + request) = k') as ->
      by (destruct (Z.ltb_spec 1 (width c)); lia).
    rewrite mem_bytes_drop by lia. f_equal; lia. }
  pose proof (IH cursor' k' st3) as IH'. destruct (chunk_loop _ _ _ _ _ _ _ st3) as [r4 st4].
  destruct (decide (sizeZ (st_output st3) < max_results (query c))) as [Hlt|Hge].
  - destruct IH' as [Hc4 Hi4]; [lia|done| |by rewrite Em3|done|].
    { rewrite Nat2Z.inj_succ in Hf. assert (1 ≤ Z.of_nat fuel) by nia. unfold cursor', request.
      destruct (Z.min_spec (bend - cursor) (Z.min chunk u32_max)) as [[_ ->]|[_ ->]]; nia. }
    split; [|done]. eapply collects_go; [exact Hc3|]. done.
  - exfalso. unfold collects in Hc3. case_decide; [|by destruct Hc3]. destruct Hc3 as [_ E3].
    by rewrite E3 in Hge.
Qed.

Lemma ScanRegion_exact region (st : ScanState P) :
  region_readable_at region → 0 < region_size region → 0 < chunk_size (query c) →
  inv (st_memory st) → sizeZ (st_output st) < max_results (query c) →
  let '(r, st') := ScanRegion stop region c st in
  collects (max_results (query c)) (st_output st) (region_candidates c mem region)
    r (st_output st') ∧ inv (st_memory st').
Proof.
  intros Hr Hsz Hch Hinv Hout. unfold ScanRegion, region_candidates. pose proof Hr as (Hb & Hov & _).
  unfold is_u64, kMaxValueWidth in *.
  rewrite (proj2 (Z.eqb_neq _ _)), !(proj2 (Z.ltb_ge _ _)) by lia. cbn [orb].
  set (chunk := Z.max _ _). set (m := Z.min chunk u32_max).
  assert (0 < m) as Hm by lia. change [] with (mem_bytes mem (region_base region - 0) 0) at 1.
  pose proof (chunk_loop_exact region chunk (Z.to_nat (region_size region / m + 2))
    (region_base region) 0 st Hr) as H1. rewrite Z.sub_0_r in *. apply H1; [lia..| |done|done].
  assert (0 ≤ region_size region / m) by (apply Z.div_pos; lia). fold m.
  pose proof (Z.div_mod (region_size region) m ltac:(lia)).
  pose proof (Z.mod_pos_bound (region_size region) m ltac:(lia)). nia.
Qed.
End Scan.

(** ** Compiled queries *)

(** The sizes of a query are [size_t] values. *)
Definition query_ok (q : ScanQuery) : Prop :=
  0 ≤ alignment q ≤ 2 ^ 63 ∧ 0 ≤ max_results q ∧ 0 ≤ chunk_size q.

Lemma compile_operands_query `{FloatText} q c : compile_operands q = Success c → query c = q.
Proof. unfold compile_operands. intros. by repeat case_match; simplify_eq. Qed.

Lemma ValidateQueryLimits_ok q :
  query_ok q → ValidateQueryLimits q = Success tt →
  0 < max_results q ∧ 0 < chunk_size q ≤ kMaxScanChunkBytes.
Proof.
  unfold query_ok, ValidateQueryLimits. intros Hq E.
  repeat (case_match; [done|]). boolify. lia.
Qed.
Lemma ValidateCompiledLimits_ok c :
  0 ≤ width c → ValidateCompiledLimits c = Success tt → 0 < width c ≤ kMaxValueWidth.
Proof. unfold ValidateCompiledLimits. intros Hw E. repeat (case_match; [done|]). boolify. lia. Qed.
Lemma compile_operands_width `{FloatText} q c : compile_operands q = Success c → 0 ≤ width c.
Proof.
  unfold compile_operands. intros Eo.
  repeat case_match; simplify_eq; simpl; try apply sizeZ_nonneg;
    unfold FixedValueWidth in *; repeat case_match; lia.
Qed.

Lemma compile_checked_ok `{FloatText} q c :
  query_ok q → compile_checked q = Success c →
  0 < width c ≤ kMaxValueWidth ∧ 0 < alignment (query c) ≤ 2 ^ 63 ∧
  0 < chunk_size (query c) ≤ kMaxScanChunkBytes ∧ 0 < max_results (query c) ∧
  max_results (query c) = max_results q.
Proof.
  unfold compile_checked. intros Hq E.
  destruct (ValidateQueryLimits q) as [[]|] eqn:E1; [|done].
  apply ValidateQueryLimits_ok in E1 as [Hm Hch]; [|done]. unfold query_ok in Hq.
  change (2 ^ 63) with 9223372036854775808 in *.
  destruct (CompileScanQuery q) as [c1|] eqn:E2; [|done]. unfold CompileScanQuery in E2.
  destruct (is_text _ && _); [done|].
  destruct (compile_operands q) as [c0|] eqn:Eo; [|done].
  apply compile_operands_width in Eo. destruct (max_results q =? 0); [done|].
  destruct (ValidateCompiledLimits c1) as [[]|] eqn:E3; [|done]. injection E as <-.
  apply ValidateCompiledLimits_ok in E3; [|by injection E2 as <-]. unfold kMaxValueWidth, kMaxScanChunkBytes in *.
  injection E2 as <-. cbn [width query alignment chunk_size max_results] in *.
  repeat case_match; boolify; lia.
Qed.

(** ** Several regions *)

Section Regions.
Context {P : Type} `{IProcessMemory P} (stop : nat → bool) (Hstop : ∀ n, stop n = false).
Context (c : CompiledScanQuery) (mem : Z → Z) (inv : P → Prop).
Context (Hw : 0 < width c ≤ kMaxValueWidth) (Ha : 0 < alignment (query c) ≤ 2 ^ 63).
Context (Hchunk : 0 < chunk_size (query c)).

Lemma scan_regions_exact regions (st : ScanState P) :
  Forall (λ r, region_readable_at mem inv r ∧ 0 < region_size r) regions →
  inv (st_memory st) → sizeZ (st_output st) < max_results (query c) →
  let '(r, st') := scan_regions stop regions c st in
  collects (max_results (query c)) (st_output st) (mjoin (region_candidates c mem <$> regions))
    r (st_output st') ∧ inv (st_memory st').
Proof.
  intros Hr. revert st. induction Hr as [|region regions [Hreg Hsz] _ IH]; intros st Hinv Hout.
  { split; [by apply collects_nil|done]. }
  cbn [scan_regions]. rewrite Hstop. csimpl.
  pose proof (ScanRegion_exact stop Hstop c mem Hw Ha inv region (polled st) Hreg Hsz Hchunk Hinv
    Hout) as H1.
  destruct (ScanRegion stop region c (polled st)) as [r1 st1]. destruct H1 as [Hc1 Hi1].
  change (st_output (polled st)) with (st_output st) in Hc1.
  destruct (collects_result _ _ _ _ _ Hc1) as [-> | ->].
  2:{ split; [by apply collects_stop|done]. }
  assert (sizeZ (st_output st1) < max_results (query c)) as Hout1.
  { unfold collects in Hc1. case_decide; [|by destruct Hc1]. by destruct Hc1 as [_ ->]. }
  specialize (IH st1 Hi1 Hout1). destruct (scan_regions stop regions c st1) as [r2 st2].
  destruct IH as [Hc2 Hi2]. split; [|done]. eapply collects_go; [exact Hc1|done].
Qed.
End Regions.

(** [C34] The first scan is exact, whatever the chunking: on a process whose allowed
    regions can be read, and with no cancellation, [FirstScan] of a valid query
    succeeds, and its candidates are the first [max_results] of all aligned addresses,
    region by region and in order, whose value lies inside the region and matches the
    query, each with its bytes; the summary says truncated exactly when the limit was
    reached. *)
Theorem FirstScan_exact {P} `{IProcessMemory P} `{FloatText} stop q c mem inv s p regions p1 :
  (∀ n, stop n = false) → query_ok q → compile_checked q = Success c →
  IsOpen p = true → Regions p = (Success regions, p1) → inv p1 →
  (∀ r, r ∈ regions → RegionAllowed r (query c) = true →
     region_readable_at mem inv r ∧ 0 < region_size r) →
  let allowed := filter (λ r, RegionAllowed r (query c) = true) regions in
  let all := mjoin (region_candidates c mem <$> allowed) in
  ∃ scanned s' p',
    FirstScan stop q s p =
      (Success (mkScanSummary (sizeZ (candidates_ s')) scanned (max_results q <=? sizeZ all)), s', p') ∧
    candidates_ s' = take (Z.to_nat (max_results q)) all ∧ ActiveQuery s' = Some c ∧
    generation_ s' = u64 (generation_ s + 1).
Proof.
  intros Hstop Hq Hc Hopen Hregs Hinv Hall. cbv zeta. unfold FirstScan. rewrite Hopen, Hc, Hregs.
  cbn [negb].
  destruct (compile_checked_ok q c Hq Hc) as (Hw & Ha & Hch & Hm & Em).
  set (allowed := filter _ regions).
  pose proof (scan_regions_exact stop Hstop c mem inv Hw Ha (proj1 Hch) allowed
    (mkScanState p1 [] 0 empty_report 0)) as Hs.
  destruct (scan_regions _ _ _ _) as [r st'].
  destruct Hs as [Hcol _]; [|done|done|].
  { apply Forall_forall. intros r0 [Hr0 Hin]%list_elem_of_filter. by apply Hall. }
  apply collects_all in Hcol as [-> Hout]; [|lia]. rewrite Em in Hout. rewrite Em.
  exists (st_bytes_scanned st'), (mkMemoryScanner (st_output st') c true (u64 (generation_ s + 1))
    (st_report st')), (st_memory st').
  split; [reflexivity|]. done.
Qed.

(** A process with one region of eight bytes, scanned for the byte 7. *)
Definition scan_demo : MockProcessMemory :=
  mkMockProcessMemory 0x1000 8 [0; 7; 7; 0; 1; 7; 2; 3]
    [mkMemoryRegion 0x1000 8 0 0 0 true true true false false false ""] [] false.
Definition scan_demo_query : ScanQuery := default_ScanQuery <| sq_type := UInt8 |>
  <| sq_value := str "7" |> <| max_results := 2 |> <| chunk_size := 3 |>.
Definition scan_demo_compiled : CompiledScanQuery :=
  mkCompiledScanQuery (scan_demo_query <| alignment := 1 |>) 1 [7] [] no_pattern.

Lemma FirstScan_exact_witness :
  ∃ s' : MemoryScanner,
    candidates_ s' = [mkScanCandidate 0x1001 [7] [7]; mkScanCandidate 0x1002 [7] [7]].
Proof.
  destruct (FirstScan_exact (H0 := no_floats) (λ _, false) scan_demo_query scan_demo_compiled
    (mock_vmem scan_demo) (eq scan_demo) make_MemoryScanner scan_demo (regions_ scan_demo)
    scan_demo) as (scanned & s' & p' & _ & Hc & _).
  - done.
  - unfold query_ok. simpl. lia.
  - vm_compute. reflexivity.
  - reflexivity.
  - reflexivity.
  - reflexivity.
  - intros r Hr _. apply list_elem_of_singleton in Hr as ->. split; [|simpl; lia].
    split; [unfold is_u64; simpl; lia|]. split; [simpl; lia|].
    intros a n _ <- Hn Ha Hr. simpl in Ha, Hr.
    change (@Read _ MockProcessMemory_IProcessMemory) with MockProcess_Read.
    rewrite MockProcess_Read_exact; [split; reflexivity|done|simpl; lia|].
    change (sizeZ (bytes_ scan_demo)) with 8. simpl. lia.
  - exists s'. rewrite Hc. vm_compute. reflexivity.
Defined.

(** ** The reference filter *)

Definition survivor (c : CompiledScanQuery) (mem : Z → Z) (x : ScanCandidate)
    : option ScanCandidate :=
  let now := mem_bytes mem (sc_address x) (width c) in
  if MatchNextValue c (sc_current x) now
  then Some (mkScanCandidate (sc_address x) (sc_current x) now) else None.
Definition survivors (c : CompiledScanQuery) (mem : Z → Z) (l : list ScanCandidate)
    : list ScanCandidate := omap (survivor c mem) l.

Lemma survivors_app c mem l k : survivors c mem (l ++ k) = survivors c mem l ++ survivors c mem k.
Proof. apply omap_app. Qed.

Lemma survivors_cons c mem x l :
  survivors c mem (x :: l) =
    match survivor c mem x with Some y => y :: survivors c mem l | None => survivors c mem l end.
Proof. done. Qed.

Section NextScan.
Context {P : Type} `{IProcessMemory P} (stop : nat → bool) (Hstop : ∀ n, stop n = false).
Context (c : CompiledScanQuery) (mem : Z → Z) (inv : P → Prop).

(** What memory is assumed to do: whatever is read in full is what [mem] holds, and
    every candidate by itself can be read.  Reads of whole batches may fail. *)
Definition reads_agree : Prop :=
  ∀ a n p, inv p → inv (Read a n p).2 ∧
    ∀ bytes, (Read a n p).1 = Success bytes → sizeZ bytes = n → bytes = mem_bytes mem a n.
Definition candidate_readable (x : ScanCandidate) : Prop :=
  0 ≤ sc_address x ∧ sc_address x + width c ≤ u64_max ∧
  ∀ p, inv p → ∃ bytes, (Read (sc_address x) (width c) p).1 = Success bytes ∧ sizeZ bytes = width c.

Context (Hw : 0 < width c ≤ kMaxValueWidth) (Hreads : reads_agree).

(** ** One batch *)

Lemma extend_batch_spec start stop_at count rest batch rest' stop_at' :
  extend_batch c start stop_at count rest = (batch, rest', stop_at') →
  Forall candidate_readable rest →
  rest = batch ++ rest' ∧ stop_at ≤ stop_at' ∧
  stop_at' - start ≤ Z.max (stop_at - start) (chunk_size (query c)) ∧
  Forall (λ x, start ≤ sc_address x ∧ sc_address x + width c ≤ stop_at') batch.
Proof.
  revert stop_at count batch rest' stop_at'. induction rest as [|x rest IH];
    intros stop_at count batch rest' stop_at' E Hr; cbn [extend_batch] in E.
  { simplify_eq. split; [done|]. split; [lia|]. split; [lia|constructor]. }
  apply Forall_cons in Hr as [_ Hr].
  destruct (Z.ltb_spec (sc_address x) start); cbn [orb] in E.
  { simplify_eq. split; [done|]. split; [lia|]. split; [lia|constructor]. }
  destruct (_ <? width c); [simplify_eq; split; [done|]; split; [lia|]; split; [lia|constructor]|].
  destruct (Z.ltb_spec (chunk_size (query c)) (sc_address x + width c - start)); cbn [orb] in E.
  { simplify_eq. split; [done|]. split; [lia|]. split; [lia|constructor]. }
  destruct (_ <? _ - start); [simplify_eq; split; [done|]; split; [lia|]; split; [lia|constructor]|].
  destruct (extend_batch c start _ (count + 1) rest) as [[batch1 rest1] stop1] eqn:E1.
  injection E as <- <- <-.
  apply IH in E1 as (-> & Hle & Hsz & Hb); [|done]. split; [done|]. split; [lia|]. split; [lia|].
  constructor; [lia|done].
Qed.

Lemma read_batch_spec start stop_at n (st : ScanState P) :
  0 < stop_at - start ≤ u32_max → inv (st_memory st) →
  let '(bytes, st') := read_batch start stop_at n st in
  (bytes = [] ∨ bytes = mem_bytes mem start (stop_at - start)) ∧
  inv (st_memory st') ∧ st_output st' = st_output st.
Proof.
  intros Hn Hinv. unfold read_batch. rewrite u32_id by (unfold is_u32; lia).
  case_bool_decide; [|by auto].
  destruct (Hreads start (stop_at - start) (st_memory st) Hinv) as [Hi Hb].
  destruct (Read start (stop_at - start) (st_memory st)) as [[bytes|e] p]; simpl in *; [|by auto].
  split; [|done]. destruct (Z.eqb_spec (sizeZ bytes) (stop_at - start)); [|by left].
  right. by apply Hb.
Qed.

Definition batch_covers (start : Z) (bytes : list Z) (x : ScanCandidate) : Prop :=
  bytes = [] ∨ ∃ n, bytes = mem_bytes mem start n ∧ start ≤ sc_address x ∧
    sc_address x + width c ≤ start + n.

Lemma batch_loop_exact start bytes batch (st : ScanState P) :
  Forall candidate_readable batch → Forall (batch_covers start bytes) batch →
  inv (st_memory st) → sizeZ (st_output st) < max_results (query c) →
  let '(r, st') := batch_loop stop c start bytes batch st in
  collects (max_results (query c)) (st_output st) (survivors c mem batch) r (st_output st') ∧
  inv (st_memory st').
Proof.
  intros Hr. revert st. induction Hr as [|x batch Hx _ IH]; intros st Hcov Hinv Hout.
  { split; [by apply collects_nil|done]. }
  apply Forall_cons in Hcov as [Hxc Hcov]. cbn [batch_loop]. rewrite Hstop.
  set (st1 := with_report (attempt (width c)) (polled st)).
  assert (st_memory st1 = st_memory st ∧ st_output st1 = st_output st) as [Em Eo] by done.
  clearbody st1. rewrite survivors_cons.
  destruct Hx as (Hx0 & Hxw & Hread). unfold kMaxValueWidth in *.
  set (now := mem_bytes mem (sc_address x) (width c)).
  (* evaluating the candidate on its current bytes *)
  assert (∀ st2 : ScanState P, inv (st_memory st2) → st_output st2 = st_output st →
    let '(r, st') :=
      let st3 := st2 <| st_bytes_scanned := AddBytes (st_bytes_scanned st2) (width c) |> in
      let st3 := with_report (read_completed (width c)) (with_report item_completed st3) in
      if MatchNextValue c (sc_current x) now then
        let st3 := st3 <| st_output := st_output st3 ++
                            [mkScanCandidate (sc_address x) (sc_current x) now] |> in
        if max_results (query c) <=? sizeZ (st_output st3) then (Success true, st3)
        else batch_loop stop c start bytes batch st3
      else batch_loop stop c start bytes batch st3 in
    collects (max_results (query c)) (st_output st)
      (match survivor c mem x with Some y => y :: survivors c mem batch | None => survivors c mem batch end)
      r (st_output st') ∧ inv (st_memory st')) as Heval.
  { intros st2 Hi2 Eo2. unfold survivor. fold now. cbv zeta.
    set (st3 := with_report (read_completed (width c)) _).
    assert (st_memory st3 = st_memory st2 ∧ st_output st3 = st_output st) as [Em3 Eo3] by done.
    clearbody st3. destruct (MatchNextValue c (sc_current x) now).
    2:{ rewrite <- Eo3. apply IH; [done|by rewrite Em3|by rewrite Eo3]. }
    set (y := mkScanCandidate (sc_address x) (sc_current x) now).
    pose proof (collects_one (max_results (query c)) (st_output st) y Hout) as H1.
    change (y :: survivors c mem batch) with ([y] ++ survivors c mem batch).
    set (st4 := st3 <| st_output := _ |>).
    assert (st_memory st4 = st_memory st2 ∧ st_output st4 = st_output st ++ [y]) as [Em4 Eo4]
      by (unfold st4; simpl; by rewrite Em3, Eo3). clearbody st4. rewrite Eo4.
    destruct (Z.leb_spec (max_results (query c)) (sizeZ (st_output st ++ [y]))) as [Hle|Hlt].
    - split; [|by rewrite Em4]. rewrite Eo4. by apply collects_stop.
    - specialize (IH st4 Hcov ltac:(by rewrite Em4) ltac:(by rewrite Eo4)).
      destruct (batch_loop _ _ _ _ _ st4) as [r st']. destruct IH as [Hc Hi].
      split; [|done]. rewrite Eo4 in Hc. by apply collects_go_one. }
  clear IH. case_bool_decide as Hb; cbn [negb].
  - rewrite (u32_id (width c)), Em by (unfold is_u32; lia).
    destruct (Hread (st_memory st) Hinv) as (now' & Hr & Hs).
    destruct (Hreads (sc_address x) (width c) (st_memory st) Hinv) as [Hi Hag].
    destruct (Read (sc_address x) (width c) (st_memory st)) as [rd p]. simpl in Hr, Hag, Hi.
    rewrite Hr in *. specialize (Hag now' eq_refl Hs). subst now'. rewrite Hs, Z.eqb_refl.
    cbn [negb]. fold now. apply (Heval (st1 <| st_memory := p |>)); done.
  - destruct Hxc as [->|(n & -> & Hlo & Hhi)]; [done|].
    rewrite slice_mem_bytes by lia. replace (start + (sc_address x - start)) with (sc_address x) by lia.
    apply (Heval st1); [by rewrite Em|done].
Qed.

(** ** All batches *)

Context (Hchunk : 0 < chunk_size (query c) ≤ kMaxScanChunkBytes).

Lemma next_loop_exact fuel rest (st : ScanState P) :
  (List.length rest < fuel)%nat → Forall candidate_readable rest →
  inv (st_memory st) → sizeZ (st_output st) < max_results (query c) →
  let '(r, st') := next_loop stop fuel c rest st in
  collects (max_results (query c)) (st_output st) (survivors c mem rest) r (st_output st') ∧
  inv (st_memory st').
Proof.
  unfold kMaxScanChunkBytes, kMaxValueWidth in *. revert rest st.
  induction fuel as [|fuel IH]; intros rest st Hf Hr Hinv Hout; [lia|]. cbn [next_loop].
  destruct rest as [|x rest]; [split; [by apply collects_nil|done]|]. rewrite Hstop.
  apply Forall_cons in Hr as [Hx Hr]. pose proof Hx as (Hx0 & Hxw & _).
  rewrite (u64_id (_ + width c)) by (unfold is_u64; lia).
  destruct (extend_batch c _ _ 1 rest) as [[more rest1] stop_at] eqn:E.
  apply extend_batch_spec in E as (-> & Hle & Hsz & Hb); [|done].
  apply Forall_app in Hr as [Hmore Hr].
  pose proof (read_batch_spec (sc_address x) stop_at (S (List.length more)) (polled st)) as Hbat.
  destruct (read_batch _ _ _ _) as [bytes st1].
  destruct Hbat as (Hbytes & Hi1 & Eo1); [lia|done|].
  change (st_output (polled st)) with (st_output st) in Eo1.
  assert (Forall (batch_covers (sc_address x) bytes) (x :: more)) as Hcov.
  { destruct Hbytes as [->| ->]; [by apply Forall_forall; left|].
    constructor; [right; exists (stop_at - sc_address x); split; [done|]; lia|].
    eapply Forall_impl; [exact Hb|]. intros y [? ?]. right. exists (stop_at - sc_address x).
    split; [done|]. lia. }
  pose proof (batch_loop_exact (sc_address x) bytes (x :: more) st1) as Hl.
  destruct (batch_loop _ _ _ _ _ st1) as [r2 st2].
  destruct Hl as [Hc2 Hi2]; [by constructor|done|done|by rewrite Eo1|]. rewrite Eo1 in Hc2.
  change (x :: more ++ rest1) with ((x :: more) ++ rest1). rewrite survivors_app.
  destruct (collects_result _ _ _ _ _ Hc2) as [-> | ->].
  2:{ split; [by apply collects_stop|done]. }
  assert (sizeZ (st_output st2) < max_results (query c)) as Hout2.
  { unfold collects in Hc2. case_decide; [|by destruct Hc2]. by destruct Hc2 as [_ ->]. }
  specialize (IH rest1 st2). destruct (next_loop _ _ _ rest1 st2) as [r3 st3].
  destruct IH as [Hc3 Hi3]; [|done..|].
  { simpl in Hf. rewrite length_app in Hf. lia. }
  split; [|done]. eapply collects_go; [exact Hc2|done].
Qed.
End NextScan.

(** [C35] Next scans are exact: for a valid query of the type and width of the last scan,
    on a process whose candidates can be read one by one, and with no cancellation,
    [NextScan] succeeds; the new candidates are the first [max_results] of the old
    candidates, in order, whose current bytes match the query against the bytes of the
    last scan, each with the old bytes as previous and the current bytes as current,
    whether or not neighbouring candidates were read in one batch. *)
Theorem NextScan_exact {P} `{IProcessMemory P} `{FloatText} stop q c mem inv s p :
  (∀ n, stop n = false) → query_ok q → compile_checked q = Success c →
  has_scan_ s = true → IsOpen p = true →
  width c = width (active_query_ s) → sq_type (query c) = sq_type (query (active_query_ s)) →
  inv p → reads_agree mem inv → Forall (candidate_readable c inv) (candidates_ s) →
  let all := survivors c mem (candidates_ s) in
  ∃ scanned s' p',
    NextScan stop q s p =
      (Success (mkScanSummary (sizeZ (candidates_ s')) scanned (max_results q <=? sizeZ all)), s', p') ∧
    candidates_ s' = take (Z.to_nat (max_results q)) all ∧ ActiveQuery s' = Some c ∧
    generation_ s' = u64 (generation_ s + 1).
Proof.
  intros Hstop Hq Hc Hscan Hopen Ew Et Hinv Hag Hcand all. unfold NextScan.
  cbn [has_scan_ active_query_ candidates_]. simpl has_scan_. rewrite Hscan, Hopen, Hc. cbn [negb].
  rewrite Ew, Z.eqb_refl, (bool_decide_eq_true_2 _ Et). cbn [negb orb]. clear Ew Et.
  destruct (compile_checked_ok q c Hq Hc) as (Hw & _ & Hch & Hm & Em).
  pose proof (next_loop_exact stop Hstop c mem inv Hw Hag Hch (S (List.length (candidates_ s)))
    (candidates_ s) (mkScanState p [] 0 empty_report 0)) as Hs.
  simpl candidates_. destruct (next_loop _ _ _ _ _) as [r st'].
  destruct Hs as [Hcol _]; [lia|done..|].
  apply collects_all in Hcol as [-> Hout]; [|lia]. rewrite Em in Hout. rewrite Em.
  exists (st_bytes_scanned st'), (mkMemoryScanner (st_output st') c true (u64 (generation_ s + 1))
    (st_report st')), (st_memory st').
  split; [reflexivity|]. done.
Qed.

(** Two neighbouring candidates, read in one batch; the second one has changed. *)
Definition next_demo : MemoryScanner :=
  mkMemoryScanner [mkScanCandidate 0x1001 [7] [7]; mkScanCandidate 0x1003 [7] [7]]
    scan_demo_compiled true 1 empty_report.
Definition next_demo_query : ScanQuery := scan_demo_query <| comparison := Unchanged |>.
Definition next_demo_compiled : CompiledScanQuery :=
  mkCompiledScanQuery (next_demo_query <| alignment := 1 |>) 1 [] [] no_pattern.

Lemma NextScan_exact_witness :
  ∃ s' : MemoryScanner, candidates_ s' = [mkScanCandidate 0x1001 [7] [7]].
Proof.
  destruct (NextScan_exact (H0 := no_floats) (λ _, false) next_demo_query next_demo_compiled
    (mock_vmem scan_demo) (eq scan_demo) next_demo scan_demo) as (scanned & s' & p' & _ & Hc & _).
  - intros n. reflexivity.
  - unfold query_ok. simpl. lia.
  - vm_compute. reflexivity.
  - reflexivity.
  - reflexivity.
  - reflexivity.
  - reflexivity.
  - reflexivity.
  - intros a n p <-. split.
    + change (@Read _ MockProcessMemory_IProcessMemory) with MockProcess_Read.
      unfold MockProcess_Read. by repeat case_match.
    + intros bytes Hr Hs.
      destruct (@Read _ MockProcessMemory_IProcessMemory a n scan_demo) as [r p'] eqn:E.
      simpl in Hr. subst r. pose proof (read_bytes a n scan_demo bytes p' E Hs) as <-.
      change (@Read _ MockProcessMemory_IProcessMemory) with MockProcess_Read in E.
      unfold MockProcess_Read in E. by repeat case_match; simplify_eq.
  - repeat constructor; simpl; try lia; intros p <-; eexists; by vm_compute.
  - exists s'. rewrite Hc. vm_compute. reflexivity.
Defined.
