(* ===== verification/KernelDriver.v ===== *)
(** [driver/KDbgDriver/Driver.cpp] and [shared/KDbgIoctl.h]: the kernel driver.

    The Windows kernel is a class of operations; a request is one step of the
    driver, as the handle's write lock and the physical transaction lock make it for
    the operations that write.  Requests and responses are the bytes of the packed
    ABI structures. *)

From stdpp Require Import gmap.
From S2P Require Import Prelude CppStd Wire Common.

#[local] Open Scope Z_scope.

(** ** The kernel *)

Definition NTSTATUS : Type := Z.
Definition NT_SUCCESS (s : NTSTATUS) : bool := s <? 0x80000000.
Definition STATUS_SUCCESS : NTSTATUS := 0.
Definition STATUS_PENDING : NTSTATUS := 0x103.
Definition STATUS_BUFFER_OVERFLOW : NTSTATUS := 0x80000005.
Definition STATUS_PARTIAL_COPY : NTSTATUS := 0x8000000D.
Definition STATUS_UNSUCCESSFUL : NTSTATUS := 0xC0000001.
Definition STATUS_INVALID_PARAMETER : NTSTATUS := 0xC000000D.
Definition STATUS_INVALID_DEVICE_REQUEST : NTSTATUS := 0xC0000010.
Definition STATUS_CONFLICTING_ADDRESSES : NTSTATUS := 0xC0000018.
Definition STATUS_ACCESS_DENIED : NTSTATUS := 0xC0000022.
Definition STATUS_BUFFER_TOO_SMALL : NTSTATUS := 0xC0000023.
Definition STATUS_DATA_ERROR : NTSTATUS := 0xC000003E.
Definition STATUS_SHARING_VIOLATION : NTSTATUS := 0xC0000043.
Definition STATUS_REVISION_MISMATCH : NTSTATUS := 0xC0000059.
Definition STATUS_INTEGER_OVERFLOW : NTSTATUS := 0xC0000095.
Definition STATUS_INSUFFICIENT_RESOURCES : NTSTATUS := 0xC000009A.
Definition STATUS_INTERNAL_ERROR : NTSTATUS := 0xC00000E5.
Definition STATUS_INVALID_ADDRESS : NTSTATUS := 0xC0000141.

(** The kernel services the driver calls, as functions of the kernel's state:
    copies report a status and the bytes they transferred; a write through a mapping
    reports the exception it raised, 0 for none. *)
Class Kernel (K : Type) := {
  read_cr3 : K → Z;
  read_cr4 : K → Z;
  MmHighestUserAddress : K → Z;
  ExAllocatePool : K → bool * K;
  MmGetPhysicalMemoryRanges : K → option (list (Z * Z)) * K;
  MmCopyPhysical : Z → Z → K → NTSTATUS * list Z * K;
  MmCopyVirtual : option Z → Z → Z → K → NTSTATUS * list Z * K;
  MmMapIoSpace : Z → Z → K → bool * K;
  CopyToMapping : Z → list Z → K → NTSTATUS * K;
  PsLookupProcess : Z → K → NTSTATUS * Z * K;
  process_cr3 : Z → K → Z;
  IoAllocateMdl : Z → Z → K → bool * K;
  MmProbeAndLockPages : Z → Z → Z → K → NTSTATUS * K;
  MmGetSystemAddress : K → bool * K;
  CopyToMdl : Z → Z → list Z → K → K
}.

(** ** The ABI *)

Definition KDBG_MAX_TRANSFER_SIZE : Z := 1024 * 1024.
Definition KDBG_MAX_PHYSICAL_RANGES : Z := 4096.
Definition KDBG_MAX_TRANSLATION_STEPS : Z := 5.
Definition KDBG_PAGE_SIZE : Z := 0x1000.
Definition KDBG_WRITE_ACK_MAGIC : Z := 0x4B44424757524954.
Definition KDBG_PHYSICAL_PAGE_NO_MISMATCH : Z := 0xFFFFFFFF.
Definition KDBG_PHYSICAL_PAGE_RESULT_APPLIED : Z := 1.
Definition KDBG_PHYSICAL_PAGE_RESULT_CONFLICT : Z := 2.
Definition KDBG_PHYSICAL_PAGE_RESULT_FAILED : Z := 3.
Definition STAGE_VALIDATION : Z := 1.
Definition STAGE_MAPPING : Z := 2.
Definition STAGE_COPYING : Z := 3.
Definition STAGE_COMPLETE : Z := 4.
Definition STAGE_COMPARING : Z := 5.
Definition STAGE_READBACK : Z := 6.

(** [CTL_CODE(FILE_DEVICE_UNKNOWN, function, METHOD_BUFFERED, access)]. *)
Definition CTL_CODE (function access : Z) : Z :=
  Z.lor (Z.lor (Z.shiftl 0x22 16) (Z.shiftl access 14)) (Z.shiftl function 2).
Definition IOCTL_GET_VERSION : Z := CTL_CODE 0x900 0.
Definition IOCTL_GET_SESSION_STATUS : Z := CTL_CODE 0x901 1.
Definition IOCTL_SET_WRITE_MODE : Z := CTL_CODE 0x902 3.
Definition IOCTL_GET_PHYSICAL_RANGES : Z := CTL_CODE 0x903 1.
Definition IOCTL_READ_PHYSICAL : Z := CTL_CODE 0x904 1.
Definition IOCTL_WRITE_PHYSICAL : Z := CTL_CODE 0x905 3.
Definition IOCTL_GET_PROCESS_CONTEXT : Z := CTL_CODE 0x906 1.
Definition IOCTL_TRANSLATE_VIRTUAL : Z := CTL_CODE 0x907 1.
Definition IOCTL_READ_PROCESS_MEMORY : Z := CTL_CODE 0x908 1.
Definition IOCTL_WRITE_PROCESS_MEMORY : Z := CTL_CODE 0x909 3.
Definition IOCTL_READ_KERNEL_VIRTUAL : Z := CTL_CODE 0x90A 1.
Definition IOCTL_COMPARE_WRITE_PHYSICAL_PAGE : Z := CTL_CODE 0x90B 3.

(** ** State *)

Record FileContext := mkFileContext {
  fc_write_enabled : bool;
  fc_cleaned_up : bool;
  fc_owner_process : Z;
  fc_owner_pid : Z
}.
#[export] Instance FileContext_eta : Eta FileContext := fun c =>
  mkFileContext (fc_write_enabled c) (fc_cleaned_up c) (fc_owner_process c) (fc_owner_pid c).

Record DriverState := mkDriverState {
  ds_owner_process : option Z;
  ds_owner_pid : Z;
  ds_open_handles : Z;
  ds_successful_reads : Z;
  ds_successful_writes : Z;
  ds_rejected_writes : Z;
  ds_last_status : Z;
  ds_last_stage : Z;
  ds_last_transferred : Z
}.
#[export] Instance DriverState_eta : Eta DriverState := fun s =>
  mkDriverState (ds_owner_process s) (ds_owner_pid s) (ds_open_handles s) (ds_successful_reads s)
    (ds_successful_writes s) (ds_rejected_writes s) (ds_last_status s) (ds_last_stage s)
    (ds_last_transferred s).
Definition initial_state : DriverState := mkDriverState None 0 0 0 0 0 0 0 0.

(** What one request works on: the driver's state, the handle's context and the
    kernel. *)
Record Session (K : Type) := mkSession {
  s_state : DriverState; s_context : FileContext; s_kernel : K }.
Arguments mkSession {K}.
Arguments s_state {K}.
Arguments s_context {K}.
Arguments s_kernel {K}.
#[export] Instance Session_eta K : Eta (Session K) := fun s =>
  mkSession (s_state s) (s_context s) (s_kernel s).

(** A request of a process on a file object. *)
Record Irp := mkIrp {
  irp_file : Z;
  irp_process : Z;
  irp_pid : Z;
  irp_code : Z;
  irp_input : list Z;
  irp_output_length : Z
}.
Definition input_length (i : Irp) : Z := sizeZ (irp_input i).
(** With no input and no output there is no system buffer. *)
Definition no_buffer (i : Irp) : bool := (input_length i =? 0) && (irp_output_length i =? 0).

(** The status and the bytes of the buffer that go back to the caller; their number
    is [IoStatus.Information]. *)
Definition IoResult : Type := NTSTATUS * list Z.

(** ** Ranges *)

Definition CheckedEnd (address length : Z) : option Z :=
  if length =? 0 then None
  else if u64_max - length <? address then None else Some (address + length).

Definition CheckedAddUlong (left right : Z) : option Z :=
  if u32_max - right <? left then None else Some (left + right).

Definition page_of (address : Z) : Z := Z.land address (Z.lxor u64_max 0xFFF).
Definition IsPageBounded (address length : Z) : bool :=
  match CheckedEnd address length with
  | Some end_exclusive => page_of address =? page_of (end_exclusive - 1)
  | None => false
  end.

(** The range array ends at its first zero entry; the counters are signed. *)
Fixpoint IsPhysicalRamRange_loop (ranges : list (Z * Z)) (address end_ : Z) : bool :=
  match ranges with
  | [] => false
  | (b, n) :: ranges =>
      if (b =? 0) && (n =? 0) then false
      else
        let base := u64 b in
        let bytes := u64 n in
        if (bytes =? 0) || (u64_max - bytes <? base) then IsPhysicalRamRange_loop ranges address end_
        else if (base <=? address) && (end_ <=? base + bytes) then true
        else IsPhysicalRamRange_loop ranges address end_
  end.
Definition IsPhysicalRamRange (ranges : list (Z * Z)) (address length : Z) : bool :=
  match CheckedEnd address length with
  | None => false
  | Some end_ => IsPhysicalRamRange_loop ranges address end_
  end.

Definition IsCanonical (address : Z) (la57 : bool) : bool :=
  if la57 then
    let sign := Z.land (Z.shiftr address 56) 1 in
    let upper := Z.shiftr address 57 in
    if sign =? 0 then upper =? 0 else upper =? 0x7F
  else
    let sign := Z.land (Z.shiftr address 47) 1 in
    let upper := Z.shiftr address 48 in
    if sign =? 0 then upper =? 0 else upper =? 0xFFFF.

Definition FirstMismatchOffset (left right : list Z) : Z :=
  match first_mismatch left right with
  | Some offset => offset
  | None => KDBG_PHYSICAL_PAGE_NO_MISMATCH
  end.

Section Driver.
Context {K : Type} `{Kernel K}.
Implicit Types s : Session K.

Definition la57_active (k : K) : bool := negb (Z.land (read_cr4 k) (Z.shiftl 1 12) =? 0).

Definition IsUserRange (address length : Z) (k : K) : bool :=
  if address =? 0 then false
  else
    match CheckedEnd address length with
    | None => false
    | Some end_exclusive =>
        (address <=? MmHighestUserAddress k) && (end_exclusive - 1 <=? MmHighestUserAddress k)
    end.

Definition IsKernelRange (address length : Z) (k : K) : bool :=
  match CheckedEnd address length with
  | None => false
  | Some end_exclusive =>
      let la57 := la57_active k in
      let last := end_exclusive - 1 in
      let sign_bit := if la57 then 56 else 47 in
      IsCanonical address la57 && IsCanonical last la57 &&
      negb (Z.land (Z.shiftr address sign_bit) 1 =? 0) &&
      negb (Z.land (Z.shiftr last sign_bit) 1 =? 0)
  end.

(** ** Physical and process memory *)

Definition ReadPhysicalWithSnapshot (ranges : list (Z * Z)) (address length : Z) (k : K)
    : NTSTATUS * list Z * K :=
  if (length =? 0) || (KDBG_MAX_TRANSFER_SIZE <? length) then (STATUS_INVALID_PARAMETER, [], k)
  else if negb (IsPhysicalRamRange ranges address length) then
    (STATUS_CONFLICTING_ADDRESSES, [], k)
  else MmCopyPhysical address length k.

Definition ReadPhysical (address length : Z) (k : K) : NTSTATUS * list Z * K :=
  match MmGetPhysicalMemoryRanges k with
  | (None, k) => (STATUS_INSUFFICIENT_RESOURCES, [], k)
  | (Some ranges, k) => ReadPhysicalWithSnapshot ranges address length k
  end.

Definition ReadPhysicalU64 (ranges : list (Z * Z)) (address : Z) (k : K) : NTSTATUS * Z * K :=
  let '(status, bytes, k) := ReadPhysicalWithSnapshot ranges address 8 k in
  if negb (NT_SUCCESS status) then (status, 0, k)
  else ((if sizeZ bytes =? 8 then STATUS_SUCCESS else STATUS_PARTIAL_COPY), le_value bytes, k).

Definition on_state (f : DriverState → DriverState) (s : Session K) : Session K :=
  s <| s_state := f (s_state s) |>.
Definition SetPhysicalWriteStage (stage : Z) : Session K → Session K :=
  on_state (λ d, d <| ds_last_stage := stage |>).
Definition SetPhysicalWriteResult (status : NTSTATUS) (transferred : Z) : Session K → Session K :=
  on_state (λ d, d <| ds_last_status := status |>
                   <| ds_last_transferred := Z.min transferred 0x7FFFFFFF |>).
Definition with_kernel (k : K) (s : Session K) : Session K := s <| s_kernel := k |>.

(** [WriteValidatedPhysicalRange]: the loop over pages; the status, the bytes
    transferred. *)
Fixpoint write_pages (fuel : nat) (current : Z) (input : list Z) (transferred : Z)
    (s : Session K) : NTSTATUS * Z * Session K :=
  match fuel with
  | O => (STATUS_INTERNAL_ERROR, transferred, s)
  | S fuel =>
      if sizeZ input =? 0 then (STATUS_SUCCESS, transferred, s)
      else
        let page_offset := Z.land current 0xFFF in
        let chunk := Z.min (sizeZ input) (KDBG_PAGE_SIZE - page_offset) in
        let s := SetPhysicalWriteStage STAGE_MAPPING s in
        match MmMapIoSpace current chunk (s_kernel s) with
        | (false, k) =>
            ((if transferred =? 0 then STATUS_INSUFFICIENT_RESOURCES else STATUS_PARTIAL_COPY),
             transferred, with_kernel k s)
        | (true, k) =>
            let s := SetPhysicalWriteStage STAGE_COPYING (with_kernel k s) in
            let '(copy_status, k) := CopyToMapping current (take (Z.to_nat chunk) input) (s_kernel s) in
            let s := with_kernel k s in
            if negb (NT_SUCCESS copy_status) then
              ((if transferred =? 0 then copy_status else STATUS_PARTIAL_COPY), transferred, s)
            else
              write_pages fuel (u64 (current + chunk)) (drop (Z.to_nat chunk) input)
                (transferred + chunk) s
        end
  end.
Definition WriteValidatedPhysicalRange (address : Z) (source : list Z) (s : Session K)
    : NTSTATUS * Z * Session K :=
  if (sizeZ source =? 0) || (KDBG_MAX_TRANSFER_SIZE <? sizeZ source) ||
     negb (IsPageBounded address (sizeZ source)) then (STATUS_INVALID_PARAMETER, 0, s)
  else write_pages (Z.to_nat (sizeZ source / KDBG_PAGE_SIZE + 3)) address source 0 s.

Definition ReadProcessMemory (process address length : Z) (k : K) : NTSTATUS * list Z * K :=
  if negb (IsUserRange address length k) then (STATUS_INVALID_PARAMETER, [], k)
  else MmCopyVirtual (Some process) address length k.

Definition WriteProcessMemory (process address : Z) (source : list Z) (k : K)
    : NTSTATUS * Z * K :=
  if (u32_max <? sizeZ source) || negb (IsUserRange address (sizeZ source) k) then
    (STATUS_INVALID_PARAMETER, 0, k)
  else
    match IoAllocateMdl address (sizeZ source) k with
    | (false, k) => (STATUS_INSUFFICIENT_RESOURCES, 0, k)
    | (true, k) =>
        let '(status, k) := MmProbeAndLockPages process address (sizeZ source) k in
        if NT_SUCCESS status then
          match MmGetSystemAddress k with
          | (false, k) => (STATUS_INSUFFICIENT_RESOURCES, 0, k)
          | (true, k) => (status, sizeZ source, CopyToMdl process address source k)
          end
        else (status, 0, k)
    end.

(** The process and its directory table base. *)
Definition ReferenceProcessCr3 (process_id : Z) (k : K) : NTSTATUS * Z * Z * K :=
  if process_id =? 0 then (STATUS_INVALID_PARAMETER, 0, 0, k)
  else
    let '(status, process, k) := PsLookupProcess process_id k in
    if negb (NT_SUCCESS status) then (status, 0, 0, k)
    else
      let cr3 := page_of (process_cr3 process k) in
      ((if cr3 =? 0 then STATUS_UNSUCCESSFUL else STATUS_SUCCESS), process, cr3, k).
End Driver.
