(* ===== verification/KernelDispatch.v ===== *)
(** [driver/KDbgDriver/Driver.cpp], continued: address translation, one handler per
    request code, and the dispatch routines. *)

From stdpp Require Import gmap.
From S2P Require Import Prelude CppStd Wire Common KernelDriver.

#[local] Open Scope Z_scope.

(** ** Address translation *)

Definition TRANSLATE_FLAG_LA57_ACTIVE : Z := 1.
Definition TRANSLATE_FLAG_LARGE_PAGE : Z := 2.
Definition TRANSLATE_FLAG_PRESENT : Z := 4.
Definition TRANSLATE_FLAG_PROCESS_CR3 : Z := 8.
Definition kPageMask : Z := 0x000FFFFFFFFFF000.

Record TranslationStepRecord := mkStep {
  step_level : Z; step_index : Z; step_address : Z; step_value : Z }.

Record TranslateResponse := mkTranslateResponse {
  tr_flags : Z;
  tr_paging_levels : Z;
  tr_requested_length : Z;
  tr_translated_length : Z;
  tr_directory_table_base : Z;
  tr_virtual_address : Z;
  tr_physical_address : Z;
  tr_page_size : Z;
  tr_page_offset : Z;
  tr_page_bytes : Z;
  tr_steps : list TranslationStepRecord
}.
#[export] Instance TranslateResponse_eta : Eta TranslateResponse := fun r =>
  mkTranslateResponse (tr_flags r) (tr_paging_levels r) (tr_requested_length r)
    (tr_translated_length r) (tr_directory_table_base r) (tr_virtual_address r)
    (tr_physical_address r) (tr_page_size r) (tr_page_offset r) (tr_page_bytes r) (tr_steps r).
Definition zero_response : TranslateResponse := mkTranslateResponse 0 0 0 0 0 0 0 0 0 0 [].

(** The leaf of a walk: the frame bits of the entry over the page offset. *)
Definition fill_leaf (page_size mask entry flags length : Z) (r : TranslateResponse)
    : TranslateResponse :=
  let offset := Z.land (tr_virtual_address r) (page_size - 1) in
  let bytes := page_size - offset in
  r <| tr_page_size := page_size |> <| tr_page_offset := offset |>
    <| tr_physical_address := Z.lor (Z.land entry mask) offset |>
    <| tr_flags := Z.lor (tr_flags r) flags |> <| tr_page_bytes := bytes |>
    <| tr_translated_length := Z.min length bytes |>.

(** Index shift and level of the five slots. *)
Definition kSlots : list (Z * Z) := [(48, 5); (39, 4); (30, 3); (21, 2); (12, 1)].

Section Driver.
Context {K : Type} `{Kernel K}.

Fixpoint walk_loop (ranges : list (Z * Z)) (slots : list (Z * Z)) (table length : Z)
    (r : TranslateResponse) (k : K) : NTSTATUS * TranslateResponse * K :=
  match slots with
  | [] => (STATUS_SUCCESS, r, k)
  | (shift, level) :: slots =>
      let index := Z.land (Z.shiftr (tr_virtual_address r) shift) 0x1FF in
      let entry_address := u64 (table + index * 8) in
      let '(status, entry, k) := ReadPhysicalU64 ranges entry_address k in
      if negb (NT_SUCCESS status) then (status, r, k)
      else if KDBG_MAX_TRANSLATION_STEPS <=? sizeZ (tr_steps r) then (STATUS_INTERNAL_ERROR, r, k)
      else
        let r := r <| tr_steps := tr_steps r ++ [mkStep level index entry_address entry] |> in
        let large := negb (Z.land entry (Z.shiftl 1 7) =? 0) in
        if Z.land entry 1 =? 0 then (STATUS_SUCCESS, r, k)
        else if (level =? 3) && large then
          if negb (Z.land entry 0x000000003FFFE000 =? 0) then (STATUS_INVALID_ADDRESS, r, k)
          else
            (STATUS_SUCCESS,
             fill_leaf 0x40000000 0x000FFFFFC0000000 entry
               (Z.lor TRANSLATE_FLAG_PRESENT TRANSLATE_FLAG_LARGE_PAGE) length r, k)
        else if (level =? 2) && large then
          if negb (Z.land entry 0x00000000001FE000 =? 0) then (STATUS_INVALID_ADDRESS, r, k)
          else
            (STATUS_SUCCESS,
             fill_leaf 0x200000 0x000FFFFFFFE00000 entry
               (Z.lor TRANSLATE_FLAG_PRESENT TRANSLATE_FLAG_LARGE_PAGE) length r, k)
        else if level =? 1 then
          (STATUS_SUCCESS, fill_leaf KDBG_PAGE_SIZE kPageMask entry TRANSLATE_FLAG_PRESENT length r, k)
        else walk_loop ranges slots (Z.land entry kPageMask) length r k
  end.

(** The request's fields. *)
Definition TranslateVirtual (size flags process_id length dtb0 va : Z) (k : K)
    : NTSTATUS * TranslateResponse * K :=
  if negb (size =? 32) || negb (flags =? 0) || (length =? 0) || (KDBG_MAX_TRANSFER_SIZE <? length) ||
     (negb (process_id =? 0) && negb (dtb0 =? 0)) || negb (Z.land dtb0 0xFFF =? 0) then
    (STATUS_INVALID_PARAMETER, zero_response, k)
  else
    let r := zero_response <| tr_virtual_address := va |> <| tr_requested_length := length |> in
    let dtb := page_of dtb0 in
    let '(status, dtb, r, k) :=
      if (dtb =? 0) && negb (process_id =? 0) then
        let '(status, _, cr3, k) := ReferenceProcessCr3 process_id k in
        (status, cr3, r <| tr_flags := TRANSLATE_FLAG_PROCESS_CR3 |>, k)
      else (STATUS_SUCCESS, dtb, r, k) in
    if negb (NT_SUCCESS status) then (status, r, k)
    else
      let dtb := if dtb =? 0 then page_of (read_cr3 k) else dtb in
      let la57 := la57_active k in
      if negb (IsCanonical va la57) then (STATUS_INVALID_ADDRESS, r, k)
      else
        let r := r <| tr_directory_table_base := dtb |>
                   <| tr_paging_levels := if la57 then 5 else 4 |>
                   <| tr_flags := if la57 then Z.lor (tr_flags r) TRANSLATE_FLAG_LA57_ACTIVE
                                  else tr_flags r |> in
        match MmGetPhysicalMemoryRanges k with
        | (None, k) => (STATUS_INSUFFICIENT_RESOURCES, r, k)
        | (Some ranges, k) =>
            walk_loop ranges (if la57 then kSlots else drop 1 kSlots) dtb length r k
        end.

Definition step_bytes (st : TranslationStepRecord) : list Z :=
  struct [(4, step_level st); (4, step_index st); (8, step_address st); (8, step_value st)].
Definition response_bytes (r : TranslateResponse) : list Z :=
  struct [(4, 192); (4, tr_flags r); (4, tr_paging_levels r); (4, sizeZ (tr_steps r));
          (4, tr_requested_length r); (4, tr_translated_length r);
          (8, tr_directory_table_base r); (8, tr_virtual_address r); (8, tr_physical_address r);
          (8, tr_page_size r); (8, tr_page_offset r); (8, tr_page_bytes r)] ++
  mjoin (step_bytes <$> tr_steps r) ++
  replicate (Z.to_nat (24 * (5 - sizeZ (tr_steps r)))) 0.

(** ** Handlers *)

Implicit Types s : Session K.

Definition set_gate (b : bool) (s : Session K) : Session K :=
  s <| s_context := (s_context s) <| fc_write_enabled := b |> |>.
Definition count_rejected : Session K → Session K :=
  on_state (λ d, d <| ds_rejected_writes := u64 (ds_rejected_writes d + 1) |>).
Definition count_read : Session K → Session K :=
  on_state (λ d, d <| ds_successful_reads := u64 (ds_successful_reads d + 1) |>).
Definition count_written : Session K → Session K :=
  on_state (λ d, d <| ds_successful_writes := u64 (ds_successful_writes d + 1) |>).

(** Close the gate and count the rejection. *)
Definition reject (s : Session K) : Session K := count_rejected (set_gate false s).
(** The same for a physical write, whose result is recorded. *)
Definition reject_physical (status : NTSTATUS) (s : Session K) : IoResult * Session K :=
  ((status, []), SetPhysicalWriteResult status 0 (reject s)).

(** [InterlockedCompareExchange(&WriteEnabled, 0, 1) == 1]: take the one-shot token. *)
Definition consume_gate (s : Session K) : bool * Session K :=
  (fc_write_enabled (s_context s), set_gate false s).

Definition handle_get_version (i : Irp) (s : Session K) : IoResult * Session K :=
  if no_buffer i || negb (input_length i =? 0) || negb (irp_output_length i =? 24) then
    ((STATUS_BUFFER_TOO_SMALL, []), s)
  else
    let flags := Z.lor 0x1EF (if la57_active (s_kernel s) then 0x10 else 0) in
    ((STATUS_SUCCESS,
      struct [(4, 24); (4, 7); (4, 1); (4, 1); (4, KDBG_MAX_TRANSFER_SIZE); (4, flags)]), s).

Definition handle_session_status (i : Irp) (s : Session K) : IoResult * Session K :=
  if no_buffer i || negb (input_length i =? 0) || negb (irp_output_length i =? 64) then
    ((STATUS_BUFFER_TOO_SMALL, []), s)
  else
    let d := s_state s in
    let flags := Z.lor (if ds_owner_pid d =? 0 then 0 else 1)
                       (if fc_write_enabled (s_context s) then 2 else 0) in
    ((STATUS_SUCCESS,
      struct [(4, 64); (4, flags); (4, ds_owner_pid d); (4, irp_pid i); (4, ds_open_handles d);
              (4, 0); (8, ds_successful_reads d); (8, ds_successful_writes d);
              (8, ds_rejected_writes d); (4, ds_last_status d); (4, ds_last_stage d);
              (4, ds_last_transferred d); (4, 0)]), s).

Definition handle_set_write_mode (i : Irp) (s : Session K) : IoResult * Session K :=
  if no_buffer i || negb (input_length i =? 16) || negb (irp_output_length i =? 0) then
    ((STATUS_BUFFER_TOO_SMALL, []), reject s)
  else
    let b := irp_input i in
    let enable := field b 4 4 in
    if negb (field b 0 4 =? 16) || (1 <? enable) || negb (field b 8 8 =? KDBG_WRITE_ACK_MAGIC) then
      ((STATUS_ACCESS_DENIED, []), reject s)
    else ((STATUS_SUCCESS, []), set_gate (negb (enable =? 0)) s).

(** The loop of GET_PHYSICAL_RANGES: merge adjacent ranges, refuse overlapping,
    unsorted or negative ones. *)
Fixpoint ranges_loop (ranges : list (Z * Z)) (total : Z) (out : list (Z * Z))
    : NTSTATUS * Z * list (Z * Z) :=
  match ranges with
  | [] => (STATUS_SUCCESS, total, out)
  | (b, n) :: ranges =>
      if (b =? 0) && (n =? 0) then (STATUS_SUCCESS, total, out)
      else if (b <? 0) || (n <? 0) then (STATUS_INTEGER_OVERFLOW, total, out)
      else if (n =? 0) || (u64_max - n <? b) || (u64_max - n <? total) then
        (STATUS_INTEGER_OVERFLOW, total, out)
      else
        let total := total + n in
        let append :=
          if KDBG_MAX_PHYSICAL_RANGES <=? sizeZ out then (STATUS_BUFFER_OVERFLOW, total, out)
          else ranges_loop ranges total (out ++ [(b, n)]) in
        match last out with
        | None => append
        | Some (pb, pn) =>
            if b <? pb + pn then (STATUS_INTEGER_OVERFLOW, total, out)
            else if b =? pb + pn then
              ranges_loop ranges total (removelast out ++ [(pb, pn + n)])
            else append
        end
  end.

Definition handle_get_physical_ranges (i : Irp) (s : Session K) : IoResult * Session K :=
  if no_buffer i || negb (input_length i =? 0) || negb (irp_output_length i =? 65560) then
    ((STATUS_BUFFER_TOO_SMALL, []), s)
  else
    match MmGetPhysicalMemoryRanges (s_kernel s) with
    | (None, k) => ((STATUS_INSUFFICIENT_RESOURCES, []), with_kernel k s)
    | (Some ranges, k) =>
        let s := with_kernel k s in
        match ranges_loop ranges 0 [] with
        | (status, total, out) =>
            if negb (status =? STATUS_SUCCESS) then ((status, []), s)
            else
              ((STATUS_SUCCESS,
                struct [(4, 65560); (4, 0); (4, sizeZ out); (4, 0); (8, total)] ++
                mjoin ((λ r, struct [(8, r.1); (8, r.2)]) <$> out) ++
                replicate (Z.to_nat (16 * (KDBG_MAX_PHYSICAL_RANGES - sizeZ out))) 0), s)
        end
    end.

Definition kReadHeader : Z := 24.
Definition handle_read_physical (i : Irp) (s : Session K) : IoResult * Session K :=
  let b := irp_input i in
  if no_buffer i || negb (input_length i =? kReadHeader) || (irp_output_length i <? kReadHeader) then
    ((STATUS_BUFFER_TOO_SMALL, []), s)
  else
    let length := field b 16 4 in
    if negb (field b 0 4 =? kReadHeader) || (length =? 0) || negb (field b 4 4 =? 0) ||
       negb (field b 20 4 =? 0) || (KDBG_MAX_TRANSFER_SIZE <? length) ||
       negb (bool_decide (CheckedAddUlong kReadHeader length = Some (irp_output_length i))) then
      ((STATUS_INVALID_PARAMETER, []), s)
    else
      let '(status, data, k) := ReadPhysical (field b 8 8) length (s_kernel s) in
      let s := with_kernel k s in
      let out := slice b 0 20 ++ le_bytes 4 (sizeZ data) ++ data in
      ((status, out), if NT_SUCCESS status && (sizeZ data =? length) then count_read s else s).

Definition kWriteHeader : Z := 32.
(** The physical write itself, once the request is accepted. *)
Definition write_physical (b : list Z) (address : Z) (data : list Z) (s : Session K)
    : IoResult * Session K :=
  match MmGetPhysicalMemoryRanges (s_kernel s) with
  | (None, k) => reject_physical STATUS_INSUFFICIENT_RESOURCES (with_kernel k s)
  | (Some ranges, k) =>
      let s := with_kernel k s in
      if negb (IsPhysicalRamRange ranges address (sizeZ data)) then
        reject_physical STATUS_CONFLICTING_ADDRESSES s
      else
        match consume_gate s with
        | (false, s) =>
            ((STATUS_ACCESS_DENIED, []), SetPhysicalWriteResult STATUS_ACCESS_DENIED 0 (count_rejected s))
        | (true, s) =>
            let '(status, written, s) := WriteValidatedPhysicalRange address data s in
            let out := slice b 0 20 ++ le_bytes 4 written ++ slice b 24 8 in
            if NT_SUCCESS status && (written =? sizeZ data) then
              let s := count_written (SetPhysicalWriteStage STAGE_COMPLETE s) in
              ((status, out), SetPhysicalWriteResult status written s)
            else
              let status := if NT_SUCCESS status then STATUS_PARTIAL_COPY else status in
              ((status, out), SetPhysicalWriteResult status written (reject s))
        end
  end.

Definition begin_physical (s : Session K) : Session K :=
  SetPhysicalWriteResult STATUS_PENDING 0 (SetPhysicalWriteStage STAGE_VALIDATION s).

Definition handle_write_physical (i : Irp) (s : Session K) : IoResult * Session K :=
  let s := begin_physical s in
  let b := irp_input i in
  if no_buffer i || (input_length i <? kWriteHeader) ||
     negb (irp_output_length i =? kWriteHeader) then reject_physical STATUS_BUFFER_TOO_SMALL s
  else
    let length := field b 16 4 in
    let address := field b 8 8 in
    if (length =? 0) ||
       negb (bool_decide (CheckedAddUlong kWriteHeader length = Some (field b 0 4))) ||
       negb (field b 4 4 =? 0) || negb (field b 20 4 =? 0) || (KDBG_MAX_TRANSFER_SIZE <? length) ||
       negb (bool_decide (CheckedAddUlong kWriteHeader length = Some (input_length i))) ||
       negb (IsPageBounded address length) then reject_physical STATUS_INVALID_PARAMETER s
    else if negb (field b 24 8 =? KDBG_WRITE_ACK_MAGIC) then
      reject_physical STATUS_ACCESS_DENIED s
    else write_physical b address (slice b kWriteHeader length) s.

(** ** The compare/write transaction *)

Definition kCompareWriteRequest : Z := 8232.
Definition kCompareWriteResponse : Z := 4136.

Definition FillPhysicalPageTransactionResponse (result address transferred mismatch : Z)
    (status : NTSTATUS) (transaction_id : Z) (readback : list Z) : list Z :=
  struct [(4, kCompareWriteResponse); (4, result); (8, address); (4, KDBG_PAGE_SIZE);
          (4, transferred); (4, mismatch); (4, status); (8, transaction_id)] ++ readback.

(** A read of the page that is not complete. *)
Definition read_failure (status : NTSTATUS) : NTSTATUS :=
  if NT_SUCCESS status then STATUS_PARTIAL_COPY else status.

(** Write the desired page and read it back. *)
Definition write_and_verify (ranges : list (Z * Z)) (address transaction_id : Z)
    (desired : list Z) (s : Session K) : IoResult * Session K :=
  let '(write_status, written, s) := WriteValidatedPhysicalRange address desired s in
  let s := SetPhysicalWriteStage STAGE_READBACK s in
  let '(status, readback, k) :=
    ReadPhysicalWithSnapshot ranges address KDBG_PAGE_SIZE (s_kernel s) in
  let s := with_kernel k s in
  if negb (NT_SUCCESS status) || negb (sizeZ readback =? KDBG_PAGE_SIZE) then
    ((read_failure status, []), SetPhysicalWriteResult (read_failure status) written (count_rejected s))
  else
    let mismatch := FirstMismatchOffset readback desired in
    let applied := NT_SUCCESS write_status && (written =? KDBG_PAGE_SIZE) &&
                   (mismatch =? KDBG_PHYSICAL_PAGE_NO_MISMATCH) in
    let outcome_status :=
      if applied then STATUS_SUCCESS
      else if NT_SUCCESS write_status then STATUS_DATA_ERROR else write_status in
    let result :=
      if applied then KDBG_PHYSICAL_PAGE_RESULT_APPLIED else KDBG_PHYSICAL_PAGE_RESULT_FAILED in
    let out := FillPhysicalPageTransactionResponse result address written mismatch outcome_status
                 transaction_id readback in
    let s := SetPhysicalWriteResult outcome_status written s in
    ((STATUS_SUCCESS, out),
     if applied then count_written (SetPhysicalWriteStage STAGE_COMPLETE s) else count_rejected s).

(** Compare the baseline under a fresh RAM snapshot, the gate consumed. *)
Definition compare_write (address transaction_id : Z) (expected desired : list Z) (s : Session K)
    : IoResult * Session K :=
  match MmGetPhysicalMemoryRanges (s_kernel s) with
  | (None, k) => reject_physical STATUS_INSUFFICIENT_RESOURCES (with_kernel k s)
  | (Some ranges, k) =>
      let s := with_kernel k s in
      if negb (IsPhysicalRamRange ranges address KDBG_PAGE_SIZE) then
        reject_physical STATUS_CONFLICTING_ADDRESSES s
      else
        match consume_gate s with
        | (false, s) =>
            ((STATUS_ACCESS_DENIED, []), SetPhysicalWriteResult STATUS_ACCESS_DENIED 0 (count_rejected s))
        | (true, s) =>
            let s := SetPhysicalWriteStage STAGE_COMPARING s in
            let '(status, readback, k) :=
              ReadPhysicalWithSnapshot ranges address KDBG_PAGE_SIZE (s_kernel s) in
            let s := with_kernel k s in
            if negb (NT_SUCCESS status) || negb (sizeZ readback =? KDBG_PAGE_SIZE) then
              ((read_failure status, []),
               SetPhysicalWriteResult (read_failure status) 0 (count_rejected s))
            else
              let mismatch := FirstMismatchOffset readback expected in
              if negb (mismatch =? KDBG_PHYSICAL_PAGE_NO_MISMATCH) then
                ((STATUS_SUCCESS,
                  FillPhysicalPageTransactionResponse KDBG_PHYSICAL_PAGE_RESULT_CONFLICT address 0
                    mismatch STATUS_REVISION_MISMATCH transaction_id readback),
                 count_rejected (SetPhysicalWriteResult STATUS_REVISION_MISMATCH 0 s))
              else write_and_verify ranges address transaction_id desired s
        end
  end.

Definition handle_compare_write (i : Irp) (s : Session K) : IoResult * Session K :=
  let s := begin_physical s in
  let b := irp_input i in
  if no_buffer i || negb (input_length i =? kCompareWriteRequest) ||
     negb (irp_output_length i =? kCompareWriteResponse) then
    reject_physical STATUS_BUFFER_TOO_SMALL s
  else if negb (field b 0 4 =? kCompareWriteRequest) || negb (field b 4 4 =? 0) ||
          negb (field b 16 4 =? KDBG_PAGE_SIZE) || negb (field b 20 4 =? 0) ||
          (field b 32 8 =? 0) || negb (Z.land (field b 8 8) (KDBG_PAGE_SIZE - 1) =? 0) then
    reject_physical STATUS_INVALID_PARAMETER s
  else if negb (field b 24 8 =? KDBG_WRITE_ACK_MAGIC) then
    reject_physical STATUS_ACCESS_DENIED s
  else
    match ExAllocatePool (s_kernel s) with
    | (false, k) => reject_physical STATUS_INSUFFICIENT_RESOURCES (with_kernel k s)
    | (true, k) =>
        compare_write (field b 8 8) (field b 32 8) (slice b 40 KDBG_PAGE_SIZE)
          (slice b 4136 KDBG_PAGE_SIZE) (with_kernel k s)
    end.

Definition handle_process_context (i : Irp) (s : Session K) : IoResult * Session K :=
  let b := irp_input i in
  if no_buffer i || negb (input_length i =? 8) || negb (irp_output_length i =? 32) then
    ((STATUS_BUFFER_TOO_SMALL, []), s)
  else
    let process_id := field b 4 4 in
    if negb (field b 0 4 =? 8) || (process_id =? 0) then ((STATUS_INVALID_PARAMETER, []), s)
    else
      let '(status, process, cr3, k) := ReferenceProcessCr3 process_id (s_kernel s) in
      let s := with_kernel k s in
      if NT_SUCCESS status then
        ((status, struct [(4, 32); (4, 1); (4, process_id); (4, 0); (8, process); (8, cr3)]), s)
      else ((status, []), s).

Definition handle_translate (i : Irp) (s : Session K) : IoResult * Session K :=
  let b := irp_input i in
  if no_buffer i || negb (input_length i =? 32) || negb (irp_output_length i =? 192) then
    ((STATUS_BUFFER_TOO_SMALL, []), s)
  else
    let '(status, r, k) :=
      TranslateVirtual (field b 0 4) (field b 4 4) (field b 8 4) (field b 12 4) (field b 16 8)
        (field b 24 8) (s_kernel s) in
    let s := with_kernel k s in
    if NT_SUCCESS status then ((status, response_bytes r), count_read s) else ((status, []), s).

Definition kProcessHeader : Z := 40.
Definition handle_read_process (i : Irp) (s : Session K) : IoResult * Session K :=
  let b := irp_input i in
  if no_buffer i || negb (input_length i =? kProcessHeader) ||
     (irp_output_length i <? kProcessHeader) then ((STATUS_BUFFER_TOO_SMALL, []), s)
  else
    let length := field b 12 4 in
    let address := field b 16 8 in
    if negb (field b 0 4 =? kProcessHeader) || (field b 8 4 =? 0) || negb (field b 4 4 =? 0) ||
       negb (field b 36 4 =? 0) || negb (field b 24 8 =? 0) || negb (field b 32 4 =? 0) ||
       (length =? 0) || (KDBG_MAX_TRANSFER_SIZE <? length) ||
       negb (IsUserRange address length (s_kernel s)) ||
       negb (bool_decide (CheckedAddUlong kProcessHeader length = Some (irp_output_length i))) then
      ((STATUS_INVALID_PARAMETER, []), s)
    else
      let '(status, process, k) := PsLookupProcess (field b 8 4) (s_kernel s) in
      if negb (NT_SUCCESS status) then ((status, []), with_kernel k s)
      else
        let '(status, data, k) := ReadProcessMemory process address length k in
        let s := with_kernel k s in
        let out := slice b 0 32 ++ le_bytes 4 (sizeZ data) ++ slice b 36 4 ++ data in
        if NT_SUCCESS status && (sizeZ data =? length) then ((status, out), count_read s)
        else (((if NT_SUCCESS status then STATUS_PARTIAL_COPY else status), out), s).

Definition handle_write_process (i : Irp) (s : Session K) : IoResult * Session K :=
  let b := irp_input i in
  if no_buffer i || (input_length i <? kProcessHeader) ||
     negb (irp_output_length i =? kProcessHeader) then ((STATUS_BUFFER_TOO_SMALL, []), reject s)
  else
    let length := field b 12 4 in
    let address := field b 16 8 in
    if (length =? 0) ||
       negb (bool_decide (CheckedAddUlong kProcessHeader length = Some (field b 0 4))) ||
       negb (field b 4 4 =? 0) || negb (field b 36 4 =? 0) || negb (field b 32 4 =? 0) ||
       (field b 8 4 =? 0) || (KDBG_MAX_TRANSFER_SIZE <? length) ||
       negb (IsUserRange address length (s_kernel s)) ||
       negb (bool_decide (CheckedAddUlong kProcessHeader length = Some (input_length i))) then
      ((STATUS_INVALID_PARAMETER, []), reject s)
    else if negb (field b 24 8 =? KDBG_WRITE_ACK_MAGIC) then ((STATUS_ACCESS_DENIED, []), reject s)
    else
      let '(status, process, k) := PsLookupProcess (field b 8 4) (s_kernel s) in
      let s := with_kernel k s in
      if negb (NT_SUCCESS status) then ((status, []), reject s)
      else
        match consume_gate s with
        | (false, s) => ((STATUS_ACCESS_DENIED, []), count_rejected s)
        | (true, s) =>
            let data := slice b kProcessHeader length in
            let '(status, copied, k) := WriteProcessMemory process address data (s_kernel s) in
            let s := with_kernel k s in
            let out := slice b 0 32 ++ le_bytes 4 copied ++ slice b 36 4 in
            if NT_SUCCESS status && (copied =? length) then ((status, out), count_written s)
            else (((if NT_SUCCESS status then STATUS_PARTIAL_COPY else status), out), reject s)
        end.

Definition handle_read_kernel (i : Irp) (s : Session K) : IoResult * Session K :=
  let b := irp_input i in
  if no_buffer i || negb (input_length i =? kReadHeader) || (irp_output_length i <? kReadHeader) then
    ((STATUS_BUFFER_TOO_SMALL, []), s)
  else
    let length := field b 16 4 in
    if negb (field b 0 4 =? kReadHeader) || negb (field b 4 4 =? 0) || negb (field b 20 4 =? 0) ||
       (length =? 0) || (KDBG_MAX_TRANSFER_SIZE <? length) ||
       negb (IsKernelRange (field b 8 8) length (s_kernel s)) ||
       negb (bool_decide (CheckedAddUlong kReadHeader length = Some (irp_output_length i))) then
      ((STATUS_INVALID_PARAMETER, []), s)
    else
      let '(status, data, k) := MmCopyVirtual None (field b 8 8) length (s_kernel s) in
      let s := with_kernel k s in
      let out := slice b 0 20 ++ le_bytes 4 (sizeZ data) ++ data in
      if NT_SUCCESS status && (sizeZ data =? length) then ((status, out), count_read s)
      else (((if NT_SUCCESS status then STATUS_PARTIAL_COPY else status), out), s).

(** The switch on the code. *)
Definition handle (i : Irp) (s : Session K) : IoResult * Session K :=
  let code := irp_code i in
  if code =? IOCTL_GET_VERSION then handle_get_version i s
  else if code =? IOCTL_GET_SESSION_STATUS then handle_session_status i s
  else if code =? IOCTL_SET_WRITE_MODE then handle_set_write_mode i s
  else if code =? IOCTL_GET_PHYSICAL_RANGES then handle_get_physical_ranges i s
  else if code =? IOCTL_READ_PHYSICAL then handle_read_physical i s
  else if code =? IOCTL_WRITE_PHYSICAL then handle_write_physical i s
  else if code =? IOCTL_COMPARE_WRITE_PHYSICAL_PAGE then handle_compare_write i s
  else if code =? IOCTL_GET_PROCESS_CONTEXT then handle_process_context i s
  else if code =? IOCTL_TRANSLATE_VIRTUAL then handle_translate i s
  else if code =? IOCTL_READ_PROCESS_MEMORY then handle_read_process i s
  else if code =? IOCTL_WRITE_PROCESS_MEMORY then handle_write_process i s
  else if code =? IOCTL_READ_KERNEL_VIRTUAL then handle_read_kernel i s
  else ((STATUS_INVALID_DEVICE_REQUEST, []), s).

(** ** Dispatch *)

(** The driver with its file objects. *)
Record World := mkWorld {
  w_state : DriverState;
  w_contexts : gmap Z FileContext;
  w_kernel : K
}.

Definition write_code (code : Z) : bool :=
  (code =? IOCTL_SET_WRITE_MODE) || (code =? IOCTL_WRITE_PHYSICAL) ||
  (code =? IOCTL_COMPARE_WRITE_PHYSICAL_PAGE) || (code =? IOCTL_WRITE_PROCESS_MEMORY).

Definition IsControllerContext (context : option FileContext) (i : Irp) : bool :=
  match context with
  | None => false
  | Some c =>
      negb (fc_cleaned_up c) && (fc_owner_process c =? irp_process i) &&
      (fc_owner_pid c =? irp_pid i)
  end.

(** Run a step on a file's context. *)
Definition on_session (file : Z) (c : FileContext) (w : World)
    (f : Session K → IoResult * Session K) : IoResult * World :=
  let '(r, s) := f (mkSession (w_state w) c (w_kernel w)) in
  (r, mkWorld (s_state s) (<[file := s_context s]> (w_contexts w)) (s_kernel s)).

Definition DispatchDeviceControl (i : Irp) (w : World) : IoResult * World :=
  let context := w_contexts w !! irp_file i in
  if negb (IsControllerContext context i) then
    match context with
    | Some c =>
        if write_code (irp_code i) then
          on_session (irp_file i) c w (λ s, ((STATUS_ACCESS_DENIED, []), reject s))
        else ((STATUS_ACCESS_DENIED, []), w)
    | None => ((STATUS_ACCESS_DENIED, []), w)
    end
  else
    match context with
    | Some c => on_session (irp_file i) c w (handle i)
    | None => ((STATUS_ACCESS_DENIED, []), w)
    end.

Definition DispatchCreate (file process process_id : Z) (w : World) : IoResult * World :=
  match ExAllocatePool (w_kernel w) with
  | (false, k) => ((STATUS_INSUFFICIENT_RESOURCES, []), mkWorld (w_state w) (w_contexts w) k)
  | (true, k) =>
      let d := w_state w in
      if match ds_owner_process d with Some p => negb (p =? process) | None => false end then
        ((STATUS_SHARING_VIOLATION, []), mkWorld d (w_contexts w) k)
      else
        let d := d <| ds_owner_process := Some process |> <| ds_owner_pid := process_id |>
                   <| ds_open_handles := ds_open_handles d + 1 |> in
        ((STATUS_SUCCESS, []),
         mkWorld d (<[file := mkFileContext false false process process_id]> (w_contexts w)) k)
  end.

Definition CleanupFileContext (c : FileContext) (d : DriverState) : FileContext * DriverState :=
  if fc_cleaned_up c then (c, d)
  else
    let c := c <| fc_cleaned_up := true |> <| fc_write_enabled := false |> in
    let handles := if 0 <? ds_open_handles d then ds_open_handles d - 1 else ds_open_handles d in
    let d := d <| ds_open_handles := handles |> in
    (c, if handles =? 0 then d <| ds_owner_pid := 0 |> <| ds_owner_process := None |> else d).

Definition DispatchCleanup (file : Z) (w : World) : IoResult * World :=
  match w_contexts w !! file with
  | None => ((STATUS_SUCCESS, []), w)
  | Some c =>
      let '(c, d) := CleanupFileContext c (w_state w) in
      ((STATUS_SUCCESS, []), mkWorld d (<[file := c]> (w_contexts w)) (w_kernel w))
  end.

Definition DispatchClose (file : Z) (w : World) : IoResult * World :=
  match w_contexts w !! file with
  | None => ((STATUS_SUCCESS, []), w)
  | Some c =>
      let '(_, d) := CleanupFileContext c (w_state w) in
      ((STATUS_SUCCESS, []), mkWorld d (delete file (w_contexts w)) (w_kernel w))
  end.

Definition initial_world (k : K) : World := mkWorld initial_state ∅ k.
End Driver.
Arguments World K : clear implicits.
