(* ===== verification/KernelOwner.v ===== *)
(** The handles of the kernel driver: a request does not change who owns a handle, and
    in every reachable state the live handles belong to one process, are counted, and
    no handle that was cleaned up has its write gate open. *)

From stdpp Require Import gmap.
From S2P Require Import Prelude CppStd Wire Common KernelDriver KernelDispatch.

#[local] Open Scope Z_scope.

Section Owner.
Context {K : Type} `{Kernel K}.
Implicit Types s : Session K.
Implicit Types w : World K.

(** What a request leaves alone: the owner fields of the driver and of the handle. *)
Definition identity (s : Session K) : option Z * Z * Z * (bool * Z * Z) :=
  (ds_owner_process (s_state s), ds_owner_pid (s_state s), ds_open_handles (s_state s),
   (fc_cleaned_up (s_context s), fc_owner_process (s_context s), fc_owner_pid (s_context s))).

Lemma write_pages_context fuel current input t s r s' :
  write_pages fuel current input t s = (r, s') →
  s_context s' = s_context s ∧ identity s' = identity s.
Proof.
  revert current input t s. induction fuel as [|fuel IH]; intros current input t s; cbn [write_pages].
  - by intros [= <- <-].
  - intros Hw. repeat split_hyp_match Hw; simplify_eq; try done.
    apply IH in Hw as [-> ->]. done.
Qed.

Lemma WriteValidatedPhysicalRange_context address source s r s' :
  WriteValidatedPhysicalRange address source s = (r, s') →
  s_context s' = s_context s ∧ identity s' = identity s.
Proof.
  unfold WriteValidatedPhysicalRange. destruct (_ || _ || _).
  - by intros [= <- <-].
  - intros Hw. by eapply write_pages_context.
Qed.

Lemma write_and_verify_identity ranges address id desired s r s' :
  write_and_verify ranges address id desired s = (r, s') → identity s' = identity s.
Proof.
  unfold write_and_verify. destruct (WriteValidatedPhysicalRange _ _ _) as [[??] s1] eqn:Hw.
  apply WriteValidatedPhysicalRange_context in Hw as [_ Hw]. rewrite <- Hw. clear Hw.
  intros Hr. repeat split_hyp_match Hr; by simplify_eq.
Qed.

Lemma handle_write_physical_identity i s r s' :
  handle_write_physical i s = (r, s') → identity s' = identity s.
Proof.
  unfold handle_write_physical, write_physical, reject_physical. intros Hh.
  destruct (MmGetPhysicalMemoryRanges _) as [[ranges|] k].
  2: { repeat split_hyp_match Hh; by simplify_eq. }
  cbn [consume_gate] in Hh. destruct (WriteValidatedPhysicalRange _ _ _) as [[??] s1] eqn:Hw.
  apply WriteValidatedPhysicalRange_context in Hw as [_ Hw].
  repeat split_hyp_match Hh; simplify_eq; unfold identity; cbn; congruence.
Qed.

Lemma handle_compare_write_identity i s r s' :
  handle_compare_write i s = (r, s') → identity s' = identity s.
Proof.
  unfold handle_compare_write, compare_write, reject_physical. cbv zeta. intros Hh.
  do 3 (destruct (_ || _) in Hh at 1 || destruct (negb _) in Hh at 1; [by simplify_eq|]).
  destruct (ExAllocatePool _) as [[] k0]; [|by simplify_eq].
  destruct (MmGetPhysicalMemoryRanges _) as [[ranges|] k]; [|by simplify_eq].
  destruct (negb _); [by simplify_eq|]. cbn [consume_gate] in Hh.
  destruct (fc_write_enabled _); [|by simplify_eq].
  destruct (ReadPhysicalWithSnapshot _ _ _ _) as [[??] ?].
  destruct (_ || _); [by simplify_eq|]. destruct (negb _); [by simplify_eq|].
  by apply write_and_verify_identity in Hh.
Qed.

Lemma handle_identity i s r s' : handle i s = (r, s') → identity s' = identity s.
Proof.
  unfold handle. intros Hh.
  repeat match type of Hh with (if ?b then _ else _) = _ => destruct b end;
    eauto using handle_write_physical_identity, handle_compare_write_identity.
  all: unfold handle_get_version, handle_session_status, handle_set_write_mode,
    handle_get_physical_ranges, handle_read_physical, handle_process_context, handle_translate,
    handle_read_process, handle_write_process, handle_read_kernel in Hh; cbn [consume_gate] in Hh.
  all: repeat split_hyp_match Hh; by simplify_eq.
Qed.

(** ** The reachable states *)

(** One operation of the I/O manager: it opens a file object that is not open yet. *)
Inductive driver_step : World K → World K → Prop :=
| step_create file process process_id w r w' :
    w_contexts w !! file = None →
    DispatchCreate file process process_id w = (r, w') → driver_step w w'
| step_control i w r w' : DispatchDeviceControl i w = (r, w') → driver_step w w'
| step_cleanup file w r w' : DispatchCleanup file w = (r, w') → driver_step w w'
| step_close file w r w' : DispatchClose file w = (r, w') → driver_step w w'.

Definition live (m : gmap Z FileContext) : gmap Z FileContext :=
  filter (λ p, fc_cleaned_up p.2 = false) m.

Record owned w : Prop := {
  owned_single : ∀ file c, live (w_contexts w) !! file = Some c →
    ds_owner_process (w_state w) = Some (fc_owner_process c);
  owned_closed : ∀ file c, w_contexts w !! file = Some c → fc_cleaned_up c = true →
    fc_write_enabled c = false;
  owned_count : ds_open_handles (w_state w) = Z.of_nat (size (live (w_contexts w)));
  owned_none : ds_owner_process (w_state w) = None ↔ ds_open_handles (w_state w) = 0
}.

Lemma live_lookup m file c :
  live m !! file = Some c ↔ m !! file = Some c ∧ fc_cleaned_up c = false.
Proof. apply map_lookup_filter_Some. Qed.

(** Replacing a context by one with the same life keeps the number of live ones. *)
Lemma live_insert_same m file c c' :
  m !! file = Some c → fc_cleaned_up c' = fc_cleaned_up c →
  size (live (<[file := c']> m)) = size (live m).
Proof.
  intros Hc He. unfold live. rewrite map_filter_insert. cbn. destruct (decide _) as [Hl|Hl].
  - apply map_size_insert_Some. exists c. apply live_lookup. split; [done|congruence].
  - rewrite map_filter_delete. f_equal. apply delete_id.
    apply map_lookup_filter_None. right. intros c0 Hc0. simplify_eq. cbn. congruence.
Qed.

(** A step that keeps the owner fields and the life of one context. *)
Lemma owned_update w file c c' d k :
  owned w → w_contexts w !! file = Some c →
  ds_owner_process d = ds_owner_process (w_state w) →
  ds_open_handles d = ds_open_handles (w_state w) →
  fc_cleaned_up c' = fc_cleaned_up c → fc_owner_process c' = fc_owner_process c →
  (fc_cleaned_up c = true → fc_write_enabled c' = false) →
  owned (mkWorld d (<[file := c']> (w_contexts w)) k).
Proof.
  intros [Hs Hc Hn Ho] Hl Hp Hh Hlife Hown Hgate. split; cbn [w_state w_contexts].
  - intros f cf Hf. rewrite Hp. apply live_lookup in Hf as [Hf Hlive].
    apply lookup_insert_Some in Hf as [[-> <-] | [Hne Hf]].
    + rewrite Hown. apply (Hs f). apply live_lookup. split; [done|congruence].
    + apply (Hs f). by apply live_lookup.
  - intros f cf Hf Hdead. apply lookup_insert_Some in Hf as [[-> <-] | [Hne Hf]].
    + apply Hgate. congruence.
    + by apply (Hc f).
  - rewrite Hh, Hn. by rewrite (live_insert_same _ _ c).
  - by rewrite Hp, Hh.
Qed.

Lemma control_owned i w r w' : owned w → DispatchDeviceControl i w = (r, w') → owned w'.
Proof.
  intros Hw. unfold DispatchDeviceControl, on_session.
  destruct (w_contexts w !! irp_file i) as [c|] eqn:Hc.
  2: { by intros [= <- <-]. }
  destruct (IsControllerContext _ _) eqn:Hctl; cbn [negb].
  - destruct (handle _ _) as [r0 s'] eqn:Hh. intros [= <- <-].
    apply handle_identity in Hh. injection Hh as Hp Hi Hn Hl Hown Hpid.
    eapply owned_update; [done..|]. cbn in Hctl. apply andb_true_iff in Hctl as [Hctl _].
    apply andb_true_iff in Hctl as [Hctl _]. intros Hdead. by rewrite Hdead in Hctl.
  - destruct (write_code _); intros [= <- <-]; [|done]. by eapply owned_update.
Qed.

Lemma create_owned file process process_id w r w' :
  owned w → w_contexts w !! file = None →
  DispatchCreate file process process_id w = (r, w') → owned w'.
Proof.
  intros [Hs Hc Hn Ho] Hf. unfold DispatchCreate. destruct (ExAllocatePool _) as [[] k].
  2: { by intros [= <- <-]. }
  destruct (match ds_owner_process _ with Some _ => _ | None => _ end) eqn:Hother.
  { by intros [= <- <-]. }
  intros [= <- <-]. split; cbn.
  - intros f c Hl. apply live_lookup in Hl as [Hl Hlive].
    apply lookup_insert_Some in Hl as [[-> <-] | [Hne Hl]]; [done|].
    assert (ds_owner_process (w_state w) = Some (fc_owner_process c)) as He
      by (apply (Hs f); by apply live_lookup).
    rewrite He in Hother. apply negb_false_iff, Z.eqb_eq in Hother. by f_equal.
  - intros f c Hl Hdead. apply lookup_insert_Some in Hl as [[-> <-] | [Hne Hl]]; [done|].
    by apply (Hc f).
  - unfold live. rewrite map_filter_insert_True by done. rewrite map_size_insert_None.
    + rewrite Hn. unfold live. lia.
    + apply map_lookup_filter_None. by left.
  - split; [done|]. rewrite Hn. lia.
Qed.

(** The map after a cleanup or a close: its live handles are the others. *)
Definition without (m m' : gmap Z FileContext) (file : Z) (c : FileContext) : Prop :=
  m' = <[file := c]> m ∨ m' = delete file m.

Lemma cleanup_live w file c c' d m :
  owned w → w_contexts w !! file = Some c → CleanupFileContext c (w_state w) = (c', d) →
  without (w_contexts w) m file c' →
  live m = delete file (live (w_contexts w)) ∧ fc_cleaned_up c' = true ∧
  fc_write_enabled c' = false.
Proof.
  intros [Hs Hc Hn Ho] Hl Hclean Hm.
  assert (fc_cleaned_up c' = true ∧ fc_write_enabled c' = false) as [Hdead Hgate].
  { unfold CleanupFileContext in Hclean. destruct (fc_cleaned_up c) eqn:Hd.
    - injection Hclean as <- <-. split; [done|by apply (Hc file)].
    - by injection Hclean as <- <-. }
  split; [|done]. unfold live. destruct Hm as [-> | ->].
  - rewrite map_filter_insert_False by (cbn; congruence). apply map_filter_delete.
  - apply map_filter_delete.
Qed.

Lemma cleanup_count w file c c' d :
  owned w → w_contexts w !! file = Some c → CleanupFileContext c (w_state w) = (c', d) →
  ds_open_handles d = Z.of_nat (size (delete file (live (w_contexts w)))) ∧
  ds_owner_process d = if ds_open_handles d =? 0 then None else ds_owner_process (w_state w).
Proof.
  intros [Hs Hc Hn Ho] Hl Hclean. unfold CleanupFileContext in Hclean.
  destruct (fc_cleaned_up c) eqn:Hd.
  - injection Hclean as <- <-. rewrite delete_id.
    + split; [done|]. destruct (Z.eqb_spec (ds_open_handles (w_state w)) 0); [|done]. by apply Ho.
    + apply map_lookup_filter_None. right. intros c0 Hc0. simplify_eq. cbn. congruence.
  - assert (live (w_contexts w) !! file = Some c) as Hin by (by apply live_lookup).
    pose proof (map_size_delete_Some file (live (w_contexts w)) (mk_is_Some _ _ Hin)) as Hsz.
    assert (size (live (w_contexts w)) ≠ 0%nat) as Hpos.
    { rewrite map_size_non_empty_iff. intros He. by rewrite He, lookup_empty in Hin. }
    injection Hclean as <- <-. destruct (Z.ltb_spec 0 (ds_open_handles (w_state w))); [|lia].
    destruct (Z.eqb_spec (ds_open_handles (w_state w) - 1) 0) as [He|He]; cbn.
    + split; [lia|]. by rewrite (proj2 (Z.eqb_eq _ _) He).
    + split; [lia|]. by rewrite (proj2 (Z.eqb_neq _ _) He).
Qed.

Lemma cleanup_owned file c c' d w k m :
  owned w → w_contexts w !! file = Some c → CleanupFileContext c (w_state w) = (c', d) →
  without (w_contexts w) m file c' → owned (mkWorld d m k).
Proof.
  intros Hw Hl Hclean Hm. destruct (cleanup_live _ _ _ _ _ _ Hw Hl Hclean Hm) as (Hlive & Hdead & Hgate).
  destruct (cleanup_count _ _ _ _ _ Hw Hl Hclean) as [Hh Hp]. destruct Hw as [Hs Hc Hn Ho].
  assert (ds_open_handles d = 0 → delete file (live (w_contexts w)) = ∅) as Hemp.
  { intros He. apply map_size_empty_inv. lia. }
  split; cbn [w_state w_contexts]; rewrite ?Hlive.
  - intros f cf Hf. pose proof Hf as Hf'. apply lookup_delete_Some in Hf' as [Hne Hf']. rewrite Hp.
    destruct (Z.eqb_spec (ds_open_handles d) 0) as [He|He]; [|by apply (Hs f)].
    by rewrite (Hemp He), lookup_empty in Hf.
  - intros f cf Hf Hcf. destruct Hm as [-> | ->].
    + apply lookup_insert_Some in Hf as [[-> <-] | [Hne Hf]]; [done|by apply (Hc f)].
    + apply lookup_delete_Some in Hf as [Hne Hf]. by apply (Hc f).
  - done.
  - rewrite Hp. destruct (Z.eqb_spec (ds_open_handles d) 0) as [He|He]; [done|].
    rewrite Ho. split; [|done]. intros Hz. exfalso. rewrite Hn in Hz.
    apply He. rewrite Hh. rewrite (map_size_empty_inv (live (w_contexts w))) by lia.
    by rewrite delete_empty, map_size_empty.
Qed.

Lemma step_owned w w' : driver_step w w' → owned w → owned w'.
Proof.
  intros [file p pid w0 r w1 Hf Hc | i w0 r w1 Hc | file w0 r w1 Hc | file w0 r w1 Hc] Hw.
  - by eapply create_owned.
  - by eapply control_owned.
  - unfold DispatchCleanup in Hc. destruct (_ !! file) as [c|] eqn:Hl; [|by simplify_eq].
    destruct (CleanupFileContext _ _) as [c' d] eqn:Hd. injection Hc as <- <-.
    eapply cleanup_owned; [done..|]. by left.
  - unfold DispatchClose in Hc. destruct (_ !! file) as [c|] eqn:Hl; [|by simplify_eq].
    destruct (CleanupFileContext _ _) as [c' d] eqn:Hd. injection Hc as <- <-.
    eapply cleanup_owned; [done..|]. by right.
Qed.

Lemma initial_owned k : owned (initial_world k).
Proof.
  split; cbn.
  - intros f c Hc. by rewrite live_lookup, lookup_empty in Hc; destruct Hc.
  - intros f c Hc. by rewrite lookup_empty in Hc.
  - unfold live. by rewrite map_filter_empty, map_size_empty.
  - done.
Qed.

Lemma reachable_owned w w' : rtc driver_step w w' → owned w → owned w'.
Proof. induction 1; eauto using step_owned. Qed.

(** [C7] In every state the driver can reach, all live handles belong to the process
    recorded as the owner, the handle count is the number of live handles, there is
    no owner exactly when the count is 0, and a handle that was cleaned up has its
    write gate closed; while a handle is live, an open by another process fails and
    creates no handle. *)
Theorem driver_single_owner k w :
  rtc driver_step (initial_world k) w →
  owned w ∧
  ∀ file c file' process pid r w',
    live (w_contexts w) !! file = Some c → process ≠ fc_owner_process c →
    DispatchCreate file' process pid w = (r, w') →
    NT_SUCCESS r.1 = false ∧ w_contexts w' = w_contexts w.
Proof.
  intros Hr. pose proof (reachable_owned _ _ Hr (initial_owned k)) as Hw.
  split; [done|]. intros file c file' process pid r w' Hl Hne. unfold DispatchCreate.
  destruct (ExAllocatePool _) as [[] k']; [|by intros [= <- <-]].
  rewrite (owned_single _ Hw _ _ Hl). destruct (Z.eqb_spec (fc_owner_process c) process) as [He|He].
  - by rewrite He in Hne.
  - by intros [= <- <-].
Qed.
End Owner.
