(* ===== verification/KernelGate.v ===== *)
(** The write gate of the kernel driver.

    [Logged K] is the kernel [K] with a record of the stores the driver asks it for;
    the theorem holds for every kernel, whatever its services answer. *)

From stdpp Require Import gmap.
From S2P Require Import Prelude CppStd Wire Common X64PageTable KernelDriver KernelDispatch KernelOwner.

#[local] Open Scope Z_scope.

(** ** One page *)

Lemma page_of_spec a : is_u64 a → page_of a = a - a `mod` 4096.
Proof.
  intros Ha. unfold page_of.
  change (Z.lxor u64_max 4095) with (Z.shiftl (Z.ones 52) 12). rewrite land_field by lia.
  unfold is_u64 in Ha. change (2 ^ 12) with 4096. change (2 ^ 52) with 4503599627370496.
  rewrite (Z.mod_small (a `div` 4096)) by (split; [apply Z.div_pos | apply Z.div_lt_upper_bound]; lia).
  pose proof (Z.div_mod a 4096). lia.
Qed.

Lemma IsPageBounded_spec a n :
  0 ≤ a → IsPageBounded a n = true → 0 ≤ n → 0 < n ∧ a + n ≤ u64_max ∧ a `mod` 4096 + n ≤ 4096.
Proof.
  intros Ha. unfold IsPageBounded, CheckedEnd. destruct (Z.eqb_spec n 0); [done|].
  destruct (Z.ltb_spec (u64_max - n) a); [done|]. rewrite Z.eqb_eq. intros Hp Hn.
  rewrite !page_of_spec in Hp by (unfold is_u64 in *; lia).
  pose proof (Z.mod_pos_bound (a + n - 1) 4096). lia.
Qed.

Lemma page_bounded a : 0 ≤ a → a + KDBG_PAGE_SIZE ≤ u64_max → Z.land a (KDBG_PAGE_SIZE - 1) = 0 →
  IsPageBounded a KDBG_PAGE_SIZE = true.
Proof.
  unfold KDBG_PAGE_SIZE. intros Ha Hmax Hal. change (0x1000 - 1) with (Z.ones 12) in Hal.
  rewrite Z.land_ones in Hal by lia. change (2 ^ 12) with 4096 in Hal.
  unfold IsPageBounded, CheckedEnd. destruct (Z.ltb_spec (u64_max - 0x1000) a); [lia|].
  cbn [Z.eqb]. rewrite !page_of_spec by (unfold is_u64; lia). apply Z.eqb_eq.
  replace ((a + 0x1000 - 1) `mod` 4096) with 4095; [lia|].
  apply (Z.mod_unique _ _ (a `div` 4096)); [lia|]. pose proof (Z.div_mod a 4096). lia.
Qed.

Lemma ram_range_spec ranges a n :
  IsPhysicalRamRange ranges a n = true → 0 ≤ a ∧ a + n ≤ u64_max.
Proof.
  unfold IsPhysicalRamRange, CheckedEnd. destruct (n =? 0); [done|].
  destruct (Z.ltb_spec (u64_max - n) a); [done|].
  induction ranges as [|[b m] ranges IH]; cbn; [done|]. destruct (_ && _); [done|].
  destruct (_ || _); [done|]. destruct (_ && _) eqn:Hb; [|done]. intros _.
  boolify. pose proof (u64_range b) as Hu. unfold is_u64 in Hu. lia.
Qed.

Section Single.
Context {K : Type} `{Kernel K}.

(** A range inside one page is written by one mapping and one copy. *)
Lemma WriteValidatedPhysicalRange_single a source (s : Session K) :
  0 ≤ a → IsPageBounded a (sizeZ source) = true → sizeZ source ≤ KDBG_MAX_TRANSFER_SIZE →
  WriteValidatedPhysicalRange a source s =
    let s1 := SetPhysicalWriteStage STAGE_MAPPING s in
    match MmMapIoSpace a (sizeZ source) (s_kernel s1) with
    | (false, k) => (STATUS_INSUFFICIENT_RESOURCES, 0, with_kernel k s1)
    | (true, k) =>
        let s2 := SetPhysicalWriteStage STAGE_COPYING (with_kernel k s1) in
        let '(status, k) := CopyToMapping a source k in
        (if NT_SUCCESS status then (STATUS_SUCCESS, sizeZ source, with_kernel k s2)
         else (status, 0, with_kernel k s2))
    end.
Proof.
  intros Ha Hb Hmax. pose proof (sizeZ_nonneg source) as Hn.
  destruct (IsPageBounded_spec _ _ Ha Hb Hn) as (Hpos & _ & Hfit).
  unfold WriteValidatedPhysicalRange. rewrite Hb. cbn [negb].
  rewrite (proj2 (Z.eqb_neq _ _)), (proj2 (Z.ltb_ge _ _)) by lia. cbn [orb].
  replace (Z.to_nat (sizeZ source / KDBG_PAGE_SIZE + 3))
    with (S (S (Z.to_nat (sizeZ source / KDBG_PAGE_SIZE + 1)))).
  2: { pose proof (Z.div_pos (sizeZ source) KDBG_PAGE_SIZE Hn). unfold KDBG_PAGE_SIZE in *. lia. }
  set (fuel := Z.to_nat _). cbn [write_pages].
  rewrite (proj2 (Z.eqb_neq (sizeZ source) 0)) by lia.
  change 0xFFF with (Z.ones 12). rewrite Z.land_ones by lia.
  rewrite Z.min_l by (unfold KDBG_PAGE_SIZE; change (2 ^ 12) with 4096; lia).
  destruct (MmMapIoSpace _ _ _) as [[] k]; [|done].
  unfold sizeZ at 1 3. rewrite Nat2Z.id, take_ge, drop_ge by lia.
  cbn [s_kernel with_kernel SetPhysicalWriteStage on_state].
  destruct (CopyToMapping a source _) as [status k'].
  destruct (NT_SUCCESS status); done.
Qed.
End Single.

(** ** The stores of a request *)

Inductive Store :=
| StorePhysical (address : Z) (data : list Z)
| StoreProcess (process address : Z) (data : list Z).

Definition Logged (K : Type) : Type := K * list Store.

(** A service that stores nothing. *)
Definition keep {A K} (r : A * K) (log : list Store) : A * Logged K := (r.1, (r.2, log)).

#[export] Instance Logged_Kernel K `{Kernel K} : Kernel (Logged K) := {|
  read_cr3 k := read_cr3 k.1;
  read_cr4 k := read_cr4 k.1;
  MmHighestUserAddress k := MmHighestUserAddress k.1;
  ExAllocatePool k := keep (ExAllocatePool k.1) k.2;
  MmGetPhysicalMemoryRanges k := keep (MmGetPhysicalMemoryRanges k.1) k.2;
  MmCopyPhysical a n k := keep (MmCopyPhysical a n k.1) k.2;
  MmCopyVirtual p a n k := keep (MmCopyVirtual p a n k.1) k.2;
  MmMapIoSpace a n k := keep (MmMapIoSpace a n k.1) k.2;
  CopyToMapping a bs k := keep (CopyToMapping a bs k.1) (k.2 ++ [StorePhysical a bs]);
  PsLookupProcess p k := keep (PsLookupProcess p k.1) k.2;
  process_cr3 p k := process_cr3 p k.1;
  IoAllocateMdl a n k := keep (IoAllocateMdl a n k.1) k.2;
  MmProbeAndLockPages p a n k := keep (MmProbeAndLockPages p a n k.1) k.2;
  MmGetSystemAddress k := keep (MmGetSystemAddress k.1) k.2;
  CopyToMdl p a bs k := (CopyToMdl p a bs k.1, k.2 ++ [StoreProcess p a bs])
|}.

Section Gate.
Context {K : Type} `{Kernel K}.
Implicit Types s : Session (Logged K).
Implicit Types w : World (Logged K).
Implicit Types k : Logged K.

Definition klog (s : Session (Logged K)) : list Store := (s_kernel s).2.

Lemma keep_log {A} (r : A * K) log a k : keep r log = (a, k) → k.2 = log.
Proof. by intros [= _ <-]. Qed.

Lemma ReadPhysicalWithSnapshot_log ranges a n k r k' :
  ReadPhysicalWithSnapshot ranges a n k = (r, k') → k'.2 = k.2.
Proof.
  unfold ReadPhysicalWithSnapshot. repeat split_goal_match; by intros [= <- <-].
Qed.
Lemma ReadPhysical_log a n k r k' : ReadPhysical a n k = (r, k') → k'.2 = k.2.
Proof.
  unfold ReadPhysical. destruct (MmGetPhysicalMemoryRanges k) as [[ranges|] k1] eqn:E.
  - apply keep_log in E. rewrite <- E. apply ReadPhysicalWithSnapshot_log.
  - apply keep_log in E. by intros [= <- <-].
Qed.
Lemma ReadPhysicalU64_log ranges a k r k' : ReadPhysicalU64 ranges a k = (r, k') → k'.2 = k.2.
Proof.
  unfold ReadPhysicalU64. destruct (ReadPhysicalWithSnapshot _ _ _ _) as [[??] ?] eqn:E.
  apply ReadPhysicalWithSnapshot_log in E. destruct (negb _); by intros [= <- <-].
Qed.
Lemma walk_loop_log ranges slots table n r k x k' :
  walk_loop ranges slots table n r k = (x, k') → k'.2 = k.2.
Proof.
  revert table r k. induction slots as [|[shift level] slots IH]; intros table r k; cbn [walk_loop].
  - by intros [= <- <-].
  - destruct (ReadPhysicalU64 _ _ _) as [[??] k1] eqn:E. apply ReadPhysicalU64_log in E.
    rewrite <- E. intros Hw. repeat split_hyp_match Hw; try (by injection Hw as <- <-).
    by apply IH in Hw.
Qed.
Lemma ReferenceProcessCr3_log p k r k' : ReferenceProcessCr3 p k = (r, k') → k'.2 = k.2.
Proof.
  unfold ReferenceProcessCr3. destruct (p =? 0); [by intros [= <- <-]|].
  destruct (PsLookupProcess p k) as [[??] k1] eqn:E. apply keep_log in E.
  destruct (negb _); by intros [= <- <-].
Qed.
Lemma TranslateVirtual_log size flags p n dtb va k r k' :
  TranslateVirtual size flags p n dtb va k = (r, k') → k'.2 = k.2.
Proof.
  unfold TranslateVirtual. cbv zeta. destruct (_ || _) at 1; [by intros [= <- <-]|].
  destruct (if _ && _ then _ else _) as [[[status d] r0] k0] eqn:E.
  assert (k0.2 = k.2) as <-.
  { destruct (_ && _) in E; [|by simplify_eq].
    destruct (ReferenceProcessCr3 _ _) as [[[??]?]?] eqn:E1. apply ReferenceProcessCr3_log in E1.
    by simplify_eq. }
  clear E. destruct (negb (NT_SUCCESS _)); [by intros [= <- <-]|].
  destruct (negb (IsCanonical _ _)); [by intros [= <- <-]|].
  destruct (MmGetPhysicalMemoryRanges _) as [[ranges|] k1] eqn:E; apply keep_log in E; rewrite <- E.
  - apply walk_loop_log.
  - by intros [= <- <-].
Qed.
(** The request opens the gate. *)
Definition opens (i : Irp) : Prop :=
  irp_code i = IOCTL_SET_WRITE_MODE ∧ field (irp_input i) 8 8 = KDBG_WRITE_ACK_MAGIC ∧
  field (irp_input i) 4 4 = 1.

(** The store a write request asks for; a physical one stays in one page. *)
Definition requested (i : Irp) (st : Store) : Prop :=
  let b := irp_input i in
  match st with
  | StorePhysical a data =>
      a = field b 8 8 ∧ 0 < sizeZ data ∧ a `mod` 4096 + sizeZ data ≤ 4096 ∧
      ((irp_code i = IOCTL_WRITE_PHYSICAL ∧ data = slice b kWriteHeader (field b 16 4)) ∨
       (irp_code i = IOCTL_COMPARE_WRITE_PHYSICAL_PAGE ∧ data = slice b 4136 KDBG_PAGE_SIZE))
  | StoreProcess _ a data =>
      irp_code i = IOCTL_WRITE_PROCESS_MEMORY ∧ a = field b 16 8 ∧
      data = slice b kProcessHeader (field b 12 4)
  end.

(** At most one store, through an open gate, acknowledged and as requested. *)
Definition authorised (i : Irp) (gate : bool) (stores : list Store) : Prop :=
  stores = [] ∨
  ∃ st, stores = [st] ∧ gate = true ∧ field (irp_input i) 24 8 = KDBG_WRITE_ACK_MAGIC ∧
    requested i st.

(** The effect of a write request on a session. *)
Definition gate_effect (i : Irp) (s s' : Session (Logged K)) : Prop :=
  (fc_write_enabled (s_context s') = true → opens i) ∧
  ∃ stores, klog s' = klog s ++ stores ∧ authorised i (fc_write_enabled (s_context s)) stores.

(** A request that stores nothing and leaves the gate closed. *)
Lemma rejected_effect i s s' :
  fc_write_enabled (s_context s') = false → klog s' = klog s → gate_effect i s s'.
Proof.
  intros Hg Hl. split; [congruence|]. exists []. rewrite app_nil_r. split; [done|by left].
Qed.

(** A request that made its store and closed the gate. *)
Lemma stored_effect i s s' st :
  fc_write_enabled (s_context s') = false → klog s' = klog s ∨ klog s' = klog s ++ [st] →
  fc_write_enabled (s_context s) = true → field (irp_input i) 24 8 = KDBG_WRITE_ACK_MAGIC →
  requested i st → gate_effect i s s'.
Proof.
  intros Hg [Hl|Hl] Ho Ha Hr; [by apply rejected_effect|]. split; [congruence|].
  exists [st]. split; [done|]. right. by exists st.
Qed.

Lemma handle_set_write_mode_gate i s r s' :
  irp_code i = IOCTL_SET_WRITE_MODE → handle_set_write_mode i s = (r, s') → gate_effect i s s'.
Proof.
  intros Hcode. unfold handle_set_write_mode. cbv zeta.
  destruct (no_buffer i || _ || _); [intros [= <- <-]; by apply rejected_effect|].
  destruct (_ || _) eqn:Hc; [intros [= <- <-]; by apply rejected_effect|].
  intros [= <- <-]. boolify. split.
  - cbn. rewrite negb_true_iff, Z.eqb_neq. intros He. split; [done|]. split; [done|].
    pose proof (le_value_range (slice (irp_input i) 4 4)). unfold field in *. lia.
  - exists []. rewrite app_nil_r. split; [done|by left].
Qed.

(** One physical store inside a page. *)
Lemma physical_write_log a source s r s' :
  0 ≤ a → IsPageBounded a (sizeZ source) = true → sizeZ source ≤ KDBG_MAX_TRANSFER_SIZE →
  WriteValidatedPhysicalRange a source s = (r, s') →
  klog s' = klog s ∨ klog s' = klog s ++ [StorePhysical a source].
Proof.
  intros Ha Hb Hm. rewrite (WriteValidatedPhysicalRange_single a source s Ha Hb Hm). cbv zeta.
  destruct (MmMapIoSpace _ _ _) as [[] k] eqn:E; apply keep_log in E.
  - destruct (CopyToMapping a source k) as [status k'] eqn:E'. apply keep_log in E'.
    intros Hr. right. destruct (NT_SUCCESS _); injection Hr as <- <-;
      unfold klog; cbn; by rewrite E', E.
  - intros [= <- <-]. by left.
Qed.

Lemma data_size (b : list Z) header length :
  0 ≤ header → CheckedAddUlong header length = Some (sizeZ b) → 0 ≤ length →
  sizeZ (slice b header length) = length.
Proof.
  unfold CheckedAddUlong. destruct (_ <? _); [done|]. intros Hh [= He] Hl. apply sizeZ_slice; lia.
Qed.

Lemma write_physical_gate i b a data s r s' :
  IsPageBounded a (sizeZ data) = true → sizeZ data ≤ KDBG_MAX_TRANSFER_SIZE →
  field (irp_input i) 24 8 = KDBG_WRITE_ACK_MAGIC →
  (0 ≤ a → requested i (StorePhysical a data)) →
  write_physical b a data s = (r, s') → gate_effect i s s'.
Proof.
  intros Hb Hm Hack Hreq. unfold write_physical, reject_physical.
  destruct (MmGetPhysicalMemoryRanges _) as [[ranges|] k] eqn:Hk; apply keep_log in Hk.
  2: { intros [= <- <-]. by apply rejected_effect. }
  destruct (IsPhysicalRamRange _ _ _) eqn:Hram; cbn [negb];
    [|intros [= <- <-]; by apply rejected_effect].
  apply ram_range_spec in Hram as [Ha _]. cbn [consume_gate].
  destruct (fc_write_enabled _) eqn:Hg; [|intros [= <- <-]; by apply rejected_effect].
  destruct (WriteValidatedPhysicalRange _ _ _) as [[status written] s1] eqn:Hw.
  pose proof (WriteValidatedPhysicalRange_context _ _ _ _ _ Hw) as [Hctx _].
  apply physical_write_log in Hw; [|done..].
  assert (klog s1 = klog s ∨ klog s1 = klog s ++ [StorePhysical a data]) as Hlog.
  { unfold klog in *. cbn in Hw. by rewrite Hk in Hw. }
  clear Hw Hk. intros Hr.
  apply (stored_effect _ _ _ (StorePhysical a data)); [| |exact Hg|done|by apply Hreq].
  - destruct (_ && _) in Hr; injection Hr as <- <-; cbn; [by rewrite Hctx|done].
  - destruct (_ && _) in Hr; injection Hr as <- <-; exact Hlog.
Qed.

Lemma handle_write_physical_gate i s r s' :
  irp_code i = IOCTL_WRITE_PHYSICAL → handle_write_physical i s = (r, s') → gate_effect i s s'.
Proof.
  intros Hcode. unfold handle_write_physical, reject_physical. cbv zeta.
  destruct (no_buffer i || _ || _) eqn:Hsz; [intros [= <- <-]; by apply rejected_effect|].
  match goal with |- (if ?b then _ else _) = _ → _ => destruct b eqn:Hreq end;
    [intros [= <- <-]; by apply rejected_effect|].
  match goal with |- (if ?b then _ else _) = _ → _ => destruct b eqn:Hack end;
    [intros [= <- <-]; by apply rejected_effect|].
  boolify. pose proof (le_value_range (slice (irp_input i) 16 4)) as Hlen.
  assert (sizeZ (slice (irp_input i) kWriteHeader (field (irp_input i) 16 4)) =
          field (irp_input i) 16 4) as Hn.
  { apply data_size; [done|done|]. unfold field. lia. }
  intros Hr. change (gate_effect i (begin_physical s) s').
  eapply write_physical_gate; [| | | |exact Hr]; rewrite ?Hn; [done..|].
  intros Ha. destruct (IsPageBounded_spec (field (irp_input i) 8 8) (field (irp_input i) 16 4))
    as (Hpos & _ & Hfit); [done..|unfold field; lia|].
  cbn [requested]. rewrite Hn. split_and!; [done..|]. by left.
Qed.

Lemma write_and_verify_gate ranges a id desired s r s' :
  0 ≤ a → IsPageBounded a (sizeZ desired) = true → sizeZ desired ≤ KDBG_MAX_TRANSFER_SIZE →
  write_and_verify ranges a id desired s = (r, s') →
  s_context s' = s_context s ∧
  (klog s' = klog s ∨ klog s' = klog s ++ [StorePhysical a desired]).
Proof.
  intros Ha Hb Hm. unfold write_and_verify. cbv zeta.
  destruct (WriteValidatedPhysicalRange _ _ _) as [[status written] s1] eqn:Hw.
  pose proof (WriteValidatedPhysicalRange_context _ _ _ _ _ Hw) as [Hctx _].
  apply physical_write_log in Hw; [|done..].
  destruct (ReadPhysicalWithSnapshot _ _ _ _) as [[st readback] k] eqn:Hk.
  apply ReadPhysicalWithSnapshot_log in Hk. cbn in Hk.
  assert (k.2 = klog s1) as Hk' by exact Hk. clear Hk. rewrite <- Hctx, <- Hk' in *.
  intros Hr. repeat split_hyp_match Hr; injection Hr as <- <-; exact (conj eq_refl Hw).
Qed.

Lemma compare_write_gate i a id expected desired s r s' :
  Z.land a (KDBG_PAGE_SIZE - 1) = 0 → sizeZ desired = KDBG_PAGE_SIZE →
  field (irp_input i) 24 8 = KDBG_WRITE_ACK_MAGIC →
  (0 ≤ a → requested i (StorePhysical a desired)) →
  compare_write a id expected desired s = (r, s') → gate_effect i s s'.
Proof.
  intros Hal Hn Hack Hreq. unfold compare_write, reject_physical. cbv zeta.
  destruct (MmGetPhysicalMemoryRanges _) as [[ranges|] k] eqn:Hk; apply keep_log in Hk.
  2: { intros [= <- <-]. by apply rejected_effect. }
  destruct (IsPhysicalRamRange _ _ _) eqn:Hram; cbn [negb];
    [|intros [= <- <-]; by apply rejected_effect].
  apply ram_range_spec in Hram as [Ha Hmax].
  pose proof (page_bounded a Ha Hmax Hal) as Hb. cbn [consume_gate].
  destruct (fc_write_enabled _) eqn:Hg; [|intros [= <- <-]; by apply rejected_effect].
  destruct (ReadPhysicalWithSnapshot _ _ _ _) as [[st readback] k'] eqn:Hk'.
  apply ReadPhysicalWithSnapshot_log in Hk'. cbn in Hk'.
  assert (k'.2 = klog s) as Hlog by (by rewrite Hk', Hk).
  destruct (negb _ || _); [intros [= <- <-]; by apply rejected_effect|].
  destruct (negb _); [intros [= <- <-]; by apply rejected_effect|].
  intros Hw. apply write_and_verify_gate in Hw as [Hctx Hw]; rewrite ?Hn; [|done..].
  apply (stored_effect _ _ _ (StorePhysical a desired)); [by rewrite Hctx| |exact Hg|done|by apply Hreq].
  unfold klog in *. cbn in Hw. by rewrite Hlog in Hw.
Qed.

Lemma handle_compare_write_gate i s r s' :
  irp_code i = IOCTL_COMPARE_WRITE_PHYSICAL_PAGE → handle_compare_write i s = (r, s') →
  gate_effect i s s'.
Proof.
  intros Hcode. unfold handle_compare_write, reject_physical. cbv zeta.
  destruct (no_buffer i || _ || _) eqn:Hsz; [intros [= <- <-]; by apply rejected_effect|].
  match goal with |- (if ?b then _ else _) = _ → _ => destruct b eqn:Hreq end;
    [intros [= <- <-]; by apply rejected_effect|].
  match goal with |- (if ?b then _ else _) = _ → _ => destruct b eqn:Hack end;
    [intros [= <- <-]; by apply rejected_effect|].
  destruct (ExAllocatePool _) as [[] k] eqn:Hk; apply keep_log in Hk;
    [|intros [= <- <-]; by apply rejected_effect].
  boolify. intros Hr. assert (klog (with_kernel k (begin_physical s)) = klog s) as Hlog by exact Hk.
  assert (sizeZ (slice (irp_input i) 4136 KDBG_PAGE_SIZE) = KDBG_PAGE_SIZE) as Hn.
  { apply sizeZ_slice; unfold input_length, kCompareWriteRequest, KDBG_PAGE_SIZE in *; lia. }
  unfold gate_effect. rewrite <- Hlog. change (gate_effect i (with_kernel k (begin_physical s)) s').
  eapply (compare_write_gate i); [| | | |exact Hr]; [done..|].
  intros Ha. cbn [requested]. rewrite Hn.
  match goal with E : Z.land (field _ 8 8) _ = 0 |- _ =>
    change (KDBG_PAGE_SIZE - 1) with (Z.ones 12) in E; rewrite Z.land_ones in E by lia;
    change (2 ^ 12) with 4096 in E; rewrite E end.
  split_and!; [done..|]. by right.
Qed.

Lemma WriteProcessMemory_log p a source k r k' :
  WriteProcessMemory p a source k = (r, k') →
  k'.2 = k.2 ∨ k'.2 = k.2 ++ [StoreProcess p a source].
Proof.
  unfold WriteProcessMemory. destruct (_ || _); [intros [= <- <-]; by left|].
  destruct (IoAllocateMdl _ _ _) as [[] k1] eqn:E1; apply keep_log in E1; [|intros [= <- <-]; by left].
  destruct (MmProbeAndLockPages _ _ _ _) as [status k2] eqn:E2. apply keep_log in E2.
  destruct (NT_SUCCESS status); [|intros [= <- <-]; left; congruence].
  destruct (MmGetSystemAddress _) as [[] k3] eqn:E3; apply keep_log in E3.
  - intros [= <- <-]. right. cbn. by rewrite E3, E2, E1.
  - intros [= <- <-]. left. congruence.
Qed.

Lemma handle_write_process_gate i s r s' :
  irp_code i = IOCTL_WRITE_PROCESS_MEMORY → handle_write_process i s = (r, s') →
  gate_effect i s s'.
Proof.
  intros Hcode. unfold handle_write_process. cbv zeta.
  destruct (no_buffer i || _ || _) eqn:Hsz; [intros [= <- <-]; by apply rejected_effect|].
  match goal with |- (if ?b then _ else _) = _ → _ => destruct b eqn:Hreq end;
    [intros [= <- <-]; by apply rejected_effect|].
  match goal with |- (if ?b then _ else _) = _ → _ => destruct b eqn:Hack end;
    [intros [= <- <-]; by apply rejected_effect|].
  destruct (PsLookupProcess _ _) as [[st process] k1] eqn:E1. apply keep_log in E1.
  destruct (negb (NT_SUCCESS st)); [intros [= <- <-]; by apply rejected_effect|].
  cbn [consume_gate]. destruct (fc_write_enabled _) eqn:Hg;
    [|intros [= <- <-]; by apply rejected_effect].
  destruct (WriteProcessMemory _ _ _ _) as [[status copied] k2] eqn:E2.
  apply WriteProcessMemory_log in E2. cbn in E2. rewrite E1 in E2.
  boolify. intros Hr.
  apply (stored_effect _ _ _ (StoreProcess process (field (irp_input i) 16 8)
           (slice (irp_input i) kProcessHeader (field (irp_input i) 12 4))));
    [| |exact Hg|done|done].
  - destruct (_ && _) in Hr; by injection Hr as <- <-.
  - destruct (_ && _) in Hr; injection Hr as <- <-; exact E2.
Qed.

Lemma ReadProcessMemory_log p a n k r k' : ReadProcessMemory p a n k = (r, k') → k'.2 = k.2.
Proof.
  unfold ReadProcessMemory. destruct (negb _); [by intros [= <- <-]|]. apply keep_log.
Qed.

(** Learn from every kernel call of the context that it stored nothing. *)
Ltac learn_logs :=
  repeat match goal with
  | E : ReadPhysical _ _ _ = (_, _) |- _ => apply ReadPhysical_log in E
  | E : ReferenceProcessCr3 _ _ = (_, _) |- _ => apply ReferenceProcessCr3_log in E
  | E : TranslateVirtual _ _ _ _ _ _ _ = (_, _) |- _ => apply TranslateVirtual_log in E
  | E : ReadProcessMemory _ _ _ _ = (_, _) |- _ => apply ReadProcessMemory_log in E
  | E : MmGetPhysicalMemoryRanges _ = (_, _) |- _ => apply keep_log in E
  | E : PsLookupProcess _ _ = (_, _) |- _ => apply keep_log in E
  | E : MmCopyVirtual _ _ _ _ = (_, _) |- _ => apply keep_log in E
  end.

(** A request that is not a write leaves the gate and stores nothing. *)
Lemma handle_read_quiet i s r s' :
  write_code (irp_code i) = false → handle i s = (r, s') →
  s_context s' = s_context s ∧ klog s' = klog s.
Proof.
  unfold write_code. rewrite !orb_false_iff. intros [[[Hm Hw] Hc] Hp]. unfold handle.
  rewrite Hm, Hw, Hc, Hp. clear Hm Hw Hc Hp.
  unfold handle_get_version, handle_session_status, handle_get_physical_ranges,
    handle_read_physical, handle_process_context, handle_translate, handle_read_process,
    handle_read_kernel. cbv zeta. intros Hr.
  repeat split_hyp_match Hr; injection Hr as <- <-; (split; [reflexivity|]); learn_logs;
    unfold klog; cbn in *; congruence.
Qed.

Lemma handle_gate i s r s' :
  write_code (irp_code i) = true → handle i s = (r, s') → gate_effect i s s'.
Proof.
  unfold write_code. rewrite !orb_true_iff, !Z.eqb_eq.
  intros [[[Hc|Hc]|Hc]|Hc]; unfold handle; rewrite Hc; cbn [Z.eqb Pos.eqb].
  - by apply handle_set_write_mode_gate.
  - by apply handle_write_physical_gate.
  - by apply handle_compare_write_gate.
  - by apply handle_write_process_gate.
Qed.

(** [C5] Whatever the kernel answers, one device-control request makes at most one
    store; it makes one only for the process that owns the live handle, with that
    handle's gate open and the write acknowledged, and it is the store the request
    describes, a physical one inside one page.  The gate of the handle is open
    afterwards only when the request opened it with the acknowledgement, or when it
    was open and the request is not a write: a write request consumes it.  Other
    handles are untouched. *)
Theorem write_gate i w r w' :
  DispatchDeviceControl i w = (r, w') →
  (∃ stores, (w_kernel w').2 = (w_kernel w).2 ++ stores ∧
    (stores = [] ∨
     ∃ c, w_contexts w !! irp_file i = Some c ∧ IsControllerContext (Some c) i = true ∧
       authorised i (fc_write_enabled c) stores)) ∧
  (∀ file, file ≠ irp_file i → w_contexts w' !! file = w_contexts w !! file) ∧
  (∀ c', w_contexts w' !! irp_file i = Some c' → fc_write_enabled c' = true →
    opens i ∨
    (write_code (irp_code i) = false ∧
     ∃ c, w_contexts w !! irp_file i = Some c ∧ fc_write_enabled c = true)).
Proof.
  unfold DispatchDeviceControl, on_session.
  destruct (w_contexts w !! irp_file i) as [c|] eqn:Hc.
  2: { intros [= <- <-]. split; [|split; [done|intros c' Hc'; congruence]].
       exists []. rewrite app_nil_r. split; [done|by left]. }
  destruct (IsControllerContext _ _) eqn:Hctl; cbn [negb].
  - destruct (handle _ _) as [r0 s'] eqn:Hh. intros [= <- <-]. cbn [w_kernel w_contexts].
    destruct (write_code (irp_code i)) eqn:Hcode.
    + apply handle_gate in Hh as [Hgate (stores & Hlog & Hauth)]; [|done].
      split; [exists stores; split; [done|]; right; by exists c|]. split.
      * intros file Hne. by rewrite lookup_insert_ne.
      * intros c'. rewrite lookup_insert_eq. intros [= <-] Hg. left. by apply Hgate.
    + apply handle_read_quiet in Hh as [Hctx Hlog]; [|done]. split.
      { exists []. rewrite app_nil_r. split; [done|by left]. }
      split; [intros file Hne; by rewrite lookup_insert_ne|].
      intros c'. rewrite lookup_insert_eq. intros [= <-] Hg. right. split; [done|].
      exists c. split; [done|]. by rewrite Hctx in Hg.
  - destruct (write_code _); intros [= <- <-]; cbn [w_kernel w_contexts]; split;
      [exists []; rewrite app_nil_r; split; [done|by left]| |
       exists []; rewrite app_nil_r; split; [done|by left]|].
    + split; [intros file Hne; by rewrite lookup_insert_ne|].
      intros c'. rewrite lookup_insert_eq. by intros [= <-] Hg.
    + split; [done|]. intros c' Hc' Hg. right. split; [done|]. exists c. split; congruence.
Qed.
End Gate.
