(* ===== verification/KernelCas.v ===== *)
(** The compare/write transaction of the kernel driver over the contents of physical
    memory: the answer says what the page held and what it holds now.

    A kernel whose services all succeed, over a memory that is a function; the
    driver's theorems at concrete requests. *)

From stdpp Require Import gmap.
From S2P Require Import Prelude CppStd Wire Common KernelDriver KernelDispatch KernelOwner KernelGate.

#[local] Open Scope Z_scope.

(** What the documented kernel services do to physical memory: [MmCopyMemory] returns
    what is there, a copy to a mapping changes the range it names, the others change
    nothing. *)
Class KernelSpec (K : Type) `{Kernel K} := {
  kmem : K → Z → Z;
  spec_pool k r k' : ExAllocatePool k = (r, k') → ∀ x, kmem k' x = kmem k x;
  spec_ranges k r k' : MmGetPhysicalMemoryRanges k = (r, k') → ∀ x, kmem k' x = kmem k x;
  spec_map a n k r k' : MmMapIoSpace a n k = (r, k') → ∀ x, kmem k' x = kmem k x;
  spec_copy a n k status bytes k' :
    MmCopyPhysical a n k = (status, bytes, k') →
    (∀ x, kmem k' x = kmem k x) ∧
    (NT_SUCCESS status = true → sizeZ bytes = n → bytes = mem_bytes (kmem k) a n);
  spec_store a bytes k status k' :
    CopyToMapping a bytes k = (status, k') →
    (∀ x, x < a ∨ a + sizeZ bytes ≤ x → kmem k' x = kmem k x) ∧
    (NT_SUCCESS status = true → mem_bytes (kmem k') a (sizeZ bytes) = bytes)
}.

Section Cas.
Context {K : Type} `{KernelSpec K}.
Implicit Types s : Session K.

Definition smem (s : Session K) : Z → Z := kmem (s_kernel s).
Definition page_at (s : Session K) (a : Z) : list Z := mem_bytes (smem s) a KDBG_PAGE_SIZE.
(** Two sessions whose memory differs at most in the page at [a]. *)
Definition same_outside (a : Z) (s s' : Session K) : Prop :=
  ∀ x, x < a ∨ a + KDBG_PAGE_SIZE ≤ x → smem s' x = smem s x.
Definition same_memory (s s' : Session K) : Prop := ∀ x, smem s' x = smem s x.

Lemma same_memory_page s s' a : same_memory s s' → page_at s' a = page_at s a.
Proof. intros Hm. apply mem_bytes_ext. intros. apply Hm. Qed.

Lemma FirstMismatch_none a b :
  sizeZ a = KDBG_PAGE_SIZE → sizeZ b = KDBG_PAGE_SIZE →
  FirstMismatchOffset a b = KDBG_PHYSICAL_PAGE_NO_MISMATCH ↔ a = b.
Proof.
  intros Ha Hb. unfold FirstMismatchOffset. destruct (first_mismatch a b) as [k|] eqn:E.
  - split.
    + intros ->. apply first_mismatch_Some in E as (Hk & _); [|congruence].
      unfold KDBG_PHYSICAL_PAGE_NO_MISMATCH, KDBG_PAGE_SIZE in *. lia.
    + intros <-. by rewrite (proj2 (first_mismatch_None a a eq_refl) eq_refl) in E.
  - split; [|done]. intros _. apply first_mismatch_None; [congruence|done].
Qed.

Lemma read_page_mem ranges a k status bytes k' :
  ReadPhysicalWithSnapshot ranges a KDBG_PAGE_SIZE k = (status, bytes, k') →
  (∀ x, kmem k' x = kmem k x) ∧
  (NT_SUCCESS status = true → sizeZ bytes = KDBG_PAGE_SIZE →
   bytes = mem_bytes (kmem k) a KDBG_PAGE_SIZE).
Proof.
  unfold ReadPhysicalWithSnapshot. destruct (_ || _); [by intros [= <- <- <-]|].
  destruct (negb _); [by intros [= <- <- <-]|]. apply spec_copy.
Qed.

(** The store of a page: on success the page holds it, on failure nothing is
    reported as written; the rest of memory is untouched. *)
Lemma write_page_mem a desired s status written s' :
  0 ≤ a → a + KDBG_PAGE_SIZE ≤ u64_max → Z.land a (KDBG_PAGE_SIZE - 1) = 0 →
  sizeZ desired = KDBG_PAGE_SIZE →
  WriteValidatedPhysicalRange a desired s = (status, written, s') →
  same_outside a s s' ∧
  (if NT_SUCCESS status then written = KDBG_PAGE_SIZE ∧ page_at s' a = desired else written = 0).
Proof.
  intros Ha Hmax Hal Hn. pose proof (page_bounded a Ha Hmax Hal) as Hb.
  rewrite WriteValidatedPhysicalRange_single; rewrite ?Hn; [|done..]. cbv zeta.
  destruct (MmMapIoSpace _ _ _) as [[] k] eqn:E; pose proof (spec_map _ _ _ _ _ E) as Hk.
  - destruct (CopyToMapping a desired k) as [st k'] eqn:E'. apply spec_store in E' as [Hout Hin].
    rewrite Hn in Hout, Hin. intros Hr.
    assert (same_outside a s (with_kernel k' s)) as Hs.
    { intros x Hx. unfold smem. cbn. rewrite (Hout x Hx). apply Hk. }
    destruct (NT_SUCCESS st) eqn:Hst; injection Hr as <- <- <-.
    + split; [exact Hs|]. split; [done|]. by apply Hin.
    + rewrite Hst. split; [exact Hs|done].
  - intros [= <- <- <-]. split; [|done]. intros x _. unfold smem. cbn. apply Hk.
Qed.

(** What an answer [out] with a result says of the transaction on the page at [a]. *)
Inductive cas_outcome (a id : Z) (expected desired : list Z) (s s' : Session K) (out : list Z)
    : Z → Prop :=
| cas_applied :
    page_at s a = expected → page_at s' a = desired → same_outside a s s' →
    out = FillPhysicalPageTransactionResponse KDBG_PHYSICAL_PAGE_RESULT_APPLIED a KDBG_PAGE_SIZE
            KDBG_PHYSICAL_PAGE_NO_MISMATCH STATUS_SUCCESS id desired →
    cas_outcome a id expected desired s s' out KDBG_PHYSICAL_PAGE_RESULT_APPLIED
| cas_conflict offset :
    first_mismatch (page_at s a) expected = Some offset → same_memory s s' →
    out = FillPhysicalPageTransactionResponse KDBG_PHYSICAL_PAGE_RESULT_CONFLICT a 0 offset
            STATUS_REVISION_MISMATCH id (page_at s a) →
    cas_outcome a id expected desired s s' out KDBG_PHYSICAL_PAGE_RESULT_CONFLICT
| cas_failed status :
    page_at s a = expected → same_outside a s s' → NT_SUCCESS status = false →
    out = FillPhysicalPageTransactionResponse KDBG_PHYSICAL_PAGE_RESULT_FAILED a 0
            (FirstMismatchOffset (page_at s' a) desired) status id (page_at s' a) →
    cas_outcome a id expected desired s s' out KDBG_PHYSICAL_PAGE_RESULT_FAILED.

(** Every service the transaction needs succeeds for the page at [a]. *)
Record reliable (a : Z) : Prop := {
  rel_pool k : (ExAllocatePool k).1 = true;
  rel_ram k : ∃ ranges, (MmGetPhysicalMemoryRanges k).1 = Some ranges ∧
    IsPhysicalRamRange ranges a KDBG_PAGE_SIZE = true;
  rel_read k : NT_SUCCESS (MmCopyPhysical a KDBG_PAGE_SIZE k).1.1 = true ∧
    sizeZ (MmCopyPhysical a KDBG_PAGE_SIZE k).1.2 = KDBG_PAGE_SIZE;
  rel_map k : (MmMapIoSpace a KDBG_PAGE_SIZE k).1 = true;
  rel_store bytes k : NT_SUCCESS (CopyToMapping a bytes k).1 = true
}.

Lemma read_failure_not_success status : read_failure status ≠ STATUS_SUCCESS.
Proof. unfold read_failure. destruct (NT_SUCCESS status) eqn:E; [done|]. intros ->. done. Qed.

Lemma reliable_read ranges a k :
  reliable a → IsPhysicalRamRange ranges a KDBG_PAGE_SIZE = true →
  ∃ status bytes k', ReadPhysicalWithSnapshot ranges a KDBG_PAGE_SIZE k = (status, bytes, k') ∧
    NT_SUCCESS status = true ∧ sizeZ bytes = KDBG_PAGE_SIZE.
Proof.
  intros Hr Hram. unfold ReadPhysicalWithSnapshot. rewrite Hram. cbn [negb].
  change ((KDBG_PAGE_SIZE =? 0) || (KDBG_MAX_TRANSFER_SIZE <? KDBG_PAGE_SIZE)) with false.
  destruct (rel_read a Hr k) as [Hst Hn].
  destruct (MmCopyPhysical _ _ _) as [[status bytes] k'].
  exists status, bytes, k'. exact (conj eq_refl (conj Hst Hn)).
Qed.

Lemma reliable_write a desired s status written s' :
  reliable a → 0 ≤ a → a + KDBG_PAGE_SIZE ≤ u64_max → Z.land a (KDBG_PAGE_SIZE - 1) = 0 →
  sizeZ desired = KDBG_PAGE_SIZE →
  WriteValidatedPhysicalRange a desired s = (status, written, s') → NT_SUCCESS status = true.
Proof.
  intros Hr Ha Hmax Hal Hn. pose proof (page_bounded a Ha Hmax Hal) as Hb.
  rewrite WriteValidatedPhysicalRange_single; rewrite ?Hn; [|done..]. cbv zeta.
  match goal with |- context [MmMapIoSpace a KDBG_PAGE_SIZE ?k] => pose proof (rel_map a Hr k) as Hm end.
  destruct (MmMapIoSpace _ _ _) as [mapped k]. cbn in Hm. subst mapped.
  pose proof (rel_store a Hr desired k) as Hs.
  destruct (CopyToMapping _ _ _) as [st k']. cbn in Hs. rewrite Hs. by intros [= <- <- <-].
Qed.

Section Page.
Context (a id : Z) (expected desired : list Z).
Context (Hal : Z.land a (KDBG_PAGE_SIZE - 1) = 0).
Context (Hexp : sizeZ expected = KDBG_PAGE_SIZE) (Hdes : sizeZ desired = KDBG_PAGE_SIZE).

Lemma write_and_verify_cas ranges s out s' :
  IsPhysicalRamRange ranges a KDBG_PAGE_SIZE = true → page_at s a = expected →
  write_and_verify ranges a id desired s = ((STATUS_SUCCESS, out), s') →
  ∃ result, cas_outcome a id expected desired s s' out result ∧
    (reliable a → result = KDBG_PHYSICAL_PAGE_RESULT_APPLIED).
Proof.
  intros [Ha Hmax]%ram_range_spec He. unfold write_and_verify. cbv zeta.
  destruct (WriteValidatedPhysicalRange _ _ _) as [[status written] s1] eqn:Hw.
  pose proof (λ Hr, reliable_write a desired s status written s1 Hr Ha Hmax Hal Hdes Hw) as Hrel.
  apply write_page_mem in Hw as [Hout Hin]; [|done..].
  destruct (ReadPhysicalWithSnapshot _ _ _ _) as [[st readback] k] eqn:Hk.
  apply read_page_mem in Hk as [Hk Hread]. cbn in Hk, Hread.
  destruct (negb (NT_SUCCESS st) || _) eqn:Hfull.
  { intros [= Hc _ _]. by apply read_failure_not_success in Hc. }
  boolify. specialize (Hread ltac:(done) ltac:(done)).
  assert (∀ sx : Session K, s_kernel sx = k → same_outside a s sx ∧ page_at sx a = readback) as Hsx.
  { intros sx Hkx. split.
    - intros x Hx. unfold smem. rewrite Hkx, Hk. by apply Hout.
    - rewrite Hread. apply mem_bytes_ext. intros j Hj. unfold smem. rewrite Hkx. apply Hk. }
  assert (readback = page_at s1 a) as Hrb by exact Hread. clear Hread.
  destruct (NT_SUCCESS status) eqn:Hst; cbn [andb].
  - destruct Hin as [-> Hpage]. rewrite Hpage in Hrb. subst readback.
    rewrite (proj2 (FirstMismatch_none desired desired Hdes Hdes) eq_refl). cbn [andb Z.eqb Pos.eqb KDBG_PAGE_SIZE KDBG_PHYSICAL_PAGE_NO_MISMATCH].
    intros [= <- <-]. exists KDBG_PHYSICAL_PAGE_RESULT_APPLIED. split; [|done].
    destruct (Hsx (with_kernel k s1) eq_refl) as [??]. by apply cas_applied.
  - intros [= <- <-]. exists KDBG_PHYSICAL_PAGE_RESULT_FAILED. split; [|intros Hr; by specialize (Hrel Hr)].
    destruct (Hsx (with_kernel k s1) eq_refl) as [Hs Hp].
    apply (cas_failed _ _ _ _ _ _ _ status); [done|exact Hs|done|]. subst written. rewrite <- Hp. reflexivity.
Qed.

Lemma write_and_verify_answers ranges s :
  reliable a → IsPhysicalRamRange ranges a KDBG_PAGE_SIZE = true →
  ∃ out s', write_and_verify ranges a id desired s = ((STATUS_SUCCESS, out), s').
Proof.
  intros Hr Hram. unfold write_and_verify. cbv zeta.
  destruct (WriteValidatedPhysicalRange _ _ _) as [[status written] s1].
  destruct (reliable_read ranges a (s_kernel (SetPhysicalWriteStage STAGE_READBACK s1)) Hr Hram)
    as (st & bytes & k' & -> & Hst & Hn).
  rewrite Hst, Hn, Z.eqb_refl. cbn [negb orb]. eauto.
Qed.

(** The result a reliable kernel leads to. *)
Definition cas_result (s : Session K) : Z :=
  if decide (page_at s a = expected) then KDBG_PHYSICAL_PAGE_RESULT_APPLIED
  else KDBG_PHYSICAL_PAGE_RESULT_CONFLICT.

Lemma cas_outcome_same s0 s s' out result :
  same_memory s0 s → cas_outcome a id expected desired s s' out result →
  cas_outcome a id expected desired s0 s' out result.
Proof.
  intros Hm. pose proof (same_memory_page _ _ a Hm) as Hp.
  intros [He Hd Ho Hx | offset Hf Hs Hx | status He Ho Hst Hx].
  - apply cas_applied; [congruence|done| |done]. intros x Hout. by rewrite Ho, Hm.
  - rewrite Hp in *. apply (cas_conflict _ _ _ _ _ _ _ offset); [done| |done].
    intros x. by rewrite Hs, Hm.
  - apply (cas_failed _ _ _ _ _ _ _ status); [congruence| |done|done]. intros x Hout. by rewrite Ho, Hm.
Qed.

Lemma compare_write_cas s out s' :
  compare_write a id expected desired s = ((STATUS_SUCCESS, out), s') →
  fc_write_enabled (s_context s) = true ∧
  ∃ result, cas_outcome a id expected desired s s' out result ∧
    (reliable a → result = cas_result s).
Proof.
  unfold compare_write, reject_physical. cbv zeta.
  destruct (MmGetPhysicalMemoryRanges _) as [[ranges|] k] eqn:E; [|done].
  pose proof (spec_ranges _ _ _ E) as Hk. clear E.
  destruct (IsPhysicalRamRange _ _ _) eqn:Hram; cbn [negb]; [|done].
  cbn [consume_gate]. destruct (fc_write_enabled _) eqn:Hg; [|done].
  intros Hr. split; [reflexivity|]. revert Hr.
  destruct (ReadPhysicalWithSnapshot _ _ _ _) as [[st readback] k'] eqn:E.
  apply read_page_mem in E as [Hk' Hread]. cbn in Hk', Hread.
  destruct (negb (NT_SUCCESS st) || _) eqn:Hfull.
  { intros [= Hc _ _]. by apply read_failure_not_success in Hc. }
  boolify. specialize (Hread ltac:(done) ltac:(done)).
  assert (readback = page_at s a) as Hpage.
  { rewrite Hread. apply mem_bytes_ext. intros. apply Hk. }
  assert (∀ sx : Session K, s_kernel sx = k' → same_memory s sx) as Hsx.
  { intros sx Hkx x. unfold smem. rewrite Hkx, Hk'. apply Hk. }
  clear Hread. subst readback. unfold cas_result.
  pose proof (FirstMismatch_none (page_at s a) expected ltac:(done) Hexp) as Hmis.
  destruct (Z.eqb_spec (FirstMismatchOffset (page_at s a) expected) KDBG_PHYSICAL_PAGE_NO_MISMATCH)
    as [He|He]; cbn [negb].
  - apply Hmis in He. intros Hw. rewrite decide_True by done.
    set (s1 := with_kernel k' _) in Hw. pose proof (Hsx s1 eq_refl) as Hs1.
    apply write_and_verify_cas in Hw as (result & Hout & Hres); [|done|].
    2: { by rewrite (same_memory_page _ _ a Hs1). }
    exists result. split; [by eapply cas_outcome_same|done].
  - intros [= <- <-]. exists KDBG_PHYSICAL_PAGE_RESULT_CONFLICT. split.
    + unfold FirstMismatchOffset in *. destruct (first_mismatch _ _) as [offset|] eqn:Hf; [|done].
      apply (cas_conflict _ _ _ _ _ _ _ offset); [done|by apply Hsx|done].
    + intros _. rewrite decide_False; [done|]. by rewrite <- Hmis.
Qed.

Lemma compare_write_answers s :
  reliable a → fc_write_enabled (s_context s) = true →
  ∃ out s', compare_write a id expected desired s = ((STATUS_SUCCESS, out), s').
Proof.
  intros Hr Hg. unfold compare_write. cbv zeta.
  destruct (rel_ram a Hr (s_kernel s)) as (ranges & Hsome & Hram).
  destruct (MmGetPhysicalMemoryRanges _) as [ranges' k]. cbn in Hsome. subst ranges'.
  rewrite Hram. cbn [negb consume_gate]. change (s_context (with_kernel k s)) with (s_context s).
  rewrite Hg. match goal with |- context [ReadPhysicalWithSnapshot ranges a _ ?k0] =>
    destruct (reliable_read ranges a k0 Hr Hram) as (st & bytes & k' & -> & Hst & Hn) end.
  rewrite Hst, Hn, Z.eqb_refl. cbn [negb orb]. destruct (negb _); [eauto|].
  by apply write_and_verify_answers.
Qed.
End Page.

(** A request the handler accepts. *)
Definition valid_request (i : Irp) : Prop :=
  let b := irp_input i in
  input_length i = kCompareWriteRequest ∧ irp_output_length i = kCompareWriteResponse ∧
  field b 0 4 = kCompareWriteRequest ∧ field b 4 4 = 0 ∧ field b 16 4 = KDBG_PAGE_SIZE ∧
  field b 20 4 = 0 ∧ field b 32 8 ≠ 0 ∧ Z.land (field b 8 8) (KDBG_PAGE_SIZE - 1) = 0 ∧
  field b 24 8 = KDBG_WRITE_ACK_MAGIC.

Lemma handle_compare_write_valid i s :
  valid_request i →
  handle_compare_write i s =
    match ExAllocatePool (s_kernel s) with
    | (false, k) => reject_physical STATUS_INSUFFICIENT_RESOURCES (with_kernel k (begin_physical s))
    | (true, k) =>
        compare_write (field (irp_input i) 8 8) (field (irp_input i) 32 8)
          (slice (irp_input i) 40 KDBG_PAGE_SIZE) (slice (irp_input i) 4136 KDBG_PAGE_SIZE)
          (with_kernel k (begin_physical s))
    end.
Proof.
  intros (Hi & Ho & F0 & F1 & F2 & F3 & F4 & F5 & F6). unfold handle_compare_write, no_buffer.
  cbv zeta. rewrite Hi, Ho, F0, F1, F2, F3, F5, F6. cbn [negb orb andb Z.eqb Pos.eqb].
  rewrite (proj2 (Z.eqb_neq _ _) F4). reflexivity.
Qed.

Lemma handle_compare_write_accepts i s out s' :
  handle_compare_write i s = ((STATUS_SUCCESS, out), s') → valid_request i.
Proof.
  unfold handle_compare_write, reject_physical. cbv zeta.
  destruct (no_buffer i || _ || _) eqn:Hsz; [done|].
  match goal with |- (if ?b then _ else _) = _ → _ => destruct b eqn:Hreq end; [done|].
  match goal with |- (if ?b then _ else _) = _ → _ => destruct b eqn:Hack end; [done|].
  intros _. boolify. by unfold valid_request.
Qed.

Lemma handle_compare_write_cas i s out s' :
  handle_compare_write i s = ((STATUS_SUCCESS, out), s') →
  fc_write_enabled (s_context s) = true ∧ valid_request i ∧
  ∃ result, cas_outcome (field (irp_input i) 8 8) (field (irp_input i) 32 8)
      (slice (irp_input i) 40 KDBG_PAGE_SIZE) (slice (irp_input i) 4136 KDBG_PAGE_SIZE)
      s s' out result ∧
    (reliable (field (irp_input i) 8 8) →
     result = cas_result (field (irp_input i) 8 8) (slice (irp_input i) 40 KDBG_PAGE_SIZE) s).
Proof.
  intros Hh. pose proof (handle_compare_write_accepts _ _ _ _ Hh) as Hv.
  rewrite (handle_compare_write_valid _ _ Hv) in Hh. pose proof Hv as Hv'.
  destruct Hv' as (Hi & _ & _ & _ & _ & _ & _ & Hal & _). unfold input_length in Hi.
  destruct (ExAllocatePool _) as [[] k] eqn:E; [|done]. pose proof (spec_pool _ _ _ E) as Hk.
  assert (same_memory s (with_kernel k (begin_physical s))) as Hm by exact Hk.
  apply compare_write_cas in Hh as (Hg & result & Ho & Hres); [|done| |].
  2-3: apply sizeZ_slice; rewrite ?Hi; done.
  split; [exact Hg|]. split; [done|]. exists result. split; [by eapply cas_outcome_same|].
  intros Hr. rewrite (Hres Hr). unfold cas_result.
  by rewrite (same_memory_page _ _ _ Hm).
Qed.

(** A request through a closed gate fails and leaves memory as it is; one that is
    reported as successful has the status 0. *)
Lemma handle_compare_write_locked i s r s' :
  fc_write_enabled (s_context s) = false → handle_compare_write i s = (r, s') →
  NT_SUCCESS r.1 = false ∧ same_memory s s'.
Proof.
  intros Hg. unfold handle_compare_write, compare_write, reject_physical. cbv zeta.
  destruct (no_buffer i || _ || _); [by intros [= <- <-]|].
  match goal with |- (if ?b then _ else _) = _ → _ => destruct b end; [by intros [= <- <-]|].
  match goal with |- (if ?b then _ else _) = _ → _ => destruct b end; [by intros [= <- <-]|].
  destruct (ExAllocatePool _) as [ok k1] eqn:E1. pose proof (spec_pool _ _ _ E1) as Hk1.
  destruct ok; [|intros [= <- <-]; split; [done|exact Hk1]].
  destruct (MmGetPhysicalMemoryRanges _) as [ranges k2] eqn:E2.
  pose proof (spec_ranges _ _ _ E2) as Hk2.
  assert (∀ x, kmem k2 x = smem s x) as Hk by (intros x; rewrite Hk2; apply Hk1).
  destruct ranges as [ranges|]; [|intros [= <- <-]; split; [done|exact Hk]].
  destruct (negb _); [intros [= <- <-]; split; [done|exact Hk]|].
  cbn [consume_gate]. change (fc_write_enabled _) with (fc_write_enabled (s_context s)).
  rewrite Hg. intros [= <- <-]. split; [done|exact Hk].
Qed.

Lemma read_failure_fails status : NT_SUCCESS (read_failure status) = false.
Proof. unfold read_failure. by destruct (NT_SUCCESS status) eqn:E. Qed.

Lemma handle_compare_write_status i s r s' :
  handle_compare_write i s = (r, s') → NT_SUCCESS r.1 = true → r.1 = STATUS_SUCCESS.
Proof.
  unfold handle_compare_write, compare_write, write_and_verify, reject_physical. cbv zeta.
  intros Hr Hs. repeat split_hyp_match Hr; injection Hr as <- <-; cbn [fst] in *; try done;
    by rewrite read_failure_fails in Hs.
Qed.

Lemma handle_compare_write_answers i s :
  valid_request i → fc_write_enabled (s_context s) = true → reliable (field (irp_input i) 8 8) →
  ∃ out s', handle_compare_write i s = ((STATUS_SUCCESS, out), s').
Proof.
  intros Hv Hg Hr. rewrite (handle_compare_write_valid _ _ Hv).
  pose proof (rel_pool _ Hr (s_kernel s)) as Hp.
  destruct (ExAllocatePool _) as [ok k]. cbn in Hp. subst ok. by apply compare_write_answers.
Qed.

(** [C6] The compare/write request: when it succeeds, the gate was open and the
    request acknowledged, and the answer is true of memory: APPLIED when the page
    held the expected bytes and now holds the desired ones, CONFLICT with the first
    differing offset and the page as it is when it did not, memory unchanged, FAILED
    when the store failed, with the page read back; no other byte changes.  On a
    reliable kernel a valid request through an open gate is answered, with APPLIED
    exactly when the page held the expected bytes. *)
Theorem compare_write_exact i s :
  let b := irp_input i in
  let a := field b 8 8 in
  let expected := slice b 40 KDBG_PAGE_SIZE in
  let desired := slice b 4136 KDBG_PAGE_SIZE in
  let answers out s' result :=
    handle_compare_write i s = ((STATUS_SUCCESS, out), s') ∧
    cas_outcome a (field b 32 8) expected desired s s' out result in
  (∀ out s', handle_compare_write i s = ((STATUS_SUCCESS, out), s') →
    fc_write_enabled (s_context s) = true ∧ valid_request i ∧ ∃ result, answers out s' result) ∧
  (valid_request i → fc_write_enabled (s_context s) = true → reliable a →
    ∃ out s', answers out s' (cas_result a expected s)).
Proof.
  cbv zeta. split.
  - intros out s' Hh. destruct (handle_compare_write_cas _ _ _ _ Hh) as (Hg & Hv & result & Ho & _).
    eauto.
  - intros Hv Hg Hr. destruct (handle_compare_write_answers i s Hv Hg Hr) as (out & s' & Hh).
    destruct (handle_compare_write_cas _ _ _ _ Hh) as (_ & _ & result & Ho & Hres).
    exists out, s'. split; [done|]. by rewrite <- (Hres Hr).
Qed.
End Cas.

Record MockKernel := mkMockKernel { mk_memory : Z → Z }.
Definition mock_ranges : list (Z * Z) := [(0x1000, 0x10000); (0, 0)].

#[export] Instance MockKernel_Kernel : Kernel MockKernel := {|
  read_cr3 _ := 0x1000;
  read_cr4 _ := 0;
  MmHighestUserAddress _ := 0x7FFFFFFEFFFF;
  ExAllocatePool k := (true, k);
  MmGetPhysicalMemoryRanges k := (Some mock_ranges, k);
  MmCopyPhysical a n k := (STATUS_SUCCESS, mem_bytes (mk_memory k) a n, k);
  MmCopyVirtual _ a n k := (STATUS_SUCCESS, mem_bytes (mk_memory k) a n, k);
  MmMapIoSpace _ _ k := (true, k);
  CopyToMapping a bytes k :=
    (STATUS_SUCCESS, mkMockKernel (mem_store (mk_memory k) a bytes));
  PsLookupProcess p k := (STATUS_SUCCESS, p, k);
  process_cr3 _ _ := 0x1000;
  IoAllocateMdl _ _ k := (true, k);
  MmProbeAndLockPages _ _ _ k := (STATUS_SUCCESS, k);
  MmGetSystemAddress k := (true, k);
  CopyToMdl _ a bytes k := mkMockKernel (mem_store (mk_memory k) a bytes)
|}.

#[export] Instance MockKernel_Spec : KernelSpec MockKernel.
Proof.
  refine {| kmem := mk_memory |}.
  - by intros k r k' [= _ <-].
  - by intros k r k' [= _ <-].
  - by intros a n k r k' [= _ <-].
  - intros a n k st bytes k' [= <- <- <-]. done.
  - intros a bytes k st k' [= <- <-]. cbn. split.
    + intros x Hx. apply mem_store_outside. lia.
    + intros _. apply mem_bytes_store.
Defined.

Definition demo_kernel : MockKernel := mkMockKernel (λ _, 0).
Definition demo_context (gate : bool) : FileContext := mkFileContext gate false 77 7.
Definition demo_state : DriverState := initial_state <| ds_owner_process := Some 77 |>
  <| ds_owner_pid := 7 |> <| ds_open_handles := 1 |>.

(** ** One owner *)

Lemma driver_single_owner_witness :
  let w := (DispatchCreate 1 77 7 (initial_world demo_kernel)).2 in
  live (w_contexts w) !! 1 = Some (demo_context false) ∧
  NT_SUCCESS (DispatchCreate 2 78 8 w).1.1 = false.
Proof.
  intros w. assert (live (w_contexts w) !! 1 = Some (demo_context false)) as Hl by reflexivity.
  split; [exact Hl|].
  destruct (driver_single_owner demo_kernel w) as [_ Hx].
  - apply rtc_once. by apply (step_create 1 77 7 (initial_world demo_kernel) (STATUS_SUCCESS, [])).
  - assert (78 ≠ fc_owner_process (demo_context false)) as Hne by (cbn; lia).
    destruct (Hx 1 (demo_context false) 2 78 8 (DispatchCreate 2 78 8 w).1 (DispatchCreate 2 78 8 w).2
      Hl Hne (surjective_pairing _)) as [Hs _]. exact Hs.
Defined.

(** ** The gate *)

(** Write three bytes at 0x2010. *)
Definition demo_write : Irp :=
  mkIrp 1 77 7 IOCTL_WRITE_PHYSICAL
    (struct [(4, 35); (4, 0); (8, 0x2010); (4, 3); (4, 0); (8, KDBG_WRITE_ACK_MAGIC)] ++ [1; 2; 3])
    32.
Definition demo_world (gate : bool) : World (Logged MockKernel) :=
  mkWorld demo_state {[1 := demo_context gate]} (demo_kernel, []).

Lemma write_gate_witness :
  (w_kernel (DispatchDeviceControl demo_write (demo_world true)).2).2 =
    [StorePhysical 0x2010 [1; 2; 3]] ∧
  (w_kernel (DispatchDeviceControl demo_write (demo_world false)).2).2 = [] ∧
  ∃ c, w_contexts (demo_world true) !! 1 = Some c ∧
    authorised demo_write (fc_write_enabled c) [StorePhysical 0x2010 [1; 2; 3]].
Proof.
  assert ((w_kernel (DispatchDeviceControl demo_write (demo_world true)).2).2 =
    [StorePhysical 0x2010 [1; 2; 3]]) as Hlog by (vm_compute; reflexivity).
  split; [exact Hlog|]. split; [vm_compute; reflexivity|].
  destruct (write_gate demo_write (demo_world true)
    (DispatchDeviceControl demo_write (demo_world true)).1
    (DispatchDeviceControl demo_write (demo_world true)).2) as [(stores & Hs & Hx) _].
  - destruct (DispatchDeviceControl demo_write (demo_world true)); reflexivity.
  - rewrite Hlog in Hs. cbn [demo_world w_kernel snd app] in Hs. subst stores.
    destruct Hx as [Hx|(c & Hc & _ & Ha)]; [discriminate Hx|]. exists c. exact (conj Hc Ha).
Defined.

(** ** The transaction *)

Definition demo_desired : list Z := replicate 4096 7.
Definition demo_cas : Irp :=
  mkIrp 1 77 7 IOCTL_COMPARE_WRITE_PHYSICAL_PAGE
    (struct [(4, 8232); (4, 0); (8, 0x3000); (4, 4096); (4, 0); (8, KDBG_WRITE_ACK_MAGIC); (8, 9)] ++
     replicate 4096 0 ++ demo_desired) 4136.
Definition demo_session : Session MockKernel := mkSession demo_state (demo_context true) demo_kernel.

Lemma demo_cas_valid : valid_request demo_cas.
Proof. unfold valid_request. cbv zeta. split_and!; vm_compute; first [reflexivity | discriminate]. Qed.

Lemma demo_reliable : reliable (K := MockKernel) 0x3000.
Proof.
  split; try done.
  - intros k. exists mock_ranges. done.
Qed.

Lemma compare_write_exact_witness :
  ∃ out s', handle_compare_write demo_cas demo_session = ((STATUS_SUCCESS, out), s') ∧
    page_at s' 0x3000 = demo_desired.
Proof.
  destruct (compare_write_exact demo_cas demo_session) as [_ Hlive].
  assert (field (irp_input demo_cas) 8 8 = 0x3000) as Ha by (vm_compute; reflexivity).
  assert (slice (irp_input demo_cas) 4136 KDBG_PAGE_SIZE = demo_desired) as Hd by (vm_compute; reflexivity).
  assert (cas_result 0x3000 (slice (irp_input demo_cas) 40 KDBG_PAGE_SIZE) demo_session =
    KDBG_PHYSICAL_PAGE_RESULT_APPLIED) as Hres by (vm_compute; reflexivity).
  rewrite Ha in Hlive. rewrite Hd in Hlive. rewrite Hres in Hlive.
  destruct Hlive as (out & s' & Hh & Ho).
  - exact demo_cas_valid.
  - reflexivity.
  - exact demo_reliable.
  - exists out, s'. split; [exact Hh|]. by inversion Ho.
Defined.
