(* ===== verification/KDbgBackend.v ===== *)
(** [core/memory/KDbgBackend]: the client of the kernel driver.

    The device is a class: opening and closing a handle and [DeviceIoControl], which
    returns the last error or the bytes the driver put into the output buffer.  The
    mutex is not modelled; calls are sequential. *)

From S2P Require Import Prelude CppStd Wire Common X64PageTable KernelDriver MemoryBackend.

#[local] Open Scope Z_scope.

Class Device (D : Type) := {
  CreateFile : D → option Z * D;
  CloseHandle : D → D;
  DeviceIoControl : Z → list Z → Z → D → (Z + list Z) * D;
  GetCurrentProcessId : D → Z
}.

Definition ERROR_ACCESS_DENIED : Z := 5.
Definition KDBG_ABI_VERSION : Z := 7.

(** ** State *)

Record KDbgBackend (D : Type) := mkKDbgBackend {
  kb_device : D;
  kb_open : bool;
  kb_connected : bool;
  kb_write_enabled : bool;
  kb_la57 : bool;
  kb_abi_version : Z;
  kb_max_transfer : Z;
  kb_next_transaction_id : Z
}.
Arguments mkKDbgBackend {D}.
Arguments kb_device {D}.
Arguments kb_open {D}.
Arguments kb_connected {D}.
Arguments kb_write_enabled {D}.
Arguments kb_la57 {D}.
Arguments kb_abi_version {D}.
Arguments kb_max_transfer {D}.
Arguments kb_next_transaction_id {D}.
#[export] Instance KDbgBackend_eta D : Eta (KDbgBackend D) := fun b =>
  mkKDbgBackend (kb_device b) (kb_open b) (kb_connected b) (kb_write_enabled b) (kb_la57 b)
    (kb_abi_version b) (kb_max_transfer b) (kb_next_transaction_id b).

Definition initial_backend {D} (d : D) : KDbgBackend D :=
  mkKDbgBackend d false false false false 0 KDBG_MAX_TRANSFER_SIZE 1.

(** ** Ranges *)

Definition IsNonOverflowingRange (address length : Z) : bool :=
  negb (length =? 0) && (length <=? u64_max - address).
Definition IsValidAddressRange (address length : Z) : bool :=
  negb (address =? 0) && IsNonOverflowingRange address length.
Definition IsCanonicalAddress (address : Z) (la57 : bool) : bool :=
  let sign_bit := if la57 then 56 else 47 in
  let upper_shift := sign_bit + 1 in
  let sign := Z.land (Z.shiftr address sign_bit) 1 in
  let upper := Z.shiftr address upper_shift in
  upper =? (if sign =? 0 then 0 else Z.shiftr u64_max upper_shift).
Definition IsKernelVirtualRange (address length : Z) (la57 : bool) : bool :=
  if negb (IsValidAddressRange address length) then false
  else
    let last := address + length - 1 in
    let sign_bit := if la57 then 56 else 47 in
    IsCanonicalAddress address la57 && IsCanonicalAddress last la57 &&
    negb (Z.land (Z.shiftr address sign_bit) 1 =? 0) &&
    negb (Z.land (Z.shiftr last sign_bit) 1 =? 0).
Definition client_IsPageBounded (address length : Z) : bool :=
  if negb (IsNonOverflowingRange address length) then false
  else page_of address =? page_of (address + length - 1).
Definition FirstPageMismatch (left right : list Z) : Z :=
  if negb (sizeZ left =? sizeZ right) then kPhysicalPageSize
  else default KDBG_PHYSICAL_PAGE_NO_MISMATCH (first_mismatch left right).
Definition TryToPagingLevel (level : Z) : option PagingLevel :=
  if level =? 5 then Some Pml5
  else if level =? 4 then Some Pml4
  else if level =? 3 then Some Pdpt
  else if level =? 2 then Some Pd
  else if level =? 1 then Some Pt
  else None.

Section Client.
Context {D : Type} `{Device D}.
Implicit Types b : KDbgBackend D.

(** [Impl::Ioctl]: the number of bytes returned, and the buffer with them at its
    start. *)
Definition Ioctl (code : Z) (buffer : list Z) (input_length output_length : Z) (operation : string)
    (b : KDbgBackend D) : Result Z * list Z * KDbgBackend D :=
  if negb (kb_open b) then
    (Failure (MakeError BackendDisconnected "KDBG driver handle is not open" operation), buffer, b)
  else
    let '(r, d) := DeviceIoControl code (take (Z.to_nat input_length) buffer) output_length
                     (kb_device b) in
    let b := b <| kb_device := d |> in
    match r with
    | inl error =>
        (Failure (MakeErrorFull (if error =? ERROR_ACCESS_DENIED then AccessDenied else IoFailure)
           "DeviceIoControl failed" operation error 0 0), buffer, b)
    | inr out => (Success (sizeZ out), out ++ drop (length out) buffer, b)
    end.

Definition zeros (n : Z) : list Z := replicate (Z.to_nat n) 0.

Definition WriteModeRequest (enable : Z) : list Z :=
  struct [(4, 16); (4, enable); (8, KDBG_WRITE_ACK_MAGIC)].

(** ** Session *)

(** The checks on a session status response. *)
Definition status_invalid (returned : Z) (response : list Z) (current_pid : Z) : bool :=
  let flags := field response 4 4 in
  let owner := field response 8 4 in
  let current := field response 12 4 in
  let active := negb (Z.land flags 1 =? 0) in
  negb (returned =? 64) || negb (field response 0 4 =? 64) ||
  negb (field response 20 4 =? 0) || negb (field response 60 4 =? 0) ||
  (STAGE_READBACK <? field response 52 4) ||
  negb (Z.land flags (u32 (Z.lnot 3)) =? 0) || negb (current =? current_pid) ||
  (field response 16 4 =? 0) || negb active || negb (owner =? current) ||
  negb (Bool.eqb active (negb (owner =? 0))).

Definition Live_QuerySessionStatus (b : KDbgBackend D) : Result BackendSessionStatus * KDbgBackend D :=
  let op := "KDbgBackend::QuerySessionStatus" in
  match Ioctl IOCTL_GET_SESSION_STATUS (zeros 64) 0 64 op b with
  | (Failure e, _, b) => (Failure e, b)
  | (Success returned, response, b) =>
      if status_invalid returned response (GetCurrentProcessId (kb_device b)) then
        (Failure (MakeErrorFull ShortRead "KDBG returned a short session status" op 0 64 returned), b)
      else
        let flags := field response 4 4 in
        let enabled := negb (Z.land flags 2 =? 0) in
        (Success (mkBackendSessionStatus flags (field response 8 4) (field response 12 4)
           (field response 16 4) (field response 24 8) (field response 32 8) (field response 40 8)
           (field response 48 4) (field response 52 4) (field response 56 4) enabled),
         b <| kb_write_enabled := enabled |>)
  end.

Definition ForceWriteGateClosed (op : string) (b : KDbgBackend D)
    : Result unit * KDbgBackend D :=
  let b := b <| kb_write_enabled := false |> in
  let '(disabled, _, b) := Ioctl IOCTL_SET_WRITE_MODE (WriteModeRequest 0) 16 0 op b in
  let '(status, b) := Live_QuerySessionStatus b in
  let b' := b <| kb_write_enabled := false |> in
  let fail :=
    match disabled with
    | Failure e =>
        Failure (e <| operation := op |>
          <| message := "Write-gate disable failed and the locked state could not be proven: "
                        +:+ message e |>)
    | Success returned =>
        if negb (returned =? 0) then
          Failure (MakeErrorFull AbiMismatch
            "Write-gate disable returned an invalid length and the locked state could not be proven"
            op 0 0 returned)
        else
          match status with
          | Failure e =>
              Failure (e <| operation := op |>
                <| message := "Write-gate disable completed but session status could not prove that the gate is locked: "
                              +:+ message e |>)
          | Success _ =>
              Failure (MakeError WriteLocked
                "Driver session still reports an open write gate after disable" op)
          end
    end in
  match status with
  | Success st => if negb (bs_write_enabled st) then (Success tt, b') else (fail, b')
  | Failure _ => (fail, b')
  end.

(** The message of an error whose fail-closed cleanup failed too. *)
Definition fail_closed (operation : string) (error : Error) (b : KDbgBackend D)
    : Error * KDbgBackend D :=
  match ForceWriteGateClosed operation b with
  | (Success _, b) => (error, b)
  | (Failure closed, b) =>
      (error <| message := message error +:+
         "; fail-closed cleanup could not prove that the driver gate is locked: "
         +:+ message closed |>, b)
  end.

Definition Live_SetWriteEnabled (enabled : bool) (b : KDbgBackend D) : Result unit * KDbgBackend D :=
  let op := "KDbgBackend::SetWriteEnabled" in
  if negb enabled then ForceWriteGateClosed op b
  else
    let '(result, _, b) := Ioctl IOCTL_SET_WRITE_MODE (WriteModeRequest 1) 16 0 op b in
    match
      match result with
      | Failure e => Some e
      | Success returned =>
          if negb (returned =? 0) then
            Some (MakeErrorFull AbiMismatch "KDBG write-mode response length is invalid" op 0 0 returned)
          else None
      end
    with
    | Some error =>
        let '(error, b) := fail_closed "KDbgBackend::SetWriteEnabled/fail_closed" error b in
        (Failure error, b)
    | None => (Success tt, b <| kb_write_enabled := true |>)
    end.

Definition Live_GetPhysicalRanges_loop (response : list Z) : nat → Z → Z → list PhysicalRange →
    Result (Z * list PhysicalRange) :=
  fix loop (count : nat) (index total : Z) (ranges : list PhysicalRange) :=
    match count with
    | O => Success (total, ranges)
    | S count =>
        let range := mkPhysicalRange (field response (24 + 16 * index) 8)
                       (field response (32 + 16 * index) 8) in
        if negb (IsValid range) || (u64_max - range_length range <? total) then
          Failure (MakeError AbiMismatch "KDBG returned an invalid physical range entry"
            "KDbgBackend::GetPhysicalRanges")
        else loop count (index + 1) (u64 (total + range_length range)) (ranges ++ [range])
    end.

Definition Live_GetPhysicalRanges (b : KDbgBackend D) : Result (list PhysicalRange) * KDbgBackend D :=
  let op := "KDbgBackend::GetPhysicalRanges" in
  let response_size := 65560 in
  match Ioctl IOCTL_GET_PHYSICAL_RANGES (zeros response_size) 0 response_size op b with
  | (Failure e, _, b) => (Failure e, b)
  | (Success returned, response, b) =>
      let count := field response 8 4 in
      if negb (returned =? response_size) || negb (field response 0 4 =? response_size) ||
         negb (field response 4 4 =? 0) || negb (field response 12 4 =? 0) || (count =? 0) ||
         (KDBG_MAX_PHYSICAL_RANGES <? count) then
        (Failure (MakeErrorFull ShortRead "KDBG returned an invalid physical range response" op
           0 response_size returned), b)
      else
        match Live_GetPhysicalRanges_loop response (Z.to_nat count) 0 0 [] with
        | Failure e => (Failure e, b)
        | Success (total, ranges) =>
            if negb (total =? field response 16 8) then
              (Failure (MakeError AbiMismatch "KDBG physical range total is inconsistent" op), b)
            else (Success ranges, b)
        end
  end.

(** ** Reads *)

Definition Live_ReadPhysical (physical_address length : Z) (b : KDbgBackend D)
    : Result (list Z) * KDbgBackend D :=
  let op := "KDbgBackend::ReadPhysical" in
  if (length =? 0) || (kb_max_transfer b <? length) ||
     negb (IsNonOverflowingRange physical_address length) then
    (Failure (MakeErrorFull InvalidArgument "Invalid physical read length" op 0 (kb_max_transfer b)
       length), b)
  else
    let header := 24 in
    let total := header + length in
    if u32_max <? total then
      (Failure (MakeError AddressOverflow "Physical read buffer size overflow" op), b)
    else
      let request := struct [(4, header); (4, 0); (8, physical_address); (4, length); (4, 0)] in
      match Ioctl IOCTL_READ_PHYSICAL (request ++ zeros length) header total op b with
      | (Failure e, _, b) => (Failure e, b)
      | (Success returned, buffer, b) =>
          let copied := field buffer 20 4 in
          if negb (field buffer 0 4 =? header) || negb (field buffer 4 4 =? 0) ||
             negb (field buffer 8 8 =? physical_address) || negb (field buffer 16 4 =? length) ||
             negb (copied =? length) || negb (returned =? total) then
            (Failure (MakeErrorFull ShortRead "KDBG returned a short physical read" op 0 length copied), b)
          else (Success (slice buffer header length), b)
      end.

Definition Live_GetProcessContext (pid : Z) (b : KDbgBackend D) : Result ProcessContext * KDbgBackend D :=
  let op := "KDbgBackend::GetProcessContext" in
  if pid =? 0 then (Failure (MakeError InvalidArgument "PID 0 has no process context" op), b)
  else
    match Ioctl IOCTL_GET_PROCESS_CONTEXT (struct [(4, 8); (4, pid)] ++ zeros 24) 8 32 op b with
    | (Failure e, _, b) => (Failure e, b)
    | (Success returned, r, b) =>
        let flags := field r 4 4 in
        let dtb := field r 24 8 in
        if negb (returned =? 32) || negb (field r 0 4 =? 32) || negb (field r 8 4 =? pid) ||
           negb (field r 12 4 =? 0) || negb (Z.land flags (u32 (Z.lnot 3)) =? 0) ||
           (Z.land flags 1 =? 0) || (field r 16 8 =? 0) || (dtb =? 0) ||
           negb (Z.land dtb 0xFFF =? 0) then
          (Failure (MakeError ShortRead "KDBG returned a short process context" op), b)
        else
          (Success (mkProcessContext (field r 8 4) flags (field r 16 8) dtb
             (negb (Z.land flags 2 =? 0))), b)
    end.

Definition Live_ReadProcessVirtual (pid virtual_address length : Z) (b : KDbgBackend D)
    : Result (list Z) * KDbgBackend D :=
  let op := "KDbgBackend::ReadProcessVirtual" in
  if (pid =? 0) || (length =? 0) || (kb_max_transfer b <? length) ||
     negb (IsValidAddressRange virtual_address length) then
    (Failure (MakeError InvalidArgument "Invalid process virtual read request" op), b)
  else
    let header := 40 in
    let total := header + length in
    if u32_max <? total then
      (Failure (MakeError AddressOverflow "Process read buffer size overflow" op), b)
    else
      let request := struct [(4, header); (4, 0); (4, pid); (4, length); (8, virtual_address);
                             (8, 0); (4, 0); (4, 0)] in
      match Ioctl IOCTL_READ_PROCESS_MEMORY (request ++ zeros length) header total op b with
      | (Failure e, _, b) => (Failure e, b)
      | (Success returned, buffer, b) =>
          if negb (returned =? total) || negb (field buffer 0 4 =? header) ||
             negb (field buffer 4 4 =? 0) || negb (field buffer 8 4 =? pid) ||
             negb (field buffer 12 4 =? length) || negb (field buffer 16 8 =? virtual_address) ||
             negb (field buffer 24 8 =? 0) || negb (field buffer 36 4 =? 0) ||
             negb (field buffer 32 4 =? length) then
            (Failure (MakeErrorFull ShortRead "KDBG returned a short process virtual read" op 0 length
               (field buffer 32 4)), b)
          else (Success (slice buffer header length), b)
      end.

Definition Live_ReadKernelVirtual (virtual_address length : Z) (b : KDbgBackend D)
    : Result (list Z) * KDbgBackend D :=
  let op := "KDbgBackend::ReadKernelVirtual" in
  if (length =? 0) || (kb_max_transfer b <? length) ||
     negb (IsKernelVirtualRange virtual_address length (kb_la57 b)) then
    (Failure (MakeError InvalidArgument "Invalid kernel virtual read request" op), b)
  else
    let header := 24 in
    let total := header + length in
    if u32_max <? total then
      (Failure (MakeError AddressOverflow "Kernel read buffer size overflow" op), b)
    else
      let request := struct [(4, header); (4, 0); (8, virtual_address); (4, length); (4, 0)] in
      match Ioctl IOCTL_READ_KERNEL_VIRTUAL (request ++ zeros length) header total op b with
      | (Failure e, _, b) => (Failure e, b)
      | (Success returned, buffer, b) =>
          if negb (returned =? total) || negb (field buffer 0 4 =? header) ||
             negb (field buffer 4 4 =? 0) || negb (field buffer 8 8 =? virtual_address) ||
             negb (field buffer 16 4 =? length) || negb (field buffer 20 4 =? length) then
            (Failure (MakeErrorFull ShortRead "KDBG returned a short kernel virtual read" op 0 length
               (field buffer 20 4)), b)
          else (Success (slice buffer header length), b)
      end.

(** ** Writes *)

(** A failed write request: report the error after closing the gate. *)
Definition write_failed {T} (operation : string) (e : Error) (b : KDbgBackend D)
    : Result T * KDbgBackend D :=
  let '(e, b) := fail_closed operation e b in (Failure e, b).

(** Report an error after closing the gate, whatever that reports. *)
Definition write_rejected {T} (operation : string) (e : Error) (b : KDbgBackend D)
    : Result T * KDbgBackend D :=
  (Failure e, (ForceWriteGateClosed operation b).2).

Definition Live_WritePhysical (physical_address : Z) (data : list Z) (b : KDbgBackend D)
    : Result Z * KDbgBackend D :=
  let op := "KDbgBackend::WritePhysical" in
  let size := sizeZ data in
  if negb (kb_write_enabled b) then
    (Failure (MakeError WriteLocked "KDBG physical write gate is locked" op), b)
  else if (size =? 0) || (kb_max_transfer b <? size) ||
          negb (client_IsPageBounded physical_address size) then
    (Failure (MakeError InvalidArgument "Invalid physical write length" op),
     (Live_SetWriteEnabled false b).2)
  else
    let header := 32 in
    let total := header + size in
    if u32_max <? total then
      (Failure (MakeError AddressOverflow "Physical write buffer size overflow" op),
       (Live_SetWriteEnabled false b).2)
    else
      let request := struct [(4, total); (4, 0); (8, physical_address); (4, size); (4, 0);
                             (8, KDBG_WRITE_ACK_MAGIC)] in
      let '(result, buffer, b) := Ioctl IOCTL_WRITE_PHYSICAL (request ++ data) total header op b in
      let b := b <| kb_write_enabled := false |> in
      match result with
      | Failure e => write_failed "KDbgBackend::WritePhysical/fail_closed" e b
      | Success returned =>
          let transferred := field buffer 20 4 in
          if negb (returned =? header) || negb (field buffer 0 4 =? total) ||
             negb (field buffer 4 4 =? 0) || negb (field buffer 8 8 =? physical_address) ||
             negb (field buffer 16 4 =? size) ||
             negb (field buffer 24 8 =? KDBG_WRITE_ACK_MAGIC) || negb (transferred =? size) then
            write_rejected "KDbgBackend::WritePhysical/invalid_response"
              (MakeErrorFull ShortWrite "KDBG returned a short physical write" op 0 size transferred) b
          else
            match Live_ReadPhysical physical_address size b with
            | (Failure e, b) => write_rejected "KDbgBackend::WritePhysical/readback_failure" e b
            | (Success readback, b) =>
                if negb (bytes_eqb data (take (length data) readback)) then
                  write_rejected "KDbgBackend::WritePhysical/readback_failure"
                    (MakeErrorFull VerificationMismatch "KDBG physical write read-back mismatch" op
                       0 size (sizeZ readback)) b
                else (Success transferred, b)
            end
      end.

Definition Live_WriteProcessVirtual (pid virtual_address : Z) (data : list Z) (b : KDbgBackend D)
    : Result Z * KDbgBackend D :=
  let op := "KDbgBackend::WriteProcessVirtual" in
  let size := sizeZ data in
  if negb (kb_write_enabled b) then
    (Failure (MakeError WriteLocked "KDBG process write gate is locked" op), b)
  else if (pid =? 0) || (size =? 0) || (kb_max_transfer b <? size) ||
          negb (IsValidAddressRange virtual_address size) then
    (Failure (MakeError InvalidArgument "Invalid process virtual write request" op),
     (Live_SetWriteEnabled false b).2)
  else
    let header := 40 in
    let total := header + size in
    if u32_max <? total then
      (Failure (MakeError AddressOverflow "Process write buffer size overflow" op),
       (Live_SetWriteEnabled false b).2)
    else
      let request := struct [(4, total); (4, 0); (4, pid); (4, size); (8, virtual_address);
                             (8, KDBG_WRITE_ACK_MAGIC); (4, 0); (4, 0)] in
      let '(result, buffer, b) :=
        Ioctl IOCTL_WRITE_PROCESS_MEMORY (request ++ data) total header op b in
      let b := b <| kb_write_enabled := false |> in
      match result with
      | Failure e => write_failed "KDbgBackend::WriteProcessVirtual/fail_closed" e b
      | Success returned =>
          let transferred := field buffer 32 4 in
          if negb (returned =? header) || negb (field buffer 0 4 =? total) ||
             negb (field buffer 4 4 =? 0) || negb (field buffer 8 4 =? pid) ||
             negb (field buffer 12 4 =? size) || negb (field buffer 16 8 =? virtual_address) ||
             negb (field buffer 24 8 =? KDBG_WRITE_ACK_MAGIC) || negb (field buffer 36 4 =? 0) ||
             negb (transferred =? size) then
            write_rejected "KDbgBackend::WriteProcessVirtual/invalid_response"
              (MakeErrorFull ShortWrite "KDBG returned a short process virtual write" op
                 0 size transferred) b
          else
            match Live_ReadProcessVirtual pid virtual_address size b with
            | (Failure e, b) => write_rejected "KDbgBackend::WriteProcessVirtual/readback_failure" e b
            | (Success readback, b) =>
                if negb (bytes_eqb data (take (length data) readback)) then
                  write_rejected "KDbgBackend::WriteProcessVirtual/readback_failure"
                    (MakeErrorFull VerificationMismatch "KDBG process write read-back mismatch" op
                       0 size (sizeZ readback)) b
                else (Success transferred, b)
            end
      end.

(** The number of the next transaction, never 0, and its successor. *)
Definition next_transaction (next : Z) : Z * Z :=
  if next =? 0 then (u64 (next + 1), u64 (u64 (next + 1) + 1)) else (next, u64 (next + 1)).

(** The response of a compare/write, validated: the outcome, or the operation suffix
    and the error to report. *)
Definition check_transaction (expected desired : list Z) (response : list Z)
    : PhysicalPageCompareWriteResult + string * Error :=
  let op := "KDbgBackend::CompareWritePhysicalPage" in
  let readback := slice response 40 kPhysicalPageSize in
  let transferred := field response 20 4 in
  let first := field response 24 4 in
  let status := field response 28 4 in
  let result := field response 4 4 in
  let transaction outcome := mkCompareWriteResult outcome transferred first status readback in
  if result =? KDBG_PHYSICAL_PAGE_RESULT_APPLIED then
    if negb (status =? 0) || negb (transferred =? KDBG_PAGE_SIZE) ||
       negb (first =? KDBG_PHYSICAL_PAGE_NO_MISMATCH) || negb (bytes_eqb readback desired) then
      inr ("invalid_applied", MakeError VerificationMismatch
        "KDBG reported an inconsistent applied transaction" op)
    else inl (transaction Applied)
  else if result =? KDBG_PHYSICAL_PAGE_RESULT_CONFLICT then
    let mismatch := FirstPageMismatch readback expected in
    if negb (status =? STATUS_REVISION_MISMATCH) || negb (transferred =? 0) ||
       (kPhysicalPageSize <=? mismatch) || negb (first =? mismatch) then
      inr ("invalid_conflict", MakeError AbiMismatch
        "KDBG returned inconsistent baseline-conflict metadata" op)
    else inl (transaction Conflict)
  else if result =? KDBG_PHYSICAL_PAGE_RESULT_FAILED then
    let mismatch := FirstPageMismatch readback desired in
    if (status =? 0) || negb (first =? mismatch) then
      inr ("invalid_failure", MakeError AbiMismatch
        "KDBG returned inconsistent failed-transaction metadata" op)
    else inl (transaction OutcomeFailure)
  else
    inr ("unknown_outcome", MakeError AbiMismatch
      "KDBG returned an unknown physical page transaction outcome" op).

Definition Live_CompareWritePhysicalPage (physical_address : Z) (expected desired : list Z)
    (b : KDbgBackend D) : Result PhysicalPageCompareWriteResult * KDbgBackend D :=
  let op := "KDbgBackend::CompareWritePhysicalPage" in
  if negb (kb_write_enabled b) then
    (Failure (MakeError WriteLocked "KDBG physical page write gate is locked" op), b)
  else if negb (Z.land physical_address (KDBG_PAGE_SIZE - 1) =? 0) ||
          negb (sizeZ expected =? kPhysicalPageSize) || negb (sizeZ desired =? kPhysicalPageSize) then
    write_rejected (op +:+ "/invalid_request")
      (MakeError InvalidArgument
         "Physical compare/write requires a page-aligned address and two exact 4 KiB pages" op) b
  else
    let '(id, next) := next_transaction (kb_next_transaction_id b) in
    let b := b <| kb_next_transaction_id := next |> in
    let request := struct [(4, 8232); (4, 0); (8, physical_address); (4, KDBG_PAGE_SIZE); (4, 0);
                           (8, KDBG_WRITE_ACK_MAGIC); (8, id)] in
    let '(result, response, b) :=
      Ioctl IOCTL_COMPARE_WRITE_PHYSICAL_PAGE (request ++ expected ++ desired) 8232 4136 op b in
    let b := b <| kb_write_enabled := false |> in
    match result with
    | Failure e => write_failed (op +:+ "/fail_closed") e b
    | Success returned =>
        if negb ((returned =? 4136) && (field response 0 4 =? 4136) &&
                 (field response 8 8 =? physical_address) &&
                 (field response 16 4 =? KDBG_PAGE_SIZE) && (field response 32 8 =? id) &&
                 (field response 20 4 <=? KDBG_PAGE_SIZE)) then
          write_rejected (op +:+ "/invalid_response")
            (MakeErrorFull AbiMismatch "KDBG returned an invalid physical page transaction response" op
               0 4136 returned) b
        else
          match check_transaction expected desired response with
          | inl transaction => (Success transaction, b)
          | inr (what, e) => write_rejected (op +:+ "/" +:+ what) e b
          end
    end.

(** ** Translation *)

Definition translation_error : Error :=
  MakeError AbiMismatch "KDBG returned an invalid translation step" "KDbgBackend::TranslateVirtual".

(** One reported step, checked against the level and index expected at its place. *)
Definition check_step (response : list Z) (virtual_address levels index : Z) : Result TranslationStep :=
  let base := 72 + 24 * index in
  let level := field response base 4 in
  let slot := field response (base + 4) 4 in
  let address := field response (base + 8) 8 in
  let value := field response (base + 16) 8 in
  let expected_level := levels - index in
  let expected_index :=
    Z.land (Z.shiftr virtual_address (12 + 9 * (expected_level - 1))) 0x1FF in
  match TryToPagingLevel level with
  | None => Failure translation_error
  | Some paging_level =>
      if negb (level =? expected_level) || negb (slot =? expected_index) || (0x1FF <? slot) ||
         negb (Z.land address 7 =? 0) then Failure translation_error
      else
        let flags := DecodePageEntry value in
        Success (mkTranslationStep paging_level (u16 slot) address value (entry_pfn flags) flags)
  end.

Fixpoint check_steps (response : list Z) (virtual_address levels : Z) (count : nat) (index : Z)
    (steps : list TranslationStep) : Result (list TranslationStep) :=
  match count with
  | O => Success steps
  | S count =>
      match check_step response virtual_address levels index with
      | Failure e => Failure e
      | Success step => check_steps response virtual_address levels count (index + 1) (steps ++ [step])
      end
  end.

Definition Live_TranslateVirtual (directory_table_base virtual_address : Z) (b : KDbgBackend D)
    : Result TranslationWalk * KDbgBackend D :=
  let op := "KDbgBackend::TranslateVirtual" in
  let request := struct [(4, 32); (4, 0); (4, 0); (4, 1); (8, directory_table_base);
                         (8, virtual_address)] in
  match Ioctl IOCTL_TRANSLATE_VIRTUAL (request ++ zeros 160) 32 192 op b with
  | (Failure e, _, b) => (Failure e, b)
  | (Success returned, r, b) =>
      let flags := field r 4 4 in
      let levels := field r 8 4 in
      let count := field r 12 4 in
      let length := field r 20 4 in
      let dtb := field r 24 8 in
      let pa := field r 40 8 in
      let size := field r 48 8 in
      let offset := field r 56 8 in
      let page_bytes := field r 64 8 in
      let la57 := negb (Z.land flags 1 =? 0) in
      let large := negb (Z.land flags 2 =? 0) in
      let present := negb (Z.land flags 4 =? 0) in
      let paging_shape_valid := ((levels =? 4) && negb la57) || ((levels =? 5) && la57) in
      if negb (returned =? 192) || negb (field r 0 4 =? 192) ||
         negb (Z.land flags (u32 (Z.lnot 15)) =? 0) || negb paging_shape_valid ||
         (KDBG_MAX_TRANSLATION_STEPS <? count) || (levels <? count) || (count =? 0) ||
         negb (field r 16 4 =? 1) || negb (field r 32 8 =? virtual_address) || (dtb =? 0) ||
         negb (Z.land dtb 0xFFF =? 0) || negb (Z.land flags 8 =? 0) ||
         negb (Bool.eqb la57 (kb_la57 b)) ||
         (negb (directory_table_base =? 0) && negb (dtb =? directory_table_base)) then
        (Failure (MakeError AbiMismatch "KDBG returned an invalid translation response" op), b)
      else
        let translated := negb (length =? 0) in
        if translated &&
           (negb present || negb (length =? 1) ||
            negb ((size =? KDBG_PAGE_SIZE) || (size =? 0x200000) || (size =? 0x40000000)) ||
            (size <=? offset) || negb (Z.land pa (size - 1) =? offset) ||
            negb (page_bytes =? size - offset) ||
            negb (Bool.eqb large (negb (size =? KDBG_PAGE_SIZE)))) then
          (Failure (MakeError AbiMismatch "KDBG returned inconsistent translated-page metadata" op), b)
        else if negb translated &&
                (present || large || negb (pa =? 0) || negb (size =? 0) || negb (offset =? 0) ||
                 negb (page_bytes =? 0)) then
          (Failure (MakeError AbiMismatch
             "KDBG returned inconsistent non-present translation metadata" op), b)
        else
          match check_steps r virtual_address levels (Z.to_nat count) 0 [] with
          | Failure e => (Failure e, b)
          | Success steps =>
              (Success (mkTranslationWalk dtb (field r 32 8) pa size offset la57 translated steps), b)
          end
  end.

(** ** Opening and closing *)

Definition Live_Close (b : KDbgBackend D) : KDbgBackend D :=
  let d := kb_device b in
  let d :=
    if kb_open b then
      let d := if kb_connected b then
                 (DeviceIoControl IOCTL_SET_WRITE_MODE (WriteModeRequest 0) 0 d).2 else d in
      CloseHandle d
    else d in
  initial_backend d.

Definition Live_Info (b : KDbgBackend D) : BackendInfo :=
  mkBackendInfo "kdbg-live" (kb_abi_version b) (kb_connected b) (kb_write_enabled b) false true false
    (kb_la57 b) (kb_connected b).

Definition required_flags : Z := 0x1EF.

(** The checks of [Open] on the version response. *)
Definition check_version (returned : Z) (response : list Z) : option Error :=
  let op := "KDbgBackend::Open" in
  let abi := field response 4 4 in
  let max := field response 16 4 in
  if negb (returned =? 24) then
    Some (MakeErrorFull ShortRead "KDBG returned a short version response" op 0 24 returned)
  else if negb (field response 0 4 =? 24) || negb (abi =? KDBG_ABI_VERSION) then
    Some (MakeErrorFull AbiMismatch "KDBG user/driver ABI versions do not match" op abi
            KDBG_ABI_VERSION abi)
  else if (max <? KDBG_PAGE_SIZE) || (KDBG_MAX_TRANSFER_SIZE <? max) ||
          negb (Z.land (field response 20 4) required_flags =? required_flags) then
    Some (MakeError AbiMismatch "KDBG driver capabilities or transfer cap are invalid" op)
  else None.

Definition Live_Open (b : KDbgBackend D) : Result unit * KDbgBackend D :=
  let op := "KDbgBackend::Open" in
  if kb_connected b then
    (Failure (MakeError BackendAlreadyOpen "KDBG backend is already open" op), b)
  else
    let '(error, d) := CreateFile (kb_device b) in
    let b := b <| kb_device := d |> <| kb_open := match error with None => true | _ => false end |> in
    match error with
    | Some error =>
        (Failure (MakeErrorFull (if error =? ERROR_ACCESS_DENIED then AccessDenied else IoFailure)
           "Unable to open the KDBG driver device" op error 0 0), b)
    | None =>
        match Ioctl IOCTL_GET_VERSION (zeros 24) 0 24 "KDbgBackend::Open/GET_VERSION" b with
        | (Failure e, _, b) => (Failure e, Live_Close b)
        | (Success returned, response, b) =>
            match check_version returned response with
            | Some e => (Failure e, Live_Close b)
            | None =>
                let b := b <| kb_abi_version := field response 4 4 |>
                           <| kb_max_transfer := field response 16 4 |>
                           <| kb_la57 := negb (Z.land (field response 20 4) 0x10 =? 0) |>
                           <| kb_connected := true |> <| kb_write_enabled := false |> in
                match Live_QuerySessionStatus b with
                | (Failure e, b) => (Failure e, Live_Close b)
                | (Success session, b) =>
                    if bs_write_enabled session then
                      match Live_SetWriteEnabled false b with
                      | (Failure e, b) =>
                          (Failure (e <| message :=
                             "KDBG opened with its write gate enabled and relocking failed: "
                             +:+ message e |>), Live_Close b)
                      | (Success _, b) =>
                          (Failure (MakeError AbiMismatch
                             "KDBG opened with a non-default write-enabled session"
                             "KDbgBackend::Open/GET_SESSION_STATUS"), Live_Close b)
                      end
                    else (Success tt, b)
                end
            end
        end
    end.

#[export] Instance KDbgBackend_IMemoryBackend : IMemoryBackend (KDbgBackend D) := {|
  Open := Live_Open;
  Close := Live_Close;
  Info := Live_Info;
  QuerySessionStatus := Live_QuerySessionStatus;
  GetPhysicalRanges := Live_GetPhysicalRanges;
  ReadPhysical := Live_ReadPhysical;
  SetWriteEnabled := Live_SetWriteEnabled;
  WritePhysical := Live_WritePhysical;
  CompareWritePhysicalPage := Live_CompareWritePhysicalPage;
  GetProcessContext := Live_GetProcessContext;
  ReadProcessVirtual := Live_ReadProcessVirtual;
  WriteProcessVirtual := Live_WriteProcessVirtual;
  ReadKernelVirtual := Live_ReadKernelVirtual;
  TranslateVirtual := Live_TranslateVirtual
|}.
End Client.
