(* ===== verification/LiveBackend.v ===== *)
(** The driver as the device of its client, and the wire format both share.

    A [DriverDevice] is the driver of [KernelDispatch] with the one process that
    talks to it.  Opening a handle creates a file object, closing it cleans it up; a
    request that fails in the driver fails in [DeviceIoControl] with the Win32 code of
    its status.

    The client over the driver keeps the promises of a memory backend: [BackendSpec]
    for [KDbgBackend] on a [DriverDevice], from the laws of the kernel alone. *)

From stdpp Require Import gmap.
From S2P Require Import Prelude CppStd Wire Common KernelDriver KernelDispatch KernelOwner KernelGate KernelCas MemoryBackend KDbgBackend.

#[local] Open Scope Z_scope.

(** [RtlNtStatusToDosError]. *)
Class NtErrors := RtlNtStatusToDosError : NTSTATUS → Z.

Record DriverDevice (K : Type) `{Kernel K} := mkDriverDevice {
  dd_world : World K;
  dd_file : Z;
  dd_process : Z;
  dd_pid : Z
}.
Arguments mkDriverDevice {K H}.
Arguments dd_world {K H}.
Arguments dd_file {K H}.
Arguments dd_process {K H}.
Arguments dd_pid {K H}.

Section Device.
Context {K : Type} `{Kernel K} `{NtErrors}.

Definition device_irp (code : Z) (input : list Z) (output_length : Z) (d : DriverDevice K) : Irp :=
  mkIrp (dd_file d) (dd_process d) (dd_pid d) code input output_length.

(** The new file object is one that was never used. *)
Definition device_create (d : DriverDevice K) : option Z * DriverDevice K :=
  let file := fresh (dom (w_contexts (dd_world d))) in
  let '((status, _), w) := DispatchCreate file (dd_process d) (dd_pid d) (dd_world d) in
  (if NT_SUCCESS status then None else Some (RtlNtStatusToDosError status),
   mkDriverDevice w file (dd_process d) (dd_pid d)).

Definition device_close (d : DriverDevice K) : DriverDevice K :=
  let w := (DispatchCleanup (dd_file d) (dd_world d)).2 in
  let w := (DispatchClose (dd_file d) w).2 in
  mkDriverDevice w (dd_file d) (dd_process d) (dd_pid d).

Definition device_control (code : Z) (input : list Z) (output_length : Z) (d : DriverDevice K)
    : (Z + list Z) * DriverDevice K :=
  let '((status, out), w) :=
    DispatchDeviceControl (device_irp code input output_length d) (dd_world d) in
  (if NT_SUCCESS status then inr out else inl (RtlNtStatusToDosError status),
   mkDriverDevice w (dd_file d) (dd_process d) (dd_pid d)).

#[export] Instance DriverDevice_Device : Device (DriverDevice K) := {|
  CreateFile := device_create;
  CloseHandle := device_close;
  DeviceIoControl := device_control;
  GetCurrentProcessId := dd_pid
|}.
End Device.

(** ** The codes select their handlers *)

Section Codes.
Context {K : Type} `{Kernel K}.

Lemma handle_status_code i (s : Session K) :
  irp_code i = IOCTL_GET_SESSION_STATUS → handle i s = handle_session_status i s.
Proof. intros Hc. unfold handle. by rewrite Hc. Qed.
Lemma handle_mode_code i (s : Session K) :
  irp_code i = IOCTL_SET_WRITE_MODE → handle i s = handle_set_write_mode i s.
Proof. intros Hc. unfold handle. by rewrite Hc. Qed.
Lemma handle_ranges_code i (s : Session K) :
  irp_code i = IOCTL_GET_PHYSICAL_RANGES → handle i s = handle_get_physical_ranges i s.
Proof. intros Hc. unfold handle. by rewrite Hc. Qed.
Lemma handle_read_code i (s : Session K) :
  irp_code i = IOCTL_READ_PHYSICAL → handle i s = handle_read_physical i s.
Proof. intros Hc. unfold handle. by rewrite Hc. Qed.
Lemma handle_compare_code i (s : Session K) :
  irp_code i = IOCTL_COMPARE_WRITE_PHYSICAL_PAGE → handle i s = handle_compare_write i s.
Proof. intros Hc. unfold handle. by rewrite Hc. Qed.
End Codes.

(** ** Requests that only read *)

Section Handlers.
Context {K : Type} `{KernelSpec K}.
Implicit Types s : Session K.

(** Neither the handle nor memory changes. *)
Definition quiet (s s' : Session K) : Prop := s_context s' = s_context s ∧ same_memory s s'.

Lemma quiet_status i s r s' : handle_session_status i s = (r, s') → quiet s s'.
Proof. unfold handle_session_status. by destruct (_ || _); intros [= <- <-]. Qed.

Lemma quiet_ranges i s r s' : handle_get_physical_ranges i s = (r, s') → quiet s s'.
Proof.
  unfold handle_get_physical_ranges. destruct (_ || _); [by intros [= <- <-]|].
  destruct (MmGetPhysicalMemoryRanges _) as [[ranges|] k] eqn:E; pose proof (spec_ranges _ _ _ E) as Hk.
  - destruct (ranges_loop _ _ _) as [[status total] out].
    destruct (negb _); intros [= <- <-]; split; [done|exact Hk|done|exact Hk].
  - intros [= <- <-]. split; [done|exact Hk].
Qed.

(** A read: the answer echoes the request and carries what memory holds. *)
Lemma handle_read_physical_spec i s r s' :
  handle_read_physical i s = (r, s') →
  quiet s s' ∧
  (NT_SUCCESS r.1 = true →
   ∃ data, r.2 = slice (irp_input i) 0 20 ++ le_bytes 4 (sizeZ data) ++ data ∧
     (sizeZ data = field (irp_input i) 16 4 →
      data = mem_bytes (smem s) (field (irp_input i) 8 8) (sizeZ data))).
Proof.
  unfold handle_read_physical. cbv zeta.
  destruct (no_buffer i || _ || _); [by intros [= <- <-]|].
  match goal with |- (if ?b then _ else _) = _ → _ => destruct b end; [by intros [= <- <-]|].
  set (n := field _ 16 4). set (a := field _ 8 8).
  destruct (KernelDriver.ReadPhysical a n (s_kernel s)) as [[status data] k] eqn:E.
  assert ((∀ x, kmem k x = smem s x) ∧
    (NT_SUCCESS status = true → sizeZ data = n → data = mem_bytes (smem s) a n)) as [Hk Hd].
  { unfold KernelDriver.ReadPhysical in E.
    destruct (MmGetPhysicalMemoryRanges _) as [[ranges|] k1] eqn:E1;
      pose proof (spec_ranges _ _ _ E1) as Hk1; [|by simplify_eq].
    unfold ReadPhysicalWithSnapshot in E. destruct (_ || _) in E; [by simplify_eq|].
    destruct (negb _) in E; [by simplify_eq|]. apply spec_copy in E as [Hk Hd]. split.
    - intros x. rewrite Hk. apply Hk1.
    - intros Hs Hn. rewrite (Hd Hs Hn). apply mem_bytes_ext. intros. apply Hk1. }
  intros [= <- <-]. cbn [fst snd]. split.
  - destruct (_ && _); split; done.
  - intros Hs. exists data. split; [done|]. intros Hn. rewrite (Hd Hs Hn) at 1. by rewrite Hn.
Qed.

(** Switching the write mode does not reach the kernel. *)
Lemma handle_set_write_mode_kernel i s r s' :
  handle_set_write_mode i s = (r, s') → s_kernel s' = s_kernel s.
Proof.
  unfold handle_set_write_mode. cbv zeta. destruct (_ || _) at 1; [by intros [= <- <-]|].
  destruct (_ || _); by intros [= <- <-].
Qed.

Lemma handle_set_write_mode_enable i s r s' :
  irp_input i = WriteModeRequest 1 → handle_set_write_mode i s = (r, s') → NT_SUCCESS r.1 = true →
  fc_write_enabled (s_context s') = true.
Proof.
  unfold handle_set_write_mode. intros ->. cbv zeta.
  destruct (_ || _) at 1; [by intros [= <- <-]|]. destruct (_ || _); [by intros [= <- <-]|].
  change (field (WriteModeRequest 1) 4 4) with 1. by intros [= <- <-].
Qed.
End Handlers.

(** ** The client *)

Section Client.
Context {K : Type} `{KernelSpec K} `{NtErrors}.
Abbreviation Live := (KDbgBackend (DriverDevice K)).
Implicit Types d : DriverDevice K.
Implicit Types b : Live.

Definition driver_gate (d : DriverDevice K) : bool :=
  match w_contexts (dd_world d) !! dd_file d with
  | Some c => fc_write_enabled c
  | None => false
  end.

(** The abstract state: the kernel's memory, and a gate that both sides hold open. *)
Definition live_phys (b : Live) : Z → Z := kmem (w_kernel (dd_world (kb_device b))).
Definition live_gate (b : Live) : bool := kb_write_enabled b && driver_gate (kb_device b).

(** A request either is refused before its handler, or is its handler on the context
    of the handle. *)
Lemma device_control_cases code input n d r d' :
  device_control code input n d = (r, d') →
  let i := device_irp code input n d in
  dd_file d' = dd_file d ∧ dd_process d' = dd_process d ∧ dd_pid d' = dd_pid d ∧
  ((∃ e, r = inl e) ∧ w_kernel (dd_world d') = w_kernel (dd_world d) ∧
   (write_code code = false → dd_world d' = dd_world d) ∨
   ∃ c res s', w_contexts (dd_world d) !! dd_file d = Some c ∧
     handle i (mkSession (w_state (dd_world d)) c (w_kernel (dd_world d))) = (res, s') ∧
     dd_world d' = mkWorld (s_state s') (<[dd_file d := s_context s']> (w_contexts (dd_world d)))
                     (s_kernel s') ∧
     r = if NT_SUCCESS res.1 then inr res.2 else inl (RtlNtStatusToDosError res.1)).
Proof.
  unfold device_control, DispatchDeviceControl, on_session. cbv zeta.
  change (irp_file (device_irp code input n d)) with (dd_file d).
  change (irp_code (device_irp code input n d)) with code.
  destruct (w_contexts (dd_world d) !! dd_file d) as [c|] eqn:Hc.
  2: { intros [= <- <-]. split_and!; [done..|]. left. eauto. }
  destruct (IsControllerContext _ _); cbn [negb].
  - destruct (handle _ _) as [[status out] s'] eqn:Hh. intros [= <- <-]. split_and!; [done..|].
    right. exists c, (status, out), s'. done.
  - destruct (write_code code); intros [= <- <-]; (split_and!; [done..|]); left; split_and!; eauto.
    done.
Qed.

(** Memory and the handle's gate as a request leaves them. *)
Definition quiet_device (d d' : DriverDevice K) : Prop :=
  (∀ x, kmem (w_kernel (dd_world d')) x = kmem (w_kernel (dd_world d)) x) ∧
  driver_gate d' = driver_gate d.

Lemma control_quiet code input n d r d' :
  (∀ i s r s', irp_code i = code → handle i s = (r, s') → quiet s s') →
  write_code code = false → device_control code input n d = (r, d') → quiet_device d d'.
Proof.
  intros Hq Hcode Hc. apply device_control_cases in Hc as (Hf & _ & _ & Hc).
  unfold quiet_device, driver_gate. rewrite Hf.
  destruct Hc as [(_ & _ & Hw)|(c & res & s' & Hl & Hh & -> & _)].
  - by rewrite (Hw Hcode).
  - apply Hq in Hh as [Hctx Hm]; [|done]. cbn [w_kernel w_contexts].
    rewrite lookup_insert_eq, Hl. split; [exact Hm|]. by rewrite Hctx.
Qed.

(** [Ioctl] either does not reach the driver or is one request. *)
Lemma Ioctl_cases code buffer il ol op b r buffer' b' :
  Ioctl code buffer il ol op b = (r, buffer', b') →
  (Ok r = false ∧ b' = b) ∨
  ∃ x d', device_control code (take (Z.to_nat il) buffer) ol (kb_device b) = (x, d') ∧
    b' = b <| kb_device := d' |> ∧
    match x with
    | inl _ => Ok r = false
    | inr out => r = Success (sizeZ out) ∧ buffer' = out ++ drop (length out) buffer
    end.
Proof.
  unfold Ioctl. destruct (negb (kb_open b)); [intros [= <- <- <-]; by left|].
  cbn [DeviceIoControl DriverDevice_Device].
  destruct (device_control _ _ _ _) as [[e|out] d'] eqn:Hd; intros [= <- <- <-]; right; eauto 10.
Qed.

(** A backend after requests that only read: memory, the gate of the driver and the
    client's other members are as before. *)
Definition quiet_client (b b' : Live) : Prop :=
  quiet_device (kb_device b) (kb_device b') ∧ b' = b <| kb_device := kb_device b' |>.

Lemma quiet_client_refl b : quiet_client b b.
Proof. split; [done|]. by destruct b. Qed.

Lemma Ioctl_quiet code buffer il ol op b r buffer' b' :
  (∀ i s r s', irp_code i = code → handle i s = (r, s') → quiet s s') →
  write_code code = false → Ioctl code buffer il ol op b = (r, buffer', b') → quiet_client b b'.
Proof.
  intros Hq Hcode Hi. apply Ioctl_cases in Hi as [[_ ->]|(x & d' & Hd & -> & _)].
  - apply quiet_client_refl.
  - split; [by eapply control_quiet|]. by destruct b.
Qed.

Lemma Ioctl_status_quiet buffer il ol op b r buffer' b' :
  Ioctl IOCTL_GET_SESSION_STATUS buffer il ol op b = (r, buffer', b') → quiet_client b b'.
Proof.
  apply Ioctl_quiet; [|done]. intros i s r0 s' Hc. rewrite handle_status_code by done.
  apply quiet_status.
Qed.
Lemma Ioctl_ranges_quiet buffer il ol op b r buffer' b' :
  Ioctl IOCTL_GET_PHYSICAL_RANGES buffer il ol op b = (r, buffer', b') → quiet_client b b'.
Proof.
  apply Ioctl_quiet; [|done]. intros i s r0 s' Hc. rewrite handle_ranges_code by done.
  apply quiet_ranges.
Qed.
Lemma Ioctl_read_quiet buffer il ol op b r buffer' b' :
  Ioctl IOCTL_READ_PHYSICAL buffer il ol op b = (r, buffer', b') → quiet_client b b'.
Proof.
  apply Ioctl_quiet; [|done]. intros i s r0 s' Hc. rewrite handle_read_code by done.
  intros Hh. by apply handle_read_physical_spec in Hh as [? _].
Qed.

(** The write mode: memory is as before, and a successful request to enable it leaves
    the driver's gate open. *)
Lemma Ioctl_mode enable op b r buffer' b' :
  Ioctl IOCTL_SET_WRITE_MODE (WriteModeRequest enable) 16 0 op b = (r, buffer', b') →
  (∀ x, live_phys b' x = live_phys b x) ∧ b' = b <| kb_device := kb_device b' |> ∧
  (enable = 1 → Ok r = true → driver_gate (kb_device b') = true).
Proof.
  intros Hi. apply Ioctl_cases in Hi as [[Hr ->]|(x & d' & Hd & -> & Hx)].
  { split_and!; [done|by destruct b|]. intros _ Ho. by rewrite Ho in Hr. }
  apply device_control_cases in Hd as (Hf & _ & _ & Hd). unfold live_phys, driver_gate. cbn.
  destruct Hd as [((e & ->) & Hk & _)|(c & res & s' & Hl & Hh & Hw & ->)].
  { split_and!; [by rewrite Hk|by destruct b|]. intros _ Ho. by rewrite Ho in Hx. }
  rewrite handle_mode_code in Hh by done. rewrite Hf, Hw. cbn.
  split_and!; [by rewrite (handle_set_write_mode_kernel _ _ _ _ Hh)|by destruct b|].
  intros -> Ho. rewrite lookup_insert_eq. destruct (NT_SUCCESS res.1) eqn:Hs.
  - eapply handle_set_write_mode_enable; [|exact Hh|done]. cbn [device_irp irp_input].
    apply take_ge. by vm_compute.
  - by rewrite Ho in Hx.
Qed.

Lemma quiet_client_phys b b' x : quiet_client b b' → live_phys b' x = live_phys b x.
Proof. intros [[Hm _] _]. apply Hm. Qed.
Lemma quiet_client_gate b b' : quiet_client b b' → live_gate b' = live_gate b.
Proof. intros [[_ Hg] Hb]. unfold live_gate. rewrite Hg, Hb. reflexivity. Qed.

Lemma status_phys b r b' :
  Live_QuerySessionStatus b = (r, b') → ∀ x, live_phys b' x = live_phys b x.
Proof.
  unfold Live_QuerySessionStatus.
  destruct (Ioctl _ _ _ _ _ _) as [[r0 response] b0] eqn:Hi. apply Ioctl_status_quiet in Hi.
  intros Hr x. rewrite <- (quiet_client_phys _ _ x Hi).
  destruct r0 as [returned|e]; [|by injection Hr as <- <-].
  destruct (status_invalid _ _ _); by injection Hr as <- <-.
Qed.

(** Closing the gate: memory is as before and the client's side is closed. *)
Lemma force_closed op b r b' :
  ForceWriteGateClosed op b = (r, b') →
  (∀ x, live_phys b' x = live_phys b x) ∧ kb_write_enabled b' = false.
Proof.
  unfold ForceWriteGateClosed. cbv zeta.
  destruct (Ioctl _ _ _ _ _ _) as [[disabled ?] b1] eqn:Hi. apply Ioctl_mode in Hi as (Hm1 & _ & _).
  destruct (Live_QuerySessionStatus b1) as [status b2] eqn:Hs. pose proof (status_phys _ _ _ Hs) as Hm2.
  intros Hr. assert (b' = b2 <| kb_write_enabled := false |>) as ->.
  { destruct status as [st|e]; [destruct (negb _)|]; by injection Hr as _ <-. }
  split; [|done]. intros x. change (live_phys (b2 <| kb_write_enabled := false |>) x) with (live_phys b2 x).
  by rewrite Hm2, Hm1.
Qed.

Lemma fail_closed_spec op e b e' b' :
  fail_closed op e b = (e', b') →
  (∀ x, live_phys b' x = live_phys b x) ∧ kb_write_enabled b' = false.
Proof.
  unfold fail_closed. destruct (ForceWriteGateClosed op b) as [[[]|e0] b0] eqn:Hf;
    apply force_closed in Hf as [Hm Hw]; by intros [= <- <-].
Qed.

Lemma live_set_spec enabled b r b' :
  Live_SetWriteEnabled enabled b = (r, b') →
  (∀ x, live_phys b' x = live_phys b x) ∧
  live_gate b' = if Ok r then enabled else false.
Proof.
  unfold Live_SetWriteEnabled. destruct enabled; cbn [negb].
  2: { intros Hf. apply force_closed in Hf as [Hm Hw]. split; [done|]. unfold live_gate.
       rewrite Hw. by destruct (Ok r). }
  destruct (Ioctl _ _ _ _ _ _) as [[result ?] b1] eqn:Hi. apply Ioctl_mode in Hi as (Hm & Hb & Hg).
  assert (∀ e, (let '(e, b2) := fail_closed "KDbgBackend::SetWriteEnabled/fail_closed" e b1 in
      (Failure e, b2)) = (r, b') →
    (∀ x, live_phys b' x = live_phys b x) ∧ live_gate b' = if Ok r then true else false) as Hfail.
  { intros e. destruct (fail_closed _ _ _) as [e' b2] eqn:Hf. apply fail_closed_spec in Hf as [Hm2 Hw].
    intros [= <- <-]. split; [intros x; by rewrite Hm2, Hm|]. unfold live_gate. by rewrite Hw. }
  destruct result as [returned|e]; [|apply Hfail].
  destruct (negb (returned =? 0)); [apply Hfail|]. intros [= <- <-]. split; [done|].
  unfold live_gate. cbn. by apply Hg.
Qed.

Lemma live_ranges_quiet b r b' : Live_GetPhysicalRanges b = (r, b') → quiet_client b b'.
Proof.
  unfold Live_GetPhysicalRanges. cbv zeta.
  destruct (Ioctl _ _ _ _ _ _) as [[r0 response] b0] eqn:Hi. apply Ioctl_ranges_quiet in Hi.
  destruct r0 as [returned|e]; [|by intros [= <- <-]].
  destruct (_ || _); [by intros [= <- <-]|].
  destruct (Live_GetPhysicalRanges_loop _ _ _ _ _) as [[total ranges]|e]; [|by intros [= <- <-]].
  destruct (negb _); by intros [= <- <-].
Qed.

Lemma live_read_quiet pa n b r b' : Live_ReadPhysical pa n b = (r, b') → quiet_client b b'.
Proof.
  unfold Live_ReadPhysical. cbv zeta.
  destruct (_ || _) at 1; [intros [= <- <-]; apply quiet_client_refl|].
  destruct (_ <? _); [intros [= <- <-]; apply quiet_client_refl|].
  destruct (Ioctl _ _ _ _ _ _) as [[r0 response] b0] eqn:Hi. apply Ioctl_read_quiet in Hi.
  destruct r0 as [returned|e]; [|by intros [= <- <-]].
  destruct (_ || _); by intros [= <- <-].
Qed.

(** A field of a prefix is a field of the whole. *)
Lemma field_app_l l k off n :
  0 ≤ off → 0 ≤ n → off + n ≤ sizeZ l → field (l ++ k) off n = field l off n.
Proof.
  intros Ho Hn Hl. unfold field, slice. unfold sizeZ in Hl. f_equal.
  rewrite drop_app_le by lia. rewrite take_app_le; [done|]. rewrite length_drop. lia.
Qed.
Lemma field_slice l off n m :
  0 ≤ off → 0 ≤ n → off + n ≤ m → field (slice l 0 m) off n = field l off n.
Proof.
  intros Ho Hn Hm. unfold field, slice. change (Z.to_nat 0) with 0%nat. rewrite drop_0.
  rewrite skipn_firstn_comm, take_take. f_equal. f_equal. lia.
Qed.

(** A successful request ran its handler: the session it ran on, and its answer. *)
Lemma Ioctl_success code buffer il ol op b returned buffer' b' :
  Ioctl code buffer il ol op b = (Success returned, buffer', b') →
  ∃ i s out s' status, irp_code i = code ∧ irp_input i = take (Z.to_nat il) buffer ∧
    smem s = live_phys b ∧ driver_gate (kb_device b) = fc_write_enabled (s_context s) ∧
    handle i s = ((status, out), s') ∧ NT_SUCCESS status = true ∧
    smem s' = live_phys b' ∧ b' = b <| kb_device := kb_device b' |> ∧
    returned = sizeZ out ∧ buffer' = out ++ drop (length out) buffer.
Proof.
  intros Hi. apply Ioctl_cases in Hi as [[Hr _]|(x & d' & Hd & -> & Hx)]; [done|].
  apply device_control_cases in Hd as (_ & _ & _ & [((e & ->) & _)|Hd]); [done|].
  destruct Hd as (c & [status out] & s' & Hl & Hh & Hw & ->). cbn [fst snd] in Hx.
  destruct (NT_SUCCESS status) eqn:Hs; [|done]. destruct Hx as [[= ->] ->].
  eexists _, _, out, s', status. split_and!; [| | | |exact Hh|done| | |done|done]; [done..| | |].
  - unfold driver_gate. by rewrite Hl.
  - unfold smem, live_phys. cbn. by rewrite Hw.
  - by destruct b.
Qed.

Lemma read_request_size pa n : sizeZ (struct [(4, 24); (4, 0); (8, pa); (4, n); (4, 0)]) = 24.
Proof. by apply sizeZ_struct. Qed.

Lemma live_read_page pa n b bytes b' :
  Live_ReadPhysical pa n b = (Success bytes, b') → sizeZ bytes = n →
  mem_bytes (live_phys b') pa n = bytes.
Proof.
  unfold Live_ReadPhysical. cbv zeta. destruct (_ || _) at 1; [done|].
  destruct (Z.ltb_spec u32_max (24 + n)) as [|Hn]; [done|].
  set (req := struct _). pose proof (read_request_size pa n) as Hreq. fold req in Hreq.
  destruct (Ioctl _ _ _ _ _ _) as [[[returned|e] buffer] b1] eqn:Hi; [|done].
  destruct (_ || _) eqn:Hchk; [done|]. intros [= <- <-] Hsz. boolify.
  pose proof (sizeZ_nonneg (slice buffer 24 n)) as Hn0. rewrite Hsz in Hn0.
  apply Ioctl_success in Hi as (i & s & out & s' & status & Hc & Hin & Hms & _ & Hh & Hs & Hms' & _ & Hret & Hbuf).
  rewrite handle_read_code in Hh by done.
  apply handle_read_physical_spec in Hh as [[_ Hq] Hd]. destruct (Hd Hs) as (data & Ho & Hdata).
  cbn [snd] in Ho. assert (irp_input i = req) as Hir.
  { rewrite Hin. change (Z.to_nat 24) with 24%nat. unfold sizeZ in Hreq. rewrite take_app_le by lia.
    apply take_ge. lia. }
  rewrite Hir in Ho, Hdata.
  assert (sizeZ (slice req 0 20) = 20) as Hs20 by (apply sizeZ_slice; lia).
  assert (sizeZ out = 24 + sizeZ data) as Hso.
  { rewrite Ho, !sizeZ_app, Hs20, sizeZ_le_bytes by lia. lia. }
  assert (field req 8 8 = pa) as Hpa.
  { rewrite <- (field_slice req 8 8 20) by lia.
    rewrite <- (field_app_l _ (le_bytes 4 (sizeZ data) ++ data) 8 8) by lia.
    rewrite <- Ho. rewrite <- (field_app_l out (drop (length out) (req ++ zeros n)) 8 8) by lia.
    by rewrite <- Hbuf. }
  assert (field req 16 4 = n) as Hlen.
  { rewrite <- (app_nil_r req). unfold req. rewrite (field_struct _ _ 16 4 n) by (done || lia).
    apply Z.mod_small. change (256 ^ 4) with 4294967296. lia. }
  assert (sizeZ data = n) as Hdn by lia.
  assert (slice buffer 24 n = data) as ->.
  { rewrite Hbuf, Ho. rewrite <- !app_assoc. rewrite slice_app_ge by lia.
    rewrite slice_app_ge by (rewrite sizeZ_le_bytes; lia). rewrite sizeZ_le_bytes by lia. rewrite Hs20.
    by apply slice_app_l. }
  rewrite (Hdata ltac:(lia)). rewrite Hpa, Hdn. apply mem_bytes_ext. intros k Hk.
  rewrite <- Hms'. apply Hq.
Qed.

(** ** The transaction *)

(** Every answer of the driver carries the page as it is afterwards. *)
Lemma cas_answer a id expected desired (s s' : Session K) out result :
  cas_outcome a id expected desired s s' out result →
  ∃ tr mis st, out = FillPhysicalPageTransactionResponse result a tr mis st id (page_at s' a).
Proof.
  intros [He Hd Ho -> | offset Hf Hm -> | status He Ho Hst ->].
  - rewrite <- Hd. eauto.
  - rewrite <- (same_memory_page _ _ a Hm). eauto.
  - eauto.
Qed.

Lemma response_readback result a tr mis st id page tail :
  sizeZ page = KDBG_PAGE_SIZE →
  slice (FillPhysicalPageTransactionResponse result a tr mis st id page ++ tail) 40 KDBG_PAGE_SIZE = page.
Proof.
  intros Hp. unfold FillPhysicalPageTransactionResponse. rewrite <- app_assoc.
  rewrite slice_app_ge by (by rewrite sizeZ_struct). rewrite sizeZ_struct by done.
  by apply slice_app_l.
Qed.

Definition compare_request (pa id : Z) (expected desired : list Z) : list Z :=
  struct [(4, 8232); (4, 0); (8, pa); (4, KDBG_PAGE_SIZE); (4, 0); (8, KDBG_WRITE_ACK_MAGIC); (8, id)]
    ++ expected ++ desired.

Lemma compare_request_size pa id expected desired :
  sizeZ expected = KDBG_PAGE_SIZE → sizeZ desired = KDBG_PAGE_SIZE →
  sizeZ (compare_request pa id expected desired) = kCompareWriteRequest.
Proof.
  intros He Hd. unfold compare_request. rewrite !sizeZ_app, He, Hd, sizeZ_struct by done. reflexivity.
Qed.

Lemma compare_request_pages pa id expected desired :
  sizeZ expected = KDBG_PAGE_SIZE → sizeZ desired = KDBG_PAGE_SIZE →
  slice (compare_request pa id expected desired) 40 KDBG_PAGE_SIZE = expected ∧
  slice (compare_request pa id expected desired) 4136 KDBG_PAGE_SIZE = desired.
Proof.
  intros He Hd. unfold compare_request. split.
  - rewrite slice_app_ge by (by rewrite sizeZ_struct). rewrite sizeZ_struct by done. by apply slice_app_l.
  - rewrite slice_app_ge by (by rewrite sizeZ_struct). rewrite sizeZ_struct by done.
    rewrite slice_app_ge by (by rewrite He). rewrite He.
    rewrite <- (app_nil_r desired) at 1. by apply slice_app_l.
Qed.

(** The request as the driver reads it. *)
Lemma compare_request_taken pa id expected desired :
  sizeZ expected = KDBG_PAGE_SIZE → sizeZ desired = KDBG_PAGE_SIZE →
  take (Z.to_nat 8232) (compare_request pa id expected desired) = compare_request pa id expected desired.
Proof.
  intros He Hd. apply take_ge. pose proof (compare_request_size pa id expected desired He Hd) as Hn.
  unfold sizeZ, kCompareWriteRequest in Hn. lia.
Qed.

Lemma live_compare_success pa expected desired b r b' :
  Live_CompareWritePhysicalPage pa expected desired b = (Success r, b') →
  live_gate b = true ∧ kb_write_enabled b' = false ∧
  ∃ (s s' : Session K) id out result tail,
    smem s = live_phys b ∧ smem s' = live_phys b' ∧
    cas_outcome pa id expected desired s s' out result ∧
    check_transaction expected desired (out ++ tail) = inl r.
Proof.
  unfold Live_CompareWritePhysicalPage, write_failed, write_rejected. cbv zeta.
  destruct (kb_write_enabled b) eqn:Hen; cbn [negb]; [|done].
  destruct (negb _ || _ || _) eqn:Hreq; [done|]. boolify.
  destruct (next_transaction _) as [id next]. change kPhysicalPageSize with KDBG_PAGE_SIZE in *.
  change (struct _ ++ expected ++ desired) with (compare_request pa id expected desired).
  destruct (Ioctl _ _ _ _ _ _) as [[[returned|e] response] b1] eqn:Hi.
  2: { destruct (fail_closed _ _ _). done. }
  destruct (negb (_ && _)) eqn:Hchk; [done|].
  destruct (check_transaction _ _ _) as [tr|[what e]] eqn:Htr; [|done].
  intros [= <- <-]. boolify.
  apply Ioctl_success in Hi as (i & s & out & s' & status & Hc & Hin & Hms & Hg & Hh & Hs & Hms' & Hb & Hret & Hbuf).
  rewrite compare_request_taken in Hin by done.
  rewrite handle_compare_code in Hh by done.
  pose proof (handle_compare_write_status _ _ _ _ Hh Hs) as Hst. cbn in Hst. subst status.
  destruct (handle_compare_write_cas _ _ _ _ Hh) as (Hgate & Hv & result & Ho & _).
  rewrite Hin in Ho.
  destruct (compare_request_pages pa id expected desired) as [He Hd]; [done..|]. rewrite He, Hd in Ho.
  split; [unfold live_gate; cbn in Hg; by rewrite Hen, Hg, Hgate|]. split; [done|].
  assert (field (compare_request pa id expected desired) 8 8 = pa) as Hpa.
  { destruct (cas_answer _ _ _ _ _ _ _ _ Ho) as (? & ? & ? & Hout).
    rewrite Hbuf, Hout in *. unfold FillPhysicalPageTransactionResponse in *.
    match goal with E : field _ 8 8 = pa |- _ => rewrite <- app_assoc in E;
      rewrite (field_struct _ _ 8 8 (field (compare_request pa id expected desired) 8 8)) in E by done;
      rewrite Z.mod_small in E; [done|] end.
    unfold compare_request. rewrite (field_struct _ _ 8 8 pa) by done. apply Z.mod_pos_bound. done. }
  rewrite Hpa in Ho. exists s, s', (field (compare_request pa id expected desired) 32 8), out, result.
  eexists. split_and!; [done|exact Hms'|exact Ho|]. by rewrite <- Hbuf.
Qed.

Lemma check_transaction_spec expected desired (response : list Z) r :
  sizeZ expected = kPhysicalPageSize →
  check_transaction expected desired response = inl r →
  readback r = slice response 40 kPhysicalPageSize ∧
  (outcome r = Applied → readback r = desired) ∧
  (outcome r = Conflict → readback r ≠ expected).
Proof.
  intros He. unfold check_transaction. cbv zeta. set (rb := slice response 40 kPhysicalPageSize).
  destruct (_ =? KDBG_PHYSICAL_PAGE_RESULT_APPLIED).
  { destruct (_ || _) eqn:Hc; [done|]. intros [= <-]. boolify. cbn. split_and!; [done| |done].
    intros _. by apply bytes_eqb_eq. }
  destruct (_ =? KDBG_PHYSICAL_PAGE_RESULT_CONFLICT).
  { destruct (_ || _) eqn:Hc; [done|]. intros [= <-]. boolify. cbn. split_and!; [done..|].
    intros _ Heq. rewrite Heq in *. unfold FirstPageMismatch in *. rewrite Z.eqb_refl in *. cbn [negb] in *.
    rewrite (proj2 (first_mismatch_None expected expected eq_refl) eq_refl) in *. cbn in *.
    unfold KDBG_PHYSICAL_PAGE_NO_MISMATCH, kPhysicalPageSize in *. lia. }
  destruct (_ =? KDBG_PHYSICAL_PAGE_RESULT_FAILED); [|done].
  destruct (_ || _); [done|]. intros [= <-]. by split_and!.
Qed.

Lemma live_compare_sizes pa expected desired b r b' :
  Live_CompareWritePhysicalPage pa expected desired b = (Success r, b') →
  sizeZ expected = kPhysicalPageSize ∧ sizeZ desired = kPhysicalPageSize.
Proof.
  unfold Live_CompareWritePhysicalPage, write_rejected. cbv zeta.
  destruct (negb _); [done|]. destruct (negb _ || _ || _) eqn:Hreq; [done|]. intros _. by boolify.
Qed.

Lemma live_compare_closed pa expected desired b r b' :
  Live_CompareWritePhysicalPage pa expected desired b = (r, b') → kb_write_enabled b' = false.
Proof.
  unfold Live_CompareWritePhysicalPage, write_failed, write_rejected. cbv zeta.
  assert (∀ op b, kb_write_enabled (ForceWriteGateClosed op b).2 = false) as Hf.
  { intros op b0. destruct (ForceWriteGateClosed op b0) as [r0 b1] eqn:Hf.
    by apply force_closed in Hf as [_ ?]. }
  destruct (kb_write_enabled b) eqn:Hen; cbn [negb]; [|by intros [= _ <-]].
  destruct (negb _ || _ || _); [intros [= _ <-]; apply Hf|].
  destruct (next_transaction _) as [id next].
  destruct (Ioctl _ _ _ _ _ _) as [[[returned|e] response] b1].
  2: { destruct (fail_closed _ _ _) as [e' b2] eqn:Hc. apply fail_closed_spec in Hc as [_ Hc].
       by intros [= _ <-]. }
  destruct (negb (_ && _)); [intros [= _ <-]; apply Hf|].
  destruct (check_transaction _ _ _) as [tr|[what e]]; [by intros [= _ <-]|].
  intros [= _ <-]. apply Hf.
Qed.

(** Without the driver's gate nothing is written, whatever the client believes. *)
Lemma live_compare_locked pa expected desired b r b' :
  Live_CompareWritePhysicalPage pa expected desired b = (r, b') → live_gate b = false →
  Ok r = false ∧ ∀ x, live_phys b' x = live_phys b x.
Proof.
  intros Hr Hg. destruct r as [res|e]; cbn.
  { apply live_compare_success in Hr as [Hg' _]. by rewrite Hg' in Hg. }
  split; [done|]. revert Hr. unfold Live_CompareWritePhysicalPage, write_failed, write_rejected.
  cbv zeta. destruct (kb_write_enabled b) eqn:Hen; cbn [negb]; [|by intros [= _ <-]].
  assert (driver_gate (kb_device b) = false) as Hdg.
  { unfold live_gate in Hg. by rewrite Hen in Hg. }
  destruct (negb _ || _ || _).
  { intros [= _ <-]. destruct (ForceWriteGateClosed _ _) as [r0 b0] eqn:Hf.
    by apply force_closed in Hf as [? _]. }
  destruct (next_transaction _) as [id next].
  destruct (Ioctl _ _ _ _ _ _) as [[[returned|e0] response] b1] eqn:Hi.
  { apply Ioctl_success in Hi as (i & s & out & s' & status & Hc & _ & _ & Hg' & Hh & Hs & _).
    rewrite handle_compare_code in Hh by done. apply handle_compare_write_locked in Hh as [Hns _].
    - cbn in Hns. by rewrite Hns in Hs.
    - rewrite <- Hg'. exact Hdg. }
  assert (∀ x, live_phys b1 x = live_phys b x) as Hm.
  { apply Ioctl_cases in Hi as [[_ ->]|(x & d' & Hd & -> & _)]; [done|].
    apply device_control_cases in Hd as (_ & _ & _ & [(_ & Hk & _)|Hd]).
    - intros y. unfold live_phys. cbn. by rewrite Hk.
    - destruct Hd as (c & res & s' & Hl & Hh & Hw & _). rewrite handle_compare_code in Hh by done.
      apply handle_compare_write_locked in Hh as [_ Hm].
      + intros y. unfold live_phys. cbn. rewrite Hw. apply Hm.
      + unfold driver_gate in Hdg. cbn in Hl. by rewrite Hl in Hdg. }
  destruct (fail_closed _ _ _) as [e' b2] eqn:Hc. apply fail_closed_spec in Hc as [Hm2 _].
  intros [= _ <-] x. rewrite Hm2. apply Hm.
Qed.

#[export] Instance KDbgBackend_Spec : BackendSpec (KDbgBackend (DriverDevice K)).
Proof.
  refine {| phys := live_phys; gate := live_gate |}.
  - intros b r b' Hr. apply live_ranges_quiet in Hr. split.
    + intros x. by apply quiet_client_phys.
    + by apply quiet_client_gate.
  - intros e b r b' Hr. by apply live_set_spec in Hr as [? _].
  - intros e b b' Hr. by apply live_set_spec in Hr as [_ ?].
  - intros e b er b' Hr _. by apply live_set_spec in Hr as [_ ?].
  - intros pa exp des b r b' Hr. unfold live_gate. by rewrite (live_compare_closed _ _ _ _ _ _ Hr).
  - intros pa exp des b r b' Hr. destruct (live_compare_sizes _ _ _ _ _ _ Hr) as [He _].
    apply live_compare_success in Hr as (_ & _ & s & s' & id & out & result & tail & _ & Hm & Ho & Hc).
    apply check_transaction_spec in Hc as (Hrb & _); [|done].
    destruct (cas_answer _ _ _ _ _ _ _ _ Ho) as (tr & mis & st & ->).
    rewrite response_readback in Hrb by (by apply sizeZ_mem_bytes). rewrite Hrb. split.
    + by apply sizeZ_mem_bytes.
    + unfold page_at. by rewrite Hm.
  - intros pa exp des b r b' Hr. destruct (live_compare_sizes _ _ _ _ _ _ Hr) as [He _].
    apply live_compare_success in Hr as (_ & _ & s & s' & id & out & result & tail & _ & Hm & Ho & Hc).
    by apply check_transaction_spec in Hc as (_ & ? & _).
  - intros pa exp des b r b' Hr. destruct (live_compare_sizes _ _ _ _ _ _ Hr) as [He _].
    apply live_compare_success in Hr as (_ & _ & s & s' & id & out & result & tail & _ & Hm & Ho & Hc).
    by apply check_transaction_spec in Hc as (_ & _ & ?).
  - intros pa exp des b r b' Hr Hg. exact (live_compare_locked _ _ _ _ _ _ Hr Hg).
  - intros pa n b r b' Hr. exact (quiet_client_gate _ _ (live_read_quiet pa n b r b' Hr)).
  - intros pa n b bytes b' Hr Hn. exact (live_read_page pa n b bytes b' Hr Hn).
Defined.
End Client.
