(* ===== verification/LiveSession.v ===== *)
(** A connected client of the driver: requests on a live handle reach their handlers
    and are answered, and the client accepts the answers. *)

From stdpp Require Import gmap.
From S2P Require Import Prelude CppStd Wire Common KernelDriver KernelDispatch KernelOwner KernelGate KernelCas MemoryBackend KDbgBackend LiveBackend.

#[local] Open Scope Z_scope.

(** ** The stage of the last physical write *)

Section Stage.
Context {K : Type} `{Kernel K}.
Implicit Types s : Session K.

Definition stage_ok (s : Session K) : Prop := 0 ≤ ds_last_stage (s_state s) ≤ STAGE_READBACK.

Lemma write_pages_stage fuel current input t s r s' :
  stage_ok s → write_pages fuel current input t s = (r, s') → stage_ok s'.
Proof.
  revert current input t s. induction fuel as [|fuel IH]; intros current input t s Hs; cbn [write_pages].
  - by intros [= <- <-].
  - intros Hw. repeat split_hyp_match Hw; simplify_eq; try done. eapply IH; [|exact Hw]. done.
Qed.

Lemma WriteValidatedPhysicalRange_stage a source s r s' :
  stage_ok s → WriteValidatedPhysicalRange a source s = (r, s') → stage_ok s'.
Proof.
  intros Hs. unfold WriteValidatedPhysicalRange. destruct (_ || _ || _); [by intros [= <- <-]|].
  by apply write_pages_stage.
Qed.

Lemma handle_compare_write_stage i s r s' :
  stage_ok s → handle_compare_write i s = (r, s') → stage_ok s'.
Proof.
  intros Hs. unfold handle_compare_write, compare_write, write_and_verify, reject_physical. cbv zeta.
  intros Hr.
  do 3 (destruct (_ || _) in Hr at 1 || destruct (negb _) in Hr at 1; [by simplify_eq|]).
  destruct (ExAllocatePool _) as [[] k0]; [|by simplify_eq].
  destruct (MmGetPhysicalMemoryRanges _) as [[ranges|] k]; [|by simplify_eq].
  destruct (negb _) in Hr; [by simplify_eq|]. cbn [consume_gate] in Hr.
  destruct (fc_write_enabled _) in Hr; [|by simplify_eq].
  destruct (ReadPhysicalWithSnapshot _ _ _ _) as [[??] ?].
  destruct (_ || _) in Hr; [by simplify_eq|]. destruct (negb _) in Hr; [by simplify_eq|].
  destruct (WriteValidatedPhysicalRange _ _ _) as [[??] s1] eqn:Hw.
  apply WriteValidatedPhysicalRange_stage in Hw; [|done].
  destruct (ReadPhysicalWithSnapshot _ _ _ _) as [[??] ?].
  destruct (_ || _) in Hr; [by simplify_eq|]. destruct (_ && _) in Hr; by simplify_eq.
Qed.
End Stage.

Section Ready.
Context {K : Type} `{KernelSpec K} `{NtErrors}.
Abbreviation Live := (KDbgBackend (DriverDevice K)).
Implicit Types d : DriverDevice K.
Implicit Types b : Live.

(** ** Live handles *)

(** The handle is live and owned by the calling process, which is the recorded owner
    of the device. *)
Record ready_device d : Prop := {
  rd_context : ∃ c, w_contexts (dd_world d) !! dd_file d = Some c ∧ fc_cleaned_up c = false ∧
    fc_owner_process c = dd_process d ∧ fc_owner_pid c = dd_pid d;
  rd_owner : ds_owner_pid (w_state (dd_world d)) = dd_pid d;
  rd_pid : 0 < dd_pid d ≤ u32_max;
  rd_handles : 0 < ds_open_handles (w_state (dd_world d)) ≤ u32_max;
  rd_stage : 0 ≤ ds_last_stage (w_state (dd_world d)) ≤ STAGE_READBACK
}.

(** The session of a request on the handle. *)
Definition device_session (d : DriverDevice K) (c : FileContext) : Session K :=
  mkSession (w_state (dd_world d)) c (w_kernel (dd_world d)).

(** A request on a live handle is its handler, and leaves the handle live. *)
Lemma ready_control code input n d :
  ready_device d →
  (∀ i s r s', irp_code i = code → stage_ok s → handle i s = (r, s') → stage_ok s') →
  ∃ c res s' d', w_contexts (dd_world d) !! dd_file d = Some c ∧
    handle (device_irp code input n d) (device_session d c) = (res, s') ∧
    device_control code input n d =
      (if NT_SUCCESS res.1 then inr res.2 else inl (RtlNtStatusToDosError res.1), d') ∧
    ready_device d' ∧ dd_pid d' = dd_pid d ∧
    w_contexts (dd_world d') !! dd_file d' = Some (s_context s') ∧
    w_state (dd_world d') = s_state s' ∧ w_kernel (dd_world d') = s_kernel s'.
Proof.
  intros [(c & Hc & Hlive & Hproc & Hpid) Hown Hp Hh Hst] Hstage.
  destruct (handle (device_irp code input n d) (device_session d c)) as [[status out] s'] eqn:E.
  exists c, (status, out), s'.
  exists (mkDriverDevice (mkWorld (s_state s') (<[dd_file d := s_context s']> (w_contexts (dd_world d)))
     (s_kernel s')) (dd_file d) (dd_process d) (dd_pid d)).
  pose proof (handle_identity _ _ _ _ E) as Hid. injection Hid as I1 I2 I3 I4 I5 I6.
  pose proof (Hstage (device_irp code input n d) (device_session d c) _ _ eq_refl Hst E) as Hst'.
  split_and!; [done..| | |done| |done|done].
  - unfold device_control, DispatchDeviceControl, on_session.
    change (irp_file (device_irp code input n d)) with (dd_file d). rewrite Hc.
    unfold IsControllerContext. cbn [device_irp irp_process irp_pid].
    rewrite Hlive, Hproc, Hpid, !Z.eqb_refl. cbn [negb andb].
    fold (device_session d c). by rewrite E.
  - split; cbn; [|congruence|done|congruence|exact Hst'].
    exists (s_context s'). rewrite lookup_insert_eq. split_and!; [done|congruence..].
  - cbn. apply lookup_insert_eq.
Qed.

Record ready b : Prop := {
  rb_open : kb_open b = true;
  rb_next : is_u64 (kb_next_transaction_id b);
  rb_device : ready_device (kb_device b)
}.

Lemma ready_Ioctl code buffer il ol op b :
  ready b →
  (∀ i s r s', irp_code i = code → stage_ok s → handle i s = (r, s') → stage_ok s') →
  ∃ c status out s' d', w_contexts (dd_world (kb_device b)) !! dd_file (kb_device b) = Some c ∧
    handle (device_irp code (take (Z.to_nat il) buffer) ol (kb_device b))
      (device_session (kb_device b) c) = ((status, out), s') ∧
    (NT_SUCCESS status = true →
     Ioctl code buffer il ol op b =
       (Success (sizeZ out), out ++ drop (length out) buffer, b <| kb_device := d' |>)) ∧
    ready_device d' ∧ dd_pid d' = dd_pid (kb_device b) ∧
    driver_gate d' = fc_write_enabled (s_context s') ∧ w_kernel (dd_world d') = s_kernel s'.
Proof.
  intros [Ho _ Hd] Hstage.
  destruct (ready_control code (take (Z.to_nat il) buffer) ol (kb_device b) Hd Hstage)
    as (c & [status out] & s' & d' & Hc & Hh & Hctl & Hr & Hp & Hctx & _ & Hk).
  exists c, status, out, s', d'. split_and!; [done..| |done|done| |done].
  - intros Hs. unfold Ioctl. rewrite Ho. cbn [negb DeviceIoControl DriverDevice_Device].
    rewrite Hctl. cbn [fst snd]. by rewrite Hs.
  - unfold driver_gate. by rewrite Hctx.
Qed.

Lemma driver_gate_context d c :
  w_contexts (dd_world d) !! dd_file d = Some c → driver_gate d = fc_write_enabled c.
Proof. unfold driver_gate. by intros ->. Qed.

(** ** Session status *)

(** The answer of a driver whose owner is the calling process. *)
Definition status_response (gate : bool) (pid : Z) (w : DriverState) : list Z :=
  struct [(4, 64); (4, Z.lor 1 (if gate then 2 else 0)); (4, pid); (4, pid);
          (4, ds_open_handles w); (4, 0); (8, ds_successful_reads w); (8, ds_successful_writes w);
          (8, ds_rejected_writes w); (4, ds_last_status w); (4, ds_last_stage w);
          (4, ds_last_transferred w); (4, 0)].

Lemma status_response_size gate pid w : sizeZ (status_response gate pid w) = 64.
Proof. by apply sizeZ_struct. Qed.

Lemma status_response_flags gate pid w tail :
  negb (Z.land (field (status_response gate pid w ++ tail) 4 4) 2 =? 0) = gate.
Proof. unfold status_response. decode_fields. by destruct gate. Qed.

Lemma status_accepted gate pid w tail :
  0 < pid ≤ u32_max → 0 < ds_open_handles w ≤ u32_max → 0 ≤ ds_last_stage w ≤ STAGE_READBACK →
  status_invalid 64 (status_response gate pid w ++ tail) pid = false.
Proof.
  intros Hp Hh Hs. unfold status_invalid, status_response. cbv zeta. decode_fields.
  change (256 ^ 4) with 4294967296. unfold STAGE_READBACK in *.
  rewrite (Z.mod_small pid), (Z.mod_small (ds_open_handles w)), (Z.mod_small (ds_last_stage w)) by lia.
  rewrite !Z.eqb_refl, (proj2 (Z.ltb_ge 6 _)), (proj2 (Z.eqb_neq (ds_open_handles w) 0)),
    (proj2 (Z.eqb_neq pid 0)) by lia.
  by destruct gate.
Qed.

Lemma ready_status b :
  ready b →
  ∃ st d', Live_QuerySessionStatus b =
      (Success st, b <| kb_device := d' |> <| kb_write_enabled := driver_gate (kb_device b) |>) ∧
    bs_write_enabled st = driver_gate (kb_device b) ∧ ready_device d' ∧
    driver_gate d' = driver_gate (kb_device b) ∧
    w_kernel (dd_world d') = w_kernel (dd_world (kb_device b)).
Proof.
  intros Hb. unfold Live_QuerySessionStatus. cbv zeta.
  destruct (ready_Ioctl IOCTL_GET_SESSION_STATUS (zeros 64) 0 64
    "KDbgBackend::QuerySessionStatus" b Hb) as (c & status & out & s' & d' & Hc & Hh & Hi & Hr & Hp & Hg & Hk).
  { intros i s r s' Hcode Hs. rewrite handle_status_code by done. unfold handle_session_status.
    destruct (_ || _); by intros [= <- <-]. }
  destruct Hb as [Ho _ [_ Hown Hpid Hhand Hstage]]. set (w := w_state (dd_world (kb_device b))) in *.
  assert (status = STATUS_SUCCESS ∧ out = status_response (fc_write_enabled c) (dd_pid (kb_device b)) w ∧
    s' = device_session (kb_device b) c) as (-> & -> & ->).
  { rewrite handle_status_code in Hh by done. unfold handle_session_status in Hh.
    change (no_buffer _ || _ || _) with false in Hh. cbv zeta iota in Hh.
    unfold device_session in Hh. cbn [s_state s_context device_irp irp_pid] in Hh. fold w in Hh.
    rewrite Hown in Hh. rewrite (proj2 (Z.eqb_neq (dd_pid (kb_device b)) 0)) in Hh by lia.
    injection Hh as <- <- <-. done. }
  rewrite (Hi eq_refl), status_response_size. change (GetCurrentProcessId _) with (dd_pid d').
  rewrite Hp, status_accepted, status_response_flags by done.
  cbn [device_session s_context s_kernel] in Hg, Hk. rewrite <- (driver_gate_context _ _ Hc) in Hg |- *.
  eexists _, d'. split_and!; done.
Qed.

(** ** The gate *)

Lemma mode_request_size enable : sizeZ (WriteModeRequest enable) = 16.
Proof. by apply sizeZ_struct. Qed.

Lemma handle_mode_accepts i (s : Session K) enable :
  irp_input i = WriteModeRequest enable → irp_output_length i = 0 → enable = 0 ∨ enable = 1 →
  handle_set_write_mode i s = ((STATUS_SUCCESS, []), set_gate (negb (enable =? 0)) s).
Proof.
  intros Hi Ho He. unfold handle_set_write_mode, no_buffer, input_length. cbv zeta.
  rewrite Hi, Ho, mode_request_size. cbn [Z.eqb negb orb andb Pos.eqb].
  unfold WriteModeRequest. rewrite <- (app_nil_r (struct _)). decode_fields.
  by destruct He as [-> | ->].
Qed.

Lemma ready_mode enable op b :
  ready b → enable = 0 ∨ enable = 1 →
  ∃ d', Ioctl IOCTL_SET_WRITE_MODE (WriteModeRequest enable) 16 0 op b =
      (Success 0, WriteModeRequest enable, b <| kb_device := d' |>) ∧
    ready_device d' ∧ driver_gate d' = negb (enable =? 0) ∧
    w_kernel (dd_world d') = w_kernel (dd_world (kb_device b)).
Proof.
  intros Hb He.
  destruct (ready_Ioctl IOCTL_SET_WRITE_MODE (WriteModeRequest enable) 16 0 op b Hb)
    as (c & status & out & s' & d' & Hc & Hh & Hi & Hr & Hp & Hg & Hk).
  { intros i s r s' Hcode Hs. rewrite handle_mode_code by done. unfold handle_set_write_mode. cbv zeta.
    destruct (_ || _) at 1; [by intros [= <- <-]|]. destruct (_ || _); by intros [= <- <-]. }
  rewrite handle_mode_code in Hh by done. rewrite (handle_mode_accepts _ _ enable) in Hh; [| |done|done].
  2: { apply take_ge. pose proof (mode_request_size enable) as Hn. unfold sizeZ in Hn. lia. }
  injection Hh as <- <- <-. exists d'. rewrite (Hi eq_refl). split_and!; done.
Qed.

Lemma ready_enable b :
  ready b →
  ∃ d', Live_SetWriteEnabled true b =
      (Success tt, b <| kb_device := d' |> <| kb_write_enabled := true |>) ∧
    ready_device d' ∧ driver_gate d' = true ∧
    w_kernel (dd_world d') = w_kernel (dd_world (kb_device b)).
Proof.
  intros Hb. unfold Live_SetWriteEnabled. cbn [negb].
  destruct (ready_mode 1 "KDbgBackend::SetWriteEnabled" b Hb) as (d' & -> & Hr & Hg & Hk); [by right|].
  exists d'. split_and!; done.
Qed.

Lemma ready_disable op b :
  ready b →
  ∃ b', ForceWriteGateClosed op b = (Success tt, b') ∧ ready b' ∧
    kb_write_enabled b' = false ∧ driver_gate (kb_device b') = false ∧ live_phys b' = live_phys b.
Proof.
  intros Hb. unfold ForceWriteGateClosed. cbv zeta.
  destruct (ready_mode 0 op (b <| kb_write_enabled := false |>)) as (d1 & -> & Hr & Hg & Hk).
  { destruct Hb as [Ho Hn Hd]. by split. }
  { by left. }
  set (b1 := _ <| kb_device := d1 |>).
  destruct (ready_status b1) as (st & d2 & -> & Hst & Hr2 & Hg2 & Hk2).
  { split; [exact (rb_open _ Hb)|exact (rb_next _ Hb)|exact Hr]. }
  change (kb_device b1) with d1 in *. rewrite Hst, Hg. eexists. split; [done|].
  split; [split; [exact (rb_open _ Hb)|exact (rb_next _ Hb)|exact Hr2]|]. split; [done|].
  split; [change (driver_gate d2 = false); by rewrite Hg2, Hg|].
  change (kmem (w_kernel (dd_world d2)) = live_phys b). by rewrite Hk2, Hk.
Qed.

(** ** The transaction *)

Lemma next_transaction_range next :
  is_u64 next → let '(id, next') := next_transaction next in 0 < id ≤ u64_max ∧ is_u64 next'.
Proof.
  intros Hn. unfold next_transaction. unfold is_u64 in Hn. destruct (Z.eqb_spec next 0) as [->|].
  - split; [done|apply u64_range].
  - split; [lia|apply u64_range].
Qed.

Lemma compare_request_valid code pa id expected desired d :
  is_u64 pa → 0 < id ≤ u64_max → Z.land pa (KDBG_PAGE_SIZE - 1) = 0 →
  sizeZ expected = KDBG_PAGE_SIZE → sizeZ desired = KDBG_PAGE_SIZE →
  valid_request (device_irp code (compare_request pa id expected desired) 4136 d) ∧
  field (compare_request pa id expected desired) 8 8 = pa ∧
  field (compare_request pa id expected desired) 32 8 = id.
Proof.
  intros Hp Hi Hal He Hd. unfold is_u64 in Hp.
  assert (∀ off w v, lookup_field [(4, 8232); (4, 0); (8, pa); (4, KDBG_PAGE_SIZE); (4, 0);
      (8, KDBG_WRITE_ACK_MAGIC); (8, id)] off = Some (w, v) → 0 ≤ off → 0 ≤ v < 256 ^ w →
    field (compare_request pa id expected desired) off w = v) as Hf.
  { intros off w v Hl Ho Hv. unfold compare_request. rewrite (field_struct _ _ off w v) by done.
    by apply Z.mod_small. }
  assert (field (compare_request pa id expected desired) 8 8 = pa) as Hpa
    by (apply Hf; [done|lia|change (256 ^ 8) with 18446744073709551616; lia]).
  assert (field (compare_request pa id expected desired) 32 8 = id) as Hid
    by (apply Hf; [done|lia|change (256 ^ 8) with 18446744073709551616; lia]).
  split; [|done]. unfold valid_request, input_length. cbn [device_irp irp_input irp_output_length].
  rewrite (compare_request_size _ _ _ _ He Hd), Hpa, Hid.
  split_and!; first [done | lia | by apply Hf].
Qed.

(** The fields of an answer. *)
Lemma response_field result a tr mis st id page tail off w v :
  lookup_field [(4, kCompareWriteResponse); (4, result); (8, a); (4, KDBG_PAGE_SIZE); (4, tr);
                (4, mis); (4, st); (8, id)] off = Some (w, v) → 0 ≤ off → 0 ≤ v < 256 ^ w →
  field (FillPhysicalPageTransactionResponse result a tr mis st id page ++ tail) off w = v.
Proof.
  intros Hl Ho Hv. unfold FillPhysicalPageTransactionResponse. rewrite <- app_assoc.
  rewrite (field_struct _ _ off w v) by done. by apply Z.mod_small.
Qed.

Lemma response_size result a tr mis st id page :
  sizeZ page = KDBG_PAGE_SIZE →
  sizeZ (FillPhysicalPageTransactionResponse result a tr mis st id page) = 4136.
Proof.
  intros Hp. unfold FillPhysicalPageTransactionResponse.
  rewrite sizeZ_app, Hp, sizeZ_struct by done. reflexivity.
Qed.

Lemma check_applied a id expected desired tail :
  sizeZ desired = KDBG_PAGE_SIZE →
  check_transaction expected desired
    (FillPhysicalPageTransactionResponse KDBG_PHYSICAL_PAGE_RESULT_APPLIED a KDBG_PAGE_SIZE
       KDBG_PHYSICAL_PAGE_NO_MISMATCH STATUS_SUCCESS id desired ++ tail) =
  inl (mkCompareWriteResult Applied KDBG_PAGE_SIZE KDBG_PHYSICAL_PAGE_NO_MISMATCH 0 desired).
Proof.
  intros Hd. unfold check_transaction. cbv zeta. change kPhysicalPageSize with KDBG_PAGE_SIZE.
  rewrite response_readback by done.
  rewrite (response_field _ _ _ _ _ _ _ _ 4 4 KDBG_PHYSICAL_PAGE_RESULT_APPLIED) by done.
  rewrite (response_field _ _ _ _ _ _ _ _ 20 4 KDBG_PAGE_SIZE) by done.
  rewrite (response_field _ _ _ _ _ _ _ _ 24 4 KDBG_PHYSICAL_PAGE_NO_MISMATCH) by done.
  rewrite (response_field _ _ _ _ _ _ _ _ 28 4 0) by done.
  rewrite (proj2 (bytes_eqb_eq desired desired) eq_refl). reflexivity.
Qed.

Lemma check_conflict a id expected desired page offset tail :
  sizeZ expected = KDBG_PAGE_SIZE → sizeZ page = KDBG_PAGE_SIZE →
  first_mismatch page expected = Some offset →
  check_transaction expected desired
    (FillPhysicalPageTransactionResponse KDBG_PHYSICAL_PAGE_RESULT_CONFLICT a 0 offset
       STATUS_REVISION_MISMATCH id page ++ tail) =
  inl (mkCompareWriteResult Conflict 0 offset STATUS_REVISION_MISMATCH page).
Proof.
  intros He Hp Hf. destruct (first_mismatch_Some page expected offset) as [Ho _]; [congruence|done|].
  rewrite Hp in Ho. unfold KDBG_PAGE_SIZE in Ho.
  unfold check_transaction. cbv zeta. change kPhysicalPageSize with KDBG_PAGE_SIZE.
  rewrite response_readback by done.
  rewrite (response_field _ _ _ _ _ _ _ _ 4 4 KDBG_PHYSICAL_PAGE_RESULT_CONFLICT) by done.
  rewrite (response_field _ _ _ _ _ _ _ _ 20 4 0) by done.
  rewrite (response_field _ _ _ _ _ _ _ _ 24 4 offset)
    by (done || (change (256 ^ 4) with 4294967296; lia)).
  rewrite (response_field _ _ _ _ _ _ _ _ 28 4 STATUS_REVISION_MISMATCH) by done.
  unfold FirstPageMismatch. rewrite Hp, He, Hf, !Z.eqb_refl. cbn [negb]. change (default _ (Some offset)) with offset.
  rewrite (proj2 (Z.leb_gt KDBG_PAGE_SIZE offset)) by (unfold KDBG_PAGE_SIZE; lia).
  reflexivity.
Qed.

Lemma response_common result a tr mis st id page tail :
  sizeZ page = KDBG_PAGE_SIZE → is_u64 a → 0 < id ≤ u64_max → 0 ≤ tr ≤ KDBG_PAGE_SIZE →
  let out := FillPhysicalPageTransactionResponse result a tr mis st id page in
  (sizeZ out =? 4136) && (field (out ++ tail) 0 4 =? 4136) && (field (out ++ tail) 8 8 =? a) &&
  (field (out ++ tail) 16 4 =? KDBG_PAGE_SIZE) && (field (out ++ tail) 32 8 =? id) &&
  (field (out ++ tail) 20 4 <=? KDBG_PAGE_SIZE) = true.
Proof.
  intros Hp Ha Hid Htr. cbv zeta. unfold is_u64 in Ha. pose proof Htr as Htr'.
  unfold KDBG_PAGE_SIZE in Htr'.
  rewrite response_size by done.
  rewrite (response_field result a tr mis st id page tail 0 4 kCompareWriteResponse) by done.
  rewrite (response_field _ _ _ _ _ _ _ _ 8 8 a)
    by (done || (change (256 ^ 8) with 18446744073709551616; lia)).
  rewrite (response_field _ _ _ _ _ _ _ _ 16 4 KDBG_PAGE_SIZE) by done.
  rewrite (response_field _ _ _ _ _ _ _ _ 32 8 id)
    by (done || (change (256 ^ 8) with 18446744073709551616; lia)).
  rewrite (response_field _ _ _ _ _ _ _ _ 20 4 tr)
    by (done || (change (256 ^ 4) with 4294967296; lia)).
  rewrite !Z.eqb_refl, (proj2 (Z.leb_le tr _)) by lia. reflexivity.
Qed.

(** What the client reports of a transaction on a reliable kernel. *)
Definition transaction_report (b : Live) (pa : Z) (expected desired : list Z)
    (r : PhysicalPageCompareWriteResult) (b' : Live) : Prop :=
  let page := mem_bytes (live_phys b) pa KDBG_PAGE_SIZE in
  if decide (page = expected) then
    r = mkCompareWriteResult Applied KDBG_PAGE_SIZE KDBG_PHYSICAL_PAGE_NO_MISMATCH 0 desired ∧
    mem_bytes (live_phys b') pa KDBG_PAGE_SIZE = desired ∧
    ∀ x, x < pa ∨ pa + KDBG_PAGE_SIZE ≤ x → live_phys b' x = live_phys b x
  else
    (∃ offset, first_mismatch page expected = Some offset ∧
       r = mkCompareWriteResult Conflict 0 offset STATUS_REVISION_MISMATCH page) ∧
    ∀ x, live_phys b' x = live_phys b x.

Lemma ready_compare pa expected desired b :
  ready b → live_gate b = true → reliable pa → is_u64 pa →
  Z.land pa (KDBG_PAGE_SIZE - 1) = 0 →
  sizeZ expected = KDBG_PAGE_SIZE → sizeZ desired = KDBG_PAGE_SIZE →
  ∃ r b', Live_CompareWritePhysicalPage pa expected desired b = (Success r, b') ∧ ready b' ∧
    transaction_report b pa expected desired r b'.
Proof.
  intros Hb Hgate Hrel Hpa Hal He Hd. apply andb_prop in Hgate as [Hen Hdg].
  unfold Live_CompareWritePhysicalPage. cbv zeta. rewrite Hen. cbn [negb].
  rewrite Hal. change kPhysicalPageSize with KDBG_PAGE_SIZE. rewrite He, Hd, !Z.eqb_refl. cbn [negb orb].
  pose proof (next_transaction_range _ (rb_next _ Hb)) as Hnext.
  destruct (next_transaction _) as [id next]. destruct Hnext as [Hid Hnx].
  change (struct _ ++ expected ++ desired) with (compare_request pa id expected desired).
  set (b0 := b <| kb_next_transaction_id := next |>).
  destruct (ready_Ioctl IOCTL_COMPARE_WRITE_PHYSICAL_PAGE (compare_request pa id expected desired)
    8232 4136 "KDbgBackend::CompareWritePhysicalPage" b0)
    as (c & status & out & s' & d' & Hc & Hh & Hi & Hr & Hp & Hg & Hk).
  { split; [exact (rb_open _ Hb)|exact Hnx|exact (rb_device _ Hb)]. }
  { intros i s r0 s0 Hcode Hs. rewrite handle_compare_code by done. by apply handle_compare_write_stage. }
  rewrite compare_request_taken, handle_compare_code in Hh by done.
  destruct (compare_request_valid IOCTL_COMPARE_WRITE_PHYSICAL_PAGE pa id expected desired (kb_device b0))
    as (Hv & Hfa & Hfi); [done..|].
  destruct (compare_request_pages pa id expected desired He Hd) as [Hse Hsd].
  destruct (handle_compare_write_answers _ (device_session (kb_device b0) c) Hv)
    as (out' & s'' & Hh').
  { change (fc_write_enabled c = true). change (kb_device b0) with (kb_device b) in Hc.
    by rewrite <- (driver_gate_context _ _ Hc). }
  { cbn [device_irp irp_input]. by rewrite Hfa. }
  rewrite Hh' in Hh. injection Hh as <- <- <-.
  destruct (handle_compare_write_cas _ _ _ _ Hh') as (_ & _ & result & Ho & Hres).
  cbn [device_irp irp_input] in Ho, Hres. rewrite Hfa, Hse in Hres. rewrite Hfa, Hfi, Hse, Hsd in Ho.
  specialize (Hres Hrel). rewrite (Hi eq_refl). clear Hi Hh'. subst result.
  set (tail := drop _ _). set (b1 := _ <| kb_write_enabled := false |>).
  assert (smem s'' = live_phys b1) as Hm by (unfold smem; by rewrite <- Hk).
  assert (ready b1) as Hb1 by (split; [exact (rb_open _ Hb)|exact Hnx|exact Hr]).
  assert (page_at s'' pa = mem_bytes (live_phys b1) pa KDBG_PAGE_SIZE) as Hpg
    by (unfold page_at; by rewrite Hm).
  unfold transaction_report. cbv zeta. unfold cas_result in Ho.
  change (page_at (device_session (kb_device b0) c) pa) with (mem_bytes (live_phys b) pa KDBG_PAGE_SIZE) in Ho.
  destruct (decide (mem_bytes (live_phys b) pa KDBG_PAGE_SIZE = expected)) as [Heq|Hne].
  - remember KDBG_PHYSICAL_PAGE_RESULT_APPLIED as res eqn:Hres.
    destruct Ho as [_ Hdes Hout ->|offset Hf Hs ->|st _ _ _ ->]; [|discriminate Hres..].
    assert (0 ≤ KDBG_PAGE_SIZE ≤ KDBG_PAGE_SIZE) as Hfull by (unfold KDBG_PAGE_SIZE; lia).
    rewrite (response_common _ _ _ _ _ _ _ tail Hd Hpa Hid Hfull), (check_applied _ _ _ _ _ Hd).
    cbn [negb].
    eexists _, b1. split; [done|]. split; [done|]. split; [done|]. rewrite <- Hpg. split; [done|].
    intros x Hx. rewrite <- Hm. by apply Hout.
  - remember KDBG_PHYSICAL_PAGE_RESULT_CONFLICT as res eqn:Hres.
    destruct Ho as [_ Hdes Hout ->|offset Hf Hs ->|st _ _ _ ->]; [discriminate Hres| |discriminate Hres].
    assert (sizeZ (page_at (device_session (kb_device b0) c) pa) = KDBG_PAGE_SIZE) as Hps
      by (by apply sizeZ_mem_bytes).
    assert (0 ≤ 0 ≤ KDBG_PAGE_SIZE) as Hzero by (unfold KDBG_PAGE_SIZE; lia).
    rewrite (response_common _ _ _ _ _ _ _ tail Hps Hpa Hid Hzero),
      (check_conflict _ _ _ _ _ offset _ He Hps Hf). cbn [negb].
    eexists _, b1. split; [done|]. split; [done|]. split; [exists offset; exact (conj Hf eq_refl)|].
    intros x. rewrite <- Hm. apply Hs.
Qed.
End Ready.
