(* ===== verification/LiveApply.v ===== *)
(** The physical ranges on their way from the kernel to the client: the driver merges
    them and refuses malformed ones, the client decodes exactly the merged list.

    From the editing session to the kernel: opening the device, and applying an edited
    page through the client and the driver. *)

From stdpp Require Import gmap.
From S2P Require Import Prelude CppStd Wire Common KernelDriver KernelDispatch KernelOwner KernelGate KernelCas MemoryBackend KDbgBackend LiveBackend LiveSession PfnAddress X64PageTable EditBuffer PageSession PageTransaction.

#[local] Open Scope Z_scope.

(** ** What the driver reports *)

Definition ranges_total (out : list (Z * Z)) : Z := foldr (λ r n, r.2 + n) 0 out.
Definition range_ok (r : Z * Z) : Prop := 0 ≤ r.1 ∧ 0 < r.2 ∧ r.1 + r.2 ≤ u64_max.

Record reported (total : Z) (out : list (Z * Z)) : Prop := {
  rep_ranges : Forall range_ok out;
  rep_total : total = ranges_total out;
  rep_bound : 0 ≤ total ≤ u64_max;
  rep_count : sizeZ out ≤ KDBG_MAX_PHYSICAL_RANGES
}.

Lemma ranges_total_app l k : ranges_total (l ++ k) = ranges_total l + ranges_total k.
Proof.
  induction l as [|r l IH]; [done|].
  change (r.2 + ranges_total (l ++ k) = r.2 + ranges_total l + ranges_total k). lia.
Qed.

Lemma ranges_loop_reported ranges total out total' out' :
  reported total out → ranges_loop ranges total out = (STATUS_SUCCESS, total', out') →
  reported total' out'.
Proof.
  revert total out. induction ranges as [|[b n] ranges IH]; intros total out Hr; cbn [ranges_loop].
  { by intros [= <- <-]. }
  destruct (_ && _); [by intros [= <- <-]|]. destruct (_ || _) eqn:Hneg; [done|].
  destruct (_ || _) eqn:Hov in |- *; [done|]. boolify. destruct Hr as [Hf Ht Hb Hc].
  assert ((if KDBG_MAX_PHYSICAL_RANGES <=? sizeZ out
     then (STATUS_BUFFER_OVERFLOW, total + n, out)
     else ranges_loop ranges (total + n) (out ++ [(b, n)])) = (STATUS_SUCCESS, total', out') →
     reported total' out') as Happ.
  { destruct (Z.leb_spec KDBG_MAX_PHYSICAL_RANGES (sizeZ out)); [done|]. apply IH. split.
    - apply Forall_app_2; [done|]. apply Forall_singleton. unfold range_ok. cbn. lia.
    - rewrite ranges_total_app. cbn. lia.
    - lia.
    - rewrite sizeZ_app, sizeZ_cons. change (sizeZ (@nil (Z * Z))) with 0. lia. }
  destruct (last out) as [[pb pn]|] eqn:Hl; [|apply Happ].
  destruct (b <? pb + pn); [done|]. destruct (Z.eqb_spec b (pb + pn)) as [->|]; [|apply Happ].
  apply last_Some in Hl as [pre ->]. rewrite removelast_last. apply IH.
  apply Forall_app in Hf as [Hpre Hlast]. apply Forall_cons in Hlast as [Hlast _]. unfold range_ok in Hlast. cbn in Hlast.
  rewrite ranges_total_app in Ht. cbn in Ht. rewrite sizeZ_app in Hc. split.
  - apply Forall_app_2; [done|]. apply Forall_singleton. unfold range_ok. cbn. lia.
  - rewrite ranges_total_app. cbn. lia.
  - lia.
  - by rewrite sizeZ_app.
Qed.

(** ** What the client decodes *)

Definition range_bytes (r : Z * Z) : list Z := struct [(8, r.1); (8, r.2)].
Definition to_range (r : Z * Z) : PhysicalRange := mkPhysicalRange r.1 r.2.

Lemma range_bytes_size r : sizeZ (range_bytes r) = 16.
Proof. by apply sizeZ_struct. Qed.

Lemma field_app_r l k off n : sizeZ l ≤ off → field (l ++ k) off n = field k (off - sizeZ l) n.
Proof. intros Ho. unfold field. by rewrite slice_app_ge. Qed.

Lemma range_bytes_field r tail :
  range_ok r → field (range_bytes r ++ tail) 0 8 = r.1 ∧ field (range_bytes r ++ tail) 8 8 = r.2.
Proof.
  intros (H1 & H2 & H3). unfold range_bytes. decode_fields. change (256 ^ 8) with 18446744073709551616.
  split; apply Z.mod_small; lia.
Qed.

Lemma range_array_size out : sizeZ (mjoin (range_bytes <$> out)) = 16 * sizeZ out.
Proof.
  induction out as [|r out IH]; [done|].
  change (mjoin (range_bytes <$> r :: out)) with (range_bytes r ++ mjoin (range_bytes <$> out)).
  rewrite sizeZ_app, range_bytes_size, IH, sizeZ_cons. lia.
Qed.

(** The loop over the entries. *)
Lemma decode_ranges header pre rest tail :
  sizeZ header = 24 → Forall range_ok rest → 0 ≤ ranges_total pre →
  ranges_total pre + ranges_total rest ≤ u64_max →
  Live_GetPhysicalRanges_loop (header ++ mjoin (range_bytes <$> pre ++ rest) ++ tail) (length rest)
    (sizeZ pre) (ranges_total pre) (to_range <$> pre) =
  Success (ranges_total (pre ++ rest), to_range <$> (pre ++ rest)).
Proof.
  intros Hh. revert pre. induction rest as [|r rest IH]; intros pre Hok Hpos Hmax.
  { by rewrite app_nil_r. }
  apply Forall_cons in Hok as [Hr Hok]. pose proof Hr as (H1 & H2 & H3).
  cbn [Live_GetPhysicalRanges_loop length]. fold Live_GetPhysicalRanges_loop.
  assert (∀ off, 0 ≤ off → off + 8 ≤ 16 →
    field (header ++ mjoin (range_bytes <$> pre ++ r :: rest) ++ tail) (24 + 16 * sizeZ pre + off) 8 =
    field (range_bytes r ++ mjoin (range_bytes <$> rest) ++ tail) off 8) as Hf.
  { intros off Ho1 Ho2. rewrite fmap_app, join_app.
    change (mjoin (range_bytes <$> r :: rest)) with (range_bytes r ++ mjoin (range_bytes <$> rest)).
    pose proof (sizeZ_nonneg pre).
    rewrite field_app_r by lia. rewrite <- !app_assoc, field_app_r by (rewrite range_array_size; lia).
    rewrite range_array_size, Hh. f_equal. lia. }
  destruct (range_bytes_field r (mjoin (range_bytes <$> rest) ++ tail) Hr) as [Hb Hn].
  replace (24 + 16 * sizeZ pre) with (24 + 16 * sizeZ pre + 0) by lia.
  replace (32 + 16 * sizeZ pre) with (24 + 16 * sizeZ pre + 8) by lia.
  rewrite !Hf, Hb, Hn by lia. cbn [ranges_total foldr] in Hmax. fold (ranges_total rest) in Hmax.
  assert (0 ≤ ranges_total rest) as Hrest.
  { clear -Hok. induction Hok as [|x l (_ & Hx & _) _ IHl]; cbn; [done|]. fold (ranges_total l). lia. }
  unfold IsValid. cbn [range_base range_length].
  rewrite (proj2 (Z.eqb_neq r.2 0)), (proj2 (Z.leb_le r.1 _)), (proj2 (Z.ltb_ge _ (ranges_total pre))) by lia.
  cbn [negb andb orb].
  rewrite u64_id by (unfold is_u64; lia).
  replace (ranges_total pre + r.2) with (ranges_total (pre ++ [r]))
    by (rewrite ranges_total_app; cbn; lia).
  replace (sizeZ pre + 1) with (sizeZ (pre ++ [r])) by (rewrite sizeZ_app, sizeZ_cons; done).
  replace ((to_range <$> pre) ++ [mkPhysicalRange r.1 r.2]) with (to_range <$> (pre ++ [r]))
    by (by rewrite fmap_app).
  replace (pre ++ r :: rest) with ((pre ++ [r]) ++ rest) by (by rewrite <- app_assoc).
  apply IH; [done| |]; rewrite ranges_total_app; cbn; lia.
Qed.

Section Ranges.
Context {K : Type} `{KernelSpec K} `{NtErrors}.
Abbreviation Live := (KDbgBackend (DriverDevice K)).
Implicit Types b : Live.

Definition ranges_response (total : Z) (out : list (Z * Z)) : list Z :=
  struct [(4, 65560); (4, 0); (4, sizeZ out); (4, 0); (8, total)] ++
  mjoin (range_bytes <$> out) ++
  replicate (Z.to_nat (16 * (KDBG_MAX_PHYSICAL_RANGES - sizeZ out))) 0.

Lemma ranges_response_size total out :
  sizeZ out ≤ KDBG_MAX_PHYSICAL_RANGES → sizeZ (ranges_response total out) = 65560.
Proof.
  intros Hc. unfold ranges_response. rewrite !sizeZ_app, range_array_size, sizeZ_struct by done.
  change (struct_size _) with 24.
  match goal with |- context [sizeZ (replicate ?n ?x)] =>
    replace (sizeZ (replicate n x)) with (Z.of_nat n) by (unfold sizeZ; by rewrite length_replicate) end.
  unfold KDBG_MAX_PHYSICAL_RANGES in *. lia.
Qed.

Lemma handle_ranges_stage i (s : Session K) r s' :
  stage_ok s → handle_get_physical_ranges i s = (r, s') → stage_ok s'.
Proof.
  intros Hs. unfold handle_get_physical_ranges. destruct (_ || _); [by intros [= <- <-]|].
  destruct (MmGetPhysicalMemoryRanges _) as [[rs|] k]; [|by intros [= <- <-]].
  destruct (ranges_loop _ _ _) as [[st t] o]. destruct (negb _); by intros [= <- <-].
Qed.

(** The list the client obtains. *)
Lemma ready_ranges b ranges total out :
  ready b → (MmGetPhysicalMemoryRanges (w_kernel (dd_world (kb_device b)))).1 = Some ranges →
  ranges_loop ranges 0 [] = (STATUS_SUCCESS, total, out) → out ≠ [] →
  ∃ d', Live_GetPhysicalRanges b = (Success (to_range <$> out), b <| kb_device := d' |>) ∧
    ready_device d' ∧ quiet_device (kb_device b) d'.
Proof.
  intros Hb Hk Hl Hne.
  assert (reported total out) as [Hok Htot Hbound Hcount] by (by eapply ranges_loop_reported).
  destruct (ready_Ioctl IOCTL_GET_PHYSICAL_RANGES (zeros 65560) 0 65560
    "KDbgBackend::GetPhysicalRanges" b Hb) as (c & status & o & s' & d' & Hc & Hh & Hi & Hr & Hp & _ & _).
  { intros i s r s' Hcode Hs. rewrite handle_ranges_code by done. by apply handle_ranges_stage. }
  assert (status = STATUS_SUCCESS ∧ o = ranges_response total out) as [-> ->].
  { rewrite handle_ranges_code in Hh by done. unfold handle_get_physical_ranges, device_session in Hh.
    change (no_buffer _ || _ || _) with false in Hh. cbv iota in Hh. cbn [s_kernel] in Hh.
    destruct (MmGetPhysicalMemoryRanges _) as [rs k]. cbn in Hk. subst rs. rewrite Hl in Hh.
    cbn [negb] in Hh. change (STATUS_SUCCESS =? STATUS_SUCCESS) with true in Hh. cbn [negb] in Hh.
    injection Hh as <- <- _. done. }
  specialize (Hi eq_refl). pose proof (Ioctl_ranges_quiet _ _ _ _ _ _ _ _ Hi) as [Hq _].
  exists d'. split; [|split; [done|exact Hq]].
  unfold Live_GetPhysicalRanges. cbv zeta. rewrite Hi, ranges_response_size by done.
  set (tail := drop _ _). unfold ranges_response. rewrite <- !app_assoc. decode_fields.
  pose proof (sizeZ_nonneg out) as Hn0. unfold KDBG_MAX_PHYSICAL_RANGES in Hcount.
  assert (sizeZ out ≠ 0) as Hn1 by (intros Hz; by apply sizeZ_nil_inv in Hz).
  rewrite (Z.mod_small (sizeZ out)) by (change (256 ^ 4) with 4294967296; lia).
  rewrite (Z.mod_small total) by (change (256 ^ 8) with 18446744073709551616; lia).
  rewrite (proj2 (Z.eqb_neq (sizeZ out) 0)), (proj2 (Z.ltb_ge _ (sizeZ out)))
    by (unfold KDBG_MAX_PHYSICAL_RANGES; lia).
  match goal with |- context [if ?c then _ else _] => change c with false end. cbv iota.
  replace (Z.to_nat (sizeZ out)) with (length out) by (unfold sizeZ; lia).
  pose proof (decode_ranges (struct [(4, 65560); (4, 0); (4, sizeZ out); (4, 0); (8, total)]) [] out
    (replicate (Z.to_nat (16 * (KDBG_MAX_PHYSICAL_RANGES - sizeZ out))) 0 ++ tail)) as Hd.
  cbn [app fmap list_fmap] in Hd. change (ranges_total []) with 0 in Hd. change (sizeZ (@nil (Z * Z))) with 0 in Hd.
  rewrite Hd; [|by apply sizeZ_struct|done|lia|lia]. rewrite <- Htot, Z.eqb_refl. done.
Qed.
End Ranges.

Lemma consistent_page a :
  IsConsistent a = true →
  is_u64 (physical_address a) ∧ Z.land (physical_address a) (KDBG_PAGE_SIZE - 1) = 0.
Proof.
  unfold IsConsistent. destruct (_ <? _); [done|]. intros Hc. boolify. subst.
  match goal with E : _ = physical_address a |- _ => rewrite <- E end.
  split; [apply u64_range|]. change (KDBG_PAGE_SIZE - 1) with (Z.ones 12).
  rewrite Z.land_ones by lia. unfold u64. rewrite Z.shiftl_mul_pow2 by lia.
  change (2 ^ 12) with 4096. change 18446744073709551616 with (4096 * 4503599627370496).
  rewrite Z.mul_comm, Z.mul_mod_distr_l by lia. rewrite Z.mul_comm. apply Z.mod_mul. lia.
Qed.

Section Apply.
Context {K : Type} `{KernelSpec K} `{NtErrors}.
Abbreviation Live := (KDbgBackend (DriverDevice K)).
Implicit Types b : Live.

(** The kernel reports RAM ranges that the driver accepts and that contain the page. *)
Definition page_reported (pa : Z) : Prop :=
  ∀ k : K, ∃ ranges total out,
    (MmGetPhysicalMemoryRanges k).1 = Some ranges ∧
    ranges_loop ranges 0 [] = (STATUS_SUCCESS, total, out) ∧
    existsb (λ range, Contains range pa kPhysicalPageSize) (to_range <$> out) = true.

(** One transaction of the session over a connected client. *)
Lemma ready_tx s t (b : Live) expected desired :
  target_ s = Some t → TargetIsConsistent t = true →
  ready b → reliable (K := K) (physical_address (address t)) →
  page_reported (physical_address (address t)) →
  is_page expected → is_page desired →
  ∃ res b', run_tx s (physical_address (address t)) expected desired b = (TxObserved res (Success tt), b') ∧
    ready b' ∧ live_gate b' = false ∧ driver_gate (kb_device b') = false ∧
    transaction_report b (physical_address (address t)) expected desired res b'.
Proof.
  intros Ht Hcons Hb Hrel Hrep He Hd. set (pa := physical_address (address t)) in *.
  assert (is_u64 pa ∧ Z.land pa (KDBG_PAGE_SIZE - 1) = 0) as [Hpa Hal].
  { apply consistent_page. unfold TargetIsConsistent in Hcons. by destruct (IsConsistent _). }
  destruct (Hrep (w_kernel (dd_world (kb_device b)))) as (ranges & total & out & Hk & Hl & Hex).
  destruct (ready_ranges b ranges total out Hb Hk Hl) as (d1 & Hr1 & Hd1 & [Hq1 _]).
  { intros ->. done. }
  unfold run_tx, ValidatePageRange. rewrite Ht. cbn [GetPhysicalRanges KDbgBackend_IMemoryBackend].
  rewrite Hr1. fold pa. rewrite Hex. cbn [negb].
  set (b1 := b <| kb_device := d1 |>).
  assert (ready b1) as Hb1 by (split; [exact (rb_open _ Hb)|exact (rb_next _ Hb)|exact Hd1]).
  destruct (ready_enable b1 Hb1) as (d2 & Hr2 & Hd2 & Hg2 & Hk2).
  unfold gate_Enable. cbn [SetWriteEnabled KDbgBackend_IMemoryBackend]. rewrite Hr2.
  set (b2 := _ <| kb_write_enabled := true |>).
  assert (ready b2) as Hb2 by (split; [exact (rb_open _ Hb)|exact (rb_next _ Hb)|exact Hd2]).
  assert (∀ x, live_phys b2 x = live_phys b x) as Hm2.
  { intros x. change (live_phys b2 x) with (kmem (w_kernel (dd_world d2)) x). rewrite Hk2. apply Hq1. }
  destruct (ready_compare pa expected desired b2 Hb2) as (res & b3 & Hr3 & Hb3 & Hrep3);
    [exact Hg2|exact Hrel|exact Hpa|exact Hal|exact He|exact Hd|].
  cbn [CompareWritePhysicalPage KDbgBackend_IMemoryBackend]. rewrite Hr3.
  destruct (ready_disable "KDbgBackend::SetWriteEnabled" b3 Hb3) as (b4 & Hr4 & Hb4 & Hen4 & Hdg4 & Hm4).
  unfold close_guard, gate_Close, gate_destroy. cbn [negb SetWriteEnabled KDbgBackend_IMemoryBackend].
  unfold Live_SetWriteEnabled at 1. cbn [negb]. rewrite Hr4.
  exists res, b4. split; [reflexivity|]. split; [exact Hb4|].
  split; [unfold live_gate; by rewrite Hen4|]. split; [exact Hdg4|].
  unfold transaction_report in *. cbv zeta in *. rewrite Hm4.
  rewrite (mem_bytes_ext _ (live_phys b)) in Hrep3 by (intros; apply Hm2).
  destruct (decide _).
  - destruct Hrep3 as (-> & Hpg & Hout). split_and!; [done|done|]. intros x Hx. rewrite (Hout x Hx). apply Hm2.
  - destruct Hrep3 as [Hc Hm]. split; [done|]. intros x. rewrite Hm. apply Hm2.
Qed.

Lemma apply_finish_applied s res :
  session_wf s → outcome res = Applied → transferred res = kPhysicalPageSize →
  readback res = working_ s →
  ∃ s', apply_finish s (TxObserved res (Success tt)) = (Success tt, s') ∧
    baseline_ s' = working_ s ∧ working_ s' = working_ s ∧ IsDirty s' = false ∧ state_ s' = PS_Clean.
Proof.
  intros Hwf Ho Ht Hr. unfold apply_finish. rewrite bool_decide_eq_false_2 by congruence.
  assert (not_verified res (verify_readback res (working_ s) (apply_observe res (apply_writing s))) = false) as ->.
  { unfold not_verified, verify_readback, apply_observe. rewrite Ht.
    rewrite (bool_decide_eq_false_2 (outcome res = Conflict)) by congruence.
    rewrite (bool_decide_eq_true_2 (outcome res = Applied)) by done. cbn [negb orb].
    rewrite bool_decide_eq_true_2; [done|]. cbn. rewrite Hr. apply mismatch_offsets_refl. }
  eexists. split; [reflexivity|]. unfold apply_commit. cbn. rewrite Hr.
  split_and!; done.
Qed.

Lemma apply_finish_conflict s res :
  outcome res = Conflict →
  ∃ e s', apply_finish s (TxObserved res (Success tt)) = (Failure e, s') ∧
    code e = ConcurrentModification ∧ working_ s' = working_ s ∧ state_ s' = PS_Conflict.
Proof.
  intros Ho. unfold apply_finish. rewrite bool_decide_eq_true_2 by done.
  eexists _, _. split; [reflexivity|]. split_and!; [done| |done].
  unfold apply_observe. by rewrite bool_decide_eq_true_2.
Qed.

(** [C4] Applying an edited, unlocked page through the whole stack, session, client,
    wire format, driver and kernel: on a connected client and a kernel whose services
    succeed, the apply always returns with both sides of the gate closed.  If the
    page in memory is the one that was loaded, it succeeds, the page holds exactly the
    edited bytes and no other byte of memory changed; otherwise it reports the
    conflict, memory is unchanged and the edits are kept. *)
Theorem live_apply_exact s t (b : Live) :
  session_wf s → target_ s = Some t → IsDirty s = true → write_unlocked_ s = true →
  ready b → reliable (K := K) (physical_address (address t)) →
  page_reported (physical_address (address t)) →
  let pa := physical_address (address t) in
  ∃ r s' b', ApplyAndVerify s b = (r, s', b') ∧ ready b' ∧
    live_gate b' = false ∧ driver_gate (kb_device b') = false ∧
    if decide (mem_bytes (live_phys b) pa kPhysicalPageSize = baseline_ s) then
      r = Success tt ∧ mem_bytes (live_phys b') pa kPhysicalPageSize = working_ s ∧
      (∀ x, x < pa ∨ pa + kPhysicalPageSize ≤ x → live_phys b' x = live_phys b x) ∧
      baseline_ s' = working_ s ∧ working_ s' = working_ s ∧ IsDirty s' = false ∧ state_ s' = PS_Clean
    else
      (∃ e, r = Failure e ∧ code e = ConcurrentModification) ∧
      (∀ x, live_phys b' x = live_phys b x) ∧ working_ s' = working_ s ∧ state_ s' = PS_Conflict.
Proof.
  intros Hwf Ht Hdirty Hul Hb Hrel Hrep. cbv zeta.
  rewrite ApplyAndVerify_tx, Ht. unfold IsDirty in Hdirty. rewrite Hdirty, Hul. cbn [andb].
  destruct (ready_tx (apply_begin s) t b (baseline_ s) (working_ s))
    as (res & b' & Hrun & Hb' & Hg & Hdg & Htr);
    [done|by apply (wf_target s Hwf)|done..|apply (wf_baseline s Hwf)|apply (wf_working s Hwf)|].
  rewrite Hrun. unfold transaction_report in Htr. cbv zeta in Htr.
  change KDBG_PAGE_SIZE with kPhysicalPageSize in Htr.
  destruct (decide (mem_bytes (live_phys b) (physical_address (address t)) kPhysicalPageSize = baseline_ s)).
  - destruct Htr as (-> & Hpg & Hout).
    destruct (apply_finish_applied s (mkCompareWriteResult Applied kPhysicalPageSize
      KDBG_PHYSICAL_PAGE_NO_MISMATCH 0 (working_ s)) Hwf eq_refl eq_refl eq_refl) as (s' & Hf & Hs).
    exists (Success tt), s', b'. rewrite Hf.
    exact (conj eq_refl (conj Hb' (conj Hg (conj Hdg (conj eq_refl (conj Hpg (conj Hout Hs))))))).
  - destruct Htr as [(offset & _ & ->) Hm].
    match goal with |- context [apply_finish s (TxObserved ?res _)] =>
      destruct (apply_finish_conflict s res eq_refl) as (e & s' & Hf & Hc & Hs) end.
    exists (Failure e), s', b'. rewrite Hf.
    exact (conj eq_refl (conj Hb' (conj Hg (conj Hdg
      (conj (ex_intro _ e (conj eq_refl Hc)) (conj Hm Hs)))))).
Qed.
End Apply.
