(* ===== verification/LiveOpen.v ===== *)
(** Opening the device: the handshake of the client with the driver.

    The whole stack at a concrete machine: a session, the client, the driver and a
    kernel whose services succeed, over a zeroed memory. *)

From stdpp Require Import gmap.
From S2P Require Import Prelude CppStd Wire Common KernelDriver KernelDispatch KernelOwner KernelGate KernelCas MemoryBackend KDbgBackend LiveBackend LiveSession PfnAddress X64PageTable EditBuffer PageSession PageTransaction LiveApply.

#[local] Open Scope Z_scope.

Section Open.
Context {K : Type} `{KernelSpec K} `{NtErrors}.
Abbreviation Live := (KDbgBackend (DriverDevice K)).
Implicit Types d : DriverDevice K.
Implicit Types b : Live.

(** ** The version *)

Definition version_response (la57 : bool) : list Z :=
  struct [(4, 24); (4, 7); (4, 1); (4, 1); (4, KDBG_MAX_TRANSFER_SIZE);
          (4, Z.lor 0x1EF (if la57 then 0x10 else 0))].

Lemma version_accepted la57 tail :
  check_version 24 (version_response la57 ++ tail) = None ∧
  field (version_response la57 ++ tail) 4 4 = KDBG_ABI_VERSION ∧
  field (version_response la57 ++ tail) 16 4 = KDBG_MAX_TRANSFER_SIZE ∧
  negb (Z.land (field (version_response la57 ++ tail) 20 4) 0x10 =? 0) = la57.
Proof.
  unfold check_version, version_response. cbv zeta. decode_fields. by destruct la57.
Qed.

Lemma ready_version op b :
  ready b →
  ∃ d' tail, Ioctl IOCTL_GET_VERSION (zeros 24) 0 24 op b =
      (Success 24, version_response (la57_active (w_kernel (dd_world (kb_device b)))) ++ tail,
       b <| kb_device := d' |>) ∧
    ready_device d' ∧ dd_pid d' = dd_pid (kb_device b) ∧
    driver_gate d' = driver_gate (kb_device b) ∧
    w_kernel (dd_world d') = w_kernel (dd_world (kb_device b)).
Proof.
  intros Hb.
  assert (∀ i (s : Session K), irp_code i = IOCTL_GET_VERSION → handle i s = handle_get_version i s) as Hcode.
  { intros i s Hc. unfold handle. by rewrite Hc. }
  destruct (ready_Ioctl IOCTL_GET_VERSION (zeros 24) 0 24 op b Hb)
    as (c & status & out & s' & d' & Hc & Hh & Hi & Hr & Hp & Hg & Hk).
  { intros i s r s' Hi Hs. rewrite Hcode by done. unfold handle_get_version.
    destruct (_ || _); by intros [= <- <-]. }
  rewrite Hcode in Hh by done. unfold handle_get_version in Hh.
  change (no_buffer _ || _ || _) with false in Hh. cbv zeta iota in Hh. injection Hh as <- <- <-.
  eexists d', _. rewrite (Hi eq_refl), sizeZ_struct by done.
  rewrite (driver_gate_context _ _ Hc). split_and!; [reflexivity|done..].
Qed.

(** ** The handle *)

(** The calling process may open the device. *)
Definition may_open d : bool :=
  match ds_owner_process (w_state (dd_world d)) with Some p => p =? dd_process d | None => true end.

Lemma device_create_free d :
  (ExAllocatePool (w_kernel (dd_world d))).1 = true → may_open d = true →
  0 < dd_pid d ≤ u32_max → 0 ≤ ds_open_handles (w_state (dd_world d)) < u32_max →
  0 ≤ ds_last_stage (w_state (dd_world d)) ≤ STAGE_READBACK →
  ∃ d', device_create d = (None, d') ∧ ready_device d' ∧ driver_gate d' = false ∧
    ∀ x, kmem (w_kernel (dd_world d')) x = kmem (w_kernel (dd_world d)) x.
Proof.
  unfold may_open. intros Hpool Hown Hpid Hh Hst. unfold device_create, DispatchCreate.
  destruct (ExAllocatePool _) as [[] k] eqn:Ek; [|discriminate Hpool].
  assert ((match ds_owner_process (w_state (dd_world d)) with
           | Some p => negb (p =? dd_process d) | None => false end) = false) as ->.
  { destruct (ds_owner_process _); [by rewrite Hown|done]. }
  eexists. split; [reflexivity|]. split; [split|split].
  - cbn. eexists. rewrite lookup_insert_eq. done.
  - done.
  - done.
  - cbn. lia.
  - done.
  - unfold driver_gate. cbn. by rewrite lookup_insert_eq.
  - cbn. by apply (spec_pool _ _ _ Ek).
Qed.

Lemma device_create_taken d :
  may_open d = false →
  ∃ error d', device_create d = (Some error, d') ∧ w_state (dd_world d') = w_state (dd_world d) ∧
    w_contexts (dd_world d') = w_contexts (dd_world d).
Proof.
  unfold may_open. intros Hown. unfold device_create, DispatchCreate.
  destruct (ExAllocatePool _) as [[] k]; [|by eexists _, _].
  destruct (ds_owner_process _) as [p|]; [|discriminate Hown]. rewrite Hown. by eexists _, _.
Qed.

(** Opening the driver from a fresh client: if no other process owns the device
    the handshake succeeds, and the client is connected with the ABI and transfer cap
    of the driver, the paging mode of the machine and both sides of the write gate
    closed, memory untouched; if another process owns it, opening fails, and neither
    the client nor the driver keeps anything of the attempt. *)
Theorem live_open d :
  (ExAllocatePool (w_kernel (dd_world d))).1 = true → 0 < dd_pid d ≤ u32_max →
  0 ≤ ds_open_handles (w_state (dd_world d)) < u32_max →
  0 ≤ ds_last_stage (w_state (dd_world d)) ≤ STAGE_READBACK →
  ∃ r b', Live_Open (initial_backend d) = (r, b') ∧
    if may_open d then
      r = Success tt ∧ ready b' ∧ kb_connected b' = true ∧ live_gate b' = false ∧
      driver_gate (kb_device b') = false ∧ kb_abi_version b' = KDBG_ABI_VERSION ∧
      kb_max_transfer b' = KDBG_MAX_TRANSFER_SIZE ∧
      kb_la57 b' = la57_active (w_kernel (dd_world (kb_device b'))) ∧
      ∀ x, live_phys b' x = kmem (w_kernel (dd_world d)) x
    else
      (∃ e, r = Failure e) ∧ kb_open b' = false ∧ kb_connected b' = false ∧
      w_state (dd_world (kb_device b')) = w_state (dd_world d) ∧
      w_contexts (dd_world (kb_device b')) = w_contexts (dd_world d).
Proof.
  intros Hpool Hpid Hh Hst. unfold Live_Open. cbn [kb_connected kb_device initial_backend].
  change (CreateFile d) with (device_create d). destruct (may_open d) eqn:Hm.
  - destruct (device_create_free d) as (d1 & -> & Hd1 & Hg1 & Hk1); [done..|].
    set (b1 := _ <| kb_open := true |>).
    assert (ready b1) as Hb1 by (split; [done| |exact Hd1]; by unfold is_u64).
    destruct (ready_version "KDbgBackend::Open/GET_VERSION" b1 Hb1)
      as (d2 & tail & -> & Hd2 & Hp2 & Hg2 & Hk2). cbv zeta.
    destruct (version_accepted (la57_active (w_kernel (dd_world (kb_device b1)))) tail)
      as (-> & -> & -> & ->).
    set (b2 := _ <| kb_write_enabled := false |>).
    assert (ready b2) as Hb2 by (split; [done| |exact Hd2]; by unfold is_u64).
    destruct (ready_status b2 Hb2) as (st & d3 & -> & Hst3 & Hd3 & Hg3 & Hk3).
    change (kb_device b2) with d2 in *. change (kb_device b1) with d1 in *.
    rewrite Hst3, Hg2, Hg1. cbv iota.
    eexists (Success tt), _. split; [reflexivity|]. split; [reflexivity|].
    split; [split; [done| |exact Hd3]; by unfold is_u64|]. split; [reflexivity|].
    split; [reflexivity|]. split; [change (driver_gate d3 = false); congruence|].
    split; [reflexivity|]. split; [reflexivity|].
    cbn. unfold live_phys. cbn. rewrite Hk3, Hk2. split; [reflexivity|exact Hk1].
  - destruct (device_create_taken d Hm) as (error & d' & -> & Hs & Hc).
    eexists _, _. split; [reflexivity|]. split; [eexists; reflexivity|].
    exact (conj eq_refl (conj eq_refl (conj Hs Hc))).
Qed.
End Open.

#[local] Instance demo_errors : NtErrors := λ status, if status =? STATUS_ACCESS_DENIED then 5 else 31.

Definition live_device : DriverDevice MockKernel := mkDriverDevice (initial_world demo_kernel) 0 77 7.
Definition live_client : KDbgBackend (DriverDevice MockKernel) :=
  (Live_Open (initial_backend live_device)).2.

Lemma live_open_witness :
  (Live_Open (initial_backend live_device)).1 = Success tt ∧ ready live_client ∧
  live_gate live_client = false.
Proof.
  destruct (live_open live_device) as (r & b' & Ho & Hx); [done|cbn; lia|cbn; lia|done|].
  change (may_open live_device) with true in Hx. destruct Hx as (-> & Hr & _ & Hg & _).
  unfold live_client. rewrite Ho. exact (conj eq_refl (conj Hr Hg)).
Defined.

(** Frame 3 is loaded through the client, one byte is edited, one apply unlocked. *)
Definition live_target : PhysicalWriteTarget := TargetRawPfn (mkPfnAddress 3 0x3000).
Definition live_load : Result unit * PhysicalPageSession * KDbgBackend (DriverDevice MockKernel) :=
  Load live_target make_PhysicalPageSession live_client.
Definition live_edited : PhysicalPageSession := (EditByte 16 0xAA live_load.1.2).2.
Definition live_staged : PhysicalPageSession := (UnlockForOneApply 3 live_edited).2.

Lemma live_staged_wf : session_wf live_staged.
Proof.
  unfold live_staged. eapply (UnlockForOneApply_wf 3 live_edited); [|apply surjective_pairing].
  unfold live_edited. eapply (EditByte_wf 16 0xAA); [|lia|apply surjective_pairing].
  unfold live_load.
  destruct (Load live_target make_PhysicalPageSession live_client) as [[r s] b] eqn:E.
  exact (Load_wf _ _ _ _ _ _ session_wf_init E).
Qed.

Lemma live_page_reported : page_reported (K := MockKernel) 0x3000.
Proof. intros k. exists mock_ranges, 0x10000, [(0x1000, 0x10000)]. split_and!; reflexivity. Qed.

Lemma live_client_ready : ready live_client.
Proof.
  split; [reflexivity|split; vm_compute; congruence|]. split.
  - exists (demo_context false). split_and!; vm_compute; reflexivity.
  - vm_compute. reflexivity.
  - vm_compute. split; [reflexivity|discriminate].
  - vm_compute. split; [reflexivity|discriminate].
  - vm_compute. split; discriminate.
Qed.

Lemma live_apply_exact_witness :
  ∃ s' b', ApplyAndVerify live_staged live_client = (Success tt, s', b') ∧
    mem_bytes (live_phys b') 0x3000 kPhysicalPageSize = working_ live_staged ∧
    live_gate b' = false ∧ driver_gate (kb_device b') = false ∧ IsDirty s' = false.
Proof.
  assert (target_ live_staged = Some live_target) as Ht by (vm_compute; reflexivity).
  assert (IsDirty live_staged = true) as Hd by (vm_compute; reflexivity).
  assert (write_unlocked_ live_staged = true) as Hu by (vm_compute; reflexivity).
  assert (mem_bytes (live_phys live_client) 0x3000 kPhysicalPageSize = baseline_ live_staged) as Hb
    by (vm_compute; reflexivity).
  destruct (live_apply_exact live_staged live_target live_client live_staged_wf Ht Hd Hu live_client_ready
    demo_reliable live_page_reported) as (r & s' & b' & Ha & _ & Hg & Hdg & Hx).
  change (physical_address (address live_target)) with 0x3000 in Hx. rewrite decide_True in Hx by exact Hb.
  destruct Hx as (-> & Hm & _ & _ & _ & Hs & _).
  exists s', b'. exact (conj Ha (conj Hm (conj Hg (conj Hdg Hs)))).
Defined.
