(* ===== verification/WatchList.v ===== *)
(** [core/scanner/WatchList]: the table of watched values, its writes and its freeze
    tick, over any process memory.

    [WatchList::Save] and [WatchList::Load]: the table as a file bound to its process. *)

From stdpp Require Import list.
From stdpp Require Import gmap.
From S2P Require Import Prelude CppStd Wire Common ProcessMemory ValueCodec FileSystem.

#[local] Open Scope Z_scope.

(** ** State *)

Record WatchEntry := mkWatchEntry {
  w_id : Z;
  w_address : Z;
  w_type : ScanValueType;
  w_description : string;
  w_hexadecimal : bool;
  w_frozen : bool;
  w_value : list Z;
  w_frozen_value : list Z;
  w_last_error : string
}.

#[export] Instance WatchEntry_eta : Eta WatchEntry := fun e =>
  mkWatchEntry (w_id e) (w_address e) (w_type e) (w_description e) (w_hexadecimal e) (w_frozen e)
    (w_value e) (w_frozen_value e) (w_last_error e).

Record WatchList := mkWatchList { wl_entries : list WatchEntry; wl_next_id : Z }.
#[export] Instance WatchList_eta : Eta WatchList := fun w => mkWatchList (wl_entries w) (wl_next_id w).
Definition make_WatchList : WatchList := mkWatchList [] 1.

Definition kMaxPersistedEntries : Z := 100000.
Definition kMaxDescriptionBytes : Z := 4096.

Definition text_size (text : string) : Z := sizeZ (label_bytes text).

(** [Find]: the place of the first entry with an id, and the entry. *)
Definition Find (id : Z) (w : WatchList) : option (nat * WatchEntry) :=
  list_find (λ e, w_id e = id) (wl_entries w).

(** The object the pointer [Find] returned points at. *)
Definition set_entry (i : nat) (e : WatchEntry) (w : WatchList) : WatchList :=
  w <| wl_entries := <[i := e]> (wl_entries w) |>.

Definition entry_error (message : string) (e : WatchEntry) : WatchEntry :=
  e <| w_last_error := message |>.

Section Watch.
Context {P : Type} `{IProcessMemory P} `{FloatText}.

(** ** The write guard *)

(** [ProcessWriteArmGuard]: the boolean is its member [armed_]. *)
Definition guard_Disarm (armed : bool) (p : P) : Result unit * bool * P :=
  if negb armed then (Success tt, armed, p)
  else
    match SetWritesArmed false p with
    | (Success _, p) => (Success tt, false, p)
    | (Failure e, p) =>
        match SetWritesArmed false p with
        | (Success _, p) =>
            (Failure (e <| message := message e +:+
               "; a cleanup retry locked the gate, but the transaction is failed" |>), false, p)
        | (Failure retry, p) =>
            (Failure (e <| message := message e +:+ "; cleanup retry also failed: " +:+
               message retry |>), armed, p)
        end
    end.
Definition guard_destroy (armed : bool) (p : P) : P :=
  if armed then (SetWritesArmed false p).2 else p.

(** The [finish] lambda, and the destructor of the guard on the way out. *)
Definition finish (outcome : Result unit) (armed : bool) (w : WatchList) (p : P)
    : Result unit * WatchList * P :=
  match guard_Disarm armed p with
  | (Failure e, armed, p) => (Failure e, w, guard_destroy armed p)
  | (Success _, armed, p) => (outcome, w, guard_destroy armed p)
  end.

(** ** Adding and removing *)

Definition Add (address : Z) (type : ScanValueType) (description : string) (hexadecimal : bool)
    (w : WatchList) (p : P) : Result Z * WatchList * P :=
  let width := FixedValueWidth type in
  if (address =? 0) || (width =? 0) || (u64_max - width <? address) then
    (Failure (MakeError InvalidArgument
       "Watch entries require a non-zero address and fixed-width value type" "WatchList::Add"), w, p)
  else if (kMaxPersistedEntries <=? sizeZ (wl_entries w)) ||
          (kMaxDescriptionBytes <? text_size description) then
    (Failure (MakeErrorFull LimitReached "Address-list entry or description limit was reached"
       "WatchList::Add" 0 kMaxPersistedEntries (sizeZ (wl_entries w))), w, p)
  else
    match Read address width p with
    | (Failure e, p) => (Failure e, w, p)
    | (Success bytes, p) =>
        if negb (sizeZ bytes =? width) then
          (Failure (MakeErrorFull ShortRead "Watch entry initial read was incomplete"
             "WatchList::Add" 0 width (sizeZ bytes)), w, p)
        else
          let e := mkWatchEntry (wl_next_id w) address type description hexadecimal false bytes [] "" in
          (Success (w_id e), mkWatchList (wl_entries w ++ [e]) (u64 (wl_next_id w + 1)), p)
    end.

Definition Remove (id : Z) (w : WatchList) : Result unit * WatchList :=
  match Find id w with
  | None => (Failure (MakeError NotFound "Watch entry was not found" "WatchList::Remove"), w)
  | Some (i, _) => (Success tt, w <| wl_entries := delete i (wl_entries w) |>)
  end.

Definition Clear (w : WatchList) : WatchList := w <| wl_entries := [] |>.

(** ** Refreshing *)

(** One entry: refreshed, or marked with the error. *)
Definition refresh_entry (e : WatchEntry) (p : P) : bool * WatchEntry * P :=
  let width := FixedValueWidth (w_type e) in
  match Read (w_address e) (u32 width) p with
  | (Failure er, p) => (false, entry_error (message er) e, p)
  | (Success bytes, p) =>
      if negb (sizeZ bytes =? width) then
        (false, entry_error "Watch refresh returned a short read" e, p)
      else (true, e <| w_value := bytes |> <| w_last_error := "" |>, p)
  end.

(** The entries in order, and the number of failures. *)
Fixpoint refresh_loop (entries : list WatchEntry) (p : P) : list WatchEntry * Z * P :=
  match entries with
  | [] => ([], 0, p)
  | e :: entries =>
      let '(ok, e, p) := refresh_entry e p in
      let '(entries, failures, p) := refresh_loop entries p in
      (e :: entries, (if ok then 0 else 1) + failures, p)
  end.

Definition Refresh (w : WatchList) (p : P) : Result unit * WatchList * P :=
  let '(entries, failures, p) := refresh_loop (wl_entries w) p in
  let w := w <| wl_entries := entries |> in
  if negb (failures =? 0) then
    (Failure (MakeErrorFull ShortRead "One or more address-list values could not be refreshed"
       "WatchList::Refresh" 0 (sizeZ entries) (sizeZ entries - failures)), w, p)
  else (Success tt, w, p).

(** ** Writing a value *)

(** The write and its verification, from the accepted expected-before value on. *)
Definition commit_value (i : nat) (e : WatchEntry) (encoded : list Z) (armed : bool) (w : WatchList)
    (p : P) : Result unit * WatchList * P :=
  let op := "WatchList::WriteValue" in
  match Write (w_address e) encoded p with
  | (Failure er, p) => finish (Failure er) armed (set_entry i (entry_error (message er) e) w) p
  | (Success written, p) =>
      if negb (written =? sizeZ encoded) then
        let msg := "Watch value write was incomplete" in
        finish (Failure (MakeErrorFull ShortWrite msg op 0 (sizeZ encoded) written)) armed
          (set_entry i (entry_error msg e) w) p
      else
        let '(disarm, armed, p) := guard_Disarm armed p in
        let outcome r := match disarm with Success _ => r | Failure er => Failure er end in
        match Read (w_address e) (u32 (sizeZ encoded)) p with
        | (Failure er, p) =>
            (outcome (Failure er), set_entry i (entry_error (message er) e) w, guard_destroy armed p)
        | (Success readback, p) =>
            if negb (sizeZ readback =? sizeZ encoded) then
              let msg := "Watch value read-back returned a short read" in
              (outcome (Failure (MakeErrorFull ShortRead msg op 0 (sizeZ encoded) (sizeZ readback))),
               set_entry i (entry_error msg e) w, guard_destroy armed p)
            else if negb (bytes_eqb readback encoded) then
              let msg := "Watch value read-back verification failed" in
              (outcome (Failure (MakeError VerificationMismatch msg op)),
               set_entry i (entry_error msg e) w, guard_destroy armed p)
            else
              let e := e <| w_value := readback |> in
              let e := if w_frozen e then e <| w_frozen_value := readback |> else e in
              (outcome (Success tt), set_entry i (e <| w_last_error := "" |>) w, guard_destroy armed p)
        end
  end.

Definition WriteValue (id : Z) (value_text : chars) (w : WatchList) (p : P)
    : Result unit * WatchList * P :=
  let op := "WatchList::WriteValue" in
  let armed := WritesArmed p in
  match Find id w with
  | None => finish (Failure (MakeError NotFound "Watch entry was not found" op)) armed w p
  | Some (i, e) =>
      match EncodeValue (w_type e) value_text (w_hexadecimal e) with
      | Failure er => finish (Failure er) armed w p
      | Success encoded =>
          if negb armed then
            finish (Failure (MakeError WriteLocked
              "Arm process writes before editing an address-list value" op)) armed w p
          else
            match Read (w_address e) (u32 (sizeZ encoded)) p with
            | (Failure er, p) =>
                finish (Failure er) armed (set_entry i (entry_error (message er) e) w) p
            | (Success before, p) =>
                if negb (sizeZ before =? sizeZ (w_value e)) then
                  let msg := "Address-list preflight returned a short read" in
                  finish (Failure (MakeErrorFull ShortRead msg op 0 (sizeZ (w_value e)) (sizeZ before)))
                    armed (set_entry i (entry_error msg e) w) p
                else if negb (bytes_eqb before (w_value e)) then
                  let msg := "Value changed after it was presented; refresh before writing" in
                  finish (Failure (MakeError ConcurrentModification msg op)) armed
                    (set_entry i (entry_error msg e) w) p
                else commit_value i e encoded armed w p
            end
      end
  end.

(** ** Freezing *)

Definition SetFrozen (id : Z) (frozen : bool) (w : WatchList) (p : P) : Result unit * WatchList :=
  match Find id w with
  | None => (Failure (MakeError NotFound "Watch entry was not found" "WatchList::SetFrozen"), w)
  | Some (i, e) =>
      if frozen && negb (WritesArmed p) then
        (Failure (MakeError WriteLocked "Arm process writes before freezing an address"
           "WatchList::SetFrozen"), w)
      else
        (Success tt, set_entry i (e <| w_frozen := frozen |>
                                    <| w_frozen_value := if frozen then w_value e else [] |>) w)
  end.

(** How the tick leaves one entry: done, failed, or ended by a gate that could not be
    closed, with the error and the member of the entry's guard. *)
Inductive Tick := TickDone | TickFailed | TickAborted (error : Error) (armed : bool).

(** The entry's own arm, write and read-back. *)
Definition freeze_write (e : WatchEntry) (p : P) : Tick * WatchEntry * P :=
  match SetWritesArmed true p with
  | (Failure er, p) => (TickFailed, entry_error (message er) e, p)
  | (Success _, p) =>
      let '(written, p) := Write (w_address e) (w_frozen_value e) p in
      let '(disarm, armed, p) := guard_Disarm true p in
      let leave tick := match disarm with Success _ => tick | Failure er => TickAborted er armed end in
      let out tick e p :=
        (leave tick, e, match disarm with Success _ => guard_destroy armed p | Failure _ => p end) in
      match written with
      | Failure er => out TickFailed (entry_error (message er) e) p
      | Success n =>
          if negb (n =? sizeZ (w_frozen_value e)) then
            out TickFailed (entry_error "Freeze write was incomplete" e) p
          else
            match Read (w_address e) (u32 (sizeZ (w_frozen_value e))) p with
            | (Failure er, p) => out TickFailed (entry_error (message er) e) p
            | (Success readback, p) =>
                if negb (sizeZ readback =? sizeZ (w_frozen_value e)) then
                  out TickFailed (entry_error "Freeze read-back returned a short read" e) p
                else if negb (bytes_eqb readback (w_frozen_value e)) then
                  out TickFailed (entry_error "Freeze read-back verification failed" e) p
                else out TickDone (e <| w_value := readback |> <| w_last_error := "" |>) p
            end
      end
  end.

Definition freeze_entry (e : WatchEntry) (p : P) : Tick * WatchEntry * P :=
  let width := FixedValueWidth (w_type e) in
  if negb (w_frozen e) then (TickDone, e, p)
  else if (width =? 0) || negb (sizeZ (w_frozen_value e) =? width) then
    (TickFailed, entry_error "Frozen value has an invalid width" e, p)
  else
    match Read (w_address e) (u32 width) p with
    | (Failure er, p) => (TickFailed, entry_error (message er) e, p)
    | (Success before, p) =>
        if negb (sizeZ before =? width) then
          (TickFailed, entry_error "Freeze preflight returned a short read" e, p)
        else
          match Read (w_address e) (u32 width) p with
          | (Failure er, p) => (TickFailed, entry_error (message er) e, p)
          | (Success expected_before, p) =>
              if negb (sizeZ expected_before =? width) then
                (TickFailed, entry_error "Freeze expected-before read was incomplete" e, p)
              else if negb (bytes_eqb expected_before before) then
                (TickFailed,
                 entry_error "Value changed during freeze preflight; no write was attempted" e, p)
              else freeze_write e p
          end
    end.

(** The entries in order: the entries, the failures, and what aborted the tick. *)
Fixpoint freeze_loop (entries : list WatchEntry) (p : P)
    : list WatchEntry * Z * option (Error * bool) * P :=
  match entries with
  | [] => ([], 0, None, p)
  | e :: rest =>
      match freeze_entry e p with
      | (TickAborted er armed, e, p) => (e :: rest, 1, Some (er, armed), p)
      | (tick, e, p) =>
          let '(rest, failures, aborted, p) := freeze_loop rest p in
          (e :: rest, match tick with TickFailed => 1 | _ => 0 end + failures, aborted, p)
      end
  end.

Definition FreezeTick (w : WatchList) (p : P) : Result unit * WatchList * P :=
  let op := "WatchList::FreezeTick" in
  let armed := WritesArmed p in
  if negb armed then
    if existsb w_frozen (wl_entries w) then
      finish (Failure (MakeError WriteLocked
        "Process write gate was closed while frozen entries were active" op)) armed w p
    else finish (Success tt) armed w p
  else
    let '(entries, failures, aborted, p) := freeze_loop (wl_entries w) p in
    let w := w <| wl_entries := entries |> in
    match aborted with
    | Some (er, entry_armed) =>
        (* the return value, then the destructors of both guards *)
        let '(disarm, armed, p) := guard_Disarm armed p in
        (Failure (match disarm with Success _ => er | Failure e => e end), w,
         guard_destroy armed (guard_destroy entry_armed p))
    | None =>
        match guard_Disarm armed p with
        | (Failure e, armed, p) => (Failure e, w, guard_destroy armed p)
        | (Success _, armed, p) =>
            let p := guard_destroy armed p in
            if negb (failures =? 0) then
              (Failure (MakeErrorFull VerificationMismatch
                 "One or more frozen-address writes failed verification" op 0 0 failures), w, p)
            else (Success tt, w, p)
        end
    end.
End Watch.

(** ** The file format *)

Definition kWatchMagic : list Z := [75; 68; 66; 71; 65; 76; 0; 0].
Definition kLegacyWatchVersion : Z := 1.
Definition kWatchVersion : Z := 2.
Definition kWatchFlagHexadecimal : Z := 1.
Definition kWatchFlagWasFrozen : Z := 2.
Definition kMaxWatchFileBytes : Z := 64 * 1024 * 1024.

Definition type_code (type : ScanValueType) : Z :=
  match type with
  | Int8 => 0 | UInt8 => 1 | Int16 => 2 | UInt16 => 3 | Int32 => 4 | UInt32 => 5 | Int64 => 6
  | UInt64 => 7 | Float => 8 | Double => 9 | Utf8 => 10 | Utf16 => 11 | ByteArray => 12
  end.
(** [static_cast<ScanValueType>] of a stored number; a number without an enumerator
    has width 0. *)
Definition type_of_code (n : Z) : option ScanValueType :=
  [Int8; UInt8; Int16; UInt16; Int32; UInt32; Int64; UInt64; Float; Double; Utf8; Utf16; ByteArray]
    !! Z.to_nat n.
Definition code_width (n : Z) : Z :=
  match type_of_code n with Some type => FixedValueWidth type | None => 0 end.

Definition header_bytes (pid token count : Z) : list Z :=
  kWatchMagic ++ struct [(4, kWatchVersion); (4, pid); (8, token); (8, count)].
Definition entry_flags (e : WatchEntry) : Z :=
  Z.lor (if w_hexadecimal e then kWatchFlagHexadecimal else 0)
        (if w_frozen e then kWatchFlagWasFrozen else 0).
Definition frozen_bytes (e : WatchEntry) : list Z := if w_frozen e then w_frozen_value e else [].
Definition entry_header (e : WatchEntry) : list Z :=
  struct [(8, w_address e); (4, type_code (w_type e)); (4, entry_flags e);
          (4, u32 (text_size (w_description e))); (4, u32 (sizeZ (frozen_bytes e)))].

(** ** Saving *)

Inductive WatchListSaveFault := WatchNoFault | WatchAfterFlushBeforeReplace.
#[export] Instance WatchListSaveFault_eq_dec : EqDecision WatchListSaveFault.
Proof. solve_decision. Defined.

Definition FileFailure (message operation : string) : Result unit :=
  Failure (MakeError IoFailure message operation).
Definition watch_messages : FileMessages :=
  mkFileMessages "Unable to reopen the temporary address-list file for flush"
    "Unable to flush the temporary address-list file to disk"
    "Unable to atomically replace the address-list file" "WatchList::Save".

Definition persistable (e : WatchEntry) : bool :=
  let width := FixedValueWidth (w_type e) in
  negb (w_address e =? 0) && negb (width =? 0) && (w_address e <=? u64_max - width) &&
  (text_size (w_description e) <=? kMaxDescriptionBytes) &&
  (text_size (w_description e) <=? u32_max) &&
  (negb (w_frozen e) || (sizeZ (frozen_bytes e) =? width)).

(** The entries one after the other; the stream is checked after each. *)
Fixpoint write_entries (entries : list WatchEntry) (o : ofstream) (fs : FileSystem)
    : option (Result unit) * ofstream * FileSystem :=
  match entries with
  | [] => (None, o, fs)
  | e :: entries =>
      let '(o, fs) := os_write (entry_header e) o fs in
      let '(o, fs) := os_write (label_bytes (w_description e)) o fs in
      let '(o, fs) :=
        if negb (sizeZ (frozen_bytes e) =? 0) then os_write (frozen_bytes e) o fs else (o, fs) in
      if negb (os_good o) then
        (Some (FileFailure "Failed while writing address-list entries" "WatchList::Save"), o, fs)
      else write_entries entries o fs
  end.

Definition watch_stream (pid token : Z) (entries : list WatchEntry) (o : ofstream) (fs : FileSystem)
    : option (Result unit) * FileSystem :=
  let op := "WatchList::Save" in
  let '(o, fs) := os_write (header_bytes pid token (sizeZ entries)) o fs in
  if negb (os_good o) then
    (Some (FileFailure "Failed while writing the address-list header" op), fs)
  else
    match write_entries entries o fs with
    | (Some r, _, fs) => (Some r, fs)
    | (None, o, fs) =>
        let '(o, fs) := os_sync o fs in
        if negb (os_good o) then
          (Some (FileFailure "Failed while flushing the address-list file" op), fs)
        else
          let '(o, fs) := os_sync o fs in
          if negb (os_good o) then
            (Some (FileFailure "Failed while closing the temporary address-list file" op), fs)
          else (None, fs)
    end.

Definition watch_commit (flt : WatchListSaveFault) (pid token : Z) (entries : list WatchEntry)
    (temporary destination : path) (fs : FileSystem) : Result unit * FileSystem :=
  let op := "WatchList::Save" in
  commit_stream (MakeError IoFailure "Unable to create address-list file" op)
    (if bool_decide (flt = WatchAfterFlushBeforeReplace) then
       Some (MakeError IoFailure "Injected address-list failure before atomic replacement" op)
     else None)
    watch_messages (watch_stream pid token entries) temporary destination fs.

Section File.
Context {P : Type} `{IProcessMemory P}.

Definition watch_Save (flt : WatchListSaveFault) (destination : path) (w : WatchList) (p : P)
    (fs : FileSystem) : Result unit * FileSystem :=
  let op := "WatchList::Save" in
  let entries := wl_entries w in
  if kMaxPersistedEntries <? sizeZ entries then
    (Failure (MakeErrorFull LimitReached "Address list exceeds the persistence entry limit" op
       0 kMaxPersistedEntries (sizeZ entries)), fs)
  else if path_empty destination || bool_decide (filename destination = "") then
    (Failure (MakeError InvalidArgument "Address-list destination path is invalid" op), fs)
  else if negb (forallb persistable entries) then
    (Failure (MakeError InvalidArgument "Address-list entry is not persistable" op), fs)
  else
    with_temporary
      (λ temporary, watch_commit flt (ProcessId p) (ProcessIdentityToken p) entries temporary destination)
      destination fs.

(** ** Loading *)

Definition watch_parse_error {T} (msg : string) : Result T :=
  Failure (MakeError ParseError msg "WatchList::Load").

(** The note of a loaded entry. *)
Definition load_note (was_frozen identity_unverified : bool) : string :=
  let note := if was_frozen then
    "Saved frozen state was loaded disarmed; explicitly arm and freeze again." else "" in
  if identity_unverified then
    (if was_frozen then note +:+ " " else note) +:+
    "The process identity token was unavailable; verify the target manually."
  else note.

Definition item_invalid (item : list Z) : bool :=
  let address := field item 0 8 in
  let width := code_width (field item 8 4) in
  let flags := field item 12 4 in
  let frozen_size := field item 20 4 in
  let was_frozen := negb (Z.land flags kWatchFlagWasFrozen =? 0) in
  (address =? 0) || (width =? 0) || (u64_max - width <? address) ||
  (was_frozen && negb (frozen_size =? width)) ||
  (negb was_frozen && negb (frozen_size =? 0)) ||
  negb (Z.land flags (u32 (Z.lnot 3)) =? 0).

(** One entry: read, checked, and its current value read from the process. *)
Definition load_entry (identity_unverified : bool) (id : Z) (i : ifstream) (p : P) (fs : FileSystem)
    : Result WatchEntry * ifstream * P * FileSystem :=
  let '(item, i, fs) := is_read 24 i fs in
  let description_size := field item 16 4 in
  let frozen_size := field item 20 4 in
  if negb (is_good i) || (kMaxDescriptionBytes <? description_size) then
    (watch_parse_error "Address-list entry header is invalid or truncated", i, p, fs)
  else
    match type_of_code (field item 8 4) with
    | None => (watch_parse_error "Address-list entry contains invalid fields", i, p, fs)
    | Some type =>
        if item_invalid item then
          (watch_parse_error "Address-list entry contains invalid fields", i, p, fs)
        else
          let '(description, i, fs) := is_read description_size i fs in
          let '(_, i, fs) :=
            if negb (frozen_size =? 0) then is_read frozen_size i fs else ([], i, fs) in
          if negb (is_good i) then
            (watch_parse_error "Address-list entry payload is truncated", i, p, fs)
          else
            let address := field item 0 8 in
            let width := FixedValueWidth type in
            let flags := field item 12 4 in
            match Read address (u32 width) p with
            | (Failure e, p) => (Failure e, i, p, fs)
            | (Success current, p) =>
                if negb (sizeZ current =? width) then
                  (Failure (MakeErrorFull ShortRead "Loaded address cannot be read at its expected width"
                     "WatchList::Load" 0 width (sizeZ current)), i, p, fs)
                else
                  (Success (mkWatchEntry id address type (bytes_label description)
                     (negb (Z.land flags kWatchFlagHexadecimal =? 0)) false current []
                     (load_note (negb (Z.land flags kWatchFlagWasFrozen =? 0)) identity_unverified)),
                   i, p, fs)
            end
    end.

Fixpoint load_entries (identity_unverified : bool) (count : nat) (next_id : Z)
    (loaded : list WatchEntry) (i : ifstream) (p : P) (fs : FileSystem)
    : Result (list WatchEntry * Z) * ifstream * P * FileSystem :=
  match count with
  | O => (Success (loaded, next_id), i, p, fs)
  | S count =>
      match load_entry identity_unverified next_id i p fs with
      | (Failure e, i, p, fs) => (Failure e, i, p, fs)
      | (Success e, i, p, fs) =>
          load_entries identity_unverified count (u64 (next_id + 1)) (loaded ++ [e]) i p fs
      end
  end.

(** The header that follows the prefix: pid, identity token and entry count. *)
Definition read_header (version : Z) (i : ifstream) (fs : FileSystem)
    : Z * Z * Z * ifstream * FileSystem :=
  if version =? kLegacyWatchVersion then
    let '(h, i, fs) := is_read 24 i fs in (field h 12 4, 0, field h 16 8, i, fs)
  else
    let '(h, i, fs) := is_read 32 i fs in (field h 12 4, field h 16 8, field h 24 8, i, fs).

(** From the header on. *)
Definition load_body (version : Z) (i : ifstream) (w : WatchList) (p : P) (fs : FileSystem)
    : Result unit * WatchList * P * FileSystem :=
  let op := "WatchList::Load" in
  let '(persisted_pid, persisted_identity, count, i, fs) := read_header version i fs in
  let current_identity := ProcessIdentityToken p in
  if negb (is_good i) || (kMaxPersistedEntries <? count) then
    (watch_parse_error "Address-list header is invalid or truncated", w, p, fs)
  else if negb (persisted_pid =? ProcessId p) then
    (Failure (MakeErrorFull InvalidArgument "Address list belongs to a different PID" op
       0 (ProcessId p) persisted_pid), w, p, fs)
  else if negb (persisted_identity =? 0) && negb (current_identity =? 0) &&
          negb (persisted_identity =? current_identity) then
    (Failure (MakeErrorFull InvalidArgument
       "Address list belongs to a previous process that reused this PID" op
       0 current_identity persisted_identity), w, p, fs)
  else
    let identity_unverified := (persisted_identity =? 0) || (current_identity =? 0) in
    match load_entries identity_unverified (Z.to_nat count) 1 [] i p fs with
    | (Failure e, _, p, fs) => (Failure e, w, p, fs)
    | (Success (loaded, next_id), i, p, fs) =>
        if negb (bool_decide (is_rest i = [])) then
          (watch_parse_error "Address-list file contains unexpected trailing data", w, p, fs)
        else (Success tt, mkWatchList loaded next_id, p, fs)
    end.

Definition watch_Load (source : path) (w : WatchList) (p : P) (fs : FileSystem)
    : Result unit * WatchList * P * FileSystem :=
  let op := "WatchList::Load" in
  let '(file_size, size_error, fs) := fs_file_size source fs in
  if negb (size_error =? 0) || (file_size <? 24) || (kMaxWatchFileBytes <? file_size) then
    (Failure (MakeErrorFull (if size_error =? 0 then LimitReached else IoFailure)
       "Address-list file size is invalid or exceeds the product cap" op size_error
       kMaxWatchFileBytes (if size_error =? 0 then file_size else 0)), w, p, fs)
  else
    let '(start, fs) := is_open source fs in
    if negb (is_good start) then (FileFailure "Unable to open address-list file" op, w, p, fs)
    else
      let '(prefix, i, fs) := is_read 12 start fs in
      let version := field prefix 8 4 in
      if negb (is_good i) || negb (bytes_eqb (slice prefix 0 8) kWatchMagic) ||
         (negb (version =? kLegacyWatchVersion) && negb (version =? kWatchVersion)) then
        (watch_parse_error "Address-list header is invalid", w, p, fs)
      else
        (* [seekg(0)] *)
        load_body version start w p fs.
End File.
