(* ===== verification/WatchTheorems.v ===== *)
(** What [WatchList] promises: which writes it makes, that it never leaves the process
    armed, and the well-formedness of the table. *)

From stdpp Require Import list.
From S2P Require Import Prelude CppStd Wire Common ProcessMemory ValueCodec WatchList.

#[local] Open Scope Z_scope.

Lemma watch_Find_Some id w i e :
  Find id w = Some (i, e) → wl_entries w !! i = Some e ∧ w_id e = id.
Proof. unfold Find. intros (Hi & He & _)%list_find_Some. done. Qed.

(** ** Writes *)

(** The writes a freeze tick may make: of each frozen entry its frozen value. *)
Definition freeze_writes (entries : list WatchEntry) : list (Z * list Z) :=
  (λ e, (w_address e, w_frozen_value e)) <$> filter (λ e, w_frozen e = true) entries.

Section Writes.
Context {P : Type} `{IProcessMemory P} `{FloatText}.
Implicit Types p : WriteLogged P.

Lemma disarm_keeps_log armed p : wl_log (guard_Disarm armed p).2 = wl_log p.
Proof.
  unfold guard_Disarm. destruct armed; [|done]. cbn [negb].
  pose proof (arm_log false p) as Ha. destruct (SetWritesArmed false p) as [[?|?] p1]; [exact Ha|].
  pose proof (arm_log false p1) as Hb. destruct (SetWritesArmed false p1) as [[?|?] p2];
    cbn [snd] in *; congruence.
Qed.
Lemma destroy_keeps_log armed p : wl_log (guard_destroy armed p) = wl_log p.
Proof. unfold guard_destroy. destruct armed; [apply arm_log|done]. Qed.
Lemma finish_keeps_log outcome armed w p : wl_log (finish outcome armed w p).2 = wl_log p.
Proof.
  unfold finish. pose proof (disarm_keeps_log armed p) as Hd.
  destruct (guard_Disarm armed p) as [[[?|?] en] p']; cbn [snd] in *; by rewrite destroy_keeps_log.
Qed.

Lemma commit_value_log i e encoded armed w p :
  wl_log (commit_value i e encoded armed w p).2 = wl_log p ++ [(w_address e, encoded)].
Proof.
  unfold commit_value. cbv zeta. pose proof (write_log (w_address e) encoded p) as Hw.
  destruct (Write _ _ p) as [[n|?] p1]; cbn [snd] in Hw; [|by rewrite finish_keeps_log].
  destruct (negb _); [by rewrite finish_keeps_log|].
  pose proof (disarm_keeps_log armed p1) as Hd.
  destruct (guard_Disarm armed p1) as [[disarm en] p2]. cbn [snd] in Hd.
  pose proof (plain_read_log (w_address e) (u32 (sizeZ encoded)) p2) as Hr.
  destruct (Read _ _ p2) as [[rb|?] p3]; cbn [snd] in Hr.
  2:{ cbn [snd]. rewrite destroy_keeps_log. congruence. }
  destruct (negb _); [cbn [snd]; rewrite destroy_keeps_log; congruence|].
  destruct (negb _); cbn [snd]; rewrite destroy_keeps_log; congruence.
Qed.

Lemma freeze_write_log e p :
  ∃ k, wl_log (freeze_write e p).2 = wl_log p ++ take k [(w_address e, w_frozen_value e)] ∧
    ((freeze_write e p).1.1 = TickDone → k = 1%nat).
Proof.
  unfold freeze_write. pose proof (arm_log true p) as Ha.
  destruct (SetWritesArmed true p) as [[?|?] p1]; cbn [snd] in Ha.
  2:{ exists 0%nat. cbn. by rewrite app_nil_r. }
  exists 1%nat. split; [|done]. pose proof (write_log (w_address e) (w_frozen_value e) p1) as Hw.
  destruct (Write _ _ p1) as [written p2]. cbn [snd] in Hw.
  pose proof (disarm_keeps_log true p2) as Hd.
  destruct (guard_Disarm true p2) as [[disarm en] p3]. cbn [snd] in Hd.
  pose proof (plain_read_log (w_address e) (u32 (sizeZ (w_frozen_value e))) p3) as Hr.
  assert (∀ p4 : WriteLogged P, wl_log p4 = wl_log p3 →
    wl_log (match disarm with Success _ => guard_destroy en p4 | Failure _ => p4 end) =
    wl_log p ++ [(w_address e, w_frozen_value e)]) as Hout.
  { intros p4 H4. destruct disarm; rewrite ?destroy_keeps_log; congruence. }
  destruct written as [n|?]; [|by apply Hout].
  destruct (negb _); [by apply Hout|].
  destruct (Read _ _ p3) as [[rb|?] p4]; cbn [snd] in Hr; [|by apply Hout].
  destruct (negb _); [by apply Hout|]. destruct (negb _); by apply Hout.
Qed.

Lemma freeze_entry_log e p :
  ∃ k, wl_log (freeze_entry e p).2 = wl_log p ++ take k (freeze_writes [e]) ∧
    ((freeze_entry e p).1.1 = TickDone → k = length (freeze_writes [e])).
Proof.
  unfold freeze_entry, freeze_writes. rewrite filter_cons, filter_nil. cbv zeta.
  destruct (w_frozen e) eqn:Hf; cbn [negb].
  2:{ exists 0%nat. rewrite decide_False by done. cbn. by rewrite app_nil_r. }
  rewrite decide_True by done. cbn [fmap list_fmap].
  assert (∀ q : WriteLogged P, wl_log q = wl_log p → ∃ k : nat,
    wl_log q = wl_log p ++ take k [(w_address e, w_frozen_value e)] ∧ (TickFailed = TickDone → k = 1%nat))
    as Hskip by (intros q Hq; exists 0%nat; cbn; by rewrite app_nil_r).
  destruct (_ || _); [by apply Hskip|].
  pose proof (plain_read_log (w_address e) (u32 (FixedValueWidth (w_type e))) p) as H1.
  destruct (Read _ _ p) as [[b1|?] p1]; cbn [snd] in H1; [|by apply Hskip].
  destruct (negb _); [by apply Hskip|].
  pose proof (plain_read_log (w_address e) (u32 (FixedValueWidth (w_type e))) p1) as H2.
  destruct (Read _ _ p1) as [[b2|?] p2]; cbn [snd] in H2; [|apply Hskip; cbn; congruence].
  destruct (negb _); [apply Hskip; cbn; congruence|].
  destruct (negb _); [apply Hskip; cbn; congruence|].
  destruct (freeze_write_log e p2) as (k & Hk & Hd). exists k. rewrite Hk, H2, H1. done.
Qed.

Lemma freeze_loop_log entries p :
  ∃ log, wl_log (freeze_loop entries p).2 = wl_log p ++ log ∧
    log `sublist_of` freeze_writes entries ∧
    ((freeze_loop entries p).1.1.2 = 0 → (freeze_loop entries p).1.2 = None →
     log = freeze_writes entries) ∧
    0 ≤ (freeze_loop entries p).1.1.2.
Proof.
  revert p. induction entries as [|e entries IH]; intros p; cbn [freeze_loop].
  { exists []. cbn. rewrite app_nil_r. done. }
  assert (freeze_writes (e :: entries) = freeze_writes [e] ++ freeze_writes entries) as ->.
  { unfold freeze_writes. rewrite <- fmap_app. f_equal.
    rewrite !filter_cons, filter_nil. by destruct (decide _). }
  destruct (freeze_entry_log e p) as (k & Hk & Hd).
  assert (take k (freeze_writes [e]) `sublist_of` freeze_writes [e]) as Hs by apply sublist_take.
  destruct (freeze_entry e p) as [[[| |er armed] e'] p1]; cbn [fst snd] in Hk, Hd.
  3:{ exists (take k (freeze_writes [e])). cbn. split; [done|]. split; [by apply sublist_inserts_r|done]. }
  all: destruct (IH p1) as (log & Hl & Hsub & Hall & Hnn);
    destruct (freeze_loop entries p1) as [[[rest failures] aborted] p2]; cbn [fst snd] in *;
    exists (take k (freeze_writes [e]) ++ log); rewrite Hl, Hk, app_assoc;
    (split; [done|]); (split; [by apply sublist_app|]); (split; [|lia]).
  - intros Hz Ha. rewrite (Hd eq_refl), firstn_all, Hall by (done || lia). done.
  - intros Hz. lia.
Qed.

(** [C28] The table writes only what its user asked for: [WriteValue] makes at most one
    write, of the encoded text at the address of the named entry, and none unless the
    process was armed and still held the value that was shown; the writes of a freeze
    tick are a subsequence, in order, of the frozen entries' values at their addresses,
    none when the process was not armed and all of them when the tick succeeds.  No
    other operation of the table takes the process by a writing call. *)
Theorem watch_writes w (p : P) id text :
  (let '(r, _, q) := WriteValue id text w (mkWriteLogged p []) in
   (Ok r = true → wl_log q ≠ []) ∧
   (wl_log q ≠ [] → WritesArmed p = true ∧
    ∃ i e encoded, Find id w = Some (i, e) ∧
      EncodeValue (w_type e) text (w_hexadecimal e) = Success encoded ∧
      (Read (w_address e) (u32 (sizeZ encoded)) p).1 = Success (w_value e) ∧
      wl_log q = [(w_address e, encoded)])) ∧
  (let '(r, _, q) := FreezeTick w (mkWriteLogged p []) in
   wl_log q `sublist_of` freeze_writes (wl_entries w) ∧
   (wl_log q ≠ [] → WritesArmed p = true) ∧
   (Ok r = true → wl_log q = freeze_writes (wl_entries w))).
Proof.
  split.
  - assert (∀ er armed w1 (q : WriteLogged P), wl_log q = [] →
      let '(r, _, q') := finish (Failure er) armed w1 q in Ok r = false ∧ wl_log q' = []) as Hfin.
    { intros er armed w1 q Hq. pose proof (finish_keeps_log (Failure er) armed w1 q) as Hl.
      unfold finish in *. destruct (guard_Disarm armed q) as [[[?|?] ?] ?]; cbn [snd] in *; (split; [done|congruence]). }
    assert (∀ er armed w1 (q : WriteLogged P) (X : WriteLogged P → Prop), wl_log q = [] →
      let '(r, _, q') := finish (Failure er) armed w1 q in
      (Ok r = true → wl_log q' ≠ []) ∧ (wl_log q' ≠ [] → X q')) as Hnone.
    { intros er armed w1 q X Hq. specialize (Hfin er armed w1 q Hq).
      destruct (finish _ _ _ _) as [[r w'] q']. destruct Hfin as [-> ->]. done. }
    unfold WriteValue. cbv zeta. destruct (Find id w) as [[i e]|]; [|by apply Hnone].
    destruct (EncodeValue _ _ _) as [encoded|er] eqn:He; [|by apply Hnone].
    change (WritesArmed (mkWriteLogged p [])) with (WritesArmed p).
    destruct (WritesArmed p); cbn [negb]; [|by apply Hnone].
    pose proof (plain_read_log (w_address e) (u32 (sizeZ encoded)) (mkWriteLogged p [])) as Hr.
    assert ((Read (w_address e) (u32 (sizeZ encoded)) (mkWriteLogged p [])).1 =
            (Read (w_address e) (u32 (sizeZ encoded)) p).1) as Hsame.
    { cbn. unfold unlogged. cbn. by destruct (Read (w_address e) (u32 (sizeZ encoded)) p). }
    destruct (Read _ _ (mkWriteLogged p [])) as [[before|er] p1]; cbn [fst snd] in Hr, Hsame;
      [|by apply Hnone].
    destruct (negb _); [by apply Hnone|].
    destruct (bytes_eqb before (w_value e)) eqn:Hb; cbn [negb]; [|by apply Hnone].
    apply bytes_eqb_eq in Hb as ->.
    pose proof (commit_value_log i e encoded true w p1) as Hc. rewrite Hr in Hc.
    destruct (commit_value _ _ _ _ _ _) as [[r w'] q]. cbn [snd app] in Hc. rewrite Hc.
    split; [done|]. intros _. split; [done|]. exists i, e, encoded. done.
  - unfold FreezeTick. cbv zeta. change (WritesArmed (mkWriteLogged p [])) with (WritesArmed p).
    destruct (WritesArmed p) eqn:Ha; cbn [negb].
    2:{ assert (existsb w_frozen (wl_entries w) = false → freeze_writes (wl_entries w) = []) as Hno.
        { intros Hx. unfold freeze_writes. generalize (wl_entries w) Hx. clear.
          induction l as [|e l IH]; [done|]. cbn [existsb]. intros [He Hl]%orb_false_iff.
          rewrite filter_cons, decide_False by congruence. by apply IH. }
        unfold finish, guard_Disarm, guard_destroy. cbn [negb].
        destruct (existsb _ _); cbn; (split; [apply sublist_nil_l|done]) || by rewrite Hno. }
    destruct (freeze_loop_log (wl_entries w) (mkWriteLogged p [])) as (log & Hl & Hsub & Hall & _).
    destruct (freeze_loop _ _) as [[[entries failures] aborted] p1]. cbn [fst snd app] in *.
    destruct aborted as [[er en]|].
    + pose proof (disarm_keeps_log true p1) as Hd.
      destruct (guard_Disarm true p1) as [[disarm armed] p2]. cbn [snd] in Hd.
      rewrite !destroy_keeps_log, Hd, Hl. done.
    + pose proof (disarm_keeps_log true p1) as Hd.
      destruct (guard_Disarm true p1) as [[[?|?] armed] p2]; cbn [snd] in Hd.
      * destruct (Z.eqb_spec failures 0); cbn [negb]; rewrite destroy_keeps_log, Hd, Hl; [|done].
        split; [done|]. split; [done|]. intros _. by apply Hall.
      * rewrite destroy_keeps_log, Hd, Hl. done.
Qed.
End Writes.

(** ** The arm *)

Section Arm.
Context {P : Type} `{ProcessMemorySpec P} `{FloatText}.
Implicit Types p : P.

Lemma Disarm_success armed p en p' :
  guard_Disarm armed p = (Success tt, en, p') → WritesArmed p = armed ∨ armed = true →
  en = false ∧ WritesArmed p' = false.
Proof.
  unfold guard_Disarm. destruct armed; cbn [negb]; [|intros ? [?|?]; by simplify_eq].
  destruct (SetWritesArmed false p) as [[[]|e] p1] eqn:E.
  - intros [= <- <-] _. split; [done|]. by eapply arm_success.
  - destruct (SetWritesArmed false p1) as [[[]|?] p2]; by intros.
Qed.

Section Reliable.
Hypothesis disarm_works : ∀ q : P, Ok (SetWritesArmed false q).1 = true.

Lemma Disarm_works armed p :
  WritesArmed p = armed ∨ armed = true →
  ∃ p', guard_Disarm armed p = (Success tt, false, p') ∧ WritesArmed p' = false.
Proof using disarm_works H0.
  intros Ha. unfold guard_Disarm. destruct armed; cbn [negb].
  2:{ exists p. split; [done|]. by destruct Ha. }
  pose proof (disarm_works p) as Hd. destruct (SetWritesArmed false p) as [[[]|?] p'] eqn:E; [|done].
  exists p'. split; [done|]. by eapply arm_success.
Qed.
Lemma finish_works outcome armed w p :
  WritesArmed p = armed ∨ armed = true → WritesArmed (finish outcome armed w p).2 = false.
Proof using disarm_works H0.
  intros Ha. unfold finish. destruct (Disarm_works armed p Ha) as (p' & -> & Hp). exact Hp.
Qed.

Lemma commit_value_works i e encoded w p : WritesArmed (commit_value i e encoded true w p).2 = false.
Proof using disarm_works H0.
  unfold commit_value. cbv zeta. destruct (Write _ _ p) as [[n|?] p1]; [|apply finish_works; by right].
  destruct (negb _); [apply finish_works; by right|].
  destruct (Disarm_works true p1) as (p2 & -> & Hp2); [by right|].
  destruct (Read _ _ p2) as [[rb|?] p3] eqn:Er; apply read_arm in Er;
    repeat destruct (negb _); cbn; congruence.
Qed.

Lemma freeze_write_works e p :
  WritesArmed (freeze_write e p).2 = WritesArmed p ∧ (∃ er, (freeze_write e p).1 = (TickFailed, er)) ∨
  WritesArmed (freeze_write e p).2 = false ∧ ¬ (∃ er en, (freeze_write e p).1.1 = TickAborted er en).
Proof using disarm_works H0.
  unfold freeze_write. destruct (SetWritesArmed true p) as [[[]|?] p1] eqn:Ea.
  2:{ left. split; [|by eexists]. cbn. by eapply arm_failure. }
  right. destruct (Write _ _ p1) as [written p2].
  destruct (Disarm_works true p2) as (p3 & -> & Hp3); [by right|].
  destruct written as [n|?]; cbn; [|split; [done|naive_solver]].
  destruct (negb _); cbn; [split; [done|naive_solver]|].
  destruct (Read _ _ p3) as [[rb|?] p4] eqn:Er; apply read_arm in Er;
    repeat destruct (negb _); cbn; (split; [congruence|naive_solver]).
Qed.

Lemma freeze_loop_no_abort entries p : (freeze_loop entries p).1.2 = None.
Proof using disarm_works H0.
  revert p. induction entries as [|e entries IH]; intros p; [done|]. cbn [freeze_loop].
  assert (∀ er en, (freeze_entry e p).1.1 ≠ TickAborted er en) as Hno.
  { intros er en. unfold freeze_entry. cbv zeta. destruct (negb _); [done|]. destruct (_ || _); [done|].
    destruct (Read _ _ p) as [[b1|?] p1]; [|done]. destruct (negb _); [done|].
    destruct (Read _ _ p1) as [[b2|?] p2]; [|done]. repeat (destruct (negb _); [done|]).
    destruct (freeze_write_works e p2) as [[_ (e' & Hf)]|[_ Hf]]; [by rewrite Hf|].
    intros Hx. apply Hf. by eexists _, _. }
  destruct (freeze_entry e p) as [[[| |er en] e'] p1]; [| |by destruct (Hno er en)];
    specialize (IH p1); by destruct (freeze_loop entries p1) as [[[??]?]?].
Qed.

(** The table never leaves the process armed: when disarming itself works, a
    value write and a freeze tick return with the arm off on every path, whatever the
    reads and writes on the way return. *)
Theorem watch_disarms id text w p :
  WritesArmed (WriteValue id text w p).2 = false ∧ WritesArmed (FreezeTick w p).2 = false.
Proof using disarm_works H0.
  split.
  - unfold WriteValue. cbv zeta. destruct (Find id w) as [[i e]|]; [|apply finish_works; by left].
    destruct (EncodeValue _ _ _) as [encoded|?]; [|apply finish_works; by left].
    destruct (WritesArmed p) eqn:Ha; cbn [negb]; [|apply finish_works; by left].
    destruct (Read _ _ p) as [[b|?] p1]; [|apply finish_works; by right].
    do 2 (destruct (negb _); [apply finish_works; by right|]). apply commit_value_works.
  - unfold FreezeTick. cbv zeta. destruct (WritesArmed p) eqn:Ha; cbn [negb].
    2:{ destruct (existsb _ _); apply finish_works; by left. }
    pose proof (freeze_loop_no_abort (wl_entries w) p) as Hno.
    destruct (freeze_loop _ p) as [[[entries failures] aborted] p1]. cbn in Hno. subst aborted.
    destruct (Disarm_works true p1) as (p2 & -> & Hp2); [by right|]. destruct (negb _); exact Hp2.
Qed.
End Reliable.

(** ** A successful write *)

Lemma EncodeValue_width type text hex bytes :
  EncodeValue type text hex = Success bytes → FixedValueWidth type ≠ 0 →
  sizeZ bytes = FixedValueWidth type.
Proof.
  intros He Hw. unfold EncodeValue in He. destruct (_ && _) in He; [done|].
  assert (∀ wd s, 0 ≤ wd → EncodeInteger wd s text hex = Success bytes → sizeZ bytes = wd) as Hint.
  { intros wd s Hwd. unfold EncodeInteger. destruct (if starts_with_0x text then _ else _) as [t base].
    case_bool_decide; [done|]. cbv zeta. destruct (_ || _); [done|]. intros [= <-].
    by apply sizeZ_le_bytes. }
  assert (∀ fmt, 0 ≤ float_width fmt → EncodeFloating fmt text = Success bytes →
    sizeZ bytes = float_width fmt) as Hfl.
  { intros fmt Hf. unfold EncodeFloating. destruct (_ || _) at 1; [done|]. cbv zeta.
    destruct (strtold _) as [[parsed rest] erange]. destruct (_ || _); [done|].
    destruct (negb _); [done|]. intros [= <-]. by apply sizeZ_le_bytes. }
  destruct type; cbn in He, Hw |- *; try done; first [by eapply Hint in He|by apply Hfl in He].
Qed.

(** A value write that succeeds: the process was armed and held the value shown,
    its memory now holds the encoded text, the arm is off, and of the table only the
    named entry changed: its value, its error, and its frozen value if it is frozen. *)
Theorem WriteValue_success id text w p w' p' :
  (∀ e, e ∈ wl_entries w → FixedValueWidth (w_type e) ≠ 0) →
  WriteValue id text w p = (Success tt, w', p') →
  ∃ i e encoded, Find id w = Some (i, e) ∧
    EncodeValue (w_type e) text (w_hexadecimal e) = Success encoded ∧
    WritesArmed p = true ∧ (Read (w_address e) (sizeZ encoded) p).1 = Success (w_value e) ∧
    mem_bytes (vmem p') (w_address e) (sizeZ encoded) = encoded ∧ WritesArmed p' = false ∧
    w' = set_entry i (e <| w_value := encoded |>
           <| w_frozen_value := if w_frozen e then encoded else w_frozen_value e |>
           <| w_last_error := "" |>) w.
Proof.
  intros Hfix Hr.
  assert (∀ er armed w1 (p1 : P), finish (Failure er) armed w1 p1 = (Success tt, w', p') → False) as Hfin.
  { intros er armed w1 p1. unfold finish. destruct (guard_Disarm armed p1) as [[[?|?] ?] ?]; by intros. }
  unfold WriteValue in Hr. cbv zeta in Hr.
  destruct (Find id w) as [[i e]|] eqn:Hf; [|by apply Hfin in Hr].
  destruct (EncodeValue _ _ _) as [encoded|?] eqn:He; [|by apply Hfin in Hr].
  destruct (WritesArmed p) eqn:Ha; cbn [negb] in Hr; [|by apply Hfin in Hr].
  assert (sizeZ encoded = FixedValueWidth (w_type e) ∧ u32 (sizeZ encoded) = sizeZ encoded) as [Hw Hu].
  { assert (sizeZ encoded = FixedValueWidth (w_type e)) as Hw.
    { eapply EncodeValue_width; [exact He|]. apply Hfix. apply watch_Find_Some in Hf as [Hi _].
      by eapply list_elem_of_lookup_2. }
    split; [done|]. rewrite Hw. by destruct (w_type e). }
  rewrite Hu in Hr. destruct (Read _ _ p) as [[before|?] p1] eqn:Er; [|by apply Hfin in Hr].
  destruct (negb _) in Hr; [by apply Hfin in Hr|].
  destruct (bytes_eqb before (w_value e)) eqn:Hb; cbn [negb] in Hr; [|by apply Hfin in Hr].
  apply bytes_eqb_eq in Hb as ->. unfold commit_value in Hr. cbv zeta in Hr.
  destruct (Write _ _ p1) as [[n|?] p2]; [|by apply Hfin in Hr].
  destruct (negb _) in Hr; [by apply Hfin in Hr|].
  destruct (guard_Disarm true p2) as [[disarm en] p3] eqn:Ed. rewrite Hu in Hr.
  destruct (Read _ _ p3) as [[rb|?] p4] eqn:Er2; [|by destruct disarm].
  destruct (Z.eqb_spec (sizeZ rb) (sizeZ encoded)) as [Hs|]; cbn [negb] in Hr; [|by destruct disarm].
  destruct (bytes_eqb rb encoded) eqn:Hb; cbn [negb] in Hr; [|by destruct disarm].
  apply bytes_eqb_eq in Hb as ->. destruct disarm as [[]|]; [|done].
  apply Disarm_success in Ed as [-> Hp3]; [|by right]. cbn [guard_destroy] in Hr.
  injection Hr as <- <-.
  pose proof (read_arm _ _ _ _ _ Er2) as Ha4. pose proof (read_bytes _ _ _ _ _ Er2 Hs) as Hm.
  exists i, e, encoded. rewrite Er. split_and!; [done..|congruence|].
  f_equal. destruct e as [? ? ? ? ? [] ? ? ?]; done.
Qed.
End Arm.
