(* ===== verification/WatchInvariant.v ===== *)
(** The well-formedness of the watch table and that every operation keeps it, loading a
    table from any file included. *)

From stdpp Require Import gmap list.
From S2P Require Import Prelude CppStd Wire Common ProcessMemory ValueCodec FileSystem WatchList WatchTheorems.

#[local] Open Scope Z_scope.

(** An entry has a fixed-width type, a range that does not wrap, a value of the width
    of its type, and a frozen value of that width exactly when it is frozen. *)
Record entry_wf (e : WatchEntry) : Prop := {
  ew_address : 0 < w_address e;
  ew_width : FixedValueWidth (w_type e) ≠ 0;
  ew_range : w_address e ≤ u64_max - FixedValueWidth (w_type e);
  ew_description : text_size (w_description e) ≤ kMaxDescriptionBytes;
  ew_value : sizeZ (w_value e) = FixedValueWidth (w_type e);
  ew_frozen : if w_frozen e then sizeZ (w_frozen_value e) = FixedValueWidth (w_type e)
              else w_frozen_value e = []
}.

Record watch_wf (w : WatchList) : Prop := {
  ww_count : sizeZ (wl_entries w) ≤ kMaxPersistedEntries;
  ww_ids : NoDup (w_id <$> wl_entries w);
  ww_fresh : Forall (λ e, 1 ≤ w_id e < wl_next_id w) (wl_entries w);
  ww_next : 1 ≤ wl_next_id w ≤ u64_max;
  ww_entries : Forall entry_wf (wl_entries w)
}.

Lemma watch_wf_init : watch_wf make_WatchList.
Proof.
  split; cbn; [unfold sizeZ, kMaxPersistedEntries; cbn; lia|constructor|constructor|lia|constructor].
Qed.

(** ** Changing entries in place *)

Definition keeps (e e' : WatchEntry) : Prop := w_id e' = w_id e ∧ (entry_wf e → entry_wf e').

Lemma keeps_refl e : keeps e e.
Proof. by split. Qed.
Lemma keeps_error msg e : keeps e (entry_error msg e).
Proof. split; [done|]. intros []. by split. Qed.
Lemma keeps_value v msg e :
  sizeZ v = FixedValueWidth (w_type e) → keeps e (e <| w_value := v |> <| w_last_error := msg |>).
Proof. intros Hv. split; [done|]. intros []. by split. Qed.

Lemma watch_wf_entries l w :
  watch_wf w → Forall2 keeps (wl_entries w) l → watch_wf (w <| wl_entries := l |>).
Proof.
  intros [Hc Hi Hf Hn He] Hk.
  assert (w_id <$> l = w_id <$> wl_entries w) as Hids.
  { clear -Hk. induction Hk as [|e e' l l' [Hid _] _ IH]; [done|]. rewrite !fmap_cons. congruence. }
  split; cbn.
  - unfold sizeZ in *. by rewrite <- (Forall2_length _ _ _ Hk).
  - by rewrite Hids.
  - clear -Hk Hf. induction Hk as [|e e' l l' [Hid _] _ IH]; [done|].
    apply Forall_cons in Hf as [??]. constructor; [by rewrite Hid|by apply IH].
  - done.
  - clear -Hk He. induction Hk as [|e e' l l' [_ Hw] _ IH]; [done|].
    apply Forall_cons in He as [??]. constructor; [by apply Hw|by apply IH].
Qed.

Lemma Forall2_keeps_refl l : Forall2 keeps l l.
Proof. induction l; constructor; [apply keeps_refl|done]. Qed.

Lemma watch_wf_set i e e' w :
  watch_wf w → wl_entries w !! i = Some e → (entry_wf e → keeps e e') → watch_wf (set_entry i e' w).
Proof.
  intros Hw Hi Hk. apply watch_wf_entries; [done|].
  assert (keeps e e') as Hk'.
  { apply Hk. eapply Forall_lookup_1; [apply (ww_entries w Hw)|exact Hi]. }
  clear -Hi Hk'. generalize (wl_entries w) Hi. clear Hi. intros l. revert i.
  induction l as [|x l IH]; intros [|i] Hi; cbn in *; [done..| |].
  - injection Hi as ->. constructor; [done|apply Forall2_keeps_refl].
  - constructor; [apply keeps_refl|by apply IH].
Qed.

Section Operations.
Context {P : Type} `{IProcessMemory P} `{FloatText}.
Implicit Types p : P.

Lemma watch_Add_wf a t d h w p r w' p' :
  watch_wf w → is_u64 a → wl_next_id w < u64_max → Add a t d h w p = (r, w', p') → watch_wf w'.
Proof.
  intros Hw Hu Hlt Hadd. unfold Add in Hadd. cbv zeta in Hadd.
  destruct (_ || _) eqn:H1 in Hadd; [by injection Hadd as <- <- <-|].
  destruct (_ || _) eqn:H2 in Hadd; [by injection Hadd as <- <- <-|].
  destruct (Read _ _ p) as [[bytes|?] p1]; [|by injection Hadd as <- <- <-].
  destruct (Z.eqb_spec (sizeZ bytes) (FixedValueWidth t)) as [Hs|]; cbn [negb] in Hadd;
    [|by injection Hadd as <- <- <-].
  injection Hadd as <- <- <-. boolify. destruct Hw as [Hc Hi Hf Hn He].
  rewrite u64_id by (unfold is_u64; lia). split; cbn.
  - unfold kMaxPersistedEntries in *. rewrite sizeZ_app. change (sizeZ [_]) with 1. lia.
  - rewrite fmap_app. apply NoDup_app. split; [done|]. split; [|apply NoDup_singleton].
    intros x (e & -> & Hx)%list_elem_of_fmap Hid%list_elem_of_singleton.
    rewrite Forall_forall in Hf. specialize (Hf e Hx). cbn in Hf, Hid. lia.
  - apply Forall_app. split.
    + eapply Forall_impl; [exact Hf|]. cbn. lia.
    + constructor; [cbn; lia|constructor].
  - lia.
  - apply Forall_app. split; [done|]. constructor; [|constructor].
    unfold is_u64 in Hu. split; cbn; try done; lia.
Qed.

Lemma watch_Remove_wf id w r w' : watch_wf w → Remove id w = (r, w') → watch_wf w'.
Proof.
  intros Hw. unfold Remove. destruct (Find id w) as [[i e]|]; intros [= <- <-]; [|done].
  destruct Hw as [Hc Hi Hf Hn He].
  assert (delete i (wl_entries w) `sublist_of` wl_entries w) as Hsub by apply sublist_delete.
  assert (∀ Q : WatchEntry → Prop, Forall Q (wl_entries w) → Forall Q (delete i (wl_entries w))) as Hall.
  { intros Q HQ. rewrite Forall_forall in HQ |- *. intros x Hx. apply HQ. by eapply elem_of_sublist. }
  split; cbn; [| |by apply Hall|done|by apply Hall].
  - unfold sizeZ in *. apply sublist_length in Hsub. lia.
  - eapply sublist_NoDup; [exact Hi|]. by apply fmap_sublist.
Qed.

Lemma refresh_loop_keeps entries p : Forall2 keeps entries (refresh_loop entries p).1.1.
Proof.
  revert p. induction entries as [|e entries IH]; intros p; [constructor|]. cbn [refresh_loop].
  assert (keeps e (refresh_entry e p).1.2) as Hk.
  { unfold refresh_entry. cbv zeta. destruct (Read _ _ p) as [[bytes|?] p1]; [|apply keeps_error].
    destruct (Z.eqb_spec (sizeZ bytes) (FixedValueWidth (w_type e))); cbn [negb fst snd];
      [by apply keeps_value|apply keeps_error]. }
  destruct (refresh_entry e p) as [[ok e'] p1]. specialize (IH p1).
  destruct (refresh_loop entries p1) as [[l n] p2]. by constructor.
Qed.

Lemma watch_Refresh_wf w p r w' p' : watch_wf w → Refresh w p = (r, w', p') → watch_wf w'.
Proof.
  intros Hw. unfold Refresh. pose proof (refresh_loop_keeps (wl_entries w) p) as Hk.
  destruct (refresh_loop _ p) as [[l n] p1]. cbn [fst] in Hk.
  destruct (negb _); intros [= <- <- <-]; by apply watch_wf_entries.
Qed.

Lemma finish_table outcome armed w p : (finish outcome armed w p).1.2 = w.
Proof. unfold finish. by destruct (guard_Disarm armed p) as [[[?|?] ?] ?]. Qed.

Lemma commit_value_wf i e encoded armed w p :
  watch_wf w → wl_entries w !! i = Some e → sizeZ encoded = FixedValueWidth (w_type e) →
  watch_wf (commit_value i e encoded armed w p).1.2.
Proof.
  intros Hw Hi Hs.
  assert (∀ msg, watch_wf (set_entry i (entry_error msg e) w)) as Herr.
  { intros msg. eapply watch_wf_set; [done|exact Hi|]. intros _. apply keeps_error. }
  unfold commit_value. cbv zeta.
  destruct (Write _ _ p) as [[n|?] p1]; [|rewrite finish_table; apply Herr].
  destruct (negb _); [rewrite finish_table; apply Herr|].
  destruct (guard_Disarm armed p1) as [[disarm en] p2].
  destruct (Read _ _ p2) as [[rb|?] p3]; [|apply Herr].
  destruct (negb _); [apply Herr|].
  destruct (bytes_eqb rb encoded) eqn:Hb; cbn [negb]; [|apply Herr].
  apply bytes_eqb_eq in Hb as ->. cbn [fst snd].
  eapply watch_wf_set; [done|exact Hi|]. intros _. split; [by destruct (w_frozen e) eqn:Hf; cbn; rewrite Hf|].
  intros [H1 H2 H3 H4 H5 H6]. destruct e as [? ? ? ? ? [] ? ? ?]; cbn in *; by split.
Qed.

Lemma WriteValue_wf id text w p : watch_wf w → watch_wf (WriteValue id text w p).1.2.
Proof.
  intros Hw. unfold WriteValue. cbv zeta.
  destruct (Find id w) as [[i e]|] eqn:Hf; [|by rewrite finish_table].
  apply watch_Find_Some in Hf as [Hi _].
  assert (∀ msg, watch_wf (set_entry i (entry_error msg e) w)) as Herr.
  { intros msg. eapply watch_wf_set; [done|exact Hi|]. intros _. apply keeps_error. }
  destruct (EncodeValue _ _ _) as [encoded|?] eqn:He; [|by rewrite finish_table].
  destruct (negb _); [by rewrite finish_table|].
  destruct (Read _ _ p) as [[before|?] p1]; [|rewrite finish_table; apply Herr].
  do 2 (destruct (negb _); [rewrite finish_table; apply Herr|]).
  apply commit_value_wf; [done|done|]. eapply EncodeValue_width; [exact He|].
  apply ew_width. by eapply Forall_lookup_1; [apply (ww_entries w Hw)|].
Qed.

Lemma watch_SetFrozen_wf id frozen w p r w' : watch_wf w → SetFrozen id frozen w p = (r, w') → watch_wf w'.
Proof.
  intros Hw. unfold SetFrozen. destruct (Find id w) as [[i e]|] eqn:Hf; [|by intros [= <- <-]].
  apply watch_Find_Some in Hf as [Hi _]. destruct (_ && _); intros [= <- <-]; [done|].
  eapply watch_wf_set; [done|exact Hi|]. intros _. split; [done|]. intros []. by destruct frozen; split.
Qed.

Lemma freeze_entry_keeps e p : keeps e (freeze_entry e p).1.2.
Proof.
  unfold freeze_entry. cbv zeta. destruct (w_frozen e) eqn:Hf; cbn [negb]; [|apply keeps_refl].
  destruct (_ || _) eqn:Hw; [apply keeps_error|]. boolify.
  destruct (Read _ _ p) as [[b1|?] p1]; [|apply keeps_error]. destruct (negb _); [apply keeps_error|].
  destruct (Read _ _ p1) as [[b2|?] p2]; [|apply keeps_error].
  do 2 (destruct (negb _); [apply keeps_error|]). unfold freeze_write.
  destruct (SetWritesArmed true p2) as [[?|?] p3]; [|apply keeps_error].
  destruct (Write _ _ p3) as [written p4]. destruct (guard_Disarm true p4) as [[disarm en] p5].
  destruct written as [n|?]; [|apply keeps_error]. destruct (negb _); [apply keeps_error|].
  destruct (Read _ _ p5) as [[rb|?] p6]; [|apply keeps_error].
  destruct (Z.eqb_spec (sizeZ rb) (sizeZ (w_frozen_value e))); cbn [negb]; [|apply keeps_error].
  destruct (negb _); [apply keeps_error|]. apply keeps_value. lia.
Qed.

Lemma freeze_loop_keeps entries p : Forall2 keeps entries (freeze_loop entries p).1.1.1.
Proof.
  revert p. induction entries as [|e entries IH]; intros p; [constructor|]. cbn [freeze_loop].
  pose proof (freeze_entry_keeps e p) as Hk.
  destruct (freeze_entry e p) as [[[| |er en] e'] p1]; cbn [fst snd] in Hk;
    [| |constructor; [done|apply Forall2_keeps_refl]];
    specialize (IH p1); destruct (freeze_loop entries p1) as [[[l n] a] p2]; by constructor.
Qed.

Lemma FreezeTick_wf w p : watch_wf w → watch_wf (FreezeTick w p).1.2.
Proof.
  intros Hw. unfold FreezeTick. cbv zeta. destruct (negb _).
  { destruct (existsb _ _); by rewrite finish_table. }
  pose proof (freeze_loop_keeps (wl_entries w) p) as Hk.
  destruct (freeze_loop _ p) as [[[l n] [[er en]|]] p1]; cbn [fst] in Hk;
    destruct (guard_Disarm _ p1) as [[[?|?] ?] ?]; try destruct (negb _); by apply watch_wf_entries.
Qed.
End Operations.

(** ** Loading *)

Lemma text_size_label bytes : text_size (bytes_label bytes) = sizeZ bytes.
Proof.
  unfold text_size, label_bytes, bytes_label, str, sizeZ.
  by rewrite String.list_ascii_of_string_of_list_ascii, !length_fmap.
Qed.

Lemma is_read_size n i fs bytes i' fs' :
  is_read n i fs = (bytes, i', fs') → is_good i' = true → 0 ≤ n → sizeZ bytes = n.
Proof.
  unfold is_read. destruct (is_good i) eqn:Hg; cbn [negb]; [|intros [= <- <- <-]; congruence].
  destruct (fs_step fs) as [[err k] fs1]. destruct (_ && _) eqn:Hc; intros [= <- <- <-]; [|done].
  intros _ Hn. boolify. unfold sizeZ in *. rewrite length_take. lia.
Qed.
Lemma is_read_bad n i fs : is_good i = false → is_read n i fs = ([], i, fs).
Proof. unfold is_read. by intros ->. Qed.

Section Load.
Context {P : Type} `{IProcessMemory P}.
Implicit Types p : P.

Lemma field_nonneg buffer off n : 0 ≤ field buffer off n.
Proof. apply le_value_range. Qed.

(** A loaded entry is well-formed, disarmed, and has the id it was given. *)
Lemma load_entry_wf unverified id i p fs e i' p' fs' :
  load_entry unverified id i p fs = (Success e, i', p', fs') →
  entry_wf e ∧ w_id e = id ∧ w_frozen e = false.
Proof.
  unfold load_entry. destruct (is_read 24 i fs) as [[item i1] fs1]. cbv zeta.
  destruct (_ || _) eqn:Hh; [done|]. destruct (type_of_code _) as [type|] eqn:Ht; [|done].
  destruct (item_invalid item) eqn:Hi; [done|].
  destruct (is_read _ i1 fs1) as [[description i2] fs2] eqn:Hd.
  destruct (if negb (field item 20 4 =? 0) then _ else _) as [[frozen i3] fs3] eqn:Hz.
  destruct (is_good i3) eqn:Hg; cbn [negb]; [|done].
  assert (is_good i2 = true) as Hg2.
  { destruct (is_good i2) eqn:Hg2; [done|]. destruct (negb (field item 20 4 =? 0)).
    - rewrite is_read_bad in Hz by done. congruence.
    - congruence. }
  apply is_read_size in Hd; [|done|apply field_nonneg].
  unfold item_invalid, code_width in Hi. rewrite Ht in Hi. cbv zeta in Hi. boolify.
  destruct (Read _ _ p) as [[current|?] p1]; [|done].
  destruct (Z.eqb_spec (sizeZ current) (FixedValueWidth type)) as [Hs|]; cbn [negb]; [|done].
  pose proof (field_nonneg item 0 8) as Hnn.
  intros [= <- <- <- <-]. split; [|done]. split; cbn; try done; rewrite ?text_size_label; lia.
Qed.

Lemma load_entries_wf unverified count next loaded i p fs l next' i' p' fs' :
  1 ≤ next → next + Z.of_nat count ≤ u64_max →
  load_entries unverified count next loaded i p fs = (Success (l, next'), i', p', fs') →
  ∃ more, l = loaded ++ more ∧ next' = next + Z.of_nat count ∧ length more = count ∧
    (w_id <$> more) = seqZ next (Z.of_nat count) ∧
    Forall (λ e, entry_wf e ∧ w_frozen e = false) more.
Proof.
  revert next loaded i p fs. induction count as [|count IH]; intros next loaded i p fs H1 Hn.
  { intros [= <- <- <- <- <-]. exists []. rewrite app_nil_r. split_and!; [done|lia|done|done|constructor]. }
  cbn [load_entries]. destruct (load_entry _ _ _ _ _) as [[[[e|?] i1] p1] fs1] eqn:E; [|done].
  apply load_entry_wf in E as (Hw & Hid & Hfr). rewrite u64_id by (unfold is_u64; lia).
  intros (more & -> & -> & Hlen & Hids & Hall)%IH; [|lia|lia].
  exists (e :: more). rewrite <- app_assoc. split_and!; [done|lia|cbn; lia| |by constructor].
  rewrite fmap_cons, Hids, Hid, (seqZ_cons next) by lia. do 2 f_equal; lia.
Qed.

Lemma watch_Load_wf source w p fs r w' p' fs' :
  watch_wf w → watch_Load source w p fs = (r, w', p', fs') →
  watch_wf w' ∧ (Ok r = true → Forall (λ e, w_frozen e = false) (wl_entries w')).
Proof.
  intros Hw. unfold watch_Load. cbv zeta. destruct (fs_file_size source fs) as [[size err] fs1].
  destruct (_ || _) at 1; [by intros [= <- <- <- <-]|].
  destruct (is_open source fs1) as [start fs2]. destruct (negb _) at 1; [by intros [= <- <- <- <-]|].
  destruct (is_read 12 start fs2) as [[prefix i] fs3].
  destruct (_ || _) at 1; [by intros [= <- <- <- <-]|]. unfold load_body. cbv zeta.
  destruct (read_header _ _ _) as [[[[pid token] count] i2] fs4].
  destruct (_ || _) eqn:Hcount; [by intros [= <- <- <- <-]|]. boolify.
  destruct (negb _) at 1; [by intros [= <- <- <- <-]|].
  destruct (_ && _) at 1; [by intros [= <- <- <- <-]|].
  destruct (load_entries _ _ _ _ _ _ _) as [[[[[l next]|?] i3] p1] fs5] eqn:E;
    [|by intros [= <- <- <- <-]].
  unfold kMaxPersistedEntries in *.
  apply load_entries_wf in E as (more & -> & -> & Hlen & Hids & Hall); [|lia|lia]. cbn [app].
  destruct (negb _); intros [= <- <- <- <-]; [done|].
  assert (Forall entry_wf more ∧ Forall (λ e, w_frozen e = false) more) as [Hwf Hfr]
    by (by apply Forall_and).
  split; [|done]. split; cbn; [| | |lia|done].
  - unfold sizeZ, kMaxPersistedEntries. lia.
  - rewrite Hids. apply NoDup_seqZ.
  - rewrite Forall_forall. intros e He.
    assert (w_id e ∈ seqZ 1 (Z.of_nat (Z.to_nat count))) as Hin.
    { rewrite <- Hids. by apply list_elem_of_fmap_2. }
    apply elem_of_seqZ in Hin. lia.
Qed.
End Load.

(** ** Reachable tables *)

Section Reachable.
Context {P : Type} `{IProcessMemory P} `{FloatText}.

(** One operation of the table; the process and the files may have changed in any way
    since the previous one. *)
Inductive watch_step : WatchList → WatchList → Prop :=
  | step_Add a t d h w p r w' p' :
      is_u64 a → wl_next_id w < u64_max → Add (P := P) a t d h w p = (r, w', p') → watch_step w w'
  | step_Remove id w r w' : Remove id w = (r, w') → watch_step w w'
  | step_Clear w : watch_step w (Clear w)
  | step_Refresh w p r w' p' : Refresh (P := P) w p = (r, w', p') → watch_step w w'
  | step_WriteValue id text w p r w' p' :
      WriteValue (P := P) id text w p = (r, w', p') → watch_step w w'
  | step_SetFrozen id frozen w p r w' :
      SetFrozen (P := P) id frozen w p = (r, w') → watch_step w w'
  | step_FreezeTick w p r w' p' : FreezeTick (P := P) w p = (r, w', p') → watch_step w w'
  | step_Load source w p fs r w' p' fs' :
      watch_Load (P := P) source w p fs = (r, w', p', fs') → watch_step w w'.

Lemma watch_step_wf w w' : watch_wf w → watch_step w w' → watch_wf w'.
Proof.
  intros Hw Hs. destruct Hs as [a t d h w p r w' p' Hu Hn Ha|id w r w' Hr|w|w p r w' p' Hr
    |id text w p r w' p' Hr|id frozen w p r w' Hr|w p r w' p' Hr|source w p fs r w' p' fs' Hr].
  - exact (watch_Add_wf _ _ _ _ _ _ _ _ _ Hw Hu Hn Ha).
  - exact (watch_Remove_wf _ _ _ _ Hw Hr).
  - destruct Hw. split; cbn; [unfold sizeZ, kMaxPersistedEntries; cbn; lia|constructor|constructor|done|constructor].
  - exact (watch_Refresh_wf _ _ _ _ _ Hw Hr).
  - pose proof (WriteValue_wf id text w p Hw) as Hx. by rewrite Hr in Hx.
  - exact (watch_SetFrozen_wf _ _ _ _ _ _ Hw Hr).
  - pose proof (FreezeTick_wf w p Hw) as Hx. by rewrite Hr in Hx.
  - exact (proj1 (watch_Load_wf _ _ _ _ _ _ _ _ Hw Hr)).
Qed.

(** Every table that the operations can reach is well-formed: at most 100,000
    entries with distinct ids below the next one, each of a fixed-width type with a
    range that does not wrap, a value of exactly that width, and a frozen value of that
    width if and only if it is frozen.  In particular a table loaded from any bytes at
    all is. *)
Theorem watch_reachable_wf w : rtc watch_step make_WatchList w → watch_wf w.
Proof.
  intros Hr. remember make_WatchList as w0 eqn:E.
  assert (watch_wf w0) as H0' by (subst; apply watch_wf_init). clear E.
  induction Hr as [|w0 w1 w2 Hs _ IH]; [done|]. apply IH. by eapply watch_step_wf.
Qed.
End Reachable.
