(* ===== verification/WatchFileTheorems.v ===== *)
(** The watch table's file: saving is atomic, and a saved table loads disarmed with the
    same entries in the same process.

    The watch table at a concrete process. *)

From stdpp Require Import gmap list.
From S2P Require Import Prelude CppStd Wire Common ProcessMemory ValueCodec FileSystem WatchList WatchTheorems WatchInvariant ValueCodecTheorems.

#[local] Open Scope Z_scope.

(** The file of a table. *)
Definition entry_bytes (e : WatchEntry) : list Z :=
  entry_header e ++ label_bytes (w_description e) ++ frozen_bytes e.
Definition encode_table (pid token : Z) (entries : list WatchEntry) : list Z :=
  header_bytes pid token (sizeZ entries) ++ mjoin (entry_bytes <$> entries).

(** ** Saving *)

Lemma write_entries_frame entries o fs r o' fs' :
  write_entries entries o fs = (r, o', fs') →
  only_changes (os_path o) fs fs' ∧ os_path o' = os_path o ∧
  match r with
  | Some r => Ok r = false
  | None => os_good o' = true → os_good o = true ∧ ∀ content,
      file fs (os_path o) = Some content →
      file fs' (os_path o) = Some (content ++ mjoin (entry_bytes <$> entries))
  end.
Proof.
  revert o fs. induction entries as [|e entries IH]; intros o fs; cbn [write_entries].
  { intros [= <- <- <-]. split; [reflexivity|]. split; [done|]. intros Hg. split; [done|].
    intros content. cbn. by rewrite app_nil_r. }
  destruct (os_write (entry_header e) o fs) as [o1 fs1] eqn:E1.
  destruct (os_write_frame _ _ _ _ _ E1) as (F1 & P1 & G1).
  destruct (os_write (label_bytes _) o1 fs1) as [o2 fs2] eqn:E2.
  destruct (os_write_frame _ _ _ _ _ E2) as (F2 & P2 & G2). rewrite P1 in F2, P2, G2.
  destruct (if negb (sizeZ (frozen_bytes e) =? 0) then _ else _) as [o3 fs3] eqn:E3.
  assert (only_changes (os_path o) fs2 fs3 ∧ os_path o3 = os_path o ∧
    (os_good o3 = true → os_good o2 = true ∧ ∀ content, file fs2 (os_path o) = Some content →
     file fs3 (os_path o) = Some (content ++ frozen_bytes e))) as (F3 & P3 & G3).
  { destruct (Z.eqb_spec (sizeZ (frozen_bytes e)) 0) as [Hz|]; cbn [negb] in E3.
    - injection E3 as <- <-. split; [reflexivity|]. split; [done|]. intros Hg. split; [done|].
      intros content Hc. apply sizeZ_nil_inv in Hz. by rewrite Hz, app_nil_r.
    - destruct (os_write_frame _ _ _ _ _ E3) as (F & Q & G). rewrite P2 in F, Q, G.
      split; [done|]. split; [done|]. intros Hg. destruct (G Hg) as [? Hf]. split; [done|].
      intros content Hc. by rewrite Hc in Hf. }
  assert (only_changes (os_path o) fs fs3) as F
    by (transitivity fs1; [exact F1|]; transitivity fs2; [exact F2|exact F3]).
  destruct (os_good o3) eqn:Hg3; cbn [negb]; [|by intros [= <- <- <-]].
  intros (F4 & P4 & G4)%IH. rewrite P3 in F4, P4, G4.
  split; [transitivity fs3; [exact F|exact F4]|]. split; [done|]. destruct r as [r|]; [done|].
  intros Hg4. destruct (G4 Hg4) as [_ Hc4]. destruct (G3 eq_refl) as [Hg2 Hc3].
  destruct (G2 Hg2) as [Hg1 Hf2]. destruct (G1 Hg1) as [Hg Hf1]. split; [done|].
  intros content Hc. rewrite Hc in Hf1. rewrite Hf1 in Hf2. cbn [default] in Hf2.
  specialize (Hc3 _ Hf2). specialize (Hc4 _ Hc3). rewrite Hc4.
  change (mjoin (entry_bytes <$> e :: entries)) with (entry_bytes e ++ mjoin (entry_bytes <$> entries)).
  unfold entry_bytes at 2, id. by rewrite <- !app_assoc.
Qed.

Lemma watch_stream_writes pid token entries :
  stream_writes (encode_table pid token entries) (watch_stream pid token entries).
Proof.
  intros o fs r fs' H Hf0. unfold watch_stream in H. cbv zeta in H.
  destruct (os_write (header_bytes _ _ _) o fs) as [o1 fs1] eqn:E1.
  destruct (os_write_frame _ _ _ _ _ E1) as (F1 & P1 & G1).
  destruct (os_good o1) eqn:Hg1; cbn [negb] in H; [|by injection H as <- <-].
  destruct (write_entries entries o1 fs1) as [[r2 o2] fs2] eqn:E2.
  apply write_entries_frame in E2 as (F2 & P2 & G2). rewrite P1 in F2, P2, G2.
  assert (only_changes (os_path o) fs fs2) as F by (transitivity fs1; [exact F1|exact F2]).
  destruct r2 as [r2|]; [by injection H as <- <-|].
  destruct (os_sync o2 fs2) as [o3 fs3] eqn:E3. destruct (os_sync_frame _ _ _ _ E3) as (F3 & _ & G3).
  assert (only_changes (os_path o) fs fs3) as F'
    by (transitivity fs2; [exact F|by apply only_changes_same]).
  destruct (os_good o3) eqn:Hg3; cbn [negb] in H; [|by injection H as <- <-].
  destruct (os_sync o3 fs3) as [o4 fs4] eqn:E4. destruct (os_sync_frame _ _ _ _ E4) as (F4 & _ & _).
  rewrite F3 in F4.
  destruct (os_good o4); cbn [negb] in H; injection H as <- <-;
    (split; [transitivity fs2; [exact F|by apply only_changes_same]|]); [|done].
  destruct (G2 (G3 eq_refl)) as [_ Hc]. destruct (G1 eq_refl) as [_ Hf1]. rewrite Hf0 in Hf1.
  specialize (Hc _ Hf1). unfold file in *. by rewrite F4, Hc.
Qed.

Section Save.
Context {P : Type} `{IProcessMemory P}.
Implicit Types p : P.

Lemma watch_Save_effect flt dest w p fs r fs' :
  watch_Save flt dest w p fs = (r, fs') →
  ∃ ordinal, save_effect (encode_table (ProcessId p) (ProcessIdentityToken p) (wl_entries w))
    (temporary_candidate (process_id fs) ordinal dest) dest fs r fs'.
Proof.
  unfold watch_Save. cbv zeta. intros Hs.
  destruct (_ <? _) in Hs; [by exists 0; injection Hs as <- <-|].
  destruct (_ || _) in Hs; [by exists 0; injection Hs as <- <-|].
  destruct (negb _) in Hs; [by exists 0; injection Hs as <- <-|].
  eapply with_temporary_effect; [|exact Hs]. intros t fs0 r0 fs0'.
  apply commit_stream_effect, watch_stream_writes.
Qed.

(** Saving the watch table is atomic: whatever file operation fails and whatever
    fault is injected, the destination is either untouched (failure) or holds the
    complete encoded table (success), and only one temporary sibling is touched
    besides. *)
Theorem watch_save_atomic flt dest w p fs r fs' :
  watch_Save flt dest w p fs = (r, fs') →
  atomic_save (encode_table (ProcessId p) (ProcessIdentityToken p) (wl_entries w)) dest fs r fs'.
Proof. intros [ordinal Hs]%watch_Save_effect. by eapply save_effect_atomic. Qed.
End Save.

(** ** Reading back what was written *)

Lemma entry_header_size e : sizeZ (entry_header e) = 24.
Proof. by apply sizeZ_struct. Qed.
Lemma type_code_range type : 0 ≤ type_code type < 13.
Proof. by destruct type. Qed.
Lemma type_of_code_code type : type_of_code (type_code type) = Some type.
Proof. by destruct type. Qed.

(** The fields of an entry that can be persisted. *)
Lemma entry_fields e tail :
  entry_wf e → is_u64 (w_address e) →
  field (entry_header e ++ tail) 0 8 = w_address e ∧
  field (entry_header e ++ tail) 8 4 = type_code (w_type e) ∧
  field (entry_header e ++ tail) 12 4 = entry_flags e ∧
  field (entry_header e ++ tail) 16 4 = text_size (w_description e) ∧
  field (entry_header e ++ tail) 20 4 = sizeZ (frozen_bytes e).
Proof.
  intros Hw Ha. pose proof (type_code_range (w_type e)) as Ht.
  assert (0 ≤ text_size (w_description e) ≤ kMaxDescriptionBytes) as Hd.
  { split; [apply sizeZ_nonneg|]. exact (ew_description e Hw). }
  assert (0 ≤ sizeZ (frozen_bytes e) ≤ 8) as Hf.
  { split; [apply sizeZ_nonneg|]. pose proof (ew_frozen e Hw) as Hf. unfold frozen_bytes.
    destruct (w_frozen e); [rewrite Hf; by destruct (w_type e)|done]. }
  unfold is_u64, kMaxDescriptionBytes in *.
  unfold entry_header. rewrite !u32_id by (unfold is_u32; lia). decode_fields.
  change (256 ^ 8) with 18446744073709551616. change (256 ^ 4) with 4294967296.
  split_and!; apply Z.mod_small; try lia.
  unfold entry_flags. destruct (w_hexadecimal e), (w_frozen e); done.
Qed.

Lemma flags_frozen e : negb (Z.land (entry_flags e) kWatchFlagWasFrozen =? 0) = w_frozen e.
Proof. unfold entry_flags. by destruct (w_hexadecimal e), (w_frozen e). Qed.
Lemma flags_hexadecimal e : negb (Z.land (entry_flags e) kWatchFlagHexadecimal =? 0) = w_hexadecimal e.
Proof. unfold entry_flags. by destruct (w_hexadecimal e), (w_frozen e). Qed.
Lemma flags_known e : Z.land (entry_flags e) (u32 (Z.lnot 3)) = 0.
Proof. unfold entry_flags. by destruct (w_hexadecimal e), (w_frozen e). Qed.

Lemma entry_accepted e tail :
  entry_wf e → is_u64 (w_address e) → item_invalid (entry_header e ++ tail) = false.
Proof.
  intros Hw Ha. destruct (entry_fields e tail Hw Ha) as (F1 & F2 & F3 & _ & F5).
  unfold item_invalid, code_width. cbv zeta.
  rewrite F1, F2, F3, F5, type_of_code_code, flags_frozen, flags_known.
  destruct Hw as [H1 H2 H3 _ _ H6].
  rewrite (proj2 (Z.eqb_neq (w_address e) 0)), (proj2 (Z.eqb_neq (FixedValueWidth (w_type e)) 0)),
    (proj2 (Z.ltb_ge _ (w_address e))) by lia.
  unfold frozen_bytes. destruct (w_frozen e); [by rewrite H6, Z.eqb_refl|done].
Qed.

Lemma is_read_app a b n fs :
  fault_free fs → sizeZ a = n →
  ∃ fs', ticked fs fs' ∧ is_read n (mkIfstream (a ++ b) true) fs = (a, mkIfstream b true, fs').
Proof.
  intros Hf <-. pose proof (sizeZ_nonneg b).
  destruct (is_read_ok (sizeZ a) (mkIfstream (a ++ b) true) fs) as (fs' & T & ->);
    [done|done|cbn; rewrite sizeZ_app; lia|].
  exists fs'. split; [done|]. cbn [is_rest]. unfold sizeZ. by rewrite Nat2Z.id, take_app_length, drop_app_length.
Qed.

Section Load.
Context {P : Type} `{IProcessMemory P}.
Implicit Types p : P.

(** What an entry becomes when it is loaded as number [id]. *)
Definition reloaded (unverified : bool) (live : WatchEntry → list Z) (id : Z) (e : WatchEntry)
    : WatchEntry :=
  mkWatchEntry id (w_address e) (w_type e) (w_description e) (w_hexadecimal e) false (live e) []
    (load_note (w_frozen e) unverified).

(** The process reads as [live] says. *)
Definition reads_as (live : WatchEntry → list Z) (p : P) (e : WatchEntry) : Prop :=
  Read (w_address e) (FixedValueWidth (w_type e)) p = (Success (live e), p) ∧
  sizeZ (live e) = FixedValueWidth (w_type e).

Lemma load_entry_ok unverified live id e rest p fs :
  fault_free fs → entry_wf e → is_u64 (w_address e) → reads_as live p e →
  ∃ fs', ticked fs fs' ∧
    load_entry unverified id (mkIfstream (entry_bytes e ++ rest) true) p fs =
      (Success (reloaded unverified live id e), mkIfstream rest true, p, fs').
Proof.
  intros Hf Hw Ha [Hr Hs]. unfold load_entry, entry_bytes. rewrite <- !app_assoc.
  destruct (is_read_app (entry_header e) (label_bytes (w_description e) ++ frozen_bytes e ++ rest) 24 fs Hf
    (entry_header_size e)) as (fs1 & T1 & ->). cbv zeta.
  pose proof (entry_fields e [] Hw Ha) as F. rewrite app_nil_r in F. destruct F as (F1 & F2 & F3 & F4 & F5).
  pose proof (entry_accepted e [] Hw Ha) as Hok. rewrite app_nil_r in Hok.
  rewrite F1, F2, F3, F4, F5, Hok, type_of_code_code, flags_frozen, flags_hexadecimal.
  rewrite (proj2 (Z.ltb_ge kMaxDescriptionBytes _)) by exact (ew_description e Hw). cbn [is_good negb orb].
  destruct (is_read_app (label_bytes (w_description e)) (frozen_bytes e ++ rest)
    (text_size (w_description e)) fs1) as (fs2 & T2 & ->); [by eauto with kdbg|done|].
  assert (∃ bytes fs3, ticked fs2 fs3 ∧
    (if negb (sizeZ (frozen_bytes e) =? 0)
     then is_read (sizeZ (frozen_bytes e)) (mkIfstream (frozen_bytes e ++ rest) true) fs2
     else ([], mkIfstream (frozen_bytes e ++ rest) true, fs2)) = (bytes, mkIfstream rest true, fs3))
    as (bytes & fs3 & T3 & ->).
  { destruct (Z.eqb_spec (sizeZ (frozen_bytes e)) 0) as [Hz|]; cbn [negb].
    - apply sizeZ_nil_inv in Hz. rewrite Hz. by exists [], fs2.
    - destruct (is_read_app (frozen_bytes e) rest (sizeZ (frozen_bytes e)) fs2) as (fs3 & T3 & ->);
        [by eauto with kdbg|done|]. by eexists _, _. }
  cbn [is_good negb].
  assert (u32 (FixedValueWidth (w_type e)) = FixedValueWidth (w_type e)) as -> by (by destruct (w_type e)).
  rewrite Hr, Hs, Z.eqb_refl. cbn [negb]. rewrite bytes_label_bytes.
  exists fs3. split; [|done]. transitivity fs1; [done|]. by transitivity fs2.
Qed.

Fixpoint reload_from (unverified : bool) (live : WatchEntry → list Z) (id : Z) (l : list WatchEntry)
    : list WatchEntry :=
  match l with
  | [] => []
  | e :: l => reloaded unverified live id e :: reload_from unverified live (id + 1) l
  end.

Lemma load_entries_ok unverified live l id loaded rest p fs :
  fault_free fs → 0 ≤ id → id + sizeZ l ≤ u64_max →
  Forall (λ e, entry_wf e ∧ is_u64 (w_address e) ∧ reads_as live p e) l →
  ∃ fs', ticked fs fs' ∧
    load_entries unverified (length l) id loaded
      (mkIfstream (mjoin (entry_bytes <$> l) ++ rest) true) p fs =
      (Success (loaded ++ reload_from unverified live id l, id + sizeZ l), mkIfstream rest true, p, fs').
Proof.
  revert id loaded fs. induction l as [|e l IH]; intros id loaded fs Hf H0 Hn Hall.
  { exists fs. split; [reflexivity|]. cbn. by rewrite app_nil_r, Z.add_0_r. }
  apply Forall_cons in Hall as [(Hw & Ha & Hr) Hall].
  rewrite sizeZ_cons in *. pose proof (sizeZ_nonneg l) as Hl0.
  change (mjoin (entry_bytes <$> e :: l)) with (entry_bytes e ++ mjoin (entry_bytes <$> l)).
  rewrite <- app_assoc. cbn [length load_entries].
  destruct (load_entry_ok unverified live id e (mjoin (entry_bytes <$> l) ++ rest) p fs)
    as (fs1 & T1 & ->); [done..|].
  rewrite u64_id by (unfold is_u64; lia).
  destruct (IH (id + 1) (loaded ++ [reloaded unverified live id e]) fs1) as (fs2 & T2 & ->);
    [by eauto with kdbg|lia|lia|done|].
  exists fs2. split; [by transitivity fs1|]. cbn [reload_from]. rewrite <- app_assoc. cbn [app].
  by replace (id + 1 + sizeZ l) with (id + (1 + sizeZ l)) by lia.
Qed.
End Load.

(** ** Saving without faults *)

Lemma write_entries_ok entries o fs :
  fault_free fs → os_good o = true →
  ∃ fs', fault fs' = fault fs ∧ write_entries entries o fs = (None, o, fs').
Proof.
  revert fs. induction entries as [|e entries IH]; intros fs Hf Hg; cbn [write_entries]; [by eauto|].
  destruct (os_write_ok (entry_header e) o fs) as (fs1 & E1 & ->); [done..|].
  destruct (os_write_ok (label_bytes (w_description e)) o fs1) as (fs2 & E2 & ->);
    [by eauto with kdbg|done|].
  assert (∃ fs3, fault fs3 = fault fs2 ∧ (if negb (sizeZ (frozen_bytes e) =? 0)
    then os_write (frozen_bytes e) o fs2 else (o, fs2)) = (o, fs3)) as (fs3 & E3 & ->).
  { destruct (negb _); [|by exists fs2]. apply os_write_ok; [by eauto 6 with kdbg|done]. }
  rewrite Hg. cbn [negb]. destruct (IH fs3) as (fs4 & E4 & ->); [by eauto 7 with kdbg|done|].
  exists fs4. split; [congruence|done].
Qed.

Lemma watch_stream_ok pid token entries o fs :
  fault_free fs → os_good o = true →
  ∃ fs', fault fs' = fault fs ∧ watch_stream pid token entries o fs = (None, fs').
Proof.
  intros Hf Hg. unfold watch_stream. cbv zeta.
  destruct (os_write_ok (header_bytes pid token (sizeZ entries)) o fs) as (fs1 & E1 & ->); [done..|].
  rewrite Hg. cbn [negb].
  destruct (write_entries_ok entries o fs1) as (fs2 & E2 & ->); [by eauto with kdbg|done|].
  destruct (os_sync_ok o fs2) as (fs3 & E3 & ->); [by eauto 6 with kdbg|done|]. rewrite Hg. cbn [negb].
  destruct (os_sync_ok o fs3) as (fs4 & E4 & ->); [by eauto 7 with kdbg|done|]. rewrite Hg.
  exists fs4. split; [congruence|done].
Qed.

Section RoundTrip.
Context {P : Type} `{IProcessMemory P}.
Implicit Types p : P.

Lemma persistable_wf e : entry_wf e → persistable e = true.
Proof.
  intros [H1 H2 H3 H4 _ H6]. unfold persistable. cbv zeta. unfold kMaxDescriptionBytes, frozen_bytes in *.
  rewrite (proj2 (Z.eqb_neq (w_address e) 0)), (proj2 (Z.eqb_neq (FixedValueWidth (w_type e)) 0)),
    (proj2 (Z.leb_le (w_address e) _)), !(proj2 (Z.leb_le (text_size _) _)) by lia.
  destruct (w_frozen e); [by rewrite H6, Z.eqb_refl|done].
Qed.

Lemma watch_Save_ok dest w p fs :
  fault_free fs → is_u64 (sequence fs) → Z.of_nat (size (files fs)) ≤ u64_max → filename dest ≠ "" →
  sizeZ (wl_entries w) ≤ kMaxPersistedEntries → forallb persistable (wl_entries w) = true →
  ∃ fs', watch_Save WatchNoFault dest w p fs = (Success tt, fs') ∧ fault_free fs' ∧
    file fs' dest = Some (encode_table (ProcessId p) (ProcessIdentityToken p) (wl_entries w)).
Proof.
  intros Hf Hq Hn Hd Hc Hp.
  destruct (watch_Save WatchNoFault dest w p fs) as [r fs'] eqn:E. pose proof E as Heff.
  apply watch_Save_effect in Heff as [ordinal Heff]. unfold watch_Save in E. cbv zeta in E.
  assert (path_empty dest = false) as Hpe by (apply bool_decide_eq_false; intros Hx; by rewrite Hx in Hd).
  rewrite (proj2 (Z.ltb_ge _ _)), Hpe, bool_decide_false, Hp in E by done. cbn [orb negb] in E.
  destruct (with_temporary_ok (λ temporary, watch_commit WatchNoFault (ProcessId p)
    (ProcessIdentityToken p) (wl_entries w) temporary dest) dest fs) as (fs2 & E2 & Ec); [done..| |].
  { intros t fs0 Hf0. eapply commit_stream_ok; [apply watch_stream_writes| |done].
    intros o fs1. apply watch_stream_ok. }
  rewrite Ec in E. injection E as <- <-. exists fs2. split; [done|]. split; [by eauto with kdbg|].
  unfold file. rewrite Heff. by rewrite lookup_insert_eq.
Qed.

Lemma header_bytes_size pid token count : sizeZ (header_bytes pid token count) = 32.
Proof. unfold header_bytes. by rewrite sizeZ_app, sizeZ_struct. Qed.

Lemma header_fields pid token count tail :
  is_u32 pid → is_u64 token → is_u64 count →
  slice (header_bytes pid token count ++ tail) 0 8 = kWatchMagic ∧
  field (header_bytes pid token count ++ tail) 8 4 = kWatchVersion ∧
  field (header_bytes pid token count ++ tail) 12 4 = pid ∧
  field (header_bytes pid token count ++ tail) 16 8 = token ∧
  field (header_bytes pid token count ++ tail) 24 8 = count.
Proof.
  unfold is_u32, is_u64. intros Hp Ht Hc. unfold header_bytes. rewrite <- app_assoc.
  split; [by apply slice_app_l|]. unfold field.
  rewrite !(slice_app_r kWatchMagic _ 8) by (done || lia).
  change (8 - 8) with 0. change (12 - 8) with 4. change (16 - 8) with 8. change (24 - 8) with 16.
  fold (field (struct [(4, kWatchVersion); (4, pid); (8, token); (8, count)] ++ tail) 0 4).
  fold (field (struct [(4, kWatchVersion); (4, pid); (8, token); (8, count)] ++ tail) 4 4).
  fold (field (struct [(4, kWatchVersion); (4, pid); (8, token); (8, count)] ++ tail) 8 8).
  fold (field (struct [(4, kWatchVersion); (4, pid); (8, token); (8, count)] ++ tail) 16 8).
  decode_fields. change (256 ^ 8) with 18446744073709551616. change (256 ^ 4) with 4294967296.
  split_and!; [done|by apply Z.mod_small; lia..].
Qed.

(** Loading the file of a table in the process it was saved from. *)
Lemma load_table source w0 entries live p fs :
  fault_free fs → file fs source = Some (encode_table (ProcessId p) (ProcessIdentityToken p) entries) →
  is_u32 (ProcessId p) → is_u64 (ProcessIdentityToken p) →
  sizeZ entries ≤ kMaxPersistedEntries →
  sizeZ (encode_table (ProcessId p) (ProcessIdentityToken p) entries) ≤ kMaxWatchFileBytes →
  Forall (λ e, entry_wf e ∧ is_u64 (w_address e) ∧ reads_as live p e) entries →
  ∃ fs', watch_Load source w0 p fs =
    (Success tt, mkWatchList (reload_from (ProcessIdentityToken p =? 0) live 1 entries)
                   (1 + sizeZ entries), p, fs').
Proof.
  intros Hf Hfile Hpid Htok Hc Hsize Hall. set (token := ProcessIdentityToken p) in *.
  set (content := encode_table (ProcessId p) token entries) in *.
  pose proof (sizeZ_nonneg entries) as Hn0. unfold kMaxPersistedEntries in Hc.
  assert (is_u64 (sizeZ entries)) as Hcu by (unfold is_u64; lia).
  pose proof (header_bytes_size (ProcessId p) token (sizeZ entries)) as Hh.
  set (body := mjoin (entry_bytes <$> entries)) in *.
  assert (content = header_bytes (ProcessId p) token (sizeZ entries) ++ body) as Hcon by done.
  pose proof (sizeZ_nonneg body) as Hb0.
  assert (sizeZ content = 32 + sizeZ body) as Hcs by (rewrite Hcon, sizeZ_app; lia).
  destruct (header_fields (ProcessId p) token (sizeZ entries) body Hpid Htok Hcu)
    as (Hm & Hv & Hfp & Hft & Hfc). rewrite <- Hcon in Hm, Hv, Hfp, Hft, Hfc.
  unfold watch_Load. cbv zeta.
  destruct (fs_file_size_ok source fs content Hf Hfile) as (fs1 & T1 & ->).
  rewrite (proj2 (Z.ltb_ge (sizeZ content) 24)), (proj2 (Z.ltb_ge _ (sizeZ content))) by lia.
  cbn [Z.eqb negb orb].
  destruct (is_open_ok source fs1 content) as (fs2 & T2 & ->);
    [by eauto with kdbg|by unfold file; rewrite (proj1 T1)|]. cbn [is_good negb].
  destruct (is_read_ok 12 (mkIfstream content true) fs2) as (fs3 & T3 & ->);
    [by eauto 6 with kdbg|done|change (12 ≤ sizeZ content); lia|]. cbn [is_good is_rest negb orb].
  assert (∀ off n, 0 ≤ off → 0 ≤ n → off + n ≤ 12 → slice (take (Z.to_nat 12) content) off n = slice content off n)
    as Htake.
  { intros off n Ho Hn Hon. unfold slice.
    assert (12 ≤ length content)%nat by (unfold sizeZ in Hcs; lia).
    change (Z.to_nat 12) with 12%nat. rewrite <- (take_drop 12 content) at 2.
    rewrite drop_app_le, take_app_le; [done|rewrite length_drop|]; rewrite length_take; lia. }
  assert (field (take (Z.to_nat 12) content) 8 4 = kWatchVersion) as ->.
  { unfold field. rewrite (Htake 8 4) by done. exact Hv. }
  rewrite (Htake 0 8) by done. rewrite Hm.
  rewrite (proj2 (bytes_eqb_eq kWatchMagic kWatchMagic) eq_refl).
  change (kWatchVersion =? kLegacyWatchVersion) with false.
  change (kWatchVersion =? kWatchVersion) with true. cbn [negb orb andb].
  unfold load_body, read_header. cbv zeta. change (kWatchVersion =? kLegacyWatchVersion) with false.
  rewrite Hcon.
  destruct (is_read_app (header_bytes (ProcessId p) token (sizeZ entries)) body 32 fs3)
    as (fs4 & T4 & ->); [by eauto 7 with kdbg|done|].
  destruct (header_fields (ProcessId p) token (sizeZ entries) [] Hpid Htok Hcu)
    as (_ & _ & Gp & Gt & Gc). rewrite app_nil_r in Gp, Gt, Gc. rewrite Gp, Gt, Gc.
  unfold kMaxPersistedEntries. fold token.
  rewrite (proj2 (Z.ltb_ge _ (sizeZ entries))), !Z.eqb_refl by lia.
  assert (negb (token =? 0) && negb (token =? 0) && negb true = false) as -> by (by rewrite andb_false_r).
  cbn [is_good negb orb]. replace ((token =? 0) || (token =? 0)) with (token =? 0) by (by destruct (token =? 0)).
  destruct (load_entries_ok (token =? 0) live entries 1 [] [] p fs4) as (fs5 & T5 & E5);
    [by eauto 8 with kdbg|lia|lia|done|].
  rewrite app_nil_r in E5. fold body in E5.
  replace (Z.to_nat (sizeZ entries)) with (length entries) by (unfold sizeZ; lia). rewrite E5.
  rewrite bool_decide_true by done. by exists fs5.
Qed.

(** [C29] A saved table comes back disarmed: saving a well-formed table of at most
    64 MiB on a file system without faults succeeds, and loading that file into any
    table attached to the same process, whose watched values can be read, gives the
    same entries in order, renumbered from 1, with their current values, none of them
    frozen, and a note on those that were. *)
Theorem watch_save_load dest w w0 live p fs :
  watch_wf w → Forall (λ e, is_u64 (w_address e)) (wl_entries w) →
  Forall (reads_as live p) (wl_entries w) →
  sizeZ (encode_table (ProcessId p) (ProcessIdentityToken p) (wl_entries w)) ≤ kMaxWatchFileBytes →
  is_u32 (ProcessId p) → is_u64 (ProcessIdentityToken p) →
  fault_free fs → is_u64 (sequence fs) → Z.of_nat (size (files fs)) ≤ u64_max → filename dest ≠ "" →
  ∃ fs1 fs2, watch_Save WatchNoFault dest w p fs = (Success tt, fs1) ∧
    watch_Load dest w0 p fs1 =
      (Success tt, mkWatchList (reload_from (ProcessIdentityToken p =? 0) live 1 (wl_entries w))
                     (1 + sizeZ (wl_entries w)), p, fs2).
Proof.
  intros Hw Ha Hr Hs Hpid Htok Hf Hq Hn Hd.
  destruct (watch_Save_ok dest w p fs) as (fs1 & E1 & Hf1 & Hfile); [done..|exact (ww_count w Hw)| |].
  { apply forallb_forall. intros e He. apply persistable_wf.
    pose proof (ww_entries w Hw) as Hall. rewrite Forall_forall in Hall. apply Hall.
    by apply list_elem_of_In. }
  destruct (load_table dest w0 (wl_entries w) live p fs1) as (fs2 & E2); [done..|exact (ww_count w Hw)|done| |].
  { rewrite Forall_forall in Ha, Hr |- *. intros e He. pose proof (ww_entries w Hw) as Hall.
    rewrite Forall_forall in Hall. split_and!; [by apply Hall|by apply Ha|by apply Hr]. }
  exists fs1, fs2. done.
Qed.

(** A table of more than 64 MiB, which the entry and description limits allow, is
    saved without an error into a file that can never be loaded again. *)
Theorem watch_save_unloadable dest w w0 p q fs :
  sizeZ (wl_entries w) ≤ kMaxPersistedEntries → forallb persistable (wl_entries w) = true →
  kMaxWatchFileBytes < sizeZ (encode_table (ProcessId p) (ProcessIdentityToken p) (wl_entries w)) →
  fault_free fs → is_u64 (sequence fs) → Z.of_nat (size (files fs)) ≤ u64_max → filename dest ≠ "" →
  ∃ fs1, watch_Save WatchNoFault dest w p fs = (Success tt, fs1) ∧
    ∃ e q' fs2, watch_Load (P := P) dest w0 q fs1 = (Failure e, w0, q', fs2) ∧ code e = LimitReached.
Proof.
  intros Hc Hp Hs Hf Hq Hn Hd.
  destruct (watch_Save_ok dest w p fs) as (fs1 & E1 & Hf1 & Hfile); [done..|].
  exists fs1. split; [done|]. unfold watch_Load. cbv zeta.
  destruct (fs_file_size_ok dest fs1 _ Hf1 Hfile) as (fs2 & T2 & ->).
  rewrite (proj2 (Z.ltb_lt kMaxWatchFileBytes _)), orb_true_r by done. by eexists _, _, _.
Qed.
End RoundTrip.

#[local] Existing Instance no_floats.

Definition watched_process : MockProcessMemory := make_MockProcessMemory 0x10000 256 8.
Definition armed_process : MockProcessMemory := (SetWritesArmed true watched_process).2.
Definition one_entry : WatchList := (Add 0x10010 Int32 "health" false make_WatchList watched_process).1.2.
(** Two entries, the first of them frozen. *)
Definition demo_table : WatchList :=
  (SetFrozen 1 true (Add 0x10020 UInt8 "lives" true one_entry watched_process).1.2 armed_process).2.

Lemma watch_disarms_witness :
  WritesArmed (WriteValue 1 (str "42") demo_table armed_process).2 = false ∧
  WritesArmed (FreezeTick demo_table armed_process).2 = false.
Proof. apply (watch_disarms (P := MockProcessMemory)). intros q. reflexivity. Defined.

Lemma WriteValue_success_witness :
  mem_bytes (mock_vmem (WriteValue 1 (str "42") demo_table armed_process).2) 0x10010 4 = [42; 0; 0; 0].
Proof.
  destruct (WriteValue_success 1 (str "42") demo_table armed_process
    (WriteValue 1 (str "42") demo_table armed_process).1.2
    (WriteValue 1 (str "42") demo_table armed_process).2) as (i & e & encoded & Hf & He & _ & _ & Hm & _).
  - intros e He. vm_compute in He. repeat (apply elem_of_cons in He as [->|He]; [vm_compute; discriminate|]).
    by apply elem_of_nil in He.
  - vm_compute. reflexivity.
  - assert (Some (i, e) = Find 1 demo_table) as Hf' by (symmetry; exact Hf).
    vm_compute in Hf'. injection Hf' as -> ->. vm_compute in He. injection He as <-. exact Hm.
Defined.

Lemma watch_reachable_wf_witness : watch_wf one_entry.
Proof.
  apply (watch_reachable_wf (P := MockProcessMemory)). apply rtc_once.
  eapply (step_Add 0x10010 Int32 "health" false make_WatchList watched_process).
  - unfold is_u64. lia.
  - cbn. lia.
  - unfold one_entry. apply surjective_pairing || (rewrite <- surjective_pairing; apply surjective_pairing).
Defined.

Definition watch_fs : FileSystem :=
  mkFileSystem {[mkPath "dir" "a.kdbg" := [9; 9]]} (λ _, (0, 0%nat)) 0 42 0.
Definition watch_path : path := mkPath "dir" "a.kdbg".
(** The tenth operation fails. *)
Definition watch_fs_failing : FileSystem := watch_fs <| fault := λ k, (if bool_decide (k = 9%nat) then 5 else 0, 0%nat) |>.

Lemma watch_save_atomic_witness :
  file (watch_Save WatchNoFault watch_path demo_table watched_process watch_fs_failing).2 watch_path =
  Some [9; 9].
Proof.
  destruct (watch_Save WatchNoFault watch_path demo_table watched_process watch_fs_failing)
    as [r fs'] eqn:E.
  destruct (watch_save_atomic _ _ _ _ _ _ _ E) as (ordinal & _ & Hx).
  assert (Ok r = false) as Hr.
  { change r with (r, fs').1. rewrite <- E. vm_compute. reflexivity. }
  destruct r as [[]|e]; [discriminate Hr|]. cbn [snd]. rewrite Hx. vm_compute. reflexivity.
Defined.

Lemma demo_table_wf : watch_wf demo_table.
Proof.
  split.
  - vm_compute. discriminate.
  - vm_compute. repeat constructor; set_solver.
  - vm_compute. repeat constructor; discriminate.
  - vm_compute. split; discriminate.
  - repeat constructor; vm_compute; congruence.
Qed.

Lemma watch_save_load_witness :
  let live e := mem_bytes (mock_vmem watched_process) (w_address e) (FixedValueWidth (w_type e)) in
  ∃ fs1 fs2, watch_Save WatchNoFault watch_path demo_table watched_process watch_fs = (Success tt, fs1) ∧
    watch_Load watch_path make_WatchList watched_process fs1 =
      (Success tt, mkWatchList (reload_from true live 1 (wl_entries demo_table)) 3, watched_process, fs2) ∧
    map w_frozen (wl_entries demo_table) = [true; false] ∧
    map w_frozen (reload_from true live 1 (wl_entries demo_table)) = [false; false].
Proof.
  intros live.
  destruct (watch_save_load watch_path demo_table make_WatchList live watched_process watch_fs)
    as (fs1 & fs2 & Hs & Hl).
  - exact demo_table_wf.
  - repeat constructor; vm_compute; congruence.
  - repeat constructor.
  - vm_compute. discriminate.
  - vm_compute. split; discriminate.
  - vm_compute. split; discriminate.
  - intros k. reflexivity.
  - vm_compute. split; discriminate.
  - vm_compute. discriminate.
  - discriminate.
  - exists fs1, fs2. split; [exact Hs|]. split; [exact Hl|]. split; reflexivity.
Defined.

(** Twenty thousand entries with the longest description allowed. *)
Definition long_description : string := bytes_label (replicate 4096 65).
Definition large_entry : WatchEntry :=
  mkWatchEntry 1 0x10010 Int32 long_description false false [0; 0; 0; 0] [] "".
Definition large_table : WatchList := mkWatchList (replicate (Z.to_nat 20000) large_entry) 2.

Lemma large_entry_size : sizeZ (entry_bytes large_entry) = 4120.
Proof. vm_compute. reflexivity. Qed.
Lemma sizeZ_join_replicate n (l : list Z) : sizeZ (mjoin (replicate n l)) = Z.of_nat n * sizeZ l.
Proof.
  induction n as [|n IH]; [done|]. change (mjoin (replicate (S n) l)) with (l ++ mjoin (replicate n l)).
  rewrite sizeZ_app, IH. lia.
Qed.
Lemma large_table_size :
  sizeZ (encode_table 1337 0 (wl_entries large_table)) = 32 + 20000 * 4120.
Proof.
  unfold encode_table, large_table. cbn [wl_entries].
  rewrite sizeZ_app, header_bytes_size, fmap_replicate, sizeZ_join_replicate, large_entry_size,
    Z2Nat.id by lia. reflexivity.
Qed.

Lemma watch_save_unloadable_witness :
  ∃ fs1, watch_Save WatchNoFault watch_path large_table watched_process watch_fs = (Success tt, fs1) ∧
    ∃ e q' fs2, watch_Load watch_path make_WatchList watched_process fs1 =
      (Failure e, make_WatchList, q', fs2) ∧ code e = LimitReached.
Proof.
  apply watch_save_unloadable.
  - cbn [large_table wl_entries]. unfold sizeZ. rewrite length_replicate. unfold kMaxPersistedEntries. lia.
  - apply forallb_forall. intros e He%list_elem_of_In%elem_of_replicate. destruct He as [-> _].
    vm_compute. reflexivity.
  - change (ProcessId watched_process) with 1337. change (ProcessIdentityToken watched_process) with 0.
    rewrite large_table_size. unfold kMaxWatchFileBytes. lia.
  - intros k. reflexivity.
  - vm_compute. split; discriminate.
  - vm_compute. discriminate.
  - discriminate.
Defined.
