(* ===== verification/AddressList.v ===== *)
(** [core/address/AddressList]: the table of addresses over any memory backend, its
    refresh, verified writes and freeze tick.  Allocation failures are not modelled.

    [AddressList::Save] and [AddressList::Load]: the table as lines of text.  Allocation
    failures are not modelled. *)

From stdpp Require Import list.
From stdpp Require Import gmap list.
From S2P Require Import Prelude CppStd Wire Common ValueCodec PointerResolver FileSystem Iostream SnapshotFile WatchList X64PageTable MemoryBackend VerifiedWriter.
From Stdlib Require Import Ascii String.

#[local] Open Scope Z_scope.

(** ** State *)

Record AddressEntry := mkAddressEntry {
  a_id : Z;
  a_description : string;
  a_space : MemorySpace;
  a_address : Z;
  a_type : ScanValueType;
  a_width : Z;
  a_pointer_path : option AddressPointerPath;
  a_frozen : bool;
  a_freeze_value : list Z;
  a_current_value : list Z;
  a_resolved_address : Z;
  a_last_error : option Error
}.

#[export] Instance AddressEntry_eta : Eta AddressEntry := fun e =>
  mkAddressEntry (a_id e) (a_description e) (a_space e) (a_address e) (a_type e) (a_width e)
    (a_pointer_path e) (a_frozen e) (a_freeze_value e) (a_current_value e) (a_resolved_address e)
    (a_last_error e).

Record AddressRefreshSummary := mkAddressRefreshSummary { ars_refreshed : Z; ars_failed : Z }.
Record FreezeSummary := mkFreezeSummary { fz_verified : Z; fz_failed : Z }.

Record AddressList := mkAddressList { al_entries : list AddressEntry; al_next_id : Z }.
#[export] Instance AddressList_eta : Eta AddressList := fun l =>
  mkAddressList (al_entries l) (al_next_id l).
Definition make_AddressList : AddressList := mkAddressList [] 1.

Definition kMaxEntries : Z := 100000.
Definition kMaxValueWidth : Z := 1024 * 1024.
Definition kMaxAddressDescriptionBytes : Z := 64 * 1024.
Definition kMaxRowBytes : Z := 2 * kMaxValueWidth + kMaxAddressDescriptionBytes + 1024.

Definition description_size (e : AddressEntry) : Z := sizeZ (label_bytes (a_description e)).

(** ** Validation *)

Definition ValidateSpace (space : MemorySpace) (context : string) : Result unit :=
  match kind space with
  | Physical | KernelVirtual =>
      if negb (pid space =? 0) then
        Failure (MakeError InvalidArgument "Non-process address-list entries must not carry a PID" context)
      else Success tt
  | ProcessVirtual =>
      if pid space =? 0 then
        Failure (MakeError InvalidArgument "Process address-list entries require a non-zero PID" context)
      else Success tt
  end.

(** [find_first_of("\r\n") != npos] *)
Definition has_line_break (text : string) : bool :=
  existsb (λ b, (b =? 13) || (b =? 10)) (label_bytes text).

Definition ValidatePath (e : AddressEntry) (path : AddressPointerPath) (context : string) : Result unit :=
  match ValidateSpace (path_space path) context with
  | Failure er => Failure er
  | Success _ =>
      if negb (pointer_size path =? 4) && negb (pointer_size path =? 8) then
        Failure (MakeError InvalidArgument "Address-list pointer size must be 4 or 8 bytes" context)
      else if (base_address path =? 0) || (kMaxDepth <? sizeZ (offsets path)) ||
              negb (bool_decide (kind (path_space path) = kind (a_space e))) ||
              negb (pid (path_space path) =? pid (a_space e)) then
        Failure (MakeError InvalidArgument
          "Address-list pointer path has an invalid base, depth, or memory space" context)
      else Success tt
  end.

Definition ValidateEntry (e : AddressEntry) (context : string) : Result unit :=
  match ValidateSpace (a_space e) context with
  | Failure er => Failure er
  | Success _ =>
      let fixed_width := FixedValueWidth (a_type e) in
      if (a_address e =? 0) || (u64_max - a_width e <? a_address e) || (a_width e =? 0) ||
         (kMaxValueWidth <? a_width e) then
        Failure (MakeError InvalidArgument "Address-list entry has an invalid type or width" context)
      else if (negb (fixed_width =? 0) && negb (a_width e =? fixed_width)) ||
              (bool_decide (a_type e = Utf16) && negb (Z.land (a_width e) 1 =? 0)) then
        Failure (MakeErrorFull InvalidArgument "Address-list width is inconsistent with its value type"
          context 0 fixed_width (a_width e))
      else if (kMaxAddressDescriptionBytes <? description_size e) || has_line_break (a_description e) then
        Failure (MakeError LimitReached "Address-list description is too long or contains a line break"
          context)
      else if (negb (bool_decide (a_current_value e = [])) && negb (sizeZ (a_current_value e) =? a_width e)) ||
              (a_frozen e && negb (sizeZ (a_freeze_value e) =? a_width e)) ||
              (negb (a_frozen e) && negb (bool_decide (a_freeze_value e = []))) then
        Failure (MakeError InvalidArgument "Address-list entry contains a value with the wrong width" context)
      else
        match a_pointer_path e with
        | None => Success tt
        | Some path => ValidatePath e path context
        end
  end.

Definition RequireProcessWrite (e : AddressEntry) (context : string) : Result unit :=
  match ValidateEntry e context with
  | Failure er => Failure er
  | Success _ =>
      if negb (bool_decide (kind (a_space e) = ProcessVirtual)) then
        Failure (MakeError Unsupported
          "Generic address-list writes and freeze are restricted to process virtual memory" context)
      else Success tt
  end.

(** ** Adding and removing *)

Definition Find (id : Z) (l : AddressList) : option (nat * AddressEntry) :=
  list_find (λ e, a_id e = id) (al_entries l).
Definition set_entry (i : nat) (e : AddressEntry) (l : AddressList) : AddressList :=
  l <| al_entries := <[i := e]> (al_entries l) |>.

(** The id the new entry gets, if it can get one. *)
Definition choose_id (e : AddressEntry) (l : AddressList) : option Z :=
  if a_id e =? 0 then
    if (al_next_id l =? 0) || (al_next_id l =? u64_max) then None else Some (al_next_id l)
  else if a_id e =? u64_max then None
  else match Find (a_id e) l with Some _ => None | None => Some (a_id e) end.

(** 0 is the answer of a refused entry. *)
Definition Add (e : AddressEntry) (l : AddressList) : Z * AddressList :=
  if kMaxEntries <=? sizeZ (al_entries l) then (0, l)
  else
    match choose_id e l with
    | None => (0, l)
    | Some id =>
        let e := e <| a_id := id |> in
        let e := if a_width e =? 0 then e <| a_width := FixedValueWidth (a_type e) |> else e in
        match ValidateEntry e "AddressList::Add" with
        | Failure _ => (0, l)
        | Success _ =>
            (id, mkAddressList (al_entries l ++ [e <| a_resolved_address := a_address e |>])
                   (Z.max (al_next_id l) (id + 1)))
        end
    end.

Definition Remove (id : Z) (l : AddressList) : bool * AddressList :=
  let entries := filter (λ e, a_id e ≠ id) (al_entries l) in
  (negb (sizeZ entries =? sizeZ (al_entries l)), l <| al_entries := entries |>).

Definition Clear (l : AddressList) : AddressList := make_AddressList.

Section Backend.
Context {B : Type} `{IMemoryBackend B}.

(** ** Refreshing *)

Definition ResolveAddress (e : AddressEntry) (b : B) : Result Z * AddressEntry * B :=
  match a_pointer_path e with
  | None => (Success (a_address e), e <| a_resolved_address := a_address e |>, b)
  | Some path =>
      match Resolve path b with
      | (Failure er, b) => (Failure er, e, b)
      | (Success address, b) => (Success address, e <| a_resolved_address := address |>, b)
      end
  end.

(** An entry keeps the error of its last operation. *)
Definition failed_with (er : Error) (e : AddressEntry) : AddressEntry := e <| a_last_error := Some er |>.

Definition refresh_entry (e : AddressEntry) (b : B) : bool * AddressEntry * B :=
  let op := "AddressList::Refresh" in
  let e := e <| a_last_error := None |> in
  match ValidateEntry e op with
  | Failure er => (false, failed_with er e, b)
  | Success _ =>
      match ResolveAddress e b with
      | (Failure er, e, b) => (false, failed_with er e, b)
      | (Success address, e, b) =>
          match ReadMemory (a_space e) address (u32 (a_width e)) b with
          | (Failure er, b) => (false, failed_with er e, b)
          | (Success bytes, b) =>
              if negb (sizeZ bytes =? a_width e) then
                (false, failed_with
                   (MakeError ShortRead "Address-list refresh returned a short read" op) e, b)
              else (true, e <| a_current_value := bytes |>, b)
          end
      end
  end.

Fixpoint refresh_loop (entries : list AddressEntry) (b : B)
    : list AddressEntry * AddressRefreshSummary * B :=
  match entries with
  | [] => ([], mkAddressRefreshSummary 0 0, b)
  | e :: entries =>
      let '(ok, e, b) := refresh_entry e b in
      let '(entries, s, b) := refresh_loop entries b in
      (e :: entries,
       if ok : bool then mkAddressRefreshSummary (1 + ars_refreshed s) (ars_failed s)
       else mkAddressRefreshSummary (ars_refreshed s) (1 + ars_failed s), b)
  end.

Definition Refresh (l : AddressList) (b : B) : Result AddressRefreshSummary * AddressList * B :=
  let '(entries, summary, b) := refresh_loop (al_entries l) b in
  (Success summary, l <| al_entries := entries |>, b).

(** ** Writing *)

Definition ArmProcessWrites (confirmed_pid : Z) : Result VerifiedWriteArmToken :=
  ArmProcessWrite confirmed_pid.

Definition al_Write (arm_token : VerifiedWriteArmToken) (id : Z) (value : list Z) (l : AddressList) (b : B)
    : Result VerifiedWriteResult * AddressList * B :=
  let op := "AddressList::Write" in
  match Find id l with
  | None => (Failure (MakeError NotFound "Address-list entry was not found" op), l, b)
  | Some (i, e) =>
      match RequireProcessWrite e op with
      | Failure er => (Failure er, set_entry i (failed_with er e) l, b)
      | Success _ =>
          if negb (sizeZ value =? a_width e) then
            (Failure (MakeErrorFull InvalidArgument "Write width does not match the address-list entry" op
               0 (a_width e) (sizeZ value)), l, b)
          else
            match ResolveAddress e b with
            | (Failure er, e, b) => (Failure er, set_entry i e l, b)
            | (Success address, e, b) =>
                if negb (sizeZ (a_current_value e) =? a_width e) then
                  let er := MakeError InvalidArgument
                    "Refresh the address-list entry before writing so an expected-before value is available"
                    op in
                  (Failure er, set_entry i (failed_with er e) l, b)
                else
                  match VerifiedWrite arm_token (a_space e) address value (Some (a_current_value e)) b with
                  | (Failure er, b) => (Failure er, set_entry i (failed_with er e) l, b)
                  | (Success result, b) =>
                      (Success result,
                       set_entry i (e <| a_current_value := vw_readback result |>
                                      <| a_last_error := None |>) l, b)
                  end
            end
      end
  end.

(** ** Freezing *)

Definition SetFrozen (id : Z) (frozen : bool) (value : option (list Z)) (l : AddressList) (b : B)
    : Result unit * AddressList * B :=
  let op := "AddressList::SetFrozen" in
  match Find id l with
  | None => (Failure (MakeError NotFound "Address-list entry was not found" op), l, b)
  | Some (i, e) =>
      if negb frozen then
        (Success tt, set_entry i (e <| a_frozen := false |> <| a_freeze_value := [] |>) l, b)
      else
        match RequireProcessWrite e op with
        | Failure er => (Failure er, set_entry i (failed_with er e) l, b)
        | Success _ =>
            let '(selected, e, b) :=
              match value with
              | Some value => (Success value, e, b)
              | None =>
                  if negb (bool_decide (a_current_value e = [])) then (Success (a_current_value e), e, b)
                  else
                    match ResolveAddress e b with
                    | (Failure er, e, b) => (Failure er, e, b)
                    | (Success address, e, b) =>
                        let '(bytes, b) := ReadMemory (a_space e) address (u32 (a_width e)) b in
                        (bytes, e, b)
                    end
              end in
            match selected with
            | Failure er => (Failure er, set_entry i e l, b)
            | Success selected =>
                if negb (sizeZ selected =? a_width e) then
                  (Failure (MakeError InvalidArgument
                     "Freeze value width does not match the address-list entry" op), set_entry i e l, b)
                else
                  (Success tt, set_entry i (e <| a_freeze_value := selected |> <| a_frozen := true |>) l, b)
            end
        end
  end.

(** The process of the first frozen process entry. *)
Definition confirmed_pid_of (entries : list AddressEntry) : option Z :=
  match list_find (λ e, a_frozen e = true ∧ kind (a_space e) = ProcessVirtual) entries with
  | Some (_, e) => Some (pid (a_space e))
  | None => None
  end.

Definition tick_entry (confirmed_pid : Z) (e : AddressEntry) (b : B) : bool * AddressEntry * B :=
  let op := "AddressList::TickFreeze" in
  match RequireProcessWrite e op with
  | Failure er => (false, failed_with er e, b)
  | Success _ =>
      match ResolveAddress e b with
      | (Failure er, e, b) => (false, failed_with er e, b)
      | (Success address, e, b) =>
          if negb (pid (a_space e) =? confirmed_pid) then
            (false, failed_with (MakeErrorFull WriteLocked
               "One freeze transaction cannot cross confirmed PIDs" op 0 confirmed_pid (pid (a_space e))) e, b)
          else
            match ReadMemory (a_space e) address (u32 (a_width e)) b with
            | (Failure er, b) => (false, failed_with er e, b)
            | (Success before, b) =>
                if negb (sizeZ before =? a_width e) then
                  (false, failed_with (MakeErrorFull ShortRead "Freeze preflight returned a short read" op
                     0 (a_width e) (sizeZ before)) e, b)
                else
                  match ArmProcessWrite confirmed_pid with
                  | Failure er => (false, failed_with er e, b)
                  | Success write_arm =>
                      match VerifiedWrite write_arm (a_space e) address (a_freeze_value e) (Some before) b with
                      | (Failure er, b) => (false, failed_with er e, b)
                      | (Success result, b) =>
                          (true, e <| a_current_value := vw_readback result |> <| a_last_error := None |>, b)
                      end
                  end
            end
      end
  end.

Fixpoint tick_loop (confirmed_pid : Z) (entries : list AddressEntry) (b : B)
    : list AddressEntry * FreezeSummary * B :=
  match entries with
  | [] => ([], mkFreezeSummary 0 0, b)
  | e :: entries =>
      if negb (a_frozen e) then
        let '(entries, s, b) := tick_loop confirmed_pid entries b in (e :: entries, s, b)
      else
        let '(ok, e, b) := tick_entry confirmed_pid e b in
        let '(entries, s, b) := tick_loop confirmed_pid entries b in
        (e :: entries,
         if ok : bool then mkFreezeSummary (1 + fz_verified s) (fz_failed s)
         else mkFreezeSummary (fz_verified s) (1 + fz_failed s), b)
  end.

Definition TickFreeze (arm_token : VerifiedWriteArmToken) (l : AddressList) (b : B)
    : Result FreezeSummary * AddressList * B :=
  let op := "AddressList::TickFreeze" in
  match confirmed_pid_of (al_entries l) with
  | None =>
      let mark e := if a_frozen e then
        failed_with (MakeError Unsupported "Freeze writes are process-virtual only" op) e else e in
      (Success (mkFreezeSummary 0 (sizeZ (filter (λ e, a_frozen e = true) (al_entries l)))),
       l <| al_entries := mark <$> al_entries l |>, b)
  | Some confirmed_pid =>
      if negb (Consume confirmed_pid arm_token).1 then
        (Failure (MakeError WriteLocked "Freeze tick requires a fresh matching PID arm token" op), l, b)
      else
        let '(entries, summary, b) := tick_loop confirmed_pid (al_entries l) b in
        (Success summary, l <| al_entries := entries |>, b)
  end.
End Backend.

(** ** The file format *)

Definition kLegacyAddressListVersion : Z := 1.
Definition kAddressListVersion : Z := 2.
Definition kAddressListMagic : chars := str "KDBG_ADDRESS_LIST".

Definition Hex (bytes : list Z) : chars :=
  mjoin ((λ b, [digit_char true (Z.shiftr b 4); digit_char true (Z.land b 15)]) <$> bytes).

Definition unhex_failure {T} (msg : string) : Result T := Failure (MakeError ParseError msg "AddressList::Load").
Fixpoint unhex_loop (text : chars) : Result (list Z) :=
  match text with
  | high :: low :: rest =>
      match digit_value high, digit_value low with
      | Some h, Some l =>
          match unhex_loop rest with
          | Failure e => Failure e
          | Success bytes => Success (u8 (Z.lor (Z.shiftl h 4) l) :: bytes)
          end
      | _, _ => unhex_failure "Address-list hex payload contains a non-hex character"
      end
  | _ => Success []
  end.
Definition Unhex (text : chars) : Result (list Z) :=
  if negb (Z.land (sizeZ text) 1 =? 0) then unhex_failure "Address-list hex payload has an odd length"
  else unhex_loop text.

Definition flag (b : bool) : Z := if b then 1 else 0.

(** The fields of a pointer path, as they follow [has_pointer]. *)
Definition path_fields (path : AddressPointerPath) : list chars :=
  [insert_int (kind_code (kind (path_space path))); insert_int (pid (path_space path));
   insert_int (base_address path); insert_int (pointer_size path);
   insert_int (sizeZ (offsets path))] ++ (insert_int <$> offsets path).
Definition row_fields (e : AddressEntry) : list chars :=
  [insert_int (a_id e); insert_int (kind_code (kind (a_space e))); insert_int (pid (a_space e));
   insert_int (a_address e); insert_int (type_code (a_type e)); insert_int (a_width e);
   insert_int (flag (a_frozen e)); insert_quoted (str (a_description e));
   if bool_decide (a_freeze_value e = []) then str "-" else Hex (a_freeze_value e);
   insert_int (flag (bool_decide (is_Some (a_pointer_path e))))] ++
  match a_pointer_path e with Some path => path_fields path | None => [] end.

Definition row_text (e : AddressEntry) : chars := tabbed (row_fields e).
Definition header_text : chars := tabbed [kAddressListMagic; insert_int kAddressListVersion].

(** ** Saving *)

Inductive AddressListSaveFault := AddressNoFault | AddressAfterFlushBeforeReplace.
#[export] Instance AddressListSaveFault_eq_dec : EqDecision AddressListSaveFault.
Proof. solve_decision. Defined.

Definition address_messages : FileMessages :=
  mkFileMessages "Unable to reopen the temporary address-list file for flush"
    "Unable to flush the temporary address-list file to disk"
    "Unable to atomically replace the address-list file" "AddressList::Save".

(** The entries are checked one by one, their ids collected. *)
Fixpoint check_entries (ids : gset Z) (entries : list AddressEntry) : Result unit :=
  match entries with
  | [] => Success tt
  | e :: entries =>
      match ValidateEntry e "AddressList::Save" with
      | Failure er => Failure er
      | Success _ =>
          if (a_id e =? 0) || (a_id e =? u64_max) || bool_decide (a_id e ∈ ids) then
            Failure (MakeError InvalidArgument "Address list contains an invalid or duplicate entry ID"
              "AddressList::Save")
          else check_entries ({[a_id e]} ∪ ids) entries
      end
  end.

Definition line_bytes (text : chars) : list Z := chars_bytes (text ++ [newline]).
(** A row's insertions as one write; the stream is checked after the last row. *)
Fixpoint write_rows (entries : list AddressEntry) (o : ofstream) (fs : FileSystem) : ofstream * FileSystem :=
  match entries with
  | [] => (o, fs)
  | e :: entries => let '(o, fs) := os_write (line_bytes (row_text e)) o fs in write_rows entries o fs
  end.

Definition address_stream (entries : list AddressEntry) (o : ofstream) (fs : FileSystem)
    : option (Result unit) * FileSystem :=
  let op := "AddressList::Save" in
  let '(o, fs) := os_write (line_bytes header_text) o fs in
  let '(o, fs) := write_rows entries o fs in
  if negb (os_good o) then (Some (FileFailure "Failed while writing address-list file" op), fs)
  else
    let '(o, fs) := os_sync o fs in
    if negb (os_good o) then
      (Some (FileFailure "Failed while flushing the temporary address-list file" op), fs)
    else
      let '(o, fs) := os_sync o fs in
      if negb (os_good o) then
        (Some (FileFailure "Failed while closing the temporary address-list file" op), fs)
      else (None, fs).

Definition address_commit (flt : AddressListSaveFault) (entries : list AddressEntry)
    (temporary destination : path) (fs : FileSystem) : Result unit * FileSystem :=
  let op := "AddressList::Save" in
  commit_stream (MakeError IoFailure "Unable to create address-list file" op)
    (if bool_decide (flt = AddressAfterFlushBeforeReplace) then
       Some (MakeError IoFailure "Injected address-list failure before atomic replacement" op)
     else None)
    address_messages (address_stream entries) temporary destination fs.

Definition address_Save (flt : AddressListSaveFault) (destination : path) (l : AddressList)
    (fs : FileSystem) : Result unit * FileSystem :=
  let op := "AddressList::Save" in
  let entries := al_entries l in
  if kMaxEntries <? sizeZ entries then
    (Failure (MakeErrorFull LimitReached "Address list exceeds the persisted entry limit" op
       0 kMaxEntries (sizeZ entries)), fs)
  else
    match check_entries ∅ entries with
    | Failure e => (Failure e, fs)
    | Success _ =>
        if path_empty destination || bool_decide (filename destination = "") then
          (Failure (MakeError InvalidArgument "Address-list destination path is invalid" op), fs)
        else with_temporary (λ temporary, address_commit flt entries temporary destination) destination fs
    end.

(** ** Loading *)

Definition load_failure {T} (c : ErrorCode) (msg : string) : Result T :=
  Failure (MakeError c msg "AddressList::Load").

(** The space of a loaded entry: the other members keep their initializers. *)
Definition loaded_space (code p : Z) : MemorySpace :=
  mkMemorySpace (kind_of_code code) p 0 "Physical memory".

Record RowFields := mkRowFields {
  rf_id : Z; rf_kind : Z; rf_pid : Z; rf_address : Z; rf_type : Z; rf_width : Z; rf_frozen : Z;
  rf_description : chars
}.

Section Load.
Context `{NumGet}.

Definition read_fields (s : istream) : option (RowFields * istream) :=
  '(id, s) ← extract_unsigned u64_max s;
  '(kind, s) ← extract_signed i32_max s;
  '(p, s) ← extract_unsigned u32_max s;
  '(address, s) ← extract_unsigned u64_max s;
  '(type, s) ← extract_signed i32_max s;
  '(width, s) ← extract_unsigned u64_max s;
  '(frozen, s) ← extract_signed i32_max s;
  '(description, s) ← extract_quoted s;
  Some (mkRowFields id kind p address type width frozen description, s).

Fixpoint read_offsets (count : nat) (s : istream) : option (list Z * istream) :=
  match count with
  | O => Some ([], s)
  | S count =>
      '(offset, s) ← extract_signed i64_max s;
      '(offsets, s) ← read_offsets count s;
      Some (offset :: offsets, s)
  end.

Definition read_path_head (s : istream) : option (Z * Z * Z * Z * Z * istream) :=
  '(kind, s) ← extract_signed i32_max s;
  '(p, s) ← extract_unsigned u32_max s;
  '(base, s) ← extract_unsigned u64_max s;
  '(psize, s) ← extract_unsigned u32_max s;
  '(count, s) ← extract_unsigned u64_max s;
  Some (kind, p, base, psize, count, s).

Definition valid_kind (n : Z) : bool := (kind_code Physical <=? n) && (n <=? kind_code KernelVirtual).

Definition read_path (s : istream) : Result (AddressPointerPath * istream) :=
  match read_path_head s with
  | None => load_failure ParseError "Address-list pointer path is malformed"
  | Some (kind, p, base, psize, count, s) =>
      if negb (valid_kind kind) || (kMaxDepth <? count) then
        load_failure ParseError "Address-list pointer path is malformed"
      else
        match read_offsets (Z.to_nat count) s with
        | None => load_failure ParseError "Address-list pointer offsets are truncated"
        | Some (offsets, s) => Success (mkAddressPointerPath (loaded_space kind p) base offsets psize, s)
        end
  end.

(** The fields after the description: the freeze payload and, in version 2, the pointer
    path. *)
Definition read_tail (version : Z) (s : istream) : Result (chars * option AddressPointerPath * istream) :=
  if version =? kLegacyAddressListVersion then
    if in_eof s then Success ([], None, s)
    else match extract_word s with
         | None => load_failure ParseError "Address-list freeze payload is malformed"
         | Some (word, s) => Success (word, None, s)
         end
  else
    match '(word, s) ← extract_word s; '(has_pointer, s) ← extract_signed i32_max s;
          Some (word, has_pointer, s) with
    | None => load_failure ParseError "Address-list v2 persistence fields are malformed"
    | Some (word, has_pointer, s) =>
        if negb (has_pointer =? 0) && negb (has_pointer =? 1) then
          load_failure ParseError "Address-list v2 persistence fields are malformed"
        else if negb (has_pointer =? 0) then
          match read_path s with
          | Failure e => Failure e
          | Success (path, s) => Success (word, Some path, s)
          end
        else Success (word, None, s)
    end.

Definition freeze_payload (word : chars) : Result (list Z) :=
  if bool_decide (word = []) || bool_decide (word = str "-") then Success [] else Unhex word.

(** A row as the entry it describes, still armed. *)
Definition parse_row (version : Z) (line : chars) : Result AddressEntry :=
  match read_fields (istringstream line) with
  | None => load_failure ParseError "Address-list row is malformed"
  | Some (f, s) =>
      match read_tail version (ws s) with
      | Failure e => Failure e
      | Success (word, path, s) =>
          if negb (in_eof (ws s)) then load_failure ParseError "Address-list row contains trailing fields"
          else
            match valid_kind (rf_kind f), (if rf_type f <? 0 then None else type_of_code (rf_type f)) with
            | true, Some type =>
                if (rf_id f =? 0) || (rf_id f =? u64_max) ||
                   (negb (rf_frozen f =? 0) && negb (rf_frozen f =? 1)) then
                  load_failure ParseError "Address-list row contains an invalid enum or width"
                else
                  match freeze_payload word with
                  | Failure e => Failure e
                  | Success freeze_value =>
                      let frozen := negb (rf_frozen f =? 0) in
                      if frozen && negb (sizeZ freeze_value =? rf_width f) then
                        load_failure ParseError "Frozen address-list value has the wrong width"
                      else if negb frozen && negb (bool_decide (freeze_value = [])) then
                        load_failure ParseError "Unfrozen address-list row contains a freeze payload"
                      else
                        Success (mkAddressEntry (rf_id f) (string_of_list_ascii (rf_description f))
                          (loaded_space (rf_kind f) (rf_pid f)) (rf_address f) type (rf_width f) path frozen
                          freeze_value [] 0 None)
                  end
            | _, _ => load_failure ParseError "Address-list row contains an invalid enum or width"
            end
      end
  end.

(** What is kept of a row: never armed. *)
Definition disarmed (e : AddressEntry) : AddressEntry :=
  e <| a_frozen := false |> <| a_freeze_value := [] |>
    <| a_last_error := if a_frozen e then
         Some (MakeError WriteLocked "Persisted freeze state was loaded disarmed" "AddressList::Load")
       else a_last_error e |>
    <| a_resolved_address := a_address e |>.

Definition load_row (version : Z) (ids : gset Z) (line : chars) : Result AddressEntry :=
  match parse_row version line with
  | Failure e => Failure e
  | Success entry =>
      match ValidateEntry entry "AddressList::Load" with
      | Failure e => load_failure ParseError (message e)
      | Success _ =>
          if bool_decide (a_id entry ∈ ids) then
            load_failure ParseError "Address-list file contains a duplicate entry ID"
          else Success (disarmed entry)
      end
  end.

(** [gcount] counts the delimiter, which the buffer holds as a NUL; without one, a NUL
    that ends the line is dropped. *)
Definition raw_line (line : list Z) (delimited : bool) : list Z :=
  if delimited then line
  else match reverse line with 0 :: rest => reverse rest | _ => line end.

Fixpoint load_rows (fuel : nat) (version : Z) (loaded : list AddressEntry) (ids : gset Z) (highest_id : Z)
    (input : LineStream) (fs : FileSystem) : Result (list AddressEntry * Z) * LineStream * FileSystem :=
  match fuel with
  | O => (load_failure InternalInvariant "", input, fs)
  | S fuel =>
      let '(line, delimited, input, fs) := getline (kMaxRowBytes + 2) input fs in
      if ls_fail input || ls_bad input then (Success (loaded, highest_id), input, fs)
      else
        let raw := raw_line line delimited in
        if kMaxRowBytes <? sizeZ raw then
          (load_failure LimitReached "Address-list row exceeds the length limit", input, fs)
        else if existsb (Z.eqb 0) raw then
          (load_failure ParseError "Address-list row contains an embedded NUL byte", input, fs)
        else if bool_decide (raw = []) then load_rows fuel version loaded ids highest_id input fs
        else if kMaxEntries <=? sizeZ loaded then
          (load_failure LimitReached "Address list exceeds the entry limit", input, fs)
        else
          match load_row version ids (byte_chars raw) with
          | Failure e => (Failure e, input, fs)
          | Success e =>
              load_rows fuel version (loaded ++ [e]) ({[a_id e]} ∪ ids) (Z.max highest_id (a_id e)) input fs
          end
  end.

(** The header as a C string: it ends at the first NUL of the buffer. *)
Fixpoint c_string (bytes : list Z) : list Z :=
  match bytes with [] => [] | b :: rest => if b =? 0 then [] else b :: c_string rest end.
Definition parse_header (line : chars) : option (Z * istream) :=
  '(magic, s) ← extract_word (istringstream line);
  '(version, s) ← extract_signed i32_max s;
  if bool_decide (magic = kAddressListMagic) &&
     ((version =? kLegacyAddressListVersion) || (version =? kAddressListVersion))
  then Some (version, s) else None.

(** Every row takes a byte of the file, so one round more than it has bytes is enough. *)
Definition address_Load (source : path) (l : AddressList) (fs : FileSystem)
    : Result unit * AddressList * FileSystem :=
  let '(start, fs) := is_open source fs in
  if negb (is_good start) then (load_failure IoFailure "Unable to open address-list file", l, fs)
  else
    let '(line, _, input, fs) := getline 128 (mkLineStream (is_rest start) false false false) fs in
    match parse_header (byte_chars (c_string line)) with
    | None => (load_failure ParseError "Address-list file has an unsupported header", l, fs)
    | Some (version, s) =>
        if ls_fail input || ls_bad input then
          (load_failure ParseError "Address-list file has an unsupported header", l, fs)
        else if negb (in_eof (ws s)) then
          (load_failure ParseError "Address-list header contains trailing fields", l, fs)
        else
          match load_rows (S (List.length (is_rest start))) version [] ∅ 0 input fs with
          | (Failure e, _, fs) => (Failure e, l, fs)
          | (Success (loaded, highest_id), input, fs) =>
              if ls_bad input then
                (load_failure IoFailure "Failed while reading the address-list file", l, fs)
              else if ls_fail input && negb (ls_eof input) then
                (load_failure LimitReached "Address-list row exceeds the length limit", l, fs)
              else (Success tt, mkAddressList loaded (highest_id + 1), fs)
          end
    end.
End Load.
