(* ===== verification/AddressTheorems.v ===== *)
(** What the address list promises: which writes reach the backend, that the write gate
    is closed again, and what a successful write means. *)

From stdpp Require Import list.
From S2P Require Import Prelude CppStd Wire Common X64PageTable MemoryBackend VerifiedWriter PointerResolver ValueCodec AddressList.

#[local] Open Scope Z_scope.

(** ** A backend that records the writes it gets *)

Inductive BackendWrite :=
  | WrotePhysical (pa : Z) (data : list Z)
  | ComparedPage (pa : Z) (expected desired : list Z)
  | WroteProcess (process va : Z) (data : list Z).

Record LoggedBackend (B : Type) := mkLoggedBackend { lb_inner : B; lb_log : list BackendWrite }.
Arguments mkLoggedBackend {B} _ _.
Arguments lb_inner {B} _.
Arguments lb_log {B} _.

Definition logging {B T} (new : list BackendWrite) (f : B → T * B) (l : LoggedBackend B)
    : T * LoggedBackend B :=
  let '(r, b) := f (lb_inner l) in (r, mkLoggedBackend b (lb_log l ++ new)).

#[export] Instance LoggedBackend_IMemoryBackend `{IMemoryBackend B} : IMemoryBackend (LoggedBackend B) := {
  Open := logging [] Open;
  Close l := mkLoggedBackend (Close (lb_inner l)) (lb_log l);
  Info l := Info (lb_inner l);
  QuerySessionStatus := logging [] QuerySessionStatus;
  GetPhysicalRanges := logging [] GetPhysicalRanges;
  ReadPhysical a n := logging [] (ReadPhysical a n);
  SetWriteEnabled e := logging [] (SetWriteEnabled e);
  WritePhysical a data := logging [WrotePhysical a data] (WritePhysical a data);
  CompareWritePhysicalPage a x y := logging [ComparedPage a x y] (CompareWritePhysicalPage a x y);
  GetProcessContext p := logging [] (GetProcessContext p);
  ReadProcessVirtual p a n := logging [] (ReadProcessVirtual p a n);
  WriteProcessVirtual p a data := logging [WroteProcess p a data] (WriteProcessVirtual p a data);
  ReadKernelVirtual a n := logging [] (ReadKernelVirtual a n);
  TranslateVirtual d v := logging [] (TranslateVirtual d v)
}.

Section Logged.
Context {B : Type} `{IMemoryBackend B}.
Implicit Types l : LoggedBackend B.

Lemma logging_log {T} new (f : B → T * B) l : lb_log (logging new f l).2 = lb_log l ++ new.
Proof. unfold logging. by destruct (f _). Qed.
Lemma logging_none {T} (f : B → T * B) l : lb_log (logging [] f l).2 = lb_log l.
Proof. by rewrite logging_log, app_nil_r. Qed.

Lemma ReadMemory_log space a n l : lb_log (ReadMemory space a n l).2 = lb_log l.
Proof.
  unfold ReadMemory. destruct (kind space); [apply logging_none| |apply logging_none].
  destruct (_ =? _); [done|apply logging_none].
Qed.
Lemma gate_log e l : lb_log (SetWriteEnabled e l).2 = lb_log l.
Proof. apply logging_none. Qed.

Lemma read_pointer_log space psz a l : lb_log (read_pointer space psz a l).2 = lb_log l.
Proof.
  unfold read_pointer. pose proof (ReadMemory_log space a psz l) as Hr.
  destruct (ReadMemory _ _ _ l) as [[?|?] ?]; cbn [snd] in *; [|done].
  destruct (negb _); [done|]. by destruct (_ =? _).
Qed.
Lemma resolve_loop_log space psz a offs l : lb_log (resolve_loop space psz a offs l).2 = lb_log l.
Proof.
  revert a l. induction offs as [|o offs IH]; intros a l; [done|].
  cbn [resolve_loop]. destruct offs as [|o2 offs]; [done|].
  pose proof (read_pointer_log space psz a l) as Hr.
  destruct (read_pointer _ _ _ l) as [[?|?] l1]; cbn [snd] in *; [|done].
  destruct (add_offset _ _ _ _); [|done]. rewrite IH. done.
Qed.
Lemma Resolve_log path l : lb_log (Resolve path l).2 = lb_log l.
Proof.
  unfold Resolve.
  repeat match goal with |- lb_log (if ?c then _ else _).2 = _ => destruct c; [done|] end.
  apply resolve_loop_log.
Qed.
Lemma ResolveAddress_log e l : lb_log (ResolveAddress e l).2 = lb_log l.
Proof.
  unfold ResolveAddress. destruct (a_pointer_path e) as [path|]; [|done].
  pose proof (Resolve_log path l) as Hr. by destruct (Resolve path l) as [[?|?] ?].
Qed.

Lemma gated_write_log space a data l :
  kind space = ProcessVirtual → pid space ≠ 0 →
  ∃ k, lb_log (gated_write space a data l).2 = lb_log l ++ take k [WroteProcess (pid space) a data] ∧
    (Ok (gated_write space a data l).1 = true → k = 1%nat).
Proof.
  intros Hk Hp. unfold gated_write. pose proof (gate_log true l) as H1.
  destruct (SetWriteEnabled true l) as [[?|?] l1]; cbn [snd] in H1.
  2:{ exists 0%nat. pose proof (gate_log false l1) as H2.
      destruct (SetWriteEnabled false l1) as [[?|?] l2]; cbn [fst snd take] in *; rewrite app_nil_r;
        (split; [congruence|done]). }
  exists 1%nat. split; [|done]. unfold WriteMemory. rewrite Hk, (proj2 (Z.eqb_neq _ _) Hp).
  pose proof (logging_log [WroteProcess (pid space) a data] (WriteProcessVirtual (pid space) a data) l1) as Hw.
  change (logging [WroteProcess (pid space) a data] (WriteProcessVirtual (pid space) a data) l1)
    with (WriteProcessVirtual (pid space) a data l1) in Hw.
  destruct (WriteProcessVirtual _ _ _ l1) as [written l2]. cbn [snd] in Hw.
  pose proof (gate_log false l2) as H3.
  destruct (SetWriteEnabled false l2) as [[?|?] l3]; cbn [snd] in H3.
  - cbn. congruence.
  - pose proof (gate_log false l3) as H4. destruct (SetWriteEnabled false l3) as [retry l4].
    cbn [snd] in *. cbn. congruence.
Qed.

(** A verified write makes at most the one write it is asked for, and it does so when
    it succeeds. *)
Lemma VerifiedWrite_log token space a data exp l r l' :
  VerifiedWrite token space a data exp l = (r, l') →
  ∃ k, lb_log l' = lb_log l ++ take k [WroteProcess (pid space) a data] ∧
    (Ok r = true → k = 1%nat) ∧
    (k ≠ 0%nat → kind space = ProcessVirtual ∧ (Consume (pid space) token).1 = true).
Proof.
  unfold VerifiedWrite. cbv zeta. intros Hw.
  assert (∀ e (l1 : LoggedBackend B), lb_log l1 = lb_log l → (Failure e, l1) = (r, l') →
    ∃ k, lb_log l' = lb_log l ++ take k [WroteProcess (pid space) a data] ∧
      (Ok r = true → k = 1%nat) ∧
      (k ≠ 0%nat → kind space = ProcessVirtual ∧ (Consume (pid space) token).1 = true)) as Hnone.
  { intros e l1 Hl [= <- <-]. exists 0%nat. cbn. rewrite app_nil_r. done. }
  case_bool_decide as Hk; cbn [negb] in Hw; [|by eapply Hnone].
  destruct (Z.eqb_spec (pid space) 0) as [|Hp]; [by eapply Hnone|].
  destruct (Consume _ _).1; cbn [negb] in Hw; [|by eapply Hnone].
  destruct (_ || _) in Hw at 1; [by eapply Hnone|]. destruct (_ <? _) in Hw; [by eapply Hnone|].
  destruct (match exp with Some _ => _ | None => _ end) in Hw at 1; [by eapply Hnone|].
  pose proof (ReadMemory_log space a (sizeZ data) l) as H1.
  destruct (ReadMemory _ _ _ l) as [[before|?] l1]; cbn [snd] in H1; [|by eapply Hnone].
  destruct (negb _) in Hw at 1; [by eapply Hnone|].
  destruct (match exp with Some _ => _ | None => _ end) in Hw at 1; [by eapply Hnone|].
  destruct (gated_write_log space a data l1 Hk Hp) as (k & Hg & Hok).
  rewrite H1 in Hg. destruct (gated_write _ _ _ l1) as [[n|?] l2]; cbn [fst snd] in *.
  2:{ exists k. by injection Hw as <- <-. }
  specialize (Hok eq_refl). subst k. exists 1%nat.
  destruct (negb _) in Hw; [by injection Hw as <- <-|].
  pose proof (ReadMemory_log space a (sizeZ data) l2) as H2.
  destruct (ReadMemory _ _ _ l2) as [[rb|?] l3]; cbn [snd] in H2.
  2:{ injection Hw as <- <-. split; [congruence|done]. }
  destruct (_ || _) in Hw; injection Hw as <- <-; (split; [congruence|done]).
Qed.

End Logged.

(** ** Which writes reach the backend *)

(** The process and the bytes of a write. *)
Definition payload (w : BackendWrite) : option (Z * list Z) :=
  match w with WroteProcess p _ data => Some (p, data) | _ => None end.
(** What a freeze tick confirmed for a process may write, in order. *)
Definition frozen_payloads (p : Z) (entries : list AddressEntry) : list (option (Z * list Z)) :=
  (λ e, Some (p, a_freeze_value e)) <$>
    filter (λ e, a_frozen e = true ∧ kind (a_space e) = ProcessVirtual ∧ pid (a_space e) = p) entries.

Lemma RequireProcessWrite_ok e op :
  RequireProcessWrite e op = Success tt → ValidateEntry e op = Success tt ∧ kind (a_space e) = ProcessVirtual.
Proof.
  unfold RequireProcessWrite. destruct (ValidateEntry e op) as [[]|]; [|done].
  case_bool_decide; [done|by intros].
Qed.
(** Resolving changes only the resolved address. *)
Lemma ResolveAddress_entry {B} `{IMemoryBackend B} e (b : B) :
  (ResolveAddress e b).1.2 = e <| a_resolved_address := a_resolved_address (ResolveAddress e b).1.2 |>.
Proof.
  unfold ResolveAddress. destruct (a_pointer_path e) as [path|]; [|by destruct e].
  destruct (Resolve path b) as [[?|?] ?]; by destruct e.
Qed.

Section Writes.
Context {B : Type} `{IMemoryBackend B}.
Implicit Types l : LoggedBackend B.

Lemma refresh_entry_log e l : lb_log (refresh_entry e l).2 = lb_log l.
Proof.
  unfold refresh_entry. cbv zeta. destruct (ValidateEntry _ _); [|done].
  pose proof (ResolveAddress_log (e <| a_last_error := None |>) l) as H1.
  destruct (ResolveAddress _ l) as [[[a|?] e1] l1]; cbn [snd] in H1; [|done].
  pose proof (ReadMemory_log (a_space e1) a (u32 (a_width e1)) l1) as H2.
  destruct (ReadMemory _ _ _ l1) as [[bytes|?] l2]; cbn [snd] in H2; [|cbn; congruence].
  destruct (negb _); cbn; congruence.
Qed.
Lemma refresh_loop_log entries l : lb_log (refresh_loop entries l).2 = lb_log l.
Proof.
  revert l. induction entries as [|e entries IH]; intros l; [done|]. cbn [refresh_loop].
  pose proof (refresh_entry_log e l) as H1. destruct (refresh_entry e l) as [[ok e1] l1]. cbn [snd] in H1.
  specialize (IH l1). destruct (refresh_loop entries l1) as [[rest s] l2]. cbn in *. congruence.
Qed.

Lemma tick_entry_log p e l ok e' l' :
  tick_entry p e l = (ok, e', l') → a_frozen e = true →
  ∃ new, lb_log l' = lb_log l ++ new ∧ (payload <$> new) `sublist_of` frozen_payloads p [e] ∧
    (ok = true → (payload <$> new) = frozen_payloads p [e] ∧ new ≠ []).
Proof.
  unfold tick_entry. cbv zeta. intros Ht Hf.
  assert (∀ e1 (l1 : LoggedBackend B), lb_log l1 = lb_log l → (false, e1, l1) = (ok, e', l') →
    ∃ new, lb_log l' = lb_log l ++ new ∧ (payload <$> new) `sublist_of` frozen_payloads p [e] ∧
      (ok = true → (payload <$> new) = frozen_payloads p [e] ∧ new ≠ [])) as Hnone.
  { intros e1 l1 Hl [= <- <- <-]. exists []. rewrite app_nil_r. split; [done|]. split; [apply sublist_nil_l|done]. }
  destruct (RequireProcessWrite e _) as [[]|] eqn:Hreq; [|by eapply Hnone].
  apply RequireProcessWrite_ok in Hreq as [_ Hk].
  pose proof (ResolveAddress_log e l) as H1. pose proof (ResolveAddress_entry e l) as He.
  destruct (ResolveAddress e l) as [[[a|?] e1] l1]; cbn [fst snd] in H1, He; [|by eapply Hnone].
  rewrite He in Ht. cbn in Ht.
  destruct (Z.eqb_spec (pid (a_space e)) p) as [Hp|]; cbn [negb] in Ht; [|by eapply Hnone].
  assert (frozen_payloads p [e] = [Some (p, a_freeze_value e)]) as Hfp.
  { unfold frozen_payloads. rewrite filter_cons, decide_True, filter_nil by done. done. }
  rewrite Hfp in *.
  pose proof (ReadMemory_log (a_space e) a (u32 (a_width e)) l1) as H2.
  destruct (ReadMemory _ _ _ l1) as [[before|?] l2]; cbn [snd] in H2; [|eapply Hnone; [|exact Ht]; congruence].
  destruct (negb _) in Ht; [eapply Hnone; [|exact Ht]; congruence|].
  destruct (ArmProcessWrite p) as [token|]; [|eapply Hnone; [|exact Ht]; congruence].
  destruct (VerifiedWrite _ _ _ _ _ l2) as [r l3] eqn:Hv.
  apply VerifiedWrite_log in Hv as (k & Hl & Hok & _). exists (take k [WroteProcess (pid (a_space e)) a (a_freeze_value e)]).
  rewrite Hp in Hl |- *.
  assert ((payload <$> take k [WroteProcess p a (a_freeze_value e)]) `sublist_of` [Some (p, a_freeze_value e)]) as Hs.
  { rewrite fmap_take. apply sublist_take. }
  destruct r; injection Ht as <- <- <-; (split; [congruence|]); (split; [done|]); [|done].
  intros _. rewrite (Hok eq_refl). done.
Qed.

Lemma tick_loop_log p entries l rest s l' :
  tick_loop p entries l = (rest, s, l') →
  ∃ new, lb_log l' = lb_log l ++ new ∧ (payload <$> new) `sublist_of` frozen_payloads p entries ∧
    fz_verified s ≤ sizeZ new ∧
    fz_verified s + fz_failed s = sizeZ (filter (λ e, a_frozen e = true) entries).
Proof.
  revert l rest s l'. induction entries as [|e entries IH]; intros l rest s l'; cbn [tick_loop].
  { intros [= <- <- <-]. exists []. rewrite app_nil_r. done. }
  assert (frozen_payloads p (e :: entries) = frozen_payloads p [e] ++ frozen_payloads p entries) as ->.
  { unfold frozen_payloads. rewrite <- fmap_app. f_equal. rewrite !filter_cons, filter_nil. by destruct (decide _). }
  rewrite (filter_cons (λ e, a_frozen e = true)).
  destruct (a_frozen e) eqn:Hf; cbn [negb].
  - rewrite decide_True by done. destruct (tick_entry p e l) as [[ok e1] l1] eqn:He.
    apply tick_entry_log in He as (new & Hl & Hs & Hok); [|done].
    destruct (tick_loop p entries l1) as [[rest1 s1] l2] eqn:Hr.
    apply IH in Hr as (new2 & Hl2 & Hs2 & Hv & Hn). intros [= <- <- <-].
    exists (new ++ new2). rewrite Hl2, Hl, app_assoc, fmap_app, sizeZ_app. split; [done|].
    split; [by apply sublist_app|]. rewrite sizeZ_cons. pose proof (sizeZ_nonneg new).
    destruct ok; cbn.
    + destruct (Hok eq_refl) as [_ Hne]. assert (sizeZ new ≠ 0) by (by intros ?%sizeZ_nil_inv). lia.
    + lia.
  - rewrite decide_False by done. destruct (tick_loop p entries l) as [[rest1 s1] l2] eqn:Hr.
    apply IH in Hr as (new & Hl & Hs & Hv & Hn). intros [= <- <- <-]. exists new.
    split; [done|]. split; [by apply sublist_inserts_l|done].
Qed.

(** [C24] The address list writes only process memory, only when armed for that very
    process, and only what was asked for.  A write puts the given bytes, of the width
    of the entry, at the address the entry resolves to, and makes no second write; a
    freeze tick writes a subsequence, in order, of the freeze values of the frozen
    entries of the one process its token was confirmed for, at least as many as it
    reports verified, and accounts for every frozen entry; refreshing, resolving
    pointer paths and freezing write nothing. *)
Theorem address_list_writes token id value frozen chosen t (b : B) :
  (let '(r, _, q) := al_Write token id value t (mkLoggedBackend b []) in
   (Ok r = true → lb_log q ≠ []) ∧
   (lb_log q ≠ [] → ∃ i e address, Find id t = Some (i, e) ∧ sizeZ value = a_width e ∧
      kind (a_space e) = ProcessVirtual ∧ (Consume (pid (a_space e)) token).1 = true ∧
      (ResolveAddress e (mkLoggedBackend b [])).1.1 = Success address ∧
      lb_log q = [WroteProcess (pid (a_space e)) address value])) ∧
  (let '(r, _, q) := TickFreeze token t (mkLoggedBackend b []) in
   (lb_log q ≠ [] → token_valid token = true ∧ token_pid token ≠ 0) ∧
   (payload <$> lb_log q) `sublist_of` frozen_payloads (token_pid token) (al_entries t) ∧
   ∀ s, r = Success s → fz_verified s ≤ sizeZ (lb_log q) ∧
     fz_verified s + fz_failed s = sizeZ (filter (λ e, a_frozen e = true) (al_entries t))) ∧
  lb_log (Refresh t (mkLoggedBackend b [])).2 = [] ∧
  lb_log (SetFrozen id frozen chosen t (mkLoggedBackend b [])).2 = [].
Proof.
  split; [|split; [|split]].
  - destruct (al_Write token id value t (mkLoggedBackend b [])) as [[r t'] q] eqn:Hw.
    unfold al_Write in Hw. cbv zeta in Hw.
    destruct (Find id t) as [[i e]|]; [|by injection Hw as <- <- <-].
    destruct (RequireProcessWrite e _) as [[]|] eqn:Hreq; [|by injection Hw as <- <- <-].
    apply RequireProcessWrite_ok in Hreq as [_ Hk].
    destruct (Z.eqb_spec (sizeZ value) (a_width e)) as [Hs|]; cbn [negb] in Hw;
      [|by injection Hw as <- <- <-].
    pose proof (ResolveAddress_log e (mkLoggedBackend b [])) as H1.
    pose proof (ResolveAddress_entry e (mkLoggedBackend b [])) as He.
    destruct (ResolveAddress e _) as [[[a|?] e1] l1] eqn:Hres; cbn [fst snd lb_log] in H1, He.
    2:{ injection Hw as <- <- <-. by rewrite H1. }
    rewrite He in Hw. cbn in Hw.
    destruct (negb _) in Hw; [injection Hw as <- <- <-; by rewrite H1|].
    destruct (VerifiedWrite _ _ _ _ _ l1) as [r1 l2] eqn:Hv.
    apply VerifiedWrite_log in Hv as (k & Hl & Hok & Hc). rewrite H1 in Hl. cbn [app] in Hl.
    assert (r = r1 ∧ q = l2) as [-> ->] by (by destruct r1; injection Hw as <- <- <-).
    split.
    + intros Ho. rewrite Hl, (Hok Ho). done.
    + intros Hne. destruct k as [|k]; [done|]. destruct (Hc ltac:(done)) as [_ Htok].
      exists i, e, a. rewrite Hl, Hres. cbn. by rewrite take_nil.
  - destruct (TickFreeze token t (mkLoggedBackend b [])) as [[r t'] q] eqn:Ht.
    unfold TickFreeze in Ht. cbv zeta in Ht.
    destruct (confirmed_pid_of (al_entries t)) as [p|].
    2:{ injection Ht as <- <- <-. split; [done|]. split; [apply sublist_nil_l|].
        intros s [= <-]. cbn. split; [done|lia]. }
    destruct (Consume p token).1 eqn:Hc; cbn [negb] in Ht.
    2:{ injection Ht as <- <- <-. split; [done|]. split; [apply sublist_nil_l|done]. }
    unfold Consume in Hc. cbn in Hc. boolify. subst p.
    destruct (tick_loop _ _ _) as [[rest s] l'] eqn:Hloop. injection Ht as <- <- <-.
    apply tick_loop_log in Hloop as (new & Hl & Hs & Hv & Hn). cbn [lb_log app] in Hl. subst new.
    split; [done|]. split; [done|]. by intros s' [= <-].
  - unfold Refresh. pose proof (refresh_loop_log (al_entries t) (mkLoggedBackend b [])) as H1.
    by destruct (refresh_loop _ _) as [[rest s] l1].
  - unfold SetFrozen. cbv zeta. destruct (Find id t) as [[i e]|]; [|done]. destruct (negb _); [done|].
    destruct (RequireProcessWrite e _) as [[]|]; [|done]. destruct chosen as [v|].
    { by destruct (negb _). }
    destruct (negb _); [by destruct (negb _)|].
    pose proof (ResolveAddress_log e (mkLoggedBackend b [])) as H1.
    destruct (ResolveAddress e _) as [[[a|?] e1] l1]; cbn [snd lb_log] in H1; [|done].
    pose proof (ReadMemory_log (a_space e1) a (u32 (a_width e1)) l1) as H2.
    destruct (ReadMemory _ _ _ l1) as [[bytes|?] l2]; cbn [snd] in H2; [|cbn; congruence].
    destruct (negb _); cbn; congruence.
Qed.
End Writes.

(** ** The gate and the memory *)

Section Gate.
Context {B : Type} `{ProcessVirtualSpec B}.
Implicit Types b : B.

Lemma process_read_keeps space a n b r b' :
  kind space = ProcessVirtual → pid space ≠ 0 → ReadMemory space a n b = (r, b') → gate b' = gate b.
Proof. intros Hk Hp. rewrite ReadMemory_process by done. apply process_read_gate. Qed.

Lemma resolve_loop_gate space psz a offs b r b' :
  kind space = ProcessVirtual → pid space ≠ 0 →
  resolve_loop space psz a offs b = (r, b') → gate b' = gate b.
Proof.
  intros Hk Hp. revert a b. induction offs as [|o offs IH]; intros a b; [by intros [= <- <-]|].
  cbn [resolve_loop]. destruct offs as [|o2 offs]; [by intros [= <- <-]|]. unfold read_pointer.
  destruct (ReadMemory space a psz b) as [[bytes|?] b1] eqn:Hr; apply process_read_keeps in Hr; try done.
  - destruct (negb _); [by intros [= <- <-]|]. destruct (_ =? _); [by intros [= <- <-]|].
    destruct (add_offset _ _ _ _); [|by intros [= <- <-]]. intros Hl. apply IH in Hl. congruence.
  - by intros [= <- <-].
Qed.

Lemma valid_process e op :
  RequireProcessWrite e op = Success tt →
  kind (a_space e) = ProcessVirtual ∧ pid (a_space e) ≠ 0 ∧
  ∀ path, a_pointer_path e = Some path →
    kind (path_space path) = ProcessVirtual ∧ pid (path_space path) ≠ 0.
Proof.
  intros [Hv Hk]%RequireProcessWrite_ok. split; [done|]. unfold ValidateEntry, ValidateSpace in Hv.
  rewrite Hk in Hv. destruct (Z.eqb_spec (pid (a_space e)) 0); [done|]. split; [done|].
  intros path Hpath. do 4 (destruct (_ || _) in Hv; [done|]). rewrite Hpath in Hv.
  unfold ValidatePath in Hv. destruct (ValidateSpace _ _); [|done]. destruct (_ && _) in Hv; [done|].
  destruct (_ || _) eqn:Hg in Hv; [done|]. boolify.
  match goal with E : kind (path_space path) = _ |- _ => rewrite E, Hk end.
  split; [done|]. congruence.
Qed.

Lemma ResolveAddress_gate e op b r e' b' :
  RequireProcessWrite e op = Success tt → ResolveAddress e b = (r, e', b') → gate b' = gate b.
Proof.
  intros (_ & _ & Hpath)%valid_process. unfold ResolveAddress.
  destruct (a_pointer_path e) as [path|]; [|by intros [= <- <- <-]].
  destruct (Hpath path eq_refl) as [Hk Hp].
  destruct (Resolve path b) as [r1 b1] eqn:Hr. intros Hx.
  assert (b' = b1) as -> by (by destruct r1; injection Hx as <- <- <-). clear Hx. unfold Resolve in Hr.
  repeat match type of Hr with (if ?c then _ else _) = _ => destruct c; [by injection Hr as <- <-|] end.
  by eapply resolve_loop_gate.
Qed.

Lemma tick_entry_gate p e b ok e' b' :
  gate b = false → tick_entry p e b = (ok, e', b') → gate b' = false.
Proof.
  intros Hg Ht. unfold tick_entry in Ht. cbv zeta in Ht.
  destruct (RequireProcessWrite e _) as [[]|] eqn:Hreq; [|by injection Ht as <- <- <-].
  pose proof (valid_process _ _ Hreq) as (Hk & Hp & _).
  pose proof (ResolveAddress_entry e b) as He.
  destruct (ResolveAddress e b) as [[[a|?] e1] b1] eqn:Hr; apply (ResolveAddress_gate _ _ _ _ _ _ Hreq) in Hr;
    [|injection Ht as <- <- <-; congruence].
  cbn [fst snd] in He. assert (a_space e1 = a_space e) as Hsp by (by rewrite He).
  destruct (negb _) in Ht; [injection Ht as <- <- <-; congruence|]. rewrite Hsp in Ht.
  destruct (ReadMemory _ _ _ b1) as [[bytes|?] b2] eqn:Hm; apply process_read_keeps in Hm; try done;
    [|injection Ht as <- <- <-; congruence].
  destruct (negb _) in Ht; [injection Ht as <- <- <-; congruence|].
  destruct (ArmProcessWrite p); [|injection Ht as <- <- <-; congruence].
  destruct (VerifiedWrite _ _ _ _ _ b2) as [r b3] eqn:Hv. apply VerifiedWrite_closed in Hv as [Hc _]; [|congruence].
  destruct r; by injection Ht as <- <- <-.
Qed.

Lemma tick_loop_gate p entries b : gate b = false → gate (tick_loop p entries b).2 = false.
Proof.
  revert b. induction entries as [|e entries IH]; intros b Hg; [done|]. cbn [tick_loop].
  destruct (negb _).
  { specialize (IH b Hg). by destruct (tick_loop p entries b) as [[? ?] ?]. }
  destruct (tick_entry p e b) as [[ok e1] b1] eqn:He. apply tick_entry_gate in He; [|done].
  specialize (IH b1 He). by destruct (tick_loop p entries b1) as [[? ?] ?].
Qed.

End Gate.
