(* ===== verification/AddressInvariant.v ===== *)
(** The invariant of the address list: its entries are valid, their ids distinct,
    nonzero and below the next one, and every operation keeps it so, loading a file
    included. *)

From stdpp Require Import gmap list.
From S2P Require Import Prelude CppStd Wire Common X64PageTable MemoryBackend VerifiedWriter ValueCodec PointerResolver FileSystem Iostream SnapshotFile AddressList AddressTheorems.

#[local] Open Scope Z_scope.

(** ** Valid entries *)

Definition space_valid (s : MemorySpace) : Prop := kind s = ProcessVirtual ↔ pid s ≠ 0.

Record entry_path_valid (s : MemorySpace) (path : AddressPointerPath) : Prop := {
  pv_size : pointer_size path = 4 ∨ pointer_size path = 8;
  pv_base : base_address path ≠ 0;
  pv_depth : sizeZ (offsets path) ≤ kMaxDepth;
  pv_kind : kind (path_space path) = kind s;
  pv_pid : pid (path_space path) = pid s
}.

Record entry_valid (e : AddressEntry) : Prop := {
  ev_space : space_valid (a_space e);
  ev_address : a_address e ≠ 0;
  ev_end : a_address e ≤ u64_max - a_width e;
  ev_width : a_width e ≠ 0;
  ev_width_max : a_width e ≤ kMaxValueWidth;
  ev_fixed : FixedValueWidth (a_type e) = 0 ∨ a_width e = FixedValueWidth (a_type e);
  ev_utf16 : a_type e = Utf16 → Z.land (a_width e) 1 = 0;
  ev_description : description_size e ≤ kMaxAddressDescriptionBytes;
  ev_line : has_line_break (a_description e) = false;
  ev_current : a_current_value e = [] ∨ sizeZ (a_current_value e) = a_width e;
  ev_frozen : if a_frozen e then sizeZ (a_freeze_value e) = a_width e else a_freeze_value e = [];
  ev_path : ∀ path, a_pointer_path e = Some path → entry_path_valid (a_space e) path
}.

Lemma ValidateSpace_valid s op : ValidateSpace s op = Success tt ↔ space_valid s.
Proof.
  unfold ValidateSpace, space_valid.
  destruct (kind s), (Z.eqb_spec (pid s) 0) as [E|E]; cbn; split; try done; intros; intuition (congruence || done).
Qed.

Lemma ValidatePath_valid e path op :
  space_valid (a_space e) → ValidatePath e path op = Success tt ↔ entry_path_valid (a_space e) path.
Proof.
  intros Hs. unfold ValidatePath. split.
  - destruct (ValidateSpace (path_space path) op); [|done].
    destruct (_ && _) eqn:E1; [done|]. destruct (_ || _) eqn:E2; [done|]. intros _.
    apply andb_false_iff in E1. boolify. split; try done.
    destruct E1 as [E1|E1]; apply negb_false_iff, Z.eqb_eq in E1; auto.
  - intros [H1 H2 H3 H4 H5].
    assert (space_valid (path_space path)) as Hp%(ValidateSpace_valid _ op)
      by (unfold space_valid in *; by rewrite H4, H5).
    rewrite Hp.
    assert (negb (pointer_size path =? 4) && negb (pointer_size path =? 8) = false) as ->
      by (destruct H1 as [->| ->]; done).
    rewrite (proj2 (Z.eqb_neq _ _) H2), (proj2 (Z.ltb_ge _ _) H3), H4, H5, Z.eqb_refl.
    by rewrite bool_decide_true.
Qed.

Lemma ValidateEntry_valid e op : ValidateEntry e op = Success tt ↔ entry_valid e.
Proof.
  unfold ValidateEntry. cbv zeta. split.
  - destruct (ValidateSpace (a_space e) op) as [[]|] eqn:E0; [|done]. apply ValidateSpace_valid in E0.
    destruct (_ || _) eqn:E1; [done|]. destruct (_ || _) eqn:E2 in |- *; [done|].
    destruct (_ || _) eqn:E3 in |- *; [done|]. destruct (_ || _) eqn:E4 in |- *; [done|]. intros Hp.
    apply orb_false_iff in E2 as [E2a E2b], E3 as [E3a E3b], E4 as [[E4a E4b]%orb_false_iff E4c].
    boolify. split; try done; try lia.
    + intros Ht. destruct E2b as [E|E]; [by apply bool_decide_eq_false in E|].
      by apply negb_false_iff, Z.eqb_eq in E.
    + destruct E4a as [E|E]; apply negb_false_iff in E;
        [left; by apply bool_decide_eq_true in E|right; by apply Z.eqb_eq in E].
    + destruct (a_frozen e); [destruct E4b as [|E]; [done|]|destruct E4c as [|E]; [done|]];
        apply negb_false_iff in E; [by apply Z.eqb_eq in E|by apply bool_decide_eq_true in E].
    + intros path Hpath. rewrite Hpath in Hp. by eapply ValidatePath_valid.
  - intros [H1 H2 H3 H4 H5 H6 H7 H8 H9 H10 H11 H12]. rewrite (proj2 (ValidateSpace_valid _ op) H1).
    rewrite (proj2 (Z.eqb_neq _ _) H2), (proj2 (Z.eqb_neq _ _) H4), (proj2 (Z.ltb_ge _ _) H3),
      (proj2 (Z.ltb_ge _ _) H5), (proj2 (Z.ltb_ge _ _) H8), H9. cbn [orb].
    assert (negb (FixedValueWidth (a_type e) =? 0) && negb (a_width e =? FixedValueWidth (a_type e)) = false) as ->.
    { destruct H6 as [->|E]; [done|]. rewrite E at 1. by rewrite Z.eqb_refl, andb_false_r. }
    assert (bool_decide (a_type e = Utf16) && negb (Z.land (a_width e) 1 =? 0) = false) as ->
      by (case_bool_decide; [|done]; by rewrite H7).
    assert (negb (bool_decide (a_current_value e = [])) && negb (sizeZ (a_current_value e) =? a_width e) = false) as ->
      by (destruct H10 as [->| ->]; [done|]; by rewrite Z.eqb_refl, andb_false_r).
    assert (a_frozen e && negb (sizeZ (a_freeze_value e) =? a_width e) = false) as ->
      by (destruct (a_frozen e); [|done]; by rewrite H11, Z.eqb_refl).
    assert (negb (a_frozen e) && negb (bool_decide (a_freeze_value e = [])) = false) as ->
      by (destruct (a_frozen e); [done|]; by rewrite H11).
    cbn [orb]. destruct (a_pointer_path e) as [path|]; [|done]. apply ValidatePath_valid; auto.
Qed.

(** ** The table *)

Record list_wf (l : AddressList) : Prop := {
  lw_entries : Forall entry_valid (al_entries l);
  lw_ids : Forall (λ id, 0 < id < al_next_id l) (a_id <$> al_entries l);
  lw_nodup : NoDup (a_id <$> al_entries l);
  lw_count : sizeZ (al_entries l) ≤ kMaxEntries;
  lw_next : 1 ≤ al_next_id l ≤ u64_max
}.

Lemma make_AddressList_wf : list_wf make_AddressList.
Proof. split; cbn; try done. constructor. Qed.

(** Entries that keep their ids keep the table well formed. *)
Lemma list_wf_entries l entries :
  list_wf l → Forall entry_valid entries → a_id <$> entries = a_id <$> al_entries l →
  list_wf (l <| al_entries := entries |>).
Proof.
  intros [_ H2 H3 H4 H5] Hv Hid. split; cbn; try done; rewrite ?Hid; try done.
  unfold sizeZ in *. apply (f_equal length) in Hid. rewrite !length_fmap in Hid. by rewrite Hid.
Qed.
Lemma set_entry_wf l i e e' :
  list_wf l → al_entries l !! i = Some e → a_id e' = a_id e → entry_valid e' → list_wf (set_entry i e' l).
Proof.
  intros Hw Hi Hid Hv. apply list_wf_entries; [done| |].
  - by apply Forall_insert; [apply Hw|].
  - rewrite list_fmap_insert, Hid. apply list_insert_id. by rewrite list_lookup_fmap, Hi.
Qed.
Lemma Find_Some id l i e : Find id l = Some (i, e) → al_entries l !! i = Some e ∧ a_id e = id.
Proof. unfold Find. intros (H1 & H2 & _)%list_find_Some. done. Qed.
Lemma entry_wf l i e : list_wf l → al_entries l !! i = Some e → entry_valid e.
Proof. intros Hw Hi. eapply Forall_lookup_1; [apply Hw|done]. Qed.
#[export] Hint Resolve entry_wf : kdbg.

Lemma Add_wf e l : list_wf l → (∀ id, a_id e = id → 0 ≤ id ≤ u64_max) → list_wf (Add e l).2.
Proof.
  intros [H1 H2 H3 H4 H5] Hid. unfold Add. destruct (Z.leb_spec kMaxEntries (sizeZ (al_entries l))); [done|].
  assert (∀ id, choose_id e l = Some id → 0 < id < u64_max ∧ id ∉ a_id <$> al_entries l) as Hc.
  { intros id. unfold choose_id. specialize (Hid _ eq_refl). destruct (Z.eqb_spec (a_id e) 0).
    - destruct (_ || _) eqn:E; [done|]. boolify. intros [= <-]. split; [lia|]. intros Hin.
      eapply Forall_forall in H2; [|exact Hin]. lia.
    - destruct (Z.eqb_spec (a_id e) u64_max); [done|]. destruct (Find _ l) eqn:E; [done|]. intros [= <-].
      split; [lia|]. apply list_find_None in E. intros (e' & Eid & Hin)%list_elem_of_fmap.
      eapply Forall_forall in E; [|exact Hin]. by rewrite Eid in E. }
  destruct (choose_id e l) as [id|]; [|done]. destruct (Hc id eq_refl) as [Hr Hn].
  set (e1 := if a_width _ =? 0 then _ else _).
  assert (a_id e1 = id) as E1 by (unfold e1; by destruct (_ =? 0)).
  destruct (ValidateEntry e1 _) as [[]|] eqn:Hv; [|done]. apply ValidateEntry_valid in Hv.
  cbn [snd]. split; cbn [al_entries al_next_id].
  - apply Forall_app_2; [done|]. constructor; [|done]. by destruct Hv.
  - rewrite fmap_app. apply Forall_app_2.
    + eapply Forall_impl; [exact H2|]. cbn. lia.
    + cbn. rewrite E1. constructor; [lia|done].
  - rewrite fmap_app. apply NoDup_app. split; [done|]. split; [|apply NoDup_singleton].
    intros x Hx. cbn. rewrite E1. intros ->%list_elem_of_singleton. done.
  - rewrite sizeZ_app, sizeZ_cons. unfold sizeZ at 2. cbn. lia.
  - lia.
Qed.

Lemma Forall_sublist {A} (P : A → Prop) l k : l `sublist_of` k → Forall P k → Forall P l.
Proof. induction 1; intros Hk; [done|..]; apply Forall_cons in Hk as [? ?]; auto. Qed.
Lemma fmap_sublist {A B} (f : A → B) l k : l `sublist_of` k → (f <$> l) `sublist_of` (f <$> k).
Proof. induction 1; cbn; by constructor. Qed.

Lemma Remove_wf id l : list_wf l → list_wf (Remove id l).2.
Proof.
  intros [H1 H2 H3 H4 H5]. unfold Remove. cbn [snd].
  set (es := filter _ _). assert (es `sublist_of` al_entries l) as Hs by apply sublist_filter.
  split; cbn; try done.
  - by eapply Forall_sublist.
  - eapply Forall_sublist; [|exact H2]. by apply fmap_sublist.
  - eapply sublist_NoDup; [done|by apply fmap_sublist].
  - apply sublist_length in Hs. unfold sizeZ in *. lia.
Qed.

(** ** Entries change in step with memory *)

(** The fields a refresh or a write changes. *)
Definition same_entry (e e' : AddressEntry) : Prop :=
  ∃ value address err, e' = e <| a_current_value := value |> <| a_resolved_address := address |>
                              <| a_last_error := err |> ∧
    (value = a_current_value e ∨ sizeZ value = a_width e).

Lemma same_entry_valid e e' : same_entry e e' → entry_valid e → entry_valid e'.
Proof.
  intros (value & address & err & -> & Hv) [H1 H2 H3 H4 H5 H6 H7 H8 H9 H10 H11 H12].
  split; try done. cbn. destruct Hv as [->|Hv]; [done|by right].
Qed.
Lemma same_entry_id e e' : same_entry e e' → a_id e' = a_id e.
Proof. by intros (? & ? & ? & -> & _). Qed.
#[export] Hint Resolve same_entry_valid same_entry_id : kdbg.

Lemma same_entry_refl e : same_entry e e.
Proof. exists (a_current_value e), (a_resolved_address e), (a_last_error e). by destruct e; auto. Qed.
Lemma same_entry_failed e e' er : same_entry e e' → same_entry e (failed_with er e').
Proof. intros (v & a & err & -> & Hv). by exists v, a, (Some er). Qed.
Lemma same_entry_value e e' value err :
  same_entry e e' → sizeZ value = a_width e →
  same_entry e (e' <| a_current_value := value |> <| a_last_error := err |>).
Proof. intros (v & a & er & -> & _) Hs. exists value, a, err. by auto. Qed.
#[export] Hint Resolve same_entry_refl same_entry_failed : kdbg.

Section Operations.
Context {B : Type} `{IMemoryBackend B}.
Implicit Types b : B.

Lemma VerifiedWrite_readback token space a data exp b res b' :
  VerifiedWrite token space a data exp b = (Success res, b') → sizeZ (vw_readback res) = sizeZ data.
Proof.
  unfold VerifiedWrite. cbv zeta.
  repeat (let c := match goal with |- (if ?c then _ else _) = _ → _ => c end in destruct c; [done|]).
  destruct (ReadMemory _ _ _ b) as [[before|] b1]; [|done]. do 2 (destruct (_ : bool) in |- *; [done|]).
  destruct (gated_write _ _ _ b1) as [[n|] b2]; [|done]. destruct (negb _); [done|].
  destruct (ReadMemory _ _ _ b2) as [[rb|] b3]; [|done]. destruct (_ || _) eqn:E; [done|].
  intros [= <- _]. cbn. boolify. done.
Qed.

Lemma ResolveAddress_same e b : same_entry e (ResolveAddress e b).1.2.
Proof.
  rewrite ResolveAddress_entry. exists (a_current_value e), (a_resolved_address (ResolveAddress e b).1.2), (a_last_error e).
  split; [by destruct e|by left].
Qed.

Lemma refresh_entry_same e b : same_entry e (refresh_entry e b).1.2.
Proof.
  assert (same_entry e (e <| a_last_error := None |>)) as H0.
  { exists (a_current_value e), (a_resolved_address e), None. split; [by destruct e|by left]. }
  unfold refresh_entry. cbv zeta. set (e0 := e <| a_last_error := None |>) in *.
  destruct (ValidateEntry e0 _) as [[]|]; [|by cbn; auto with kdbg].
  assert (same_entry e (ResolveAddress e0 b).1.2) as H1.
  { rewrite ResolveAddress_entry. exists (a_current_value e), (a_resolved_address (ResolveAddress e0 b).1.2), None.
    split; [by destruct e|by left]. }
  destruct (ResolveAddress e0 b) as [[[a|] e1] b1]; cbn [fst snd] in H1; [|by cbn; auto with kdbg].
  destruct (ReadMemory _ _ _ b1) as [[bytes|] b2]; [|by cbn; auto with kdbg].
  destruct (Z.eqb_spec (sizeZ bytes) (a_width e1)) as [Hs|]; cbn [negb]; [|by cbn; auto with kdbg].
  cbn [fst snd]. destruct H1 as (v & a1 & err & -> & _). exists bytes, a1, err. split; [done|by right].
Qed.

Lemma refresh_loop_same entries b : Forall2 same_entry entries (refresh_loop entries b).1.1.
Proof.
  revert b. induction entries as [|e entries IH]; intros b; [constructor|]. cbn [refresh_loop].
  pose proof (refresh_entry_same e b) as He. destruct (refresh_entry e b) as [[ok e1] b1].
  specialize (IH b1). destruct (refresh_loop entries b1) as [[es s] b2]. by constructor.
Qed.

Lemma tick_entry_same p e b : entry_valid e → a_frozen e = true → same_entry e (tick_entry p e b).1.2.
Proof.
  intros Hv Hf. unfold tick_entry. cbv zeta. destruct (RequireProcessWrite e _) as [[]|]; [|by cbn; auto with kdbg].
  pose proof (ResolveAddress_same e b) as H1.
  destruct (ResolveAddress e b) as [[[a|] e1] b1]; cbn [fst snd] in H1; [|by cbn; auto with kdbg].
  destruct (negb _); [by cbn; auto with kdbg|].
  destruct (ReadMemory _ _ _ b1) as [[before|] b2]; [|by cbn; auto with kdbg].
  destruct (negb _); [by cbn; auto with kdbg|].
  destruct (ArmProcessWrite p); [|by cbn; auto with kdbg].
  destruct (VerifiedWrite _ _ _ _ _ b2) as [[res|] b3] eqn:E; [|by cbn; auto with kdbg].
  apply VerifiedWrite_readback in E. cbn [fst snd]. apply same_entry_value; [done|].
  destruct H1 as (? & ? & ? & -> & _). cbn in E. rewrite E. pose proof (ev_frozen e Hv) as Hz. by rewrite Hf in Hz.
Qed.
Lemma tick_loop_same p entries b :
  Forall entry_valid entries → Forall2 same_entry entries (tick_loop p entries b).1.1.
Proof.
  intros Hv. revert b. induction Hv as [|e entries Hv _ IH]; intros b; [constructor|]. cbn [tick_loop].
  destruct (a_frozen e) eqn:Hf; cbn [negb].
  - pose proof (tick_entry_same p e b Hv Hf) as He. destruct (tick_entry p e b) as [[ok e1] b1].
    specialize (IH b1). destruct (tick_loop p entries b1) as [[es s] b2]. by constructor.
  - specialize (IH b). destruct (tick_loop p entries b) as [[es s] b2]. constructor; [by auto with kdbg|done].
Qed.

Lemma same_entries_valid entries entries' :
  Forall2 same_entry entries entries' → Forall entry_valid entries → Forall entry_valid entries'.
Proof. induction 1; intros Hv; [done|]. apply Forall_cons in Hv as [? ?]. eauto with kdbg. Qed.
Lemma same_entries_ids entries entries' :
  Forall2 same_entry entries entries' → a_id <$> entries' = a_id <$> entries.
Proof. induction 1; [done|]. cbn. f_equal; [by apply same_entry_id|done]. Qed.
Lemma same_entries_wf l entries :
  list_wf l → Forall2 same_entry (al_entries l) entries → list_wf (l <| al_entries := entries |>).
Proof.
  intros Hw Hs. apply list_wf_entries; [done| |by apply same_entries_ids].
  eapply same_entries_valid; [exact Hs|apply Hw].
Qed.
Lemma set_same_wf l i e e' :
  list_wf l → al_entries l !! i = Some e → same_entry e e' → list_wf (set_entry i e' l).
Proof. intros Hw Hi Hs. eapply set_entry_wf; eauto with kdbg. Qed.

Lemma Refresh_wf l b : list_wf l → list_wf (Refresh l b).1.2.
Proof.
  intros Hw. unfold Refresh. pose proof (refresh_loop_same (al_entries l) b) as Hs.
  destruct (refresh_loop _ b) as [[es s] b1]. by apply same_entries_wf.
Qed.

Lemma al_Write_wf token id value l b : list_wf l → list_wf (al_Write token id value l b).1.2.
Proof.
  intros Hw. unfold al_Write. cbv zeta. destruct (Find id l) as [[i e]|] eqn:Hf; [|done].
  apply Find_Some in Hf as [Hi _].
  destruct (RequireProcessWrite e _) as [[]|]; [|by eapply set_same_wf; [exact Hw|exact Hi|auto with kdbg]].
  destruct (Z.eqb_spec (sizeZ value) (a_width e)) as [Hs|]; cbn [negb]; [|done].
  pose proof (ResolveAddress_same e b) as H1.
  destruct (ResolveAddress e b) as [[[a|] e1] b1]; cbn [fst snd] in H1; [|by eapply set_same_wf].
  destruct (negb _); [by eapply set_same_wf; [exact Hw|exact Hi|auto with kdbg]|].
  destruct (VerifiedWrite _ _ _ _ _ b1) as [[res|] b2] eqn:E; [|by eapply set_same_wf; [exact Hw|exact Hi|auto with kdbg]].
  apply VerifiedWrite_readback in E. eapply set_same_wf; [done..|]. apply same_entry_value; [done|congruence].
Qed.

Lemma SetFrozen_wf id frozen value l b : list_wf l → list_wf (SetFrozen id frozen value l b).1.2.
Proof.
  intros Hw. unfold SetFrozen. cbv zeta. destruct (Find id l) as [[i e]|] eqn:Hf; [|done].
  apply Find_Some in Hf as [Hi _]. pose proof (entry_wf _ _ _ Hw Hi) as He. destruct frozen; cbn [negb].
  2:{ eapply set_entry_wf; [done..|]. by destruct He. }
  destruct (RequireProcessWrite e _) as [[]|]; [|by eapply set_same_wf; [exact Hw|exact Hi|auto with kdbg]].
  set (x := match value with Some _ => _ | None => _ end).
  assert (same_entry e x.1.2) as Hx.
  { unfold x. destruct value as [v|]; [by auto with kdbg|]. destruct (negb _); [by auto with kdbg|].
    pose proof (ResolveAddress_same e b) as H1.
    destruct (ResolveAddress e b) as [[[a|] e1] b1]; [|done]. by destruct (ReadMemory _ _ _ b1). }
  destruct x as [[[selected|] e1] b1]; cbn [fst snd] in Hx; [|by eapply set_same_wf].
  destruct (Z.eqb_spec (sizeZ selected) (a_width e1)) as [Hs|]; cbn [negb]; [|by eapply set_same_wf].
  eapply set_entry_wf; [done|done|by apply same_entry_id in Hx|].
  apply (same_entry_valid e e1 Hx) in He. by destruct He.
Qed.

Lemma TickFreeze_wf token l b : list_wf l → list_wf (TickFreeze token l b).1.2.
Proof.
  intros Hw. unfold TickFreeze. cbv zeta. destruct (confirmed_pid_of _) as [p|].
  - destruct (negb _); [done|]. pose proof (tick_loop_same p (al_entries l) b (lw_entries l Hw)) as Hs.
    destruct (tick_loop p _ b) as [[es s] b1]. by apply same_entries_wf.
  - apply same_entries_wf; [done|]. induction (al_entries l) as [|e es IH]; [constructor|].
    cbn [fmap list_fmap]. constructor; [|done]. destruct (a_frozen e); by auto with kdbg.
Qed.
End Operations.

(** ** Loading *)

Section Loading.
Context `{NumGet}.

Lemma read_fields_id s f s' : read_fields s = Some (f, s') → 0 ≤ rf_id f ≤ u64_max.
Proof.
  unfold read_fields. destruct (extract_unsigned u64_max s) as [[id s1]|] eqn:E; [|done].
  apply extract_unsigned_range in E. simpl.
  repeat match goal with |- mbind _ ?x = _ → _ => destruct x as [[? ?]|]; [simpl|done] end.
  by intros [= <- _].
Qed.

Lemma parse_row_id version line e : parse_row version line = Success e → 0 < a_id e < u64_max.
Proof.
  unfold parse_row. destruct (read_fields _) as [[f s]|] eqn:Ef; [|done]. apply read_fields_id in Ef.
  destruct (read_tail _ _) as [[[word path] s1]|]; [|done]. destruct (negb _); [done|].
  destruct (valid_kind _); [|done]. destruct (if rf_type f <? 0 then _ else _); [|done].
  destruct (_ || _) eqn:E; [done|]. apply orb_false_iff in E as [[E1 E2]%orb_false_iff _].
  destruct (freeze_payload word); [|done]. cbv zeta. destruct (_ && _); [done|]. destruct (_ && _); [done|].
  intros [= <-]. cbn. boolify. lia.
Qed.

Lemma load_row_valid version ids line e :
  load_row version ids line = Success e →
  entry_valid e ∧ (0 < a_id e < u64_max) ∧ (a_id e ∉ ids) ∧ a_frozen e = false.
Proof.
  unfold load_row. destruct (parse_row version line) as [e0|] eqn:Ep; [|done]. apply parse_row_id in Ep.
  destruct (ValidateEntry e0 _) as [[]|] eqn:Ev; [|done]. apply ValidateEntry_valid in Ev.
  case_bool_decide; [done|]. intros [= <-]. split; [by destruct Ev|]. done.
Qed.

Record loading (loaded : list AddressEntry) (ids : gset Z) (highest : Z) : Prop := {
  lg_entries : Forall entry_valid loaded;
  lg_armed : Forall (λ e, a_frozen e = false) loaded;
  lg_set : ids = list_to_set (a_id <$> loaded);
  lg_nodup : NoDup (a_id <$> loaded);
  lg_ids : Forall (λ id, 0 < id ≤ highest) (a_id <$> loaded);
  lg_highest : 0 ≤ highest < u64_max;
  lg_count : sizeZ loaded ≤ kMaxEntries
}.

Lemma loading_snoc loaded ids highest e :
  loading loaded ids highest → sizeZ loaded < kMaxEntries →
  entry_valid e → 0 < a_id e < u64_max → a_id e ∉ ids → a_frozen e = false →
  loading (loaded ++ [e]) ({[a_id e]} ∪ ids) (Z.max highest (a_id e)).
Proof.
  intros [H1 H2 H3 H4 H5 H6 H7] Hc He Hid Hn Hf. split; try lia.
  - by apply Forall_app_2; [|constructor].
  - by apply Forall_app_2; [|constructor].
  - rewrite H3, fmap_app, list_to_set_app_L. cbn. set_solver.
  - rewrite fmap_app. apply NoDup_app. split; [done|]. split; [|apply NoDup_singleton].
    intros x Hx ->%list_elem_of_singleton. apply Hn. rewrite H3. by apply elem_of_list_to_set.
  - rewrite fmap_app. apply Forall_app_2; [|constructor; [lia|done]]. eapply Forall_impl; [exact H5|]. cbn. lia.
  - rewrite sizeZ_app. change (sizeZ [e]) with 1. lia.
Qed.

Lemma load_rows_loading fuel version loaded ids highest input fs loaded' highest' input' fs' :
  loading loaded ids highest →
  load_rows fuel version loaded ids highest input fs = (Success (loaded', highest'), input', fs') →
  ∃ ids', loading loaded' ids' highest'.
Proof.
  revert loaded ids highest input fs. induction fuel as [|fuel IH]; intros loaded ids highest input fs Hl; [done|].
  cbn [load_rows]. destruct (getline _ input fs) as [[[line delimited] input1] fs1].
  destruct (ls_fail input1 || ls_bad input1); [intros [= <- <- _ _]; by eauto|]. cbv zeta.
  destruct (kMaxRowBytes <? _); [done|]. destruct (existsb _ _); [done|].
  destruct (bool_decide _); [by apply IH|].
  destruct (Z.leb_spec kMaxEntries (sizeZ loaded)); [done|].
  destruct (load_row _ _ _) as [e|] eqn:E; [|done]. apply load_row_valid in E as (He & Hid & Hn & Hf).
  apply IH. by apply loading_snoc.
Qed.

(** A load replaces the table by a well-formed one with nothing armed, or leaves it. *)
Lemma address_Load_wf source l fs r l' fs' :
  address_Load source l fs = (r, l', fs') →
  match r with
  | Success _ => list_wf l' ∧ Forall (λ e, a_frozen e = false) (al_entries l')
  | Failure _ => l' = l
  end.
Proof.
  unfold address_Load. destruct (is_open source fs) as [start fs1].
  destruct (negb (is_good start)); [by intros [= <- <- <-]|].
  destruct (getline _ _ fs1) as [[[line d] input] fs2].
  destruct (parse_header _) as [[version s]|]; [|by intros [= <- <- <-]].
  destruct (ls_fail input || ls_bad input); [by intros [= <- <- <-]|].
  destruct (negb _); [by intros [= <- <- <-]|].
  destruct (load_rows _ _ _ _ _ _ _) as [[[[loaded highest]|] input1] fs3] eqn:E; [|by intros [= <- <- <-]].
  apply load_rows_loading in E as [ids [H1 H2 H3 H4 H5 H6 H7]].
  2:{ split; try done; constructor. }
  destruct (ls_bad input1); [by intros [= <- <- <-]|]. destruct (_ && _); [by intros [= <- <- <-]|].
  intros [= <- <- <-]. split; [|done]. split; cbn; try done; [|lia].
  eapply Forall_impl; [exact H5|]. cbn. lia.
Qed.
End Loading.

(** ** Saving *)

Lemma check_entries_iff ids entries :
  check_entries ids entries = Success tt ↔
  Forall entry_valid entries ∧ Forall (λ id, id ≠ 0 ∧ id ≠ u64_max ∧ id ∉ ids) (a_id <$> entries) ∧
  NoDup (a_id <$> entries).
Proof.
  revert ids. induction entries as [|e entries IH]; intros ids; cbn [check_entries].
  { split; [|done]. intros _. split_and!; constructor. }
  cbn [fmap list_fmap]. rewrite !Forall_cons, NoDup_cons. split.
  - destruct (ValidateEntry e _) as [[]|] eqn:Ev; [|done]. apply ValidateEntry_valid in Ev.
    destruct (_ || _) eqn:E; [done|]. intros (H1 & H2 & H3)%IH. boolify.
    split_and!; try done.
    + eapply Forall_impl; [exact H2|]. cbn. set_solver.
    + intros Hin. eapply Forall_forall in H2; [|exact Hin]. set_solver.
  - intros ([Hv Hv'] & [(H1 & H2 & H3) H4] & Hn & Hnd). rewrite (proj2 (ValidateEntry_valid e _) Hv).
    rewrite (proj2 (Z.eqb_neq _ _) H1), (proj2 (Z.eqb_neq _ _) H2), bool_decide_false by done. cbn [orb].
    apply IH. split; [done|]. split; [|done]. apply Forall_forall. intros id Hin.
    eapply Forall_forall in H4 as (? & ? & ?); [|exact Hin]. set_solver.
Qed.

Lemma wf_saveable l : list_wf l → check_entries ∅ (al_entries l) = Success tt.
Proof.
  intros [H1 H2 H3 _ H5]. apply check_entries_iff. split; [done|]. split; [|done].
  eapply Forall_impl; [exact H2|]. cbn. intros id Hid. split_and!; [lia|lia|set_solver].
Qed.

(** ** The operations together *)

Section Steps.
Context {B : Type} `{IMemoryBackend B} `{NumGet}.

Inductive address_step : AddressList → AddressList → Prop :=
  | step_Add e l : is_u64 (a_id e) → address_step l (Add e l).2
  | step_Remove id l : address_step l (Remove id l).2
  | step_Clear l : address_step l (Clear l)
  | step_Refresh l (b : B) : address_step l (Refresh l b).1.2
  | step_Write token id value l (b : B) : address_step l (al_Write token id value l b).1.2
  | step_SetFrozen id frozen value l (b : B) : address_step l (SetFrozen id frozen value l b).1.2
  | step_TickFreeze token l (b : B) : address_step l (TickFreeze token l b).1.2
  | step_Load source l fs : address_step l (address_Load source l fs).1.2.

Lemma address_step_wf l l' : list_wf l → address_step l l' → list_wf l'.
Proof.
  intros Hw Hs. revert Hw.
  destruct Hs as [e l Hid|id l|l|l b|token id value l b|id frozen value l b|token l b|source l fs]; intros Hw.
  - apply Add_wf; [done|]. intros ? <-. unfold is_u64 in Hid. lia.
  - by apply Remove_wf.
  - apply make_AddressList_wf.
  - by apply Refresh_wf.
  - by apply al_Write_wf.
  - by apply SetFrozen_wf.
  - by apply TickFreeze_wf.
  - destruct (address_Load source l fs) as [[r l1] fs1] eqn:E. apply address_Load_wf in E.
    by destruct r; [apply E|subst].
Qed.

(** [C23] Whatever the memory and the files hold, every sequence of operations on a new
    address list, loading files among them, leaves a table whose entries all pass the
    validation of the file format, with distinct ids that are neither 0 nor the largest
    one and lie below the next id to give out, and at most 100000 of them; so a table
    can always be saved, up to the file system. *)
Theorem address_reachable_wf l :
  rtc address_step make_AddressList l →
  list_wf l ∧ check_entries ∅ (al_entries l) = Success tt ∧ (kMaxEntries <? sizeZ (al_entries l)) = false.
Proof.
  intros Hr. assert (list_wf l) as Hw.
  { revert Hr. apply (rtc_ind_r (λ l, list_wf l)); [apply make_AddressList_wf|]. intros x y _ Hs Hw. by eapply address_step_wf. }
  split; [done|]. split; [by apply wf_saveable|]. apply Z.ltb_ge, Hw.
Qed.
End Steps.
