(* ===== verification/AddressFileTheorems.v ===== *)
(** The address list's file: saving is atomic, and a saved table loads disarmed with the
    same entries.

    The address list at a concrete backend and file system. *)

From stdpp Require Import gmap list.
From S2P Require Import Prelude CppStd Wire Common X64PageTable MemoryBackend VerifiedWriter ValueCodec ValueCodecTheorems PointerResolver FileSystem Iostream SnapshotFile WatchList AddressList AddressInvariant MockMemoryBackend AddressTheorems.
From Stdlib Require Import Ascii.

#[local] Open Scope Z_scope.

(** The file of a table. *)
Definition encode_list (entries : list AddressEntry) : list Z :=
  line_bytes header_text ++ mjoin (line_bytes ∘ row_text <$> entries).

(** ** Saving *)

Lemma write_rows_frame entries o fs o' fs' :
  write_rows entries o fs = (o', fs') →
  only_changes (os_path o) fs fs' ∧ os_path o' = os_path o ∧
  (os_good o' = true → os_good o = true ∧ ∀ content, file fs (os_path o) = Some content →
     file fs' (os_path o) = Some (content ++ mjoin (line_bytes ∘ row_text <$> entries))).
Proof.
  revert o fs. induction entries as [|e entries IH]; intros o fs; cbn [write_rows].
  { intros [= <- <-]. split; [reflexivity|]. split; [done|]. intros Hg. split; [done|].
    intros content. cbn. by rewrite app_nil_r. }
  destruct (os_write _ o fs) as [o1 fs1] eqn:E1.
  destruct (os_write_frame _ _ _ _ _ E1) as (F1 & P1 & G1).
  intros (F2 & P2 & G2)%IH. rewrite P1 in F2, P2, G2.
  split; [by transitivity fs1|]. split; [done|]. intros Hg. destruct (G2 Hg) as [Hg1 H2].
  destruct (G1 Hg1) as [Hg0 H1]. split; [done|]. intros content Hc. rewrite Hc in H1. cbn [default] in H1.
  rewrite (H2 _ H1). cbn. by rewrite app_assoc.
Qed.

Lemma address_stream_writes entries : stream_writes (encode_list entries) (address_stream entries).
Proof.
  intros o fs r fs' H Hfile. unfold address_stream in H. cbv zeta in H.
  destruct (os_write _ o fs) as [o1 fs1] eqn:E1. destruct (os_write_frame _ _ _ _ _ E1) as (F1 & P1 & G1).
  destruct (write_rows entries o1 fs1) as [o2 fs2] eqn:E2.
  destruct (write_rows_frame _ _ _ _ _ E2) as (F2 & P2 & G2). rewrite P1 in F2, P2, G2.
  assert (only_changes (os_path o) fs fs2) as F by (by transitivity fs1).
  destruct (os_good o2); cbn [negb] in H; [|by injection H as <- <-]. destruct (G2 eq_refl) as [Hg1 H2].
  destruct (G1 Hg1) as [_ H1]. rewrite Hfile in H1. specialize (H2 _ H1). cbn [default app] in H2.
  destruct (os_sync o2 fs2) as [o3 fs3] eqn:E3. destruct (os_sync_frame _ _ _ _ E3) as (F3 & _ & _).
  destruct (os_sync o3 fs3) as [o4 fs4] eqn:E4. destruct (os_sync_frame _ _ _ _ E4) as (F4 & _ & _).
  assert (∀ f, files f = files fs2 → only_changes (os_path o) fs f) as Fx.
  { intros f Ef. transitivity fs2; [done|]. by apply only_changes_same. }
  destruct (negb (os_good o3)); [injection H as <- <-; by split; [apply Fx|]|].
  destruct (negb (os_good o4)); injection H as <- <-; (split; [apply Fx; congruence|]); [done|].
  unfold file in *. by rewrite F4, F3.
Qed.

Lemma address_Save_effect flt dest l fs r fs' :
  address_Save flt dest l fs = (r, fs') →
  ∃ ordinal, save_effect (encode_list (al_entries l))
    (temporary_candidate (process_id fs) ordinal dest) dest fs r fs'.
Proof.
  unfold address_Save. cbv zeta. intros H.
  destruct (kMaxEntries <? _); [exists 0; injection H as <- <-; by apply only_changes_same|].
  destruct (check_entries ∅ _); [|exists 0; injection H as <- <-; by apply only_changes_same].
  destruct (_ || _); [exists 0; injection H as <- <-; by apply only_changes_same|].
  eapply with_temporary_effect; [|exact H]. intros t fs0 r0 fs0' Hc.
  eapply commit_stream_effect; [apply address_stream_writes|exact Hc].
Qed.

(** Saving the address list replaces its file in one step, whatever fails: a save
    that succeeds leaves the whole table in the file and no temporary one, a save that
    fails leaves the file as it was, and no other file is touched. *)
Theorem address_save_atomic flt dest l fs :
  atomic_save (encode_list (al_entries l)) dest fs
    (address_Save flt dest l fs).1 (address_Save flt dest l fs).2.
Proof.
  destruct (address_Save flt dest l fs) as [r fs'] eqn:E. apply address_Save_effect in E as [ordinal E].
  by eapply save_effect_atomic.
Qed.

Lemma write_rows_ok entries o fs :
  fault_free fs → os_good o = true → ∃ fs', fault fs' = fault fs ∧ write_rows entries o fs = (o, fs').
Proof.
  revert fs. induction entries as [|e entries IH]; intros fs Hf Hg; cbn [write_rows]; [by eauto|].
  destruct (os_write_ok (line_bytes (row_text e)) o fs) as (fs1 & E1 & ->); [done..|].
  destruct (IH fs1) as (fs2 & E2 & ->); [by eauto with kdbg|done|]. exists fs2. split; [congruence|done].
Qed.
Lemma address_stream_ok entries o fs :
  fault_free fs → os_good o = true → ∃ fs', fault fs' = fault fs ∧ address_stream entries o fs = (None, fs').
Proof.
  intros Hf Hg. unfold address_stream. cbv zeta.
  destruct (os_write_ok (line_bytes header_text) o fs) as (fs1 & E1 & ->); [done..|].
  destruct (write_rows_ok entries o fs1) as (fs2 & E2 & ->); [by eauto with kdbg|done|]. rewrite Hg. cbn [negb].
  destruct (os_sync_ok o fs2) as (fs3 & E3 & ->); [by eauto 6 with kdbg|done|]. rewrite Hg. cbn [negb].
  destruct (os_sync_ok o fs3) as (fs4 & E4 & ->); [by eauto 7 with kdbg|done|]. rewrite Hg.
  exists fs4. split; [congruence|done].
Qed.

Lemma address_Save_ok dest l fs :
  fault_free fs → is_u64 (sequence fs) → Z.of_nat (size (files fs)) ≤ u64_max → filename dest ≠ "" →
  list_wf l →
  ∃ fs', address_Save AddressNoFault dest l fs = (Success tt, fs') ∧ fault_free fs' ∧
    file fs' dest = Some (encode_list (al_entries l)).
Proof.
  intros Hf Hq Hn Hd Hw.
  destruct (address_Save AddressNoFault dest l fs) as [r fs'] eqn:E. pose proof E as Heff.
  apply address_Save_effect in Heff as [ordinal Heff]. unfold address_Save in E. cbv zeta in E.
  assert (path_empty dest = false) as Hpe by (apply bool_decide_eq_false; intros Hx; by rewrite Hx in Hd).
  rewrite (proj2 (Z.ltb_ge _ _)), wf_saveable, Hpe, bool_decide_false in E by (done || apply Hw). cbn [orb] in E.
  destruct (with_temporary_ok (λ temporary, address_commit AddressNoFault (al_entries l) temporary dest) dest fs)
    as (fs2 & E2 & Ec); [done..| |].
  { intros t fs0 Hf0. eapply commit_stream_ok; [apply address_stream_writes| |done].
    intros o fs1. apply address_stream_ok. }
  rewrite Ec in E. injection E as <- <-. exists fs2. split; [done|]. split; [by eauto with kdbg|].
  unfold file. rewrite Heff. by rewrite lookup_insert_eq.
Qed.

(** ** A row read back *)

Lemma Hex_cons b bytes : Hex (b :: bytes) = digit_char true (Z.shiftr b 4) :: digit_char true (Z.land b 15) :: Hex bytes.
Proof. done. Qed.
Lemma byte_nibbles b : is_u8 b →
  0 ≤ Z.shiftr b 4 < 16 ∧ 0 ≤ Z.land b 15 < 16 ∧ u8 (Z.lor (Z.shiftl (Z.shiftr b 4) 4) (Z.land b 15)) = b.
Proof.
  unfold is_u8, u8. intros Hb.
  assert (Z.shiftr b 4 = b / 16) as Hs by (by rewrite Z.shiftr_div_pow2).
  assert (Z.land b 15 = b mod 16) as Hl by (exact (Z.land_ones b 4 ltac:(lia))).
  rewrite Hs, Hl, shiftl_lor by (pose proof (Z.mod_pos_bound b 16); lia).
  change (2 ^ 4) with 16. Z.div_mod_to_equations. lia.
Qed.

Lemma unhex_loop_Hex bytes : Forall is_u8 bytes → unhex_loop (Hex bytes) = Success bytes.
Proof.
  induction 1 as [|b bytes Hb _ IH]; [done|]. destruct (byte_nibbles b Hb) as (H1 & H2 & H3).
  rewrite Hex_cons. cbn [unhex_loop]. by rewrite !digit_value_char, IH, H3.
Qed.
Lemma sizeZ_Hex bytes : sizeZ (Hex bytes) = 2 * sizeZ bytes.
Proof. induction bytes as [|b bytes IH]; [done|]. rewrite Hex_cons, !sizeZ_cons, IH. lia. Qed.
Lemma Unhex_Hex bytes : Forall is_u8 bytes → Unhex (Hex bytes) = Success bytes.
Proof.
  intros Hb. unfold Unhex. rewrite sizeZ_Hex. change 1 with (Z.ones 1).
  rewrite Z.land_ones, (Z.mul_comm 2), Z.mod_mul by lia.
  by apply unhex_loop_Hex.
Qed.
(** Hexadecimal digits are neither white space nor ends of anything. *)
Definition plain (c : ascii) : Prop := isspace c = false ∧ char_code c ≠ 0.
Lemma Hex_plain bytes : Forall is_u8 bytes → Forall plain (Hex bytes).
Proof.
  induction 1 as [|b bytes Hb _ IH]; [constructor|]. destruct (byte_nibbles b Hb) as (H1 & H2 & _).
  rewrite Hex_cons. repeat constructor; try done; by apply digit_char_solid.
Qed.

(** The word for a freeze payload. *)
Definition freeze_word (bytes : list Z) : chars := if bool_decide (bytes = []) then str "-" else Hex bytes.
Lemma freeze_word_plain bytes : Forall is_u8 bytes → Forall plain (freeze_word bytes) ∧ solid (freeze_word bytes).
Proof.
  intros Hb. unfold freeze_word. case_bool_decide as E; [by repeat constructor|].
  pose proof (Hex_plain bytes Hb) as Hp. split; [done|]. destruct bytes as [|b bytes]; [done|].
  rewrite Hex_cons in Hp |- *. apply Forall_cons in Hp as [[? _] _]. done.
Qed.
Lemma freeze_payload_word bytes : Forall is_u8 bytes → freeze_payload (freeze_word bytes) = Success bytes.
Proof.
  intros Hb. destruct bytes as [|b bytes]; [done|].
  unfold freeze_payload, freeze_word. rewrite (bool_decide_false (b :: bytes = [])) by done.
  rewrite !bool_decide_false; [by apply Unhex_Hex|..]; rewrite Hex_cons; intros Hx; discriminate Hx.
Qed.

Section Row.
Context `{NumGet}.

(** What a file keeps of a space and of a pointer path. *)
Definition plain_space (s : MemorySpace) : MemorySpace := mkMemorySpace (kind s) (pid s) 0 "Physical memory".
Definition plain_path (p : AddressPointerPath) : AddressPointerPath :=
  mkAddressPointerPath (plain_space (path_space p)) (base_address p) (offsets p) (pointer_size p).
Definition persisted (e : AddressEntry) : AddressEntry :=
  mkAddressEntry (a_id e) (a_description e) (plain_space (a_space e)) (a_address e) (a_type e) (a_width e)
    (plain_path <$> a_pointer_path e) (a_frozen e) (a_freeze_value e) [] 0 None.

(** The members have the values of their types. *)
Record entry_typed (e : AddressEntry) : Prop := {
  et_id : is_u64 (a_id e);
  et_pid : is_u32 (pid (a_space e));
  et_address : is_u64 (a_address e);
  et_width : is_u64 (a_width e);
  et_freeze : Forall is_u8 (a_freeze_value e);
  et_path : ∀ p, a_pointer_path e = Some p → is_u64 (base_address p) ∧ Forall is_i64 (offsets p)
}.

Lemma loaded_space_code s : loaded_space (kind_code (kind s)) (pid s) = plain_space s.
Proof. unfold loaded_space, plain_space. by destruct (kind s). Qed.
Lemma kind_code_range k : - i32_max - 1 ≤ kind_code k ≤ i32_max.
Proof. by destruct k. Qed.
Lemma valid_kind_code k : valid_kind (kind_code k) = true.
Proof. by destruct k. Qed.
Lemma address_type_code_range t : - i32_max - 1 ≤ type_code t ≤ i32_max ∧ 0 ≤ type_code t.
Proof. by destruct t. Qed.
Lemma type_of_type_code t : type_of_code (type_code t) = Some t.
Proof. by destruct t. Qed.

Lemma read_offsets_trail offs fields :
  Forall is_i64 offs →
  read_offsets (length offs) (stopped (trail ((insert_int <$> offs) ++ fields))) = Some (offs, stopped (trail fields)).
Proof.
  induction 1 as [|o offs Ho _ IH]; [done|]. cbn [length read_offsets fmap list_fmap app].
  rewrite extract_signed_trail by (unfold is_i64 in Ho; lia).
  cbn [mbind option_bind]. by rewrite IH.
Qed.

Lemma read_path_trail s p :
  entry_path_valid s p → is_u32 (pid s) → is_u64 (base_address p) → Forall is_i64 (offsets p) →
  read_path (stopped (trail (path_fields p))) = Success (plain_path p, stopped (trail [])).
Proof.
  intros [H1 H2 H3 H4 H5] Hp Hb Ho. unfold read_path, read_path_head, path_fields. cbn [app].
  pose proof (sizeZ_nonneg (offsets p)) as Hn. unfold kMaxDepth, is_u32, is_u64 in *.
  rewrite extract_signed_trail by apply kind_code_range. cbn [mbind option_bind].
  rewrite extract_unsigned_trail by (rewrite H5; lia). cbn [mbind option_bind].
  rewrite extract_unsigned_trail by lia. cbn [mbind option_bind].
  rewrite extract_unsigned_trail by lia. cbn [mbind option_bind].
  rewrite extract_unsigned_trail by lia. cbn [mbind option_bind].
  rewrite valid_kind_code, (proj2 (Z.ltb_ge _ _)) by lia. cbn [negb orb].
  replace (Z.to_nat (sizeZ (offsets p))) with (length (offsets p)) by (unfold sizeZ; lia).
  rewrite <- (app_nil_r (insert_int <$> offsets p)), read_offsets_trail by done. by rewrite loaded_space_code.
Qed.

Definition entry_fields (e : AddressEntry) : list chars :=
  freeze_word (a_freeze_value e) :: insert_int (flag (bool_decide (is_Some (a_pointer_path e)))) ::
  match a_pointer_path e with Some path => path_fields path | None => [] end.

Lemma read_fields_row e :
  entry_typed e →
  read_fields (istringstream (row_text e)) =
    Some (mkRowFields (a_id e) (kind_code (kind (a_space e))) (pid (a_space e)) (a_address e)
            (type_code (a_type e)) (a_width e) (flag (a_frozen e)) (str (a_description e)),
          stopped (trail (entry_fields e))).
Proof.
  intros [H1 H2 H3 H4 _ _]. unfold read_fields, row_text, row_fields. cbn [app]. unfold is_u32, is_u64 in *.
  erewrite (extract_unsigned_field _ (a_id e)); [|done|apply sentry_tabbed; by auto with kdbg]. cbn [mbind option_bind].
  rewrite extract_signed_trail by apply kind_code_range. cbn [mbind option_bind].
  rewrite extract_unsigned_trail by lia. cbn [mbind option_bind].
  rewrite extract_unsigned_trail by lia. cbn [mbind option_bind].
  rewrite extract_signed_trail by apply address_type_code_range. cbn [mbind option_bind].
  rewrite extract_unsigned_trail by lia. cbn [mbind option_bind].
  rewrite extract_signed_trail by (by destruct (a_frozen e)). cbn [mbind option_bind].
  erewrite extract_quoted_field; [|apply sentry_trail; by auto with kdbg]. done.
Qed.

Lemma read_tail_row e :
  entry_valid e → entry_typed e →
  read_tail kAddressListVersion (ws (stopped (trail (entry_fields e)))) =
    Success (freeze_word (a_freeze_value e), plain_path <$> a_pointer_path e, stopped (trail [])).
Proof.
  intros Hv Ht. destruct (freeze_word_plain _ (et_freeze e Ht)) as [Hp Hs]. unfold entry_fields.
  rewrite ws_trail by done. unfold read_tail. change (kAddressListVersion =? kLegacyAddressListVersion) with false.
  cbn iota. erewrite extract_word_field; [|eapply Forall_impl; [exact Hp|by intros c []]|by apply sentry_solid].
  cbn [mbind option_bind]. destruct (a_pointer_path e) as [p|] eqn:Ep.
  - rewrite bool_decide_true by eauto. rewrite extract_signed_trail by done. cbn [mbind option_bind flag Z.eqb negb andb].
    destruct (et_path e Ht p Ep) as [Hb Ho].
    by rewrite (read_path_trail (a_space e)); [|by eapply ev_path|apply Ht|done|done].
  - rewrite bool_decide_false by (by intros [? ?]). by rewrite extract_signed_trail.
Qed.

Lemma parse_row_text e :
  entry_valid e → entry_typed e → a_id e ≠ 0 → a_id e ≠ u64_max →
  parse_row kAddressListVersion (row_text e) = Success (persisted e).
Proof.
  intros Hv Ht Hz Hm. unfold parse_row. rewrite read_fields_row, read_tail_row by done.
  change (in_eof (ws (stopped (trail [])))) with true.
  cbn [negb rf_kind rf_type rf_id rf_frozen rf_width rf_pid rf_address rf_description].
  rewrite valid_kind_code, (proj2 (Z.ltb_ge _ 0)), type_of_type_code by apply address_type_code_range.
  rewrite (proj2 (Z.eqb_neq _ _) Hz), (proj2 (Z.eqb_neq _ _) Hm), freeze_payload_word by apply Ht.
  assert (negb (flag (a_frozen e) =? 0) && negb (flag (a_frozen e) =? 1) = false) as -> by (by destruct (a_frozen e)).
  assert (negb (flag (a_frozen e) =? 0) = a_frozen e) as -> by (by destruct (a_frozen e)). cbn [orb].
  pose proof (ev_frozen e Hv) as Hf. unfold persisted. rewrite loaded_space_code.
  assert (String.string_of_list_ascii (str (a_description e)) = a_description e) as ->
    by apply String.string_of_list_ascii_of_string.
  destruct (a_frozen e).
  - by rewrite Hf, Z.eqb_refl.
  - by rewrite Hf.
Qed.

Lemma persisted_valid e : entry_valid e → entry_valid (persisted e).
Proof.
  intros [H1 H2 H3 H4 H5 H6 H7 H8 H9 H10 H11 H12]. split; try done; cbn; [by left|].
  intros q. destruct (a_pointer_path e) as [p|] eqn:Ep; [|done]. intros [= <-].
  by destruct (H12 p eq_refl).
Qed.

(** What a saved entry comes back as. *)
Definition reloaded_entry (e : AddressEntry) : AddressEntry := disarmed (persisted e).

Lemma load_row_text e ids :
  entry_valid e → entry_typed e → a_id e ≠ 0 → a_id e ≠ u64_max → a_id e ∉ ids →
  load_row kAddressListVersion ids (row_text e) = Success (reloaded_entry e).
Proof.
  intros Hv Ht Hz Hm Hn. unfold load_row. rewrite parse_row_text by done.
  rewrite (proj2 (ValidateEntry_valid _ _)) by (by apply persisted_valid). by rewrite bool_decide_false.
Qed.
End Row.

(** ** The lines of the file *)

(** A character that neither ends a line nor is a NUL. *)
Definition inline (c : ascii) : Prop := char_code c ≠ 10 ∧ char_code c ≠ 0.

Lemma plain_inline c : plain c → inline c.
Proof. intros [H1 H2]. split; [|done]. intros H. unfold isspace in H1. by rewrite H in H1. Qed.
Lemma insert_int_inline n : Forall inline (insert_int n).
Proof.
  assert (∀ m, 0 ≤ m → Forall inline (print_number false 10 m)) as Hp.
  { intros m Hm. destruct (print_number_digits false m Hm) as (d & ds & -> & Hd & _).
    apply Forall_fmap. eapply Forall_impl; [exact Hd|]. intros x Hx. cbn in Hx |- *.
    destruct (digit_char_solid false x) as (H1 & _ & _ & _ & H2); [lia|]. by apply plain_inline. }
  unfold insert_int. destruct (Z.ltb_spec n 0); [constructor; [done|]|]; apply Hp; lia.
Qed.

(** A row holds such characters and those of the description. *)
Section Chars.
Variable Q : ascii → Prop.
Hypothesis Q_inline : ∀ c, inline c → Q c.

Lemma inline_chars text : Forall inline text → Forall Q text.
Proof. intros Ht. eapply Forall_impl; [exact Ht|]. exact Q_inline. Qed.
Lemma escaped_chars text : Forall Q text → Forall Q (escaped text).
Proof.
  induction 1 as [|c text Hc _ IH]; [constructor|]. cbn [escaped]. apply Forall_app_2; [|done].
  destruct (_ || _); repeat constructor; try done. by apply Q_inline.
Qed.
Lemma tabbed_chars fields : Forall (Forall Q) fields → Forall Q (tabbed fields).
Proof.
  destruct 1 as [|f fields Hf Hs]; [constructor|]. rewrite tabbed_cons. apply Forall_app_2; [done|].
  induction Hs as [|g fields Hg _ IH]; [constructor|]. rewrite trail_cons.
  constructor; [by apply Q_inline|]. by apply Forall_app_2.
Qed.

Lemma row_chars e : entry_typed e → Forall Q (str (a_description e)) → Forall Q (row_text e).
Proof.
  intros Ht Hd. apply tabbed_chars. unfold row_fields.
  destruct (freeze_word_plain _ (et_freeze e Ht)) as [Hp _].
  assert (∀ n, Forall Q (insert_int n)) as Hi by (intros n; apply inline_chars, insert_int_inline).
  apply Forall_app_2.
  - do 7 (constructor; [apply Hi|]).
    apply Forall_cons_2; [|apply Forall_cons_2; [|apply Forall_cons_2; [apply Hi|constructor]]].
    + unfold insert_quoted. assert (Q quote_mark) by (by apply Q_inline).
      constructor; [done|]. apply Forall_app_2; [by apply escaped_chars|by constructor].
    + fold (freeze_word (a_freeze_value e)). apply inline_chars. eapply Forall_impl; [exact Hp|]. apply plain_inline.
  - destruct (a_pointer_path e) as [p|]; [|constructor]. unfold path_fields.
    apply Forall_app_2; [by repeat (constructor; [apply Hi|])|]. by apply Forall_fmap, Forall_true.
Qed.
End Chars.

Lemma description_line e : entry_valid e → Forall (λ c, char_code c ≠ 10) (str (a_description e)).
Proof.
  intros Hv. pose proof (ev_line e Hv) as Hl. unfold has_line_break, label_bytes in *.
  apply Forall_forall. intros c Hc Hz. apply Bool.not_true_iff_false in Hl. apply Hl, existsb_exists.
  exists (char_code c). split; [by apply list_elem_of_In, list_elem_of_fmap_2|]. by rewrite Hz.
Qed.
Lemma row_line e : entry_valid e → entry_typed e → Forall (λ b, b ≠ 10) (chars_bytes (row_text e)).
Proof.
  intros Hv Ht. apply Forall_fmap. apply row_chars; [by intros c []|done|by apply description_line].
Qed.
Lemma row_inline e :
  entry_valid e → entry_typed e → 0 ∉ label_bytes (a_description e) → Forall inline (row_text e).
Proof.
  intros Hv Ht Hn. apply row_chars; [done|done|]. pose proof (description_line e Hv) as Hd.
  apply Forall_forall. intros c Hc. split; [by eapply Forall_forall in Hd|].
  intros Hz. apply Hn. rewrite <- Hz. by apply list_elem_of_fmap_2.
Qed.
(** The row shows the description. *)
Lemma tabbed_elem c f fields : c ∈ f → f ∈ fields → c ∈ tabbed fields.
Proof.
  intros Hc. induction fields as [|g fields IH]; [by intros ?%not_elem_of_nil|]. rewrite tabbed_cons.
  intros [->|Hf]%elem_of_cons; apply elem_of_app; [by left|right].
  destruct fields as [|h fields]; [by apply not_elem_of_nil in Hf|]. rewrite trail_cons.
  apply elem_of_cons. right. rewrite <- tabbed_cons. by apply IH.
Qed.
Lemma row_nul e :
  0 ∈ label_bytes (a_description e) → existsb (Z.eqb 0) (chars_bytes (row_text e)) = true.
Proof.
  intros (c & Hz & Hc)%list_elem_of_fmap. apply existsb_exists. exists (char_code c).
  split; [|by rewrite <- Hz]. apply list_elem_of_In, list_elem_of_fmap_2.
  apply (tabbed_elem c (insert_quoted (str (a_description e)))); [|unfold row_fields; set_solver].
  unfold insert_quoted. apply elem_of_cons. right. apply elem_of_app. left. clear Hz.
  induction (str (a_description e)) as [|d text IH]; [by apply not_elem_of_nil in Hc|]. cbn [escaped].
  apply elem_of_app. apply elem_of_cons in Hc as [->|Hc]; [left|right; by apply IH].
  destruct (_ || _); set_solver.
Qed.
Lemma row_text_cons e : ∃ c rest, row_text e = c :: rest.
Proof.
  unfold row_text, row_fields. cbn [app]. rewrite tabbed_cons. pose proof (insert_int_solid (a_id e)) as Hs.
  destruct (insert_int (a_id e)) as [|c f]; [done|]. by eexists _, _.
Qed.

Lemma inline_bytes text :
  Forall inline text → Forall (λ b, b ≠ 10) (chars_bytes text) ∧ existsb (Z.eqb 0) (chars_bytes text) = false.
Proof.
  unfold chars_bytes. intros Ht. split.
  - apply Forall_fmap. eapply Forall_impl; [exact Ht|]. by intros c [].
  - induction Ht as [|c text [_ Hc] _ IH]; [done|]. cbn [fmap list_fmap existsb].
    rewrite (proj2 (Z.eqb_neq 0 _)) by done. exact IH.
Qed.
Lemma line_bytes_app text rest : line_bytes text ++ rest = chars_bytes text ++ 10 :: rest.
Proof. unfold line_bytes, chars_bytes. rewrite fmap_app, <- app_assoc. done. Qed.

(** What the file needs of an entry besides its validity: members of their types, no NUL
    in the description, and a row that fits the reader's buffer. *)
Record entry_storable (e : AddressEntry) : Prop := {
  es_typed : entry_typed e;
  es_nul : 0 ∉ label_bytes (a_description e);
  es_row : sizeZ (row_text e) ≤ kMaxRowBytes
}.

Section File.
Context `{NumGet}.

Definition highest_id (start : Z) (entries : list AddressEntry) : Z := foldl Z.max start (a_id <$> entries).

Lemma load_rows_list entries fuel loaded ids highest fs :
  fault_free fs → (length entries < fuel)%nat → sizeZ loaded + sizeZ entries ≤ kMaxEntries →
  check_entries ids entries = Success tt → Forall entry_storable entries →
  ∃ fs', ticked fs fs' ∧
    load_rows fuel kAddressListVersion loaded ids highest
      (mkLineStream (mjoin (line_bytes ∘ row_text <$> entries)) false false false) fs =
      (Success (loaded ++ (reloaded_entry <$> entries), highest_id highest entries),
       mkLineStream [] true true false, fs').
Proof.
  revert fuel loaded ids highest fs.
  induction entries as [|e entries IH]; intros [|fuel] loaded ids highest fs Hf Hfuel Hc Hok Hs; try (cbn in Hfuel; lia).
  { cbn [fmap list_fmap load_rows]. change (mjoin []) with (@nil Z).
    destruct (getline_end (kMaxRowBytes + 2) fs Hf) as (fs1 & T1 & ->). exists fs1. split; [done|].
    cbn. by rewrite app_nil_r. }
  apply Forall_cons in Hs as [[Ht Hnul Hrow] Hs].
  pose proof Hok as (Hva & Hida & _)%check_entries_iff. apply Forall_cons in Hva as [Hv _], Hida as [(Hz & Hm & Hn) _].
  cbn [check_entries] in Hok. rewrite (proj2 (ValidateEntry_valid e _) Hv) in Hok.
  destruct (_ || _) in Hok; [done|]. rewrite sizeZ_cons in Hc. pose proof (sizeZ_nonneg entries).
  cbn [fmap list_fmap]. change (mjoin (?x :: ?l)) with (x ++ mjoin l). unfold compose at 1. rewrite line_bytes_app.
  destruct (inline_bytes (row_text e) (row_inline e Hv Ht Hnul)) as [Hl Hz0].
  assert (sizeZ (chars_bytes (row_text e)) = sizeZ (row_text e)) as Hsz
    by (unfold sizeZ, chars_bytes; by rewrite length_fmap).
  cbn [load_rows]. destruct (getline_line (kMaxRowBytes + 2) (chars_bytes (row_text e))
    (mjoin (line_bytes ∘ row_text <$> entries)) fs Hf Hl) as (fs1 & T1 & ->); [lia|].
  cbn [ls_fail ls_bad orb raw_line]. rewrite (proj2 (Z.ltb_ge kMaxRowBytes _)), Hz0 by lia.
  rewrite bool_decide_false by (destruct (row_text_cons e) as (c & rest & ->); done).
  rewrite (proj2 (Z.leb_gt kMaxEntries _)) by lia. rewrite byte_chars_bytes, load_row_text by done.
  destruct (IH fuel (loaded ++ [reloaded_entry e]) ({[a_id e]} ∪ ids) (Z.max highest (a_id e)) fs1)
    as (fs2 & T2 & E2); [by eauto with kdbg|cbn in Hfuel; lia| |done|done|].
  { rewrite sizeZ_app. change (sizeZ [reloaded_entry e]) with 1. lia. }
  exists fs2. split; [by transitivity fs1|]. change (a_id (reloaded_entry e)) with (a_id e). rewrite E2.
  by rewrite <- app_assoc.
Qed.

Lemma length_rows entries : (length entries ≤ length (mjoin (line_bytes ∘ row_text <$> entries)))%nat.
Proof.
  induction entries as [|e entries IH]; [done|]. cbn [fmap list_fmap length].
  change (mjoin (?x :: ?l)) with (x ++ mjoin l). rewrite length_app.
  change ((line_bytes ∘ row_text) e) with (line_bytes (row_text e)). unfold line_bytes at 1, chars_bytes.
  rewrite length_fmap, length_app. cbn [length]. lia.
Qed.

(** Loading a file that starts with the current header. *)
Lemma address_Load_rows source l rows fs :
  fault_free fs → file fs source = Some (line_bytes header_text ++ rows) →
  ∃ fs1, ticked fs fs1 ∧
    address_Load source l fs =
      match load_rows (S (length (line_bytes header_text ++ rows))) kAddressListVersion [] ∅ 0
              (mkLineStream rows false false false) fs1 with
      | (Failure e, _, fs) => (Failure e, l, fs)
      | (Success (loaded, highest), input, fs) =>
          if ls_bad input then (load_failure IoFailure "Failed while reading the address-list file", l, fs)
          else if ls_fail input && negb (ls_eof input) then
            (load_failure LimitReached "Address-list row exceeds the length limit", l, fs)
          else (Success tt, mkAddressList loaded (highest + 1), fs)
      end.
Proof.
  intros Hf Hfile. unfold address_Load. destruct (is_open_ok source fs _ Hf Hfile) as (fs2 & T2 & ->).
  cbn [is_good negb is_rest]. rewrite line_bytes_app.
  destruct (getline_line 128 (chars_bytes header_text) rows fs2) as (fs3 & T3 & ->);
    [by eauto with kdbg|by apply (bool_decide_unpack _); vm_compute|by vm_compute|].
  replace (parse_header (byte_chars (c_string (chars_bytes header_text))))
    with (Some (kAddressListVersion, mkIstream [] true)) by (by vm_compute).
  exists fs3. split; [by transitivity fs2|]. done.
Qed.

(** [C26] A saved address list comes back disarmed: saving a well-formed list, whose
    descriptions hold no NUL and whose rows fit the reader's buffer, succeeds on a file
    system without faults, and loading that file into any list gives the same entries
    in the same order with their ids, addresses, types, widths, descriptions and pointer
    paths, none of them frozen, those that were marked so in their error, the current
    values to be read again, and a next id above every one of them. *)
Theorem address_save_load dest l l0 fs :
  list_wf l → Forall entry_storable (al_entries l) →
  fault_free fs → is_u64 (sequence fs) → Z.of_nat (size (files fs)) ≤ u64_max → filename dest ≠ "" →
  ∃ fs1 fs2, address_Save AddressNoFault dest l fs = (Success tt, fs1) ∧
    address_Load dest l0 fs1 =
      (Success tt, mkAddressList (reloaded_entry <$> al_entries l) (highest_id 0 (al_entries l) + 1), fs2).
Proof.
  intros Hw Hs Hf Hq Hn Hd. destruct (address_Save_ok dest l fs Hf Hq Hn Hd Hw) as (fs1 & -> & Hf1 & Hfile).
  exists fs1. destruct (address_Load_rows dest l0 _ fs1 Hf1 Hfile) as (fs2 & T2 & ->).
  set (rows := mjoin (line_bytes ∘ row_text <$> al_entries l)) in *.
  destruct (load_rows_list (al_entries l) (S (length (line_bytes header_text ++ rows))) [] ∅ 0 fs2)
    as (fs3 & T3 & E3); [by eauto with kdbg| | |by apply wf_saveable|done|].
  - rewrite length_app. pose proof (length_rows (al_entries l)) as Hl. fold rows in Hl. lia.
  - apply Hw.
  - fold rows in E3. rewrite E3. cbn [ls_bad ls_fail ls_eof negb andb app]. by exists fs3.
Qed.

(** ** Files that are written and cannot be read *)

(** [C27] Files the reader refuses are written without complaint: when the first entry of a
    well-formed list has a NUL in its description, or a row longer than the reader's buffer
    (quotes and backslashes are escaped, so a description within its own limit next to a
    frozen value of 1 MiB makes one), saving the list succeeds and loading that file
    fails. *)
Theorem address_save_unloadable dest l l0 e rest fs :
  list_wf l → al_entries l = e :: rest → entry_typed e →
  0 ∈ label_bytes (a_description e) ∨ kMaxRowBytes < sizeZ (row_text e) →
  fault_free fs → is_u64 (sequence fs) → Z.of_nat (size (files fs)) ≤ u64_max → filename dest ≠ "" →
  ∃ fs1 fs2 er, address_Save AddressNoFault dest l fs = (Success tt, fs1) ∧
    address_Load dest l0 fs1 = (Failure er, l0, fs2).
Proof.
  intros Hw He Ht Hbad Hf Hq Hn Hd. destruct (address_Save_ok dest l fs Hf Hq Hn Hd Hw) as (fs1 & -> & Hf1 & Hfile).
  exists fs1. destruct (address_Load_rows dest l0 _ fs1 Hf1 Hfile) as (fs2 & T2 & ->). rewrite He.
  cbn [fmap list_fmap]. change (mjoin (?x :: ?l)) with (x ++ mjoin l).
  change ((line_bytes ∘ row_text) e) with (line_bytes (row_text e)).
  generalize (mjoin (line_bytes ∘ row_text <$> rest)) as rows. intros rows.
  generalize (length (line_bytes header_text ++ line_bytes (row_text e) ++ rows)) as fuel. intros fuel.
  rewrite line_bytes_app. cbn [load_rows].
  assert (entry_valid e) as Hv by (eapply (entry_wf l 0%nat); [exact Hw|by rewrite He]). pose proof (row_line e Hv Ht) as Hl.
  assert (sizeZ (chars_bytes (row_text e)) = sizeZ (row_text e)) as Hsz
    by (unfold sizeZ, chars_bytes; by rewrite length_fmap).
  destruct (Z.le_gt_cases (kMaxRowBytes + 2) (sizeZ (row_text e))) as [Hlong|Hshort].
  - destruct (getline_long (kMaxRowBytes + 2) (chars_bytes (row_text e)) (10 :: rows) fs2)
      as (stored & rest' & fs3 & T3 & ->); [by eauto with kdbg|done|rewrite Hsz; by split|].
    cbn [ls_fail ls_bad ls_eof orb negb andb]. by eexists _, _.
  - destruct (getline_line (kMaxRowBytes + 2) (chars_bytes (row_text e)) rows fs2) as (fs3 & T3 & ->);
      [by eauto with kdbg|done|lia|]. cbn [ls_fail ls_bad orb raw_line]. rewrite Hsz.
    destruct (Z.ltb_spec kMaxRowBytes (sizeZ (row_text e))); [by eexists _, _|].
    destruct Hbad as [Hz%row_nul|]; [rewrite Hz; by eexists _, _|lia].
Qed.
End File.

(** A library that stores a negative field modulo the width of its type. *)
Definition modulo_unsigned (max v : Z) : option Z :=
  if (0 <=? max) && (v <=? max) then Some ((- v) mod (max + 1)) else None.
Lemma modulo_unsigned_range max v r : modulo_unsigned max v = Some r → 0 ≤ r ≤ max.
Proof.
  unfold modulo_unsigned. destruct (_ && _) eqn:E; [|done]. boolify. intros [= <-].
  pose proof (Z.mod_pos_bound (- v) (max + 1)). lia.
Qed.
#[local] Instance modulo_library : NumGet :=
  {| negated_unsigned := modulo_unsigned; negated_range := modulo_unsigned_range |}.

Definition demo_space : MemorySpace := ProcessSpace 1337 0 "game.exe".
Definition new_entry (description : string) (path : option AddressPointerPath) : AddressEntry :=
  mkAddressEntry 0 description demo_space 0x140000010 UInt32 4 path false [] [] 0 None.
(** A description with a quote, a space and a backslash. *)
Definition odd_text : string := bytes_label [104; 34; 32; 92].
Definition one_address : AddressList := (Add (new_entry odd_text None) make_AddressList).2.
Definition demo_path : AddressPointerPath := mkAddressPointerPath demo_space 0x140000020 [16; -8] 8.
(** Two entries, the first of them refreshed and frozen. *)
Definition address_table : AddressList :=
  (SetFrozen 1 true None
     (Add (new_entry "" (Some demo_path)) (Refresh one_address demo_writer_backend).1.2).2
     demo_writer_backend).1.2.


Lemma address_table_wf : list_wf address_table.
Proof.
  unfold address_table. apply SetFrozen_wf, Add_wf; [|by intros id <-].
  apply Refresh_wf, Add_wf; [apply make_AddressList_wf|by intros id <-].
Qed.

Lemma address_reachable_wf_witness : list_wf one_address.
Proof.
  refine (proj1 (address_reachable_wf (B := MockMemoryBackend) one_address _)).
  apply rtc_once. apply step_Add. unfold is_u64. simpl. lia.
Defined.

Definition address_fs : FileSystem :=
  mkFileSystem {[mkPath "dir" "a.kdbg" := [9; 9]]} (λ _, (0, 0%nat)) 0 42 0.
Definition address_file : path := mkPath "dir" "a.kdbg".

Definition address_entries : list AddressEntry := Eval vm_compute in al_entries address_table.
Lemma address_entries_eq : al_entries address_table = address_entries.
Proof. vm_compute. reflexivity. Qed.
Lemma demo_storable : Forall entry_storable (al_entries address_table).
Proof.
  rewrite address_entries_eq.
  apply Forall_cons_2; [|apply Forall_cons_2; [|constructor]]; (split; [split; unfold is_u64, is_u32; simpl|..]).
  all: try lia.
  all: try (apply (bool_decide_unpack _); vm_compute; exact I).
  - intros p Hp. discriminate Hp.
  - intros p Hp. injection Hp as <-. simpl. split; [lia|]. repeat constructor; vm_compute; congruence.
Qed.

Lemma address_save_load_witness :
  ∃ fs1 fs2, address_Save AddressNoFault address_file address_table address_fs = (Success tt, fs1) ∧
    address_Load address_file make_AddressList fs1 =
      (Success tt, mkAddressList (reloaded_entry <$> al_entries address_table) 3, fs2) ∧
    map a_frozen (al_entries address_table) = [true; false] ∧
    map a_description (reloaded_entry <$> al_entries address_table) = [odd_text; ""].
Proof.
  destruct (address_save_load address_file address_table make_AddressList address_fs) as (fs1 & fs2 & H1 & H2).
  - exact address_table_wf.
  - exact demo_storable.
  - intros k. reflexivity.
  - vm_compute. split; discriminate.
  - vm_compute. discriminate.
  - discriminate.
  - exists fs1, fs2. split; [exact H1|]. rewrite H2, !address_entries_eq.
    replace (highest_id 0 address_entries + 1) with 3 by (vm_compute; reflexivity).
    split; [reflexivity|]. vm_compute. split; reflexivity.
Defined.

(** An entry whose description is a NUL. *)
Definition nul_address : AddressList := (Add (new_entry (bytes_label [0]) None) make_AddressList).2.

Lemma address_save_unloadable_witness :
  ∃ fs1 fs2 er, address_Save AddressNoFault address_file nul_address address_fs = (Success tt, fs1) ∧
    address_Load address_file make_AddressList fs1 = (Failure er, make_AddressList, fs2).
Proof.
  eapply (address_save_unloadable address_file nul_address make_AddressList _ []).
  - apply Add_wf; [apply make_AddressList_wf|by intros id <-].
  - vm_compute. reflexivity.
  - split; unfold is_u64, is_u32; simpl; [lia..|constructor|]. intros p Hp. discriminate Hp.
  - left. vm_compute. left.
  - intros k. reflexivity.
  - vm_compute. split; discriminate.
  - vm_compute. discriminate.
  - discriminate.
Defined.
