(* ===== verification/PointerScanner.v ===== *)
(** [core/scanner/PointerScanner]: the search for pointer paths that lead to an address,
    level by level from the target back to its roots. *)

From stdpp Require Import list sorting.
From S2P Require Import Prelude CppStd Common ProcessMemory.

#[local] Open Scope Z_scope.

(** ** Data *)

Record PointerScanOptions := mkPointerScanOptions {
  po_max_depth : Z;
  po_max_offset : Z;
  po_max_results : Z;
  po_chunk_size : Z;
  po_aligned_only : bool;
  po_writable_only : bool;
  po_static_roots_only : bool
}.

Record PointerPath := mkPointerPath {
  pp_root_address : Z;
  pp_module_name : string;
  pp_module_offset : Z;
  pp_offsets : list Z;
  pp_resolved_address : Z
}.

Record PointerScanReport := mkPointerScanReport {
  pr_reads_attempted : Z;
  pr_reads_completed : Z;
  pr_reads_skipped : Z;
  pr_requested_bytes : Z;
  pr_completed_bytes : Z;
  pr_failed_reads : Z;
  pr_short_reads : Z;
  pr_partial : bool;
  pr_truncated : bool;
  pr_cancelled : bool;
  pr_first_error : Error
}.
#[export] Instance PointerScanReport_eta : Eta PointerScanReport := fun r =>
  mkPointerScanReport (pr_reads_attempted r) (pr_reads_completed r) (pr_reads_skipped r)
    (pr_requested_bytes r) (pr_completed_bytes r) (pr_failed_reads r) (pr_short_reads r) (pr_partial r)
    (pr_truncated r) (pr_cancelled r) (pr_first_error r).

Record ScanProgress := mkScanProgress {
  sp_phase : string;
  sp_bytes_total : Z;
  sp_bytes_scanned : Z;
  sp_regions_total : Z;
  sp_regions_scanned : Z;
  sp_candidates : Z
}.
#[export] Instance ScanProgress_eta : Eta ScanProgress := fun s =>
  mkScanProgress (sp_phase s) (sp_bytes_total s) (sp_bytes_scanned s) (sp_regions_total s)
    (sp_regions_scanned s) (sp_candidates s).

Record FrontierNode := mkFrontierNode { fn_address : Z; fn_offsets : list Z }.
#[export] Instance FrontierNode_eq_dec : EqDecision FrontierNode.
Proof. solve_decision. Defined.

Definition kMaxDepth : Z := 8.
Definition kMaxOffset : Z := 16 * 1024 * 1024.
Definition kMaxResults : Z := 1000000.
Definition kMaxFrontierNodes : Z := 1000000.
Definition kMaxChunkSize : Z := 16 * 1024 * 1024.

Definition empty_report : PointerScanReport :=
  mkPointerScanReport 0 0 0 0 0 0 0 false false false (MakeError None_ "" "").
Definition empty_progress (phase : string) : ScanProgress := mkScanProgress phase 0 0 0 0 0.

(** ** Standard algorithms *)

(** [std::sort] returns some sorted permutation: which one, when elements are equivalent,
    is up to the library. *)
Class StdSort := {
  std_sort : ∀ {A}, (A → A → bool) → list A → list A;
  std_sort_perm A (lt : A → A → bool) l : std_sort lt l ≡ₚ l;
  std_sort_sorted A (lt : A → A → bool) l :
    (∀ x y, lt x y = true → lt y x = false) →
    (∀ x y z, lt y x = false → lt z y = false → lt z x = false) →
    StronglySorted (λ x y, lt y x = false) (std_sort lt l)
}.

(** [std::unique]: of a run of equals the first stays. *)
Fixpoint unique_after {A} (eqb : A → A → bool) (kept : A) (l : list A) : list A :=
  match l with
  | [] => []
  | x :: l => if eqb kept x then unique_after eqb kept l else x :: unique_after eqb x l
  end.
Definition std_unique {A} (eqb : A → A → bool) (l : list A) : list A :=
  match l with [] => [] | x :: l => x :: unique_after eqb x l end.

(** [std::lower_bound] in a range partitioned by [before]: what follows the elements
    that satisfy it. *)
Fixpoint lower_bound {A} (before : A → bool) (l : list A) : list A :=
  match l with [] => [] | x :: rest => if before x then lower_bound before rest else l end.

(** [vector < vector] *)
Fixpoint offsets_lt (a b : list Z) : bool :=
  match a, b with
  | _, [] => false
  | [], _ :: _ => true
  | x :: a, y :: b => if x <? y then true else if y <? x then false else offsets_lt a b
  end.

(** ** Helpers *)

Definition PreserveFirstError (e : Error) (r : PointerScanReport) : PointerScanReport :=
  if bool_decide (code (pr_first_error r) = None_) then r <| pr_first_error := e |> else r.

Definition AddSaturating (value amount : Z) : Z :=
  if u64_max - value <? amount then u64_max else value + amount.

Definition ReadPointer (bytes : list Z) (pointer_size : Z) : Z :=
  if (pointer_size =? 4) && (4 <=? sizeZ bytes) then le_value (take 4 bytes)
  else if (pointer_size =? 8) && (8 <=? sizeZ bytes) then le_value (take 8 bytes)
  else 0.

Definition IsCanonicalUserPointer (value pointer_size : Z) : bool :=
  if pointer_size =? 4 then (0x10000 <=? value) && (value <=? 0xFFFFFFFF)
  else (0x10000 <=? value) && (value <=? 0x00007FFFFFFFFFFF).

Definition node_lt (left right : FrontierNode) : bool :=
  if negb (fn_address left =? fn_address right) then fn_address left <? fn_address right
  else offsets_lt (fn_offsets left) (fn_offsets right).
Definition node_eqb (left right : FrontierNode) : bool :=
  (fn_address left =? fn_address right) && bool_decide (fn_offsets left = fn_offsets right).

Definition path_lt (left right : PointerPath) : bool :=
  if negb (sizeZ (pp_offsets left) =? sizeZ (pp_offsets right)) then
    sizeZ (pp_offsets left) <? sizeZ (pp_offsets right)
  else if negb (eqb (bool_decide (pp_module_name left = "")) (bool_decide (pp_module_name right = ""))) then
    negb (bool_decide (pp_module_name left = ""))
  else pp_root_address left <? pp_root_address right.
Definition path_eqb (left right : PointerPath) : bool :=
  (pp_root_address left =? pp_root_address right) && bool_decide (pp_offsets left = pp_offsets right).

(** ** One level

    What a scan changes as it runs: the process it reads, the report, how often the stop
    token was asked, and the progress with what the callback was shown of it. *)

Record PointerState (P : Type) := mkPointerState {
  pt_memory : P;
  pt_report : PointerScanReport;
  pt_polls : nat;
  pt_progress : ScanProgress;
  pt_shown : list ScanProgress
}.
Arguments mkPointerState {P}.
Arguments pt_memory {P}.
Arguments pt_report {P}.
Arguments pt_polls {P}.
Arguments pt_progress {P}.
Arguments pt_shown {P}.
#[export] Instance PointerState_eta P : Eta (PointerState P) := fun s =>
  mkPointerState (pt_memory s) (pt_report s) (pt_polls s) (pt_progress s) (pt_shown s).

Definition cancel_error (operation : string) : Error :=
  MakeError Cancelled "Pointer scan was cancelled" operation.
Definition mark_cancelled (operation : string) (r : PointerScanReport) : PointerScanReport :=
  PreserveFirstError (cancel_error operation) (r <| pr_cancelled := true |> <| pr_partial := true |>).
Definition mark_attempted (request : Z) (r : PointerScanReport) : PointerScanReport :=
  r <| pr_reads_attempted := u64 (pr_reads_attempted r + 1) |>
    <| pr_requested_bytes := AddSaturating (pr_requested_bytes r) request |>.
Definition mark_short (e : Error) (r : PointerScanReport) : PointerScanReport :=
  PreserveFirstError e
    (r <| pr_reads_skipped := u64 (pr_reads_skipped r + 1) |>
       <| pr_short_reads := u64 (pr_short_reads r + 1) |> <| pr_partial := true |>).
Definition mark_failed (e : Error) (r : PointerScanReport) : PointerScanReport :=
  PreserveFirstError e
    (r <| pr_reads_skipped := u64 (pr_reads_skipped r + 1) |>
       <| pr_failed_reads := u64 (pr_failed_reads r + 1) |> <| pr_partial := true |>).
Definition mark_completed (r : PointerScanReport) : PointerScanReport :=
  r <| pr_reads_completed := u64 (pr_reads_completed r + 1) |>.
Definition mark_bytes (n : Z) (r : PointerScanReport) : PointerScanReport :=
  r <| pr_completed_bytes := AddSaturating (pr_completed_bytes r) n |>.
Definition mark_truncated (r : PointerScanReport) : PointerScanReport :=
  r <| pr_truncated := true |> <| pr_partial := true |>.

Definition upper_bound_of (options : PointerScanOptions) (pointer : Z) : Z :=
  if u64_max - pointer <? po_max_offset options then u64_max else pointer + po_max_offset options.

(** The nodes a pointer stored at [storage] leads to become its parents; true when the
    frontier is full. *)
Fixpoint push_parents (storage pointer upper : Z) (nodes parents : list FrontierNode)
    : bool * list FrontierNode :=
  match nodes with
  | [] => (false, parents)
  | node :: nodes =>
      if upper <? fn_address node then (false, parents)
      else
        let parents :=
          parents ++ [mkFrontierNode storage (fn_address node - pointer :: fn_offsets node)] in
        if kMaxFrontierNodes <=? sizeZ parents then (true, parents)
        else push_parents storage pointer upper nodes parents
  end.

Section Scan.
Context {P : Type} `{IProcessMemory P} `{StdSort} (stop : nat → bool).
Implicit Types st : PointerState P.

Definition polled st : PointerState P := st <| pt_polls := S (pt_polls st) |>.
Definition with_report (f : PointerScanReport → PointerScanReport) st : PointerState P :=
  st <| pt_report := f (pt_report st) |>.
Definition with_progress (f : ScanProgress → ScanProgress) st : PointerState P :=
  st <| pt_progress := f (pt_progress st) |>.
Definition show st : PointerState P := st <| pt_shown := pt_shown st ++ [pt_progress st] |>.
Definition set_candidates (parents : list FrontierNode) st : PointerState P :=
  show (with_progress (λ s, s <| sp_candidates := sizeZ parents |>) st).

Definition find_op : string := "PointerScanner::FindParents".

(** The loop over the offsets of a window; the stop token is asked every 1024 rounds.
    True when the frontier is full. *)
Fixpoint window_loop (fuel : nat) (options : PointerScanOptions) (pointer_size alignment : Z)
    (sorted_frontier : list FrontierNode) (window : list Z) (window_base offset counter : Z)
    (parents : list FrontierNode) st : Result bool * list FrontierNode * PointerState P :=
  match fuel with
  | O => (Failure (MakeError InternalInvariant "" ""), parents, st)
  | S fuel =>
      if sizeZ window - pointer_size <? offset then (Success false, parents, st)
      else
        let asked := Z.land counter 0x3FF =? 0 in
        if asked && stop (pt_polls st) then
          let st := with_report (mark_cancelled find_op) (polled st) in
          (Failure (pr_first_error (pt_report st)), parents, st)
        else
          let st := if asked then polled st else st in
          let continue :=
            window_loop fuel options pointer_size alignment sorted_frontier window window_base
              (offset + alignment) (u64 (counter + 1)) in
          let storage := u64 (window_base + offset) in
          let pointer := ReadPointer (slice window offset pointer_size) pointer_size in
          if negb (IsCanonicalUserPointer pointer pointer_size) then continue parents st
          else
            match push_parents storage pointer (upper_bound_of options pointer)
                    (lower_bound (λ node, fn_address node <? pointer) sorted_frontier) parents with
            | (false, parents) => continue parents st
            | (true, parents) => (Success true, parents, set_candidates parents (with_report mark_truncated st))
            end
  end.

Definition scan_window (options : PointerScanOptions) (pointer_size alignment : Z)
    (sorted_frontier : list FrontierNode) (window : list Z) (window_base : Z)
    (parents : list FrontierNode) st : Result bool * list FrontierNode * PointerState P :=
  if sizeZ window <? pointer_size then (Success false, parents, st)
  else
    let remainder := window_base `mod` alignment in
    let first := if remainder =? 0 then 0 else alignment - remainder in
    window_loop (S (List.length window)) options pointer_size alignment sorted_frontier window window_base
      first 0 parents st.

(** What is kept of a window for the next one: nothing after a short read. *)
Definition next_carry (pointer_size request : Z) (bytes window : list Z) : list Z :=
  if (sizeZ bytes =? request) && negb (bool_decide (bytes = [])) then
    let carry_size := Z.min (pointer_size - 1) (sizeZ window) in
    drop (Z.to_nat (sizeZ window - carry_size)) window
  else [].

(** The loop over the chunks of a region; a round advances by a chunk or reaches the
    end. *)
Fixpoint chunk_loop (fuel : nat) (options : PointerScanOptions) (pointer_size alignment chunk_size : Z)
    (sorted_frontier : list FrontierNode) (region_end cursor : Z) (carry : list Z)
    (parents : list FrontierNode) st : Result bool * list FrontierNode * PointerState P :=
  match fuel with
  | O => (Failure (MakeError InternalInvariant "" ""), parents, st)
  | S fuel =>
      if region_end <=? cursor then (Success false, parents, st)
      else if stop (pt_polls st) then
        (Failure (cancel_error find_op), parents, with_report (mark_cancelled find_op) (polled st))
      else
        let st := polled st in
        let request := u32 (Z.min (region_end - cursor) (Z.min chunk_size u32_max)) in
        let st := with_report (mark_attempted request) st in
        let '(data, p) := Read cursor request (pt_memory st) in
        let st := st <| pt_memory := p |> in
        let next carry parents st :=
          chunk_loop fuel options pointer_size alignment chunk_size sorted_frontier region_end
            (u64 (cursor + request)) carry parents (set_candidates parents st) in
        match data with
        | Failure e => next [] parents (with_report (mark_failed e) st)
        | Success bytes =>
            if request <? sizeZ bytes then
              (Failure (MakeErrorFull InternalInvariant "Process backend returned more bytes than requested"
                 find_op 0 request (sizeZ bytes)), parents, st)
            else
              let st := with_report
                (if negb (sizeZ bytes =? request) then
                   mark_short (MakeErrorFull ShortRead "Pointer scan returned fewer bytes than requested"
                     find_op 0 request (sizeZ bytes))
                 else mark_completed) st in
              let st := with_report (mark_bytes (sizeZ bytes)) st in
              let st := with_progress (λ s, s <| sp_bytes_scanned :=
                AddSaturating (sp_bytes_scanned s) (sizeZ bytes) |>) st in
              let window := carry ++ bytes in
              let window_base := u64 (cursor - sizeZ carry) in
              match scan_window options pointer_size alignment sorted_frontier window window_base parents st with
              | (Success false, parents, st) => next (next_carry pointer_size request bytes window) parents st
              | r => r
              end
        end
  end.

Definition region_limit (region : MemoryRegion) : Z :=
  if u64_max - region_base region <? region_size region then u64_max
  else region_base region + region_size region.

Fixpoint region_loop (options : PointerScanOptions) (pointer_size alignment chunk_size : Z)
    (sorted_frontier : list FrontierNode) (regions : list MemoryRegion) (parents : list FrontierNode) st
    : Result (list FrontierNode) * bool * PointerState P :=
  match regions with
  | [] => (Success parents, false, st)
  | region :: regions =>
      let fuel := Z.to_nat (region_size region / Z.min chunk_size u32_max + 2) in
      match chunk_loop fuel options pointer_size alignment chunk_size sorted_frontier
              (region_limit region) (region_base region) [] parents st with
      | (Failure e, _, st) => (Failure e, false, st)
      | (Success true, parents, st) => (Success parents, true, st)
      | (Success false, parents, st) =>
          region_loop options pointer_size alignment chunk_size sorted_frontier regions parents
            (with_progress (λ s, s <| sp_regions_scanned := sp_regions_scanned s + 1 |>) st)
      end
  end.

Definition region_used (options : PointerScanOptions) (region : MemoryRegion) : bool :=
  region_committed region && region_readable region && negb (region_guard region) &&
  negb (region_size region =? 0) && (negb (po_writable_only options) || region_writable region).
(** The total of the sizes, without those that would overflow it. *)
Fixpoint sum_regions (total : Z) (regions : list MemoryRegion) : Z :=
  match regions with
  | [] => total
  | region :: regions =>
      sum_regions (if total <=? u64_max - region_size region then total + region_size region else total) regions
  end.

Definition sort_frontier (frontier : list FrontierNode) : list FrontierNode :=
  std_unique node_eqb (std_sort node_lt frontier).

(** [FindParents] with its [truncated] flag. *)
Definition FindParents (frontier : list FrontierNode) (options : PointerScanOptions) st
    : Result (list FrontierNode) * bool * PointerState P :=
  let '(regions, p) := Regions (pt_memory st) in
  let st := st <| pt_memory := p |> in
  match regions with
  | Failure e => (Failure e, false, st)
  | Success all =>
      let sorted_frontier := sort_frontier frontier in
      let regions := filter (λ region, region_used options region = true) all in
      let st := show (with_progress (λ s, s <| sp_bytes_total := sum_regions (sp_bytes_total s) regions |>
                                            <| sp_regions_total := sizeZ regions |>) st) in
      let pointer_size := PointerSize (pt_memory st) in
      let alignment := if po_aligned_only options then pointer_size else 1 in
      let chunk_size := Z.max (po_chunk_size options) pointer_size in
      region_loop options pointer_size alignment chunk_size sorted_frontier regions [] st
  end.

(** ** The scan *)

Definition make_path (target : Z) (modules : list ProcessModule) (node : FrontierNode) : PointerPath :=
  match list_find (λ m, ModuleContains m (fn_address node) = true) modules with
  | Some (_, m) =>
      mkPointerPath (fn_address node) (mod_name m) (u64 (fn_address node - mod_base m)) (fn_offsets node) target
  | None => mkPointerPath (fn_address node) "" 0 (fn_offsets node) target
  end.
Definition in_module (modules : list ProcessModule) (node : FrontierNode) : bool :=
  existsb (λ m, ModuleContains m (fn_address node)) modules.

(** The paths of a level; true when there are as many results as allowed. *)
Fixpoint push_paths (target : Z) (options : PointerScanOptions) (modules : list ProcessModule)
    (nodes : list FrontierNode) (results : list PointerPath) : bool * list PointerPath :=
  match nodes with
  | [] => (false, results)
  | node :: nodes =>
      if po_static_roots_only options && negb (in_module modules node) then
        push_paths target options modules nodes results
      else
        let results := results ++ [make_path target modules node] in
        if po_max_results options <=? sizeZ results then (true, results)
        else push_paths target options modules nodes results
  end.

(** The loop over the depths: the results and whether anything was cut off. *)
Fixpoint depth_loop (rounds : nat) (depth target : Z) (options : PointerScanOptions)
    (modules : list ProcessModule) (frontier : list FrontierNode) (results : list PointerPath)
    (truncated : bool) st : Result (list PointerPath * bool) * PointerState P :=
  match rounds with
  | O => (Success (results, truncated), st)
  | S rounds =>
      if stop (pt_polls st) then
        (Failure (cancel_error "PointerScanner::Scan"),
         with_report (mark_cancelled "PointerScanner::Scan") (polled st))
      else
        let st := polled st <| pt_progress := empty_progress ("pointer-depth-" +:+ dec_string depth) |> in
        match FindParents frontier options st with
        | (Failure e, _, st) => (Failure e, st)
        | (Success frontier, level_truncated, st) =>
            let truncated := truncated || level_truncated in
            let st := with_report (λ r, r <| pr_truncated := truncated |>) st in
            if bool_decide (frontier = []) then (Success (results, truncated), st)
            else
              match push_paths target options modules frontier results with
              | (true, results) =>
                  (Success (results, true), with_report (λ r, r <| pr_partial := true |>) st)
              | (false, results) =>
                  depth_loop rounds (depth + 1) target options modules frontier results truncated st
              end
        end
  end.

Definition options_valid (target pointer_size : Z) (options : PointerScanOptions) : bool :=
  negb ((target =? 0) || (po_max_depth options =? 0) || (po_max_results options =? 0) ||
        (po_chunk_size options =? 0) || (kMaxDepth <? po_max_depth options) ||
        (kMaxOffset <? po_max_offset options) || (kMaxResults <? po_max_results options) ||
        (kMaxChunkSize <? po_chunk_size options) ||
        (negb (pointer_size =? 4) && negb (pointer_size =? 8)) ||
        negb (IsCanonicalUserPointer target pointer_size)).

Definition finish_results (options : PointerScanOptions) (results : list PointerPath) : list PointerPath :=
  let results := std_unique path_eqb (std_sort path_lt results) in
  if po_max_results options <? sizeZ results then take (Z.to_nat (po_max_results options)) results
  else results.

Definition Scan (target : Z) (options : PointerScanOptions) st : Result (list PointerPath) * PointerState P :=
  let st := st <| pt_report := empty_report |> in
  let op := "PointerScanner::Scan" in
  if negb (IsOpen (pt_memory st)) then
    (Failure (MakeError BackendDisconnected "No process is attached" op), st)
  else if negb (options_valid target (PointerSize (pt_memory st)) options) then
    (Failure (MakeError InvalidArgument "Invalid pointer scan options" op), st)
  else
    let '(modules, p) := Modules (pt_memory st) in
    let st := st <| pt_memory := p |> in
    match modules with
    | Failure e => (Failure e, st)
    | Success modules =>
        match depth_loop (Z.to_nat (po_max_depth options)) 1 target options modules
                [mkFrontierNode target []] [] false st with
        | (Failure e, st) => (Failure e, st)
        | (Success (results, truncated), st) =>
            (Success (finish_results options results),
             with_report (λ r, r <| pr_truncated := truncated |>
                                 <| pr_partial := pr_partial r || truncated |>) st)
        end
    end.
End Scan.
