(* ===== verification/PointerScanLevel.v ===== *)
(** The order of the pointer scanner's frontier: what sorting, removing duplicates and the
    binary search give.

    One level of the pointer scan: the chunked reading with carried bytes finds only real
    pointers, and all of them when nothing fails. *)

From stdpp Require Import list sorting.
From stdpp Require Import list sorting fin_sets.
From S2P Require Import Prelude CppStd Common ProcessMemory PointerScanner.

#[local] Open Scope Z_scope.

(** ** Removing duplicates *)

Section Unique.
Context {A : Type} (eqb : A → A → bool).

Lemma unique_after_sublist x l : unique_after eqb x l `sublist_of` l.
Proof.
  revert x. induction l as [|y l IH]; intros x; cbn; [constructor|].
  destruct (eqb x y); constructor; apply IH.
Qed.
Lemma std_unique_sublist l : std_unique eqb l `sublist_of` l.
Proof. destruct l; cbn; constructor. apply unique_after_sublist. Qed.
Lemma elem_of_std_unique x l : x ∈ std_unique eqb l → x ∈ l.
Proof. intros Hx. eapply elem_of_sublist; [exact Hx|]. apply std_unique_sublist. Qed.

Lemma std_unique_kept x l :
  (∀ x, eqb x x = true) → x ∈ l → ∃ y, y ∈ std_unique eqb l ∧ eqb y x = true.
Proof.
  intros Hr. assert (∀ l z, x ∈ z :: l → ∃ y, y ∈ z :: unique_after eqb z l ∧ eqb y x = true) as Hu.
  { clear l. induction l as [|w l IH]; intros z Hx.
    - apply list_elem_of_singleton in Hx as ->. exists z. split; [left|apply Hr].
    - apply elem_of_cons in Hx as [->|Hx]; [exists z; split; [left|apply Hr]|]. cbn.
      destruct (eqb z w) eqn:E.
      + apply elem_of_cons in Hx as [->|Hx]; [exists z; split; [left|done]|].
        apply IH. by right.
      + destruct (IH w Hx) as (y & Hy & Ey). exists y. split; [by right|done]. }
  destruct l as [|z l]; [by intros ?%not_elem_of_nil|]. apply Hu.
Qed.
End Unique.

(** ** The order of the nodes *)

Lemma offsets_lt_asym a b : offsets_lt a b = true → offsets_lt b a = false.
Proof.
  revert b. induction a as [|x a IH]; intros [|y b]; cbn; try done.
  destruct (Z.ltb_spec x y), (Z.ltb_spec y x); try done; try lia. apply IH.
Qed.
Lemma offsets_le_trans a b c :
  offsets_lt b a = false → offsets_lt c b = false → offsets_lt c a = false.
Proof.
  revert b c. induction a as [|x a IH]; intros [|y b] [|z c]; cbn; try done.
  destruct (Z.ltb_spec y x), (Z.ltb_spec x y), (Z.ltb_spec z y), (Z.ltb_spec y z), (Z.ltb_spec z x),
    (Z.ltb_spec x z); try done; try lia. apply IH.
Qed.

Lemma node_lt_asym x y : node_lt x y = true → node_lt y x = false.
Proof.
  unfold node_lt. rewrite (Z.eqb_sym (fn_address y)). destruct (Z.eqb_spec (fn_address x) (fn_address y)); cbn [negb].
  - apply offsets_lt_asym.
  - intros H%Z.ltb_lt. apply Z.ltb_ge. lia.
Qed.
Lemma node_le_trans x y z : node_lt y x = false → node_lt z y = false → node_lt z x = false.
Proof.
  unfold node_lt.
  destruct (Z.eqb_spec (fn_address y) (fn_address x)), (Z.eqb_spec (fn_address z) (fn_address y)),
    (Z.eqb_spec (fn_address z) (fn_address x)); cbn [negb]; try lia.
  apply offsets_le_trans.
Qed.

Definition ascending (l : list FrontierNode) : Prop := StronglySorted (λ x y, fn_address x ≤ fn_address y) l.

Lemma StronglySorted_sublist {A} (R : A → A → Prop) l k : l `sublist_of` k → StronglySorted R k → StronglySorted R l.
Proof.
  induction 1 as [|x l k Hs IH|x l k Hs IH]; intros Hk; [constructor|..];
    apply StronglySorted_inv in Hk as [Hk Hx]; [|by apply IH].
  constructor; [by apply IH|]. apply Forall_forall. intros y Hy.
  eapply Forall_forall; [exact Hx|]. by eapply elem_of_sublist.
Qed.

Section Sorted.
Context `{StdSort}.

Lemma sort_frontier_ascending frontier : ascending (sort_frontier frontier).
Proof.
  eapply StronglySorted_sublist; [apply std_unique_sublist|].
  pose proof (std_sort_sorted _ node_lt frontier node_lt_asym node_le_trans) as Hs.
  induction Hs as [|x l _ IH Hx]; constructor; [done|]. eapply Forall_impl; [exact Hx|]. cbn. intros y.
  unfold node_lt. destruct (Z.eqb_spec (fn_address y) (fn_address x)); cbn [negb]; [lia|]. intros ?%Z.ltb_ge. lia.
Qed.
Lemma node_eqb_true x y : node_eqb x y = true ↔ x = y.
Proof.
  unfold node_eqb. rewrite andb_true_iff, Z.eqb_eq, bool_decide_eq_true. destruct x, y; cbn. naive_solver.
Qed.
Lemma elem_of_sort_frontier x frontier : x ∈ sort_frontier frontier ↔ x ∈ frontier.
Proof.
  assert (x ∈ std_sort node_lt frontier ↔ x ∈ frontier) as <- by (by rewrite (std_sort_perm _ node_lt frontier)).
  split.
  - apply elem_of_std_unique.
  - intros Hx. destruct (std_unique_kept node_eqb x _ ltac:(intros y; by apply node_eqb_true) Hx) as (y & Hy & E).
    by apply node_eqb_true in E as <-.
Qed.
End Sorted.

(** ** The nodes a pointer reaches *)

Definition reached (pointer upper : Z) (nodes : list FrontierNode) : list FrontierNode :=
  filter (λ n, pointer ≤ fn_address n ≤ upper) nodes.

Lemma filter_none {A} (Q : A → Prop) `{∀ x, Decision (Q x)} l : Forall (λ x, ¬ Q x) l → filter Q l = [].
Proof. induction 1 as [|x l Hx _ IH]; [done|]. by rewrite filter_cons, decide_False. Qed.

Fixpoint take_up_to (upper : Z) (nodes : list FrontierNode) : list FrontierNode :=
  match nodes with [] => [] | n :: nodes => if upper <? fn_address n then [] else n :: take_up_to upper nodes end.

Lemma take_up_to_lower_bound pointer upper nodes :
  ascending nodes → take_up_to upper (lower_bound (λ n, fn_address n <? pointer) nodes) = reached pointer upper nodes.
Proof.
  unfold reached. induction 1 as [|n nodes Hs IH Hn]; [done|]. cbn [lower_bound].
  rewrite filter_cons. destruct (Z.ltb_spec (fn_address n) pointer).
  { rewrite decide_False by lia. exact IH. }
  assert (∀ l, Forall (λ y, fn_address n ≤ fn_address y) l → ascending l →
    take_up_to upper l = filter (λ n, pointer ≤ fn_address n ≤ upper) l) as Hall.
  { intros l Hl Hl2. induction Hl2 as [|m l Hl2 IHl Hm]; [done|]. apply Forall_cons in Hl as [Hl1 Hl].
    cbn [take_up_to]. rewrite filter_cons. destruct (Z.ltb_spec upper (fn_address m)).
    - rewrite decide_False by lia. symmetry. apply filter_none. eapply Forall_impl; [exact Hm|].
      intros y Hy. cbn in Hy. lia.
    - rewrite decide_True by lia. by rewrite IHl. }
  cbn [take_up_to]. destruct (Z.ltb_spec upper (fn_address n)).
  - rewrite decide_False by lia. symmetry. apply filter_none. eapply Forall_impl; [exact Hn|].
    intros y Hy. cbn in Hy. lia.
  - rewrite decide_True by lia. f_equal. by apply Hall.
Qed.

(** The parents of a storage cell. *)
Definition parents_at (storage pointer upper : Z) (nodes : list FrontierNode) : list FrontierNode :=
  (λ n, mkFrontierNode storage (fn_address n - pointer :: fn_offsets n)) <$> reached pointer upper nodes.

(** All of them are pushed, or the frontier is full of what came first. *)
Definition gathers (parents new : list FrontierNode) (full : bool) (parents' : list FrontierNode) : Prop :=
  if full then parents' `prefix_of` parents ++ new else parents' = parents ++ new.

Lemma gathers_nil parents : gathers parents [] false parents.
Proof. unfold gathers. by rewrite app_nil_r. Qed.
Lemma gathers_app parents new new' p1 full p2 :
  gathers parents new false p1 → gathers p1 new' full p2 → gathers parents (new ++ new') full p2.
Proof. unfold gathers. intros ->. by rewrite app_assoc. Qed.
Lemma gathers_full parents new new' p1 :
  gathers parents new true p1 → gathers parents (new ++ new') true p1.
Proof. unfold gathers. intros Hp. rewrite app_assoc. by apply prefix_app_r. Qed.
Lemma gathers_incl parents new full p n : gathers parents new full p → n ∈ p → n ∈ parents ∨ n ∈ new.
Proof.
  unfold gathers. intros Hg Hn. apply elem_of_app. destruct full; [|by subst].
  destruct Hg as [k ->]. apply elem_of_app. by left.
Qed.

Lemma push_parents_gathers storage pointer upper nodes parents full parents' :
  push_parents storage pointer upper nodes parents = (full, parents') →
  gathers parents ((λ n, mkFrontierNode storage (fn_address n - pointer :: fn_offsets n)) <$> take_up_to upper nodes)
    full parents'.
Proof.
  revert parents. induction nodes as [|n nodes IH]; intros parents; cbn [push_parents take_up_to].
  { intros [= <- <-]. apply gathers_nil. }
  destruct (upper <? fn_address n); [intros [= <- <-]; apply gathers_nil|]. cbv zeta.
  destruct (_ <=? _).
  - intros [= <- <-]. cbn [fmap list_fmap]. apply (gathers_full _ [_]). unfold gathers. done.
  - intros Hp%IH. cbn [fmap list_fmap]. eapply (gathers_app _ [_]); [|exact Hp]. done.
Qed.

Section Level.
Context {P : Type} `{IProcessMemory P} `{StdSort} (stop : nat → bool).
Context (options : PointerScanOptions) (psz al : Z) (mem : Z → Z) (nodes : list FrontierNode).
Context (Hpsz : psz = 4 ∨ psz = 8) (Hal : 0 < al) (Hnodes : ascending nodes).
Implicit Types st : PointerState P.

(** ** The reference *)

Definition pointer_at (a : Z) : Z := le_value (mem_bytes mem a psz).

(** The nodes that the pointer stored at [a] makes parents of. *)
Definition cell (a : Z) (n : FrontierNode) : Prop :=
  IsCanonicalUserPointer (pointer_at a) psz = true ∧
  n ∈ parents_at a (pointer_at a) (upper_bound_of options (pointer_at a)) nodes.
Definition in_cells (lo hi : Z) (n : FrontierNode) : Prop :=
  ∃ a, lo ≤ a < hi ∧ a `mod` al = 0 ∧ cell a n.

Definition from_cells (lo hi : Z) (parents parents' : list FrontierNode) : Prop :=
  ∀ n, n ∈ parents' → n ∈ parents ∨ in_cells lo hi n.
Definition covers (lo hi : Z) (parents parents' : list FrontierNode) : Prop :=
  parents ⊆ parents' ∧ ∀ n, in_cells lo hi n → n ∈ parents'.

Lemma in_cells_mono lo hi lo' hi' n : lo' ≤ lo → hi ≤ hi' → in_cells lo hi n → in_cells lo' hi' n.
Proof. intros H1 H2 (a & Ha & Hm & Hc). exists a. split; [lia|done]. Qed.
Lemma from_cells_refl lo hi parents : from_cells lo hi parents parents.
Proof. by left. Qed.
Lemma from_cells_trans lo hi l1 h1 l2 h2 p0 p1 p2 :
  from_cells l1 h1 p0 p1 → from_cells l2 h2 p1 p2 → lo ≤ l1 → h1 ≤ hi → lo ≤ l2 → h2 ≤ hi →
  from_cells lo hi p0 p2.
Proof.
  intros H1 H2 ? ? ? ? n [Hn|Hn]%H2; [apply H1 in Hn as [Hn|Hn]; [by left|]|]; right;
    (eapply in_cells_mono; [..|exact Hn]); lia.
Qed.
Lemma covers_trans lo mid hi p0 p1 p2 :
  covers lo mid p0 p1 → covers mid hi p1 p2 → covers lo hi p0 p2.
Proof.
  intros [H1 H2] [H3 H4]. split; [by etransitivity|]. intros n (a & Ha & Hm & Hc).
  destruct (Z.lt_ge_cases a mid).
  - apply H3, H2. exists a. split; [lia|done].
  - apply H4. exists a. split; [lia|done].
Qed.
Lemma covers_empty lo hi parents : hi ≤ lo → covers lo hi parents parents.
Proof. intros Hle. split; [done|]. intros n (a & Ha & _). lia. Qed.
Lemma covers_unaligned lo hi parents :
  (∀ a, lo ≤ a < hi → a `mod` al ≠ 0) → covers lo hi parents parents.
Proof. intros Hu. split; [done|]. intros n (a & Ha & Hm & _). by destruct (Hu a Ha). Qed.

(** One cell. *)
Lemma push_cell a parents full parents' :
  a `mod` al = 0 → IsCanonicalUserPointer (pointer_at a) psz = true →
  push_parents a (pointer_at a) (upper_bound_of options (pointer_at a))
    (lower_bound (λ node, fn_address node <? pointer_at a) nodes) parents = (full, parents') →
  from_cells a (a + 1) parents parents' ∧ (full = false → covers a (a + 1) parents parents').
Proof.
  intros Hm Hc Hp%push_parents_gathers. rewrite take_up_to_lower_bound in Hp by done.
  fold (parents_at a (pointer_at a) (upper_bound_of options (pointer_at a)) nodes) in Hp. split.
  - intros n Hn. destruct (gathers_incl _ _ _ _ _ Hp Hn) as [|Hin]; [by left|]. right.
    exists a. split; [lia|]. split; [done|]. by split.
  - intros ->. unfold gathers in Hp. subst parents'. split; [set_solver|].
    intros n (b & Hb & _ & _ & Hn). assert (b = a) as -> by lia. set_solver.
Qed.

(** ** One window *)

Lemma ReadPointer_mem wb n offset :
  0 ≤ offset → offset + psz ≤ n →
  ReadPointer (slice (mem_bytes mem wb n) offset psz) psz = pointer_at (wb + offset).
Proof.
  intros Ho Hn. rewrite slice_mem_bytes by lia. unfold ReadPointer, pointer_at.
  rewrite sizeZ_mem_bytes by lia.
  destruct Hpsz as [-> | ->]; cbn [Z.eqb Z.leb Z.compare Pos.eqb Pos.compare Pos.compare_cont andb];
    f_equal; apply take_ge; rewrite (length_of_sizeZ _ _ (sizeZ_mem_bytes mem _ _ ltac:(done))); done.
Qed.

Lemma window_loop_cells fuel wb n offset counter parents st r parents' st' :
  window_loop stop fuel options psz al nodes (mem_bytes mem wb n) wb offset counter parents st = (r, parents', st') →
  0 ≤ wb → 0 ≤ n → wb + n ≤ u64_max → 0 ≤ offset →
  (offset ≤ n - psz → (wb + offset) `mod` al = 0) →
  pt_memory st' = pt_memory st ∧
  (∀ full, r = Success full →
     from_cells (wb + offset) (wb + n - psz + 1) parents parents' ∧
     (full = false → covers (wb + offset) (wb + n - psz + 1) parents parents')) ∧
  ((∀ k, stop k = false) → Z.max 0 (n - psz - offset + 1) < Z.of_nat fuel → Ok r = true).
Proof.
  intros Hloop Hwb Hn Hmax. revert offset counter parents st Hloop.
  induction fuel as [|fuel IH]; intros offset counter parents st Hloop Ho Hmod.
  { cbn in Hloop. injection Hloop as <- <- <-. split; [done|]. split; [done|]. intros _ Hf. lia. }
  cbn [window_loop] in Hloop. rewrite sizeZ_mem_bytes in Hloop by lia.
  destruct (Z.ltb_spec (n - psz) offset) as [Hlast|Hlast].
  { injection Hloop as <- <- <-. split; [done|]. split; [|done]. intros full [= <-].
    split; [apply from_cells_refl|]. intros _. apply covers_empty. lia. }
  specialize (Hmod Hlast). destruct (_ && _) eqn:Hask in Hloop.
  { injection Hloop as <- <- <-. split; [done|]. split; [done|]. intros Hs. rewrite Hs, andb_false_r in Hask. done. }
  set (st1 := if Z.land counter 0x3FF =? 0 then polled st else st) in *.
  assert (pt_memory st1 = pt_memory st) as Em by (unfold st1; by destruct (_ =? 0)). clearbody st1.
  rewrite (u64_id (wb + offset)) in Hloop by (unfold is_u64; lia).
  rewrite ReadPointer_mem in Hloop by lia.
  (* the rest of the window *)
  assert (∀ parents1 st2, pt_memory st2 = pt_memory st →
    window_loop stop fuel options psz al nodes (mem_bytes mem wb n) wb (offset + al) (u64 (counter + 1)) parents1 st2
      = (r, parents', st') →
    from_cells (wb + offset) (wb + offset + 1) parents parents1 →
    covers (wb + offset) (wb + offset + 1) parents parents1 →
    pt_memory st' = pt_memory st ∧
    (∀ full, r = Success full →
       from_cells (wb + offset) (wb + n - psz + 1) parents parents' ∧
       (full = false → covers (wb + offset) (wb + n - psz + 1) parents parents')) ∧
    ((∀ k, stop k = false) → Z.max 0 (n - psz - offset + 1) < Z.of_nat (S fuel) → Ok r = true)) as Hrest.
  { intros parents1 st2 Em2 Hl Hf Hc. apply IH in Hl as (Hm & Hr & Ht); [|lia|].
    2:{ intros _. replace (wb + (offset + al)) with (wb + offset + 1 * al) by lia. by rewrite Z.mod_add by lia. }
    split; [congruence|]. split; [|intros Hs Hfu; apply Ht; [done|lia]].
    intros full Efull. destruct (Hr full Efull) as [Hf2 Hc2]. split.
    - eapply from_cells_trans; [exact Hf|exact Hf2|lia..].
    - intros Hff. specialize (Hc2 Hff). eapply covers_trans; [exact Hc|].
      destruct (Z.le_gt_cases (wb + (offset + al)) (wb + n - psz + 1)).
      + eapply covers_trans; [|exact Hc2]. apply covers_unaligned. intros a Ha.
        apply (between_multiples al (wb + offset)); [done|done|lia].
      + destruct Hc2 as [Hsub _]. split; [done|]. intros m (a & Ha & Hma & _). exfalso.
        apply (between_multiples al (wb + offset) a); [done|done|lia|done]. }
  destruct (IsCanonicalUserPointer (pointer_at (wb + offset)) psz) eqn:Hcan; cbn [negb] in Hloop.
  2:{ apply (Hrest parents st1); [done|done|apply from_cells_refl|].
      split; [done|]. intros m (a & Ha & _ & Hcell & _). assert (a = wb + offset) as -> by lia. congruence. }
  destruct (push_parents _ _ _ _ parents) as [full parents1] eqn:Hpush.
  apply push_cell in Hpush as [Hf Hc]; [|done|done]. destruct full.
  - injection Hloop as <- <- <-. split; [by rewrite <- Em|]. split; [|done]. intros full [= <-]. split; [|done].
    intros m Hm. destruct (Hf m Hm) as [|Hin]; [by left|]. right. eapply in_cells_mono; [..|exact Hin]; lia.
  - apply (Hrest parents1 st1); [done|done|done|by apply Hc].
Qed.

Lemma scan_window_cells wb n parents st r parents' st' :
  scan_window stop options psz al nodes (mem_bytes mem wb n) wb parents st = (r, parents', st') →
  0 ≤ wb → 0 ≤ n → wb + n ≤ u64_max →
  pt_memory st' = pt_memory st ∧
  (∀ full, r = Success full →
     from_cells wb (wb + n - psz + 1) parents parents' ∧
     (full = false → covers wb (wb + n - psz + 1) parents parents')) ∧
  ((∀ k, stop k = false) → Ok r = true).
Proof.
  intros Hscan Hwb Hn Hmax. unfold scan_window in Hscan. rewrite sizeZ_mem_bytes in Hscan by done.
  destruct (Z.ltb_spec n psz).
  { injection Hscan as <- <- <-. split; [done|]. split; [|done]. intros full [= <-].
    split; [apply from_cells_refl|]. intros _. apply covers_empty. lia. }
  set (rem := wb `mod` al) in *. assert (0 ≤ rem < al) as Hrem by (apply Z.mod_pos_bound; lia).
  set (first := if rem =? 0 then 0 else al - rem) in *. cbv zeta in Hscan.
  assert (0 ≤ first ∧ (wb + first) `mod` al = 0 ∧ (∀ a, wb ≤ a < wb + first → a `mod` al ≠ 0))
    as (Hfst & Hm & Hnone).
  { unfold first. pose proof (Z.div_mod wb al ltac:(lia)) as Hd. fold rem in Hd.
    destruct (Z.eqb_spec rem 0) as [E|E].
    - split; [lia|]. split; [by rewrite Z.add_0_r|lia].
    - split; [lia|]. split.
      + replace (wb + (al - rem)) with ((wb `div` al + 1) * al) by lia. apply Z.mod_mul. lia.
      + intros a Hr. apply (between_multiples al (wb - rem)); [lia| |lia].
        replace (wb - rem) with ((wb `div` al) * al) by lia. apply Z.mod_mul. lia. }
  clearbody first. apply window_loop_cells in Hscan as (Hmem & Hr & Ht); [|done..].
  split; [done|]. split.
  - intros full Efull. destruct (Hr full Efull) as [Hf Hc]. split.
    + intros m Hm'. destruct (Hf m Hm') as [|Hin]; [by left|]. right. eapply in_cells_mono; [..|exact Hin]; lia.
    + intros Hff. destruct (Hc Hff) as [Hsub Hcov]. split; [done|]. intros m (a & Ha & Hma & Hcell).
      apply Hcov. exists a. split; [|done]. destruct (Z.lt_ge_cases a (wb + first)); [|lia].
      by destruct (Hnone a ltac:(lia)).
  - intros Hs. apply Ht; [done|].
    assert (List.length (mem_bytes mem wb n) = Z.to_nat n) as -> by (apply length_of_sizeZ, sizeZ_mem_bytes; lia).
    lia.
Qed.

(** ** One region *)

Context (inv : P → Prop).

(** What a read returns is what memory holds, however much of it. *)
Definition reads_truly : Prop :=
  ∀ a n p r p', inv p → Read a n p = (r, p') →
    inv p' ∧ ∀ bytes, r = Success bytes → sizeZ bytes ≤ n → bytes = mem_bytes mem a (sizeZ bytes).
(** Every read inside the range works. *)
Definition reads_fully (lo hi : Z) : Prop :=
  ∀ a n p, inv p → lo ≤ a → 0 < n ≤ u32_max → a + n ≤ hi →
    (Read a n p).1 = Success (mem_bytes mem a n).

Lemma next_carry_mem k cursor request :
  0 ≤ k → 0 < request →
  let k' := Z.min (psz - 1) (k + request) in
  next_carry psz request (mem_bytes mem cursor request) (mem_bytes mem (cursor - k) (k + request)) =
    mem_bytes mem (cursor + request - k') k'.
Proof.
  intros Hk Hr k'. unfold next_carry. rewrite !sizeZ_mem_bytes, Z.eqb_refl by lia.
  rewrite bool_decide_false.
  2:{ intros E. apply (f_equal sizeZ) in E. rewrite sizeZ_mem_bytes in E by lia. unfold sizeZ in E. simpl in E. lia. }
  cbn [negb andb]. fold k'. rewrite mem_bytes_drop by lia. f_equal; lia.
Qed.

Lemma chunk_loop_sound fuel chunk rend base cursor k parents st r parents' st' :
  reads_truly →
  chunk_loop stop fuel options psz al chunk nodes rend cursor (mem_bytes mem (cursor - k) k) parents st
    = (r, parents', st') →
  inv (pt_memory st) → 0 ≤ base → base ≤ cursor - k → 0 ≤ k → rend ≤ u64_max → 0 < chunk →
  inv (pt_memory st') ∧ ∀ full, r = Success full → from_cells base (rend - psz + 1) parents parents'.
Proof.
  intros Hread Hloop Hinv Hbase. revert cursor k parents st Hloop Hinv.
  induction fuel as [|fuel IH]; intros cursor k parents st Hloop Hinv Hcur Hk Hend Hch.
  { cbn in Hloop. injection Hloop as <- <- <-. done. }
  cbn [chunk_loop] in Hloop. destruct (Z.leb_spec rend cursor).
  { injection Hloop as <- <- <-. split; [done|]. intros full [= <-]. apply from_cells_refl. }
  destruct (stop _); [injection Hloop as <- <- <-; done|].
  set (request := Z.min (rend - cursor) (Z.min chunk u32_max)) in *.
  rewrite (u32_id request) in Hloop by (unfold is_u32; lia).
  set (st1 := with_report _ _) in Hloop. change (pt_memory st1) with (pt_memory st) in Hloop. clearbody st1.
  destruct (Read cursor request (pt_memory st)) as [data p] eqn:Hr.
  destruct (Hread _ _ _ _ _ Hinv Hr) as [Hinv' Hbytes].
  rewrite (u64_id (cursor + request)) in Hloop by (unfold is_u64; lia).
  destruct data as [bytes|e].
  2:{ apply (IH _ 0) in Hloop; [done|done|lia..]. }
  destruct (Z.ltb_spec request (sizeZ bytes)); [injection Hloop as <- <- <-; done|].
  specialize (Hbytes bytes eq_refl ltac:(lia)). set (m := sizeZ bytes) in *.
  assert (0 ≤ m) by apply sizeZ_nonneg. clearbody m. rewrite Hbytes in Hloop.
  rewrite <- mem_bytes_prepend, sizeZ_mem_bytes in Hloop by lia.
  rewrite (u64_id (cursor - k)) in Hloop by (unfold is_u64; lia).
  set (st2 := with_progress _ _) in Hloop.
  assert (pt_memory st2 = p) as Em2 by done. clearbody st2.
  destruct (scan_window _ _ _ _ _ _ _ _ st2) as [[r3 parents3] st3] eqn:Hw.
  apply scan_window_cells in Hw as (Hm3 & Hf3 & _); [|lia..].
  destruct r3 as [[]|e3].
  - injection Hloop as <- <- <-. split; [by rewrite Hm3, Em2|]. intros full [= <-].
    destruct (Hf3 true eq_refl) as [Hf _]. intros n Hn. destruct (Hf n Hn) as [|Hin]; [by left|]. right.
    eapply in_cells_mono; [..|exact Hin]; lia.
  - destruct (Hf3 false eq_refl) as [Hf _].
    assert (∃ k', next_carry psz request (mem_bytes mem cursor m) (mem_bytes mem (cursor - k) (k + m)) =
      mem_bytes mem (cursor + request - k') k' ∧ 0 ≤ k' ≤ k + request) as (k' & Ek & Hk').
    { destruct (decide (m = request)) as [->|Hne].
      - exists (Z.min (psz - 1) (k + request)). split; [apply next_carry_mem; lia|]. destruct Hpsz as [-> | ->]; lia.
      - exists 0. unfold next_carry. rewrite (sizeZ_mem_bytes mem cursor m), (proj2 (Z.eqb_neq _ _) Hne) by lia.
        split; [done|lia]. }
    rewrite Ek in Hloop. apply IH in Hloop as [Hi Hs]; [|change (inv (pt_memory st3)); by rewrite Hm3, Em2|lia..].
    split; [done|]. intros full Efull. eapply from_cells_trans; [exact Hf|by eapply Hs|lia..].
  - injection Hloop as <- <- <-. split; [by rewrite Hm3, Em2|done].
Qed.

Lemma chunk_loop_complete fuel chunk rend base cursor k parents st r parents' st' :
  reads_truly → reads_fully base rend → (∀ i, stop i = false) →
  chunk_loop stop fuel options psz al chunk nodes rend cursor (mem_bytes mem (cursor - k) k) parents st
    = (r, parents', st') →
  inv (pt_memory st) → 0 ≤ base ≤ cursor → k = Z.min (psz - 1) (cursor - base) → rend ≤ u64_max → 0 < chunk →
  Z.max 0 (rend - cursor) ≤ (Z.of_nat fuel - 1) * Z.min chunk u32_max →
  Ok r = true ∧ (r = Success false → covers (cursor - k) (rend - psz + 1) parents parents').
Proof.
  intros Hread Hfull Hstop Hloop Hinv. revert cursor k parents st Hloop Hinv.
  induction fuel as [|fuel IH]; intros cursor k parents st Hloop Hinv Hcur Hk Hend Hch Hfuel.
  { change (Z.of_nat 0) with 0 in Hfuel. exfalso. nia. }
  cbn [chunk_loop] in Hloop. destruct (Z.leb_spec rend cursor).
  { injection Hloop as <- <- <-. split; [done|]. intros _. apply covers_empty. lia. }
  rewrite Hstop in Hloop.
  set (request := Z.min (rend - cursor) (Z.min chunk u32_max)) in *.
  rewrite (u32_id request) in Hloop by (unfold is_u32; lia).
  set (st1 := with_report _ _) in Hloop. change (pt_memory st1) with (pt_memory st) in Hloop. clearbody st1.
  pose proof (Hfull cursor request (pt_memory st) Hinv ltac:(lia) ltac:(lia) ltac:(lia)) as Hdata.
  destruct (Read cursor request (pt_memory st)) as [data p] eqn:Hr. cbn [fst] in Hdata. subst data.
  destruct (Hread _ _ _ _ _ Hinv Hr) as [Hinv' _].
  rewrite (u64_id (cursor + request)) in Hloop by (unfold is_u64; lia).
  rewrite <- mem_bytes_prepend, !sizeZ_mem_bytes, Z.ltb_irrefl in Hloop by lia.
  rewrite (u64_id (cursor - k)) in Hloop by (unfold is_u64; lia).
  set (st2 := with_progress _ _) in Hloop. assert (pt_memory st2 = p) as Em2 by done. clearbody st2.
  destruct (scan_window _ _ _ _ _ _ _ _ st2) as [[r3 parents3] st3] eqn:Hw.
  apply scan_window_cells in Hw as (Hm3 & Hf3 & Hok); [|lia..]. specialize (Hok Hstop).
  destruct r3 as [[]|e3]; [by injection Hloop as <- <- <-| |done].
  destruct (Hf3 false eq_refl) as [_ Hcov]. specialize (Hcov eq_refl).
  rewrite next_carry_mem in Hloop by lia. cbv zeta in Hloop. set (k' := Z.min (psz - 1) (k + request)) in *.
  apply IH in Hloop as [Hr4 Hc4]; [|change (inv (pt_memory st3)); by rewrite Hm3, Em2|lia|lia|done|done|].
  2:{ rewrite Nat2Z.inj_succ in Hfuel. assert (1 ≤ Z.of_nat fuel) by nia. unfold request.
      destruct (Z.min_spec (rend - cursor) (Z.min chunk u32_max)) as [[_ ->]|[_ ->]]; nia. }
  split; [done|]. intros ->. specialize (Hc4 eq_refl). destruct Hcov as [Hsub Hcov], Hc4 as [Hsub4 Hc4].
  split; [by etransitivity|]. intros n (a & Ha & Hma & Hcell).
  destruct (Z.lt_ge_cases a (cursor + request - k')).
  - apply Hsub4, Hcov. exists a. split; [lia|done].
  - apply Hc4. exists a. split; [lia|done].
Qed.
End Level.
