(* ===== verification/PointerScanTheorems.v ===== *)
(** The pointer scan as a whole: every path it returns leads to the target, and it returns
    every path there is when nothing fails and nothing is cut off.

    The pointer scan at a concrete process, and how it reports a stop after a failed read. *)

From stdpp Require Import list sorting fin_sets.
From S2P Require Import Prelude CppStd Common ProcessMemory PointerScanner PointerScanLevel.

#[local] Open Scope Z_scope.

Section Scan.
Context {P : Type} `{IProcessMemory P} `{StdSort} (stop : nat → bool).
Context (options : PointerScanOptions) (psz : Z) (mem : Z → Z) (all : list MemoryRegion) (inv : P → Prop).
Implicit Types st : PointerState P.

Definition scan_alignment : Z := if po_aligned_only options then psz else 1.

(** ** The reference *)

(** An aligned cell inside a region the scan uses. *)
Definition storable (a : Z) : Prop :=
  a `mod` scan_alignment = 0 ∧
  ∃ region, region ∈ all ∧ region_used options region = true ∧
    region_base region ≤ a ∧ a + psz ≤ region_limit region.

(** A pointer in such a cell, and the offset from it to the next address. *)
Definition points (a o : Z) : Prop :=
  storable a ∧ IsCanonicalUserPointer (pointer_at psz mem a) psz = true ∧ 0 ≤ o ≤ po_max_offset options.

(** Reading the pointer at an address, adding an offset, and so on, ends at the target. *)
Inductive leads (target : Z) : Z → list Z → Prop :=
  | leads_here : leads target target []
  | leads_through a o offs :
      points a o → leads target (pointer_at psz mem a + o) offs → leads target a (o :: offs).

(** The process: a snapshot of its memory, its regions and its pointer size. *)
Record process_stable : Prop := {
  ps_reads : reads_truly mem inv;
  ps_regions p r p' : inv p → Regions p = (r, p') → inv p' ∧ ∀ l, r = Success l → l = all;
  ps_modules p r p' : inv p → Modules p = (r, p') → inv p';
  ps_pointer p : inv p → PointerSize p = psz;
  ps_typed region : region ∈ all → 0 ≤ region_base region ≤ u64_max ∧ 0 ≤ region_size region
}.

Context (Hproc : process_stable) (Hpsz : psz = 4 ∨ psz = 8).
Context (Hoff : 0 ≤ po_max_offset options ≤ kMaxOffset).

Lemma scan_alignment_pos : 0 < scan_alignment.
Proof. unfold scan_alignment. destruct (po_aligned_only options); lia. Qed.
Lemma region_limit_max region : 0 ≤ region_base region ≤ u64_max → 0 ≤ region_size region →
  region_limit region ≤ u64_max ∧ region_limit region - region_base region ≤ region_size region.
Proof. intros Hb Hs. unfold region_limit. destruct (Z.ltb_spec (u64_max - region_base region) (region_size region)); lia. Qed.

(** A parent of a node of the frontier. *)
Definition parent_of (frontier : list FrontierNode) (n : FrontierNode) : Prop :=
  ∃ a o offs, n = mkFrontierNode a (o :: offs) ∧ points a o ∧
    mkFrontierNode (pointer_at psz mem a + o) offs ∈ frontier.

Lemma upper_canonical a :
  IsCanonicalUserPointer (pointer_at psz mem a) psz = true →
  upper_bound_of options (pointer_at psz mem a) = pointer_at psz mem a + po_max_offset options.
Proof.
  intros Hc. assert (pointer_at psz mem a ≤ 0x00007FFFFFFFFFFF) as Hp.
  { unfold IsCanonicalUserPointer in Hc. destruct (psz =? 4); apply andb_true_iff in Hc as [_ Hc%Z.leb_le]; lia. }
  unfold upper_bound_of, kMaxOffset in *. rewrite (proj2 (Z.ltb_ge _ _)) by lia. done.
Qed.

Lemma in_cells_parent region frontier n :
  region ∈ all → region_used options region = true →
  in_cells options psz scan_alignment mem (sort_frontier frontier) (region_base region)
    (region_limit region - psz + 1) n →
  parent_of frontier n.
Proof.
  intros Hin Hu (a & Ha & Hm & Hc & Hn). unfold parents_at, reached in Hn.
  apply list_elem_of_fmap in Hn as (child & -> & [Hr Hchild]%list_elem_of_filter).
  rewrite upper_canonical in Hr by done. rewrite elem_of_sort_frontier in Hchild.
  exists a, (fn_address child - pointer_at psz mem a), (fn_offsets child). split; [done|]. split.
  - split; [|split; [done|lia]]. split; [done|]. exists region. split_and!; [done|done|lia|lia].
  - replace (pointer_at psz mem a + (fn_address child - pointer_at psz mem a)) with (fn_address child) by lia.
    by destruct child.
Qed.
Lemma parent_in_cells frontier n :
  parent_of frontier n →
  ∃ region, region ∈ all ∧ region_used options region = true ∧
    in_cells options psz scan_alignment mem (sort_frontier frontier) (region_base region)
      (region_limit region - psz + 1) n.
Proof.
  intros (a & o & offs & -> & ((Hm & region & Hin & Hu & Hlo & Hhi) & Hc & Ho) & Hchild).
  exists region. split; [done|]. split; [done|]. exists a. split; [lia|]. split; [done|]. split; [done|].
  apply list_elem_of_fmap. exists (mkFrontierNode (pointer_at psz mem a + o) offs). split.
  - cbn. do 2 f_equal. lia.
  - apply list_elem_of_filter. rewrite upper_canonical by done. cbn. split; [lia|].
    by apply elem_of_sort_frontier.
Qed.

(** ** One level *)

Lemma region_loop_sound chunk frontier regions parents st r full st' :
  0 < chunk → (∀ region, region ∈ regions → region ∈ all ∧ region_used options region = true) →
  region_loop stop options psz scan_alignment chunk (sort_frontier frontier) regions parents st = (r, full, st') →
  inv (pt_memory st) →
  inv (pt_memory st') ∧ ∀ out, r = Success out → ∀ n, n ∈ out → n ∈ parents ∨ parent_of frontier n.
Proof.
  intros Hch. revert parents st. induction regions as [|region regions IH]; intros parents st Hregs; cbn [region_loop].
  { intros [= <- <- <-] Hi. split; [done|]. intros out [= <-]. by left. }
  destruct (Hregs region ltac:(left)) as [Hin Hu]. destruct (ps_typed Hproc region Hin) as [Hb Hs].
  destruct (region_limit_max region Hb Hs) as [Hlim _].
  destruct (chunk_loop _ _ _ _ _ _ _ _ _ _ _ st) as [[r1 parents1] st1] eqn:Hc. intros Hl Hi.
  assert (inv (pt_memory st1) ∧ ∀ full, r1 = Success full → ∀ n, n ∈ parents1 → n ∈ parents ∨ parent_of frontier n)
    as [Hi1 Hp1].
  { pose proof (chunk_loop_sound stop options psz scan_alignment mem _ Hpsz scan_alignment_pos
      (sort_frontier_ascending frontier) inv _ chunk (region_limit region) (region_base region) (region_base region)
      0 parents st r1 parents1 st1 (ps_reads Hproc) Hc Hi ltac:(lia) ltac:(lia) ltac:(lia) Hlim Hch) as [Hi1 Hs1].
    split; [done|]. intros f Ef n Hn. destruct (Hs1 f Ef n Hn) as [|Hcell]; [by left|].
    right. by eapply in_cells_parent. }
  destruct r1 as [[]|e1].
  - injection Hl as <- <- <-. split; [done|]. intros out [= <-]. by eapply Hp1.
  - apply IH in Hl as [Hi2 Hp2]; [|intros q Hq; apply Hregs; by right|done]. split; [done|].
    intros out Eout n Hn. destruct (Hp2 out Eout n Hn) as [Hn1|]; [by eapply Hp1|by right].
  - injection Hl as <- <- <-. split; [done|]. intros out [=].
Qed.

(** Nothing fails: every read inside a used region works and nobody stops the scan. *)
Record undisturbed : Prop := {
  un_stop i : stop i = false;
  un_reads region : region ∈ all → region_used options region = true →
    reads_fully mem inv (region_base region) (region_limit region);
  un_regions p : inv p → (Regions p).1 = Success all
}.

Lemma region_loop_complete chunk frontier regions parents st r full st' :
  undisturbed → 0 < chunk →
  (∀ region, region ∈ regions → region ∈ all ∧ region_used options region = true) →
  region_loop stop options psz scan_alignment chunk (sort_frontier frontier) regions parents st = (r, full, st') →
  inv (pt_memory st) →
  ∃ out, r = Success out ∧
    (full = false → parents ⊆ out ∧ ∀ region n, region ∈ regions →
       in_cells options psz scan_alignment mem (sort_frontier frontier) (region_base region)
         (region_limit region - psz + 1) n → n ∈ out).
Proof.
  intros Hun Hch. revert parents st. induction regions as [|region regions IH]; intros parents st Hregs; cbn [region_loop].
  { intros [= <- <- <-] Hi. exists parents. split; [done|]. intros _. split; [done|]. by intros ? ? ?%not_elem_of_nil. }
  destruct (Hregs region ltac:(left)) as [Hin Hu]. destruct (ps_typed Hproc region Hin) as [Hb Hs].
  destruct (region_limit_max region Hb Hs) as [Hlim Hlen].
  set (fuel := Z.to_nat _).
  destruct (chunk_loop _ fuel _ _ _ _ _ _ _ _ _ st) as [[r1 parents1] st1] eqn:Hc. intros Hl Hi.
  pose proof (chunk_loop_sound stop options psz scan_alignment mem _ Hpsz scan_alignment_pos
    (sort_frontier_ascending frontier) inv _ chunk (region_limit region) (region_base region) (region_base region)
    0 parents st r1 parents1 st1 (ps_reads Hproc) Hc Hi ltac:(lia) ltac:(lia) ltac:(lia) Hlim Hch) as [Hi1 _].
  destruct (chunk_loop_complete stop options psz scan_alignment mem _ Hpsz scan_alignment_pos
    (sort_frontier_ascending frontier) inv fuel chunk (region_limit region) (region_base region) (region_base region)
    0 parents st r1 parents1 st1 (ps_reads Hproc) (un_reads Hun region Hin Hu) (un_stop Hun) Hc Hi)
    as [Hok Hcov]; [lia|lia|done|done| |].
  { unfold fuel. set (m := Z.min chunk u32_max). assert (0 < m) by lia.
    assert (0 ≤ region_size region / m) by (apply Z.div_pos; lia).
    pose proof (Z.div_mod (region_size region) m ltac:(lia)).
    pose proof (Z.mod_pos_bound (region_size region) m ltac:(lia)). nia. }
  destruct r1 as [[]|e1]; [injection Hl as <- <- <-; by eexists| |done].
  apply IH in Hl as (out & -> & Hout); [|intros q Hq; apply Hregs; by right|done].
  exists out. split; [done|]. intros Hf. destruct (Hout Hf) as [Hsub Hall]. destruct (Hcov eq_refl) as [Hsub1 Hcov1].
  split; [by etransitivity|]. intros q n [->|Hq]%elem_of_cons Hcell; [|by eapply Hall].
  apply Hsub, Hcov1. by rewrite Z.sub_0_r.
Qed.

Lemma used_regions : ∀ region, region ∈ filter (λ region, region_used options region = true) all →
  region ∈ all ∧ region_used options region = true.
Proof. intros region [Hu Hin]%list_elem_of_filter. done. Qed.

Lemma FindParents_sound frontier st r full st' :
  FindParents stop frontier options st = (r, full, st') → inv (pt_memory st) →
  inv (pt_memory st') ∧ ∀ out, r = Success out → ∀ n, n ∈ out → parent_of frontier n.
Proof.
  unfold FindParents. intros Hf Hi. destruct (Regions (pt_memory st)) as [regions p] eqn:Hr.
  destruct (ps_regions Hproc _ _ _ Hi Hr) as [Hip Hall]. destruct regions as [l|e].
  2:{ injection Hf as <- <- <-. done. }
  rewrite (Hall l eq_refl) in Hf. cbv zeta in Hf. cbn [pt_memory] in Hf.
  set (st1 := show _) in Hf. change (pt_memory st1) with p in Hf. rewrite (ps_pointer Hproc p Hip) in Hf.
  fold scan_alignment in Hf.
  apply region_loop_sound in Hf as [Hi1 Hout]; [|lia|exact used_regions|done].
  split; [done|]. intros out Eout n Hn. destruct (Hout out Eout n Hn) as [Hnil|]; [|done].
  by apply not_elem_of_nil in Hnil.
Qed.

Lemma FindParents_complete frontier st r full st' :
  undisturbed → FindParents stop frontier options st = (r, full, st') → inv (pt_memory st) →
  ∃ out, r = Success out ∧ (full = false → ∀ n, parent_of frontier n → n ∈ out).
Proof.
  unfold FindParents. intros Hun Hf Hi. pose proof (un_regions Hun _ Hi) as Hrs.
  destruct (Regions (pt_memory st)) as [regions p] eqn:Hr. cbn [fst] in Hrs. subst regions.
  destruct (ps_regions Hproc _ _ _ Hi Hr) as [Hip _]. cbv zeta in Hf. cbn [pt_memory] in Hf.
  set (st1 := show _) in Hf. change (pt_memory st1) with p in Hf. rewrite (ps_pointer Hproc p Hip) in Hf.
  fold scan_alignment in Hf.
  apply region_loop_complete in Hf as (out & -> & Hout); [|done|lia|exact used_regions|done].
  exists out. split; [done|]. intros Hff n (region & Hin & Hu & Hcell)%parent_in_cells.
  destruct (Hout Hff) as [_ Hall]. eapply Hall; [|exact Hcell]. by apply list_elem_of_filter.
Qed.

(** ** All levels *)

Context (target : Z) (modules : list ProcessModule).

Definition node_leads (depth : Z) (n : FrontierNode) : Prop :=
  leads target (fn_address n) (fn_offsets n) ∧ sizeZ (fn_offsets n) = depth.
(** A path that leads to the target, described as the modules say. *)
Definition path_ok (depth : Z) (path : PointerPath) : Prop :=
  leads target (pp_root_address path) (pp_offsets path) ∧ 1 ≤ sizeZ (pp_offsets path) ≤ depth ∧
  path = make_path target modules (mkFrontierNode (pp_root_address path) (pp_offsets path)) ∧
  (po_static_roots_only options = true →
   in_module modules (mkFrontierNode (pp_root_address path) (pp_offsets path)) = true).

Lemma parent_leads depth frontier n :
  (∀ n, n ∈ frontier → node_leads depth n) → parent_of frontier n → node_leads (depth + 1) n.
Proof.
  intros Hf (a & o & offs & -> & Hp & Hchild). destruct (Hf _ Hchild) as [Hl Hs]. cbn in *.
  split; [by constructor|]. cbn. rewrite sizeZ_cons. lia.
Qed.
Lemma leads_parent depth frontier n :
  0 ≤ depth → (∀ n, node_leads depth n → n ∈ frontier) → node_leads (depth + 1) n → parent_of frontier n.
Proof.
  intros Hd Hf [Hl Hs]. destruct n as [a offs]. cbn in *. destruct Hl as [|a o offs Hp Hl].
  { unfold sizeZ in Hs. simpl in Hs. lia. }
  exists a, o, offs. split; [done|]. split; [done|]. apply Hf. split; [done|]. cbn. rewrite sizeZ_cons in Hs. lia.
Qed.

Lemma make_path_root node :
  pp_root_address (make_path target modules node) = fn_address node ∧
  pp_offsets (make_path target modules node) = fn_offsets node ∧
  pp_resolved_address (make_path target modules node) = target.
Proof. unfold make_path. by destruct (list_find _ _) as [[? ?]|]. Qed.

(** The paths of a level are those of its nodes. *)
Lemma push_paths_spec nodes results full results' :
  push_paths target options modules nodes results = (full, results') →
  (∀ path, path ∈ results' → path ∈ results ∨ ∃ n, n ∈ nodes ∧ path = make_path target modules n ∧
     (po_static_roots_only options = true → in_module modules n = true)) ∧
  (full = false → results ⊆ results' ∧ ∀ n, n ∈ nodes →
     (po_static_roots_only options = true → in_module modules n = true) → make_path target modules n ∈ results').
Proof.
  revert results. induction nodes as [|node nodes IH]; intros results; cbn [push_paths].
  { intros [= <- <-]. split; [by left|]. intros _. split; [done|]. by intros ? ?%not_elem_of_nil. }
  destruct (_ && _) eqn:Hskip.
  - intros [Hs Hc]%IH. split.
    + intros path Hp. destruct (Hs path Hp) as [|(n & Hn & Hx)]; [by left|]. right. exists n. split; [by right|done].
    + intros Hf. destruct (Hc Hf) as [Hsub Hall]. split; [done|]. intros n [->|Hn]%elem_of_cons Hst; [|by apply Hall].
      apply andb_true_iff in Hskip as [H1 H2%negb_true_iff]. rewrite Hst in H2; done.
  - assert (po_static_roots_only options = true → in_module modules node = true) as Hst.
    { intros E. rewrite E in Hskip. cbn in Hskip. by apply negb_false_iff in Hskip. }
    destruct (_ <=? _).
    + intros [= <- <-]. split; [|done]. intros path [Hp|Hp%list_elem_of_singleton]%elem_of_app; [by left|].
      right. exists node. split; [left|done].
    + intros [Hs Hc]%IH. split.
      * intros path Hp. destruct (Hs path Hp) as [[Hr|Hr%list_elem_of_singleton]%elem_of_app|(n & Hn & Hx)]; [by left|..].
        -- right. exists node. split; [left|done].
        -- right. exists n. split; [by right|done].
      * intros Hf. destruct (Hc Hf) as [Hsub Hall]. split; [set_solver|].
        intros n [->|Hn]%elem_of_cons Hsn; [|by apply Hall]. apply Hsub, elem_of_app. right. by left.
Qed.

Lemma depth_loop_sound last rounds depth frontier results truncated st r st' :
  depth - 1 + Z.of_nat rounds = last → 1 ≤ depth →
  (∀ n, n ∈ frontier → node_leads (depth - 1) n) → (∀ path, path ∈ results → path_ok last path) →
  depth_loop stop rounds depth target options modules frontier results truncated st = (r, st') →
  inv (pt_memory st) →
  ∀ out t, r = Success (out, t) → ∀ path, path ∈ out → path_ok last path.
Proof.
  revert depth frontier results truncated st. induction rounds as [|rounds IH];
    intros depth frontier results truncated st Hlast Hd Hf Hr; cbn [depth_loop].
  { intros [= <- <-] _ out t [= <- <-]. done. }
  destruct (stop _); [by intros [= <- <-]|].
  set (st1 := polled st <| pt_progress := _ |>). intros Hl Hi.
  destruct (FindParents stop frontier options st1) as [[r1 full1] st2] eqn:Hp.
  apply FindParents_sound in Hp as [Hi2 Hout]; [|done]. destruct r1 as [out1|e1]; [|injection Hl as <- <-; done].
  assert (∀ n, n ∈ out1 → node_leads depth n) as Hn1.
  { intros n Hn. replace depth with (depth - 1 + 1) by lia. eapply parent_leads; [exact Hf|]. by eapply Hout. }
  cbv zeta in Hl. case_bool_decide; [injection Hl as <- <-; by intros out t [= <- <-]|].
  destruct (push_paths _ _ _ out1 results) as [full2 results2] eqn:Hpush. apply push_paths_spec in Hpush as [Hs _].
  assert (∀ path, path ∈ results2 → path_ok last path) as Hr2.
  { intros path Hin. destruct (Hs path Hin) as [|(n & Hn & -> & Hst)]; [by apply Hr|].
    destruct (make_path_root n) as (E1 & E2 & _). destruct (Hn1 n Hn) as [Hlead Hsize].
    unfold path_ok. rewrite E1, E2. split; [done|]. split; [lia|]. by destruct n. }
  destruct full2; [injection Hl as <- <-; by intros out t [= <- <-]|].
  refine (IH _ _ _ _ _ _ _ _ Hr2 Hl _); [lia|lia| |done].
  intros n Hn. replace (depth + 1 - 1) with depth by lia. by apply Hn1.
Qed.

Lemma depth_loop_ok rounds depth frontier results truncated st r st' :
  undisturbed →
  depth_loop stop rounds depth target options modules frontier results truncated st = (r, st') →
  inv (pt_memory st) → Ok r = true.
Proof.
  intros Hun. revert depth frontier results truncated st. induction rounds as [|rounds IH];
    intros depth frontier results truncated st; cbn [depth_loop]; [by intros [= <- <-]|].
  rewrite (un_stop Hun). set (st1 := polled st <| pt_progress := _ |>). intros Hl Hi.
  destruct (FindParents stop frontier options st1) as [[r1 full1] st2] eqn:Hp.
  pose proof Hp as [Hi2 _]%FindParents_sound; [|done].
  apply FindParents_complete in Hp as (out1 & -> & _); [|done|done]. cbv zeta in Hl.
  case_bool_decide; [by injection Hl as <- <-|].
  destruct (push_paths _ _ _ out1 results) as [[] results2]; [by injection Hl as <- <-|]. by apply IH in Hl.
Qed.

(** What was cut off once stays so. *)
Lemma depth_loop_flag rounds depth frontier results truncated st out st' :
  depth_loop stop rounds depth target options modules frontier results truncated st = (Success (out, false), st') →
  truncated = false.
Proof.
  revert depth frontier results truncated st. induction rounds as [|rounds IH];
    intros depth frontier results truncated st; cbn [depth_loop]; [by intros [= <- <- <-]|].
  destruct (stop _); [done|]. destruct (FindParents _ _ _ _) as [[[out1|] full1] st2]; [|done]. cbv zeta.
  case_bool_decide; [by intros [= <- [-> _]%orb_false_iff <-]|].
  destruct (push_paths _ _ _ out1 results) as [[] results2]; [done|]. by intros [-> _]%IH%orb_false_iff.
Qed.

Lemma depth_loop_complete last rounds depth frontier results truncated st out st' :
  undisturbed → depth - 1 + Z.of_nat rounds = last → 1 ≤ depth →
  (∀ n, node_leads (depth - 1) n → n ∈ frontier) →
  depth_loop stop rounds depth target options modules frontier results truncated st = (Success (out, false), st') →
  inv (pt_memory st) →
  results ⊆ out ∧ ∀ d n, depth ≤ d ≤ last → node_leads d n →
    (po_static_roots_only options = true → in_module modules n = true) → make_path target modules n ∈ out.
Proof.
  intros Hun. revert depth frontier results truncated st. induction rounds as [|rounds IH];
    intros depth frontier results truncated st Hlast Hd Hf; cbn [depth_loop].
  { intros [= <- -> <-] _. split; [done|]. lia. }
  rewrite (un_stop Hun). set (st1 := polled st <| pt_progress := _ |>). intros Hl Hi.
  destruct (FindParents stop frontier options st1) as [[r1 full1] st2] eqn:Hp.
  pose proof Hp as [Hi2 _]%FindParents_sound; [|done].
  apply FindParents_complete in Hp as (out1 & -> & Hout); [|done|done].
  assert (full1 = false → ∀ n, node_leads depth n → n ∈ out1) as Hn1.
  { intros Hff n Hn. apply Hout; [done|]. apply (leads_parent (depth - 1)); [lia|done|].
    by replace (depth - 1 + 1) with depth by lia. }
  cbv zeta in Hl. case_bool_decide as Hempty.
  { injection Hl as <- [_ Hff]%orb_false_iff _. split; [done|]. intros d n Hdn Hlead _. exfalso.
    specialize (Hn1 Hff). rewrite Hempty in Hn1. clear -Hn1 Hdn Hlead Hd.
    assert (∀ m a offs, leads target a offs → sizeZ offs = depth + Z.of_nat m → False) as Hno.
    { induction m as [|m IHm]; intros a offs Hl Hs.
      - apply (not_elem_of_nil (mkFrontierNode a offs)), Hn1. split; [done|]. cbn. lia.
      - destruct Hl as [|a o offs _ Hl]; [unfold sizeZ in Hs; simpl in Hs; lia|].
        rewrite sizeZ_cons in Hs. apply (IHm _ _ Hl). lia. }
    destruct Hlead as [Hlead Hsize]. apply (Hno (Z.to_nat (d - depth)) _ _ Hlead). lia. }
  destruct (push_paths _ _ _ out1 results) as [full2 results2] eqn:Hpush. apply push_paths_spec in Hpush as [_ Hc].
  destruct full2; [done|]. destruct (Hc eq_refl) as [Hsub Hall].
  pose proof Hl as [_ Hff]%depth_loop_flag%orb_false_iff. specialize (Hn1 Hff).
  apply IH in Hl as [Hsub2 Hall2]; [|lia|lia| |done].
  2:{ intros n Hn. apply Hn1. by replace (depth + 1 - 1) with depth in Hn by lia. }
  split; [by etransitivity|]. intros d n Hdn Hlead Hst.
  destruct (decide (d = depth)) as [->|Hne]; [|apply (Hall2 d); [lia|done|done]].
  apply Hsub2, Hall; [by apply Hn1|done].
Qed.
End Scan.

(** ** The results *)

Section Results.
Context `{StdSort}.

Lemma elem_of_results (options : PointerScanOptions) path results :
  path ∈ finish_results options results → path ∈ results.
Proof.
  unfold finish_results. set (u := std_unique _ _). intros Hp.
  assert (path ∈ u) as Hu.
  { destruct (_ <? _); [|done]. eapply elem_of_sublist; [exact Hp|]. apply sublist_take. }
  apply elem_of_std_unique in Hu. by rewrite (std_sort_perm _ path_lt results) in Hu.
Qed.
Lemma sizeZ_results options results :
  0 ≤ po_max_results options → sizeZ (finish_results options results) ≤ po_max_results options.
Proof.
  intros Hm. unfold finish_results. destruct (Z.ltb_spec (po_max_results options) (sizeZ (std_unique path_eqb (std_sort path_lt results)))).
  - unfold sizeZ. rewrite length_take. lia.
  - done.
Qed.
Lemma results_kept options path results :
  sizeZ results ≤ po_max_results options → path ∈ results →
  ∃ path', path' ∈ finish_results options results ∧ path_eqb path' path = true.
Proof.
  intros Hm Hp. rewrite <- (std_sort_perm _ path_lt results) in Hp.
  destruct (std_unique_kept path_eqb path _ ltac:(intros x; unfold path_eqb; by rewrite Z.eqb_refl, bool_decide_true) Hp)
    as (path' & Hin & Heq).
  exists path'. split; [|done]. unfold finish_results. rewrite (proj2 (Z.ltb_ge _ _)); [done|].
  pose proof (std_unique_sublist path_eqb (std_sort path_lt results)) as Hs. apply sublist_length in Hs.
  rewrite (Permutation_length (std_sort_perm _ path_lt results)) in Hs. unfold sizeZ in *. lia.
Qed.
End Results.

Lemma push_paths_size target options modules nodes results full results' :
  sizeZ results < po_max_results options →
  push_paths target options modules nodes results = (full, results') →
  sizeZ results' ≤ po_max_results options ∧ (full = false → sizeZ results' < po_max_results options).
Proof.
  revert results. induction nodes as [|node nodes IH]; intros results Hs; cbn [push_paths].
  { intros [= <- <-]. split; [lia|done]. }
  destruct (_ && _); [by apply IH|].
  destruct (Z.leb_spec (po_max_results options) (sizeZ (results ++ [make_path target modules node]))) as [Hle|Hlt].
  - intros [= <- <-]. split; [|done]. rewrite sizeZ_app. change (sizeZ [make_path target modules node]) with 1. lia.
  - by apply IH.
Qed.

Section Total.
Context {P : Type} `{IProcessMemory P} `{StdSort} (stop : nat → bool).
Implicit Types st : PointerState P.

Lemma depth_loop_size rounds depth target options modules frontier results truncated st out t st' :
  sizeZ results < po_max_results options →
  depth_loop stop rounds depth target options modules frontier results truncated st = (Success (out, t), st') →
  sizeZ out ≤ po_max_results options.
Proof.
  revert depth frontier results truncated st. induction rounds as [|rounds IH];
    intros depth frontier results truncated st Hs; cbn [depth_loop]; [intros [= <- _ _]; lia|].
  destruct (stop _); [done|]. destruct (FindParents _ _ _ _) as [[[out1|] full1] st2]; [|done]. cbv zeta.
  case_bool_decide; [intros [= <- _ _]; lia|].
  destruct (push_paths _ _ _ out1 results) as [full results2] eqn:Hp. apply push_paths_size in Hp as [Hle Hlt]; [|done].
  destruct full; [by intros [= <- _ _]|]. apply IH. by apply Hlt.
Qed.

Record options_typed (options : PointerScanOptions) : Prop := {
  ot_offset : 0 ≤ po_max_offset options;
  ot_chunk : 0 ≤ po_chunk_size options;
  ot_results : 0 ≤ po_max_results options;
  ot_depth : 0 ≤ po_max_depth options
}.

Lemma options_valid_spec target psz options :
  options_typed options → options_valid target psz options = true →
  (psz = 4 ∨ psz = 8) ∧ 0 ≤ po_max_offset options ≤ kMaxOffset ∧ 0 < po_chunk_size options ∧
  0 < po_max_results options ∧ 0 < po_max_depth options.
Proof.
  intros [H1 H2 H3 H4] Hv. unfold options_valid in Hv. apply negb_true_iff in Hv.
  repeat match goal with H : (_ || _) = false |- _ => apply orb_false_iff in H as [? ?] end.
  assert (psz = 4 ∨ psz = 8).
  { match goal with H : _ && _ = false |- _ => apply andb_false_iff in H as [E|E] end;
      apply negb_false_iff, Z.eqb_eq in E; auto. }
  boolify. split; [done|]. split; [lia|]. split; [lia|]. split; lia.
Qed.

Context (psz : Z) (mem : Z → Z) (all : list MemoryRegion) (inv : P → Prop).

(** [C30] Every path a pointer scan returns leads to the target: starting at its root, a
    stored pointer plus the next offset is the next address, each pointer a user address
    in an aligned cell of a region the scan may use, each offset within the limit, and
    the last address is the target; the path is no longer than the depth asked for, is
    described by the module that holds its root, and there are no more paths than asked
    for.  It holds with reads that fail or come back short anywhere, whatever the chunk
    size, and when the scan was cut off: bytes on the two sides of a gap are never taken
    for one pointer. *)
Theorem pointer_scan_sound target options st paths st' :
  process_stable psz mem all inv → options_typed options → inv (pt_memory st) →
  Scan stop target options st = (Success paths, st') →
  sizeZ paths ≤ po_max_results options ∧
  ∃ modules p, Modules (pt_memory st) = (Success modules, p) ∧
    ∀ path, path ∈ paths →
      path_ok options psz mem all target modules (po_max_depth options) path ∧ pp_resolved_address path = target.
Proof.
  intros Hproc Ht Hi Hs. unfold Scan in Hs. cbv zeta in Hs.
  change (pt_memory (st <| pt_report := empty_report |>)) with (pt_memory st) in Hs.
  destruct (negb (IsOpen _)); [done|]. rewrite (ps_pointer _ _ _ _ Hproc _ Hi) in Hs.
  destruct (options_valid target psz options) eqn:Hv; [|done]. cbn [negb] in Hs.
  apply options_valid_spec in Hv as (Hpsz & Hoff & Hch & Hres & Hdep); [|done].
  destruct (Modules (pt_memory st)) as [[modules|] p] eqn:Hm; [|done].
  pose proof (ps_modules _ _ _ _ Hproc _ _ _ Hi Hm) as Hip.
  destruct (depth_loop _ _ _ _ _ _ _ _ _ _) as [[[results t]|] st1] eqn:Hd; [|done].
  injection Hs as <- <-. split; [apply sizeZ_results; lia|]. exists modules, p. split; [done|].
  intros path Hp%elem_of_results.
  assert (path_ok options psz mem all target modules (po_max_depth options) path) as Hok.
  { refine (depth_loop_sound stop options psz mem all inv Hproc Hpsz Hoff target modules _ _ _ _ _ _ _ _ _
      _ _ _ _ Hd Hip _ _ eq_refl path Hp); [lia|lia| |by intros ? ?%not_elem_of_nil].
    intros n ->%list_elem_of_singleton. split; [constructor|done]. }
  split; [done|]. destruct Hok as (_ & _ & -> & _). apply make_path_root.
Qed.

(** [C31] A pointer scan misses nothing: when every read inside the used regions works, the
    scan is not stopped and reports nothing cut off, the result has every path of at most
    the depth asked for that leads to the target, those only with a root inside a module
    when only such roots were asked for; and such a scan does return a result.  Pointers
    that lie across two chunks are among them. *)
Theorem pointer_scan_complete target options st modules p :
  process_stable psz mem all inv → undisturbed stop options mem all inv → options_typed options →
  inv (pt_memory st) → IsOpen (pt_memory st) = true → options_valid target psz options = true →
  Modules (pt_memory st) = (Success modules, p) →
  ∃ paths st', Scan stop target options st = (Success paths, st') ∧
    (pr_truncated (pt_report st') = false → ∀ a offs,
       leads options psz mem all target a offs → 1 ≤ sizeZ offs ≤ po_max_depth options →
       (po_static_roots_only options = true → in_module modules (mkFrontierNode a offs) = true) →
       ∃ path, path ∈ paths ∧ pp_root_address path = a ∧ pp_offsets path = offs).
Proof.
  intros Hproc Hun Ht Hi Ho Hv Hm. unfold Scan. cbv zeta.
  change (pt_memory (st <| pt_report := empty_report |>)) with (pt_memory st).
  rewrite Ho, (ps_pointer _ _ _ _ Hproc _ Hi), Hv, Hm. cbn [negb].
  apply options_valid_spec in Hv as (Hpsz & Hoff & Hch & Hres & Hdep); [|done].
  pose proof (ps_modules _ _ _ _ Hproc _ _ _ Hi Hm) as Hip.
  destruct (depth_loop _ _ _ _ _ _ _ _ _ _) as [r st1] eqn:Hd.
  pose proof (depth_loop_ok stop options psz mem all inv Hproc Hpsz Hoff target modules _ _ _ _ _ _ _ _ Hun Hd Hip)
    as Hok. destruct r as [[results t]|]; [|done].
  eexists _, _. split; [done|]. cbn. intros -> a offs Hl Hsz Hst.
  pose proof Hd as [_ Hall]%(depth_loop_complete stop options psz mem all inv Hproc Hpsz Hoff target modules
    (po_max_depth options)); [|done|lia|lia| |done].
  2:{ intros [a' offs'] [Hl' Hs']. cbn in Hl', Hs'. destruct Hl' as [|a' o' offs' _ _]; [left|].
      rewrite sizeZ_cons in Hs'. pose proof (sizeZ_nonneg offs'). lia. }
  specialize (Hall (sizeZ offs) (mkFrontierNode a offs) ltac:(lia) ltac:(by split) Hst).
  apply (results_kept options) in Hall as (path & Hin & Heq).
  2:{ eapply depth_loop_size; [|exact Hd]. unfold sizeZ. simpl. lia. }
  exists path. split; [done|]. destruct (make_path_root target modules (mkFrontierNode a offs)) as (E1 & E2 & _).
  unfold path_eqb in Heq. rewrite E1, E2 in Heq. apply andb_true_iff in Heq as [H1%Z.eqb_eq H2%bool_decide_eq_true].
  done.
Qed.
End Total.

(** ** A library that sorts by insertion *)

Fixpoint insert_sorted {A} (lt : A → A → bool) (x : A) (l : list A) : list A :=
  match l with [] => [x] | y :: l' => if lt y x then y :: insert_sorted lt x l' else x :: l end.
Definition insertion_sort {A} (lt : A → A → bool) (l : list A) : list A := foldr (insert_sorted lt) [] l.

Lemma insert_sorted_perm {A} (lt : A → A → bool) x l : insert_sorted lt x l ≡ₚ x :: l.
Proof. induction l as [|y l IH]; cbn; [done|]. destruct (lt y x); [|done]. rewrite IH. by apply perm_swap. Qed.
Lemma insertion_sort_perm A (lt : A → A → bool) l : insertion_sort lt l ≡ₚ l.
Proof. induction l as [|x l IH]; cbn; [done|]. by rewrite insert_sorted_perm, IH. Qed.
Lemma insertion_sort_sorted A (lt : A → A → bool) l :
  (∀ x y, lt x y = true → lt y x = false) →
  (∀ x y z, lt y x = false → lt z y = false → lt z x = false) →
  StronglySorted (λ x y, lt y x = false) (insertion_sort lt l).
Proof.
  intros Ha Ht. induction l as [|x l IH]; cbn; [constructor|].
  fold (insertion_sort lt l). induction IH as [|y k Hk IHk Hy]; cbn; [by repeat constructor|].
  destruct (lt y x) eqn:E.
  - constructor; [exact IHk|]. rewrite insert_sorted_perm. constructor; [by apply Ha|done].
  - constructor; [by constructor|]. constructor; [done|]. eapply Forall_impl; [exact Hy|].
    intros z Hz. by eapply Ht.
Qed.
#[local] Instance insertion_library : StdSort :=
  {| std_sort := @insertion_sort; std_sort_perm := insertion_sort_perm; std_sort_sorted := insertion_sort_sorted |}.

(** ** A process with a chain of two pointers

    The second pointer lies across the first two chunks of twelve bytes. *)

Definition chain_bytes : list Z := le_bytes 8 0x10008 ++ le_bytes 8 0x10018 ++ replicate 48 0.
Definition chain_process : MockProcessMemory :=
  MockProcess_SetModules [mkProcessModule 0x10000 8 "game.exe" ""] (make_MockProcessMemory 0x10000 64 8)
    <| bytes_ := chain_bytes |>.
Definition chain_options : PointerScanOptions := mkPointerScanOptions 2 0x10 100 12 true false false.
Definition chain_state : PointerState MockProcessMemory :=
  mkPointerState chain_process empty_report 0 (empty_progress "") [].
Definition never (_ : nat) : bool := false.

Definition chain_inv (p : MockProcessMemory) : Prop := p = chain_process.

Lemma mock_reads_truly a n m r m' :
  MockProcess_Read a n m = (r, m') →
  m' = m ∧ ∀ bytes, r = Success bytes → sizeZ bytes ≤ n → bytes = mem_bytes (mock_vmem m) a (sizeZ bytes).
Proof.
  unfold MockProcess_Read. intros Hr. repeat (case_match; [by simplify_eq|]). injection Hr as <- <-. split; [done|].
  intros bytes [= <-] Hn. boolify. pose proof (sizeZ_nonneg (slice (bytes_ m) (a - base_ m) n)).
  rewrite sizeZ_slice by lia. symmetry. apply mem_bytes_lookup_eq; [lia|rewrite sizeZ_slice by lia; done|].
  intros i Hi. unfold mock_vmem. rewrite byte_at_slice by lia. f_equal. lia.
Qed.

Lemma chain_stable : process_stable 8 (mock_vmem chain_process) (regions_ chain_process) chain_inv.
Proof.
  split.
  - intros a n p r p' -> Hr. exact (mock_reads_truly a n chain_process r p' Hr).
  - intros p r p' -> [= <- <-]. split; [done|]. by intros l [= <-].
  - by intros p r p' -> [= <- <-].
  - by intros p ->.
  - intros region Hin. cbn in Hin. apply list_elem_of_singleton in Hin as ->. cbn. lia.
Qed.
Lemma chain_undisturbed : undisturbed never chain_options (mock_vmem chain_process) (regions_ chain_process) chain_inv.
Proof.
  split; [done| |by intros p ->].
  intros region Hin _. cbn in Hin. apply list_elem_of_singleton in Hin as ->.
  intros a n p -> Ha Hn Hb. cbn in Ha. change (a + n ≤ 0x10040) in Hb.
  change (Read a n chain_process) with (MockProcess_Read a n chain_process).
  rewrite MockProcess_Read_exact; [done|lia|..]; change (base_ chain_process) with 0x10000; [lia|].
  change (sizeZ (bytes_ chain_process)) with 64. lia.
Qed.
Lemma chain_typed : options_typed chain_options.
Proof. by split. Qed.

Definition chain_scan := Scan never 0x10020 chain_options chain_state.

Definition chain_paths : list PointerPath :=
  Eval vm_compute in match chain_scan.1 with Success paths => paths | Failure _ => [] end.
Lemma chain_scan_eq : Scan never 0x10020 chain_options chain_state = (Success chain_paths, chain_scan.2).
Proof.
  assert ((Scan never 0x10020 chain_options chain_state).1 = Success chain_paths) as <- by (vm_compute; reflexivity).
  unfold chain_scan. apply surjective_pairing.
Qed.
Lemma chain_not_truncated : pr_truncated (pt_report chain_scan.2) = false.
Proof. vm_compute. reflexivity. Qed.

Lemma pointer_scan_sound_witness :
  sizeZ chain_paths = 2 ∧ ∀ path, path ∈ chain_paths →
    leads chain_options 8 (mock_vmem chain_process) (regions_ chain_process) 0x10020
      (pp_root_address path) (pp_offsets path).
Proof.
  split; [reflexivity|]. intros path Hp.
  destruct (pointer_scan_sound never 8 (mock_vmem chain_process) (regions_ chain_process) chain_inv
    0x10020 chain_options chain_state chain_paths chain_scan.2 chain_stable chain_typed eq_refl chain_scan_eq)
    as (_ & modules & p & _ & Hall). apply (Hall path Hp).
Defined.

Lemma chain_leads :
  leads chain_options 8 (mock_vmem chain_process) (regions_ chain_process) 0x10020 0x10000 [0; 8].
Proof.
  assert (∀ a o, a `mod` 8 = 0 → 0x10000 ≤ a → a + 8 ≤ 0x10040 → 0 ≤ o ≤ 16 →
    IsCanonicalUserPointer (pointer_at 8 (mock_vmem chain_process) a) 8 = true →
    points chain_options 8 (mock_vmem chain_process) (regions_ chain_process) a o) as Hp.
  { intros a o Hm Hlo Hhi Ho Hc. split; [|done]. split; [done|]. eexists. split; [left|]. split; [done|].
    change (0x10000 ≤ a ∧ a + 8 ≤ 0x10040). lia. }
  apply leads_through; [by apply Hp|].
  replace (pointer_at 8 (mock_vmem chain_process) 0x10000 + 0) with 0x10008 by (vm_compute; reflexivity).
  apply leads_through; [by apply Hp|].
  replace (pointer_at 8 (mock_vmem chain_process) 0x10008 + 8) with 0x10020 by (vm_compute; reflexivity).
  apply leads_here.
Qed.

Lemma pointer_scan_complete_witness :
  ∃ paths st' path, chain_scan = (Success paths, st') ∧ path ∈ paths ∧
    pp_root_address path = 0x10000 ∧ pp_offsets path = [0; 8].
Proof.
  destruct (pointer_scan_complete never 8 (mock_vmem chain_process) (regions_ chain_process) chain_inv
    0x10020 chain_options chain_state (modules_ chain_process) chain_process) as (paths & st' & E & Hall).
  - exact chain_stable.
  - exact chain_undisturbed.
  - exact chain_typed.
  - reflexivity.
  - reflexivity.
  - reflexivity.
  - reflexivity.
  - assert (st' = chain_scan.2) as Est by (unfold chain_scan; rewrite E; reflexivity).
    destruct (Hall ltac:(rewrite Est; exact chain_not_truncated) 0x10000 [0; 8] chain_leads)
      as (path & Hp & H1 & H2).
    + vm_compute. split; discriminate.
    + discriminate.
    + exists paths, st', path. split; [exact E|]. auto.
Defined.

(** ** A stop after a failed read *)

(** A region that cannot be read comes before the one that can. *)
Definition gap_process : MockProcessMemory :=
  chain_process <| regions_ := mkMemoryRegion 0x8000 16 0 0 0 true true true false false false "gap"
                               :: regions_ chain_process |>.
(** The token is asked before the level, before both reads of the gap and before the first
    window; it says stop in that window. *)
Definition stop_in_window (n : nat) : bool := bool_decide (4 ≤ n)%nat.

(** A stop that is noticed between two reads ends the scan with the error of a cancelled
    operation.  One that is noticed inside a window ends it with the first error of the
    report instead, here that of the failed read, although the report says cancelled. *)
Theorem pointer_scan_cancel_masked :
  let '(r, st) := Scan stop_in_window 0x10020 chain_options
                    (mkPointerState gap_process empty_report 0 (empty_progress "") []) in
  (∃ e, r = Failure e ∧ code e = InvalidArgument) ∧ pr_cancelled (pt_report st) = true.
Proof. vm_compute. split; [|reflexivity]. eexists. split; reflexivity. Qed.
