(* ===== verification/KDbgProbe.v ===== *)
(** [driver/KDbgProbe/Driver.cpp] and [shared/KDbgProbeIoctl.h]: the driver of the probe
    page, a page of its own with a known pattern that the tools may overwrite, and
    [core/memory/ProbeClient], its client.

    The spin of the locks is not modelled: requests are sequential. *)

From stdpp Require Import gmap.
From S2P Require Import Prelude CppStd Wire Common Crc32 KernelDriver KDbgBackend.

#[local] Open Scope Z_scope.

(** ** shared/KDbgProbeIoctl.h *)

Definition KDBG_PROBE_ABI_VERSION : Z := 1.
Definition KDBG_PROBE_PAGE_SIZE : Z := 0x1000.
Definition KDBG_PROBE_WRITE_ACK_MAGIC : Z := 0x4B44424750524F42.
Definition KDBG_PROBE_ACTION_RESET : Z := 1.
Definition KDBG_PROBE_ACTION_FILL : Z := 2.
Definition IOCTL_KDBG_PROBE_GET_INFO : Z := CTL_CODE 0x920 1.
Definition IOCTL_KDBG_PROBE_CONTROL : Z := CTL_CODE 0x921 3.

(** ** The driver's state *)

Record ProbeContext := mkProbeContext { px_cleaned_up : bool; px_owner_process : Z; px_owner_pid : Z }.
#[export] Instance ProbeContext_eta : Eta ProbeContext := fun c =>
  mkProbeContext (px_cleaned_up c) (px_owner_process c) (px_owner_pid c).

(** [Generation] is a 32-bit counter; the buffer is given by its bytes and the two
    addresses the kernel gave it. *)
Record ProbeState := mkProbeState {
  pb_buffer : list Z;
  pb_virtual : Z;
  pb_physical : Z;
  pb_owner_process : option Z;
  pb_owner_pid : Z;
  pb_open_handles : Z;
  pb_generation : Z
}.
#[export] Instance ProbeState_eta : Eta ProbeState := fun s =>
  mkProbeState (pb_buffer s) (pb_virtual s) (pb_physical s) (pb_owner_process s) (pb_owner_pid s)
    (pb_open_handles s) (pb_generation s).

(** The driver with the contexts of its file objects. *)
Record ProbeWorld := mkProbeWorld { pw_state : ProbeState; pw_contexts : gmap Z ProbeContext }.

(** ** The page *)

Definition reset_byte (index : Z) : Z := Z.land (u32 (index * 17 + 0x3D)) 0xFF.
Definition reset_page : list Z := reset_byte <$> seqZ 0 KDBG_PROBE_PAGE_SIZE.
Definition next_generation (s : ProbeState) : ProbeState := s <| pb_generation := u32 (pb_generation s + 1) |>.
Definition ResetPattern (s : ProbeState) : ProbeState := next_generation (s <| pb_buffer := reset_page |>).
Definition fill_page (value : Z) : list Z := replicate (Z.to_nat KDBG_PROBE_PAGE_SIZE) value.

Definition crc_round (crc byte : Z) : Z := Nat.iter 8 crc_bit (Z.lxor crc byte).
Definition probe_Crc32 (bytes : list Z) : Z := Z.lxor (foldl crc_round 0xFFFFFFFF bytes) u32_max.

(** ** Handles *)

(** [pool] is the answer of the allocator. *)
Definition Probe_DispatchCreate (pool : bool) (file process process_id : Z) (w : ProbeWorld)
    : IoResult * ProbeWorld :=
  if negb pool then ((STATUS_INSUFFICIENT_RESOURCES, []), w)
  else
    let s := pw_state w in
    if match pb_owner_process s with Some p => negb (p =? process) | None => false end then
      ((STATUS_SHARING_VIOLATION, []), w)
    else
      ((STATUS_SUCCESS, []),
       mkProbeWorld (s <| pb_owner_process := Some process |> <| pb_owner_pid := process_id |>
                       <| pb_open_handles := pb_open_handles s + 1 |>)
         (<[file := mkProbeContext false process process_id]> (pw_contexts w))).

Definition Probe_CleanupFileContext (c : ProbeContext) (s : ProbeState) : ProbeContext * ProbeState :=
  if px_cleaned_up c then (c, s)
  else
    let handles := if 0 <? pb_open_handles s then pb_open_handles s - 1 else pb_open_handles s in
    let s := s <| pb_open_handles := handles |> in
    (c <| px_cleaned_up := true |>,
     if handles =? 0 then s <| pb_owner_pid := 0 |> <| pb_owner_process := None |> else s).

Definition Probe_DispatchCleanup (file : Z) (w : ProbeWorld) : IoResult * ProbeWorld :=
  match pw_contexts w !! file with
  | None => ((STATUS_SUCCESS, []), w)
  | Some c =>
      let '(c, s) := Probe_CleanupFileContext c (pw_state w) in
      ((STATUS_SUCCESS, []), mkProbeWorld s (<[file := c]> (pw_contexts w)))
  end.
Definition Probe_DispatchClose (file : Z) (w : ProbeWorld) : IoResult * ProbeWorld :=
  match pw_contexts w !! file with
  | None => ((STATUS_SUCCESS, []), w)
  | Some c =>
      let '(_, s) := Probe_CleanupFileContext c (pw_state w) in
      ((STATUS_SUCCESS, []), mkProbeWorld s (delete file (pw_contexts w)))
  end.

(** ** Requests *)

Definition Probe_IsControllerContext (context : option ProbeContext) (i : Irp) : bool :=
  match context with
  | None => false
  | Some c => negb (px_cleaned_up c) && (px_owner_process c =? irp_process i) && (px_owner_pid c =? irp_pid i)
  end.

Definition probe_info (s : ProbeState) : list Z :=
  struct [(4, 48); (4, KDBG_PROBE_ABI_VERSION); (4, pb_generation s); (4, KDBG_PROBE_PAGE_SIZE);
          (8, pb_virtual s); (8, pb_physical s); (8, Z.shiftr (pb_physical s) 12);
          (4, probe_Crc32 (pb_buffer s)); (4, 0)].

Definition probe_control (request : list Z) (s : ProbeState) : IoResult * ProbeState :=
  let action := field request 4 4 in
  let fill := field request 8 4 in
  if negb (field request 0 4 =? 24) || negb (field request 12 4 =? 0) ||
     negb (field request 16 8 =? KDBG_PROBE_WRITE_ACK_MAGIC) then ((STATUS_ACCESS_DENIED, []), s)
  else if (action =? KDBG_PROBE_ACTION_RESET) && negb (fill =? 0) then ((STATUS_INVALID_PARAMETER, []), s)
  else if (action =? KDBG_PROBE_ACTION_FILL) && (u8_max <? fill) then ((STATUS_INVALID_PARAMETER, []), s)
  else if negb (action =? KDBG_PROBE_ACTION_RESET) && negb (action =? KDBG_PROBE_ACTION_FILL) then
    ((STATUS_INVALID_PARAMETER, []), s)
  else if action =? KDBG_PROBE_ACTION_RESET then ((STATUS_SUCCESS, []), ResetPattern s)
  else ((STATUS_SUCCESS, []), next_generation (s <| pb_buffer := fill_page (Z.land fill 0xFF) |>)).

Definition Probe_DispatchDeviceControl (i : Irp) (w : ProbeWorld) : IoResult * ProbeWorld :=
  let s := pw_state w in
  if negb (Probe_IsControllerContext (pw_contexts w !! irp_file i) i) then ((STATUS_ACCESS_DENIED, []), w)
  else if irp_code i =? IOCTL_KDBG_PROBE_GET_INFO then
    if no_buffer i || negb (input_length i =? 0) || negb (irp_output_length i =? 48) then
      ((STATUS_BUFFER_TOO_SMALL, []), w)
    else ((STATUS_SUCCESS, probe_info s), w)
  else if irp_code i =? IOCTL_KDBG_PROBE_CONTROL then
    if no_buffer i || negb (input_length i =? 24) || negb (irp_output_length i =? 0) then
      ((STATUS_BUFFER_TOO_SMALL, []), w)
    else
      let '(r, s) := probe_control (irp_input i) s in (r, mkProbeWorld s (pw_contexts w))
  else ((STATUS_INVALID_DEVICE_REQUEST, []), w).

(** [DriverEntry]: the allocated page with its addresses, the statuses of
    [IoCreateDeviceSecure] and [IoCreateSymbolicLink]; a start that fails keeps nothing. *)
Definition Probe_DriverEntry (page : option (list Z * Z * Z)) (create_status link_status : NTSTATUS)
    : NTSTATUS * option ProbeWorld :=
  match page with
  | None => (STATUS_INSUFFICIENT_RESOURCES, None)
  | Some (content, virtual, physical) =>
      let s := ResetPattern (mkProbeState content virtual physical None 0 0 0) in
      if negb (NT_SUCCESS create_status) then (create_status, None)
      else if negb (NT_SUCCESS link_status) then (link_status, None)
      else (STATUS_SUCCESS, Some (mkProbeWorld s ∅))
  end.

(** ** The client *)

Record ProbeInfo := mkProbeInfo {
  pi_generation : Z;
  pi_byte_count : Z;
  pi_virtual_address : Z;
  pi_physical_address : Z;
  pi_pfn : Z;
  pi_crc32 : Z
}.

Record ProbeClient (D : Type) := mkProbeClient { pc_device : D; pc_open : bool }.
Arguments mkProbeClient {D}.
Arguments pc_device {D}.
Arguments pc_open {D}.
#[export] Instance ProbeClient_eta D : Eta (ProbeClient D) := fun c => mkProbeClient (pc_device c) (pc_open c).

Definition ExpectedResetCrc32 : Z := Z.lxor (foldl crc_round 0xFFFFFFFF reset_page) u32_max.
Definition ExpectedFillCrc32 (value : Z) : Z := Z.lxor (foldl crc_round 0xFFFFFFFF (fill_page value)) u32_max.

(** The checks on an info response. *)
Definition info_invalid (returned : Z) (response : list Z) : bool :=
  let physical := field response 24 8 in
  negb (returned =? 48) || negb (field response 0 4 =? 48) ||
  negb (field response 4 4 =? KDBG_PROBE_ABI_VERSION) ||
  negb (field response 12 4 =? KDBG_PROBE_PAGE_SIZE) || (field response 16 8 =? 0) || (physical =? 0) ||
  negb (Z.land physical (KDBG_PROBE_PAGE_SIZE - 1) =? 0) || negb (field response 32 8 =? Z.shiftr physical 12) ||
  negb (field response 44 4 =? 0).

Definition control_request (action fill : Z) : list Z :=
  struct [(4, 24); (4, action); (4, fill); (4, 0); (8, KDBG_PROBE_WRITE_ACK_MAGIC)].

Section Client.
Context {D : Type} `{Device D}.
Implicit Types c : ProbeClient D.

Definition Probe_Close c : ProbeClient D :=
  if pc_open c then mkProbeClient (CloseHandle (pc_device c)) false else c.

Definition Probe_Query c : Result ProbeInfo * ProbeClient D :=
  let op := "ProbeClient::Query" in
  if negb (pc_open c) then (Failure (MakeError BackendDisconnected "KDBG Probe is not open" op), c)
  else
    let '(r, d) := DeviceIoControl IOCTL_KDBG_PROBE_GET_INFO [] 48 (pc_device c) in
    let c := c <| pc_device := d |> in
    match r with
    | inl error => (Failure (MakeErrorFull IoFailure "KDBG Probe info query failed" op error 0 0), c)
    | inr out =>
        let response := out ++ drop (List.length out) (zeros 48) in
        if info_invalid (sizeZ out) response then
          (Failure (MakeError
             (if negb (field response 4 4 =? KDBG_PROBE_ABI_VERSION) then AbiMismatch else ShortRead)
             "KDBG Probe returned an incompatible response" op), c)
        else
          (Success (mkProbeInfo (field response 8 4) (field response 12 4) (field response 16 8)
             (field response 24 8) (field response 32 8) (field response 40 4)), c)
    end.

Definition Probe_Open c : Result unit * ProbeClient D :=
  let op := "ProbeClient::Open" in
  if pc_open c then (Failure (MakeError BackendAlreadyOpen "KDBG Probe is already open" op), c)
  else
    match CreateFile (pc_device c) with
    | (Some error, d) =>
        (Failure (MakeErrorFull (if error =? ERROR_ACCESS_DENIED then AccessDenied else IoFailure)
           "Unable to open KDBG Probe" op error 0 0), mkProbeClient d false)
    | (None, d) =>
        match Probe_Query (mkProbeClient d true) with
        | (Failure e, c) => (Failure e, Probe_Close c)
        | (Success _, c) => (Success tt, c)
        end
    end.

(** The texts of one of the two actions. *)
Record ProbeMessages := mkProbeMessages {
  pm_failed : string; pm_length : string; pm_mismatch : string; pm_operation : string
}.

(** [Reset] and [Fill]: the state before, the request, and the check of the state after
    it. *)
Definition probe_act (m : ProbeMessages) (action fill expected_crc : Z) c : Result unit * ProbeClient D :=
  if negb (pc_open c) then
    (Failure (MakeError BackendDisconnected "KDBG Probe is not open" (pm_operation m)), c)
  else
    match Probe_Query c with
    | (Failure e, c) => (Failure e, c)
    | (Success before, c) =>
        let '(r, d) := DeviceIoControl IOCTL_KDBG_PROBE_CONTROL (control_request action fill) 0 (pc_device c) in
        let c := c <| pc_device := d |> in
        match r with
        | inl error => (Failure (MakeErrorFull IoFailure (pm_failed m) (pm_operation m) error 0 0), c)
        | inr out =>
            if negb (sizeZ out =? 0) then
              (Failure (MakeError AbiMismatch (pm_length m) (pm_operation m)), c)
            else
              match Probe_Query c with
              | (Failure e, c) => (Failure e, c)
              | (Success after, c) =>
                  if (pi_generation after =? pi_generation before) || negb (pi_crc32 after =? expected_crc) then
                    (Failure (MakeError VerificationMismatch (pm_mismatch m) (pm_operation m)), c)
                  else (Success tt, c)
              end
        end
    end.

Definition Probe_Reset : ProbeClient D → Result unit * ProbeClient D :=
  probe_act (mkProbeMessages "KDBG Probe reset failed" "KDBG Probe reset returned an invalid length"
    "KDBG Probe reset verification failed" "ProbeClient::Reset") KDBG_PROBE_ACTION_RESET 0 ExpectedResetCrc32.
Definition Probe_Fill (value : Z) : ProbeClient D → Result unit * ProbeClient D :=
  probe_act (mkProbeMessages "KDBG Probe fill failed" "KDBG Probe fill returned an invalid length"
    "KDBG Probe fill verification failed" "ProbeClient::Fill") KDBG_PROBE_ACTION_FILL value (ExpectedFillCrc32 value).
End Client.
