(* ===== verification/ProbeTheorems.v ===== *)
(** The probe driver and its client together: one process owns the probe at a time, and the
    actions of the client do to the page what they say. *)

From stdpp Require Import gmap.
From S2P Require Import Prelude CppStd Wire Common Crc32 KernelDriver KDbgBackend LiveBackend KDbgProbe.

#[local] Open Scope Z_scope.

(** ** The checksum *)

Lemma crc_round_byte crc byte : crc_round crc byte = crc_byte crc byte.
Proof.
  unfold crc_round, crc_byte. generalize 8%nat. intros n.
  induction n as [|n IH]; simpl; [done|]. by rewrite IH, crc_bit_shift.
Qed.
Lemma probe_Crc32_of bytes : probe_Crc32 bytes = crc32_of bytes.
Proof.
  unfold probe_Crc32, crc32_of. f_equal. generalize 0xFFFFFFFF. induction bytes as [|b bytes IH]; intros c; [done|].
  change (foldl crc_round (crc_round c b) bytes = foldl crc_byte (crc_byte c b) bytes).
  by rewrite crc_round_byte, IH.
Qed.
(** ** One owner *)

Inductive probe_step : ProbeWorld → ProbeWorld → Prop :=
  | probe_create pool file process process_id w r w' :
      pw_contexts w !! file = None →
      Probe_DispatchCreate pool file process process_id w = (r, w') → probe_step w w'
  | probe_request i w r w' : Probe_DispatchDeviceControl i w = (r, w') → probe_step w w'
  | probe_cleanup file w r w' : Probe_DispatchCleanup file w = (r, w') → probe_step w w'
  | probe_close file w r w' : Probe_DispatchClose file w = (r, w') → probe_step w w'.

Definition live_handles (m : gmap Z ProbeContext) : gmap Z ProbeContext :=
  filter (λ p, px_cleaned_up p.2 = false) m.

Record probe_owned (w : ProbeWorld) : Prop := {
  po_single file c : live_handles (pw_contexts w) !! file = Some c →
    pb_owner_process (pw_state w) = Some (px_owner_process c);
  po_count : pb_open_handles (pw_state w) = Z.of_nat (size (live_handles (pw_contexts w)));
  po_none : pb_owner_process (pw_state w) = None ↔ pb_open_handles (pw_state w) = 0
}.

Lemma live_handles_lookup m file c :
  live_handles m !! file = Some c ↔ m !! file = Some c ∧ px_cleaned_up c = false.
Proof. apply map_lookup_filter_Some. Qed.

(** The owner fields a request leaves alone. *)
Lemma probe_request_frame i w r w' :
  Probe_DispatchDeviceControl i w = (r, w') →
  pw_contexts w' = pw_contexts w ∧ pb_owner_process (pw_state w') = pb_owner_process (pw_state w) ∧
  pb_open_handles (pw_state w') = pb_open_handles (pw_state w).
Proof.
  unfold Probe_DispatchDeviceControl, probe_control. cbv zeta. intros H.
  repeat match type of H with
  | (if ?c then _ else _) = _ => destruct c; [try by injection H as <- <-|try by injection H as <- <-]
  | (let '(r, s) := (if ?c then _ else _) in _) = _ => destruct c; [try by injection H as <- <-|try by injection H as <- <-]
  end.
Qed.

Lemma probe_create_owned pool file process process_id w r w' :
  probe_owned w → pw_contexts w !! file = None →
  Probe_DispatchCreate pool file process process_id w = (r, w') → probe_owned w'.
Proof.
  intros Hw Hf. unfold Probe_DispatchCreate. destruct pool; cbn [negb]; [|by intros [= <- <-]]. cbv zeta.
  destruct (match pb_owner_process _ with Some _ => _ | None => _ end) eqn:Hother; [by intros [= <- <-]|].
  destruct Hw as [Hs Hn Ho]. intros [= <- <-]. split; cbn.
  - intros f c Hl. apply live_handles_lookup in Hl as [Hl Hlive].
    apply lookup_insert_Some in Hl as [[-> <-] | [Hne Hl]]; [done|].
    assert (pb_owner_process (pw_state w) = Some (px_owner_process c)) as He
      by (apply (Hs f); by apply live_handles_lookup).
    rewrite He in Hother. apply negb_false_iff, Z.eqb_eq in Hother. by f_equal.
  - unfold live_handles. rewrite map_filter_insert_True by done. rewrite map_size_insert_None.
    + rewrite Hn. unfold live_handles. lia.
    + apply map_lookup_filter_None. by left.
  - split; [done|]. rewrite Hn. lia.
Qed.

(** A cleanup removes one live handle; without any there is no owner. *)
Lemma probe_cleanup_owned file c c' s w m :
  probe_owned w → pw_contexts w !! file = Some c → Probe_CleanupFileContext c (pw_state w) = (c', s) →
  m = <[file := c']> (pw_contexts w) ∨ m = delete file (pw_contexts w) → probe_owned (mkProbeWorld s m).
Proof.
  intros [Hs Hn Ho] Hl Hclean Hm. unfold Probe_CleanupFileContext in Hclean.
  assert (px_cleaned_up c' = true) as Hdead.
  { destruct (px_cleaned_up c) eqn:Hd; by injection Hclean as <- <-. }
  assert (live_handles m = delete file (live_handles (pw_contexts w))) as Hlive.
  { unfold live_handles. destruct Hm as [-> | ->].
    - rewrite map_filter_insert_False by (cbn; congruence). apply map_filter_delete.
    - apply map_filter_delete. }
  assert (pb_open_handles s = Z.of_nat (size (delete file (live_handles (pw_contexts w)))) ∧
    pb_owner_process s = if pb_open_handles s =? 0 then None else pb_owner_process (pw_state w)) as [Hh Hp].
  { destruct (px_cleaned_up c) eqn:Hd.
    - injection Hclean as <- <-. rewrite delete_id.
      + split; [done|]. destruct (Z.eqb_spec (pb_open_handles (pw_state w)) 0); [|done]. by apply Ho.
      + apply map_lookup_filter_None. right. intros c0 Hc0. simplify_eq. cbn. congruence.
    - assert (live_handles (pw_contexts w) !! file = Some c) as Hin by (by apply live_handles_lookup).
      pose proof (map_size_delete_Some file (live_handles (pw_contexts w)) (mk_is_Some _ _ Hin)) as Hsz.
      assert (size (live_handles (pw_contexts w)) ≠ 0%nat) as Hpos.
      { rewrite map_size_non_empty_iff. intros He. by rewrite He, lookup_empty in Hin. }
      injection Hclean as <- <-. destruct (Z.ltb_spec 0 (pb_open_handles (pw_state w))); [|lia].
      destruct (Z.eqb_spec (pb_open_handles (pw_state w) - 1) 0) as [He|He]; cbn; (split; [lia|]);
        [by rewrite (proj2 (Z.eqb_eq _ _) He)|by rewrite (proj2 (Z.eqb_neq _ _) He)]. }
  split; cbn [pw_state pw_contexts]; rewrite ?Hlive.
  - intros f cf Hf. pose proof Hf as [Hne Hf']%lookup_delete_Some. rewrite Hp.
    destruct (Z.eqb_spec (pb_open_handles s) 0) as [He|He]; [|by apply (Hs f)].
    assert (delete file (live_handles (pw_contexts w)) = ∅) as Hemp by (apply map_size_empty_inv; lia).
    by rewrite Hemp, lookup_empty in Hf.
  - done.
  - rewrite Hp. destruct (Z.eqb_spec (pb_open_handles s) 0) as [He|He]; [done|].
    rewrite Ho. split; [|done]. intros Hz. exfalso. apply He. rewrite Hh. rewrite Hn in Hz.
    rewrite (map_size_empty_inv (live_handles (pw_contexts w))) by lia. by rewrite delete_empty, map_size_empty.
Qed.

Lemma probe_step_owned w w' : probe_step w w' → probe_owned w → probe_owned w'.
Proof.
  intros [pool file p pid w0 r w1 Hf Hc | i w0 r w1 Hc | file w0 r w1 Hc | file w0 r w1 Hc] Hw.
  - by eapply probe_create_owned.
  - apply probe_request_frame in Hc as (E1 & E2 & E3). destruct Hw as [Hs Hn Ho].
    split; rewrite ?E1, ?E2, ?E3; done.
  - unfold Probe_DispatchCleanup in Hc. destruct (_ !! file) as [c|] eqn:Hl; [|by simplify_eq].
    destruct (Probe_CleanupFileContext _ _) as [c' d] eqn:Hd. injection Hc as <- <-.
    eapply probe_cleanup_owned; [done..|]. by left.
  - unfold Probe_DispatchClose in Hc. destruct (_ !! file) as [c|] eqn:Hl; [|by simplify_eq].
    destruct (Probe_CleanupFileContext _ _) as [c' d] eqn:Hd. injection Hc as <- <-.
    eapply probe_cleanup_owned; [done..|]. by right.
Qed.

Lemma probe_reachable_owned w w' : rtc probe_step w w' → probe_owned w → probe_owned w'.
Proof. induction 1; eauto using probe_step_owned. Qed.

(** From a started probe driver on, whatever processes open, use and close: the live
    handles all belong to the recorded owner and are counted, there is no owner exactly
    when there is no live handle, and while one is live an open by another process fails
    and a request of another process, or on a handle that was cleaned up, is denied and
    changes nothing. *)
Theorem probe_single_owner page create_status link_status status w0 w :
  Probe_DriverEntry page create_status link_status = (status, Some w0) → rtc probe_step w0 w →
  probe_owned w ∧
  ∀ file c, live_handles (pw_contexts w) !! file = Some c →
    (∀ pool file' process pid r w', process ≠ px_owner_process c →
       Probe_DispatchCreate pool file' process pid w = (r, w') → NT_SUCCESS r.1 = false ∧ w' = w) ∧
    (∀ i r w', Probe_DispatchDeviceControl i w = (r, w') →
       irp_process i ≠ px_owner_process c ∨ live_handles (pw_contexts w) !! irp_file i = None →
       r = (STATUS_ACCESS_DENIED, []) ∧ w' = w).
Proof.
  intros He Hr. assert (probe_owned w0) as H0.
  { unfold Probe_DriverEntry in He. destruct page as [[[content va] pa]|]; [|done]. cbv zeta in He.
    destruct (negb _); [done|]. destruct (negb _); [done|]. injection He as <- <-.
    split; cbn; [intros f c Hc; by rewrite live_handles_lookup, lookup_empty in Hc; destruct Hc| |done].
    unfold live_handles. by rewrite map_filter_empty, map_size_empty. }
  assert (probe_owned w) as Hw by (by eapply probe_reachable_owned).
  split; [done|]. intros file c Hl. split.
  - intros pool file' process pid r w' Hne. unfold Probe_DispatchCreate. destruct pool; [|by intros [= <- <-]].
    cbn [negb]. rewrite (po_single w Hw _ _ Hl). destruct (Z.eqb_spec (px_owner_process c) process) as [E|E].
    + by rewrite E in Hne.
    + by intros [= <- <-].
  - intros i r w' Hc Hbad. unfold Probe_DispatchDeviceControl in Hc.
    assert (Probe_IsControllerContext (pw_contexts w !! irp_file i) i = false) as Hno.
    { destruct (pw_contexts w !! irp_file i) as [ci|] eqn:Hi; [|done]. cbn.
      destruct (px_cleaned_up ci) eqn:Hd; [done|]. destruct (Z.eqb_spec (px_owner_process ci) (irp_process i)) as [E|]; [|done].
      exfalso. assert (live_handles (pw_contexts w) !! irp_file i = Some ci) as Hli by (by apply live_handles_lookup).
      destruct Hbad as [Hne|Hnone]; [|congruence]. pose proof (po_single w Hw _ _ Hl). pose proof (po_single w Hw _ _ Hli).
      congruence. }
    rewrite Hno in Hc. by injection Hc as <- <-.
Qed.

(** ** The client over the driver *)

(** The driver as the device of one process; [pd_pool] is the allocator's answer to an
    open. *)
Record ProbeDevice := mkProbeDevice {
  pd_world : ProbeWorld; pd_file : Z; pd_process : Z; pd_pid : Z; pd_pool : bool
}.
#[export] Instance ProbeDevice_eta : Eta ProbeDevice := fun d =>
  mkProbeDevice (pd_world d) (pd_file d) (pd_process d) (pd_pid d) (pd_pool d).

Section Device.
Context `{NtErrors}.

Definition probe_device_create (d : ProbeDevice) : option Z * ProbeDevice :=
  let file := fresh (dom (pw_contexts (pd_world d))) in
  let '((status, _), w) := Probe_DispatchCreate (pd_pool d) file (pd_process d) (pd_pid d) (pd_world d) in
  (if NT_SUCCESS status then None else Some (RtlNtStatusToDosError status),
   d <| pd_world := w |> <| pd_file := file |>).
Definition probe_device_close (d : ProbeDevice) : ProbeDevice :=
  let w := (Probe_DispatchCleanup (pd_file d) (pd_world d)).2 in
  d <| pd_world := (Probe_DispatchClose (pd_file d) w).2 |>.
Definition probe_device_control (code : Z) (input : list Z) (output_length : Z) (d : ProbeDevice)
    : (Z + list Z) * ProbeDevice :=
  let '((status, out), w) :=
    Probe_DispatchDeviceControl (mkIrp (pd_file d) (pd_process d) (pd_pid d) code input output_length)
      (pd_world d) in
  (if NT_SUCCESS status then inr out else inl (RtlNtStatusToDosError status), d <| pd_world := w |>).

#[export] Instance ProbeDevice_Device : Device ProbeDevice := {|
  CreateFile := probe_device_create;
  CloseHandle := probe_device_close;
  DeviceIoControl := probe_device_control;
  GetCurrentProcessId := pd_pid
|}.

Implicit Types c : ProbeClient ProbeDevice.

Definition probe_of c : ProbeState := pw_state (pd_world (pc_device c)).

(** The client holds a live handle. *)
Definition attached c : Prop :=
  pc_open c = true ∧
  ∃ x, pw_contexts (pd_world (pc_device c)) !! pd_file (pc_device c) = Some x ∧ px_cleaned_up x = false ∧
    px_owner_process x = pd_process (pc_device c) ∧ px_owner_pid x = pd_pid (pc_device c).

(** What the kernel promises of the page it allocated, and the types of the state. *)
Record page_wf (s : ProbeState) : Prop := {
  pg_virtual : 0 < pb_virtual s ≤ u64_max;
  pg_physical : 0 < pb_physical s ≤ u64_max;
  pg_aligned : Z.land (pb_physical s) (KDBG_PROBE_PAGE_SIZE - 1) = 0;
  pg_generation : is_u32 (pb_generation s);
  pg_bytes : Forall is_u8 (pb_buffer s)
}.

(** The driver's state behind the client, and nothing else, is replaced. *)
Definition with_probe (s : ProbeState) c : ProbeClient ProbeDevice :=
  let d := (pc_device c) <| pd_world := mkProbeWorld s (pw_contexts (pd_world (pc_device c))) |> in
  c <| pc_device := d |>.

Lemma with_probe_same c : with_probe (probe_of c) c = c.
Proof. by destruct c as [[[s m] f p pid pool] o]. Qed.
Lemma probe_of_with s c : probe_of (with_probe s c) = s.
Proof. done. Qed.
Lemma attached_with s c : attached c → attached (with_probe s c).
Proof. done. Qed.

Lemma attached_controller c code input out :
  attached c →
  Probe_IsControllerContext (pw_contexts (pd_world (pc_device c)) !! pd_file (pc_device c))
    (mkIrp (pd_file (pc_device c)) (pd_process (pc_device c)) (pd_pid (pc_device c)) code input out) = true.
Proof. intros (_ & x & -> & Hd & Hp & Hi). cbn. by rewrite Hd, Hp, Hi, !Z.eqb_refl. Qed.

Definition info_of (s : ProbeState) : ProbeInfo :=
  mkProbeInfo (pb_generation s) KDBG_PROBE_PAGE_SIZE (pb_virtual s) (pb_physical s)
    (Z.shiftr (pb_physical s) 12) (crc32_of (pb_buffer s)).

Lemma info_fields s :
  page_wf s →
  info_invalid 48 (probe_info s) = false ∧
  mkProbeInfo (field (probe_info s) 8 4) (field (probe_info s) 12 4) (field (probe_info s) 16 8)
    (field (probe_info s) 24 8) (field (probe_info s) 32 8) (field (probe_info s) 40 4) = info_of s.
Proof.
  intros [Hv Hp Ha Hg Hb]. pose proof (crc32_of_u32 _ Hb) as Hc. rewrite <- probe_Crc32_of in Hc.
  assert (0 ≤ Z.shiftr (pb_physical s) 12 ≤ u64_max) as Hs.
  { rewrite Z.shiftr_div_pow2 by lia. change (2 ^ 12) with 4096. Z.div_mod_to_equations. lia. }
  unfold is_u32 in *. unfold info_of, info_invalid. cbv zeta. rewrite <- probe_Crc32_of.
  assert (∀ off w v, lookup_field [(4, 48); (4, KDBG_PROBE_ABI_VERSION); (4, pb_generation s); (4, KDBG_PROBE_PAGE_SIZE);
    (8, pb_virtual s); (8, pb_physical s); (8, Z.shiftr (pb_physical s) 12); (4, probe_Crc32 (pb_buffer s)); (4, 0)] off
    = Some (w, v) → 0 ≤ off → 0 ≤ v < 256 ^ w → field (probe_info s) off w = v) as Hf.
  { intros off w v Hl Ho Hr. unfold probe_info. rewrite <- (app_nil_r (struct _)).
    rewrite (field_struct _ [] off w v) by done. by apply Z.mod_small. }
  rewrite (Hf 0 4 48), (Hf 4 4 1), (Hf 8 4 (pb_generation s)), (Hf 12 4 4096), (Hf 16 8 (pb_virtual s)),
    (Hf 24 8 (pb_physical s)), (Hf 32 8 (Z.shiftr (pb_physical s) 12)), (Hf 40 4 (probe_Crc32 (pb_buffer s))),
    (Hf 44 4 0) by (reflexivity || (change (256 ^ 8) with 18446744073709551616; change (256 ^ 4) with 4294967296; lia)).
  split; [|reflexivity]. rewrite Ha, !Z.eqb_refl, (proj2 (Z.eqb_neq (pb_virtual s) 0)), (proj2 (Z.eqb_neq (pb_physical s) 0)) by lia.
  reflexivity.
Qed.

Lemma probe_info_size s : sizeZ (probe_info s) = 48.
Proof. unfold probe_info. by rewrite sizeZ_struct. Qed.

(** What the two requests do on a live handle. *)
Lemma get_info_attached c :
  attached c → probe_device_control IOCTL_KDBG_PROBE_GET_INFO [] 48 (pc_device c) =
    (inr (probe_info (probe_of c)), pc_device c).
Proof.
  intros Ha. unfold probe_device_control, Probe_DispatchDeviceControl. cbv zeta. cbn [irp_file].
  rewrite attached_controller by done. cbn -[probe_info Z.land]. by destruct c as [[[s m] f p pid pool] o].
Qed.

(** A query tells the state. *)
Lemma Probe_Query_attached c : attached c → page_wf (probe_of c) → Probe_Query c = (Success (info_of (probe_of c)), c).
Proof.
  intros Ha Hw. unfold Probe_Query. cbv zeta. rewrite (proj1 Ha). cbn [negb DeviceIoControl ProbeDevice_Device].
  rewrite get_info_attached by done. rewrite probe_info_size.
  rewrite drop_ge, app_nil_r.
  2:{ pose proof (probe_info_size (probe_of c)) as Hs. unfold sizeZ in Hs. unfold zeros. rewrite length_replicate. lia. }
  destruct (info_fields (probe_of c) Hw) as [-> ->]. f_equal. by destruct c as [[[s m] f p pid pool] o].
Qed.

(** The state after an accepted action. *)
Definition acted (action fill : Z) (s : ProbeState) : ProbeState :=
  if action =? KDBG_PROBE_ACTION_RESET then ResetPattern s
  else next_generation (s <| pb_buffer := fill_page fill |>).

Lemma control_attached c action fill :
  attached c → (action = KDBG_PROBE_ACTION_RESET ∧ fill = 0) ∨ (action = KDBG_PROBE_ACTION_FILL ∧ is_u8 fill) →
  probe_device_control IOCTL_KDBG_PROBE_CONTROL (control_request action fill) 0 (pc_device c) =
    (inr [], pc_device (with_probe (acted action fill (probe_of c)) c)).
Proof.
  intros Ha Hact. unfold probe_device_control, Probe_DispatchDeviceControl. cbv zeta. cbn [irp_file].
  rewrite attached_controller by done.
  assert (is_u8 fill ∧ (action = 1 ∨ action = 2)) as [Hf Ha2].
  { unfold is_u8 in *. destruct Hact as [[-> ->]|[-> ?]]; (split; [lia|]); [by left|by right]. }
  assert (sizeZ (control_request action fill) = 24) as Hsz by (unfold control_request; by rewrite sizeZ_struct).
  assert (probe_control (control_request action fill) (probe_of c) =
    ((STATUS_SUCCESS, []), acted action fill (probe_of c))) as Hc.
  { unfold probe_control, control_request, is_u8 in *. cbv zeta.
    rewrite <- (app_nil_r (struct _)). decode_fields.
    change (256 ^ 8) with 18446744073709551616. change (256 ^ 4) with 4294967296.
    rewrite (Z.mod_small fill), (Z.mod_small action) by lia.
    destruct Hact as [[-> ->]|[-> _]]; [reflexivity|]. unfold KDBG_PROBE_ACTION_FILL, KDBG_PROBE_ACTION_RESET.
    cbn [Z.eqb Pos.eqb negb andb orb]. rewrite (proj2 (Z.ltb_ge _ fill)) by lia.
    assert (Z.land fill 0xFF = fill) as ->
      by (change 0xFF with (Z.ones 8); rewrite Z.land_ones by lia; apply Z.mod_small; lia).
    reflexivity. }
  unfold no_buffer, input_length. cbn [irp_code irp_input irp_output_length negb].
  change (IOCTL_KDBG_PROBE_CONTROL =? IOCTL_KDBG_PROBE_GET_INFO) with false.
  change (IOCTL_KDBG_PROBE_CONTROL =? IOCTL_KDBG_PROBE_CONTROL) with true. cbv iota.
  rewrite Hsz. cbn [Z.eqb Pos.eqb negb andb orb]. fold (probe_of c). rewrite Hc. reflexivity.
Qed.

Lemma acted_wf action fill s :
  (action = KDBG_PROBE_ACTION_RESET ∧ fill = 0) ∨ (action = KDBG_PROBE_ACTION_FILL ∧ is_u8 fill) →
  page_wf s → page_wf (acted action fill s).
Proof.
  intros Hact [H1 H2 H3 H4 H5]. unfold acted. destruct Hact as [[-> ->]|[-> Hf]]; split; try done; try apply u32_range.
  - cbn. unfold reset_page. apply Forall_fmap, Forall_true. intros i. cbn. unfold reset_byte, is_u8.
    pose proof (Z.land_ones (u32 (i * 17 + 0x3D)) 8 ltac:(lia)) as E. change (Z.ones 8) with 0xFF in E. rewrite E.
    pose proof (Z.mod_pos_bound (u32 (i * 17 + 0x3D)) (2 ^ 8) ltac:(lia)). lia.
  - cbn. by apply Forall_replicate.
Qed.
Lemma acted_generation action fill s :
  is_u32 (pb_generation s) → (pb_generation (acted action fill s) =? pb_generation s) = false.
Proof.
  intros Hg. assert (pb_generation (acted action fill s) = u32 (pb_generation s + 1)) as ->
    by (unfold acted; by destruct (_ =? _)).
  apply Z.eqb_neq. unfold u32, is_u32 in *. Z.div_mod_to_equations. lia.
Qed.

Lemma probe_act_attached m action fill c :
  attached c → page_wf (probe_of c) →
  (action = KDBG_PROBE_ACTION_RESET ∧ fill = 0) ∨ (action = KDBG_PROBE_ACTION_FILL ∧ is_u8 fill) →
  probe_act m action fill (crc32_of (pb_buffer (acted action fill (probe_of c)))) c =
    (Success tt, with_probe (acted action fill (probe_of c)) c).
Proof.
  intros Ha Hw Hact. unfold probe_act. rewrite (proj1 Ha). cbn [negb].
  rewrite Probe_Query_attached by done. cbn [DeviceIoControl ProbeDevice_Device].
  rewrite control_attached by done. change (negb (sizeZ [] =? 0)) with false. cbv iota zeta.
  set (c1 := c <| pc_device := _ |>). assert (c1 = with_probe (acted action fill (probe_of c)) c) as -> by done.
  rewrite Probe_Query_attached by (done || by apply acted_wf). rewrite probe_of_with. cbn [pi_generation pi_crc32 info_of].
  rewrite acted_generation by apply Hw. by rewrite Z.eqb_refl.
Qed.

(** The probe client does what it says, on the driver: with a live handle, a fill and a
    reset both succeed, the first leaves every byte of the page at the value, the second
    the known pattern, each moves the generation by one and touches nothing else of the
    driver; and a query tells the page's addresses, generation and CRC-32. *)
Theorem probe_actions c value :
  attached c → page_wf (probe_of c) → is_u8 value →
  let filled := next_generation ((probe_of c) <| pb_buffer := fill_page value |>) in
  let reset := next_generation (filled <| pb_buffer := reset_page |>) in
  Probe_Fill value c = (Success tt, with_probe filled c) ∧
  Probe_Reset (with_probe filled c) = (Success tt, with_probe reset c) ∧
  Probe_Query (with_probe reset c) = (Success (info_of reset), with_probe reset c).
Proof.
  intros Ha Hw Hv filled reset.
  assert (∀ bytes, Z.lxor (foldl crc_round 0xFFFFFFFF bytes) u32_max = crc32_of bytes) as Hcrc by apply probe_Crc32_of.
  assert (page_wf filled) as Hwf by (apply (acted_wf KDBG_PROBE_ACTION_FILL value (probe_of c)); auto).
  assert (page_wf reset) as Hwr by (apply (acted_wf KDBG_PROBE_ACTION_RESET 0 filled); auto).
  split; [|split].
  - unfold Probe_Fill, ExpectedFillCrc32. rewrite Hcrc.
    apply (probe_act_attached _ KDBG_PROBE_ACTION_FILL value c); auto.
  - unfold Probe_Reset, ExpectedResetCrc32. rewrite Hcrc.
    apply (probe_act_attached _ KDBG_PROBE_ACTION_RESET 0 (with_probe filled c)); auto.
  - by apply Probe_Query_attached.
Qed.
End Device.

(** ** A started probe *)

Definition started : ProbeWorld :=
  mkProbeWorld (mkProbeState reset_page 0xFFFFA00000001000 0x7421000 None 0 0 1) ∅.
Definition opened : ProbeWorld := (Probe_DispatchCreate true 7 10 11 started).2.

Lemma probe_single_owner_witness :
  NT_SUCCESS (Probe_DispatchCreate true 8 12 13 opened).1.1 = false ∧
  (Probe_DispatchCreate true 8 12 13 opened).2 = opened.
Proof.
  destruct (probe_single_owner (Some (replicate 4096 0, 0xFFFFA00000001000, 0x7421000)) STATUS_SUCCESS
    STATUS_SUCCESS STATUS_SUCCESS started opened) as [_ Hall].
  - reflexivity.
  - apply rtc_once. eapply (probe_create true 7 10 11 started); reflexivity.
  - destruct (Hall 7 (mkProbeContext false 10 11)) as [Hc _]; [reflexivity|].
    apply (Hc true 8 12 13 (Probe_DispatchCreate true 8 12 13 opened).1 (Probe_DispatchCreate true 8 12 13 opened).2);
      [discriminate|reflexivity].
Defined.

Definition same_code : NtErrors := λ status, status.
Definition probe_client : ProbeClient ProbeDevice :=
  mkProbeClient (mkProbeDevice opened 7 10 11 true) true.

Lemma probe_actions_witness :
  ∃ c, @Probe_Fill _ (@ProbeDevice_Device same_code) 0x5A probe_client = (Success tt, c) ∧
    pb_buffer (probe_of c) = fill_page 0x5A.
Proof.
  destruct (@probe_actions same_code probe_client 0x5A) as (Hf & _ & _).
  - split; [reflexivity|]. exists (mkProbeContext false 10 11). repeat split.
  - split; [cbn; lia|cbn; lia|reflexivity|cbn; unfold is_u32; lia|].
    change (Forall is_u8 reset_page). apply (bool_decide_unpack _). vm_compute. exact I.
  - unfold is_u8. lia.
  - eexists. split; [exact Hf|reflexivity].
Defined.
