(* ===== verification/Host.v ===== *)
(** Calls of an operating system, with a state of their own, and the loops that poll
    it: the error-and-state monad of a function with early returns, a log of the calls,
    and bounded repetition. *)

From stdpp Require Import list.
From S2P Require Import Prelude CppStd Common.

#[local] Open Scope Z_scope.

(** ** Calls

    [reply c] is what the system answers to the call [c]. *)

Class Host (C : Type) (reply : C → Type) (O : Type) := host : ∀ c : C, O → reply c * O.

(** A system together with the calls it has answered, the latest first. *)
Record Logged (C : Type) (reply : C → Type) (O : Type) := mkLogged {
  lg_host : O;
  lg_calls : list {c : C & reply c}
}.
Arguments mkLogged {C reply O} _ _.
Arguments lg_host {C reply O} _.
Arguments lg_calls {C reply O} _.

#[export] Instance Logged_Host {C reply O} `{!Host C reply O} : Host C reply (Logged C reply O) := λ c o,
  let '(r, h) := host c (lg_host o) in (r, mkLogged h (existT c r :: lg_calls o)).

Lemma host_logged {C reply O} `{!Host C reply O} c (l : Logged C reply O) :
  host c l = ((host c (lg_host l)).1, mkLogged (host c (lg_host l)).2 (existT c (host c (lg_host l)).1 :: lg_calls l)).
Proof. unfold host at 1, Logged_Host. by destruct (host c (lg_host l)). Qed.

(** What a call that can fail answers: the native error, or a value. *)
Abbreviation Native A := (Z + A)%type.

(** ** Functions with early returns

    A function on local variables and the system, [S], that returns a value or leaves
    with an error. *)

Definition Exec (S A : Type) : Type := S → Result A * S.

#[export] Instance Exec_ret S : MRet (Exec S) := λ A a s, (Success a, s).
#[export] Instance Exec_bind S : MBind (Exec S) := λ A B f m s,
  match m s with
  | (Success a, s) => f a s
  | (Failure e, s) => (Failure e, s)
  end.
Definition leave {S A} (e : Error) : Exec S A := λ s, (Failure e, s).
Definition modify {S} (f : S → S) : Exec S unit := λ s, (Success tt, f s).
Definition gets {S A} (f : S → A) : Exec S A := λ s, (Success (f s), s).
(** The outcome as a value: an error that is looked at and not passed on. *)
Definition outcome {S A} (m : Exec S A) : Exec S (Result A) := λ s, let '(r, s) := m s in (Success r, s).

(** ** Triples

    Started in a state of [P], a function that returns [a] ends in a state of [Q a], and
    one that leaves with the error [e] in a state of [E e]. *)

Definition triple {S A} (P : S → Prop) (m : Exec S A) (Q : A → S → Prop) (E : Error → S → Prop) : Prop :=
  ∀ s, P s → match m s with (Success a, s) => Q a s | (Failure e, s) => E e s end.

Section Triple.
Context {S : Type} (E : Error → S → Prop).

Lemma triple_ret {A} (a : A) P (Q : A → S → Prop) : (∀ s, P s → Q a s) → triple P (mret a) Q E.
Proof. intros H s. apply H. Qed.
Lemma triple_leave {A} e P (Q : A → S → Prop) : (∀ s, P s → E e s) → triple P (leave e) Q E.
Proof. intros H s. apply H. Qed.
Lemma triple_gets {A} (f : S → A) P : triple P (gets f) (λ a s, P s ∧ a = f s) E.
Proof. by intros s. Qed.
Lemma triple_modify f P Q : (∀ s, P s → Q (f s)) → triple P (modify f) (λ _, Q) E.
Proof. intros H s. apply H. Qed.
Lemma triple_bind {A B} (m : Exec S A) (f : A → Exec S B) P Q R :
  triple P m Q E → (∀ a, triple (Q a) (f a) R E) → triple P (m ≫= f) R E.
Proof.
  intros Hm Hf s Hs. specialize (Hm s Hs). unfold mbind, Exec_bind.
  destruct (m s) as [[a|e] s']; [by apply Hf|done].
Qed.
Lemma triple_weaken {A} (m : Exec S A) (P P' : S → Prop) (Q Q' : A → S → Prop) :
  triple P' m Q' E → (∀ s, P s → P' s) → (∀ a s, Q' a s → Q a s) → triple P m Q E.
Proof. intros Hm HP HQ s Hs. specialize (Hm s (HP s Hs)). destruct (m s) as [[a|e] s']; auto. Qed.
Lemma triple_exists {X A} (m : Exec S A) (P : X → S → Prop) Q :
  (∀ x, triple (P x) m Q E) → triple (λ s, ∃ x, P x s) m Q E.
Proof. intros H s [x Hs]. by apply (H x). Qed.
Lemma triple_pure {A} (m : Exec S A) (X : Prop) P Q :
  (X → triple P m Q E) → triple (λ s, P s ∧ X) m Q E.
Proof. intros H s [Hs Hx]. by apply H. Qed.
End Triple.

(** ** Loops without a bound of their own

    [rounds k] makes up to [2 ^ k] rounds and stops at the first that is done. *)
Fixpoint rounds {S R} (k : nat) (round : S → S + R) (s : S) : S + R :=
  match k with
  | O => round s
  | Datatypes.S k => match rounds k round s with inl s => rounds k round s | inr r => inr r end
  end.

(** An invariant of the rounds. *)
Lemma rounds_keeps {S R} (I : S → Prop) (Q : R → Prop) k (round : S → S + R) s :
  (∀ s, I s → match round s with inl s => I s | inr r => Q r end) →
  I s → match rounds k round s with inl s => I s | inr r => Q r end.
Proof.
  intros Hr. revert s. induction k as [|k IH]; intros s Hs; cbn [rounds]; [by apply Hr|].
  specialize (IH s Hs) as H1. destruct (rounds k round s); [by apply IH|done].
Qed.

(** With a measure that falls in every round there are rounds enough. *)
Lemma rounds_measure {S R} (I : S → Prop) (size : S → Z) k (round : S → S + R) s :
  (∀ s, I s → match round s with inl s' => I s' ∧ 0 ≤ size s' < size s | inr _ => True end) →
  I s → 0 ≤ size s →
  match rounds k round s with inl s' => I s' ∧ 0 ≤ size s' ≤ size s - 2 ^ Z.of_nat k | inr r => True end.
Proof.
  intros Hr. revert s. induction k as [|k IH]; intros s Hs H0.
  - cbn [rounds]. specialize (Hr s Hs). destruct (round s); [|done].
    destruct Hr as [? ?]. change (2 ^ Z.of_nat 0) with 1. split; [done|lia].
  - cbn [rounds]. specialize (IH s Hs H0) as H1. destruct (rounds k round s) as [s1|]; [|done].
    destruct H1 as [Hs1 H1]. specialize (IH s1 Hs1 (proj1 H1)). destruct (rounds k round s1); [|done].
    destruct IH as [? ?]. split; [done|].
    replace (Z.of_nat (Datatypes.S k)) with (Z.of_nat k + 1) by lia. rewrite Z.pow_add_r by lia. lia.
Qed.
Lemma rounds_enough {S R} (I : S → Prop) (size : S → Z) k (round : S → S + R) s :
  (∀ s, I s → match round s with inl s' => I s' ∧ 0 ≤ size s' < size s | inr _ => True end) →
  I s → 0 ≤ size s < 2 ^ Z.of_nat k → ∃ r : R, rounds k round s = inr r.
Proof.
  intros Hr Hs Hb. pose proof (rounds_measure I size k round s Hr Hs (proj1 Hb)) as H.
  destruct (rounds k round s); [destruct H; lia|by eauto].
Qed.
