(* ===== verification/Paths.v ===== *)
(** The lexical operations of [std::filesystem::path] on Windows that the modelled code
    uses: a path is its native text, both slashes separate, and a root name is a drive
    letter, a server or the prefix of a device path. *)

From stdpp Require Import list.
From S2P Require Import Prelude CppStd.

#[local] Open Scope Z_scope.

(** UTF-16 text. *)
Abbreviation wide := (list Z).
Definition wstr (s : string) : wide := char_code <$> str s.

Definition is_slash (c : Z) : bool := (c =? 47) || (c =? 92).
Definition preferred_separator : Z := 92.
Definition is_drive_letter (c : Z) : bool := ((65 <=? c) && (c <=? 90)) || ((97 <=? c) && (c <=? 122)).

(** ** The root *)

Definition has_drive (p : wide) : bool :=
  match p with letter :: colon :: _ => is_drive_letter letter && (colon =? 58) | _ => false end.
(** [\\?\], [\\.\] and [\??\], with something that is not a slash after it. *)
Definition has_device_prefix (p : wide) : bool :=
  match p with
  | a :: b :: c :: d :: rest =>
      is_slash a && is_slash d && negb (match rest with e :: _ => is_slash e | [] => false end) &&
      ((is_slash b && ((c =? 63) || (c =? 46))) || ((b =? 63) && (c =? 63)))
  | _ => false
  end.
Definition has_server (p : wide) : bool :=
  match p with a :: b :: c :: _ => is_slash a && is_slash b && negb (is_slash c) | _ => false end.

Fixpoint name_length (p : wide) : nat :=
  match p with [] => O | c :: p => if is_slash c then O else S (name_length p) end.
Fixpoint slash_length (p : wide) : nat :=
  match p with [] => O | c :: p => if is_slash c then S (slash_length p) else O end.

Definition root_name_length (p : wide) : nat :=
  if has_drive p then 2
  else if has_device_prefix p then 3
  else if has_server p then 2 + name_length (drop 2 p) else 0.
Definition root_name (p : wide) : wide := take (root_name_length p) p.
Definition after_root_name (p : wide) : wide := drop (root_name_length p) p.
Definition has_root_directory (p : wide) : bool :=
  match after_root_name p with c :: _ => is_slash c | [] => false end.
Definition root_length (p : wide) : nat := root_name_length p + slash_length (after_root_name p).
Definition relative_path (p : wide) : wide := drop (root_length p) p.

Definition is_absolute (p : wide) : bool :=
  if has_drive p then has_root_directory p else negb (Nat.eqb (root_name_length p) 0).

(** ** File names *)

(** What is left of a text when the characters of its end that satisfy [f] are taken away. *)
Definition trim_end (f : Z → bool) (p : wide) : wide :=
  foldr (λ c kept, if f c && bool_decide (kept = []) then [] else c :: kept) [] p.
(** What stands before the first character [c]. *)
Fixpoint up_to (c : Z) (p : wide) : wide :=
  match p with [] => [] | x :: p => if x =? c then [] else x :: up_to c p end.
Definition no_slash (c : Z) : bool := negb (is_slash c).

Definition path_filename (p : wide) : wide :=
  let r := relative_path p in drop (length (trim_end no_slash r)) r.
Definition path_parent (p : wide) : wide :=
  take (root_length p) p ++ trim_end is_slash (trim_end no_slash (relative_path p)).
(** From the last dot of the file name, unless that is its first character or the name
    is [..]; a stream name after a colon is not part of it. *)
Definition path_extension (p : wide) : wide :=
  let name := up_to 58 (path_filename p) in
  let stem := trim_end (λ c, negb (c =? 46)) name in
  if bool_decide (stem = []) || bool_decide (stem = [46]) || bool_decide (name = [46; 46]) then []
  else 46 :: drop (length stem) name.

(** [operator/] *)
Definition path_append (p q : wide) : wide :=
  let other := after_root_name q in
  if is_absolute q || (negb (bool_decide (root_name q = [])) && negb (bool_decide (root_name p = root_name q))) then q
  else if has_root_directory q then root_name p ++ other
  else if bool_decide (after_root_name p = []) then
    p ++ (if Nat.leb 3 (root_name_length p) then [preferred_separator] else []) ++ other
  else p ++ (if is_slash (default 0 (last p)) then [] else [preferred_separator]) ++ other.

(** ** Elements, order and normal form *)

(** The file names of a relative path; an empty one at the end stands for a separator there. *)
Fixpoint elements_loop (name : wide) (p : wide) : list wide :=
  match p with
  | [] => [name]
  | c :: p =>
      if is_slash c then
        match p with
        | d :: _ => if is_slash d then elements_loop name p else name :: elements_loop [] p
        | [] => [name; []]
        end
      else elements_loop (name ++ [c]) p
  end.
Definition elements (p : wide) : list wide := if bool_decide (p = []) then [] else elements_loop [] p.

Fixpoint wide_lt (a b : wide) : bool :=
  match a, b with
  | _, [] => false
  | [], _ :: _ => true
  | x :: a, y :: b => if x <? y then true else if y <? x then false else wide_lt a b
  end.
Fixpoint elements_lt (a b : list wide) : bool :=
  match a, b with
  | _, [] => false
  | [], _ :: _ => true
  | x :: a, y :: b => if wide_lt x y then true else if wide_lt y x then false else elements_lt a b
  end.
(** [operator<]: the root name, then the root directory, then the elements. *)
Definition path_lt (p q : wide) : bool :=
  if wide_lt (root_name p) (root_name q) then true
  else if wide_lt (root_name q) (root_name p) then false
  else
    match has_root_directory p, has_root_directory q with
    | false, true => true
    | true, false => false
    | _, _ => elements_lt (elements (relative_path p)) (elements (relative_path q))
    end.
(** [std::set::insert] *)
Fixpoint set_insert (p : wide) (l : list wide) : list wide :=
  match l with
  | [] => [p]
  | q :: rest => if path_lt p q then p :: l else if path_lt q p then q :: set_insert p rest else l
  end.

Definition dot : wide := [46].
Definition dot_dot : wide := [46; 46].
(** The elements kept so far, the last one first; a dot or a pair of dots at the end
    leaves a separator there. *)
Fixpoint normal_loop (rooted : bool) (kept : list wide) (names : list wide) : list wide :=
  match names with
  | [] => reverse kept
  | name :: rest =>
      let closed kept := if bool_decide (rest = []) then [] :: kept else kept in
      if bool_decide (name = dot) then normal_loop rooted (closed kept) rest
      else if bool_decide (name = dot_dot) then
        match kept with
        | previous :: older =>
            if bool_decide (previous = dot_dot) then normal_loop rooted (name :: kept) rest
            else normal_loop rooted (closed older) rest
        | [] => if rooted then normal_loop rooted kept rest else normal_loop rooted [name] rest
        end
      else normal_loop rooted (name :: kept) rest
  end.
(** No separator after a final pair of dots, and none alone. *)
Definition drop_final_separator (names : list wide) : list wide :=
  match reverse names with
  | [[]] => []
  | [] :: last :: older => if bool_decide (last = dot_dot) then reverse (last :: older) else names
  | _ => names
  end.
Definition join_elements (names : list wide) : wide :=
  match names with [] => [] | name :: rest => name ++ mjoin ((λ n, preferred_separator :: n) <$> rest) end.
Definition lexically_normal (p : wide) : wide :=
  if bool_decide (p = []) then []
  else
    let rooted := has_root_directory p in
    let names := drop_final_separator (normal_loop rooted [] (elements (relative_path p))) in
    let normal := ((λ c, if is_slash c then preferred_separator else c) <$> root_name p) ++
                  (if rooted then [preferred_separator] else []) ++ join_elements names in
    if bool_decide (normal = []) then dot else normal.

Example append_demo :
  (path_append (wstr "C:\kdbg") (wstr "vmm.dll"), path_append (wstr "C:\a") (wstr "\b"), path_append (wstr "C:\a") (wstr "D:b")) =
  (wstr "C:\kdbg\vmm.dll", wstr "C:\b", wstr "D:b").
Proof. reflexivity. Qed.
Example parts_demo :
  (path_filename (wstr "\??\C:\a\ntos.x.exe"), path_extension (wstr "C:\a.b\nt.x.pdb"), path_parent (wstr "C:\a\\b"),
   path_parent (wstr "C:\a"), path_filename (wstr "\\server\share\a"), path_extension (wstr "C:\.pdb"), is_absolute (wstr "C:a")) =
  (wstr "ntos.x.exe", wstr ".pdb", wstr "C:\a", wstr "C:\", wstr "a", [], false).
Proof. reflexivity. Qed.
Example normal_demo :
  lexically_normal <$> [wstr "C:/a//b/./c/../d"; wstr "C:\a\b\.."; wstr "C:\..\a\"; wstr "a\.."; wstr "..\"; wstr "a\."; wstr "C:\a\."; wstr "C:\."] =
  [wstr "C:\a\b\d"; wstr "C:\a\"; wstr "C:\a\"; wstr "."; wstr ".."; wstr "a\"; wstr "C:\a\"; wstr "C:\"].
Proof. reflexivity. Qed.
