(* ===== verification/MemProcFs.v ===== *)
(** [core/pfn/MemProcFsProvider]: asks a separate process, the bridge, which processes
    use a page frame.  The configuration and its validation, the command line, the
    supervision of the child process, and the parser of its answer.

    The answer of the MemProcFS bridge: [MemProcFsProvider::ParseOutput]. *)

From stdpp Require Import list.
From S2P Require Import Prelude CppStd Common Paths ValueCodec ReverseMapper Iostream Host Wire.
From Stdlib Require Import Ascii String.

#[local] Open Scope Z_scope.

(** [MultiByteToWideChar] and [WideCharToMultiByte] for UTF-8 with the flag that
    rejects invalid characters; [None] is a result of no characters. *)
Class WideText := {
  MultiByteToWide : list Z → option wide;
  WideToMultiByte : wide → option (list Z)
}.

Definition kMaxProtocolMappings : Z := 4096.
Definition kMaxVmmArguments : Z := 64.
Definition kMaxBridgeConfigurationArguments : Z := kMaxVmmArguments * 2 + 4.
Definition kMaxBridgeArguments : Z := kMaxBridgeConfigurationArguments + 2.
Definition kMaxBridgeArgumentBytes : Z := 32 * 1024.
Definition kMaxBridgeOutput : Z := 8 * 1024 * 1024.
Definition kMaxWindowsCommandCharacters : Z := 32767.
Definition kBridgePipeBytes : Z := 64 * 1024.
Definition kBridgePollMilliseconds : Z := 5.
Definition kBridgeShutdownMilliseconds : Z := 1000.

Record MemProcFsConfiguration := mkMemProcFsConfiguration {
  mc_device : option chars;
  mc_vmm_path : option wide;
  mc_vmm_arguments : list chars
}.

Record MemProcFsProvider := mkMemProcFsProvider {
  bridge_path_ : wide;
  configuration_ : MemProcFsConfiguration;
  timeout_ : Z   (* milliseconds *)
}.

(** ** Text *)

Definition IsAllowedPageSize (page_size : Z) : bool :=
  (page_size =? 0x1000) || (page_size =? 0x200000) || (page_size =? 0x40000000).

(** [ReadDecimal]: a word of decimal digits, all of it. *)
Definition ReadDecimal (max : Z) (stream : istream) : option (Z * istream) :=
  match extract_word stream with
  | None => None
  | Some (token, stream) =>
      match token with
      | [] => None
      | front :: _ =>
          if bool_decide (front = plus) || bool_decide (front = minus) then None
          else
            let parsed := from_chars_unsigned 10 max token in
            if bool_decide (fc_ec parsed = errc_ok) && bool_decide (fc_ptr parsed = [])
            then Some (fc_value parsed, stream) else None
      end
  end.

(** The number of continuation bytes and the bits of the lead byte. *)
Definition utf8_first (first : Z) : option (Z * Z) :=
  if first <=? 0x7F then Some (0, first)
  else if (0xC2 <=? first) && (first <=? 0xDF) then Some (1, Z.land first 0x1F)
  else if (0xE0 <=? first) && (first <=? 0xEF) then Some (2, Z.land first 0x0F)
  else if (0xF0 <=? first) && (first <=? 0xF4) then Some (3, Z.land first 0x07)
  else None.
Definition utf8_overlong (continuation_count code_point : Z) : bool :=
  ((continuation_count =? 2) && (code_point <? 0x800)) ||
  ((continuation_count =? 3) && (code_point <? 0x10000)) ||
  ((0xD800 <=? code_point) && (code_point <=? 0xDFFF)) || (0x10FFFF <? code_point).
(** The loop over the text; a round consumes at least one byte. *)
Fixpoint valid_utf8_loop (fuel : nat) (value : list Z) : bool :=
  match fuel with
  | O => false
  | S fuel =>
      match value with
      | [] => true
      | first :: rest =>
          match utf8_first first with
          | None => false
          | Some (count, code_point) =>
              if count =? 0 then valid_utf8_loop fuel rest
              else if sizeZ rest <? count then false
              else
                match utf8_continue code_point (slice value 1 count) with
                | None => false
                | Some code_point =>
                    if utf8_overlong count code_point then false
                    else valid_utf8_loop fuel (drop (Z.to_nat (count + 1)) value)
                end
          end
      end
  end.
Definition IsValidUtf8 (value : list Z) : bool := valid_utf8_loop (S (List.length value)) value.

(** ASCII letters in lower case. *)
Definition ascii_lower (c : Z) : Z := if (65 <=? c) && (c <=? 90) then c + 0x20 else c.
Definition AsciiEqualInsensitive (left right : list Z) : bool :=
  bytes_eqb (ascii_lower <$> left) (ascii_lower <$> right).

(** ** The configuration *)

Definition configuration_error (c : ErrorCode) (msg : string) (req comp : Z) : Result unit :=
  Failure (MakeErrorFull c msg "MemProcFsProvider::ValidateConfiguration" 0 req comp).

Definition ValidateUtf8Value (value : list Z) (label : string) (allow_empty : bool) : Result unit :=
  if (negb allow_empty && bool_decide (value = [])) || existsb (Z.eqb 0) value then
    configuration_error InvalidArgument (label +:+ " is empty or contains an embedded NUL") 0 0
  else if kMaxBridgeArgumentBytes <? sizeZ value then
    configuration_error LimitReached (label +:+ " exceeds the product cap") kMaxBridgeArgumentBytes (sizeZ value)
  else if negb (IsValidUtf8 value) then
    configuration_error InvalidArgument (label +:+ " is not valid UTF-8") 0 0
  else Success tt.

Definition provider_controlled (argument : list Z) : bool :=
  AsciiEqualInsensitive argument (wstr "-device") || AsciiEqualInsensitive argument (wstr "--device") ||
  AsciiEqualInsensitive argument (wstr "-waitinitialize") || AsciiEqualInsensitive argument (wstr "--waitinitialize") ||
  AsciiEqualInsensitive argument (wstr "-disable-python") || AsciiEqualInsensitive argument (wstr "--disable-python").

Definition ValidateDevice (device : option chars) : Result unit :=
  match device with
  | None => Success tt
  | Some device =>
      match ValidateUtf8Value (chars_bytes device) "MemProcFS device" false with
      | Failure e => Failure e
      | Success _ =>
          if bool_decide (head device = Some minus) then
            configuration_error InvalidArgument "MemProcFS device must not be option-like" 0 0
          else Success tt
      end
  end.
Definition ValidateVmmPath (vmm_path : option wide) : Result unit :=
  match vmm_path with
  | None => Success tt
  | Some native =>
      if bool_decide (native = []) then
        configuration_error InvalidArgument "MemProcFS vmm.dll path is empty" 0 0
      else if existsb (Z.eqb 0) native then
        configuration_error InvalidArgument "MemProcFS vmm.dll path contains an embedded NUL" 0 0
      else Success tt
  end.
Fixpoint ValidateArguments (arguments : list chars) : Result unit :=
  match arguments with
  | [] => Success tt
  | argument :: arguments =>
      match ValidateUtf8Value (chars_bytes argument) "MemProcFS additional VMMDLL argument" true with
      | Failure e => Failure e
      | Success _ =>
          if provider_controlled (chars_bytes argument) then
            configuration_error InvalidArgument
              "MemProcFS additional arguments must not override provider-controlled options" 0 0
          else ValidateArguments arguments
      end
  end.
Definition ValidateConfiguration (c : MemProcFsConfiguration) : Result unit :=
  if kMaxVmmArguments <? sizeZ (mc_vmm_arguments c) then
    configuration_error LimitReached "MemProcFS --vmm-arg count exceeds the product cap"
      kMaxVmmArguments (sizeZ (mc_vmm_arguments c))
  else
    match ValidateDevice (mc_device c) with
    | Failure e => Failure e
    | Success _ =>
        match ValidateVmmPath (mc_vmm_path c) with
        | Failure e => Failure e
        | Success _ => ValidateArguments (mc_vmm_arguments c)
        end
    end.

(** ** The command line *)

Definition quote_unit : Z := 34.
Definition backslash_unit : Z := 92.

(** The loop over the characters: the backslashes held back, and what is written. *)
Fixpoint quote_loop (value : wide) (slashes : nat) : wide :=
  match value with
  | [] => replicate (slashes * 2) backslash_unit
  | c :: value =>
      if c =? backslash_unit then quote_loop value (S slashes)
      else if c =? quote_unit then
        replicate (slashes * 2 + 1) backslash_unit ++ quote_unit :: quote_loop value 0
      else replicate slashes backslash_unit ++ c :: quote_loop value 0
  end.
Definition needs_quotes (value : wide) : bool :=
  existsb (λ c, (c =? 32) || (c =? 9) || (c =? quote_unit)) value.
Definition QuoteWindowsArgument (value : wide) : wide :=
  if bool_decide (value = []) then [quote_unit; quote_unit]
  else if negb (needs_quotes value) then value
  else quote_unit :: quote_loop value 0 ++ [quote_unit].

Section Arguments.
Context `{WideText}.

Definition Utf8ToWide (value : chars) : wide :=
  if bool_decide (value = []) then [] else default [] (MultiByteToWide (chars_bytes value)).

Definition execute_error (c : ErrorCode) (msg : string) (native req comp : Z) : Error :=
  MakeErrorFull c msg "MemProcFsProvider::Execute" native req comp.

Fixpoint vmm_arguments (arguments : list chars) : Result (list wide) :=
  match arguments with
  | [] => Success []
  | argument :: arguments =>
      let w := Utf8ToWide argument in
      if negb (bool_decide (argument = [])) && bool_decide (w = []) then
        Failure (execute_error InvalidArgument
          "MemProcFS additional argument could not be converted to UTF-16" 0 0 0)
      else
        match vmm_arguments arguments with
        | Failure e => Failure e
        | Success rest => Success (wstr "--vmm-arg" :: w :: rest)
        end
  end.

Definition device_arguments (device : option chars) : Result (list wide) :=
  match device with
  | None => Success []
  | Some device =>
      let w := Utf8ToWide device in
      if bool_decide (w = []) then
        Failure (execute_error InvalidArgument "MemProcFS device could not be converted to UTF-16" 0 0 0)
      else Success [wstr "--device"; w]
  end.
Definition vmm_path_arguments (vmm_path : option wide) : list wide :=
  match vmm_path with None => [] | Some native => [wstr "--vmm"; native] end.

Definition bridge_arguments (c : MemProcFsConfiguration) (pfn : Z) : Result (list wide) :=
  match device_arguments (mc_device c) with
  | Failure e => Failure e
  | Success device =>
      match vmm_arguments (mc_vmm_arguments c) with
      | Failure e => Failure e
      | Success arguments =>
          let all := device ++ vmm_path_arguments (mc_vmm_path c) ++ arguments ++
                     [wstr "--pfn"; char_code <$> print_number false 10 pfn] in
          if kMaxBridgeArguments <? sizeZ all then
            Failure (execute_error LimitReached "MemProcFS bridge argument count exceeds the product cap" 0
              kMaxBridgeArguments (sizeZ all))
          else Success all
      end
  end.

Fixpoint append_arguments (command : wide) (arguments : list wide) : Result wide :=
  match arguments with
  | [] => Success command
  | argument :: arguments =>
      let command := command ++ 32 :: QuoteWindowsArgument argument in
      if kMaxWindowsCommandCharacters <=? sizeZ command then
        Failure (execute_error LimitReached "MemProcFS bridge command line exceeds the Windows limit" 0
          (kMaxWindowsCommandCharacters - 1) (sizeZ command))
      else append_arguments command arguments
  end.
Definition command_line (bridge : wide) (arguments : list wide) : Result wide :=
  append_arguments (QuoteWindowsArgument bridge) arguments.
End Arguments.

(** ** Lines of a string stream *)

Fixpoint split_line (text : chars) : chars * option chars :=
  match text with
  | [] => ([], None)
  | c :: rest =>
      if bool_decide (c = newline) then ([], Some rest)
      else let '(line, rest) := split_line rest in (c :: line, rest)
  end.
(** [std::getline(stream, line)]: fails when nothing is left to extract. *)
Definition getline_string (s : istream) : option (chars * istream) :=
  if in_eof s then None
  else
    match in_rest s with
    | [] => None
    | text =>
        match split_line text with
        | (line, Some rest) => Some (line, mkIstream rest false)
        | (line, None) => Some (line, mkIstream [] true)
        end
    end.

Definition in_peek (s : istream) : option ascii := if in_eof s then None else head (in_rest s).
(** [row >> std::ws], then a string in quotation marks. *)
Definition extract_strictly_quoted (row : istream) : option (chars * istream) :=
  let row := ws row in
  if bool_decide (in_peek row = Some quote_mark) then extract_quoted row else None.

(** ** Records *)

Definition parse_failure {A} (msg : string) : Result A :=
  Failure (MakeError ParseError msg "MemProcFsProvider::ParseOutput").
Definition provider_Name : string := "memprocfs-bridge".

(** A map from the numbers 0 to 3. *)
Definition confidence_of (confidence : Z) : MappingConfidence :=
  if confidence =? 1 then Low else if confidence =? 2 then Medium
  else if confidence =? 3 then High else ConfidenceUnknown.
Definition is_flag (v : Z) : bool := negb (negb (v =? 0) && negb (v =? 1)).

Definition text_of (text : chars) : string := string_of_list_ascii text.

Record MapNumbers := mkMapNumbers {
  mn_pid : Z; mn_virtual_address : Z; mn_pte_address : Z; mn_page_size : Z;
  mn_confidence : Z; mn_shared : Z; mn_writable : Z; mn_user : Z; mn_nx : Z
}.
Definition read_map_numbers (row : istream) : option (MapNumbers * istream) :=
  '(pid, row) ← ReadDecimal u32_max row;
  '(va, row) ← ReadDecimal u64_max row;
  '(pte, row) ← ReadDecimal u64_max row;
  '(page_size, row) ← ReadDecimal u64_max row;
  '(confidence, row) ← ReadDecimal u32_max row;
  '(shared, row) ← ReadDecimal u32_max row;
  '(writable, row) ← ReadDecimal u32_max row;
  '(user, row) ← ReadDecimal u32_max row;
  '(nx, row) ← ReadDecimal u32_max row;
  Some (mkMapNumbers pid va pte page_size confidence shared writable user nx, row).

Definition make_mapping (n : MapNumbers) (mapping_type process_name : chars) : ProcessUsage :=
  mkProcessUsage (mn_pid n) (text_of process_name) (mn_virtual_address n) (mn_pte_address n) (mn_page_size n)
    (text_of mapping_type) provider_Name (confidence_of (mn_confidence n))
    (mn_shared n =? 1) (mn_writable n =? 1) (mn_user n =? 1) (mn_nx n =? 1).

Definition parse_map (row : istream) : Result ProcessUsage :=
  match read_map_numbers row with
  | None => parse_failure "MemProcFS MAP record is malformed"
  | Some (n, row) =>
      match extract_strictly_quoted row with
      | None => parse_failure "MemProcFS MAP record has an invalid mapping type"
      | Some (mapping_type, row) =>
          match extract_strictly_quoted row with
          | None => parse_failure "MemProcFS MAP record has an invalid process name"
          | Some (process_name, row) =>
              if negb (in_eof (ws row)) || (3 <? mn_confidence n) || negb (is_flag (mn_shared n)) ||
                 negb (is_flag (mn_writable n)) || negb (is_flag (mn_user n)) || negb (is_flag (mn_nx n)) ||
                 negb (IsAllowedPageSize (mn_page_size n))
              then parse_failure "MemProcFS MAP record contains an invalid field value"
              else Success (make_mapping n mapping_type process_name)
          end
      end
  end.

(** An ERROR record, always a failure. *)
Definition parse_error (row : istream) : Error :=
  let failure msg := MakeError ParseError msg "MemProcFsProvider::ParseOutput" in
  match extract_strictly_quoted row with
  | None => failure "MemProcFS ERROR record is malformed"
  | Some (message, row) =>
      if negb (in_eof (ws row)) then failure "MemProcFS ERROR record has trailing fields"
      else
        MakeError BridgeUnavailable
          (if bool_decide (message = []) then "MemProcFS bridge reported an error" else text_of message)
          "MemProcFsProvider::ParseOutput"
  end.

(** The loop over the records up to END: the mappings, and whether END was seen. *)
Fixpoint record_loop (fuel : nat) (max_mappings : Z) (stream : istream) (mappings : list ProcessUsage)
    : Result (list ProcessUsage * bool * istream) :=
  match fuel with
  | O => Failure (MakeError InternalInvariant "" "")
  | S fuel =>
      match getline_string stream with
      | None => Success (mappings, false, mkIstream [] true)
      | Some (line, stream) =>
          match extract_word (istringstream line) with
          | None => record_loop fuel max_mappings stream mappings
          | Some (kind, row) =>
              if bool_decide (kind = str "END") then
                if negb (in_eof (ws row)) then parse_failure "MemProcFS END record has trailing fields"
                else Success (mappings, true, stream)
              else if bool_decide (kind = str "ERROR") then Failure (parse_error row)
              else if negb (bool_decide (kind = str "MAP")) then
                parse_failure "MemProcFS bridge returned an unknown record"
              else if max_mappings <=? sizeZ mappings then
                Failure (MakeErrorFull LimitReached "MemProcFS bridge returned too many mapping records"
                  "MemProcFsProvider::ParseOutput" 0 max_mappings (sizeZ mappings + 1))
              else
                match parse_map row with
                | Failure e => Failure e
                | Success usage => record_loop fuel max_mappings stream (mappings ++ [usage])
                end
          end
      end
  end.

(** Only blank lines may follow END. *)
Fixpoint only_blank (fuel : nat) (stream : istream) : bool :=
  match fuel with
  | O => false
  | S fuel =>
      match getline_string stream with
      | None => true
      | Some (line, stream) => in_eof (ws (istringstream line)) && only_blank fuel stream
      end
  end.

Definition parse_header (expected_pfn : Z) (line : chars) : Result Z :=
  let fields :=
    '(record, header) ← extract_word (istringstream line);
    '(protocol, header) ← ReadDecimal u32_max header;
    '(pfn, header) ← ReadDecimal u64_max header;
    if negb (bool_decide (record = str "KDBG_PFN_RESULT")) || negb (protocol =? 1) || negb (pfn =? expected_pfn)
    then None else Some (pfn, header) in
  match fields with
  | None => parse_failure "MemProcFS bridge returned an invalid protocol header"
  | Some (pfn, header) =>
      if negb (in_eof (ws header)) then parse_failure "MemProcFS bridge protocol header has trailing fields"
      else Success pfn
  end.

Definition ParseOutput (expected_pfn : Z) (output : chars) (max_mappings : Z) : Result PfnUsageResult :=
  if max_mappings =? 0 then
    Failure (MakeError InvalidArgument "MemProcFS protocol mapping limit must be non-zero"
      "MemProcFsProvider::ParseOutput")
  else
    match getline_string (istringstream output) with
    | None => parse_failure "MemProcFS bridge response is empty"
    | Some (line, stream) =>
        match parse_header expected_pfn line with
        | Failure e => Failure e
        | Success pfn =>
            let fuel := S (List.length output) in
            match record_loop fuel max_mappings stream [] with
            | Failure e => Failure e
            | Success (_, false, _) => parse_failure "MemProcFS bridge response is missing END"
            | Success (mappings, true, stream) =>
                if only_blank fuel stream then Success (mkPfnUsageResult pfn mappings provider_Name)
                else parse_failure "MemProcFS bridge response has records after END"
            end
        end
    end.

Example parse_demo :
  ParseOutput 18 (str "KDBG_PFN_RESULT	1	18" ++ newline :: str "MAP	4	4096	8	4096	3	0	1	1	0	" ++
    insert_quoted (str "file-backed") ++ str " " ++ insert_quoted (str "a b.exe") ++ newline :: str "END") 4096 =
  Success (mkPfnUsageResult 18 [mkProcessUsage 4 "a b.exe" 4096 8 4096 "file-backed" "memprocfs-bridge" High
    false true true false] "memprocfs-bridge").
Proof. vm_compute. reflexivity. Qed.
