(* ===== verification/MemProcFsBridge.v ===== *)
(** [plugins/memprocfs_bridge/main.cpp]: the process that loads the MemProcFS library,
    asks it about one page frame and prints the answer. *)

From stdpp Require Import list.
From S2P Require Import Prelude CppStd Wire Common Paths Iostream Host MemProcFs.
From Stdlib Require Import Ascii String.

#[local] Open Scope Z_scope.

Definition kPfnMapVersion : Z := 1.
Definition kPfnFlagExtended : Z := 1.
Definition kProcessStringUserImage : Z := 2.
Definition kMaxCommandArgumentBytes : Z := 32 * 1024.
Definition kMaxProtocolNameBytes : Z := 1024.

(** ** Text *)

(** What follows the last separator of a path. *)
Definition BaseName (path : chars) : chars :=
  foldl (λ base c, if (char_code c =? 47) || (char_code c =? 92) then [] else base ++ [c]) [] path.

Definition ProtocolText (value : chars) : chars :=
  (λ c, let byte := char_code c in
        if (byte <? 0x20) || (byte =? 0x7F) then "?"%char else c)
    <$> take (Z.to_nat kMaxProtocolNameBytes) value.

Definition ExtendedTypeName (type : Z) : string :=
  if type =? 1 then "unused" else if type =? 2 then "process-private" else if type =? 3 then "page-table"
  else if type =? 4 then "large-page" else if type =? 5 then "driver-locked"
  else if type =? 6 then "shareable" else if type =? 7 then "file-backed" else "unknown".

(** The loop over the digits; [None] for another character and for an overflow. *)
Fixpoint unsigned_loop (base parsed : Z) (text : wide) : option Z :=
  match text with
  | [] => Some parsed
  | c :: text =>
      let digit :=
        if (48 <=? c) && (c <=? 57) then Some (c - 48)
        else if (base =? 16) && (97 <=? c) && (c <=? 102) then Some (c - 97 + 10)
        else if (base =? 16) && (65 <=? c) && (c <=? 70) then Some (c - 65 + 10)
        else None in
      match digit with
      | None => None
      | Some digit =>
          if (base <=? digit) || ((u64_max - digit) `div` base <? parsed) then None
          else unsigned_loop base (parsed * base + digit) text
      end
  end.
Definition hex_prefix (text : wide) : bool :=
  match text with
  | first :: x :: _ :: _ => (first =? 48) && ((x =? 120) || (x =? 88))
  | _ => false
  end.
Definition ParseUnsigned (text : wide) : option Z :=
  if bool_decide (text = []) then None
  else if hex_prefix text then unsigned_loop 16 0 (drop 2 text)
  else unsigned_loop 10 0 text.

(** ** Options *)

Record Options := mkOptions {
  opt_pfn : option Z;
  opt_device : wide;
  opt_vmm_path : wide;
  opt_vmm_arguments : list wide
}.
#[export] Instance Options_eta : Eta Options := λ o,
  mkOptions (opt_pfn o) (opt_device o) (opt_vmm_path o) (opt_vmm_arguments o).

Inductive Parsed := ParsedOptions (options : Options) | OptionError (error : chars) | HelpPrinted.

Section Options.
Context `{WideText}.

Definition WideToUtf8 (value : wide) : list Z :=
  if bool_decide (value = []) then [] else default [] (WideToMultiByte value).

(** A wide text that has no UTF-8 form, or too long a one. *)
Definition unusable (value : wide) : bool :=
  (negb (bool_decide (value = [])) && bool_decide (WideToUtf8 value = [])) ||
  (kMaxCommandArgumentBytes <? sizeZ (WideToUtf8 value)).
Definition unusable_device (device : wide) : bool :=
  bool_decide (device = []) || bool_decide (head device = Some 45) ||
  bool_decide (WideToUtf8 device = []) || (kMaxCommandArgumentBytes <? sizeZ (WideToUtf8 device)).

Definition parse_pfn (value : wide) (options : Options) : Options + chars :=
  if 32 <? sizeZ value then inr (str "--pfn is too long")
  else
    match ParseUnsigned value with
    | Some parsed =>
        if u32_max <? parsed then inr (str "--pfn is invalid or exceeds 32 bits")
        else inl (options <| opt_pfn := Some parsed |>)
    | None => inr (str "--pfn is invalid or exceeds 32 bits")
    end.

(** The loop over the arguments after the program's name. *)
Fixpoint options_loop (arguments : list wide) (saw_device saw_vmm : bool) (options : Options) : Parsed :=
  match arguments with
  | [] => ParsedOptions options
  | argument :: rest =>
      let named name := bool_decide (argument = wstr name) in
      let fail msg := OptionError (str msg) in
      if unusable argument then fail "Command-line argument exceeds the product cap"
      else if named "--pfn" then
        if bool_decide (is_Some (opt_pfn options)) then fail "--pfn may be specified only once"
        else
          match rest with
          | [] => fail "--pfn requires a value"
          | value :: rest =>
              match parse_pfn value options with
              | inl options => options_loop rest saw_device saw_vmm options
              | inr error => OptionError error
              end
          end
      else if named "--device" then
        if saw_device then fail "--device may be specified only once"
        else
          match rest with
          | [] => fail "--device requires a value"
          | device :: rest =>
              if unusable_device device then fail "--device is empty, option-like, or too long"
              else options_loop rest true saw_vmm (options <| opt_device := device |>)
          end
      else if named "--vmm" then
        if saw_vmm then fail "--vmm may be specified only once"
        else
          match rest with
          | [] => fail "--vmm requires a value"
          | path :: rest =>
              if bool_decide (path = []) || unusable path then fail "--vmm is empty or too long"
              else options_loop rest saw_device true (options <| opt_vmm_path := path |>)
          end
      else if named "--vmm-arg" then
        match rest with
        | [] => fail "--vmm-arg requires a value"
        | vmm_argument :: rest =>
            if (kMaxVmmArguments <=? sizeZ (opt_vmm_arguments options)) || unusable vmm_argument then
              fail "Too many or oversized --vmm-arg values"
            else if provider_controlled vmm_argument then
              fail "--vmm-arg must not override provider-controlled options"
            else
              options_loop rest saw_device saw_vmm
                (options <| opt_vmm_arguments := opt_vmm_arguments options ++ [vmm_argument] |>)
        end
      else if named "--help" || named "-h" then HelpPrinted
      else OptionError (str "Unknown argument: " ++ ProtocolText (byte_chars (WideToUtf8 argument)))
  end.

Definition ParseOptions (configured_device : wide) (arguments : list wide) : Parsed :=
  let device := if bool_decide (configured_device = []) then wstr "pmem" else configured_device in
  match options_loop (drop 1 arguments) false false (mkOptions None device [] []) with
  | ParsedOptions options =>
      if negb (bool_decide (is_Some (opt_pfn options))) then OptionError (str "--pfn is required")
      else if unusable_device (opt_device options) then
        OptionError (str "Configured MemProcFS device is empty or too long")
      else ParsedOptions options
  | r => r
  end.
End Options.

(** ** The library *)

Record PfnEntry := mkPfnEntry {
  pe_pfn : Z;
  pe_extended_type : Z;
  pe_owner_pid : Z;
  pe_virtual_address : Z;
  pe_pte_address : Z;
  pe_original_pte : Z
}.
Record PfnMap := mkPfnMap { pm_version : Z; pm_count : Z; pm_entries : list PfnEntry }.

(** Windows, and the functions of vmm.dll.  A module, a handle, a map and a name are
    numbered; 0 is none. *)
Inductive VmmCall :=
  | CommandLine                                       (* the decoded arguments *)
  | ConfiguredDevice                                  (* KDBG_MEMPROCFS_DEVICE *)
  | ExecutableDirectory
  | VmmPathAbsolute (p : wide)
  | VmmPathStatus (p : wide)
  | LoadLibrary (p : wide)
  | GetProcAddress (module : Z) (name : string)
  | FreeLibrary (module : Z)
  | VmmInitialize (arguments : list (list Z))
  | VmmClose (handle : Z)
  | VmmGetPfnEx (handle pfn flags : Z)
  | VmmProcessString (handle process_id what : Z)
  | VmmMemFree (allocation : Z)
  | StdoutFailed.

Definition vmm_reply (c : VmmCall) : Type :=
  match c with
  | CommandLine => option (list wide)
  | ConfiguredDevice | ExecutableDirectory => wide
  | VmmPathAbsolute _ => Z * wide                     (* error, path *)
  | VmmPathStatus _ => Z * bool                       (* error, whether a regular file *)
  | LoadLibrary _ => Native Z
  | GetProcAddress _ _ => bool
  | FreeLibrary _ | VmmClose _ | VmmMemFree _ => unit
  | VmmInitialize _ => Z * Z                          (* the last error, the handle *)
  | VmmGetPfnEx _ _ _ => Z * bool * option (Z * PfnMap)
  | VmmProcessString _ _ _ => option (Z * chars)
  | StdoutFailed => bool
  end.

Record BridgeExit := mkBridgeExit { exit_code : Z; stdout : chars; stderr : chars }.

(** The standard output is a text stream: a line ends with a carriage return too. *)
Definition text_mode (text : chars) : chars :=
  c ← text; if bool_decide (c = newline) then [ascii_of_N 13; newline] else [c].

Definition line (text : chars) : chars := text ++ [newline].
Definition bridge_bit (b : bool) : Z := if b then 1 else 0.

(** The fields of a mapping record. *)
Definition has_pid (e : PfnEntry) : bool := negb (pe_extended_type e =? 3) && negb (pe_extended_type e =? 1).
Definition entry_pid (e : PfnEntry) : Z := if has_pid e then pe_owner_pid e else 0.
Definition entry_va (e : PfnEntry) : Z := if has_pid e then pe_virtual_address e else 0.
Definition entry_shared (e : PfnEntry) : bool := (pe_extended_type e =? 6) || (pe_extended_type e =? 7).
Definition pte_bit (e : PfnEntry) (bit : Z) : bool :=
  negb (Z.land (pe_original_pte e) (Z.shiftl 1 bit) =? 0).
Definition entry_confidence (e : PfnEntry) : Z :=
  if negb (entry_pid e =? 0) && negb (entry_va e =? 0) then 3 else if negb (entry_pid e =? 0) then 2 else 1.
Definition map_fields (e : PfnEntry) (process_name : chars) : list chars :=
  [str "MAP"; insert_int (entry_pid e); insert_int (entry_va e); insert_int (pe_pte_address e);
   insert_int 0x1000; insert_int (entry_confidence e); insert_int (bridge_bit (entry_shared e));
   insert_int (bridge_bit (pte_bit e 1)); insert_int (bridge_bit (pte_bit e 2));
   insert_int (bridge_bit (pte_bit e 63)); insert_quoted (str (ExtendedTypeName (pe_extended_type e)));
   insert_quoted process_name].

Section Main.
Context {V : Type} `{!Host VmmCall vmm_reply V} `{WideText}.

Abbreviation vm c v := (host (C := VmmCall) (reply := vmm_reply) (O := V) c v).

Definition required_exports : list string :=
  ["VMMDLL_Initialize"; "VMMDLL_Close"; "VMMDLL_MemFree"; "VMMDLL_Map_GetPfnEx"; "VMMDLL_ProcessGetInformationString"].
Fixpoint load_exports (module : Z) (names : list string) (v : V) : option chars * V :=
  match names with
  | [] => (None, v)
  | name :: names =>
      let '(found, v) := vm (GetProcAddress module name) v in
      if (found : bool) then load_exports module names v
      else (Some (str "vmm.dll is missing required API export: " ++ str name), v)
  end.

(** The module, 0 when none was loaded, and the error if there is one. *)
Definition LoadApi (explicit_path : wide) (v : V) : Z * option chars * V :=
  let '(directory, v) := if bool_decide (explicit_path = []) then vm ExecutableDirectory v else ([], v) in
  if bool_decide (explicit_path = []) && bool_decide (directory = []) then
    (0, Some (str "Unable to resolve the bridge directory for vmm.dll"), v)
  else
    let path := if bool_decide (explicit_path = []) then path_append directory (wstr "vmm.dll") else explicit_path in
    let '(path_error, path, v) := let '((e, p), v) := vm (VmmPathAbsolute path) v in (e, p, v) in
    if negb (path_error =? 0) then
      (0, Some (str "Unable to resolve the configured vmm.dll path (error " ++ insert_int path_error ++ str ")"), v)
    else
      let '((status_error, regular), v) := vm (VmmPathStatus path) v in
      if negb (status_error =? 0) || negb regular then
        (0, Some (str "Configured vmm.dll is unavailable or is not a regular file"), v)
      else
        match vm (LoadLibrary path) v with
        | (inl native, v) =>
            (0, Some (str "Unable to safely load configured vmm.dll or a side-by-side/System32 dependency (Win32 error " ++
                      insert_int native ++ str ")"), v)
        | (inr module, v) => let '(error, v) := load_exports module required_exports v in (module, error, v)
        end.

(** The additional arguments as UTF-8; [None] when one has no such form. *)
Fixpoint encode_arguments (arguments : list wide) : option (list (list Z)) :=
  match arguments with
  | [] => Some []
  | argument :: arguments =>
      if negb (bool_decide (argument = [])) && bool_decide (WideToUtf8 argument = []) then None
      else option_map (cons (WideToUtf8 argument)) (encode_arguments arguments)
  end.
Definition vmm_argv (encoded_device : list Z) (arguments : list (list Z)) : list (list Z) :=
  [wstr "kdbg-memprocfs-bridge"; wstr "-device"; encoded_device; wstr "-waitinitialize"; wstr "-disable-python"] ++
  arguments.

Definition native_suffix (native : Z) : chars :=
  if native =? 0 then [] else str " (Win32 error " ++ insert_int native ++ str ")".
Definition initialize_diagnostic (device : wide) (encoded_device : list Z) (native : Z) : chars :=
  str "stage=VMMDLL_Initialize device=" ++ quote_mark :: ProtocolText (byte_chars encoded_device) ++
  quote_mark :: str " failed" ++ native_suffix native ++
  if bool_decide (device = wstr "pmem") then
    str "; pmem acquisition is not ready: verify elevated execution, the compatible LeechCore runtime, and its acquisition driver"
  else str "; verify that the acquisition device is readable and matches the installed MemProcFS runtime".

(** The loop over the entries of the map: the text, whether the frame was found. *)
Fixpoint entries_loop (handle requested : Z) (entries : list PfnEntry) (v : V) : chars * bool * V :=
  match entries with
  | [] => ([], false, v)
  | entry :: entries =>
      if negb (pe_pfn entry =? requested) then entries_loop handle requested entries v
      else
        let '(process_name, v) :=
          if negb (entry_pid entry =? 0) then
            match vm (VmmProcessString handle (entry_pid entry) kProcessStringUserImage) v with
            | (Some (name, text), v) =>
                let '(_, v) := vm (VmmMemFree name) v in (ProtocolText (BaseName text), v)
            | (None, v) => ([], v)
            end
          else ([], v) in
        let '(text, _, v) := entries_loop handle requested entries v in
        (line (tabbed (map_fields entry process_name)) ++ text, true, v)
  end.

(** [Fail] after what was already printed. *)
Definition bridge_fail (printed message : chars) : BridgeExit := mkBridgeExit 2 (text_mode printed) (text_mode (line message)).

Definition print_map (handle requested : Z) (m : PfnMap) (v : V) : BridgeExit * V :=
  if negb (pm_version m =? kPfnMapVersion) || negb (pm_count m =? 1) then
    (bridge_fail [] (str "MemProcFS returned an incompatible PFN map (version=" ++ insert_int (pm_version m) ++
                     str ", count=" ++ insert_int (pm_count m) ++ str ")"), v)
  else
    let header := line (tabbed [str "KDBG_PFN_RESULT"; insert_int 1; insert_int requested]) in
    let '(text, found, v) := entries_loop handle requested (take (Z.to_nat (pm_count m)) (pm_entries m)) v in
    if negb found then
      (bridge_fail (header ++ text) (str "MemProcFS PFN map did not contain the requested PFN"), v)
    else
      let printed := header ++ text ++ line (str "END") in
      let '(failed, v) := vm StdoutFailed v in
      if (failed : bool) then (bridge_fail printed (str "Failed while writing the bridge protocol response"), v)
      else (mkBridgeExit 0 (text_mode printed) [], v).

(** With a handle of the library: the query; the map is freed at its end. *)
Definition query_frame (handle requested : Z) (v : V) : BridgeExit * V :=
  let '((native, queried, map), v) := vm (VmmGetPfnEx handle requested kPfnFlagExtended) v in
  let free v := match map with Some (allocation, _) => (vm (VmmMemFree allocation) v).2 | None => v end in
  match map with
  | Some (_, m) =>
      if queried then let '(r, v) := print_map handle requested m v in (r, free v)
      else (bridge_fail [] (str "stage=VMMDLL_Map_GetPfnEx failed" ++ native_suffix native), free v)
  | None => (bridge_fail [] (str "stage=VMMDLL_Map_GetPfnEx failed" ++ native_suffix native), v)
  end.

(** With the library loaded. *)
Definition run_library (options : Options) (requested : Z) (v : V) : BridgeExit * V :=
  let encoded_device := WideToUtf8 (opt_device options) in
  if bool_decide (encoded_device = []) then
    (bridge_fail [] (str "Configured MemProcFS device is not valid Unicode"), v)
  else
    match encode_arguments (opt_vmm_arguments options) with
    | None => (bridge_fail [] (str "MemProcFS additional argument is not valid Unicode"), v)
    | Some arguments =>
        let '((native, handle), v) := vm (VmmInitialize (vmm_argv encoded_device arguments)) v in
        if handle =? 0 then (bridge_fail [] (initialize_diagnostic (opt_device options) encoded_device native), v)
        else let '(r, v) := query_frame handle requested v in (r, (vm (VmmClose handle) v).2)
    end.

Definition bridge_usage : chars :=
  line (str "Usage: memprocfs_bridge --pfn <number> [--device pmem|dump.raw] [--vmm path] [--vmm-arg value]").

Definition bridge_main (v : V) : BridgeExit * V :=
  match vm CommandLine v with
  | (None, v) => (bridge_fail [] (str "Windows command line could not be decoded as UTF-16 argv"), v)
  | (Some arguments, v) =>
      let '(configured_device, v) := vm ConfiguredDevice v in
      match ParseOptions configured_device arguments with
      | OptionError error => (bridge_fail [] error, v)
      | HelpPrinted => (mkBridgeExit 0 (text_mode bridge_usage) [], v)
      | ParsedOptions options =>
          let '(module, error, v) := LoadApi (opt_vmm_path options) v in
          let '(r, v) :=
            match error with
            | Some error => (bridge_fail [] error, v)
            | None => run_library options (default 0 (opt_pfn options)) v
            end in
          (r, if module =? 0 then v else (vm (FreeLibrary module) v).2)
      end
  end.
End Main.
