(* ===== verification/CommandLine.v ===== *)
(** Windows command lines: what the documentation of [CommandLineToArgvW] says about the
    text of an argument, and that [QuoteWindowsArgument] writes such texts. *)

From stdpp Require Import list.
From S2P Require Import Prelude CppStd Common Paths MemProcFs.

#[local] Open Scope Z_scope.

(** ** The rules *)

Definition blank (c : Z) : Prop := c = 32 ∨ c = 9.
Definition backslashes (n : nat) : wide := replicate n backslash_unit.

(** Text between quotes and what it stands for.  Backslashes are themselves, except in
    front of a quote: there two of them are one, and one more makes the quote a
    character.  The text is followed by its closing quote. *)
Inductive quoted_text : wide → wide → Prop :=
  | quoted_end n : quoted_text (backslashes (n * 2)) (backslashes n)
  | quoted_char n c t v :
      c ≠ quote_unit → c ≠ backslash_unit → quoted_text t v →
      quoted_text (backslashes n ++ c :: t) (backslashes n ++ c :: v)
  | quoted_quote n t v :
      quoted_text t v →
      quoted_text (backslashes (n * 2 + 1) ++ quote_unit :: t) (backslashes n ++ quote_unit :: v).

Definition bare_text (t : wide) : Prop := t ≠ [] ∧ Forall (λ c, ¬ blank c ∧ c ≠ quote_unit) t.
Definition argument_text (t v : wide) : Prop :=
  (bare_text t ∧ v = t) ∨ ∃ t', t = quote_unit :: t' ++ [quote_unit] ∧ quoted_text t' v.
(** The name of the program has no escapes. *)
Definition program_text (t v : wide) : Prop :=
  (bare_text t ∧ v = t) ∨ (t = quote_unit :: v ++ [quote_unit] ∧ quote_unit ∉ v).

Definition command_of (program : wide) (arguments : list wide) : wide :=
  program ++ mjoin (cons 32 <$> arguments).

(** [CommandLineToArgvW], with the rules as its law. *)
Class ArgvSplit := {
  CommandLineToArgvW : wide → option (list wide);
  argv_law program arguments name values :
    program_text program name → Forall2 argument_text arguments values →
    CommandLineToArgvW (command_of program arguments) = Some (name :: values)
}.

(** ** Quoting *)

Lemma needs_quotes_bare v : v ≠ [] → needs_quotes v = false → bare_text v.
Proof.
  intros Hv Hn. split; [done|]. unfold needs_quotes in Hn. apply Forall_forall. intros c Hc.
  assert (¬ ((c =? 32) || (c =? 9) || (c =? quote_unit) = true)) as H.
  { intros E. apply not_true_iff_false in Hn. apply Hn. apply existsb_exists. exists c.
    split; [by apply list_elem_of_In|done]. }
  rewrite !orb_true_iff, !Z.eqb_eq in H. unfold blank. tauto.
Qed.

Lemma backslashes_cons n (l : wide) : backslashes n ++ backslash_unit :: l = backslashes (S n) ++ l.
Proof. unfold backslashes. by rewrite replicate_S_end, <- app_assoc. Qed.

Lemma quote_loop_text v n : quoted_text (quote_loop v n) (backslashes n ++ v).
Proof.
  revert n. induction v as [|c v IH]; intros n; cbn [quote_loop].
  - rewrite app_nil_r. apply quoted_end.
  - destruct (Z.eqb_spec c backslash_unit) as [->|Hb]; [by rewrite backslashes_cons|].
    destruct (Z.eqb_spec c quote_unit) as [->|Hq].
    + apply quoted_quote. exact (IH 0%nat).
    + by apply quoted_char, (IH 0%nat).
Qed.

Lemma QuoteWindowsArgument_text v : argument_text (QuoteWindowsArgument v) v.
Proof.
  unfold QuoteWindowsArgument. destruct (bool_decide_reflect (v = [])) as [->|Hv].
  { right. exists []. split; [done|]. exact (quoted_end 0). }
  destruct (needs_quotes v) eqn:Hn; cbn [negb].
  - right. eexists. split; [done|]. exact (quote_loop_text v 0).
  - left. split; [by apply needs_quotes_bare|done].
Qed.

(** A path without quotes that does not end in a backslash. *)
Lemma quote_loop_plain v n :
  quote_unit ∉ v → last v ≠ Some backslash_unit → v ≠ [] → quote_loop v n = backslashes n ++ v.
Proof.
  revert n. induction v as [|c v IH]; intros n Hq Hl Hv; [done|]. apply not_elem_of_cons in Hq as [Hc Hq].
  cbn [quote_loop]. destruct (Z.eqb_spec c backslash_unit) as [->|Hb].
  - destruct v as [|d v]; [done|]. rewrite IH by done. by rewrite backslashes_cons.
  - destruct (Z.eqb_spec c quote_unit); [by subst|].
    destruct v as [|d v]; [done|]. by rewrite (IH 0%nat).
Qed.

Definition plain_path (p : wide) : Prop := p ≠ [] ∧ (quote_unit ∉ p) ∧ (last p ≠ Some backslash_unit).

Lemma QuoteWindowsArgument_program p : plain_path p → program_text (QuoteWindowsArgument p) p.
Proof.
  intros (Hp & Hq & Hl). unfold QuoteWindowsArgument. rewrite bool_decide_false by done.
  destruct (needs_quotes p) eqn:Hn; cbn [negb].
  - right. by rewrite quote_loop_plain.
  - left. split; [by apply needs_quotes_bare|done].
Qed.

Lemma append_arguments_command program arguments command :
  append_arguments program arguments = Success command →
  command = command_of program (QuoteWindowsArgument <$> arguments).
Proof.
  unfold command_of. revert program. induction arguments as [|a arguments IH]; intros program; cbn [append_arguments].
  - intros [= <-]. csimpl. by rewrite app_nil_r.
  - cbv zeta. destruct (kMaxWindowsCommandCharacters <=? _); [done|]. intros ->%IH. csimpl.
    by rewrite <- app_assoc.
Qed.

(** The arguments arrive as they were. *)
Lemma command_line_argv `{ArgvSplit} bridge arguments command :
  plain_path bridge → command_line bridge arguments = Success command →
  CommandLineToArgvW command = Some (bridge :: arguments).
Proof.
  intros Hb ->%append_arguments_command. apply argv_law; [by apply QuoteWindowsArgument_program|].
  induction arguments; csimpl; constructor; [apply QuoteWindowsArgument_text|done].
Qed.

(** ** A function with the law *)

Definition is_blank (c : Z) : bool := (c =? 32) || (c =? 9).

(** The rest of an argument: the backslashes held back, whether inside quotes.  The
    value, and what follows the blank after the argument. *)
Fixpoint split_argument (held : nat) (inside : bool) (text : wide) : wide * option wide :=
  match text with
  | [] => (backslashes held, None)
  | c :: text =>
      if c =? backslash_unit then split_argument (S held) inside text
      else if c =? quote_unit then
        if Nat.even held then
          let '(v, rest) := split_argument 0 (negb inside) text in (backslashes (Nat.div2 held) ++ v, rest)
        else let '(v, rest) := split_argument 0 inside text in (backslashes (Nat.div2 held) ++ quote_unit :: v, rest)
      else if is_blank c && negb inside then (backslashes held, Some text)
      else let '(v, rest) := split_argument 0 inside text in (backslashes held ++ c :: v, rest)
  end.
Fixpoint split_arguments (fuel : nat) (text : option wide) : list wide :=
  match fuel, text with
  | S fuel, Some text => let '(v, rest) := split_argument 0 false text in v :: split_arguments fuel rest
  | _, _ => []
  end.
(** The name of the program, up to a quote or a blank. *)
Fixpoint split_program (inside : bool) (text : wide) : wide * option wide :=
  match text with
  | [] => ([], None)
  | c :: text =>
      if c =? quote_unit then split_program (negb inside) text
      else if is_blank c && negb inside then ([], Some text)
      else let '(v, rest) := split_program inside text in (c :: v, rest)
  end.
Definition split_command (command : wide) : option (list wide) :=
  let '(name, rest) := split_program false command in
  Some (name :: split_arguments (S (List.length command)) rest).

(** What follows an argument: the end, or a blank. *)
Definition after_argument (tail : wide) : option wide := match tail with [] => None | _ :: rest => Some rest end.
Definition ends_argument (tail : wide) : Prop := match tail with [] => True | c :: _ => c = 32 end.

Lemma split_backslashes n held inside text :
  split_argument held inside (backslashes n ++ text) = split_argument (n + held) inside text.
Proof.
  revert held. induction n as [|n IH]; intros held; [done|]. cbn [backslashes replicate app split_argument].
  rewrite Z.eqb_refl. change (replicate n backslash_unit) with (backslashes n). rewrite IH. f_equal. lia.
Qed.
Lemma split_tail tail : ends_argument tail → split_argument 0 false tail = ([], after_argument tail).
Proof. destruct tail as [|c tail]; [done|]. by intros ->. Qed.

Lemma split_quoted t v tail :
  quoted_text t v → ends_argument tail →
  split_argument 0 true (t ++ quote_unit :: tail) = (v, after_argument tail).
Proof.
  intros Hq Ht. induction Hq as [n|n c t v Hc Hb _ IH|n t v _ IH].
  - rewrite split_backslashes. cbn [split_argument]. rewrite Nat.add_0_r.
    change (quote_unit =? backslash_unit) with false. change (quote_unit =? quote_unit) with true. cbn iota.
    rewrite (proj2 (Nat.even_spec (n * 2))) by (exists n; lia).
    cbn [negb]. rewrite split_tail by done. rewrite Nat.mul_comm, Nat.div2_double. by rewrite app_nil_r.
  - rewrite <- app_assoc, split_backslashes. cbn [app split_argument]. rewrite Nat.add_0_r.
    rewrite (proj2 (Z.eqb_neq _ _) Hb), (proj2 (Z.eqb_neq _ _) Hc), andb_false_r. by rewrite IH.
  - rewrite <- app_assoc, split_backslashes. cbn [app split_argument]. rewrite Nat.add_0_r.
    change (quote_unit =? backslash_unit) with false. change (quote_unit =? quote_unit) with true. cbn iota.
    replace (Nat.even (n * 2 + 1)) with false
      by (rewrite Nat.add_1_r, Nat.even_succ, <- Nat.negb_even, (proj2 (Nat.even_spec (n * 2))) by (exists n; lia); done).
    rewrite IH. by replace (Nat.div2 (n * 2 + 1)) with n by (rewrite Nat.add_1_r, Nat.mul_comm, Nat.div2_succ_double; done).
Qed.
Lemma split_bare t held tail :
  Forall (λ c, ¬ blank c ∧ c ≠ quote_unit) t → ends_argument tail →
  split_argument held false (t ++ tail) = (backslashes held ++ t, after_argument tail).
Proof.
  intros Hb Ht. revert held. induction Hb as [|c t [Hc Hq] Hb IH]; intros held; cbn [app].
  - rewrite app_nil_r. destruct tail as [|c tail]; [done|]. cbn in Ht. by subst c.
  - cbn [split_argument]. destruct (Z.eqb_spec c backslash_unit) as [->|Hne].
    + rewrite IH. by rewrite backslashes_cons.
    + rewrite (proj2 (Z.eqb_neq _ _) Hq).
      replace (is_blank c) with false; [cbn [andb]; by rewrite IH|].
      unfold is_blank, blank in *. symmetry. apply orb_false_iff. rewrite !Z.eqb_neq. tauto.
Qed.
Lemma split_argument_text t v tail :
  argument_text t v → ends_argument tail → split_argument 0 false (t ++ tail) = (v, after_argument tail).
Proof.
  intros [[[_ Hb] ->]|(t' & -> & Hq)] Ht; [by apply split_bare|].
  cbn [app split_argument]. change (quote_unit =? backslash_unit) with false.
  change (quote_unit =? quote_unit) with true. cbn. rewrite <- app_assoc. cbn [app].
  by rewrite (split_quoted t' v).
Qed.
Lemma joined_ends (arguments : list wide) : ends_argument (mjoin (cons 32 <$> arguments)).
Proof. by destruct arguments. Qed.

Lemma split_arguments_text arguments values fuel :
  Forall2 argument_text arguments values → (List.length values < fuel)%nat →
  split_arguments fuel (after_argument (mjoin (cons 32 <$> arguments))) = values.
Proof.
  intros H. revert fuel. induction H as [|t v arguments values Ht _ IH]; intros fuel Hf.
  - by destruct fuel.
  - destruct fuel as [|fuel]; [lia|]. csimpl. cbn [after_argument split_arguments].
    rewrite (split_argument_text t v) by (done || apply joined_ends). f_equal. apply IH. simpl in Hf. lia.
Qed.

Lemma split_program_text t v tail :
  program_text t v → ends_argument tail → split_program false (t ++ tail) = (v, after_argument tail).
Proof.
  intros [[[_ Hb] ->]|[-> Hq]] Ht.
  - induction Hb as [|c t [Hc Hne] Hb IH]; cbn [app].
    + destruct tail as [|c tail]; [done|]. cbn in Ht. by subst c.
    + cbn [split_program]. rewrite (proj2 (Z.eqb_neq _ _) Hne).
      replace (is_blank c) with false; [cbn [andb]; by rewrite IH|].
      unfold is_blank, blank in *. symmetry. apply orb_false_iff. rewrite !Z.eqb_neq. tauto.
  - cbn [app split_program]. change (quote_unit =? quote_unit) with true. cbn [negb]. cbn iota.
    induction v as [|c v IH]; cbn [app split_program].
    + change (quote_unit =? quote_unit) with true. cbn [negb]. cbn iota.
      destruct tail as [|c tail]; [done|]. cbn in Ht. by subst c.
    + apply not_elem_of_cons in Hq as [Hc Hq].
      rewrite (proj2 (Z.eqb_neq c quote_unit)) by congruence. rewrite andb_false_r. by rewrite IH.
Qed.

Lemma length_joined (arguments : list wide) : (List.length arguments ≤ List.length (mjoin (cons 32%Z <$> arguments)))%nat.
Proof. induction arguments; csimpl; [lia|]. rewrite length_app. lia. Qed.

#[export] Instance split_command_argv : ArgvSplit.
Proof.
  refine {| CommandLineToArgvW := split_command |}. intros program arguments name values Hp Ha.
  unfold split_command, command_of. rewrite (split_program_text program name) by (done || apply joined_ends).
  rewrite (split_arguments_text arguments values); [done|done|].
  rewrite length_app, <- (Forall2_length _ _ _ Ha). pose proof (length_joined arguments). lia.
Defined.
