(* ===== verification/BridgeTheorems.v ===== *)
(** The provider and the bridge together: the configuration arrives as it was given, and
    the answer is read as it was meant. *)

From stdpp Require Import list.
From S2P Require Import Prelude CppStd Wire Common Paths ValueCodec ValueCodecTheorems ReverseMapper Iostream Host MemProcFs MemProcFsBridge CommandLine.
From Stdlib Require Import Ascii String.

#[local] Open Scope Z_scope.

(** ** UTF-8 *)

Lemma utf8_first_lead first n c0 :
  is_u8 first → utf8_first first = Some (n, c0) →
  utf8_lead first = Some (c0, n + 1) ∧ (n = 1 → 2 ≤ c0) ∧ (n = 0 → first < 0x80 ∧ c0 = first) ∧ 0 ≤ n ≤ 3 ∧ 0 ≤ c0 < 0x80.
Proof.
  intros Hf H.
  assert (match utf8_first first with
    | None => true
    | Some (n, c0) => bool_decide (utf8_lead first = Some (c0, n + 1) ∧ (n = 1 → 2 ≤ c0) ∧
        (n = 0 → first < 0x80 ∧ c0 = first) ∧ 0 ≤ n ≤ 3 ∧ 0 ≤ c0 < 0x80)
    end = true) as Hc.
  { clear H. revert first Hf. apply u8_check. vm_compute. reflexivity. }
  rewrite H in Hc. by apply bool_decide_eq_true in Hc.
Qed.
Lemma utf8_first_of cp rest :
  scalar_value cp →
  ∃ first c0, head (utf8_of cp ++ rest) = Some first ∧ utf8_first first = Some (sizeZ (utf8_of cp) - 1, c0).
Proof.
  intros [Hr Hs]. unfold utf8_of, utf8_first.
  destruct (Z.ltb_spec cp 0x80); [|destruct (Z.ltb_spec cp 0x800); [|destruct (Z.ltb_spec cp 0x10000)]];
    eexists _, _; (split; [reflexivity|]); settle; reflexivity.
Qed.

Lemma utf8_overlong_invalid n cp :
  0 ≤ n ≤ 3 → (n = 1 → 0x80 ≤ cp) → 1 ≤ n → utf8_overlong n cp = utf8_invalid (n + 1) cp.
Proof.
  intros Hn H1 H0. unfold utf8_overlong, utf8_invalid.
  repeat match goal with
  | |- context [?a =? ?b] => destruct (Z.eqb_spec a b)
  | |- context [?a <? ?b] => destruct (Z.ltb_spec a b)
  | |- context [?a <=? ?b] => destruct (Z.leb_spec a b) end; try done; exfalso; lia.
Qed.

Lemma utf8_continue_two c0 bytes cp :
  Forall is_u8 bytes → sizeZ bytes = 1 → 2 ≤ c0 < 0x80 → utf8_continue c0 bytes = Some cp → 0x80 ≤ cp.
Proof.
  intros Hu Hs Hc H. destruct bytes as [|b [|? ?]]; [done| |unfold sizeZ in Hs; simpl in Hs; lia].
  apply Forall_cons in Hu as [Hb _]. rewrite utf8_continue_cons in H; [|done|change (2 ^ 24) with 16777216; lia].
  destruct (Z.leb_spec 0x80 b); [|done]. destruct (b <? 0xC0); [|done]. cbn in H. injection H as <-. lia.
Qed.

Lemma valid_utf8_loop_exact fuel value :
  (List.length value < fuel)%nat → Forall is_u8 value →
  valid_utf8_loop fuel value = true ↔ ∃ cps, Forall scalar_value cps ∧ value = mjoin (utf8_of <$> cps).
Proof.
  revert value. induction fuel as [|fuel IH]; intros value Hf Hu; [lia|].
  cbn [valid_utf8_loop]. destruct value as [|first rest].
  { split; [|done]. intros _. by exists []. }
  pose proof Hu as [Hu1 Hur]%Forall_cons. split.
  - intros H. destruct (utf8_first first) as [[n c0]|] eqn:Hl; [|done].
    destruct (utf8_first_lead first n c0 Hu1 Hl) as (Hlead & H2 & H0 & Hn & Hc0).
    destruct (Z.eqb_spec n 0) as [->|Hn0].
    + destruct (H0 eq_refl) as [Hlt ->]. apply IH in H as (cps & Hs & ->); [|simpl in Hf; lia|done].
      unfold is_u8 in Hu1. exists (first :: cps). split.
      * constructor; [unfold scalar_value; lia|done].
      * csimpl. unfold utf8_of at 2. by rewrite (proj2 (Z.ltb_lt _ _)) by lia.
    + destruct (Z.ltb_spec (sizeZ rest) n); [done|].
      destruct (utf8_continue _ _) as [cp|] eqn:Hc; [|done].
      destruct (utf8_overlong n cp) eqn:Hi; [done|].
      rewrite utf8_overlong_invalid in Hi; [|done| |lia].
      2:{ intros ->. eapply utf8_continue_two; [..|exact Hc]; [|by rewrite sizeZ_slice by (rewrite ?sizeZ_cons; lia)|lia].
          unfold slice. by apply Forall_take, Forall_drop. }
      replace n with (n + 1 - 1) in Hc at 1 by lia.
      destruct (utf8_sequence_inv first rest c0 (n + 1) cp) as [Hs E]; [done|done|rewrite sizeZ_cons; lia|done|done|].
      apply IH in H as (cps & Hs' & E').
      * exists (cp :: cps). split; [by constructor|]. csimpl. by rewrite <- E'.
      * rewrite length_drop. simpl in *. lia.
      * by apply Forall_drop.
  - intros ([|cp cps] & Hs & E); [done|]. apply Forall_cons in Hs as [Hcp Hs]. csimpl in E.
    destruct (utf8_sequence_decode cp (mjoin (utf8_of <$> cps)) Hcp) as (c0 & first' & Hh & Hl & Hc & Hi).
    destruct (utf8_first_of cp (mjoin (utf8_of <$> cps)) Hcp) as (first'' & c1 & Hh' & Hfirst).
    rewrite <- E in Hh, Hh', Hc. injection Hh as <-. injection Hh' as <-. rewrite Hfirst.
    destruct (utf8_first_lead _ _ _ Hu1 Hfirst) as (Hlead & H2 & H0 & Hn & Hc0).
    rewrite Hlead in Hl. injection Hl as -> _.
    assert (sizeZ (first :: rest) = sizeZ (utf8_of cp) + sizeZ (mjoin (utf8_of <$> cps))) as Hsz
      by (by rewrite E, sizeZ_app).
    rewrite sizeZ_cons in Hsz. pose proof (sizeZ_nonneg (mjoin (utf8_of <$> cps))).
    assert (drop (Z.to_nat (sizeZ (utf8_of cp))) (first :: rest) = mjoin (utf8_of <$> cps)) as Hd.
    { rewrite E. unfold sizeZ. by rewrite Nat2Z.id, drop_app_length. }
    assert (valid_utf8_loop fuel (mjoin (utf8_of <$> cps)) = true) as Hrest.
    { apply IH; [| |by eauto].
      - rewrite <- Hd, length_drop. unfold sizeZ in *. simpl in *. lia.
      - rewrite <- Hd. by apply Forall_drop. }
    destruct (Z.eqb_spec (sizeZ (utf8_of cp) - 1) 0) as [E0|Hn0].
    + replace (sizeZ (utf8_of cp)) with 1 in Hd by lia. simpl in Hd. rewrite drop_0 in Hd. by rewrite Hd.
    + rewrite (proj2 (Z.ltb_ge _ _)) by lia. rewrite Hc.
      rewrite utf8_overlong_invalid; [|done| |lia].
      * replace (sizeZ (utf8_of cp) - 1 + 1) with (sizeZ (utf8_of cp)) by lia. by rewrite Hi, Hd.
      * intros E1. eapply utf8_continue_two; [..|exact Hc]; [|rewrite sizeZ_slice; [lia|lia|rewrite ?sizeZ_cons; lia..]|specialize (H2 E1); lia].
        unfold slice. by apply Forall_take, Forall_drop.
Qed.

(** The validator accepts the UTF-8 encodings of sequences of scalar values. *)
Lemma IsValidUtf8_exact text :
  IsValidUtf8 (chars_bytes text) = true ↔
  ∃ cps, Forall scalar_value cps ∧ chars_bytes text = mjoin (utf8_of <$> cps).
Proof. apply valid_utf8_loop_exact; [lia|]. apply char_codes_u8. Qed.

(** ** What Windows converts *)

Class WideTextSpec `{WideText} := {
  to_wide_law cps : cps ≠ [] → Forall scalar_value cps →
    MultiByteToWide (mjoin (utf8_of <$> cps)) = Some (mjoin (utf16_of <$> cps));
  to_utf8_law cps : cps ≠ [] → Forall scalar_value cps →
    WideToMultiByte (mjoin (utf16_of <$> cps)) = Some (mjoin (utf8_of <$> cps))
}.

Lemma utf8_of_nonempty cp : utf8_of cp ≠ [].
Proof. unfold utf8_of. by repeat case_match. Qed.
Lemma utf16_of_nonempty cp : utf16_of cp ≠ [].
Proof. unfold utf16_of. by case_match. Qed.
Lemma mjoin_nonempty {A B} (f : A → list B) l : (∀ a, f a ≠ []) → l ≠ [] → mjoin (f <$> l) ≠ [].
Proof. intros Hf Hl. destruct l as [|a l]; [done|]. csimpl. specialize (Hf a). by destruct (f a). Qed.

Section Converted.
Context `{WideTextSpec}.

Lemma Utf8ToWide_scalars text cps :
  Forall scalar_value cps → chars_bytes text = mjoin (utf8_of <$> cps) →
  Utf8ToWide text = mjoin (utf16_of <$> cps) ∧ WideToUtf8 (Utf8ToWide text) = chars_bytes text.
Proof.
  intros Hs E. unfold Utf8ToWide. destruct (bool_decide_reflect (text = [])) as [->|Ht].
  - destruct cps as [|cp cps]; [done|]. symmetry in E. exfalso. revert E.
    apply mjoin_nonempty; [apply utf8_of_nonempty|done].
  - assert (cps ≠ []) as Hc. { intros ->. by destruct text. }
    rewrite E, to_wide_law by done. unfold from_option, id. split; [done|]. unfold WideToUtf8.
    rewrite bool_decide_false by (apply mjoin_nonempty; [apply utf16_of_nonempty|done]).
    by rewrite to_utf8_law by done.
Qed.

Lemma utf8_text text : IsValidUtf8 (chars_bytes text) = true → WideToUtf8 (Utf8ToWide text) = chars_bytes text.
Proof. intros (cps & Hs & E)%IsValidUtf8_exact. by eapply Utf8ToWide_scalars. Qed.
Lemma utf8_text_nil text : IsValidUtf8 (chars_bytes text) = true → Utf8ToWide text = [] → text = [].
Proof.
  intros Hv E. apply utf8_text in Hv. rewrite E in Hv. by destruct text.
Qed.
Lemma utf8_text_usable text :
  IsValidUtf8 (chars_bytes text) = true → sizeZ text ≤ kMaxBridgeArgumentBytes → unusable (Utf8ToWide text) = false.
Proof.
  intros Hv Hs. unfold unusable. rewrite utf8_text by done.
  apply orb_false_iff. split.
  - destruct (bool_decide_reflect (Utf8ToWide text = [])) as [|Hne]; [done|]. cbn [negb andb].
    apply bool_decide_eq_false. intros E. apply Hne. destruct text; [done|discriminate E].
  - apply Z.ltb_ge. unfold sizeZ, chars_bytes in *. rewrite length_fmap. done.
Qed.

(** ASCII text is itself. *)
Lemma ascii_scalars w : Forall (λ c, 0 ≤ c < 0x80) w →
  Forall scalar_value w ∧ mjoin (utf8_of <$> w) = w ∧ mjoin (utf16_of <$> w) = w.
Proof.
  induction 1 as [|c w Hc _ (Hs & E8 & E16)]; [done|]. split; [constructor; [unfold scalar_value; lia|done]|].
  csimpl. rewrite E8, E16. unfold utf8_of, utf16_of. by rewrite !(proj2 (Z.ltb_lt _ _)) by lia.
Qed.
Lemma ascii_usable w : Forall (λ c, 0 ≤ c < 0x80) w → sizeZ w ≤ kMaxCommandArgumentBytes → unusable w = false.
Proof.
  intros Hw Hs. destruct (ascii_scalars w Hw) as (Hv & E8 & E16). unfold unusable, WideToUtf8.
  destruct (bool_decide_reflect (w = [])) as [->|Hne]; [done|].
  pose proof (to_utf8_law w Hne Hv) as E. rewrite E8, E16 in E. rewrite E. cbn.
  rewrite bool_decide_false by done. by apply Z.ltb_ge.
Qed.

(** The first character, and ASCII words whatever their case. *)
Lemma wide_head text :
  IsValidUtf8 (chars_bytes text) = true → head (Utf8ToWide text) = Some 45 → head text = Some minus.
Proof.
  intros (cps & Hs & E)%IsValidUtf8_exact Hh.
  destruct (Utf8ToWide_scalars text cps Hs E) as [Hw _]. rewrite Hw in Hh.
  destruct cps as [|cp cps]; [done|]. csimpl in Hh. csimpl in E.
  apply Forall_cons in Hs as [[Hr Hsur] _]. unfold utf16_of in Hh.
  destruct (Z.ltb_spec cp 0x10000).
  - injection Hh as ->. cbn in E. destruct text as [|c text]; [done|]. injection E as Ec _. cbn. f_equal.
    unfold char_code in Ec. rewrite <- (ascii_N_embedding c). by replace (N_of_ascii c) with 45%N by lia.
  - cbn in Hh. injection Hh as Hh. exfalso. Z.div_mod_to_equations. lia.
Qed.

Lemma ascii_lower_bound c : ascii_lower c < 0x80 → c < 0x80.
Proof. unfold ascii_lower. destruct (_ && _) eqn:E; lia. Qed.
Lemma wide_name text name :
  IsValidUtf8 (chars_bytes text) = true → Forall (λ c, c < 0x80) (ascii_lower <$> name) →
  AsciiEqualInsensitive (Utf8ToWide text) name = true → Utf8ToWide text = chars_bytes text.
Proof.
  intros (cps & Hs & E)%IsValidUtf8_exact Hn He. apply bytes_eqb_eq in He.
  destruct (Utf8ToWide_scalars text cps Hs E) as [Hw _]. rewrite <- He, Hw in Hn. rewrite Hw, E.
  clear E Hw He. induction Hs as [|cp cps [Hr Hsur] _ IH]; [done|]. csimpl in Hn. csimpl.
  rewrite fmap_app in Hn. apply Forall_app in Hn as [H1 H2]. rewrite IH by done. f_equal. unfold utf16_of, utf8_of in *.
  destruct (Z.ltb_spec cp 0x10000).
  - apply Forall_cons in H1 as [H1%ascii_lower_bound _]. by rewrite (proj2 (Z.ltb_lt _ _)) by lia.
  - apply Forall_cons in H1 as [H1%ascii_lower_bound _]. exfalso. Z.div_mod_to_equations. lia.
Qed.
Lemma wide_controlled text :
  IsValidUtf8 (chars_bytes text) = true → provider_controlled (chars_bytes text) = false →
  provider_controlled (Utf8ToWide text) = false.
Proof.
  intros Hv Hp. destruct (provider_controlled (Utf8ToWide text)) eqn:E; [|done]. rewrite <- Hp, <- E. f_equal.
  unfold provider_controlled in E. rewrite !orb_true_iff in E.
  destruct E as [[[[[E|E]|E]|E]|E]|E];
    (eapply wide_name; [done| |exact E]; apply (bool_decide_unpack _); vm_compute; exact I).
Qed.
End Converted.

(** ** Numbers *)

Lemma digits_value_step base p ds : 0 ≤ p → 0 < base → Forall (λ d, 0 ≤ d) ds → p ≤ foldl (λ v d, v * base + d) p ds.
Proof.
  intros Hp Hb Hd. revert p Hp. induction Hd as [|d ds Hd _ IH]; intros p Hp; [done|].
  cbn [foldl]. specialize (IH (p * base + d)). nia.
Qed.

Lemma unsigned_loop_digits ds p :
  0 ≤ p → Forall (λ d, 0 ≤ d < 10) ds → foldl (λ v d, v * 10 + d) p ds ≤ u64_max →
  unsigned_loop 10 p ((λ d, d + 48) <$> ds) = Some (foldl (λ v d, v * 10 + d) p ds).
Proof.
  intros Hp Hd. revert p Hp. induction Hd as [|d ds Hd Hds IH]; intros p Hp Hm; [done|].
  cbn [foldl] in Hm |- *. csimpl. cbn [unsigned_loop].
  rewrite !(proj2 (Z.leb_le _ _)) by lia. cbn [andb]. replace (d + 48 - 48) with d by lia.
  assert (p * 10 + d ≤ u64_max) as Hle.
  { etrans; [|exact Hm]. apply digits_value_step; [lia|lia|]. eapply Forall_impl; [exact Hds|]. cbn. lia. }
  rewrite (proj2 (Z.leb_gt 10 d)) by lia. rewrite (proj2 (Z.ltb_ge _ p)); [cbn [orb]; apply IH; [lia|done]|].
  apply Z.div_le_lower_bound; lia.
Qed.

Lemma digit_char_code d : 0 ≤ d < 10 → char_code (digit_char false d) = d + 48.
Proof.
  intros Hd. unfold digit_char. rewrite (proj2 (Z.ltb_lt d 10)) by lia. unfold char_code.
  rewrite N_ascii_embedding; lia.
Qed.
Lemma zdigits_length fuel base n : (List.length (zdigits fuel base n) ≤ fuel)%nat.
Proof.
  revert n. induction fuel as [|fuel IH]; intros n; [done|]. cbn [zdigits]. case_match; [simpl; lia|].
  rewrite length_app. specialize (IH (n `div` base)). simpl. lia.
Qed.

Lemma parse_pfn_number pfn options :
  is_u32 pfn → parse_pfn (char_code <$> print_number false 10 pfn) options = inl (options <| opt_pfn := Some pfn |>).
Proof.
  intros Hp. unfold is_u32 in Hp. destruct (print_number_digits false pfn) as (d & ds & E & Hd & Hv); [lia|].
  unfold parse_pfn. rewrite (proj2 (Z.ltb_ge 32 _)).
  2:{ unfold sizeZ, print_number. rewrite !length_fmap.
      pose proof (zdigits_length (Z.to_nat (Z.log2 pfn + 1)) 10 pfn).
      assert (Z.log2 pfn ≤ 31). { destruct (Z.eq_dec pfn 0) as [->|]; [done|]. pose proof (Z.log2_le_mono pfn u32_max). change (Z.log2 u32_max) with 31 in *. lia. }
      pose proof (Z.log2_nonneg pfn). lia. }
  assert (char_code <$> print_number false 10 pfn = (λ d, d + 48) <$> (d :: ds)) as Ec.
  { rewrite E, <- list_fmap_compose. apply list_fmap_ext. intros i x Hx. apply digit_char_code.
    by eapply Forall_lookup_1 in Hd. }
  assert (unsigned_loop 10 0 ((λ d, d + 48) <$> (d :: ds)) = Some pfn) as Hl.
  { rewrite unsigned_loop_digits; [by rewrite <- Hv|lia|done|]. unfold digits_value in Hv. rewrite Hv. lia. }
  rewrite Ec. assert (ParseUnsigned ((λ d, d + 48) <$> (d :: ds)) = Some pfn) as ->.
  { unfold ParseUnsigned. rewrite bool_decide_false by done.
    assert (hex_prefix ((λ d, d + 48) <$> (d :: ds)) = false) as ->; [|done].
    destruct ds as [|y [|z ys]]; [done..|]. csimpl. cbn [hex_prefix].
    apply Forall_cons in Hd as [_ [? _]%Forall_cons]. apply andb_false_iff. right. apply orb_false_iff. lia. }
  by rewrite (proj2 (Z.ltb_ge u32_max pfn)) by lia.
Qed.

(** ** The configuration *)

Lemma ValidateUtf8Value_ok value label allow :
  ValidateUtf8Value value label allow = Success tt →
  IsValidUtf8 value = true ∧ sizeZ value ≤ kMaxBridgeArgumentBytes ∧ (allow = false → value ≠ []).
Proof.
  unfold ValidateUtf8Value. destruct (_ || existsb _ _) eqn:E; [done|].
  destruct (Z.ltb_spec kMaxBridgeArgumentBytes (sizeZ value)); [done|]. destruct (IsValidUtf8 value); [|done].
  intros _. split; [done|]. split; [done|]. intros -> ->. done.
Qed.

(** What a validated text is. *)
Definition good_text (text : chars) : Prop :=
  IsValidUtf8 (chars_bytes text) = true ∧ sizeZ text ≤ kMaxBridgeArgumentBytes.
Definition good_argument (text : chars) : Prop := good_text text ∧ provider_controlled (chars_bytes text) = false.

Lemma sizeZ_chars_bytes text : sizeZ (chars_bytes text) = sizeZ text.
Proof. unfold sizeZ, chars_bytes. by rewrite length_fmap. Qed.

Lemma ValidateConfiguration_ok c :
  ValidateConfiguration c = Success tt →
  sizeZ (mc_vmm_arguments c) ≤ kMaxVmmArguments ∧ Forall good_argument (mc_vmm_arguments c) ∧
  (∀ d, mc_device c = Some d → good_text d ∧ d ≠ [] ∧ head d ≠ Some minus) ∧
  (∀ p, mc_vmm_path c = Some p → p ≠ []).
Proof.
  unfold ValidateConfiguration. destruct (Z.ltb_spec kMaxVmmArguments (sizeZ (mc_vmm_arguments c))); [done|].
  destruct (ValidateDevice _) as [[]|] eqn:Hd; [|done]. destruct (ValidateVmmPath _) as [[]|] eqn:Hp; [|done].
  intros Ha. split; [done|]. split_and!.
  - clear -Ha. induction (mc_vmm_arguments c) as [|a l IH]; [done|]. cbn [ValidateArguments] in Ha.
    destruct (ValidateUtf8Value _ _ _) as [[]|] eqn:Hv; [|done]. apply ValidateUtf8Value_ok in Hv as (H1 & H2 & _).
    rewrite sizeZ_chars_bytes in H2. destruct (provider_controlled _) eqn:Hc; [done|]. constructor; [by repeat split|by apply IH].
  - intros d E. rewrite E in Hd. cbn in Hd. destruct (ValidateUtf8Value _ _ _) as [[]|] eqn:Hv; [|done].
    apply ValidateUtf8Value_ok in Hv as (H1 & H2 & H3). rewrite sizeZ_chars_bytes in H2.
    case_bool_decide; [done|]. split; [done|]. split; [|done]. intros ->. by apply H3.
  - intros p E. rewrite E in Hp. cbn in Hp. by case_bool_decide.
Qed.

Section Configuration.
Context `{WideTextSpec}.

(** The options the bridge should get. *)
Definition meant_options (env : wide) (c : MemProcFsConfiguration) (pfn : Z) : Options :=
  mkOptions (Some pfn)
    (match mc_device c with Some d => Utf8ToWide d | None => if bool_decide (env = []) then wstr "pmem" else env end)
    (default [] (mc_vmm_path c)) (Utf8ToWide <$> mc_vmm_arguments c).

Lemma vmm_arguments_ok arguments :
  Forall good_argument arguments →
  vmm_arguments arguments = Success (a ← arguments; [wstr "--vmm-arg"; Utf8ToWide a]).
Proof.
  induction 1 as [|a l [[Hv Hs] _] _ IH]; [done|]. cbn [vmm_arguments].
  assert (negb (bool_decide (a = [])) && bool_decide (Utf8ToWide a = []) = false) as ->.
  { apply andb_false_iff. rewrite negb_false_iff, bool_decide_eq_true, bool_decide_eq_false.
    destruct (decide (a = [])); [by left|]. right. intros E. by apply utf8_text_nil in E. }
  by rewrite IH.
Qed.

Lemma length_vmm_arguments (arguments : list chars) :
  sizeZ (a ← arguments; [wstr "--vmm-arg"; Utf8ToWide a]) = 2 * sizeZ arguments.
Proof. induction arguments as [|a l IH]; [done|]. cbn. rewrite !sizeZ_cons. cbn in IH. rewrite IH. lia. Qed.

Lemma bridge_arguments_ok c pfn :
  ValidateConfiguration c = Success tt →
  bridge_arguments c pfn = Success (
    match mc_device c with Some d => [wstr "--device"; Utf8ToWide d] | None => [] end ++
    vmm_path_arguments (mc_vmm_path c) ++ (a ← mc_vmm_arguments c; [wstr "--vmm-arg"; Utf8ToWide a]) ++
    [wstr "--pfn"; char_code <$> print_number false 10 pfn]).
Proof.
  intros (Hn & Ha & Hd & _)%ValidateConfiguration_ok. unfold bridge_arguments.
  assert (device_arguments (mc_device c) =
    Success match mc_device c with Some d => [wstr "--device"; Utf8ToWide d] | None => [] end) as ->.
  { unfold device_arguments. destruct (mc_device c) as [d|]; [|done]. destruct (Hd d eq_refl) as ([Hv _] & Hne & _).
    case_bool_decide as E; [|done]. by apply utf8_text_nil in E. }
  rewrite vmm_arguments_ok by done. cbv zeta. rewrite (proj2 (Z.ltb_ge kMaxBridgeArguments _)); [done|].
  rewrite !sizeZ_app, length_vmm_arguments.
  unfold kMaxBridgeArguments, kMaxBridgeConfigurationArguments, kMaxVmmArguments in *.
  assert (sizeZ match mc_device c with Some d => [wstr "--device"; Utf8ToWide d] | None => [] end ≤ 2)
    by (by destruct (mc_device c)).
  assert (sizeZ (vmm_path_arguments (mc_vmm_path c)) ≤ 2) by (by destruct (mc_vmm_path c)).
  change (sizeZ [wstr "--pfn"; char_code <$> print_number false 10 pfn]) with 2. lia.
Qed.

(** One option and its value at a time. *)
Ltac usable_name := rewrite ascii_usable by (apply (bool_decide_unpack _); vm_compute; exact I); cbn iota.
Lemma options_device d rest saw_vmm options :
  unusable_device d = false →
  options_loop (wstr "--device" :: d :: rest) false saw_vmm options =
  options_loop rest true saw_vmm (options <| opt_device := d |>).
Proof. intros Hd. cbn [options_loop]. usable_name. cbv beta iota zeta. cbn. by rewrite Hd. Qed.
Lemma options_vmm p rest saw_device options :
  p ≠ [] → unusable p = false →
  options_loop (wstr "--vmm" :: p :: rest) saw_device false options =
  options_loop rest saw_device true (options <| opt_vmm_path := p |>).
Proof.
  intros Hp Hu. cbn [options_loop]. usable_name. rewrite (bool_decide_false (p = []) Hp), Hu. by cbn.
Qed.
Lemma options_arguments arguments rest saw_device saw_vmm options :
  Forall good_argument arguments → sizeZ (opt_vmm_arguments options) + sizeZ arguments ≤ kMaxVmmArguments →
  options_loop ((a ← arguments; [wstr "--vmm-arg"; Utf8ToWide a]) ++ rest) saw_device saw_vmm options =
  options_loop rest saw_device saw_vmm
    (options <| opt_vmm_arguments := opt_vmm_arguments options ++ (Utf8ToWide <$> arguments) |>).
Proof.
  intros Ha. revert options. induction Ha as [|a l [[Hv Hs] Hc] _ IH]; intros options Hn.
  - cbn. rewrite app_nil_r. by destruct options.
  - rewrite sizeZ_cons in Hn. pose proof (sizeZ_nonneg l).
    change ((a ← a :: l; [wstr "--vmm-arg"; Utf8ToWide a]) ++ rest)
      with (wstr "--vmm-arg" :: Utf8ToWide a :: (a ← l; [wstr "--vmm-arg"; Utf8ToWide a]) ++ rest).
    cbn [options_loop]. usable_name. cbn -[Z.leb]. rewrite (proj2 (Z.leb_gt _ _)) by lia.
    rewrite utf8_text_usable, wide_controlled by done. cbn [orb].
    rewrite IH; cbn [opt_vmm_arguments update]; [|rewrite sizeZ_app; change (sizeZ [Utf8ToWide a]) with 1; lia].
    by rewrite <- app_assoc.
Qed.
Lemma options_pfn pfn saw_device saw_vmm options :
  is_u32 pfn → opt_pfn options = None →
  options_loop [wstr "--pfn"; char_code <$> print_number false 10 pfn] saw_device saw_vmm options =
  ParsedOptions (options <| opt_pfn := Some pfn |>).
Proof.
  intros Hp Hn. cbn [options_loop]. usable_name. cbn -[parse_pfn]. rewrite Hn. cbn -[parse_pfn].
  by rewrite parse_pfn_number.
Qed.

Lemma good_device d : good_text d → d ≠ [] → head d ≠ Some minus → unusable_device (Utf8ToWide d) = false.
Proof.
  intros [Hv Hs] Hne Hh. unfold unusable_device. rewrite utf8_text, sizeZ_chars_bytes by done.
  rewrite !orb_false_iff, !bool_decide_eq_false, Z.ltb_ge. split_and!; [..|done].
  - by intros E%utf8_text_nil.
  - by intros E%wide_head.
  - by destruct d.
Qed.

Lemma ParseOptions_meant env c pfn bridge :
  ValidateConfiguration c = Success tt → is_u32 pfn →
  (∀ p, mc_vmm_path c = Some p → unusable p = false) →
  (mc_device c = None → unusable_device (opt_device (meant_options env c pfn)) = false) →
  ParseOptions env (bridge ::
    match mc_device c with Some d => [wstr "--device"; Utf8ToWide d] | None => [] end ++
    vmm_path_arguments (mc_vmm_path c) ++ (a ← mc_vmm_arguments c; [wstr "--vmm-arg"; Utf8ToWide a]) ++
    [wstr "--pfn"; char_code <$> print_number false 10 pfn]) =
  ParsedOptions (meant_options env c pfn).
Proof.
  intros (Hn & Ha & Hd & Hpath)%ValidateConfiguration_ok Hp Hvmm Henv.
  unfold ParseOptions. cbv zeta. rewrite skipn_cons, drop_0. set (dev := if bool_decide (env = []) then _ else _).
  assert (∀ saw o, opt_pfn o = None → opt_vmm_path o = [] → opt_vmm_arguments o = [] →
    options_loop (vmm_path_arguments (mc_vmm_path c) ++ (a ← mc_vmm_arguments c; [wstr "--vmm-arg"; Utf8ToWide a]) ++
      [wstr "--pfn"; char_code <$> print_number false 10 pfn]) saw false o =
    ParsedOptions (mkOptions (Some pfn) (opt_device o) (default [] (mc_vmm_path c)) (Utf8ToWide <$> mc_vmm_arguments c))) as Hrest.
  { intros saw [op od ov oa]; cbn. intros -> -> ->. unfold vmm_path_arguments. destruct (mc_vmm_path c) as [p|]; cbn [app].
    - rewrite options_vmm by auto. rewrite options_arguments by (done || cbn; lia).
      by rewrite options_pfn.
    - rewrite options_arguments by (done || cbn; lia). by rewrite options_pfn. }
  assert (options_loop (match mc_device c with Some d => [wstr "--device"; Utf8ToWide d] | None => [] end ++
    vmm_path_arguments (mc_vmm_path c) ++ (a ← mc_vmm_arguments c; [wstr "--vmm-arg"; Utf8ToWide a]) ++
    [wstr "--pfn"; char_code <$> print_number false 10 pfn]) false false (mkOptions None dev [] []) =
    ParsedOptions (meant_options env c pfn)) as ->.
  { unfold meant_options. fold dev. destruct (mc_device c) as [d|] eqn:Ed; cbn [app].
    - destruct (Hd d eq_refl) as (Hg & Hne & Hh). rewrite options_device by by apply good_device. by rewrite Hrest.
    - by rewrite Hrest. }
  cbn [opt_pfn meant_options]. rewrite bool_decide_true by done. cbn [negb].
  assert (unusable_device (opt_device (meant_options env c pfn)) = false) as Hu.
  { destruct (mc_device c) as [d|] eqn:Ed; [|by apply Henv]. unfold meant_options. rewrite Ed. cbn [opt_device].
    destruct (Hd d eq_refl) as (Hg & Hne & Hh). by apply good_device. }
  by rewrite Hu.
Qed.

Lemma encode_arguments_good arguments :
  Forall good_argument arguments → encode_arguments (Utf8ToWide <$> arguments) = Some (chars_bytes <$> arguments).
Proof.
  induction 1 as [|a l [[Hv Hs] _] _ IH]; [done|]. csimpl. cbn [encode_arguments].
  rewrite utf8_text by done. rewrite IH. destruct (bool_decide_reflect (Utf8ToWide a = [])) as [|Hne]; [done|].
  cbn [negb andb]. rewrite bool_decide_false; [done|]. intros E. apply Hne. by destruct a.
Qed.

End Configuration.
