(* ===== verification/BridgeProtocol.v ===== *)
(** The answer of the bridge, read by the provider. *)

From stdpp Require Import list.
From S2P Require Import Prelude CppStd Wire Common Paths ReverseMapper Iostream Host MemProcFs MemProcFsBridge.
From Stdlib Require Import Ascii String.

#[local] Open Scope Z_scope.

(** ** Fields of a line *)

Definition carriage_return : ascii := ascii_of_N 13.
Definition cr : chars := [carriage_return].

Lemma cr_bounded : bounded cr.
Proof. done. Qed.
Lemma trail_tail_bounded fields : bounded (trail fields ++ cr).
Proof. by destruct fields. Qed.
#[export] Hint Resolve cr_bounded trail_tail_bounded : kdbg.
Lemma stopped_tail fields : stopped (trail fields ++ cr) = mkIstream (trail fields ++ cr) false.
Proof. unfold stopped. rewrite bool_decide_false; [done|]. by destruct fields. Qed.
Lemma trail_tail f fields : trail (f :: fields) ++ cr = tab :: f ++ trail fields ++ cr.
Proof. rewrite trail_cons. cbn. by rewrite <- app_assoc. Qed.

Lemma sentry_next f rest : solid f → sentry (mkIstream (tab :: f ++ rest) false) = Some (f ++ rest).
Proof. intros Hf. unfold sentry. cbn. rewrite skip_ws_solid by done. by destruct f. Qed.
Lemma ws_next f rest : solid f → ws (mkIstream (tab :: f ++ rest) false) = mkIstream (f ++ rest) false.
Proof.
  intros Hf. unfold ws. cbn. rewrite skip_ws_solid by done. destruct f as [|c f]; [done|]. apply stopped_bounded.
Qed.

Definition no_space (f : chars) : Prop := Forall (λ c, isspace c = false) f.

Lemma insert_int_no_space n : no_space (insert_int n).
Proof.
  assert (∀ m, 0 ≤ m → no_space (print_number false 10 m)) as Hp.
  { intros m Hm. destruct (print_number_digits false m Hm) as (d & ds & -> & Hd & _).
    apply Forall_fmap. eapply Forall_impl; [exact Hd|]. intros x Hx. cbn in Hx |- *. apply digit_char_solid. lia. }
  unfold insert_int, no_space. destruct (Z.ltb_spec n 0); [constructor; [done|]|]; apply Hp; lia.
Qed.

Lemma ReadDecimal_word max n rest s :
  0 ≤ n ≤ max → bounded rest → sentry s = Some (insert_int n ++ rest) → ReadDecimal max s = Some (n, stopped rest).
Proof.
  intros Hn Hb Hs. unfold ReadDecimal, extract_word.
  rewrite Hs, span_word_app by (done || apply insert_int_no_space).
  unfold insert_int. rewrite (proj2 (Z.ltb_ge n 0)) by lia.
  destruct (print_number_digits false n) as (d & ds & E & Hd & _); [lia|].
  pose proof (from_chars_print false 10 max n ltac:(lia) ltac:(lia)) as Hf. rewrite E in Hf |- *. csimpl in Hf. csimpl.
  apply Forall_cons in Hd as [Hd _]. destruct (digit_char_solid false d) as (_ & H1 & H2 & _); [lia|].
  rewrite !bool_decide_false by done. cbn [orb]. by rewrite Hf.
Qed.

(** The next field of a line. *)
Lemma ReadDecimal_next max n fields :
  0 ≤ n ≤ max →
  ReadDecimal max (mkIstream (trail (insert_int n :: fields) ++ cr) false) =
    Some (n, mkIstream (trail fields ++ cr) false).
Proof.
  intros Hn. rewrite trail_tail. rewrite (ReadDecimal_word max n (trail fields ++ cr)); [by rewrite stopped_tail|done|..].
  - by auto with kdbg.
  - apply sentry_next. by auto with kdbg.
Qed.
Lemma strictly_quoted_next text fields :
  extract_strictly_quoted (mkIstream (trail (insert_quoted text :: fields) ++ cr) false) =
    Some (text, mkIstream (trail fields ++ cr) false).
Proof.
  rewrite trail_tail. unfold extract_strictly_quoted. rewrite ws_next by done. cbn [in_peek in_eof in_rest].
  unfold insert_quoted. cbn [app head]. rewrite bool_decide_true by done. unfold extract_quoted, sentry. cbn [in_eof in_rest].
  cbn [skip_ws]. change (isspace quote_mark) with false. cbn iota. rewrite bool_decide_true by done.
  rewrite <- app_assoc. cbn [app]. by rewrite read_quoted_escaped.
Qed.
Lemma end_of_line : in_eof (ws (mkIstream cr false)) = true.
Proof. done. Qed.

Lemma first_word w fields :
  solid w → no_space w →
  extract_word (istringstream (tabbed (w :: fields) ++ cr)) = Some (w, mkIstream (trail fields ++ cr) false).
Proof.
  intros Hw Hn. rewrite tabbed_cons, <- app_assoc. unfold extract_word, istringstream.
  rewrite sentry_solid, span_word_app by (done || apply trail_tail_bounded). by rewrite stopped_tail.
Qed.

(** ** Lines *)

Definition single_line (text : chars) : Prop := newline ∉ text.

Lemma text_mode_app a b : text_mode (a ++ b) = text_mode a ++ text_mode b.
Proof. unfold text_mode. by rewrite bind_app. Qed.
Lemma text_mode_plain text : single_line text → text_mode text = text.
Proof.
  induction text as [|c text IH]; [done|]. intros [Hc Hs]%not_elem_of_cons.
  change (text_mode (c :: text)) with ((if bool_decide (c = newline) then [ascii_of_N 13; newline] else [c]) ++ text_mode text).
  rewrite bool_decide_false by congruence. cbn [app]. by rewrite IH.
Qed.
Lemma text_mode_line text : single_line text → text_mode (line text) = (text ++ cr) ++ [newline].
Proof. intros Hs. unfold line. rewrite text_mode_app, text_mode_plain by done. by rewrite <- app_assoc. Qed.

Lemma split_line_app text rest : single_line text → split_line (text ++ newline :: rest) = (text, Some rest).
Proof.
  induction text as [|c text IH]; intros Hs; cbn [app split_line].
  - by rewrite bool_decide_true.
  - apply not_elem_of_cons in Hs as [Hc Hs]. rewrite bool_decide_false by congruence. by rewrite IH.
Qed.
Lemma getline_printed text rest :
  single_line text →
  getline_string (mkIstream (text_mode (line text) ++ rest) false) = Some (text ++ cr, mkIstream rest false).
Proof.
  intros Hs. rewrite text_mode_line, <- app_assoc by done. unfold getline_string. cbn [in_eof in_rest].
  cbn [app]. assert (single_line (text ++ cr)) as Hs'.
  { unfold single_line. rewrite elem_of_app. intros [|H]; [done|]. by apply list_elem_of_singleton in H. }
  destruct ((text ++ cr) ++ newline :: rest) as [|c l] eqn:E.
  - apply (f_equal List.length) in E. rewrite length_app in E. simpl in E. lia.
  - rewrite <- E. by rewrite split_line_app.
Qed.

Lemma single_line_app a b : single_line a → single_line b → single_line (a ++ b).
Proof. unfold single_line. rewrite elem_of_app. tauto. Qed.
Lemma tabbed_single fields : Forall single_line fields → single_line (tabbed fields).
Proof.
  destruct fields as [|f fields]; [intros _ H; by apply elem_of_nil in H|]. rewrite tabbed_cons.
  intros [Hf Hs]%Forall_cons. apply single_line_app; [done|]. clear f Hf.
  induction Hs as [|f fields Hf _ IH]; [intros H; by apply elem_of_nil in H|].
  rewrite trail_cons. intros [?|H]%elem_of_cons; [done|]. revert H. by apply single_line_app.
Qed.
Lemma no_space_single f : no_space f → single_line f.
Proof. intros Hf Hin. unfold no_space in Hf. rewrite Forall_forall in Hf. by specialize (Hf _ Hin). Qed.
Lemma escaped_single text : single_line text → single_line (escaped text).
Proof.
  induction text as [|c text IH]; [done|]. intros [Hc Hs]%not_elem_of_cons. cbn [escaped].
  apply single_line_app; [|by apply IH]. unfold single_line.
  destruct (_ || _); rewrite !elem_of_cons, elem_of_nil; intuition (try congruence; try done).
Qed.
Lemma quoted_single text : single_line text → single_line (insert_quoted text).
Proof.
  intros Hs. unfold insert_quoted. intros [?|H]%elem_of_cons; [done|]. revert H.
  apply single_line_app; [by apply escaped_single|]. intros H. by apply list_elem_of_singleton in H.
Qed.
Lemma ProtocolText_single text : single_line (ProtocolText text).
Proof.
  unfold ProtocolText. intros (c & H & _)%list_elem_of_fmap. revert H.
  destruct c as [[] [] [] [] [] [] [] []]; vm_compute; congruence.
Qed.

Lemma text_mode_line_length text : (1 ≤ List.length (text_mode (line text)))%nat.
Proof. unfold line. rewrite text_mode_app, length_app. simpl. lia. Qed.

(** ** The answer *)

(** The fields of an entry have the widths of their C types. *)
Record entry_typed (e : PfnEntry) : Prop := {
  et_pid : is_u32 (pe_owner_pid e);
  et_va : is_u64 (pe_virtual_address e);
  et_pte : is_u64 (pe_pte_address e)
}.

Definition meant_usage (e : PfnEntry) (process_name : chars) : ProcessUsage :=
  mkProcessUsage (entry_pid e) (text_of process_name) (entry_va e) (pe_pte_address e) 0x1000
    (ExtendedTypeName (pe_extended_type e)) provider_Name (confidence_of (entry_confidence e))
    (entry_shared e) (pte_bit e 1) (pte_bit e 2) (pte_bit e 63).

Lemma bridge_bit_flag b : is_flag (bridge_bit b) = true ∧ (bridge_bit b =? 1) = b ∧ 0 ≤ bridge_bit b ≤ u32_max.
Proof. by destruct b. Qed.
Lemma entry_confidence_range e : 0 ≤ entry_confidence e ≤ 3.
Proof. unfold entry_confidence. repeat case_match; lia. Qed.

Lemma parse_map_printed e name :
  entry_typed e →
  parse_map (mkIstream (trail (drop 1 (map_fields e name)) ++ cr) false) = Success (meant_usage e name).
Proof.
  intros [Hp Hv Ht]. pose proof (entry_confidence_range e) as Hc.
  assert (is_u32 (entry_pid e)) as Hp' by (unfold entry_pid; destruct (has_pid e); done).
  assert (is_u64 (entry_va e)) as Hv' by (unfold entry_va; destruct (has_pid e); done).
  unfold is_u32, is_u64 in *. unfold parse_map, read_map_numbers, map_fields. rewrite skipn_cons, drop_0.
  do 9 (rewrite ReadDecimal_next by (lia || apply bridge_bit_flag); cbn [mbind option_bind]).
  rewrite strictly_quoted_next, strictly_quoted_next. change (trail [] ++ cr) with cr.
  rewrite end_of_line. cbn [mn_confidence mn_shared mn_writable mn_user mn_nx mn_page_size].
  rewrite (proj2 (Z.ltb_ge 3 _)) by lia. rewrite !(proj1 (bridge_bit_flag _)). cbn [negb orb].
  change (IsAllowedPageSize 4096) with true. cbn [negb]. unfold make_mapping, meant_usage. cbn.
  f_equal. rewrite !(proj1 (proj2 (bridge_bit_flag _))). f_equal.
  unfold text_of, str. by rewrite string_of_list_ascii_of_string.
Qed.

Lemma map_fields_single e name : single_line name → Forall single_line (map_fields e name).
Proof.
  intros Hn. unfold map_fields.
  repeat (apply Forall_cons; split); try apply no_space_single, insert_int_no_space; try done.
  - intros H. vm_compute in H. by apply (bool_decide_unpack _) in H || (repeat (apply elem_of_cons in H as [H|H]; [done|]); by apply elem_of_nil in H).
  - apply quoted_single. unfold ExtendedTypeName. repeat case_match; apply (bool_decide_unpack _); vm_compute; exact I.
  - by apply quoted_single.
Qed.

(** The answer for one entry. *)
Definition printed_answer (requested : Z) (e : PfnEntry) (name : chars) : chars :=
  line (tabbed [str "KDBG_PFN_RESULT"; insert_int 1; insert_int requested]) ++
  line (tabbed (map_fields e name)) ++ line (str "END").

Lemma ParseOutput_printed requested e name :
  is_u32 requested → entry_typed e → single_line name →
  ParseOutput requested (text_mode (printed_answer requested e name)) kMaxProtocolMappings =
  Success (mkPfnUsageResult requested [meant_usage e name] provider_Name).
Proof.
  intros Hr He Hn. unfold ParseOutput, printed_answer. change (kMaxProtocolMappings =? 0) with false. cbn iota.
  rewrite !text_mode_app. unfold istringstream at 1. unfold is_u32 in Hr.
  set (rest := text_mode (line (tabbed (map_fields e name))) ++ text_mode (line (str "END"))).
  rewrite getline_printed.
  2:{ apply tabbed_single. repeat (apply Forall_cons; split); try apply no_space_single, insert_int_no_space; [|done].
      apply (bool_decide_unpack _). vm_compute. exact I. }
  assert (parse_header requested (tabbed [str "KDBG_PFN_RESULT"; insert_int 1; insert_int requested] ++ cr) = Success requested) as ->.
  { unfold parse_header. rewrite first_word by (done || (apply (bool_decide_unpack _); vm_compute; exact I)).
    cbn [mbind option_bind]. rewrite ReadDecimal_next by lia. cbn [mbind option_bind].
    rewrite ReadDecimal_next by lia. cbn [mbind option_bind].
    rewrite bool_decide_true by done. cbn [negb orb Z.eqb Pos.eqb]. rewrite Z.eqb_refl. cbn [negb].
    change (trail [] ++ cr) with cr. by rewrite end_of_line. }
  cbv zeta. set (n := List.length (_ ++ rest)).
  assert (2 ≤ n)%nat as Hlen by (unfold n, rest; rewrite !length_app; pose proof (text_mode_line_length (tabbed (map_fields e name))); pose proof (text_mode_line_length (str "END")); lia). clearbody n.
  destruct n as [|[|n]]; [lia..|]. unfold rest. clear rest Hlen. cbn [record_loop].
  rewrite getline_printed by (by apply tabbed_single, map_fields_single).
  unfold map_fields at 1. rewrite first_word by (done || (apply (bool_decide_unpack _); vm_compute; exact I)).
  change (bool_decide (str "MAP" = str "END")) with false. change (bool_decide (str "MAP" = str "ERROR")) with false.
  change (bool_decide (str "MAP" = str "MAP")) with true. cbn [negb]. cbn iota.
  change (kMaxProtocolMappings <=? sizeZ []) with false. cbn iota.
  pose proof (parse_map_printed e name He) as Hm. unfold map_fields in Hm. rewrite skipn_cons, drop_0 in Hm.
  rewrite Hm. rewrite <- (app_nil_r (text_mode (line (str "END")))).
  rewrite getline_printed by (apply (bool_decide_unpack _); vm_compute; exact I).
  change (extract_word (istringstream (str "END" ++ cr))) with (Some (str "END", mkIstream cr false)).
  cbn iota. rewrite bool_decide_true by done. rewrite end_of_line. cbn [negb only_blank getline_string in_eof in_rest app].
  done.
Qed.

(** ** The whole program *)

Lemma unsigned_loop_nonneg base p text v :
  0 < base → 0 ≤ p → unsigned_loop base p text = Some v → 0 ≤ v.
Proof.
  intros Hb. revert p. induction text as [|c text IH]; intros p Hp; cbn [unsigned_loop]; [by intros [= <-]|].
  cbv zeta. set (digit := if _ : bool then _ else _).
  assert (match digit with Some d => 0 ≤ d | None => True end) as Hd.
  { unfold digit. repeat match goal with |- context [(?a <=? ?b)] => destruct (Z.leb_spec a b) end;
      repeat case_match; cbn in *; simplify_eq; try done; lia. }
  destruct digit as [d|]; [|done]. destruct (_ || _); [done|]. apply IH. nia.
Qed.
Lemma ParseUnsigned_nonneg text v : ParseUnsigned text = Some v → 0 ≤ v.
Proof.
  unfold ParseUnsigned. repeat case_match; intros Hv; try done; eapply unsigned_loop_nonneg in Hv; lia.
Qed.

Section Program.
Context {V : Type} `{!Host VmmCall vmm_reply V} `{WideText}.

Definition pfn_typed (o : Options) : Prop := match opt_pfn o with Some pfn => is_u32 pfn | None => True end.

Lemma parse_pfn_typed value o o' : parse_pfn value o = inl o' → pfn_typed o'.
Proof.
  unfold parse_pfn. destruct (32 <? _); [done|]. destruct (ParseUnsigned value) as [pfn|] eqn:E; [|done].
  apply ParseUnsigned_nonneg in E. destruct (Z.ltb_spec u32_max pfn); [done|]. intros [= <-].
  unfold pfn_typed, is_u32. cbn. lia.
Qed.
Lemma options_loop_typed arguments saw_device saw_vmm o o' :
  pfn_typed o → options_loop arguments saw_device saw_vmm o = ParsedOptions o' → pfn_typed o'.
Proof.
  remember (List.length arguments) as n eqn:En. assert (List.length arguments ≤ n)%nat as Hn by lia. clear En.
  revert arguments saw_device saw_vmm o Hn. induction n as [|n IH]; intros arguments saw_device saw_vmm o Hn Ho.
  { destruct arguments; [|simpl in Hn; lia]. cbn. by intros [= <-]. }
  destruct arguments as [|a rest]; [cbn; by intros [= <-]|]. simpl in Hn. cbn [options_loop]. cbv zeta.
  destruct (unusable a); [done|]. destruct rest as [|value rest]; [repeat case_match; done|]. simpl in Hn.
  destruct (bool_decide (a = wstr "--pfn")).
  { destruct (bool_decide _); [done|]. destruct (parse_pfn value o) as [o1|] eqn:E; [|done].
    apply IH; [lia|by eapply parse_pfn_typed]. }
  repeat (case_match; try done); apply IH; try done; lia.
Qed.
Lemma ParseOptions_typed device arguments o :
  ParseOptions device arguments = ParsedOptions o → ∃ pfn, opt_pfn o = Some pfn ∧ is_u32 pfn.
Proof.
  unfold ParseOptions. cbv zeta. destruct (options_loop _ _ _ _) as [o1| |] eqn:E; [|done..].
  apply options_loop_typed in E; [|done]. unfold pfn_typed in E.
  destruct (opt_pfn o1) as [pfn|] eqn:Ep; [|by rewrite bool_decide_false by (by intros [? ?])].
  case_match; [done|]. case_match; [done|]. intros [= <-]. by exists pfn.
Qed.

(** How a run can end. *)
Definition failed_run (r : BridgeExit) : Prop := exit_code r = 2 ∧ stderr r ≠ [].
Definition answered_run (requested : Z) (r : BridgeExit) : Prop :=
  exit_code r = 0 ∧ stderr r = [] ∧
  ∃ e name, pe_pfn e = requested ∧ entry_typed e ∧ single_line name ∧
    stdout r = text_mode (printed_answer requested e name).

Lemma bridge_fail_failed printed message : failed_run (bridge_fail printed message).
Proof.
  split; [done|]. cbn. intros E. pose proof (text_mode_line_length message) as Hlen. rewrite E in Hlen. simpl in Hlen. lia.
Qed.
#[local] Hint Resolve bridge_fail_failed : core.

Variable map_typed : ∀ handle pfn flags v native queried allocation m v',
  host (VmmGetPfnEx handle pfn flags) v = ((native, queried, Some (allocation, m)), v') → Forall entry_typed (pm_entries m).

Lemma print_map_run handle requested m v :
  Forall entry_typed (pm_entries m) →
  failed_run (print_map handle requested m v).1 ∨ answered_run requested (print_map handle requested m v).1.
Proof.
  intros Ht. unfold print_map. destruct (_ || _) eqn:Hv; [by left|]. cbv zeta.
  apply orb_false_iff in Hv as [_ Hc]. apply negb_false_iff, Z.eqb_eq in Hc. rewrite Hc. change (Z.to_nat 1) with 1%nat.
  destruct (pm_entries m) as [|e entries]; [by left|]. apply Forall_cons in Ht as [He _].
  rewrite firstn_cons, firstn_O. cbn [entries_loop]. destruct (Z.eqb_spec (pe_pfn e) requested) as [Hp|]; [|by left].
  cbn [negb].
  destruct (if negb (entry_pid e =? 0) then _ else _) as [name v1] eqn:En.
  assert (single_line name) as Hn.
  { destruct (negb _); [|injection En as <- _; intros Hin; by apply elem_of_nil in Hin].
    destruct (host _ v) as [[[allocation text]|] v2]; [destruct (host _ v2)|]; injection En as <- _.
    - apply ProtocolText_single.
    - intros Hin; by apply elem_of_nil in Hin. }
  cbn [negb]. destruct (host StdoutFailed v1) as [[] v2]; [by left|]. right. cbn [fst].
  split; [done|]. split; [done|]. exists e, name. split; [done|]. split; [done|]. split; [done|].
  cbn [stdout]. unfold printed_answer. by rewrite app_nil_r.
Qed.
Lemma query_frame_run handle requested v :
  failed_run (query_frame handle requested v).1 ∨ answered_run requested (query_frame handle requested v).1.
Proof.
  unfold query_frame. destruct (host _ v) as [[[native queried] [[allocation m]|]] v1] eqn:E; [|by left].
  apply map_typed in E. destruct queried; [|by left].
  pose proof (print_map_run handle requested m v1 E) as Hrun. by destruct (print_map handle requested m v1).
Qed.
Lemma run_library_run options requested v :
  failed_run (run_library options requested v).1 ∨ answered_run requested (run_library options requested v).1.
Proof.
  unfold run_library. cbv zeta. case_match; [by left|]. case_match; [|by left].
  destruct (host _ v) as [[native handle] v1]. case_match; [by left|].
  pose proof (query_frame_run handle requested v1) as Hrun. by destruct (query_frame handle requested v1).
Qed.

End Program.
