(* ===== verification/BridgeSupervisor.v ===== *)
(** [MemProcFsProvider::Execute] and [Query]: the bridge process is started suspended in
    a job that dies with it, its output is drained while it runs, and every handle is
    closed on every path. *)

From stdpp Require Import list.
From S2P Require Import Prelude CppStd Wire Common Paths ReverseMapper Iostream MemProcFs Host.
From Stdlib Require Import Ascii String.

#[local] Open Scope Z_scope.

(** ** The operating system

    A handle is an integer; 0 is no handle and -1 is [INVALID_HANDLE_VALUE].  A call
    that fails answers the native error. *)

Inductive WaitResult := WAIT_OBJECT_0 | WAIT_TIMEOUT | WAIT_FAILED (native : Z) | WAIT_OTHER (status : Z).

Inductive HostCall :=
  | PathStatus (p : wide)
  | PathAbsolute (p : wide)
  | CreatePipe (bytes : Z)
  | SetHandleInformation (handle : Z)
  | CreateJobObject
  | SetInformationJobObject (job : Z)            (* kill on close *)
  | CreateProcess (image command : wide) (output : Z)   (* suspended *)
  | AssignProcessToJobObject (job process : Z)
  | ResumeThread (thread : Z)
  | PeekNamedPipe (pipe : Z)
  | ReadFile (pipe count : Z)
  | WaitForSingleObject (handle milliseconds : Z)
  | GetExitCodeProcess (process : Z)
  | TerminateJobObject (job : Z)
  | TerminateProcess (process : Z)
  | CloseHandle (handle : Z)
  | SteadyClockNow                               (* nanoseconds *)
  | Sleep (milliseconds : Z)
  | StopRequested.

Definition host_reply (c : HostCall) : Type :=
  match c with
  | PathStatus _ => Z * bool                     (* error, whether a regular file *)
  | PathAbsolute _ => Z * wide
  | CreatePipe _ => Native (Z * Z)               (* the read end and the write end *)
  | SetHandleInformation _ => Native unit
  | CreateJobObject => Native Z
  | SetInformationJobObject _ => Native unit
  | CreateProcess _ _ _ => Native (Z * Z)        (* the process and its thread *)
  | AssignProcessToJobObject _ _ => Native unit
  | ResumeThread _ => Native unit
  | PeekNamedPipe _ => Native Z
  | ReadFile _ _ => Z * Z + chars                (* error and count, or the bytes *)
  | WaitForSingleObject _ _ => WaitResult
  | GetExitCodeProcess _ => Native Z
  | TerminateJobObject _ | TerminateProcess _ => bool
  | CloseHandle _ => unit
  | SteadyClockNow => Z
  | Sleep _ => unit
  | StopRequested => bool
  end.

Definition ERROR_BROKEN_PIPE : Z := 109.

(** The local variables of [Execute]: the [ScopedHandle]s and the output. *)
Record Supervisor (O : Type) := mkSupervisor {
  sv_host : O;
  read_pipe : Z;
  write_pipe : Z;
  job : Z;
  process : Z;
  process_thread : Z;
  output : chars
}.
Arguments mkSupervisor {O}.
Arguments sv_host {O}. Arguments read_pipe {O}. Arguments write_pipe {O}. Arguments job {O}.
Arguments process {O}. Arguments process_thread {O}. Arguments output {O}.
#[export] Instance Supervisor_eta O : Eta (Supervisor O) := λ s,
  mkSupervisor (sv_host s) (read_pipe s) (write_pipe s) (job s) (process s) (process_thread s) (output s).

Section Supervisor.
Context {O : Type} `{!Host HostCall host_reply O} `{WideText}.
Abbreviation Sup := (Supervisor O).
Abbreviation M := (Exec (Supervisor O)).

Definition win (c : HostCall) (s : Sup) : host_reply c * Sup :=
  let '(r, o) := host c (sv_host s) in (r, s <| sv_host := o |>).
Definition call (c : HostCall) : M (host_reply c) := λ s, let '(r, s) := win c s in (Success r, s).
Definition fails {A} (c : ErrorCode) (msg : string) (native req comp : Z) : M A :=
  leave (execute_error c msg native req comp).
Definition guard (ok : bool) (c : ErrorCode) (msg : string) (native : Z) : M unit :=
  if ok then mret tt else fails c msg native 0 0.
(** A call whose failure ends the function. *)
Definition value_of {A} (r : Native A) (c : ErrorCode) (msg : string) : M A :=
  match r with inl native => fails c msg native 0 0 | inr a => mret a end.

(** [ScopedHandle::Reset] on what is in a handle. *)
Definition close_handle (handle : Z) : M unit :=
  if negb (handle =? 0) && negb (handle =? -1) then call (CloseHandle handle) else mret tt.
Definition reset_write_pipe : M unit :=
  handle ← gets write_pipe; _ ← close_handle handle; modify (λ s, s <| write_pipe := 0 |>).
Definition reset_job : M unit :=
  handle ← gets job; _ ← close_handle handle; modify (λ s, s <| job := 0 |>).

(** ** Draining the pipe *)

(** One round of [drain_available]: [Success true] when the pipe is closed. *)
Definition drain_round (s : Sup) : Sup + Result bool * Sup :=
  let '(peek, s) := win (PeekNamedPipe (read_pipe s)) s in
  match peek with
  | inl native =>
      if native =? ERROR_BROKEN_PIPE then inr (Success true, s)
      else inr (Failure (execute_error IoFailure "Unable to inspect MemProcFS bridge output" native 0 0), s)
  | inr available =>
      if available =? 0 then inr (Success false, s)
      else if u64 (kMaxBridgeOutput - sizeZ (output s)) <? available then
        inr (Failure (execute_error LimitReached "MemProcFS bridge output exceeded 8 MiB" 0
               kMaxBridgeOutput (u64 (sizeZ (output s) + available))), s)
      else
        let count := Z.min 4096 available in
        let '(read, s) := win (ReadFile (read_pipe s) count) s in
        match read with
        | inl (native, done) =>
            if native =? ERROR_BROKEN_PIPE then inr (Success true, s)
            else inr (Failure (execute_error IoFailure "Unable to read MemProcFS bridge output" native count done), s)
        | inr bytes =>
            if sizeZ bytes =? 0 then
              inr (Failure (execute_error ShortRead "MemProcFS bridge pipe returned an empty read" 0 count 0), s)
            else inl (s <| output := output s ++ bytes |>)
        end
  end.

Definition out_of_rounds : Error := MakeError InternalInvariant "" "".
(** A round adds at least one byte of at most 8 MiB. *)
Definition drain_available : M bool := λ s,
  match rounds 24 drain_round s with inr (r, s) => (r, s) | inl s => (Failure out_of_rounds, s) end.

(** ** Watching the process *)

Definition wait_failure (msg : string) (native : Z) : option Error :=
  Some (execute_error IoFailure msg native 0 0).

(** One round of the supervision: what the function goes on with, if anything. *)
Definition watch_round (deadline : Z) (s : Sup) : Sup + option Error * Sup :=
  let '(drained, s) := drain_available s in
  match drained with
  | Failure e => inr (Some e, s)
  | Success _ =>
      let '(completed, s) := win (WaitForSingleObject (process s) 0) s in
      match completed with
      | WAIT_OBJECT_0 => inr (None, s)
      | WAIT_FAILED native => inr (wait_failure "Waiting for the MemProcFS bridge failed" native, s)
      | _ =>
          let '(stop, s) := win StopRequested s in
          if (stop : bool) then
            inr (Some (execute_error Cancelled "MemProcFS query was cancelled" 0 0 0), s)
          else
            let '(now, s) := win SteadyClockNow s in
            if deadline <=? now then
              inr (Some (execute_error IoFailure "MemProcFS bridge timed out" 0 0 0), s)
            else
              let '(wait, s) := win (WaitForSingleObject (process s) kBridgePollMilliseconds) s in
              match wait with
              | WAIT_OBJECT_0 => inr (None, s)
              | WAIT_FAILED native => inr (wait_failure "Waiting for the MemProcFS bridge failed" native, s)
              | WAIT_TIMEOUT => inl s
              | WAIT_OTHER status =>
                  inr (wait_failure "MemProcFS bridge wait returned an unexpected status" status, s)
              end
      end
  end.
Definition watch (deadline : Z) : M (option Error) := λ s,
  match rounds 96 (watch_round deadline) s with
  | inr (r, s) => (Success r, s)
  | inl s => (Failure out_of_rounds, s)
  end.

(** One round of waiting for the pipe to close once the process has ended. *)
Definition close_round (deadline : Z) (s : Sup) : Sup + Result unit * Sup :=
  let '(drained, s) := drain_available s in
  match drained with
  | Failure e => inr (Failure e, s)
  | Success true => inr (Success tt, s)
  | Success false =>
      let '(now, s) := win SteadyClockNow s in
      if deadline <=? now then
        inr (Failure (execute_error IoFailure "MemProcFS bridge output pipe did not close" 0 0 0), s)
      else let '(_, s) := win (Sleep 1) s in inl s
  end.
Definition await_close (deadline : Z) : M unit := λ s,
  match rounds 96 (close_round deadline) s with inr (r, s) => (r, s) | inl s => (Failure out_of_rounds, s) end.

Definition nanoseconds (milliseconds : Z) : Z := milliseconds * 1000000.

(** ** The function *)

(** Up to a pipe that the child inherits one end of, and a job that kills on close. *)
Definition prepare : M unit :=
  pipe ← call (CreatePipe kBridgePipeBytes);
  '(r, w) ← value_of pipe IoFailure "CreatePipe failed for MemProcFS bridge";
  _ ← modify (λ s, s <| read_pipe := r |> <| write_pipe := w |>);
  restricted ← call (SetHandleInformation r);
  _ ← value_of restricted IoFailure "Unable to restrict MemProcFS bridge pipe inheritance";
  created ← call CreateJobObject;
  j ← value_of created IoFailure "CreateJobObject failed for MemProcFS bridge";
  _ ← modify (λ s, s <| job := j |>);
  limited ← call (SetInformationJobObject j);
  value_of limited IoFailure "Unable to configure MemProcFS bridge job object".

Definition from_result {A} (r : Result A) : M A := match r with Success a => mret a | Failure e => leave e end.

(** The process is created suspended, put into the job and then resumed. *)
Definition launch (image command : wide) : M unit :=
  w ← gets write_pipe;
  created ← call (CreateProcess image command w);
  _ ← (match created with inl _ => mret tt
       | inr (p, t) => modify (λ s, s <| process := p |> <| process_thread := t |>) end);
  _ ← reset_write_pipe;
  '(p, t) ← value_of created BridgeUnavailable "Unable to start the MemProcFS bridge";
  j ← gets job;
  assigned ← call (AssignProcessToJobObject j p);
  _ ← (match assigned with
       | inl native =>
           _ ← call (TerminateProcess p);
           _ ← call (WaitForSingleObject p kBridgeShutdownMilliseconds);
           fails IoFailure "Unable to assign MemProcFS bridge to its job object" native 0 0
       | inr _ => mret tt end);
  resumed ← call (ResumeThread t);
  match resumed with
  | inl native =>
      _ ← call (TerminateJobObject j);
      _ ← call (WaitForSingleObject p kBridgeShutdownMilliseconds);
      fails IoFailure "Unable to resume the MemProcFS bridge process" native 0 0
  | inr _ => mret tt
  end.

(** A supervision error: the job is ended, and what is left in the pipe dropped. *)
Definition abandon (e : Error) : M unit :=
  j ← gets job; p ← gets process;
  terminated ← call (TerminateJobObject j);
  _ ← (if (terminated : bool) then mret true else call (TerminateProcess p));
  _ ← call (WaitForSingleObject p kBridgeShutdownMilliseconds);
  _ ← reset_job;
  _ ← outcome drain_available;
  leave e.

Definition collect : M chars :=
  p ← gets process;
  exited ← call (GetExitCodeProcess p);
  exit_code ← value_of exited IoFailure "Unable to obtain the MemProcFS bridge exit code";
  _ ← reset_job;
  now ← call SteadyClockNow;
  _ ← await_close (now + nanoseconds kBridgeShutdownMilliseconds);
  out ← gets output;
  if negb (exit_code =? 0) then
    fails BridgeUnavailable
      (if bool_decide (out = []) then "MemProcFS bridge returned an error" else text_of out) exit_code 0 0
  else mret out.

Definition execute_body (provider : MemProcFsProvider) (pfn : Z) : M chars :=
  _ ← guard (0 <? timeout_ provider) InvalidArgument "MemProcFS bridge timeout must be positive" 0;
  '(status_error, regular) ← call (PathStatus (bridge_path_ provider));
  _ ← guard (negb (bool_decide (bridge_path_ provider = [])) && (status_error =? 0) && regular)
        BridgeUnavailable "MemProcFS bridge path is unavailable or is not a regular file" (u64 status_error);
  '(absolute_error, resolved) ← call (PathAbsolute (bridge_path_ provider));
  _ ← guard (absolute_error =? 0) BridgeUnavailable "Unable to resolve the MemProcFS bridge path" (u64 absolute_error);
  _ ← prepare;
  arguments ← from_result (bridge_arguments (configuration_ provider) pfn);
  command ← from_result (command_line resolved arguments);
  _ ← launch resolved command;
  start ← call SteadyClockNow;
  supervised ← watch (start + nanoseconds (timeout_ provider));
  _ ← (match supervised with Some e => abandon e | None => mret tt end);
  collect.

(** The [ScopedHandle]s are destroyed in the reverse order of their declaration. *)
Definition destroy_handles : M unit :=
  s ← gets id;
  _ ← close_handle (process_thread s); _ ← close_handle (process s); _ ← close_handle (job s);
  _ ← close_handle (write_pipe s); close_handle (read_pipe s).

Definition Execute (provider : MemProcFsProvider) (pfn : Z) (o : O) : Result chars * O :=
  let '(r, s) := execute_body provider pfn (mkSupervisor o 0 0 0 0 0 []) in
  let '(_, s) := destroy_handles s in (r, sv_host s).

Definition Query (provider : MemProcFsProvider) (pfn : Z) (o : O) : Result PfnUsageResult * O :=
  let failure c msg := Failure (MakeError c msg "MemProcFsProvider::Query") in
  if u32_max <? pfn then (failure InvalidPfn "MemProcFS accepts PFNs up to 32 bits", o)
  else
    let '(stop, o) := host StopRequested o in
    if (stop : bool) then (failure Cancelled "MemProcFS query was cancelled before launch", o)
    else
      match ValidateConfiguration (configuration_ provider) with
      | Failure e => (Failure e, o)
      | Success _ =>
          match Execute provider (u32 pfn) o with
          | (Failure e, o) => (Failure e, o)
          | (Success out, o) => (ParseOutput pfn out kMaxProtocolMappings, o)
          end
      end.
End Supervisor.
