(* ===== verification/SupervisorTheorems.v ===== *)
(** What the supervision of the bridge guarantees, whatever the system answers: no handle
    is lost, the process runs only in a job that dies with its handle, the output is
    bounded and complete; and the supervision ends. *)

From stdpp Require Import list sets.
From S2P Require Import Prelude CppStd Wire Common Paths ReverseMapper Iostream Host MemProcFs BridgeSupervisor.
From Stdlib Require Import Ascii String.

#[local] Open Scope Z_scope.

(** ** The log *)

Abbreviation event := {c : HostCall & host_reply c}.
Definition ev (c : HostCall) (r : host_reply c) : event := existT c r.

Definition opened_by (e : event) : list Z :=
  match e with
  | existT c r =>
      match c return host_reply c → list Z with
      | CreatePipe _ => λ r, match r with inr (a, b) => [a; b] | inl _ => [] end
      | CreateJobObject => λ r, match r with inr j => [j] | inl _ => [] end
      | CreateProcess _ _ _ => λ r, match r with inr (p, t) => [p; t] | inl _ => [] end
      | _ => λ _, []
      end r
  end.
Definition closed_by (e : event) : list Z := match projT1 e with CloseHandle h => [h] | _ => [] end.
Definition read_by (e : event) : chars :=
  match e with
  | existT c r =>
      match c return host_reply c → chars with
      | ReadFile _ _ => λ r, match r with inr bytes => bytes | inl _ => [] end
      | _ => λ _, []
      end r
  end.
(** The handles that were opened and closed, and the bytes that were read, in order. *)
Definition opened (l : list event) : list Z := e ← l; opened_by e.
Definition closed (l : list event) : list Z := e ← l; closed_by e.
Definition bytes_read (l : list event) : chars := e ← reverse l; read_by e.

Definition valid (handle : Z) : bool := negb (handle =? 0) && negb (handle =? -1).

(** The thread was resumed when its process was in a job with the limit to kill on
    close; that job is the one held, or its handle was closed since. *)
Definition contained (held : Z) (later : list event) (t : Z) (earlier : list event) : Prop :=
  ∃ j p image command pipe, valid j = true ∧
    ev (SetInformationJobObject j) (inr tt) ∈ earlier ∧ ev (AssignProcessToJobObject j p) (inr tt) ∈ earlier ∧
    ev (CreateProcess image command pipe) (inr (p, t)) ∈ earlier ∧
    (held = j ∨ ev (CloseHandle j) tt ∈ later).

Section Supervised.
Context {O : Type} `{!Host HostCall host_reply O} `{WideText}.
Abbreviation Sup := (Supervisor (Logged HostCall host_reply O)).

(** Handles that the system gives out are neither null nor invalid; a read returns at
    most what was asked for. *)
Hypothesis handles_valid : ∀ c (o : O), Forall (λ h, valid h = true) (opened_by (ev c (host c o).1)).
Hypothesis read_bounded : ∀ pipe count (o : O), sizeZ (read_by (ev (ReadFile pipe count) (host (ReadFile pipe count) o).1)) ≤ Z.max 0 count.

Definition calls (s : Sup) : list event := lg_calls (sv_host s).
Definition handles (s : Sup) : list Z := [read_pipe s; write_pipe s; job s; process s; process_thread s].
Definition live (hs : list Z) : list Z := filter (λ h, valid h = true) hs.

Record supervised (s : Sup) : Prop := {
  sp_handles : opened (calls s) ≡ₚ closed (calls s) ++ live (handles s);
  sp_output : output s = bytes_read (calls s);
  sp_bound : sizeZ (output s) ≤ kMaxBridgeOutput;
  sp_contained later t r earlier :
    calls s = later ++ ev (ResumeThread t) r :: earlier → contained (job s) later t earlier
}.
(** With what is known of the log, and the handles held. *)
Definition known (F : list event) (hs : list Z) (s : Sup) : Prop :=
  supervised s ∧ Forall (λ e, e ∈ calls s) F ∧ handles s = hs.

(** A call adds its event to the log. *)
Definition stepped (c : HostCall) (r : host_reply c) (s s' : Sup) : Prop :=
  ∃ o, s' = s <| sv_host := mkLogged o (ev c r :: calls s) |> ∧ ∃ o1, host c o1 = (r, o).

Lemma win_stepped c s : stepped c (win c s).1 s (win c s).2.
Proof.
  unfold stepped, win, host, Logged_Host. destruct (host c (lg_host (sv_host s))) as [r o] eqn:E. cbn.
  exists o. split; [done|]. by eexists.
Qed.

Lemma opened_cons e l : opened (e :: l) = opened_by e ++ opened l.
Proof. done. Qed.
Lemma closed_cons e l : closed (e :: l) = closed_by e ++ closed l.
Proof. done. Qed.
Lemma bytes_read_cons e l : bytes_read (e :: l) = bytes_read l ++ read_by e.
Proof. unfold bytes_read. rewrite reverse_cons, bind_app. cbn. by rewrite app_nil_r. Qed.

Lemma contained_later held later t earlier e :
  contained held later t earlier → contained held (e :: later) t earlier.
Proof.
  intros (j & p & im & cm & pi & Hj & H1 & H2 & H3 & H4). exists j, p, im, cm, pi. split_and!; [done..|].
  destruct H4; [by left|right]. by apply elem_of_cons; right.
Qed.
Lemma contained_rehold held held' later t earlier :
  held' = held ∨ held = 0 ∨ ev (CloseHandle held) tt ∈ later →
  contained held later t earlier → contained held' later t earlier.
Proof.
  intros Hh (j & p & im & cm & pi & Hj & H1 & H2 & H3 & H4). exists j, p, im, cm, pi. split_and!; [done..|].
  destruct H4 as [->|H4]; [|by right]. destruct Hh as [->|[->|Hh]]; [by left|done|by right].
Qed.

(** One call, and what the function does with its answer. *)
Lemma known_step F hs c r s s1 s2 :
  known F hs s → stepped c r s s1 → calls s2 = calls s1 →
  output s2 = output s ++ read_by (ev c r) → sizeZ (output s2) ≤ kMaxBridgeOutput →
  opened_by (ev c r) ++ live hs ≡ₚ closed_by (ev c r) ++ live (handles s2) →
  job s2 = job s ∨ job s = 0 ∨ ev c r = ev (CloseHandle (job s)) tt →
  (∀ t, c = ResumeThread t → contained (job s2) [] t (calls s)) →
  known (ev c r :: F) (handles s2) s2.
Proof.
  intros (Hs & HF & Hh) (o & -> & _) E Ho Hb Hp Hj Hr. change (calls (s <| _ := _ |>)) with (ev c r :: calls s) in E.
  split; [|split; [|done]]; [split|].
  - rewrite E, opened_cons, closed_cons, (sp_handles s Hs), Hh.
    rewrite Permutation_app_swap_app, Hp. rewrite Permutation_app_swap_app. by rewrite <- app_assoc.
  - by rewrite E, bytes_read_cons, <- (sp_output s Hs).
  - done.
  - rewrite E. intros later t r0 earlier E0. destruct later as [|e later].
    + injection E0 as Ec _ <-. by apply Hr.
    + injection E0 as <- E0. apply (contained_rehold (job s)).
      * destruct Hj as [|[|Hj]]; [by left|by right; left|]. right. right. rewrite <- Hj. apply elem_of_cons. by left.
      * apply contained_later. by eapply sp_contained.
  - rewrite E. constructor; [apply elem_of_cons; by left|]. eapply Forall_impl; [exact HF|]. cbn. intros e He.
    apply elem_of_cons. by right.
Qed.

(** Calls that open, close, read and resume nothing. *)
Definition quiet_call (c : HostCall) : bool :=
  match c with
  | CreatePipe _ | CreateJobObject | CreateProcess _ _ _ | CloseHandle _ | ReadFile _ _ | ResumeThread _ => false
  | _ => true
  end.
Lemma known_quiet F hs c r s s1 :
  known F hs s → stepped c r s s1 → quiet_call c = true → known (ev c r :: F) hs s1.
Proof.
  intros Hk Hst Hq. pose proof Hk as (Hs & _ & Hh). pose proof Hst as (o & E & _).
  replace hs with (handles s1) by (by rewrite E, <- Hh). eapply known_step; [exact Hk|exact Hst|done|..].
  - rewrite E. change (output (s <| _ := _ |>)) with (output s). destruct c; try done; by rewrite app_nil_r.
  - rewrite E. apply (sp_bound s Hs).
  - rewrite E. change (handles (s <| _ := _ |>)) with (handles s). rewrite Hh. by destruct c.
  - left. by rewrite E.
  - by intros t ->.
Qed.

Abbreviation spec P m Q := (triple P m Q (λ _, supervised)).

Lemma known_supervised F hs s : known F hs s → supervised s.
Proof. by intros [? _]. Qed.
Lemma known_drop e F hs s : known (e :: F) hs s → known F hs s.
Proof. intros (Hs & HF & Hh). apply Forall_cons in HF as [_ HF]. by split. Qed.
Lemma known_skip e e0 F hs s : known (e :: e0 :: F) hs s → known (e :: F) hs s.
Proof. intros (Hs & [? [_ ?]%Forall_cons]%Forall_cons & Hh). split; [done|]. split; [by constructor|done]. Qed.
#[local] Hint Resolve known_supervised known_drop known_skip : core.

Lemma spec_call F hs c : quiet_call c = true → spec (known F hs) (call c) (λ r, known (ev c r :: F) hs).
Proof.
  intros Hq s Hs. unfold call. pose proof (win_stepped c s) as Hst. destruct (win c s) as [r s1]. cbn [fst snd] in Hst.
  by eapply known_quiet.
Qed.
Lemma spec_fails {A} F hs c msg n q k (Q : A → Sup → Prop) : spec (known F hs) (fails c msg n q k) Q.
Proof. apply triple_leave. by eauto. Qed.
Lemma spec_value_of {A} (r : Native A) F hs c msg : spec (known F hs) (value_of r c msg) (λ a s, known F hs s ∧ r = inr a).
Proof. destruct r as [n|a]; [apply spec_fails|by apply triple_ret]. Qed.
Lemma spec_guard F hs ok c msg n : spec (known F hs) (guard ok c msg n) (λ _, known F hs).
Proof. destruct ok; [by apply triple_ret|apply spec_fails]. Qed.

(** Closing what is in a handle, and forgetting it. *)
Lemma spec_close F hs hs' h (f : Sup → Sup) :
  live hs ≡ₚ live [h] ++ live hs' →
  (∀ s, handles s = hs → handles (f s) = hs' ∧ calls (f s) = calls s ∧ output (f s) = output s ∧
        (job (f s) = job s ∨ h = job s)) →
  spec (known F hs) (_ ← close_handle h; modify f) (λ _, known F hs').
Proof.
  intros Hl Hf s Hk. pose proof Hk as (Hs & HF & Hh). unfold close_handle. change (negb (h =? 0) && negb (h =? -1)) with (valid h).
  unfold live in Hl at 2. rewrite filter_cons in Hl.
  destruct (valid h) eqn:Hv; unfold mbind, Exec_bind, mret, Exec_ret, modify, call.
  - pose proof (win_stepped (CloseHandle h) s) as Hst. destruct (win _ s) as [[] s1]. cbn [fst snd] in Hst. cbv beta iota.
    pose proof Hst as (o & E & _). destruct (Hf s1) as (H1 & H2 & H3 & H4); [by rewrite E, <- Hh|].
    rewrite <- H1. apply (known_drop (ev (CloseHandle h) tt)). eapply known_step; [exact Hk|exact Hst|done|..].
    + rewrite H3, E. by rewrite app_nil_r.
    + rewrite H3, E. apply (sp_bound s Hs).
    + rewrite H1. rewrite decide_True in Hl by done. exact Hl.
    + rewrite E in H4. change (job (s <| _ := _ |>)) with (job s) in H4. rewrite E. destruct H4 as [H4| ->]; [by left|by right; right].
    + done.
  - rewrite decide_False in Hl by congruence. destruct (Hf s) as (H1 & H2 & H3 & H4); [done|].
    split; [|split; [by rewrite H2|done]]. destruct Hs as [A1 A2 A3 A4]. split.
    + rewrite H2, H1, A1, Hh, Hl. done.
    + by rewrite H3, H2.
    + by rewrite H3.
    + rewrite H2. intros later t r earlier E. specialize (A4 _ _ _ _ E).
      destruct H4 as [->| ->]; [done|]. destruct A4 as (j & p & im & cm & pi & Hj & B1 & B2 & B3 & B4).
      exists j, p, im, cm, pi. split_and!; [done..|]. destruct B4 as [<-|B4]; [congruence|by right].
Qed.
(** Reading a local variable that is known. *)
Lemma spec_gets {A B} (f : Sup → A) a (k : A → Exec Sup B) P Q :
  (∀ s, P s → f s = a) → spec P (k a) Q → spec P (x ← gets f; k x) Q.
Proof. intros Hf Hk s Hs. unfold mbind, Exec_bind, gets. rewrite (Hf s Hs). by apply Hk. Qed.

Lemma known_handles F r w j p t s :
  known F [r; w; j; p; t] s →
  read_pipe s = r ∧ write_pipe s = w ∧ job s = j ∧ process s = p ∧ process_thread s = t.
Proof. intros (_ & _ & Hh). unfold handles in Hh. by injection Hh as -> -> -> -> ->. Qed.

Ltac close_perm := unfold live; rewrite ?filter_cons, ?filter_nil; repeat case_decide; try done; solve_Permutation.
Lemma spec_reset_write F r w j p t : spec (known F [r; w; j; p; t]) reset_write_pipe (λ _, known F [r; 0; j; p; t]).
Proof.
  apply (spec_gets _ w); [by intros s (_ & ? & _)%known_handles|].
  apply spec_close; [close_perm|]. intros s Hh. unfold handles in *. injection Hh as <- <- <- <- <-. cbn. auto.
Qed.
Lemma spec_reset_job F r w j p t : spec (known F [r; w; j; p; t]) reset_job (λ _, known F [r; w; 0; p; t]).
Proof.
  apply (spec_gets _ j); [by intros s (_ & _ & ? & _)%known_handles|].
  apply spec_close; [close_perm|]. intros s Hh. unfold handles in *. injection Hh as <- <- <- <- <-. cbn. auto.
Qed.

(** ** The loops *)

(** The pipe was found closed; the process was found to have ended. *)
Definition broken_event (e : event) : Prop :=
  (∃ p, e = ev (PeekNamedPipe p) (inl ERROR_BROKEN_PIPE)) ∨
  (∃ p n done, e = ev (ReadFile p n) (inl (ERROR_BROKEN_PIPE, done))).
Definition ended_event (e : event) : Prop := ∃ h ms, e = ev (WaitForSingleObject h ms) WAIT_OBJECT_0.

Definition knows (X : event → Prop) F hs s : Prop := ∃ e, X e ∧ known (e :: F) hs s.

(** What a round leaves behind. *)
Definition drained (F : list event) (hs : list Z) (r : Result bool * Sup) : Prop :=
  match r with
  | (Success b, s) => known F hs s ∧ (b = true → knows broken_event F hs s)
  | (Failure _, s) => known F hs s
  end.

Lemma drain_round_known F hs s :
  known F hs s → match drain_round s with inl s => known F hs s | inr r => drained F hs r end.
Proof.
  intros Hk. unfold drain_round. pose proof (win_stepped (PeekNamedPipe (read_pipe s)) s) as Hst.
  destruct (win _ s) as [peek s1]. cbn [fst snd] in Hst.
  pose proof (known_quiet _ _ _ _ _ _ Hk Hst eq_refl) as Hk1.
  destruct peek as [native|available].
  { destruct (Z.eqb_spec native ERROR_BROKEN_PIPE) as [->|]; cbn; [|by eauto].
    split; [by eauto|]. intros _. eexists. split; [|exact Hk1]. left. by eexists. }
  destruct (available =? 0); [by split; [eauto|]|]. destruct (Z.ltb_spec (u64 (kMaxBridgeOutput - sizeZ (output s1))) available) as [|Ha];
    [cbn; by eauto|].
  pose proof (win_stepped (ReadFile (read_pipe s1) (Z.min 4096 available)) s1) as Hst2.
  destruct (win _ s1) as [read s2] eqn:E. cbn [fst snd] in Hst2. clear E.
  pose proof (sp_bound _ (known_supervised _ _ _ Hk1)) as Hb.
  assert (u64 (kMaxBridgeOutput - sizeZ (output s1)) = kMaxBridgeOutput - sizeZ (output s1)) as Hu.
  { apply u64_id. pose proof (sizeZ_nonneg (output s1)). unfold is_u64, kMaxBridgeOutput in *. lia. }
  pose proof Hst2 as (o & E & o1 & Eo).
  assert (∀ bytes, read_by (ev (ReadFile (read_pipe s1) (Z.min 4096 available)) read) = bytes →
    known (ev (ReadFile (read_pipe s1) (Z.min 4096 available)) read :: ev (PeekNamedPipe (read_pipe s)) (inr available) :: F) hs
      (s2 <| output := output s2 ++ bytes |>)) as Hread.
  { intros bytes Er. pose proof Hk1 as (Hs1 & _ & Hh1).
    replace hs with (handles (s2 <| output := output s2 ++ bytes |>)) by (rewrite E; exact Hh1).
    eapply known_step; [exact Hk1|exact Hst2|by rewrite E|..].
    - rewrite Er. by rewrite E.
    - pose proof (read_bounded (read_pipe s1) (Z.min 4096 available) o1) as Hrb. rewrite Eo in Hrb. cbn [fst] in Hrb.
      rewrite Er in Hrb. rewrite E. change (output (update output _ _)) with (output s1 ++ bytes). rewrite sizeZ_app. lia.
    - rewrite E. change (handles _) with (handles s1). by rewrite Hh1.
    - left. by rewrite E.
    - done. }
  destruct read as [[native n]|bytes].
  { specialize (Hread [] eq_refl). rewrite app_nil_r in Hread.
    assert (s2 <| output := output s2 |> = s2) as Es by (by destruct s2). rewrite Es in Hread.
    destruct (Z.eqb_spec native ERROR_BROKEN_PIPE) as [->|]; cbn; [|by eauto]. split; [by eauto|]. intros _.
    eexists. split; [right; by eexists _, _, _|]. by eapply known_skip. }
  specialize (Hread bytes eq_refl). destruct (Z.eqb_spec (sizeZ bytes) 0) as [Hz|]; [|by eauto].
  apply sizeZ_nil_inv in Hz as ->. rewrite app_nil_r in Hread.
  assert (s2 <| output := output s2 |> = s2) as Es by (by destruct s2). rewrite Es in Hread. cbn. by eauto.
Qed.

Lemma drain_known F hs s : known F hs s → drained F hs (drain_available s).
Proof.
  intros Hk. unfold drain_available.
  pose proof (rounds_keeps (known F hs) (drained F hs) 24 drain_round s (drain_round_known F hs) Hk) as Hr.
  destruct (rounds 24 drain_round s) as [s1|[r s1]]; done.
Qed.

(** A call that is only looked at. *)
Lemma win_known F hs c s : known F hs s → quiet_call c = true → known (ev c (win c s).1 :: F) hs (win c s).2.
Proof. intros Hk Hq. eapply known_quiet; [exact Hk|apply win_stepped|done]. Qed.
Ltac quiet_win Hk :=
  match type of Hk with known ?F ?hs ?s =>
    match goal with |- context [win ?c s] =>
      let H := fresh Hk in pose proof (win_known F hs c s Hk eq_refl) as H;
      destruct (win c s); cbn [fst snd] in H
    end end.

Definition watched (F : list event) (hs : list Z) (r : option Error * Sup) : Prop :=
  known F hs r.2 ∧ (r.1 = None → knows ended_event F hs r.2).

Lemma watch_round_known deadline F hs s :
  known F hs s → match watch_round deadline s with inl s => known F hs s | inr r => watched F hs r end.
Proof.
  intros Hk. unfold watch_round. pose proof (drain_known F hs s Hk) as Hd.
  destruct (drain_available s) as [[b|e] s0]; cbn in Hd; [destruct Hd as [Hd _]|by split].
  quiet_win Hd. destruct h; try (split; [by eauto|done]); try (split; [by eauto|]; intros _; eexists; split; [by eexists _, _|done]).
  all: quiet_win Hd0; destruct h; [split; [by eauto|done]|]; quiet_win Hd1;
    (destruct (deadline <=? h); [split; [by eauto 6|done]|]); quiet_win Hd2;
    match goal with w : host_reply (WaitForSingleObject _ _) |- _ => destruct w end;
    try (split; [by eauto 7|done]); [|by eauto 7];
    (split; [by eauto 7|]); intros _; eexists; (split; [|by do 3 eapply known_skip; exact Hd3]); by eexists _, _.
Qed.

Lemma spec_watch deadline F hs :
  spec (known F hs) (watch deadline) (λ r s, known F hs s ∧ (r = None → knows ended_event F hs s)).
Proof.
  intros s Hk. unfold watch.
  pose proof (rounds_keeps _ (watched F hs) 96 _ s (watch_round_known deadline F hs) Hk) as Hr.
  destruct (rounds 96 _ s) as [s1|[r s1]]; [by eauto|exact Hr].
Qed.

Definition closing (F : list event) (hs : list Z) (r : Result unit * Sup) : Prop :=
  match r with (Success _, s) => knows broken_event F hs s | (Failure _, s) => known F hs s end.
Lemma close_round_known deadline F hs s :
  known F hs s → match close_round deadline s with inl s => known F hs s | inr r => closing F hs r end.
Proof.
  intros Hk. unfold close_round. pose proof (drain_known F hs s Hk) as Hd.
  destruct (drain_available s) as [[[]|e] s0]; cbn in Hd; [by apply Hd| |done]. destruct Hd as [Hd _].
  quiet_win Hd. destruct (deadline <=? _); [cbn; by eauto|]. quiet_win Hd0. by eauto.
Qed.
Lemma spec_await deadline F hs :
  spec (known F hs) (await_close deadline) (λ _ s, knows broken_event F hs s).
Proof.
  intros s Hk. unfold await_close.
  pose proof (rounds_keeps _ (closing F hs) 96 _ s (close_round_known deadline F hs) Hk) as Hr.
  destruct (rounds 96 _ s) as [s1|[[] s1]]; cbn in Hr; eauto.
Qed.

(** ** The parts of the function *)

Lemma spec_call_raw P c : spec P (call c) (λ r s1, ∃ s0, P s0 ∧ stepped c r s0 s1).
Proof.
  intros s Hs. unfold call. pose proof (win_stepped c s) as Hst. destruct (win c s) as [r s1].
  by exists s.
Qed.
Lemma stepped_valid c r s s1 : stepped c r s s1 → Forall (λ h, valid h = true) (opened_by (ev c r)).
Proof. intros (o & _ & o1 & E). pose proof (handles_valid c o1) as Hv. by rewrite E in Hv. Qed.

(** A call that opens handles, or fails, and the variables that take them. *)
Lemma known_open F hs c r s s1 f :
  known F hs s → stepped c r s s1 → closed_by (ev c r) = [] → read_by (ev c r) = [] →
  (∀ t, c ≠ ResumeThread t) →
  (calls (f s1) = calls s1 ∧ output (f s1) = output s1 ∧
    opened_by (ev c r) ++ live hs ≡ₚ live (handles (f s1)) ∧ (job (f s1) = job s1 ∨ job s1 = 0)) →
  known (ev c r :: F) (handles (f s1)) (f s1).
Proof.
  intros Hk Hst Hc Hr Ht (E1 & E2 & E3 & E4). pose proof Hst as (o & E & _). pose proof Hk as (Hs & _ & _).
  eapply known_step; [exact Hk|exact Hst|done|..].
  - rewrite E2, E, Hr. by rewrite app_nil_r.
  - rewrite E2, E. apply (sp_bound s Hs).
  - by rewrite Hc.
  - rewrite E in E4. change (job (s <| _ := _ |>)) with (job s) in E4. rewrite E. tauto.
  - intros t Hrt. by destruct (Ht t).
Qed.

Ltac raw_call :=
  match goal with |- triple _ (mbind _ (call ?c)) _ _ => apply (triple_bind _ _ _ _ _ _ (spec_call_raw _ c)) end.

Lemma spec_pipe n c msg (k : Z → Z → Exec Sup unit) Q :
  (∀ r w, spec (known [] [r; w; 0; 0; 0]) (k r w) Q) →
  spec (known [] [0; 0; 0; 0; 0])
    (pipe ← call (CreatePipe n); '(r, w) ← value_of pipe c msg;
     _ ← modify (λ s, s <| read_pipe := r |> <| write_pipe := w |>); k r w) Q.
Proof.
  intros Hrest. raw_call. intros pipe s1 (s0 & Hk & Hst).
  pose proof Hst as (o & E & _). pose proof (known_handles _ _ _ _ _ _ _ Hk) as (Hr0 & Hw0 & Hj & Hp & Ht).
  destruct pipe as [native|[r w]].
  { cbn. eapply known_supervised, (known_open _ _ _ _ _ _ id Hk Hst); [done..|].
    split_and!; [done..| |by left]. rewrite E. change (handles (id _)) with (handles s0). by destruct Hk as (_ & _ & ->). }
  pose proof (stepped_valid _ _ _ _ Hst) as [Hr [Hw _]%Forall_cons]%Forall_cons.
  set (s2 := s1 <| read_pipe := r |> <| write_pipe := w |>). refine (Hrest r w s2 _).
  assert (handles s2 = [r; w; 0; 0; 0]) as Eh by (unfold s2; rewrite E; unfold handles; cbn; by rewrite Hj, Hp, Ht).
  rewrite <- Eh. eapply known_drop, (known_open _ _ _ _ _ _ (λ _, s2)); [exact Hk|exact Hst|done..|].
  split_and!; [done|done| |by left]. rewrite Eh. cbn. close_perm.
Qed.

Lemma spec_job r w c msg (k : Z → Exec Sup unit) Q :
  (∀ j, valid j = true → spec (known [] [r; w; j; 0; 0]) (k j) Q) →
  spec (known [] [r; w; 0; 0; 0])
    (created ← call CreateJobObject; j ← value_of created c msg; _ ← modify (λ s, s <| job := j |>); k j) Q.
Proof.
  intros Hrest. raw_call. intros created s1 (s0 & Hk & Hst).
  pose proof Hst as (o & E & _). pose proof (known_handles _ _ _ _ _ _ _ Hk) as (Hr0 & Hw0 & Hj & Hp & Ht).
  destruct created as [native|j].
  { cbn. eapply known_supervised, (known_open _ _ _ _ _ _ id Hk Hst); [done..|].
    split_and!; [done..| |by left]. rewrite E. change (handles (id _)) with (handles s0). by destruct Hk as (_ & _ & ->). }
  pose proof (stepped_valid _ _ _ _ Hst) as [Hv _]%Forall_cons.
  set (s2 := s1 <| job := j |>). refine (Hrest j Hv s2 _).
  assert (handles s2 = [r; w; j; 0; 0]) as Eh by (unfold s2; rewrite E; unfold handles; cbn; by rewrite Hr0, Hw0, Hp, Ht).
  rewrite <- Eh. eapply known_drop, (known_open _ _ _ _ _ _ (λ _, s2)); [exact Hk|exact Hst|done..|].
  split_and!; [done|done| |right; rewrite E; exact Hj]. rewrite Eh. cbn. close_perm.
Qed.

(** The next call, value or check of a function. *)
Ltac quiet_step :=
  match goal with |- triple (known ?F ?hs) (mbind _ (call ?c)) _ _ =>
    apply (triple_bind _ _ _ _ _ _ (spec_call F hs c eq_refl)); intros ? end.
Ltac value_step :=
  match goal with |- triple (known ?F ?hs) (mbind _ (value_of ?r ?c ?m)) _ _ =>
    apply (triple_bind _ _ _ _ _ _ (spec_value_of r F hs c m)); intros ?; apply triple_pure; intros -> end.
Ltac guard_step :=
  match goal with |- triple (known ?F ?hs) (mbind _ (guard ?ok ?c ?m ?n)) _ _ =>
    apply (triple_bind _ _ _ _ _ _ (spec_guard F hs ok c m n)); intros _ end.
(** Forgets the latest event. *)
Lemma spec_drop {A} e F hs (m : Exec Sup A) Q : spec (known F hs) m Q → spec (known (e :: F) hs) m Q.
Proof. intros Hm s Hs. apply Hm. by eapply known_drop. Qed.

Lemma spec_prepare :
  spec (known [] [0; 0; 0; 0; 0]) prepare
    (λ _ s, ∃ r w j, valid j = true ∧ known [ev (SetInformationJobObject j) (inr tt)] [r; w; j; 0; 0] s).
Proof.
  apply spec_pipe. intros r w. quiet_step. apply spec_drop. value_step.
  apply spec_job. intros j Hj. quiet_step.
  eapply triple_weaken; [apply spec_value_of|done|]. intros [] s [Hs ->]. eauto 6.
Qed.

Lemma spec_create im cm w F r j (k : host_reply (CreateProcess im cm w) → Exec Sup unit) Q :
  (∀ native, spec (known F [r; w; j; 0; 0]) (k (inl native)) Q) →
  (∀ p t, spec (known (ev (CreateProcess im cm w) (inr (p, t)) :: F) [r; w; j; p; t]) (k (inr (p, t))) Q) →
  spec (known F [r; w; j; 0; 0])
    (created ← call (CreateProcess im cm w);
     _ ← (match created with inl _ => mret tt
          | inr (p, t) => modify (λ s, s <| process := p |> <| process_thread := t |>) end);
     k created) Q.
Proof.
  intros Hl Hr. raw_call. intros created s1 (s0 & Hk & Hst).
  pose proof Hst as (o & E & _). pose proof (known_handles _ _ _ _ _ _ _ Hk) as (Hr0 & Hw0 & Hj & Hp & Ht).
  destruct created as [native|[p t]].
  { refine (Hl native s1 _). pose proof Hk as (_ & _ & Hh). rewrite <- Hh. change (handles s0) with (handles s0).
    replace (handles s0) with (handles (id s1)) by (by rewrite E).
    eapply known_drop, (known_open _ _ _ _ _ _ id Hk Hst); [done..|].
    split_and!; [done..| |by left]. rewrite E. change (handles (id _)) with (handles s0). by rewrite Hh. }
  pose proof (stepped_valid _ _ _ _ Hst) as [Hvp [Hvt _]%Forall_cons]%Forall_cons.
  set (s2 := s1 <| process := p |> <| process_thread := t |>). refine (Hr p t s2 _).
  assert (handles s2 = [r; w; j; p; t]) as Eh by (unfold s2; rewrite E; unfold handles; cbn; by rewrite Hr0, Hw0, Hj).
  rewrite <- Eh. eapply (known_open _ _ _ _ _ _ (λ _, s2)); [exact Hk|exact Hst|done..|].
  split_and!; [done|done| |by left]. rewrite Eh. cbn. close_perm.
Qed.

(** The thread is resumed inside the job. *)
Lemma spec_resume im cm w p t F r w' j (k : host_reply (ResumeThread t) → Exec Sup unit) Q :
  valid j = true →
  (∀ x, spec (known F [r; w'; j; p; t]) (k x) Q) →
  spec (known (ev (AssignProcessToJobObject j p) (inr tt) :: ev (CreateProcess im cm w) (inr (p, t)) ::
               ev (SetInformationJobObject j) (inr tt) :: F) [r; w'; j; p; t])
    (resumed ← call (ResumeThread t); k resumed) Q.
Proof.
  intros Hj Hrest. raw_call. intros resumed s1 (s0 & Hk & Hst). apply Hrest.
  pose proof Hst as (o & E & _). pose proof Hk as (Hs & HF & Hh).
  rewrite !Forall_cons in HF. destruct HF as (Ha & Hc & Hl & _).
  pose proof (known_handles _ _ _ _ _ _ _ Hk) as (_ & _ & Hj0 & _).
  replace [r; w'; j; p; t] with (handles s1) by (by rewrite E, <- Hh).
  do 4 eapply known_drop. eapply known_step; [exact Hk|exact Hst|done|..].
  - rewrite E. by rewrite app_nil_r.
  - rewrite E. apply (sp_bound s0 Hs).
  - rewrite E. change (handles (s0 <| _ := _ |>)) with (handles s0). by rewrite Hh.
  - left. by rewrite E.
  - intros t' [= <-]. exists j, p, im, cm, w. split_and!; [done..|]. left. rewrite E. exact Hj0.
Qed.

Lemma spec_reset_write_then F r w j p t (k : Exec Sup unit) Q :
  spec (known F [r; 0; j; p; t]) k Q → spec (known F [r; w; j; p; t]) (_ ← reset_write_pipe; k) Q.
Proof. intros Hk. eapply triple_bind; [apply spec_reset_write|]. intros []. exact Hk. Qed.

Lemma spec_never {A B} (m : Exec Sup A) (f : A → Exec Sup B) P Q :
  spec P m (λ _ _, False) → spec P (m ≫= f) Q.
Proof. intros Hm. eapply triple_bind; [exact Hm|]. by intros ? ? []. Qed.
Lemma spec_ret_then {A B} (a : A) (f : A → Exec Sup B) P Q : spec P (f a) Q → spec P (mret a ≫= f) Q.
Proof. intros Hf s Hs. by apply Hf. Qed.

Lemma spec_launch im cm r w j :
  valid j = true →
  spec (known [ev (SetInformationJobObject j) (inr tt)] [r; w; j; 0; 0]) (launch im cm)
    (λ _ s, ∃ p t, known [] [r; 0; j; p; t] s).
Proof.
  intros Hj. apply (spec_gets _ w); [by intros s (_ & ? & _)%known_handles|]. apply spec_create.
  - intros native. apply spec_reset_write_then. apply spec_fails.
  - intros p t. apply spec_reset_write_then. eapply triple_bind; [apply spec_value_of|].
    intros [p' t']. apply triple_pure. intros [= <- <-].
    apply (spec_gets _ j); [by intros s (_ & _ & ? & _)%known_handles|]. quiet_step.
    match goal with x : host_reply (AssignProcessToJobObject _ _) |- _ => destruct x as [native|[]] end.
    + apply spec_never. quiet_step. quiet_step. apply spec_fails.
    + apply spec_ret_then, (spec_resume im cm w p t [] r 0 j); [done|]. intros [native|[]].
      * quiet_step. quiet_step. apply spec_fails.
      * apply triple_ret. eauto.
Qed.

Lemma spec_outcome_drain F hs : spec (known F hs) (outcome drain_available) (λ _, known F hs).
Proof.
  intros s Hk. pose proof (drain_known F hs s Hk) as Hd. unfold outcome.
  destruct (drain_available s) as [[b|e] s1]; cbn in Hd; [by destruct Hd|done].
Qed.
Lemma spec_abandon e r j p t : spec (known [] [r; 0; j; p; t]) (abandon e : Exec Sup unit) (λ _ _, False).
Proof.
  apply (spec_gets _ j); [by intros s (_ & _ & ? & _)%known_handles|].
  apply (spec_gets _ p); [by intros s (_ & _ & _ & ? & _)%known_handles|].
  quiet_step. apply spec_drop. eapply (triple_bind _ _ _ _ (λ _, known [] [r; 0; j; p; t])).
  { match goal with x : host_reply (TerminateJobObject _) |- _ => destruct x end; [by apply triple_ret|].
    intros s Hs. pose proof (spec_call [] _ (TerminateProcess p) eq_refl s Hs) as Hc.
    destruct (call _ s) as [[b|x] s']; [exact (known_drop _ _ _ _ Hc)|exact Hc]. }
  intros _. quiet_step. apply spec_drop. eapply triple_bind; [apply spec_reset_job|]. intros [].
  eapply triple_bind; [apply spec_outcome_drain|]. intros rest. apply triple_leave. by eauto.
Qed.

(** All that a success says. *)
Record complete (out : chars) (l : list event) : Prop := {
  co_output : out = bytes_read l;
  co_exit : ∃ p, ev (GetExitCodeProcess p) (inr 0) ∈ l;
  co_ended : ∃ e, ended_event e ∧ e ∈ l;
  co_broken : ∃ e, broken_event e ∧ e ∈ l
}.
Definition finished (out : chars) (s : Sup) : Prop := supervised s ∧ complete out (calls s).

Lemma spec_collect e r j p t :
  ended_event e → spec (known [e] [r; 0; j; p; t]) collect finished.
Proof.
  intros He. apply (spec_gets _ p); [by intros s (_ & _ & _ & ? & _)%known_handles|].
  quiet_step. eapply triple_bind; [apply spec_value_of|]. intros code. apply triple_pure. intros Hx.
  match goal with x : host_reply (GetExitCodeProcess _) |- _ => subst x end.
  eapply triple_bind; [apply spec_reset_job|]. intros []. quiet_step. apply spec_drop.
  eapply triple_bind; [apply spec_await|]. intros [] s (eb & Hb & Hk).
  unfold mbind, Exec_bind, gets. destruct (Z.eqb_spec code 0) as [->|]; cbn [negb]; [|by eapply known_supervised].
  destruct Hk as (Hs & HF & _). rewrite !Forall_cons in HF. destruct HF as (H1 & H2 & H3 & _).
  split; [done|]. split; [by apply sp_output|by eexists|by eauto..].
Qed.

Lemma spec_from_result {A} (r : Result A) F hs : spec (known F hs) (from_result r) (λ _, known F hs).
Proof. destruct r; [by apply triple_ret|apply triple_leave]. by eauto. Qed.

Lemma spec_execute provider pfn : spec (known [] [0; 0; 0; 0; 0]) (execute_body provider pfn) finished.
Proof.
  unfold execute_body. guard_step. quiet_step. apply spec_drop.
  match goal with x : host_reply (PathStatus _) |- _ => destruct x as [status_error regular] end.
  cbv beta iota. guard_step.
  quiet_step. apply spec_drop. match goal with x : host_reply (PathAbsolute _) |- _ => destruct x as [absolute_error resolved] end.
  cbv beta iota.   guard_step. eapply triple_bind; [apply spec_prepare|]. intros [].
  apply triple_exists; intros r; apply triple_exists; intros w; apply triple_exists; intros j.
  intros s [Hj Hk]. revert s Hk. change (spec (known [ev (SetInformationJobObject j) (inr tt)] [r; w; j; 0; 0])
    (arguments ← from_result (bridge_arguments (configuration_ provider) pfn);
     command ← from_result (command_line resolved arguments);
     _ ← launch resolved command;
     start ← call SteadyClockNow;
     supervised ← watch (start + nanoseconds (timeout_ provider));
     _ ← (match supervised with Some e => abandon e | None => mret tt end);
     collect) finished).
  eapply triple_bind; [apply spec_from_result|]. intros arguments.
  eapply triple_bind; [apply spec_from_result|]. intros command.
  eapply triple_bind; [by apply spec_launch|]. intros []. apply triple_exists; intros p; apply triple_exists; intros t.
  match goal with |- spec _ ?m ?q => change (spec (known [] [r; 0; j; p; t]) m q) end.
  quiet_step. apply spec_drop. eapply triple_bind; [apply spec_watch|]. intros [e|].
  - apply spec_never. eapply triple_weaken; [apply spec_abandon|by intros s [? _]|done].
  - apply spec_ret_then. apply (triple_weaken _ _ _ (λ s, ∃ e, ended_event e ∧ known [e] [r; 0; j; p; t] s) _ finished);
      [|intros s [_ Hw]; by apply Hw|done].
    intros s (e & He & Hk). revert s Hk. by apply spec_collect.
Qed.

(** ** The destructors *)

Definition closing_event (h : Z) : list event := if valid h then [ev (CloseHandle h) tt] else [].
Lemma close_handle_calls h s :
  ∃ s', close_handle h s = (Success tt, s') ∧ calls s' = closing_event h ++ calls s.
Proof.
  unfold close_handle, closing_event. change (negb (h =? 0) && negb (h =? -1)) with (valid h).
  destruct (valid h); [|by exists s]. unfold call. pose proof (win_stepped (CloseHandle h) s) as (o & E & _).
  destruct (win _ s) as [[] s']. cbn [snd] in E. exists s'. split; [done|]. by rewrite E.
Qed.
Lemma closed_closing h l : closed (closing_event h ++ l) = live [h] ++ closed l.
Proof.
  unfold closing_event, live. rewrite filter_cons. destruct (valid h) eqn:Hv.
  - by rewrite decide_True.
  - by rewrite decide_False by congruence.
Qed.
Lemma destroy_handles_calls s :
  (destroy_handles s).1 = Success tt ∧
  calls (destroy_handles s).2 =
    closing_event (read_pipe s) ++ closing_event (write_pipe s) ++ closing_event (job s) ++
    closing_event (process s) ++ closing_event (process_thread s) ++ calls s.
Proof.
  unfold destroy_handles, mbind, Exec_bind, gets, id.
  destruct (close_handle_calls (process_thread s) s) as (s1 & -> & E1).
  destruct (close_handle_calls (process s) s1) as (s2 & -> & E2).
  destruct (close_handle_calls (job s) s2) as (s3 & -> & E3).
  destruct (close_handle_calls (write_pipe s) s3) as (s4 & -> & E4).
  destruct (close_handle_calls (read_pipe s) s4) as (s5 & -> & E5).
  cbn [fst snd]. split; [done|]. by rewrite E5, E4, E3, E2, E1.
Qed.

Lemma closing_quiet h e : e ∈ closing_event h → opened_by e = [] ∧ read_by e = [] ∧ ∀ t r, e ≠ ev (ResumeThread t) r.
Proof.
  unfold closing_event. destruct (valid h); [|by intros ?%elem_of_nil].
  intros ->%list_elem_of_singleton. done.
Qed.

(** What was resumed was resumed in a job that is closed. *)
Definition confined (l : list event) : Prop :=
  ∀ later t r earlier, l = later ++ ev (ResumeThread t) r :: earlier →
  ∃ j p image command pipe,
    ev (SetInformationJobObject j) (inr tt) ∈ earlier ∧ ev (AssignProcessToJobObject j p) (inr tt) ∈ earlier ∧
    ev (CreateProcess image command pipe) (inr (p, t)) ∈ earlier ∧ ev (CloseHandle j) tt ∈ later.

Lemma app_split_resume (l m : list event) later t r earlier :
  (∀ e, e ∈ l → ∀ t r, e ≠ ev (ResumeThread t) r) →
  l ++ m = later ++ ev (ResumeThread t) r :: earlier →
  ∃ later', later = l ++ later' ∧ m = later' ++ ev (ResumeThread t) r :: earlier.
Proof.
  revert later. induction l as [|e l IH]; intros later Hl E; [by exists later|].
  destruct later as [|e' later]; injection E as -> E.
  - exfalso. eapply Hl; [apply elem_of_cons; by left|done].
  - destruct (IH later) as (later' & -> & ->); [|done|by exists later'].
    intros x Hx. apply Hl, elem_of_cons. by right.
Qed.

Lemma destroyed s :
  supervised s →
  let l := calls (destroy_handles s).2 in
  opened l ≡ₚ closed l ∧ confined l ∧ ∀ out, complete out (calls s) → complete out l.
Proof.
  intros Hs. cbv zeta. destruct (destroy_handles_calls s) as [_ ->].
  set (closes := closing_event (read_pipe s) ++ closing_event (write_pipe s) ++ closing_event (job s) ++
    closing_event (process s) ++ closing_event (process_thread s)).
  replace (closing_event (read_pipe s) ++ _) with (closes ++ calls s) by (unfold closes; by rewrite <- !app_assoc).
  assert (∀ e, e ∈ closes → opened_by e = [] ∧ read_by e = [] ∧ ∀ t r, e ≠ ev (ResumeThread t) r) as Hq.
  { intros e. unfold closes. rewrite !elem_of_app. intros [?|[?|[?|[?|?]]]]; by eapply closing_quiet. }
  assert (opened closes = [] ∧ bytes_read closes = []) as [Ho Hr].
  { clearbody closes. induction closes as [|e l IH]; [done|]. destruct IH as [IH1 IH2]; [set_solver|].
    destruct (Hq e) as (H1 & H2 & _); [set_solver|]. by rewrite opened_cons, bytes_read_cons, H1, H2, IH1, IH2. }
  split_and!.
  - unfold opened, closed in *. rewrite !bind_app, Ho. cbn [app]. rewrite (sp_handles s Hs).
    fold (closed closes). unfold closes, handles. rewrite !closed_closing. rewrite <- (app_nil_r (closing_event (process_thread s))).
    rewrite closed_closing. cbn [closed mbind list_bind]. rewrite app_nil_r.
    change [read_pipe s; write_pipe s; job s; process s; process_thread s]
      with ([read_pipe s] ++ [write_pipe s] ++ [job s] ++ [process s] ++ [process_thread s]).
    unfold live. rewrite !filter_app. apply Permutation_app_comm.
  - intros later t r earlier E. apply app_split_resume in E as (later' & -> & E); [|intros e He; by apply Hq].
    destruct (sp_contained s Hs _ _ _ _ E) as (j & p & im & cm & pi & Hj & H1 & H2 & H3 & H4).
    exists j, p, im, cm, pi. split_and!; [done..|]. apply elem_of_app. destruct H4 as [<-|H4]; [left|by right].
    unfold closes. rewrite !elem_of_app. right. right. left. unfold closing_event. rewrite Hj. by apply list_elem_of_singleton.
  - intros out [H1 (p & H2) (e1 & H3 & H4) (e2 & H5 & H6)]. split.
    + rewrite H1. unfold bytes_read in *. by rewrite reverse_app, bind_app, Hr, app_nil_r.
    + exists p. apply elem_of_app. by right.
    + exists e1. rewrite elem_of_app. auto.
    + exists e2. rewrite elem_of_app. auto.
Qed.

(** [C14] The supervision of the bridge process loses nothing, whatever the system
    answers and wherever it stops: every handle that was opened is closed exactly once;
    the process is resumed only after it was put into a job that dies with its handle,
    and that handle is closed; and a success means that the process was seen to end with
    exit code 0, the pipe was read until it closed, and the output is all that was read,
    in order, at most 8 MiB. *)
Theorem bridge_supervised provider pfn (o : O) :
  let '(r, l) := Execute provider pfn (mkLogged o []) in
  opened (lg_calls l) ≡ₚ closed (lg_calls l) ∧ confined (lg_calls l) ∧
  ∀ out, r = Success out → complete out (lg_calls l) ∧ sizeZ out ≤ kMaxBridgeOutput.
Proof.
  unfold Execute. set (s0 := mkSupervisor _ 0 0 0 0 0 []).
  assert (known [] [0; 0; 0; 0; 0] s0) as Hk.
  { split; [|by split]. split; [done|done|done|]. intros later t r earlier E. by destruct later. }
  pose proof (spec_execute provider pfn s0 Hk) as Hx.
  destruct (execute_body provider pfn s0) as [r s].
  assert (supervised s) as Hs by (destruct r; [apply Hx|exact Hx]).
  destruct (destroyed s Hs) as (H1 & H2 & H3). destruct (destroy_handles s) as [x s'].
  split; [exact H1|]. split; [exact H2|]. intros out ->. destruct Hx as [_ Hc]. split; [by apply H3|].
  destruct Hc as [-> _ _ _]. rewrite <- (sp_output s Hs). by apply sp_bound.
Qed.
End Supervised.
