(* ===== verification/SupervisorTermination.v ===== *)
(** The supervision of the bridge ends: draining the pipe is bounded by the cap on the
    output, watching the process and waiting for the pipe to close by the clock. *)

From stdpp Require Import list.
From S2P Require Import Prelude CppStd Wire Common Paths ReverseMapper Iostream Host MemProcFs BridgeSupervisor SupervisorTheorems.
From Stdlib Require Import Ascii String.

#[local] Open Scope Z_scope.

(** The steady clock: it never goes back, a wait that times out and a sleep take some
    time, and a read returns at most what was asked for. *)
Class Clock {O : Type} `{!Host HostCall host_reply O} := {
  clock : O → Z;
  clock_now o : (host SteadyClockNow o).1 = clock o;
  clock_steady c o : clock o ≤ clock (host c o).2;
  clock_wait handle ms o : 0 < ms → (host (WaitForSingleObject handle ms) o).1 = WAIT_TIMEOUT →
    clock o < clock (host (WaitForSingleObject handle ms) o).2;
  clock_sleep ms o : 0 < ms → clock o < clock (host (Sleep ms) o).2;
  read_at_most pipe count o : sizeZ (read_by (ev (ReadFile pipe count) (host (ReadFile pipe count) o).1)) ≤ Z.max 0 count
}.

Section Termination.
Context {O : Type} `{Clock O} `{WideText}.
Abbreviation Sup := (Supervisor O).

(** The output is within its cap, and the clock has reached [t]. *)
Definition running (t : Z) (s : Sup) : Prop := sizeZ (output s) ≤ kMaxBridgeOutput ∧ t ≤ clock (sv_host s).
Definition proper (e : Error) (s : Sup) : Prop := code e ≠ InternalInvariant.
Abbreviation ends P m Q := (triple P m Q proper).

Lemma win_eq c (s : Sup) : win c s = ((host c (sv_host s)).1, s <| sv_host := (host c (sv_host s)).2 |>).
Proof. unfold win. by destruct (host c (sv_host s)). Qed.
Lemma running_win t c s : running t s → running t (win c s).2.
Proof.
  intros [Ho Ht]. rewrite win_eq. split; [done|]. cbn. pose proof (clock_steady c (sv_host s)). lia.
Qed.
Lemma win_facts t c s :
  running t s → ∃ r s', win c s = (r, s') ∧ r = (host c (sv_host s)).1 ∧ sv_host s' = (host c (sv_host s)).2 ∧
    running t s' ∧ clock (sv_host s) ≤ clock (sv_host s').
Proof.
  intros Hs. eexists _, _. split; [apply win_eq|]. split; [done|]. split; [done|].
  pose proof (running_win t c s Hs) as Hw. rewrite win_eq in Hw. split; [exact Hw|]. apply clock_steady.
Qed.
Lemma running_mono t t' s : t' ≤ t → running t s → running t' s.
Proof. intros ? [? ?]. split; [done|lia]. Qed.

Lemma ends_call t c : ends (running t) (call c) (λ _, running t).
Proof.
  intros s Hs. unfold call. pose proof (running_win t c s Hs) as H1. by destruct (win c s).
Qed.
(** What the clock says is reached from then on. *)
Lemma ends_now t : ends (running t) (call SteadyClockNow) running.
Proof.
  intros s [Ho Ht]. unfold call. rewrite win_eq, clock_now. split; [done|]. exact (clock_steady SteadyClockNow (sv_host s)).
Qed.
Lemma ends_fails {A} c msg n q k P (Q : A → Sup → Prop) : c ≠ InternalInvariant → ends P (fails c msg n q k) Q.
Proof. intros Hc. by apply triple_leave. Qed.
Lemma ends_value_of {A} (r : Native A) t c msg : c ≠ InternalInvariant → ends (running t) (value_of r c msg) (λ _, running t).
Proof. intros Hc. destruct r; [by apply ends_fails|by apply triple_ret]. Qed.
Lemma ends_guard ok t c msg n : c ≠ InternalInvariant → ends (running t) (guard ok c msg n) (λ _, running t).
Proof. intros Hc. destruct ok; [by apply triple_ret|by apply ends_fails]. Qed.

(** ** Draining *)

Definition drain_result (t : Z) (r : Result bool * Sup) : Prop :=
  running t r.2 ∧ match r.1 with Success _ => True | Failure e => code e ≠ InternalInvariant end.

Lemma drain_round_running t s :
  running t s →
  match drain_round s with
  | inl s' => running t s' ∧ 0 ≤ kMaxBridgeOutput - sizeZ (output s') < kMaxBridgeOutput - sizeZ (output s)
  | inr r => drain_result t r
  end.
Proof.
  intros Hs. unfold drain_round. pose proof (running_win t (PeekNamedPipe (read_pipe s)) s Hs) as H1.
  assert (output (win (PeekNamedPipe (read_pipe s)) s).2 = output s) as E1 by (by rewrite win_eq).
  destruct (win (PeekNamedPipe _) s) as [peek s1]. cbn [snd] in *.
  destruct peek as [native|available]; [by destruct (native =? _)|].
  destruct (available =? 0); [done|].
  destruct (Z.ltb_spec (u64 (kMaxBridgeOutput - sizeZ (output s1))) available) as [|Ha]; [done|].
  assert (u64 (kMaxBridgeOutput - sizeZ (output s1)) = kMaxBridgeOutput - sizeZ (output s1)) as Hu.
  { apply u64_id. pose proof (sizeZ_nonneg (output s1)). destruct H1. unfold is_u64, kMaxBridgeOutput in *. lia. }
  pose proof (running_win t (ReadFile (read_pipe s1) (Z.min 4096 available)) s1 H1) as H2.
  pose proof (read_at_most (read_pipe s1) (Z.min 4096 available) (sv_host s1)) as Hr.
  rewrite win_eq in *. destruct (host (ReadFile _ _) (sv_host s1)) as [[[native n]|bytes] o]; cbn [fst snd] in *.
  { by destruct (native =? _). }
  destruct (Z.eqb_spec (sizeZ bytes) 0); [done|].
  unfold read_by, ev in Hr. cbv beta iota in Hr. pose proof (sizeZ_nonneg bytes). destruct H2 as [Ho2 Ht2].
  change (output (s1 <| sv_host := o |>)) with (output s1) in *.
  set (s2 := s1 <| sv_host := o |> <| output := output s1 ++ bytes |>).
  assert (sizeZ (output s2) = sizeZ (output s1) + sizeZ bytes) as Es by (unfold s2; cbn; apply sizeZ_app).
  unfold running. rewrite Es, <- E1. split; [split; [lia|exact Ht2]|lia].
Qed.

Lemma drain_running t s : running t s → drain_result t (drain_available s).
Proof.
  intros Hs. unfold drain_available.
  destruct (rounds_enough (running t) (λ s, kMaxBridgeOutput - sizeZ (output s)) 24 drain_round s) as [[r s1] E].
  - intros s0 Hs0. pose proof (drain_round_running t s0 Hs0) as Hr. by destruct (drain_round s0).
  - done.
  - destruct Hs as [Hs _]. pose proof (sizeZ_nonneg (output s)). change (2 ^ Z.of_nat 24) with 16777216.
    unfold kMaxBridgeOutput in *. lia.
  - pose proof (rounds_keeps (running t) (drain_result t) 24 drain_round s) as Hk. rewrite E in *.
    apply Hk; [|done]. intros s0 Hs0. pose proof (drain_round_running t s0 Hs0) as Hr.
    destruct (drain_round s0); [by destruct Hr|done].
Qed.

(** ** Waiting *)

Definition watch_result (t : Z) (r : option Error * Sup) : Prop :=
  running t r.2 ∧ match r.1 with Some e => code e ≠ InternalInvariant | None => True end.
(** Time until the deadline, from the state's own clock. *)
Definition time_left (deadline : Z) (s : Sup) : Z := Z.max 0 (deadline - clock (sv_host s)).

Lemma drain_clock t s r s' : running t s → drain_available s = (r, s') → running (clock (sv_host s)) s'.
Proof. intros [Ho _] E. pose proof (drain_running (clock (sv_host s)) s) as [Hd _]; [split; [done|lia]|]. by rewrite E in Hd. Qed.

Lemma watch_round_running deadline t s :
  running t s →
  match watch_round deadline s with
  | inl s' => running t s' ∧ 0 ≤ time_left deadline s' < time_left deadline s
  | inr r => watch_result t r
  end.
Proof.
  intros Hs. unfold watch_round. pose proof (drain_running t s Hs) as [Hd He].
  destruct (drain_available s) as [r s0] eqn:Ed. cbn [fst snd] in *. pose proof (drain_clock t s r s0 Hs Ed) as [_ Hc].
  destruct r as [b|e]; [|by split]. clear Ed He.
  assert (∀ s1, running t s1 → clock (sv_host s) ≤ clock (sv_host s1) →
    match (let '(stop, s2) := win StopRequested s1 in
      if (stop : bool) then inr (Some (execute_error Cancelled "MemProcFS query was cancelled" 0 0 0), s2)
      else
        let '(now, s3) := win SteadyClockNow s2 in
        if deadline <=? now then inr (Some (execute_error IoFailure "MemProcFS bridge timed out" 0 0 0), s3)
        else
          let '(wait, s4) := win (WaitForSingleObject (process s3) kBridgePollMilliseconds) s3 in
          match wait with
          | WAIT_OBJECT_0 => inr (None, s4)
          | WAIT_FAILED native => inr (wait_failure "Waiting for the MemProcFS bridge failed" native, s4)
          | WAIT_TIMEOUT => inl s4
          | WAIT_OTHER status => inr (wait_failure "MemProcFS bridge wait returned an unexpected status" status, s4)
          end) with
    | inl s' => running t s' ∧ 0 ≤ time_left deadline s' < time_left deadline s
    | inr r => watch_result t r end) as Hrest.
  { clear s0 Hd Hc. intros s1 H1 Hc1.
    destruct (win_facts t StopRequested s1 H1) as (stop & s2 & -> & _ & _ & R2 & C2). destruct stop; [by split|].
    destruct (win_facts t SteadyClockNow s2 R2) as (now & s3 & -> & -> & _ & R3 & C3). rewrite clock_now.
    destruct (Z.leb_spec deadline (clock (sv_host s2))); [by split|].
    destruct (win_facts t (WaitForSingleObject (process s3) kBridgePollMilliseconds) s3 R3) as (wait & s4 & -> & Ew & Eo & R4 & _).
    pose proof (clock_wait (process s3) kBridgePollMilliseconds (sv_host s3) ltac:(done)) as Hw.
    rewrite <- Ew, <- Eo in Hw. destruct wait; try by split. specialize (Hw eq_refl).
    split; [done|]. unfold time_left. lia. }
  destruct (win_facts t (WaitForSingleObject (process s0) 0) s0 Hd) as (wait & s1 & -> & _ & _ & R1 & C1).
  destruct wait; try by split.
  all: apply Hrest; [done|lia].
Qed.

Lemma time_left_bound deadline t s : running t s → deadline - t < 2 ^ 96 → 0 ≤ time_left deadline s < 2 ^ 96.
Proof. intros [_ Ht] Hd. unfold time_left. change (2 ^ 96) with 79228162514264337593543950336 in *. lia. Qed.

Lemma ends_watch deadline t :
  deadline - t < 2 ^ 96 →
  ends (running t) (watch deadline)
    (λ r s, running t s ∧ match r with Some e => code e ≠ InternalInvariant | None => True end).
Proof.
  intros Hd s Hs. unfold watch.
  destruct (rounds_enough (running t) (time_left deadline) 96 (watch_round deadline) s) as [[r s1] E].
  - intros s0 Hs0. pose proof (watch_round_running deadline t s0 Hs0) as Hr. by destruct (watch_round deadline s0).
  - done.
  - by eapply time_left_bound.
  - pose proof (rounds_keeps (running t) (watch_result t) 96 (watch_round deadline) s) as Hk. rewrite E in *.
    apply Hk; [|done]. intros s0 Hs0. pose proof (watch_round_running deadline t s0 Hs0) as Hr.
    destruct (watch_round deadline s0); [by destruct Hr|done].
Qed.

Definition close_result (t : Z) (r : Result unit * Sup) : Prop :=
  running t r.2 ∧ match r.1 with Success _ => True | Failure e => code e ≠ InternalInvariant end.
Lemma close_round_running deadline t s :
  running t s →
  match close_round deadline s with
  | inl s' => running t s' ∧ 0 ≤ time_left deadline s' < time_left deadline s
  | inr r => close_result t r
  end.
Proof.
  intros Hs. unfold close_round. pose proof (drain_running t s Hs) as [Hd He].
  destruct (drain_available s) as [r s0] eqn:Ed. cbn [fst snd] in *. pose proof (drain_clock t s r s0 Hs Ed) as [_ Hc].
  destruct r as [[]|e]; [done| |by split]. clear Ed He.
  destruct (win_facts t SteadyClockNow s0 Hd) as (now & s1 & -> & -> & _ & R1 & C1). rewrite clock_now.
  destruct (Z.leb_spec deadline (clock (sv_host s0))); [by split|].
  destruct (win_facts t (Sleep 1) s1 R1) as (x & s2 & -> & _ & Eo & R2 & _).
  pose proof (clock_sleep 1 (sv_host s1) ltac:(done)) as Hw. rewrite <- Eo in Hw.
  split; [done|]. unfold time_left. lia.
Qed.
Lemma ends_await deadline t :
  deadline - t < 2 ^ 96 → ends (running t) (await_close deadline) (λ _, running t).
Proof.
  intros Hd s Hs. unfold await_close.
  destruct (rounds_enough (running t) (time_left deadline) 96 (close_round deadline) s) as [[r s1] E].
  - intros s0 Hs0. pose proof (close_round_running deadline t s0 Hs0) as Hr. by destruct (close_round deadline s0).
  - done.
  - by eapply time_left_bound.
  - pose proof (rounds_keeps (running t) (close_result t) 96 (close_round deadline) s) as Hk. rewrite E in *.
    assert (close_result t (r, s1)) as [Hr He].
    { apply Hk; [|done]. intros s0 Hs0. pose proof (close_round_running deadline t s0 Hs0) as Hr.
      destruct (close_round deadline s0); [by destruct Hr|done]. }
    by destruct r.
Qed.

(** ** The function *)

Lemma ends_gets {A B} (f : Sup → A) (k : A → Exec Sup B) P Q :
  (∀ a, ends P (k a) Q) → ends P (x ← gets f; k x) Q.
Proof. intros Hk s Hs. by apply Hk. Qed.
Lemma ends_modify t (f : Sup → Sup) :
  (∀ s, output (f s) = output s ∧ sv_host (f s) = sv_host s) → ends (running t) (modify f) (λ _, running t).
Proof. intros Hf s [Ho Ht]. destruct (Hf s) as [E1 E2]. unfold modify, running. by rewrite E1, E2. Qed.
Lemma ends_close t h : ends (running t) (close_handle h) (λ _, running t).
Proof. unfold close_handle. destruct (_ && _); [apply (ends_call t (CloseHandle h))|by apply triple_ret]. Qed.
Lemma ends_bind {A B} (m : Exec Sup A) (k : A → Exec Sup B) t Q :
  ends (running t) m (λ _, running t) → (∀ a, ends (running t) (k a) Q) → ends (running t) (m ≫= k) Q.
Proof. intros Hm Hk. eapply triple_bind; [exact Hm|exact Hk]. Qed.
Lemma ends_from_result {A} (r : Result A) t :
  (∀ e, r = Failure e → code e ≠ InternalInvariant) → ends (running t) (from_result r) (λ _, running t).
Proof. intros Hr. destruct r; [by apply triple_ret|apply triple_leave]. intros s0 Hs0. by apply Hr. Qed.
Lemma ends_ret {A} (a : A) t : ends (running t) (mret a) (λ _, running t).
Proof. by apply triple_ret. Qed.

(** One step of a function that is not a loop. *)
Ltac end_step :=
  lazymatch goal with
  | |- triple _ (mbind _ (gets _)) _ _ => apply ends_gets; intros ?
  | |- triple _ (mbind _ _) _ _ => apply ends_bind; [|intros ?]
  | |- triple (running ?t) (call ?c) _ _ => apply (ends_call t c)
  | |- triple _ (value_of _ _ _) _ _ => by apply ends_value_of
  | |- triple _ (guard _ _ _ _) _ _ => by apply ends_guard
  | |- triple _ (fails _ _ _ _ _) _ _ => by apply ends_fails
  | |- triple _ (modify _) _ _ => by apply ends_modify
  | |- triple _ (close_handle _) _ _ => apply ends_close
  | |- triple _ (mret _) _ _ => apply ends_ret
  | |- triple _ (match ?x with _ => _ end) _ _ => destruct x
  end.

Lemma ends_reset_write t : ends (running t) reset_write_pipe (λ _, running t).
Proof. unfold reset_write_pipe. repeat end_step. Qed.
Lemma ends_reset_job t : ends (running t) reset_job (λ _, running t).
Proof. unfold reset_job. repeat end_step. Qed.
Lemma ends_prepare t : ends (running t) prepare (λ _, running t).
Proof. unfold prepare. repeat end_step. Qed.
Lemma ends_launch im cm t : ends (running t) (launch im cm) (λ _, running t).
Proof. unfold launch.
  repeat first [lazymatch goal with |- triple _ reset_write_pipe _ _ => apply ends_reset_write end|end_step]. Qed.
Lemma ends_outcome_drain t : ends (running t) (outcome drain_available) (λ _, running t).
Proof. intros s Hs. destruct (drain_running t s Hs) as [Hd _]. unfold outcome. by destruct (drain_available s). Qed.
Lemma ends_abandon e t (Q : unit → Sup → Prop) :
  code e ≠ InternalInvariant → ends (running t) (abandon e) Q.
Proof.
  intros He. unfold abandon. 
  repeat first [lazymatch goal with
    | |- triple _ reset_job _ _ => apply ends_reset_job
    | |- triple _ (outcome _) _ _ => apply ends_outcome_drain end|end_step].
  by apply triple_leave.
Qed.

Lemma ends_now_bind {B} t (k : Z → Exec Sup B) Q :
  (∀ now, ends (running now) (k now) Q) → ends (running t) (now ← call SteadyClockNow; k now) Q.
Proof. intros Hk. apply (triple_bind _ _ _ _ _ _ (ends_now t)). exact Hk. Qed.

Lemma ends_collect t : ends (running t) collect (λ _ _, True).
Proof.
  unfold collect. repeat first [lazymatch goal with
    | |- triple _ reset_job _ _ => apply ends_reset_job
    | |- triple _ (mbind _ (call SteadyClockNow)) _ _ => apply ends_now_bind; intros now end|end_step].
  - apply ends_await. unfold nanoseconds, kBridgeShutdownMilliseconds.
    change (2 ^ 96) with 79228162514264337593543950336. lia.
  - by apply triple_ret.
Qed.

Lemma append_arguments_error command arguments e :
  append_arguments command arguments = Failure e → code e ≠ InternalInvariant.
Proof.
  revert command. induction arguments as [|a l IH]; intros command; cbn [append_arguments]; [done|]. cbv zeta.
  destruct (_ <=? _); [by intros [= <-]|apply IH].
Qed.
Lemma bridge_arguments_error c pfn e : bridge_arguments c pfn = Failure e → code e ≠ InternalInvariant.
Proof.
  unfold bridge_arguments, device_arguments.
  assert (∀ l e, vmm_arguments l = Failure e → code e ≠ InternalInvariant) as Hl.
  { clear. induction l as [|a l IH]; intros e; cbn [vmm_arguments]; [done|]. cbv zeta.
    destruct (_ && _); [by intros [= <-]|]. destruct (vmm_arguments l); [done|]. intros [= <-]. by apply IH. }
  cbv zeta. intros Hb. repeat case_match; simplify_eq; try done; by eapply Hl.
Qed.

End Termination.
