(* ===== verification/BridgeDemo.v ===== *)
(** Concrete systems for the MemProcFS bridge: conversions of text with the laws, a
    process that answers, one that never does, and a library with one entry. *)

From stdpp Require Import list.
From S2P Require Import Prelude CppStd Wire Common Paths ValueCodec ValueCodecTheorems ReverseMapper Iostream Host MemProcFs MemProcFsBridge CommandLine BridgeTheorems BridgeProtocol BridgeSupervisor SupervisorTheorems SupervisorTermination.
From Stdlib Require Import Ascii String.

#[local] Open Scope Z_scope.

(** ** Text *)

Fixpoint utf16_decode (units : wide) : option (list Z) :=
  match units with
  | [] => Some []
  | u :: rest =>
      if (0xD800 <=? u) && (u <=? 0xDBFF) then
        match rest with
        | l :: rest =>
            if (0xDC00 <=? l) && (l <=? 0xDFFF) then
              app (utf8_of (0x10000 + (u - 0xD800) * 1024 + (l - 0xDC00))) <$> utf16_decode rest
            else None
        | [] => None
        end
      else if (0xDC00 <=? u) && (u <=? 0xDFFF) then None
      else app (utf8_of u) <$> utf16_decode rest
  end.

#[export] Instance demo_text : WideText := {|
  MultiByteToWide bytes :=
    match utf8_loop (S (List.length bytes)) bytes [] with Success units => Some units | Failure _ => None end;
  WideToMultiByte := utf16_decode
|}.

Lemma utf8_of_u8 cp : scalar_value cp → Forall is_u8 (utf8_of cp).
Proof.
  intros [Hr Hs]. unfold utf8_of, is_u8.
  destruct (Z.ltb_spec cp 0x80); [|destruct (Z.ltb_spec cp 0x800); [|destruct (Z.ltb_spec cp 0x10000)]].
  all: repeat constructor; Z.div_mod_to_equations; lia.
Qed.
Lemma utf16_decode_of cps :
  Forall scalar_value cps → utf16_decode (mjoin (utf16_of <$> cps)) = Some (mjoin (utf8_of <$> cps)).
Proof.
  induction 1 as [|cp cps [Hr Hs] _ IH]; [done|]. csimpl. unfold utf16_of at 1.
  destruct (Z.ltb_spec cp 0x10000); cbn [app utf16_decode].
  - assert ((0xD800 <=? cp) && (cp <=? 0xDBFF) = false) as -> by lia.
    assert ((0xDC00 <=? cp) && (cp <=? 0xDFFF) = false) as -> by lia. by rewrite IH.
  - settle. rewrite IH. csimpl. do 3 f_equal. Z.div_mod_to_equations. lia.
Qed.
#[export] Instance demo_text_spec : WideTextSpec.
Proof.
  split; intros cps _ Hs.
  - cbn [MultiByteToWide demo_text].
    assert (utf8_loop (S (List.length (mjoin (utf8_of <$> cps)))) (mjoin (utf8_of <$> cps)) [] = Success (mjoin (utf16_of <$> cps))) as ->; [|done].
    apply utf8_loop_exact; [lia| |by exists cps]. induction Hs as [|cp cps Hcp _ IH]; csimpl; [constructor|].
    apply Forall_app. split; [by apply utf8_of_u8|done].
  - by apply utf16_decode_of.
Qed.

(** ** A configuration *)

Definition demo_configuration : MemProcFsConfiguration :=
  mkMemProcFsConfiguration (Some (str "dump file.raw")) (Some (wstr "C:\kdbg\vmm.dll"))
    [str "-v"; []; str "a " ++ quote_mark :: str "b\"; str "C:\dir with space\"].
Definition demo_bridge : wide := wstr "C:\Program Files\kdbg\bridge.exe".


(** ** A library with one entry *)

Definition demo_entry : PfnEntry := mkPfnEntry 18 7 4 0x7FF600001000 0xFFFF800000000008 0x8000000000000007.
Definition demo_map : PfnMap := mkPfnMap 1 1 [demo_entry].
Definition demo_arguments : list wide := [demo_bridge; wstr "--pfn"; wstr "18"].
#[export] Instance demo_library : Host VmmCall vmm_reply unit := λ c v,
  (match c return vmm_reply c with
   | CommandLine => Some demo_arguments
   | ConfiguredDevice => []
   | ExecutableDirectory => wstr "C:\kdbg"
   | VmmPathAbsolute p => (0, p)
   | VmmPathStatus _ => (0, true)
   | LoadLibrary _ => inr 1
   | GetProcAddress _ _ => true
   | VmmInitialize _ => (0, 2)
   | VmmGetPfnEx _ _ _ => (0, true, Some (3, demo_map))
   | VmmProcessString _ _ _ => Some (4, str "\Device\a b" ++ quote_mark :: str ".exe")
   | StdoutFailed => false
   | FreeLibrary _ | VmmClose _ | VmmMemFree _ => tt
   end, v).
Definition demo_options : Options := mkOptions (Some 18) (wstr "pmem") [] [].


(** ** A process that answers, and one that does not *)

(** The time, whether the output was read, and whether the process ever ends. *)
Definition Machine : Type := Z * bool * bool.
#[export] Instance demo_host : Host HostCall host_reply Machine := λ c '(now, read, ends),
  match c return host_reply c * Machine with
  | PathStatus _ => (0, true, (now, read, ends))
  | PathAbsolute p => (0, p, (now, read, ends))
  | CreatePipe _ => (inr (10, 11), (now, read, ends))
  | CreateJobObject => (inr 12, (now, read, ends))
  | CreateProcess _ _ _ => (inr (13, 14), (now, read, ends))
  | SetHandleInformation _ | SetInformationJobObject _ | AssignProcessToJobObject _ _ | ResumeThread _ =>
      (inr tt, (now, read, ends))
  | PeekNamedPipe _ => (if read then if ends then inl ERROR_BROKEN_PIPE else inr 0 else inr 2, (now, read, ends))
  | ReadFile _ count => (inr (take (Z.to_nat count) (str "ok")), (now, true, ends))
  | WaitForSingleObject _ ms =>
      if ends && negb (ms =? 0) then (WAIT_OBJECT_0, (now, read, ends))
      else (WAIT_TIMEOUT, (now + Z.max 0 ms * 1000000, read, ends))
  | GetExitCodeProcess _ => (inr 0, (now, read, ends))
  | TerminateJobObject _ | TerminateProcess _ => (true, (now, read, ends))
  | CloseHandle _ => (tt, (now, read, ends))
  | SteadyClockNow => (now, (now, read, ends))
  | Sleep ms => (tt, (now + Z.max 0 ms * 1000000, read, ends))
  | StopRequested => (false, (now, read, ends))
  end.

Lemma demo_read pipe count (o : Machine) :
  sizeZ (read_by (ev (ReadFile pipe count) (host (ReadFile pipe count) o).1)) ≤ Z.max 0 count.
Proof.
  destruct o as [[now read] ends]. unfold host, demo_host, ev, read_by. cbv beta iota. cbn [fst]. unfold sizeZ.
  rewrite length_take. lia.
Qed.

Lemma demo_handles c (o : Machine) : Forall (λ h, valid h = true) (opened_by (ev c (host c o).1)).
Proof. destruct o as [[now read] ends]. destruct c; repeat constructor. Qed.

#[export] Instance demo_clock : Clock (O := Machine).
Proof.
  refine {| clock := λ o, o.1.1 |}.
  - by intros [[now read] ends].
  - intros c [[now read] ends]. destruct c; cbn; try case_match; cbn; lia.
  - intros handle ms [[now read] ends] Hms. unfold host, demo_host. case_match; cbn; [done|lia].
  - intros ms [[now read] ends] Hms. cbn. lia.
  - apply demo_read.
Defined.

(** At time 0, with the output still to be read. *)
Definition started (ends : bool) : Machine := (0, false, ends).
Definition unlogged (o : Machine) : Logged HostCall host_reply Machine := mkLogged o [].
Definition demo_provider (milliseconds : Z) : MemProcFsProvider :=
  mkMemProcFsProvider demo_bridge (mkMemProcFsConfiguration None None []) milliseconds.

Lemma bridge_supervised_witness :
  let demo := Execute (demo_provider 5) 18 (unlogged (started true)) in
  demo.1 = Success (str "ok") ∧
  opened (lg_calls demo.2) ≡ₚ closed (lg_calls demo.2) ∧ confined (lg_calls demo.2) ∧
  complete (str "ok") (lg_calls demo.2) ∧ sizeZ (str "ok") ≤ kMaxBridgeOutput.
Proof.
  cbv zeta. assert ((Execute (demo_provider 5) 18 (unlogged (started true))).1 = Success (str "ok")) as Er by by vm_compute.
  split; [exact Er|]. pose proof (bridge_supervised demo_handles demo_read (demo_provider 5) 18 (started true)) as Hs.
  fold (unlogged (started true)) in Hs.
  destruct (Execute (demo_provider 5) 18 (unlogged (started true))) as [r l]. cbn [fst snd] in *.
  destruct Hs as (H1 & H2 & H3). split; [exact H1|]. split; [exact H2|]. by apply H3.
Defined.

