(* ===== verification/KernelModule.v ===== *)
(** [core/kernel/KernelModule]: loaded kernel modules, canonical addresses, the bounded
    reader of PE32+ headers and the parser of local symbol paths. *)

From stdpp Require Import list.
From S2P Require Import Prelude CppStd Wire Common Paths Iostream MemProcFs.
From Stdlib Require Import Ascii String.

#[local] Open Scope Z_scope.

Definition kMaximumKernelModules : Z := 4096.

Record PeImageMetadata := mkPeImageMetadata {
  pe_machine : Z;
  pe_section_count : Z;
  pe_timestamp : Z;
  pe_image_size : Z;
  pe_checksum : Z
}.

Record KernelModule := mkKernelModule {
  km_base : Z;
  km_image_size : Z;
  km_timestamp : Z;
  km_checksum : Z;
  km_name : chars;
  km_image_path : wide;
  km_metadata_status : string
}.
#[export] Instance KernelModule_eta : Eta KernelModule := λ m,
  mkKernelModule (km_base m) (km_image_size m) (km_timestamp m) (km_checksum m) (km_name m) (km_image_path m)
    (km_metadata_status m).

Record KernelModuleSnapshot := mkKernelModuleSnapshot {
  ks_modules : list KernelModule;
  ks_diagnostics : list string
}.

Definition module_Contains (m : KernelModule) (address : Z) : bool :=
  negb (km_image_size m =? 0) && (km_base m <=? address) && (u64 (address - km_base m) <? km_image_size m).

(** ** Canonical addresses *)

Definition sign_bit (la57 : bool) : Z := if la57 then 56 else 47.
Definition address_bits (la57 : bool) : Z := if la57 then 57 else 48.
Definition address_sign (address : Z) (la57 : bool) : bool :=
  negb (Z.land (Z.shiftr address (sign_bit la57)) 1 =? 0).
Definition IsCanonicalX64Address (address : Z) (la57 : bool) : bool :=
  let expected_upper := if address_sign address la57 then Z.shiftl 1 (64 - address_bits la57) - 1 else 0 in
  Z.shiftr address (address_bits la57) =? expected_upper.
Definition IsCanonicalX64KernelAddress (address : Z) (la57 : bool) : bool :=
  IsCanonicalX64Address address la57 && address_sign address la57.

(** ** PE headers *)

(** [width] bytes at [offset], the least significant first. *)
Definition ReadLittleEndian (bytes : list Z) (offset width : Z) : option Z :=
  if (sizeZ bytes <? offset) || (sizeZ bytes - offset <? width) then None
  else Some (le_value (slice bytes offset width)).

Definition kDosMagic : Z := 0x5A4D.
Definition kPeSignature : Z := 0x4550.
Definition kAmd64Machine : Z := 0x8664.
Definition kPe32PlusMagic : Z := 0x20B.
Definition kDosPeOffset : Z := 0x3C.
Definition kCoffHeaderBytes : Z := 20.
Definition kOptionalImageSizeOffset : Z := 56.
Definition kOptionalChecksumOffset : Z := 64.
Definition kMaximumSections : Z := 96.

Definition pe_failure {A} (c : ErrorCode) (msg : string) (native req comp : Z) : Result A :=
  Failure (MakeErrorFull c msg "ParsePe64ImageMetadata" native req comp).

(** A field that is there and has the value. *)
Definition field_is (bytes : list Z) (offset width value : Z) : bool :=
  match ReadLittleEndian bytes offset width with Some v => v =? value | None => false end.

(** The header after the signature: machine, sections, time stamp, size of the rest. *)
Definition coff_fields (bytes : list Z) (pe : Z) : option (Z * Z * Z * Z) :=
  let coff := pe + 4 in
  if negb (field_is bytes pe 4 kPeSignature) then None
  else
    machine ← ReadLittleEndian bytes coff 2;
    section_count ← ReadLittleEndian bytes (coff + 2) 2;
    timestamp ← ReadLittleEndian bytes (coff + 4) 4;
    optional_size ← ReadLittleEndian bytes (coff + 16) 2;
    Some (machine, section_count, timestamp, optional_size).

(** The size of the image and its checksum. *)
Definition optional_fields (bytes : list Z) (optional : Z) : option (Z * Z) :=
  if negb (field_is bytes optional 2 kPe32PlusMagic) then None
  else
    image_size ← ReadLittleEndian bytes (optional + kOptionalImageSizeOffset) 4;
    checksum ← ReadLittleEndian bytes (optional + kOptionalChecksumOffset) 4;
    Some (image_size, checksum).

(** Where the PE header is, when there is a DOS header. *)
Definition dos_pe_offset (bytes : list Z) : option Z :=
  if field_is bytes 0 2 kDosMagic then ReadLittleEndian bytes kDosPeOffset 4 else None.

Definition ParsePe64ImageMetadata (bytes : list Z) : Result PeImageMetadata :=
  match dos_pe_offset bytes with
  | None => pe_failure ParseError "File does not contain a complete DOS header" 0 0 0
  | Some pe =>
      if (sizeZ bytes <? pe) || (sizeZ bytes - pe <? 4 + kCoffHeaderBytes) then
        pe_failure ParseError "PE header offset is outside the bounded input" 0 0 0
      else
        match coff_fields bytes pe with
        | None => pe_failure ParseError "File does not contain a complete PE/COFF header" 0 0 0
        | Some (machine, section_count, timestamp, optional_size) =>
            let optional := pe + 4 + kCoffHeaderBytes in
            if negb (machine =? kAmd64Machine) then
              pe_failure Unsupported "Kernel image is not AMD64" machine 0 0
            else if (section_count =? 0) || (kMaximumSections <? section_count) then
              pe_failure LimitReached "PE section count is zero or exceeds the parser limit" 0 kMaximumSections section_count
            else if (optional_size <? kOptionalChecksumOffset + 4) || (sizeZ bytes <? optional) ||
                    (sizeZ bytes - optional <? optional_size) then
              pe_failure ParseError "PE32+ optional header is incomplete" 0 0 0
            else
              match optional_fields bytes optional with
              | None => pe_failure ParseError "Image does not contain a valid PE32+ optional header" 0 0 0
              | Some (image_size, checksum) =>
                  if image_size =? 0 then pe_failure ParseError "PE image size is zero" 0 0 0
                  else Success (mkPeImageMetadata machine section_count timestamp image_size checksum)
              end
        end
  end.

(** ** Symbol paths *)

Definition is_blank_char (c : ascii) : bool := (char_code c =? 32) || (char_code c =? 9).
Fixpoint trim_front (value : chars) : chars :=
  match value with c :: rest => if is_blank_char c then trim_front rest else value | [] => [] end.
Definition Trim (value : chars) : chars := reverse (trim_front (reverse (trim_front value))).

(** [std::tolower] in the C locale. *)
Definition lower_char (c : ascii) : ascii :=
  let n := char_code c in if (65 <=? n) && (n <=? 90) then ascii_of_N (Z.to_N (n + 32)) else c.
Fixpoint starts_with (prefix text : chars) : bool :=
  match prefix, text with
  | [], _ => true
  | p :: prefix, c :: text => bool_decide (p = c) && starts_with prefix text
  | _ :: _, [] => false
  end.
(** [std::string::find] finds the text. *)
Fixpoint contains_text (needle text : chars) : bool :=
  starts_with needle text || match text with [] => false | _ :: text => contains_text needle text end.
Definition HasRemoteSymbolSyntax (value : chars) : bool :=
  let lowered := lower_char <$> value in
  contains_text (str "srv*") lowered || contains_text (str "http://") lowered || contains_text (str "https://") lowered.

Definition kMaximumInputBytes : Z := 8192.
Definition kMaximumEntries : Z := 32.
Definition semicolon : ascii := ascii_of_N 59.

(** What stands before the first semicolon, and what follows it. *)
Fixpoint split_entry (text : chars) : chars * option chars :=
  match text with
  | [] => ([], None)
  | c :: text =>
      if bool_decide (c = semicolon) then ([], Some text)
      else let '(entry, rest) := split_entry text in (c :: entry, rest)
  end.

Section SymbolPath.
Context `{WideText}.

(** [PathFromUtf8]; text that is not UTF-8 has no path and the conversion throws. *)
Definition PathFromUtf8 (value : chars) : option wide := MultiByteToWide (chars_bytes value).

Definition symbol_failure {A} (c : ErrorCode) (msg : string) (req comp : Z) : Result A :=
  Failure (MakeErrorFull c msg "ParseLocalSymbolPath" 0 req comp).

(** The loop over the entries; [None] is the exception. *)
Fixpoint entries_of (fuel : nat) (text : chars) (paths : list wide) : option (Result (list wide)) :=
  match fuel with
  | O => Some (Failure (MakeError InternalInvariant "" ""))
  | S fuel =>
      let '(entry, rest) := split_entry text in
      let entry := Trim entry in
      if bool_decide (entry = []) then Some (symbol_failure InvalidArgument "Local symbol path contains an empty entry" 0 0)
      else if sizeZ paths =? kMaximumEntries then
        Some (symbol_failure LimitReached "Local symbol path exceeds 32 entries" 0 0)
      else
        path ← PathFromUtf8 entry;
        let paths := paths ++ [path] in
        match rest with None => Some (Success paths) | Some rest => entries_of fuel rest paths end
  end.

Definition ParseLocalSymbolPath (text : chars) : option (Result (list wide)) :=
  if bool_decide (text = []) || (kMaximumInputBytes <? sizeZ text) then
    Some (symbol_failure InvalidArgument "Local symbol path is empty or exceeds 8192 bytes" kMaximumInputBytes (sizeZ text))
  else if HasRemoteSymbolSyntax text then
    Some (symbol_failure InvalidArgument "Only explicit local symbol directories or PDB files are accepted" 0 0)
  else entries_of (S (List.length text)) text [].
End SymbolPath.

(** ** What the header reader accepts *)

(** [v] is stored at [offset], inside the bytes. *)
Definition field_at (bytes : list Z) (offset width v : Z) : Prop :=
  0 ≤ offset ∧ offset + width ≤ sizeZ bytes ∧ field bytes offset width = v.

(** The image has its PE header at [pe] and an optional header of [optional_size] bytes. *)
Record pe64 (bytes : list Z) (m : PeImageMetadata) (pe optional_size : Z) : Prop := {
  p64_dos : field_at bytes 0 2 kDosMagic;
  p64_pe : field_at bytes kDosPeOffset 4 pe;
  p64_signature : field_at bytes pe 4 kPeSignature;
  p64_machine : field_at bytes (pe + 4) 2 (pe_machine m);
  p64_sections : field_at bytes (pe + 6) 2 (pe_section_count m);
  p64_timestamp : field_at bytes (pe + 8) 4 (pe_timestamp m);
  p64_optional_size : field_at bytes (pe + 20) 2 optional_size;
  p64_magic : field_at bytes (pe + 24) 2 kPe32PlusMagic;
  p64_image_size : field_at bytes (pe + 80) 4 (pe_image_size m);
  p64_checksum : field_at bytes (pe + 88) 4 (pe_checksum m);
  p64_amd64 : pe_machine m = kAmd64Machine;
  p64_section_range : 1 ≤ pe_section_count m ≤ kMaximumSections;
  p64_sized : pe_image_size m ≠ 0;
  p64_optional : 68 ≤ optional_size;
  p64_inside : pe + 24 + optional_size ≤ sizeZ bytes
}.

Lemma ReadLittleEndian_spec bytes offset width v :
  0 ≤ offset → 0 ≤ width → ReadLittleEndian bytes offset width = Some v ↔ field_at bytes offset width v.
Proof.
  intros Ho Hw. unfold ReadLittleEndian, field_at, field.
  destruct (Z.ltb_spec (sizeZ bytes) offset), (Z.ltb_spec (sizeZ bytes - offset) width); cbn [orb].
  all: split; [intros [=]|intros (? & ? & ?)]; try lia; first [by f_equal|split; [lia|split; [lia|done]]].
Qed.
Lemma field_at_fun bytes offset width v v' : field_at bytes offset width v → field_at bytes offset width v' → v = v'.
Proof. intros (_ & _ & <-) (_ & _ & <-). done. Qed.
Lemma field_at_nonneg bytes offset width v : field_at bytes offset width v → 0 ≤ v.
Proof. intros (_ & _ & <-). apply le_value_range. Qed.
Lemma field_is_spec bytes offset width v :
  0 ≤ offset → 0 ≤ width → field_is bytes offset width v = true ↔ field_at bytes offset width v.
Proof.
  intros Ho Hw. unfold field_is. destruct (ReadLittleEndian bytes offset width) as [x|] eqn:E.
  - apply ReadLittleEndian_spec in E; [|done..]. rewrite Z.eqb_eq. split; [by intros ->|intros Hv]. by eapply field_at_fun.
  - split; [done|]. intros Hv. apply ReadLittleEndian_spec in Hv; [congruence|done..].
Qed.

Lemma dos_pe_offset_spec bytes pe :
  dos_pe_offset bytes = Some pe ↔ field_at bytes 0 2 kDosMagic ∧ field_at bytes kDosPeOffset 4 pe.
Proof.
  unfold dos_pe_offset. pose proof (field_is_spec bytes 0 2 kDosMagic) as Hd.
  pose proof (ReadLittleEndian_spec bytes kDosPeOffset 4 pe) as Hp.
  rewrite <- Hp, <- Hd by done. destruct (field_is bytes 0 2 kDosMagic); naive_solver.
Qed.
Lemma coff_fields_spec bytes pe machine sections timestamp optional_size :
  0 ≤ pe →
  coff_fields bytes pe = Some (machine, sections, timestamp, optional_size) ↔
  field_at bytes pe 4 kPeSignature ∧ field_at bytes (pe + 4) 2 machine ∧ field_at bytes (pe + 6) 2 sections ∧
  field_at bytes (pe + 8) 4 timestamp ∧ field_at bytes (pe + 20) 2 optional_size.
Proof.
  intros Hpe. unfold coff_fields. cbv zeta.
  replace (pe + 4 + 2) with (pe + 6) by lia. replace (pe + 4 + 4) with (pe + 8) by lia. replace (pe + 4 + 16) with (pe + 20) by lia.
  rewrite <- (field_is_spec bytes pe), <- !ReadLittleEndian_spec by lia.
  destruct (field_is bytes pe 4 kPeSignature); cbn [negb]; [|naive_solver].
  destruct (ReadLittleEndian bytes (pe + 4) 2), (ReadLittleEndian bytes (pe + 6) 2), (ReadLittleEndian bytes (pe + 8) 4),
    (ReadLittleEndian bytes (pe + 20) 2); naive_solver.
Qed.
Lemma optional_fields_spec bytes optional image_size checksum :
  0 ≤ optional →
  optional_fields bytes optional = Some (image_size, checksum) ↔
  field_at bytes optional 2 kPe32PlusMagic ∧ field_at bytes (optional + 56) 4 image_size ∧
  field_at bytes (optional + 64) 4 checksum.
Proof.
  intros Ho. unfold optional_fields, kOptionalImageSizeOffset, kOptionalChecksumOffset.
  rewrite <- (field_is_spec bytes optional), <- !ReadLittleEndian_spec by lia.
  destruct (field_is bytes optional 2 kPe32PlusMagic); cbn [negb]; [|naive_solver].
  destruct (ReadLittleEndian bytes (optional + 56) 4), (ReadLittleEndian bytes (optional + 64) 4); naive_solver.
Qed.

Lemma ParsePe64_sound bytes m :
  ParsePe64ImageMetadata bytes = Success m → ∃ pe optional_size, pe64 bytes m pe optional_size.
Proof.
  unfold ParsePe64ImageMetadata. destruct (dos_pe_offset bytes) as [pe|] eqn:Ed; [|done].
  apply dos_pe_offset_spec in Ed as [Hd Hp]. pose proof (field_at_nonneg _ _ _ _ Hp) as Hpe.
  destruct (_ || _); [done|]. destruct (coff_fields bytes pe) as [[[[machine sections] timestamp] optional_size]|] eqn:Ec; [|done].
  apply coff_fields_spec in Ec as (H1 & H2 & H3 & H4 & H5); [|done].
  destruct (Z.eqb_spec machine kAmd64Machine) as [->|]; [|done]. cbn [negb].
  destruct (_ || _) eqn:Es; [done|]. destruct (_ || _ || _) eqn:Eo; [done|].
  destruct (optional_fields _ _) as [[image_size checksum]|] eqn:Ef; [|done].
  unfold kCoffHeaderBytes in *. replace (pe + 4 + 20) with (pe + 24) in * by lia.
  apply optional_fields_spec in Ef as (F1 & F2 & F3); [|lia].
  replace (pe + 24 + 56) with (pe + 80) in F2 by lia. replace (pe + 24 + 64) with (pe + 88) in F3 by lia.
  destruct (Z.eqb_spec image_size 0); [done|]. intros [= <-]. exists pe, optional_size.
  pose proof (field_at_nonneg _ _ _ _ H3). boolify. unfold kOptionalChecksumOffset in *.
  split; cbn; try done; lia.
Qed.
Lemma ParsePe64_complete bytes m pe optional_size :
  pe64 bytes m pe optional_size → ParsePe64ImageMetadata bytes = Success m.
Proof.
  intros [Hd Hp H1 H2 H3 H4 H5 H6 H7 H8 Hm Hs Hi Ho Hin]. unfold ParsePe64ImageMetadata.
  pose proof (field_at_nonneg _ _ _ _ Hp) as Hpe.
  rewrite (proj2 (dos_pe_offset_spec bytes pe)) by done. unfold kCoffHeaderBytes, kOptionalChecksumOffset.
  replace (pe + 4 + 20) with (pe + 24) by lia.
  rewrite (proj2 (coff_fields_spec bytes pe (pe_machine m) (pe_section_count m) (pe_timestamp m) optional_size Hpe)) by done.
  rewrite (proj2 (optional_fields_spec bytes (pe + 24) (pe_image_size m) (pe_checksum m) ltac:(lia))).
  2:{ replace (pe + 24 + 56) with (pe + 80) by lia. by replace (pe + 24 + 64) with (pe + 88) by lia. }
  rewrite (proj2 (Z.eqb_eq _ _) Hm), (proj2 (Z.eqb_neq _ _) Hi). unfold kMaximumSections in *.
  assert ((sizeZ bytes <? pe) || (sizeZ bytes - pe <? 4 + 20) = false) as -> by lia.
  assert ((pe_section_count m =? 0) || (96 <? pe_section_count m) = false) as -> by lia.
  assert ((optional_size <? 64 + 4) || (sizeZ bytes <? pe + 24) || (sizeZ bytes - (pe + 24) <? optional_size) = false) as -> by lia.
  cbn. by destruct m.
Qed.

(** ** Reading a part of the file *)

Lemma field_at_take bytes n offset width v :
  0 ≤ width →
  field_at (take (Z.to_nat n) bytes) offset width v ↔ field_at bytes offset width v ∧ offset + width ≤ Z.max 0 n.
Proof.
  intros Hw. unfold field_at, field, sizeZ. rewrite length_take.
  assert (0 ≤ offset → offset + width ≤ Z.max 0 n →
    slice (take (Z.to_nat n) bytes) offset width = slice bytes offset width) as Hs.
  { intros ??. unfold slice. rewrite skipn_firstn_comm, take_take. f_equal. lia. }
  split.
  - intros (H0 & H1 & H2). rewrite Hs in H2 by lia. repeat split; [lia..|done|lia].
  - intros [(H0 & H1 & H2) H3]. rewrite Hs by lia. repeat split; [lia..|done].
Qed.
(** A part of the file has the header exactly when the header lies in it. *)
Lemma pe64_take bytes n m pe optional_size :
  pe64 (take (Z.to_nat n) bytes) m pe optional_size ↔
  pe64 bytes m pe optional_size ∧ pe + 24 + optional_size ≤ n.
Proof.
  assert (sizeZ (take (Z.to_nat n) bytes) = Z.min (Z.max 0 n) (sizeZ bytes)) as Hz.
  { unfold sizeZ. rewrite length_take. lia. }
  split.
  - intros [Hd Hp H1 H2 H3 H4 H5 H6 H7 H8 Hm Hs Hi Ho Hin]. rewrite !field_at_take in * by lia. rewrite Hz in Hin.
    pose proof (proj1 (proj1 H1)). split; [|lia].
    split; try done; try tauto; lia.
  - intros [[Hd Hp H1 H2 H3 H4 H5 H6 H7 H8 Hm Hs Hi Ho Hin] Hn]. pose proof (proj1 H1).
    assert (kDosPeOffset = 60) by done. split; try (apply field_at_take; [lia|split; [done|lia]]); rewrite ?Hz; done || lia.
Qed.

(** ** What the symbol path parser accepts *)

(** The texts between the semicolons. *)
Fixpoint pieces (text : chars) : list chars :=
  match text with
  | [] => [[]]
  | c :: text =>
      if bool_decide (c = semicolon) then [] :: pieces text
      else match pieces text with piece :: rest => (c :: piece) :: rest | [] => [[c]] end
  end.

Lemma split_entry_pieces text :
  let '(entry, rest) := split_entry text in
  pieces text = entry :: match rest with Some rest => pieces rest | None => [] end ∧
  match rest with Some rest => (List.length rest < List.length text)%nat | None => True end.
Proof.
  induction text as [|c text IH]; cbn [split_entry pieces]; [done|]. case_bool_decide; [by cbn; split; [|lia]|].
  destruct (split_entry text) as [entry rest]. destruct IH as [-> Hl]. split; [done|]. destruct rest; [cbn; lia|done].
Qed.

Section PathEntries.
Context `{WideText}.

Lemma entries_of_exact fuel text paths result :
  (List.length text < fuel)%nat → sizeZ paths ≤ kMaximumEntries →
  entries_of fuel text paths = Some (Success result) ↔
  (¬ @nil ascii ∈ Trim <$> pieces text) ∧ sizeZ paths + sizeZ (pieces text) ≤ kMaximumEntries ∧
  ∃ added, mapM PathFromUtf8 (Trim <$> pieces text) = Some added ∧ result = paths ++ added.
Proof.
  revert text paths. induction fuel as [|fuel IH]; intros text paths Hf Hp; [lia|]. cbn [entries_of].
  pose proof (split_entry_pieces text) as Hs. destruct (split_entry text) as [entry rest]. destruct Hs as [-> Hl]. cbv zeta.
  rewrite fmap_cons, not_elem_of_cons, sizeZ_cons.
  case_bool_decide as He; [split; [done|]; by intros ([Hn _] & _)|].
  assert (0 ≤ sizeZ (match rest with Some rest => pieces rest | None => [] end)) as H0 by apply sizeZ_nonneg.
  destruct (Z.eqb_spec (sizeZ paths) kMaximumEntries) as [|Hne]; [split; [done|]; intros (_ & ? & _); lia|].
  cbn [mapM mbind option_bind]. destruct (PathFromUtf8 (Trim entry)) as [path|]; cbn [mbind option_bind].
  2:{ split; [done|]. intros (_ & _ & added & Ha & _). by rewrite mapM_cons in Ha || done. }
  destruct rest as [rest|].
  - rewrite IH, sizeZ_app; [|lia|rewrite sizeZ_app; unfold sizeZ at 2; cbn; lia]. unfold sizeZ at 2. cbn [List.length].
    split.
    + intros (H1 & H2 & added & Ha & ->). split; [done|]. split; [lia|]. exists (path :: added).
      cbn. rewrite Ha. cbn. by rewrite <- app_assoc.
    + intros ([_ H1] & H2 & added & Ha & ->). split; [done|]. split; [lia|]. cbn in Ha.
      destruct (mapM PathFromUtf8 (Trim <$> pieces rest)) as [more|]; cbn in Ha; [|done]. injection Ha as <-.
      exists more. by rewrite <- app_assoc.
  - split.
    + intros [= <-]. split; [split; [done|by apply not_elem_of_nil]|]. split; [unfold sizeZ at 2; cbn; lia|]. by exists [path].
    + intros (_ & _ & added & Ha & ->). cbn in Ha. by injection Ha as <-.
Qed.

(** A symbol path is accepted exactly when it has 1 to 8192 characters, names no
    symbol server, and consists of at most 32 entries between semicolons, none blank;
    the result is their paths, without the blanks around them. *)
Theorem ParseLocalSymbolPath_exact text paths :
  ParseLocalSymbolPath text = Some (Success paths) ↔
  1 ≤ sizeZ text ≤ kMaximumInputBytes ∧ HasRemoteSymbolSyntax text = false ∧
  (¬ @nil ascii ∈ Trim <$> pieces text) ∧ sizeZ (pieces text) ≤ kMaximumEntries ∧
  mapM PathFromUtf8 (Trim <$> pieces text) = Some paths.
Proof.
  unfold ParseLocalSymbolPath. destruct (_ || _) eqn:E1.
  { split; [done|]. intros (Hs & _). exfalso. boolify. destruct E1 as [E1|E1]; boolify; [subst; by destruct Hs|lia]. }
  boolify. destruct (HasRemoteSymbolSyntax text); [split; [done|]; by intros (_ & ? & _)|].
  rewrite entries_of_exact; [|lia|done]. unfold sizeZ at 1. cbn [List.length].
  assert (1 ≤ sizeZ text) by (destruct text; [done|]; rewrite sizeZ_cons; pose proof (sizeZ_nonneg text); lia).
  split.
  - intros (He & Hn & added & Ha & ->). by split_and!.
  - intros (_ & _ & He & Hn & Ha). split; [done|]. split; [lia|]. by exists paths.
Qed.
End PathEntries.
