(* ===== verification/KernelCatalog.v ===== *)
(** [core/kernel/KernelModuleCatalog]: the list of loaded kernel modules, taken under a
    privilege that is held only for the call, with the metadata of their image files. *)

From stdpp Require Import list.
From S2P Require Import Prelude CppStd Wire Common Paths Iostream Host MemProcFs ProcessMemory PointerScanner KernelModule.
From Stdlib Require Import Ascii String.

#[local] Open Scope Z_scope.

(** ** Windows *)

Inductive CatalogCall :=
  | OpenProcessToken
  | LookupPrivilegeValue
  | AdjustTokenPrivileges (token : Z)            (* enables the privilege *)
  | RestoreTokenPrivileges (token : Z)
  | CloseToken (token : Z)
  | EnumDeviceDriversSize
  | EnumDeviceDrivers (bytes : Z)
  | GetDeviceDriverFileName (address : Z)
  | GetDeviceDriverBaseName (address : Z)
  | GetWindowsDirectory
  | QueryDosDevice (drive : Z)
  | StreamOpen (p : wide)                        (* of the one input stream in use *)
  | StreamRead (count : Z)
  | StreamSeekBegin
  | LoadCancelRequested
  | StoreCompleted (count : Z)
  | StoreTotal (count : Z).

Definition catalog_reply (c : CatalogCall) : Type :=
  match c with
  | OpenProcessToken => Native Z
  | LookupPrivilegeValue => Native unit
  | AdjustTokenPrivileges _ => Native Z          (* the last error of a call that succeeds *)
  | RestoreTokenPrivileges _ | CloseToken _ => unit
  | EnumDeviceDriversSize => Native Z
  | EnumDeviceDrivers _ => Native (Z * list Z)   (* the bytes used, and the array *)
  | GetDeviceDriverFileName _ | GetDeviceDriverBaseName _ | GetWindowsDirectory => wide
  | QueryDosDevice _ => option wide
  | StreamOpen _ => bool
  | StreamRead _ => list Z
  | StreamSeekBegin => unit
  | LoadCancelRequested => bool
  | StoreCompleted _ | StoreTotal _ => unit
  end.

(** Which of the caller's counters there are. *)
Record KernelModuleEnumerationControl := mkControl {
  has_cancel_requested : bool;
  has_completed : bool;
  has_total : bool;
  la57 : bool
}.

(** [ScopedDebugPrivilege]; no token is 0. *)
Record ScopedDebugPrivilege := mkPrivilege {
  token_ : Z;
  native_error_ : Z;
  adjusted_ : bool;
  enabled_ : bool
}.

Definition kInitialHeaderBytes : Z := 4096.
Definition kMaximumHeaderBytes : Z := 1024 * 1024.
Definition kMaximumBoundedPeHeaders : Z := 4096.
Definition kPeAndCoffBytes : Z := 4 + 20.

Definition wide_starts_with (prefix text : wide) : bool := bool_decide (take (List.length prefix) text = prefix).

Definition catalog_failure {A} (c : ErrorCode) (msg op : string) (native req comp : Z) : Result A :=
  Failure (MakeErrorFull c msg op native req comp).

Section Catalog.
Context {V : Type} `{!Host CatalogCall catalog_reply V} `{WideText} `{StdSort}.
Abbreviation sys c v := (host (C := CatalogCall) (reply := catalog_reply) (O := V) c v).

(** ** The privilege *)

Definition EnablePrivilege (v : V) : ScopedDebugPrivilege * V :=
  match sys OpenProcessToken v with
  | (inl native, v) => (mkPrivilege 0 native false false, v)
  | (inr token, v) =>
      match sys LookupPrivilegeValue v with
      | (inl native, v) => (mkPrivilege token native false false, v)
      | (inr _, v) =>
          match sys (AdjustTokenPrivileges token) v with
          | (inl native, v) => (mkPrivilege token native false false, v)
          | (inr last_error, v) => (mkPrivilege token last_error (last_error =? 0) (last_error =? 0), v)
          end
      end
  end.
Definition ReleasePrivilege (p : ScopedDebugPrivilege) (v : V) : V :=
  let v := if adjusted_ p && negb (token_ p =? 0) then (sys (RestoreTokenPrivileges (token_ p)) v).2 else v in
  if negb (token_ p =? 0) then (sys (CloseToken (token_ p)) v).2 else v.

(** ** Image files *)

Definition image_text (value : wide) : chars :=
  if bool_decide (value = []) then [] else byte_chars (default [] (WideToMultiByte value)).

(** The drive whose device the path is on. *)
Fixpoint drive_loop (count : nat) (drive : Z) (raw : wide) (v : V) : option wide * V :=
  match count with
  | O => (None, v)
  | S count =>
      match sys (QueryDosDevice drive) v with
      | (None, v) => drive_loop count (drive + 1) raw v
      | (Some mapped, v) =>
          let rest := drop (List.length mapped) raw in
          if wide_starts_with mapped raw && (bool_decide (rest = []) || bool_decide (head rest = Some 92)) then
            (Some (drive :: 58 :: rest), v)
          else drive_loop count (drive + 1) raw v
      end
  end.
Definition has_drive_root (raw : wide) : bool :=
  match raw with _ :: colon :: slash :: _ => (colon =? 58) && is_slash slash | _ => false end.
Definition resolve_device (raw : wide) (v : V) : wide * V :=
  if wide_starts_with (wstr "\??\") raw then (drop 4 raw, v)
  else if has_drive_root raw then (raw, v)
  else if wide_starts_with (wstr "\Device\") raw then
    let '(found, v) := drive_loop 26 65 raw v in (default raw found, v)
  else (raw, v).
Definition ResolveKernelImagePath (raw : wide) (v : V) : wide * V :=
  if wide_starts_with (wstr "\SystemRoot\") raw then
    let '(windows, v) := sys GetWindowsDirectory v in
    if negb (sizeZ windows =? 0) && (sizeZ windows <? 260) then (path_append windows (drop 12 raw), v)
    else resolve_device raw v
  else resolve_device raw v.

Definition ReadImageMetadata (path : wide) (v : V) : Result PeImageMetadata * V :=
  let failure c msg := catalog_failure c msg "EnumerateKernelModules.ReadImageMetadata" 0 in
  let '(open, v) := sys (StreamOpen path) v in
  if negb (open : bool) then (failure IoFailure "Local kernel image could not be opened" 0 0, v)
  else
    let '(bytes, v) := sys (StreamRead kInitialHeaderBytes) v in
    if bool_decide (bytes = []) then (failure ShortRead "Local kernel image header could not be read" 0 0, v)
    else
      match ParsePe64ImageMetadata bytes with
      | Success m => (Success m, v)
      | Failure e =>
          match dos_pe_offset bytes with
          | None => (Failure e, v)
          | Some pe_offset =>
              if (kMaximumHeaderBytes - kPeAndCoffBytes <? pe_offset) ||
                 (kMaximumHeaderBytes - kMaximumBoundedPeHeaders <? pe_offset + kPeAndCoffBytes) then
                (failure LimitReached "Local PE header offset exceeds the bounded metadata read" kMaximumHeaderBytes pe_offset, v)
              else
                let required := pe_offset + kPeAndCoffBytes + kMaximumBoundedPeHeaders in
                if required <=? sizeZ bytes then (Failure e, v)
                else
                  let '(_, v) := sys StreamSeekBegin v in
                  let '(bytes, v) := sys (StreamRead required) v in
                  if bool_decide (bytes = []) then
                    (failure ShortRead "Local kernel image header could not be read" 0 0, v)
                  else (ParsePe64ImageMetadata bytes, v)
          end
      end.

(** ** The modules *)

Definition unnamed : chars := str "<unnamed>".
Definition module_name (base_name image_path : wide) : chars :=
  let name := if negb (sizeZ base_name =? 0) && (sizeZ base_name <? 512) then image_text base_name else [] in
  let name := if bool_decide (name = []) && negb (bool_decide (image_path = []))
              then image_text (path_filename image_path) else name in
  if bool_decide (name = []) then unnamed else name.

Definition metadata_verified : string := "local PE32+ metadata verified".
Definition add_metadata (r : Result PeImageMetadata) (m : KernelModule) : KernelModule :=
  match r with
  | Success metadata =>
      m <| km_image_size := pe_image_size metadata |> <| km_timestamp := pe_timestamp metadata |>
        <| km_checksum := pe_checksum metadata |> <| km_metadata_status := metadata_verified |>
  | Failure e => m <| km_metadata_status := message e |>
  end.

Definition describe_module (address : Z) (v : V) : KernelModule * V :=
  let '(path, v) := sys (GetDeviceDriverFileName address) v in
  let '(base_name, v) := sys (GetDeviceDriverBaseName address) v in
  let '(image_path, v) :=
    if negb (sizeZ path =? 0) && (sizeZ path <? 32768) then ResolveKernelImagePath path v else ([], v) in
  let m := mkKernelModule address 0 0 0 (module_name base_name image_path) image_path "" in
  if bool_decide (image_path = []) then
    (m <| km_metadata_status := "Windows did not expose an image path; size/PE metadata unavailable" |>, v)
  else let '(metadata, v) := ReadImageMetadata image_path v in (add_metadata metadata m, v).

Definition cancelled (control : KernelModuleEnumerationControl) (v : V) : bool * V :=
  if has_cancel_requested control then sys LoadCancelRequested v else (false, v).
Definition store_completed (control : KernelModuleEnumerationControl) (count : Z) (v : V) : V :=
  if has_completed control then (sys (StoreCompleted count) v).2 else v.
Definition store_total (control : KernelModuleEnumerationControl) (count : Z) (v : V) : V :=
  if has_total control then (sys (StoreTotal count) v).2 else v.

Definition base_listed (control : KernelModuleEnumerationControl) (address : Z) : bool :=
  negb (address =? 0) && IsCanonicalX64KernelAddress address (la57 control).
Definition bad_base : string := "Windows returned a zero or non-canonical kernel module base".

(** The loop over the bases: the snapshot in the order Windows gave them. *)
Fixpoint modules_loop (control : KernelModuleEnumerationControl) (index : Z) (addresses : list Z)
    (snapshot : KernelModuleSnapshot) (v : V) : Result KernelModuleSnapshot * V :=
  match addresses with
  | [] => (Success snapshot, v)
  | address :: addresses =>
      let '(stop, v) := cancelled control v in
      if (stop : bool) then
        (catalog_failure Cancelled "Kernel module enumeration was cancelled" "EnumerateKernelModules" 0 0 0, v)
      else if negb (base_listed control address) then
        modules_loop control (index + 1) addresses
          (mkKernelModuleSnapshot (ks_modules snapshot) (ks_diagnostics snapshot ++ [bad_base]))
          (store_completed control (index + 1) v)
      else
        let '(m, v) := describe_module address v in
        modules_loop control (index + 1) addresses
          (mkKernelModuleSnapshot (ks_modules snapshot ++ [m]) (ks_diagnostics snapshot))
          (store_completed control (index + 1) v)
  end.

(** [std::vector::resize] to a smaller or equal size. *)
Definition resized (count : Z) (l : list Z) : list Z :=
  take (Z.to_nat count) (l ++ replicate (Z.to_nat count) 0).

(** With the privilege, if it could be had. *)
Definition list_bases (v : V) : Result (list Z) * V :=
  let op := "EnumerateKernelModules.EnumDeviceDrivers"%string in
  match sys EnumDeviceDriversSize v with
  | (inl native, v) =>
      (catalog_failure IoFailure "Windows could not size the loaded-kernel-module list" op native 0 0, v)
  | (inr required_bytes, v) =>
      if (required_bytes =? 0) || negb (required_bytes mod 8 =? 0) then
        (catalog_failure InternalInvariant "Windows returned an invalid loaded-kernel-module list size" op 0 8 required_bytes, v)
      else if kMaximumKernelModules <? required_bytes / 8 then
        (catalog_failure LimitReached "Loaded-kernel-module count exceeds the bounded catalog limit"
           "EnumerateKernelModules" 0 kMaximumKernelModules (required_bytes / 8), v)
      else
        match sys (EnumDeviceDrivers required_bytes) v with
        | (inl native, v) =>
            (catalog_failure IoFailure "Windows could not enumerate loaded kernel modules" op native 0 0, v)
        | (inr (returned_bytes, addresses), v) =>
            if (required_bytes <? returned_bytes) || negb (returned_bytes mod 8 =? 0) then
              (catalog_failure ShortRead "Loaded-kernel-module list changed during enumeration; refresh again" op 0
                 required_bytes returned_bytes, v)
            else (Success (resized (returned_bytes / 8) addresses), v)
        end
  end.

Definition hidden_reason (enabled : bool) : string :=
  if enabled then "Windows returned only NULL kernel module bases even after temporarily enabling SeDebugPrivilege"
  else "Windows returned only NULL kernel module bases and SeDebugPrivilege could not be enabled".

Definition enumerate_with (control : KernelModuleEnumerationControl) (privilege : ScopedDebugPrivilege) (v : V)
    : Result KernelModuleSnapshot * V :=
  match list_bases v with
  | (Failure e, v) => (Failure e, v)
  | (Success addresses, v) =>
      if negb (bool_decide (addresses = [])) && forallb (Z.eqb 0) addresses then
        (catalog_failure AccessDenied (hidden_reason (enabled_ privilege))
           "EnumerateKernelModules.EnumDeviceDrivers.Privilege" (native_error_ privilege) (sizeZ addresses) 0, v)
      else
        match modules_loop control 0 addresses (mkKernelModuleSnapshot [] []) (store_total control (sizeZ addresses) v) with
        | (Failure e, v) => (Failure e, v)
        | (Success snapshot, v) =>
            let modules := std_sort (λ left right, km_base left <? km_base right) (ks_modules snapshot) in
            if bool_decide (modules = []) then
              (catalog_failure AccessDenied
                 "No canonical kernel module bases were exposed; Administrator/SeDebugPrivilege may be required"
                 "EnumerateKernelModules" 0 0 0, v)
            else (Success (mkKernelModuleSnapshot modules (ks_diagnostics snapshot)), v)
        end
  end.

Definition EnumerateKernelModules (control : KernelModuleEnumerationControl) (v : V) : Result KernelModuleSnapshot * V :=
  let v := store_total control 0 (store_completed control 0 v) in
  let '(privilege, v) := EnablePrivilege v in
  let '(r, v) := enumerate_with control privilege v in
  (r, ReleasePrivilege privilege v).
End Catalog.
