(* ===== verification/KernelCatalogTheorems.v ===== *)
(** What the module catalog returns: exactly the loaded modules whose bases are kernel
    addresses, in order, each with the metadata of its image; and the privilege it takes
    is given back on every path. *)

From stdpp Require Import list relations sorting.
From S2P Require Import Prelude CppStd Wire Common Paths Iostream Host MemProcFs ProcessMemory PointerScanner KernelModule KernelCatalog.
From Stdlib Require Import Ascii String.

#[local] Open Scope Z_scope.

(** ** States that calls lead to *)

Section Reach.
Context {V : Type} `{!Host CatalogCall catalog_reply V} `{WideText} `{StdSort}.

(** [v'] is reached from [v] by calls that satisfy [ok]. *)
Definition reaches (ok : CatalogCall → bool) : relation V :=
  rtc (λ v v', ∃ c, ok c = true ∧ v' = (host c v).2).

Lemma reaches_call ok c v0 v : reaches ok v0 v → ok c = true → reaches ok v0 (host c v).2.
Proof. intros Hv Hc. eapply rtc_r; [exact Hv|]. by exists c. Qed.

(** Everything but the handling of the token. *)
Definition quiet_call (c : CatalogCall) : bool :=
  match c with
  | OpenProcessToken | LookupPrivilegeValue | AdjustTokenPrivileges _ | RestoreTokenPrivileges _ | CloseToken _ => false
  | _ => true
  end.
Abbreviation quietly := (reaches quiet_call).

(** Take the next call of the goal and go on in the state it leaves. *)
Ltac reach_call v0 :=
  match goal with
  | Hv : reaches ?ok v0 ?v |- context [host ?c ?v] =>
      let Hn := fresh "Hv" in
      pose proof (reaches_call ok c v0 v Hv eq_refl) as Hn;
      destruct (host c v) as [? ?]; cbn [fst snd] in Hn
  end.
Ltac reach v0 := repeat (first [reach_call v0|split_goal_match|progress cbv zeta]; cbn [fst snd]); try done.

Lemma read_metadata_quiet path v0 v : quietly v0 v → quietly v0 (ReadImageMetadata path v).2.
Proof. intros Hv. unfold ReadImageMetadata. reach v0. Qed.
Lemma drive_loop_quiet count drive raw v0 v : quietly v0 v → quietly v0 (drive_loop count drive raw v).2.
Proof.
  revert drive v. induction count as [|count IH]; intros drive v Hv; cbn [drive_loop]; [done|].
  reach_call v0. split_goal_match; [|by apply IH]. cbv zeta. split_goal_match; [done|by apply IH].
Qed.
Lemma resolve_device_quiet raw v0 v : quietly v0 v → quietly v0 (resolve_device raw v).2.
Proof.
  intros Hv. unfold resolve_device. split_goal_match; [done|]. split_goal_match; [done|]. split_goal_match; [|done].
  pose proof (drive_loop_quiet 26 65 raw v0 v Hv) as Hd. by destruct (drive_loop 26 65 raw v).
Qed.
Lemma resolve_path_quiet raw v0 v : quietly v0 v → quietly v0 (ResolveKernelImagePath raw v).2.
Proof.
  intros Hv. unfold ResolveKernelImagePath. split_goal_match; [|by apply resolve_device_quiet].
  reach_call v0. split_goal_match; [done|by apply resolve_device_quiet].
Qed.
Lemma describe_quiet address v0 v : quietly v0 v → quietly v0 (describe_module address v).2.
Proof.
  intros Hv. unfold describe_module. do 2 reach_call v0.
  assert (∀ p v, quietly v0 v → quietly v0 (if negb (sizeZ p =? 0) && (sizeZ p <? 32768) then ResolveKernelImagePath p v else ([], v)).2) as Hp.
  { intros p u Hu. split_goal_match; [by apply resolve_path_quiet|done]. }
  match goal with Hv : quietly v0 ?u |- context [if ?b then ResolveKernelImagePath ?p ?u else ?e] =>
    specialize (Hp p u Hv); destruct (if b then ResolveKernelImagePath p u else e) as [image_path w] end.
  cbn [snd] in Hp. cbv zeta. split_goal_match; [done|].
  pose proof (read_metadata_quiet image_path v0 w Hp) as Hr. by destruct (ReadImageMetadata image_path w).
Qed.
Lemma cancelled_quiet control v0 v : quietly v0 v → quietly v0 (cancelled control v).2.
Proof. intros Hv. unfold cancelled. split_goal_match; [by apply (reaches_call quiet_call LoadCancelRequested)|done]. Qed.
Lemma completed_quiet control count v0 v : quietly v0 v → quietly v0 (store_completed control count v).
Proof. intros Hv. unfold store_completed. split_goal_match; [by apply (reaches_call quiet_call (StoreCompleted count))|done]. Qed.
Lemma total_quiet control count v0 v : quietly v0 v → quietly v0 (store_total control count v).
Proof. intros Hv. unfold store_total. split_goal_match; [by apply (reaches_call quiet_call (StoreTotal count))|done]. Qed.
Lemma modules_loop_quiet control index addresses snapshot v0 v :
  quietly v0 v → quietly v0 (modules_loop control index addresses snapshot v).2.
Proof.
  revert index snapshot v. induction addresses as [|a l IH]; intros index snapshot v Hv; cbn [modules_loop]; [done|].
  pose proof (cancelled_quiet control v0 v Hv) as Hc. destruct (cancelled control v) as [stop u]. cbn [snd] in Hc.
  destruct stop; [done|]. split_goal_match; [by apply IH, completed_quiet|].
  pose proof (describe_quiet a v0 u Hc) as Hd. destruct (describe_module a u). by apply IH, completed_quiet.
Qed.
Lemma list_bases_quiet v0 v : quietly v0 v → quietly v0 (list_bases v).2.
Proof. intros Hv. unfold list_bases. reach v0. Qed.
Lemma enumerate_quiet control privilege v0 v : quietly v0 v → quietly v0 (enumerate_with control privilege v).2.
Proof.
  intros Hv. unfold enumerate_with. pose proof (list_bases_quiet v0 v Hv) as Hl. destruct (list_bases v) as [[addresses|e] u]; [|done].
  split_goal_match; [done|].
  pose proof (modules_loop_quiet control 0 addresses (mkKernelModuleSnapshot [] []) v0 _ (total_quiet control (sizeZ addresses) v0 u Hl)) as Hm.
  destruct (modules_loop _ _ _ _ _) as [[snapshot|e] w]; [|done]. cbv zeta. by split_goal_match.
Qed.
End Reach.

(** ** The privilege *)

Section Privilege.
Context {V : Type} `{!Host CatalogCall catalog_reply V} `{WideText} `{StdSort}.
Implicit Types l : Logged CatalogCall catalog_reply V.

Abbreviation event := {c : CatalogCall & catalog_reply c}.
Definition ev (c : CatalogCall) (r : catalog_reply c) : event := existT c r.

(** The tokens that were opened and closed, those with the privilege enabled, and those
    it was taken from again. *)
Definition token_opened (e : event) : list Z :=
  match e with existT c r =>
    match c return catalog_reply c → list Z with
    | OpenProcessToken => λ r, match r with inr t => [t] | inl _ => [] end
    | _ => λ _, []
    end r
  end.
Definition token_closed (e : event) : list Z := match projT1 e with CloseToken t => [t] | _ => [] end.
Definition token_enabled (e : event) : list Z :=
  match e with existT c r =>
    match c return catalog_reply c → list Z with
    | AdjustTokenPrivileges t => λ r, match r with inr 0 => [t] | _ => [] end
    | _ => λ _, []
    end r
  end.
Definition token_restored (e : event) : list Z := match projT1 e with RestoreTokenPrivileges t => [t] | _ => [] end.

Definition tokens (f : event → list Z) (calls : list event) : list Z := calls ≫= f.
Lemma tokens_app f a b : tokens f (a ++ b) = tokens f a ++ tokens f b.
Proof. apply bind_app. Qed.
Lemma tokens_cons f e calls : tokens f (e :: calls) = f e ++ tokens f calls.
Proof. done. Qed.

Definition quiet_log (es : list event) : Prop :=
  tokens token_opened es = [] ∧ tokens token_closed es = [] ∧ tokens token_enabled es = [] ∧ tokens token_restored es = [].

(** Quiet calls add quiet events. *)
Lemma quietly_log l l' :
  reaches quiet_call l l' → ∃ es, lg_calls l' = es ++ lg_calls l ∧ quiet_log es.
Proof.
  induction 1 as [l|l l1 l2 (c & Hc & ->) _ (es & E & Hes)]; [by exists []|].
  unfold host, Logged_Host in E. destruct (host c (lg_host l)) as [r h]. cbn [snd lg_calls] in E.
  exists (es ++ [existT c r]). split; [by rewrite E, <- app_assoc|].
  unfold quiet_log. rewrite !tokens_app. destruct Hes as (-> & -> & -> & ->). by destruct c.
Qed.

Definition given_back (calls : list event) : Prop :=
  tokens token_opened calls = tokens token_closed calls ∧
  tokens token_enabled calls = tokens token_restored calls ∧
  ∀ t, t ∈ tokens token_enabled calls →
    ∃ rest, calls = ev (CloseToken t) tt :: ev (RestoreTokenPrivileges t) tt :: rest.

(** The calls around the enumeration. *)
Lemma release_log p l :
  lg_calls (ReleasePrivilege p l) =
    (if token_ p =? 0 then [] else ev (CloseToken (token_ p)) tt ::
       if adjusted_ p then [ev (RestoreTokenPrivileges (token_ p)) tt] else []) ++ lg_calls l.
Proof.
  unfold ReleasePrivilege. rewrite !host_logged. cbn [snd].
  destruct (host (RestoreTokenPrivileges _) _) as [[] h1], (adjusted_ p), (token_ p =? 0); cbn [andb negb lg_host lg_calls fst snd app]; try done.
  all: by destruct (host (CloseToken _) _) as [[] h2].
Qed.
Lemma enable_log l :
  (∀ t, (host OpenProcessToken (lg_host l)).1 = inr t → t ≠ 0) →
  let '(p, l') := EnablePrivilege l in
  ∃ es, lg_calls l' = es ++ lg_calls l ∧ tokens token_closed es = [] ∧ tokens token_restored es = [] ∧
    tokens token_opened es = (if token_ p =? 0 then [] else [token_ p]) ∧
    tokens token_enabled es = (if adjusted_ p then [token_ p] else []) ∧ (adjusted_ p = true → token_ p ≠ 0).
Proof.
  intros Hvalid. unfold EnablePrivilege. rewrite host_logged.
  destruct (host OpenProcessToken (lg_host l)) as [[native|token] h1]; cbn [fst snd] in *.
  { by exists [ev OpenProcessToken (inl native)]. }
  specialize (Hvalid token eq_refl). apply Z.eqb_neq in Hvalid as Ht. rewrite host_logged. cbn [lg_host].
  destruct (host LookupPrivilegeValue h1) as [[native|u] h2]; cbn [fst snd].
  { exists [ev LookupPrivilegeValue (inl native); ev OpenProcessToken (inr token)]. cbn. by rewrite Ht. }
  rewrite host_logged. cbn [lg_host].
  destruct (host (AdjustTokenPrivileges token) h2) as [[native|last_error] h3]; cbn [fst snd token_ adjusted_].
  { exists [ev (AdjustTokenPrivileges token) (inl native); ev LookupPrivilegeValue (inr u); ev OpenProcessToken (inr token)].
    cbn. by rewrite Ht. }
  exists [ev (AdjustTokenPrivileges token) (inr last_error); ev LookupPrivilegeValue (inr u); ev OpenProcessToken (inr token)].
  rewrite Ht. cbn. by destruct last_error.
Qed.

(** [C20] Whatever Windows answers and wherever the enumeration ends, every process
    token that it opens is closed, and the debug privilege is taken back from every
    token it was enabled on, as the last thing done but for closing the token. *)
Theorem privilege_scoped control (v : V) :
  (∀ v t, (host OpenProcessToken v).1 = inr t → t ≠ 0) →
  given_back (lg_calls (EnumerateKernelModules control (mkLogged v [])).2).
Proof.
  intros Hvalid. unfold EnumerateKernelModules. cbv zeta.
  set (l0 := store_total control 0 (store_completed control 0 (mkLogged v []))).
  destruct (quietly_log (mkLogged v []) l0) as (es0 & E0 & Q0); [apply total_quiet, completed_quiet; constructor|].
  cbn [lg_calls] in E0. rewrite app_nil_r in E0.
  pose proof (enable_log l0 (Hvalid _)) as He. destruct (EnablePrivilege l0) as [p l1].
  destruct He as (es1 & E1 & H1 & H2 & H3 & H4 & H5).
  pose proof (enumerate_quiet control p l1 l1 (rtc_refl _ _)) as Q2. apply quietly_log in Q2 as (es2 & E2 & Q2).
  destruct (enumerate_with control p l1) as [r l2]. cbn [snd] in *. unfold given_back.
  rewrite release_log, E2, E1, E0, !tokens_app, H1, H2, H3, H4.
  destruct Q0 as (-> & -> & -> & ->), Q2 as (-> & -> & -> & ->).
  destruct (Z.eqb_spec (token_ p) 0) as [E|Ht], (adjusted_ p); cbn [app]; try (by destruct (H5 eq_refl)).
  all: split; [done|]; split; [done|]; intros t Hin; cbn in Hin; rewrite ?app_nil_r in Hin.
  all: try (by apply elem_of_nil in Hin). apply list_elem_of_singleton in Hin as ->. by eexists.
Qed.
End Privilege.

(** ** Image files *)

(** The files as the input stream sees them, which no call changes. *)
Class ImageFiles {V} `{!Host CatalogCall catalog_reply V} := {
  image_file : V → wide → option (list Z);
  stream_text : V → list Z;
  stream_position : V → nat;
  image_file_stable c v : image_file (host c v).2 = image_file v;
  stream_open p v :
    match image_file v p with
    | Some bytes => (host (StreamOpen p) v).1 = true ∧ stream_text (host (StreamOpen p) v).2 = bytes ∧
                    stream_position (host (StreamOpen p) v).2 = O
    | None => (host (StreamOpen p) v).1 = false
    end;
  stream_read count v :
    (host (StreamRead count) v).1 = take (Z.to_nat count) (drop (stream_position v) (stream_text v)) ∧
    stream_text (host (StreamRead count) v).2 = stream_text v;
  stream_rewind v :
    stream_text (host StreamSeekBegin v).2 = stream_text v ∧ stream_position (host StreamSeekBegin v).2 = O
}.

(** The file has the headers of a 64-bit image within the bounds of the reader. *)
Definition image_of (file : list Z) (m : PeImageMetadata) : Prop :=
  ∃ pe optional_size, pe64 file m pe optional_size ∧
    optional_size ≤ kMaximumBoundedPeHeaders ∧ pe + kPeAndCoffBytes + kMaximumBoundedPeHeaders ≤ kMaximumHeaderBytes.

Section Images.
Context {V : Type} `{ImageFiles V} `{WideText} `{StdSort}.

Lemma pe64_fun file m m' pe pe' os os' : pe64 file m pe os → pe64 file m' pe' os' → m = m'.
Proof. intros E%ParsePe64_complete E'%ParsePe64_complete. congruence. Qed.
Lemma dos_pe_offset_take file n pe :
  64 ≤ n → dos_pe_offset (take (Z.to_nat n) file) = Some pe ↔ dos_pe_offset file = Some pe.
Proof.
  intros Hn. assert (kDosPeOffset = 60) by done. rewrite !dos_pe_offset_spec, !field_at_take by lia. naive_solver lia.
Qed.

(** The two reads of the headers see as much of the file as they need. *)
Lemma metadata_of_parts file m pe os :
  pe64 file m pe os → os ≤ kMaximumBoundedPeHeaders →
  ParsePe64ImageMetadata (take (Z.to_nat (pe + kPeAndCoffBytes + kMaximumBoundedPeHeaders)) file) = Success m.
Proof.
  intros Hf Ho. apply (ParsePe64_complete _ _ pe os), pe64_take. split; [done|]. unfold kPeAndCoffBytes. lia.
Qed.

(** The metadata reader accepts exactly the files whose headers are those of a
    64-bit image within its bounds, and returns their fields, although it reads no more
    than the first 4096 bytes, or what the header offset asks for. *)
Theorem ReadImageMetadata_exact path (v : V) m :
  (ReadImageMetadata path v).1 = Success m ↔ ∃ file, image_file v path = Some file ∧ image_of file m.
Proof.
  unfold ReadImageMetadata. pose proof (stream_open path v) as Hopen. cbv zeta.
  destruct (host (StreamOpen path) v) as [open v1]. cbn [fst snd] in Hopen.
  destruct (image_file v path) as [file|]; [|subst open; split; [done|by intros (? & ? & _)]].
  destruct Hopen as (-> & Ht & Hp). cbn [negb].
  destruct (stream_read kInitialHeaderBytes v1) as [Hr Ht1]. rewrite Ht, Hp in *.
  destruct (host (StreamRead kInitialHeaderBytes) v1) as [bytes v2]. cbn [fst snd] in *. rewrite drop_0 in Hr. subst bytes.
  assert ((∃ f, Some file = Some f ∧ image_of f m) ↔ image_of file m) as -> by naive_solver.
  destruct (bool_decide _) eqn:Eb; boolify.
  { split; [done|]. intros (pe & os & Hf & _). pose proof (p64_dos _ _ _ _ Hf) as (_ & Hd & _).
    apply (f_equal List.length) in Eb. rewrite length_take in Eb. unfold sizeZ, kInitialHeaderBytes in *. cbn in Eb. lia. }
  destruct (ParsePe64ImageMetadata (take _ file)) as [m'|e] eqn:E1.
  { apply ParsePe64_sound in E1 as (pe & os & [Hf Hn]%pe64_take). pose proof (p64_optional _ _ _ _ Hf).
    pose proof (field_at_nonneg _ _ _ _ (p64_pe _ _ _ _ Hf)). cbn [fst].
    split; [intros [= <-]|intros (pe' & os' & Hf' & _); by rewrite (pe64_fun _ _ _ _ _ _ _ Hf Hf')].
    exists pe, os. unfold kPeAndCoffBytes, kMaximumBoundedPeHeaders, kMaximumHeaderBytes, kInitialHeaderBytes in *. split; [done|lia]. }
  destruct (dos_pe_offset (take _ file)) as [pe|] eqn:Ed.
  2:{ split; [done|]. intros (pe & os & Hf & _). assert (dos_pe_offset file = Some pe) as Hd.
      { apply dos_pe_offset_spec. split; eapply p64_dos || eapply p64_pe; exact Hf. }
      apply (dos_pe_offset_take file kInitialHeaderBytes) in Hd; [congruence|done]. }
  apply dos_pe_offset_take in Ed; [|done]. apply dos_pe_offset_spec in Ed as [_ Hd]. apply field_at_nonneg in Hd as Hpe0.
  assert (∀ pe' os', pe64 file m pe' os' → pe' = pe) as Hpe.
  { intros pe' os' Hf. eapply field_at_fun; [exact (p64_pe _ _ _ _ Hf)|exact Hd]. }
  destruct (_ || _) eqn:Eb1; boolify.
  { split; [done|]. intros (pe' & os' & Hf & _ & Hb). rewrite (Hpe _ _ Hf) in Hb.
    unfold kPeAndCoffBytes, kMaximumBoundedPeHeaders, kMaximumHeaderBytes in *. lia. }
  destruct (Z.leb_spec (pe + kPeAndCoffBytes + kMaximumBoundedPeHeaders) (sizeZ (take (Z.to_nat kInitialHeaderBytes) file))) as [Hz|_].
  { unfold sizeZ in Hz. rewrite length_take in Hz. unfold kPeAndCoffBytes, kMaximumBoundedPeHeaders, kInitialHeaderBytes in *. lia. }
  destruct (stream_rewind v2) as [Ht3 Hp3]. destruct (host StreamSeekBegin v2) as [u v3]. cbn [snd] in *.
  destruct (stream_read (pe + kPeAndCoffBytes + kMaximumBoundedPeHeaders) v3) as [Hr _]. rewrite Ht3, Hp3, Ht1, drop_0 in Hr.
  destruct (host (StreamRead _) v3) as [bytes v4]. cbn [fst] in Hr. subst bytes.
  destruct (bool_decide _) eqn:Eb2; cbn [fst]; boolify.
  { split; [done|]. intros (pe' & os' & Hf & Ho & _). pose proof (metadata_of_parts _ _ _ _ Hf Ho) as Hm.
    rewrite (Hpe _ _ Hf), Eb2 in Hm. by vm_compute in Hm. }
  split.
  - intros (pe' & os' & [Hf Hn]%pe64_take)%ParsePe64_sound. pose proof (Hpe _ _ Hf) as ->. exists pe, os'.
    unfold kPeAndCoffBytes in *. split; [done|lia].
  - intros (pe' & os' & Hf & Ho & _). pose proof (metadata_of_parts _ _ _ _ Hf Ho) as Hm. by rewrite (Hpe _ _ Hf) in Hm.
Qed.
End Images.

(** ** The modules *)

(** A kernel address: in the upper half of the canonical addresses. *)
Definition kernel_address (la57 : bool) (a : Z) : Prop := 2 ^ 64 - 2 ^ sign_bit la57 ≤ a.

Lemma base_listed_spec control a :
  is_u64 a → base_listed control a = true ↔ kernel_address (la57 control) a.
Proof.
  intros [Ha Hb]. unfold base_listed, IsCanonicalX64KernelAddress, IsCanonicalX64Address, address_sign, kernel_address.
  rewrite (Z.land_ones _ 1) by lia. rewrite !Z.shiftr_div_pow2 by (destruct (la57 control); cbn; lia).
  destruct (la57 control); cbn [sign_bit address_bits]; rewrite Z.shiftl_mul_pow2 by lia.
  all: change (2 ^ 1) with 2; change (1 * 2 ^ (64 - 57)) with 128 || change (1 * 2 ^ (64 - 48)) with 65536.
  - change (2 ^ 57) with 144115188075855872. change (2 ^ 56) with 72057594037927936. change (2 ^ 64) with 18446744073709551616.
    destruct (Z.eqb_spec ((a / 72057594037927936) mod 2) 0); cbn [negb]; Z.div_mod_to_equations; split; intros Hx; boolify; try lia.
  - change (2 ^ 48) with 281474976710656. change (2 ^ 47) with 140737488355328. change (2 ^ 64) with 18446744073709551616.
    destruct (Z.eqb_spec ((a / 140737488355328) mod 2) 0); cbn [negb]; Z.div_mod_to_equations; split; intros Hx; boolify; try lia.
Qed.

Section Modules.
Context {V : Type} `{ImageFiles V} `{WideText} `{StdSort}.

Lemma reaches_files ok (v v' : V) : reaches ok v v' → image_file v' = image_file v.
Proof. induction 1 as [|v v1 v2 (c & _ & ->) _ ->]; [done|]. apply image_file_stable. Qed.

(** The module has the metadata of its image, or none when there is no such image. *)
Definition metadata_true (files : wide → option (list Z)) (m : KernelModule) : Prop :=
  (∃ file image, files (km_image_path m) = Some file ∧ image_of file image ∧
     km_image_size m = pe_image_size image ∧ km_timestamp m = pe_timestamp image ∧
     km_checksum m = pe_checksum image ∧ km_metadata_status m = metadata_verified) ∨
  ((km_image_path m = [] ∨ ∀ file image, files (km_image_path m) = Some file → ¬ image_of file image) ∧
   km_image_size m = 0 ∧ km_timestamp m = 0 ∧ km_checksum m = 0).

Lemma describe_module_true address (v : V) :
  km_base (describe_module address v).1 = address ∧ metadata_true (image_file v) (describe_module address v).1.
Proof.
  unfold describe_module.
  pose proof (image_file_stable (GetDeviceDriverFileName address) v) as F1. destruct (host (GetDeviceDriverFileName address) v) as [path v1].
  pose proof (image_file_stable (GetDeviceDriverBaseName address) v1) as F2. destruct (host (GetDeviceDriverBaseName address) v1) as [base_name v2].
  cbn [snd] in *.
  assert (image_file (if negb (sizeZ path =? 0) && (sizeZ path <? 32768) then ResolveKernelImagePath path v2 else ([], v2)).2 = image_file v2) as F3.
  { split_goal_match; [|done]. apply (reaches_files quiet_call), resolve_path_quiet. constructor. }
  destruct (if negb (sizeZ path =? 0) && (sizeZ path <? 32768) then ResolveKernelImagePath path v2 else ([], v2)) as [image_path v3].
  cbn [snd] in F3. cbv zeta. destruct (bool_decide _) eqn:Eb; boolify.
  { split; [done|]. right. split; [by left|done]. }
  pose proof (ReadImageMetadata_exact image_path v3) as Hr. rewrite F3, F2, F1 in Hr.
  destruct (ReadImageMetadata image_path v3) as [[image|e] v4]; cbn [fst add_metadata] in *; (split; [done|]).
  - left. destruct (proj1 (Hr image) eq_refl) as (file & Hf & Hi). by exists file, image.
  - right. split; [|done]. right. intros file image Hf Hi. by assert (Failure e = Success image) by (apply Hr; by exists file).
Qed.

Lemma modules_loop_true control index addresses snapshot (v : V) snapshot' :
  (modules_loop control index addresses snapshot v).1 = Success snapshot' →
  ∃ ms, ks_modules snapshot' = ks_modules snapshot ++ ms ∧
    km_base <$> ms = filter (λ a, base_listed control a = true) addresses ∧ Forall (metadata_true (image_file v)) ms ∧
    sizeZ (ks_diagnostics snapshot') = sizeZ (ks_diagnostics snapshot) + (sizeZ addresses - sizeZ ms).
Proof.
  revert index snapshot v. induction addresses as [|a l IH]; intros index snapshot v; cbn [modules_loop].
  { intros [= <-]. exists []. rewrite app_nil_r. split_and!; [done..|]. unfold sizeZ. cbn. lia. }
  assert (image_file (cancelled control v).2 = image_file v) as F1.
  { apply (reaches_files quiet_call), cancelled_quiet. constructor. }
  destruct (cancelled control v) as [stop v1]. cbn [snd] in F1. destruct stop; [done|].
  assert (∀ v, image_file (store_completed control (index + 1) v) = image_file v) as F2.
  { intros u. apply (reaches_files quiet_call), completed_quiet. constructor. }
  rewrite filter_cons. destruct (base_listed control a) eqn:Ea; cbn [negb].
  - destruct (describe_module_true a v1) as [Hb Hm].
    assert (image_file (describe_module a v1).2 = image_file v1) as F3.
    { apply (reaches_files quiet_call), describe_quiet. constructor. }
    destruct (describe_module a v1) as [m v2]. cbn [fst snd] in *. intros Hl. apply IH in Hl as (ms & E1 & E2 & E3 & E4).
    cbn [ks_modules ks_diagnostics] in *. rewrite F2, F3 in E3. exists (m :: ms). rewrite decide_True by done.
    split; [by rewrite E1, <- app_assoc|]. split; [cbn; by rewrite Hb, E2|]. rewrite F1 in *. split; [by constructor|].
    rewrite E4, !sizeZ_cons. lia.
  - intros Hl. apply IH in Hl as (ms & E1 & E2 & E3 & E4). cbn [ks_modules ks_diagnostics] in *. rewrite F2, F1 in E3.
    exists ms. rewrite decide_False by congruence. split_and!; [done..|]. rewrite E4, sizeZ_app, !sizeZ_cons. unfold sizeZ at 2. cbn. lia.
Qed.

Lemma list_bases_bound (v : V) bases : (list_bases v).1 = Success bases → sizeZ bases ≤ kMaximumKernelModules.
Proof.
  unfold list_bases. destruct (host EnumDeviceDriversSize v) as [[native|required] v1]; [done|].
  destruct ((required =? 0) || _); [done|]. destruct (Z.ltb_spec kMaximumKernelModules (required / 8)); [done|].
  destruct (host (EnumDeviceDrivers required) v1) as [[native|[returned addresses]] v2]; [done|].
  destruct (_ || _) eqn:E2; [done|]. intros [= <-]. boolify. unfold resized, sizeZ. rewrite length_take.
  unfold kMaximumKernelModules in *. pose proof (Z.div_le_mono returned required 8). lia.
Qed.

(** What the enumeration promises of the modules, given the bases Windows listed. *)
Record catalog_true (control : KernelModuleEnumerationControl) (files : wide → option (list Z)) (bases : list Z)
    (snapshot : KernelModuleSnapshot) : Prop := {
  ct_bound : sizeZ bases ≤ kMaximumKernelModules;
  ct_bases : km_base <$> ks_modules snapshot ≡ₚ filter (λ a, base_listed control a = true) bases;
  ct_sorted : StronglySorted Z.le (km_base <$> ks_modules snapshot);
  ct_kernel m : m ∈ ks_modules snapshot → is_u64 (km_base m) → kernel_address (la57 control) (km_base m);
  ct_metadata : Forall (metadata_true files) (ks_modules snapshot);
  ct_diagnostics : sizeZ (ks_diagnostics snapshot) = sizeZ bases - sizeZ (ks_modules snapshot);
  ct_some : ks_modules snapshot ≠ []
}.

Lemma enumerate_true control privilege (v : V) snapshot :
  (enumerate_with control privilege v).1 = Success snapshot →
  ∃ bases, (list_bases v).1 = Success bases ∧ catalog_true control (image_file v) bases snapshot.
Proof.
  unfold enumerate_with. pose proof (list_bases_bound v) as Hbound.
  assert (image_file (list_bases v).2 = image_file v) as F1.
  { apply (reaches_files quiet_call), list_bases_quiet. constructor. }
  destruct (list_bases v) as [[bases|e] v1]; [|done]. cbn [fst snd] in *. destruct (negb _ && _); [done|].
  assert (image_file (store_total control (sizeZ bases) v1) = image_file v1) as F2.
  { apply (reaches_files quiet_call), total_quiet. constructor. }
  pose proof (modules_loop_true control 0 bases (mkKernelModuleSnapshot [] []) (store_total control (sizeZ bases) v1)) as Hl.
  destruct (modules_loop _ _ _ _ _) as [[snap|e] v2]; [|done]. destruct (Hl snap eq_refl) as (ms & E1 & E2 & E3 & E4). clear Hl.
  cbn [ks_modules ks_diagnostics app fst] in *. cbv zeta. destruct (bool_decide _) eqn:Eb; boolify; [done|]. intros [= <-].
  rewrite F2, F1 in E3. subst ms.
  pose proof (std_sort_perm _ (λ left right, km_base left <? km_base right) (ks_modules snap)) as Hp.
  exists bases. split; [done|]. split; cbn [ks_modules ks_diagnostics]; [by apply Hbound|..].
  - by rewrite Hp, E2.
  - pose proof (std_sort_sorted _ (λ left right, km_base left <? km_base right) (ks_modules snap)) as Hs.
    specialize (Hs ltac:(cbn; intros x y; lia) ltac:(cbn; intros x y z; lia)). clear -Hs. induction Hs as [|m l _ IH Hm]; cbn; constructor; [done|].
    apply Forall_fmap. eapply Forall_impl; [exact Hm|]. cbn. intros; lia.
  - intros m Hm Hu. apply (base_listed_spec control _ Hu). rewrite Hp in Hm.
    apply (list_elem_of_fmap_2 km_base) in Hm. rewrite E2 in Hm. by apply list_elem_of_filter in Hm as [? _].
  - by rewrite Hp.
  - rewrite E4. unfold sizeZ. rewrite (Permutation_length Hp). cbn. lia.
  - done.
Qed.

(** [C19] A successful enumeration returns exactly the modules at those of the bases
    Windows listed (at most 4096) that are kernel addresses, in ascending order, and a
    diagnostic for each other base; a module has the size, time stamp and checksum of
    its image file, and none when that is not a 64-bit image within the reader's bounds. *)
Theorem kernel_modules_exact control (v : V) snapshot :
  (EnumerateKernelModules control v).1 = Success snapshot →
  ∃ bases, (list_bases (EnablePrivilege (store_total control 0 (store_completed control 0 v))).2).1 = Success bases ∧
    catalog_true control (image_file v) bases snapshot.
Proof.
  unfold EnumerateKernelModules. cbv zeta. set (v0 := store_total control 0 (store_completed control 0 v)).
  assert (image_file v0 = image_file v) as F0.
  { apply (reaches_files quiet_call), total_quiet, completed_quiet. constructor. }
  assert (image_file (EnablePrivilege v0).2 = image_file v0) as F1.
  { apply (reaches_files (λ _, true)). unfold EnablePrivilege.
    assert (∀ u c, reaches (λ _, true) v0 u → reaches (λ _, true) v0 (host c u).2) as Hc by (intros; by apply reaches_call).
    pose proof (Hc v0 OpenProcessToken (rtc_refl _ _)) as R1. destruct (host OpenProcessToken v0) as [[native|token] v1]; [done|].
    pose proof (Hc v1 LookupPrivilegeValue R1) as R2. destruct (host LookupPrivilegeValue v1) as [[native|u] v2]; [done|].
    pose proof (Hc v2 (AdjustTokenPrivileges token) R2) as R3. by destruct (host (AdjustTokenPrivileges token) v2) as [[native|e] v3]. }
  destruct (EnablePrivilege v0) as [privilege v1]. cbn [snd] in *.
  pose proof (enumerate_true control privilege v1 snapshot) as He. rewrite F1, F0 in He.
  destruct (enumerate_with control privilege v1) as [r v2]. exact He.
Qed.
End Modules.
