(* ===== verification/SymbolResolver.v ===== *)
(** [core/kernel/LocalSymbolResolver]: a DbgHelp session over local symbol files, in which
    a module stays loaded only with a proof that its PDB is the one its image names. *)

From stdpp Require Import list.
From S2P Require Import Prelude CppStd Wire Common Paths Iostream Host MemProcFs KernelModule.
From Stdlib Require Import Ascii String.

#[local] Open Scope Z_scope.

(** ** Data *)

Record LocalSymbolLoadReport := mkLoadReport {
  lr_loaded_modules : Z;
  lr_failed_modules : Z;
  lr_diagnostics : list chars
}.

Record ResolvedKernelSymbol := mkResolvedSymbol { rs_name : chars; rs_address : Z; rs_displacement : Z }.

(** Which of the caller's counters there are. *)
Record LocalSymbolLoadControl := mkLoadControl { lc_cancel_requested : bool; lc_completed : bool; lc_total : bool }.

Record LocalSymbolModuleProof := mkModuleProof {
  mp_module_base : Z;
  mp_module_size : Z;
  mp_module_name : chars;
  mp_image_path : wide;
  mp_image_sha256 : chars;
  mp_image_codeview_pdb_basename : chars;
  mp_image_codeview_guid : chars;
  mp_image_codeview_age : Z;
  mp_loaded_pdb_path : wide;
  mp_loaded_pdb_basename : chars;
  mp_loaded_pdb_sha256 : chars;
  mp_loaded_pdb_guid : chars;
  mp_loaded_pdb_age : Z;
  mp_identity_match : bool
}.
Definition proof_Contains (p : LocalSymbolModuleProof) (address : Z) : bool :=
  negb (mp_module_size p =? 0) && (mp_module_base p <=? address) &&
  (u64 (address - mp_module_base p) <? mp_module_size p).

(** [LocalSymbolResolver::Impl]; the session is the resolver itself or none. *)
Record LocalSymbolResolver := mkResolver {
  session : bool;
  ready : bool;
  proofs : list LocalSymbolModuleProof
}.
#[export] Instance LocalSymbolResolver_eta : Eta LocalSymbolResolver := λ r, mkResolver (session r) (ready r) (proofs r).
Definition new_resolver : LocalSymbolResolver := mkResolver false false [].

(** ** Windows *)

Record GUID := mkGuid { Data1 : Z; Data2 : Z; Data3 : Z; Data4 : list Z }.
(** [IMAGEHLP_MODULE64] and [SYMSRV_INDEX_INFOW], as far as they are read. *)
Record ModuleInfo := mkModuleInfo {
  mi_sym_type : Z;
  mi_loaded_pdb_name : wide;
  mi_guid : GUID;
  mi_age : Z;
  mi_unmatched : bool
}.
Record IndexInfo := mkIndexInfo { ii_pdbfile : wide; ii_guid : GUID; ii_age : Z }.
Definition SymPdb : Z := 3.

Inductive SymbolCall :=
  | SymSetOptions
  | SymInitialize (search_path : wide)
  | SymCleanup
  | FindSymLoadModuleEx
  | SymLoadModuleEx (image name : wide) (base size : Z)
  | SymGetModuleInfo (loaded : Z)
  | SymUnloadModule (loaded : Z)
  | SymSrvGetFileIndexInfo (image : wide)
  | SymFromAddr (address : Z)
  | SymFromName (name : chars)
  | CanonicalPath (p : wide)
  | IsDirectory (p : wide)
  | IsRegularFile (p : wide)
  | CreateFile (p : wide)
  | CryptAcquireContext
  | CryptCreateHash (provider : Z)
  | FileRead (file count : Z)
  | CryptHashData (hash : Z) (bytes : list Z)
  | CryptGetHashParam (hash : Z)
  | CryptDestroyHash (hash : Z)
  | CryptReleaseContext (provider : Z)
  | CloseFile (file : Z)
  | LoadCancel
  | StoreLoaded (count : Z)
  | StoreModules (count : Z).

Definition symbol_reply (c : SymbolCall) : Type :=
  match c with
  | SymSetOptions | SymCleanup => unit
  | SymInitialize _ => Native unit
  | FindSymLoadModuleEx => Native unit
  | SymLoadModuleEx _ _ _ _ => Native Z
  | SymGetModuleInfo _ => Z * option ModuleInfo       (* the last error, and the description *)
  | SymUnloadModule _ => bool
  | SymSrvGetFileIndexInfo _ => Native IndexInfo
  | SymFromAddr _ => Native (chars * Z * Z)           (* name, address, displacement *)
  | SymFromName _ => Native (chars * Z)
  | CanonicalPath _ => Z * wide                       (* error, path *)
  | IsDirectory _ | IsRegularFile _ => Z * bool       (* error, answer *)
  | CreateFile _ | CryptAcquireContext | CryptCreateHash _ => Native Z
  | FileRead _ _ => Native (list Z)
  | CryptHashData _ _ => Native unit
  | CryptGetHashParam _ => Z * option (list Z)        (* the last error, and the digest *)
  | CryptDestroyHash _ | CryptReleaseContext _ | CloseFile _ => unit
  | LoadCancel => bool
  | StoreLoaded _ | StoreModules _ => unit
  end.

(** ** Text *)

(** [%0*x] *)
Definition padded_hex (width : nat) (v : Z) : chars :=
  let digits := print_number false 16 v in replicate (width - List.length digits) "0"%char ++ digits.
Definition hyphen : ascii := "-"%char.
Definition GuidString (g : GUID) : chars :=
  let hex2 i := padded_hex 2 (byte_at (Data4 g) i) in
  let text := padded_hex 8 (Data1 g) ++ hyphen :: padded_hex 4 (Data2 g) ++ hyphen :: padded_hex 4 (Data3 g) ++
              hyphen :: hex2 0 ++ hex2 1 ++ hyphen :: hex2 2 ++ hex2 3 ++ hex2 4 ++ hex2 5 ++ hex2 6 ++ hex2 7 in
  if sizeZ text =? 36 then text else [].
Definition AsciiLower (value : chars) : chars := lower_char <$> value.
(** [std::towlower] in the C locale. *)
Definition Lower (value : wide) : wide := ascii_lower <$> value.
Definition hex_digest (digest : list Z) : chars :=
  b ← digest; [digit_char false (Z.shiftr b 4); digit_char false (Z.land b 0x0F)].

Section Resolver.
(** [narrow] is the conversion to the active code page, [path::string]. *)
Context {V : Type} `{!Host SymbolCall symbol_reply V} `{WideText} (narrow : wide → chars).
Abbreviation sym c v := (host (C := SymbolCall) (reply := symbol_reply) (O := V) c v).

Definition Symbol_Utf8ToWide (value : chars) : wide :=
  if bool_decide (value = []) then [] else default [] (MultiByteToWide (chars_bytes value)).
Definition Symbol_WideToUtf8 (value : wide) : chars :=
  if bool_decide (value = []) || (2147483647 <? sizeZ value) then []
  else byte_chars (default [] (WideToMultiByte value)).

Definition symbols_failure {A} (c : ErrorCode) (msg op : string) (native req comp : Z) : Result A :=
  Failure (MakeErrorFull c msg op native req comp).

(** ** SHA-256 of a file *)

Definition sha_failure {A} (msg : string) (native : Z) : Result A :=
  symbols_failure IoFailure msg "LocalSymbolResolver::Configure.FileSha256" native 0 0.
Definition cleanup (file provider hash : Z) (v : V) : V :=
  let v := if hash =? 0 then v else (sym (CryptDestroyHash hash) v).2 in
  let v := if provider =? 0 then v else (sym (CryptReleaseContext provider) v).2 in
  (sym (CloseFile file) v).2.

(** A round of the loop over the file. *)
Definition hash_round (file hash : Z) (v : V) : V + Result unit * V :=
  match sym (FileRead file (64 * 1024)) v with
  | (inl native, v) => inr (sha_failure "Unable to read the local module image for SHA-256" native, v)
  | (inr bytes, v) =>
      if bool_decide (bytes = []) then inr (Success tt, v)
      else
        match sym (CryptHashData hash bytes) v with
        | (inl native, v) => inr (sha_failure "Unable to update the local module SHA-256" native, v)
        | (inr _, v) => inl v
        end
  end.
(** A round reads at least one byte of a file of less than [2 ^ 64]. *)
Definition hash_file (file hash : Z) (v : V) : Result unit * V :=
  match rounds 64 (hash_round file hash) v with
  | inr r => r
  | inl v => (Failure (MakeError InternalInvariant "" ""), v)
  end.

Definition digest_of (file hash : Z) (v : V) : Result chars * V :=
  match hash_file file hash v with
  | (Failure e, v) => (Failure e, v)
  | (Success _, v) =>
      let '((native, digest), v) := sym (CryptGetHashParam hash) v in
      match digest with
      | Some digest =>
          if sizeZ digest =? 32 then (Success (hex_digest digest), v)
          else (sha_failure "Unable to finish the local module SHA-256" native, v)
      | None => (sha_failure "Unable to finish the local module SHA-256" native, v)
      end
  end.

Definition FileSha256 (path : wide) (v : V) : Result chars * V :=
  match sym (CreateFile path) v with
  | (inl native, v) => (sha_failure "Unable to open the local module image for SHA-256" native, v)
  | (inr file, v) =>
      let no_hash native := sha_failure "Unable to initialize SHA-256 for the local module image" native in
      match sym CryptAcquireContext v with
      | (inl native, v) => (no_hash native, cleanup file 0 0 v)
      | (inr provider, v) =>
          match sym (CryptCreateHash provider) v with
          | (inl native, v) => (no_hash native, cleanup file provider 0 v)
          | (inr hash, v) => let '(r, v) := digest_of file hash v in (r, cleanup file provider hash v)
          end
      end
  end.

(** ** The proof for a module *)

Definition identity_match (p : LocalSymbolModuleProof) (unmatched : bool) : bool :=
  negb (bool_decide (mp_image_codeview_pdb_basename p = [])) && negb (bool_decide (mp_loaded_pdb_basename p = [])) &&
  negb (bool_decide (mp_image_codeview_guid p = [])) &&
  bool_decide (mp_image_codeview_guid p = mp_loaded_pdb_guid p) &&
  (mp_image_codeview_age p =? mp_loaded_pdb_age p) &&
  bool_decide (AsciiLower (mp_image_codeview_pdb_basename p) = AsciiLower (mp_loaded_pdb_basename p)) &&
  negb unmatched.

Definition CaptureModuleProof (m : KernelModule) (loaded : ModuleInfo) (v : V) : Result LocalSymbolModuleProof * V :=
  let op := "LocalSymbolResolver::Configure.CaptureModuleProof"%string in
  match sym (SymSrvGetFileIndexInfo (km_image_path m)) v with
  | (inl native, v) =>
      (symbols_failure ParseError "Unable to read the PE CodeView identity from the local module image"
         "LocalSymbolResolver::Configure.SymSrvGetFileIndexInfoW" native 0 0, v)
  | (inr index, v) =>
      match FileSha256 (km_image_path m) v with
      | (Failure e, v) => (Failure e, v)
      | (Success sha256, v) =>
          let '((path_error, pdb_path), v) := sym (CanonicalPath (mi_loaded_pdb_name loaded)) v in
          if negb (path_error =? 0) || bool_decide (pdb_path = []) || negb (is_absolute pdb_path) then
            (symbols_failure IoFailure "DbgHelp did not expose a canonical loaded PDB path" op (u64 path_error) 0 0, v)
          else
            match FileSha256 pdb_path v with
            | (Failure e, v) => (Failure e, v)
            | (Success pdb_sha256, v) =>
                let make := mkModuleProof (km_base m) (km_image_size m) (km_name m) (km_image_path m) sha256
                  (Symbol_WideToUtf8 (path_filename (ii_pdbfile index))) (GuidString (ii_guid index)) (ii_age index)
                  pdb_path (narrow (path_filename pdb_path)) pdb_sha256 (GuidString (mi_guid loaded)) (mi_age loaded) in
                if negb (identity_match (make false) (mi_unmatched loaded)) then
                  (symbols_failure VerificationMismatch
                     "Loaded PDB basename/GUID/age does not match the PE CodeView identity" op 0 0 0, v)
                else (Success (make true), v)
            end
      end
  end.

(** ** The session *)

Definition Reset (r : LocalSymbolResolver) (v : V) : LocalSymbolResolver * V :=
  (new_resolver, if ready r && session r then (sym SymCleanup v).2 else v).

Definition configure_failure {A} (c : ErrorCode) (msg : string) (native req comp : Z) : Result A :=
  symbols_failure c msg "LocalSymbolResolver::Configure" native req comp.

(** The directories of the entries, each once. *)
Fixpoint directories_of (entries : list wide) (directories : list wide) (v : V) : Result (list wide) * V :=
  match entries with
  | [] => (Success directories, v)
  | entry :: entries =>
      if negb (is_absolute entry) then
        (configure_failure InvalidArgument "Every local symbol path entry must be absolute" 0 0 0, v)
      else
        let not_found error :=
          configure_failure NotFound "Local symbol entry does not exist or is not a directory/PDB file" (u32 error) 0 0 in
        let '((error, directory), v) := sym (IsDirectory entry) v in
        if (directory : bool) then directories_of entries (set_insert (lexically_normal entry) directories) v
        else if negb (error =? 0) then (not_found error, v)
        else
          let '((error, regular), v) := sym (IsRegularFile entry) v in
          if (regular : bool) && bool_decide (Lower (path_extension entry) = wstr ".pdb") then
            directories_of entries (set_insert (lexically_normal (path_parent entry)) directories) v
          else (not_found error, v)
  end.
Definition search_path (directories : list wide) : wide :=
  foldl (λ path directory, path ++ (if bool_decide (path = []) then [] else [59]) ++ directory) [] directories.

Definition load_cancelled (control : LocalSymbolLoadControl) (v : V) : bool * V :=
  if lc_cancel_requested control then sym LoadCancel v else (false, v).
Definition store_loaded (control : LocalSymbolLoadControl) (count : Z) (v : V) : V :=
  if lc_completed control then (sym (StoreLoaded count) v).2 else v.
Definition store_modules (control : LocalSymbolLoadControl) (count : Z) (v : V) : V :=
  if lc_total control then (sym (StoreModules count) v).2 else v.

(** What a module adds: a proof, with the module left loaded, or why there is none. *)
Definition load_module (m : KernelModule) (v : V) : (LocalSymbolModuleProof + chars) * V :=
  let name := km_name m in
  if bool_decide (km_image_path m = []) || (km_image_size m =? 0) then
    (inr (name ++ str ": a verified local PE image is unavailable; symbols skipped"), v)
  else
    match sym (SymLoadModuleEx (km_image_path m) (Symbol_Utf8ToWide name) (km_base m) (km_image_size m)) v with
    | (inl native, v) => (inr (name ++ str ": local symbols unavailable (native=" ++ insert_int native ++ str ")"), v)
    | (inr loaded, v) =>
        let '((native, described), v) := sym (SymGetModuleInfo loaded) v in
        let inexact sym_type v :=
          (inr (name ++ str ": module registered but an exact PDB was not loaded (sym_type=" ++ insert_int sym_type ++
                str ", native=" ++ insert_int native ++ str ")"), (sym (SymUnloadModule loaded) v).2) in
        match described with
        | None => inexact (-1) v
        | Some info =>
            if negb (mi_sym_type info =? SymPdb) then inexact (mi_sym_type info) v
            else
              match CaptureModuleProof m info v with
              | (Failure e, v) => (inr (name ++ str ": " ++ str (message e)), (sym (SymUnloadModule loaded) v).2)
              | (Success proof, v) => (inl proof, v)
              end
        end
    end.

Definition count_module (outcome : LocalSymbolModuleProof + chars) (report : LocalSymbolLoadReport) : LocalSymbolLoadReport :=
  match outcome with
  | inl _ => mkLoadReport (lr_loaded_modules report + 1) (lr_failed_modules report) (lr_diagnostics report)
  | inr text => mkLoadReport (lr_loaded_modules report) (lr_failed_modules report + 1) (lr_diagnostics report ++ [text])
  end.
Definition keep_proof (outcome : LocalSymbolModuleProof + chars) (r : LocalSymbolResolver) : LocalSymbolResolver :=
  match outcome with inl proof => r <| proofs := proofs r ++ [proof] |> | inr _ => r end.

(** The loop over the modules, of which there are [total]. *)
Fixpoint load_loop (control : LocalSymbolLoadControl) (total index : Z) (modules : list KernelModule)
    (report : LocalSymbolLoadReport) (r : LocalSymbolResolver) (v : V) : Result LocalSymbolLoadReport * LocalSymbolResolver * V :=
  match modules with
  | [] => (Success report, r, v)
  | m :: modules =>
      let '(stop, v) := load_cancelled control v in
      if (stop : bool) then
        let '(r, v) := Reset r v in
        (configure_failure Cancelled "Local symbol loading was cancelled" 0 total index, r, v)
      else
        let '(outcome, v) := load_module m v in
        load_loop control total (index + 1) modules (count_module outcome report) (keep_proof outcome r)
          (store_loaded control (index + 1) v)
  end.

(** With the session initialised. *)
Definition load_all (control : LocalSymbolLoadControl) (modules : list KernelModule) (r : LocalSymbolResolver) (v : V)
    : Result LocalSymbolLoadReport * LocalSymbolResolver * V :=
  let total := sizeZ modules in
  match sym FindSymLoadModuleEx v with
  | (inl native, v) =>
      let '(r, v) := Reset r v in
      (symbols_failure NotFound "DbgHelp does not export SymLoadModuleExW"
         "LocalSymbolResolver::Configure.GetProcAddress" native 0 0, r, v)
  | (inr _, v) =>
      match load_loop control total 0 modules (mkLoadReport 0 0 []) r v with
      | (Failure e, r, v) => (Failure e, r, v)
      | (Success report, r, v) =>
          let '(stop, v) := load_cancelled control v in
          if (stop : bool) then
            let '(r, v) := Reset r v in
            (configure_failure Cancelled "Local symbol loading was cancelled" 0 total total, r, v)
          else if lr_loaded_modules report =? 0 then
            let '(r, v) := Reset r v in
            (configure_failure NotFound "DbgHelp did not load symbols for any enumerated kernel module" 0 total
               (lr_failed_modules report), r, v)
          else (Success report, r, v)
      end
  end.

Definition start_session (control : LocalSymbolLoadControl) (modules : list KernelModule) (path : wide)
    (r : LocalSymbolResolver) (v : V) : Result LocalSymbolLoadReport * LocalSymbolResolver * V :=
  if bool_decide (path = []) then
    (configure_failure InvalidArgument "No local symbol directory was configured" 0 0 0, r, v)
  else
    let r := r <| session := true |> in
    let '(_, v) := sym SymSetOptions v in
    match sym (SymInitialize path) v with
    | (inl native, v) =>
        (symbols_failure IoFailure "DbgHelp could not initialize the local symbol session"
           "LocalSymbolResolver::Configure.SymInitializeW" native 0 0, r <| session := false |>, v)
    | (inr _, v) => load_all control modules (r <| ready := true |>) v
    end.

(** [None] when the conversion of an entry throws. *)
Definition Configure (local_path : chars) (modules : list KernelModule) (control : LocalSymbolLoadControl)
    (r : LocalSymbolResolver) (v : V) : option (Result LocalSymbolLoadReport) * LocalSymbolResolver * V :=
  let '(r, v) := Reset r v in
  let v := store_modules control (sizeZ modules) (store_loaded control 0 v) in
  let '(stop, v) := load_cancelled control v in
  if (stop : bool) then
    (Some (configure_failure Cancelled "Local symbol loading was cancelled before initialization" 0 0 0), r, v)
  else if bool_decide (modules = []) then
    (Some (configure_failure InvalidArgument "Enumerate kernel modules before loading symbols" 0 0 0), r, v)
  else
    match ParseLocalSymbolPath local_path with
    | None => (None, r, v)
    | Some (Failure e) => (Some (Failure e), r, v)
    | Some (Success entries) =>
        match directories_of entries [] v with
        | (Failure e, v) => (Some (Failure e), r, v)
        | (Success directories, v) =>
            let '(result, r, v) := start_session control modules (search_path directories) r v in (Some result, r, v)
        end
    end.

(** ** Queries *)

Definition not_configured {A} (op : string) : Result A :=
  symbols_failure BackendDisconnected "Local symbol session is not configured" op 0 0 0.

Definition Resolve (address : Z) (r : LocalSymbolResolver) (v : V) : Result ResolvedKernelSymbol * V :=
  if negb (ready r) then (not_configured "LocalSymbolResolver::Resolve", v)
  else
    match sym (SymFromAddr address) v with
    | (inl native, v) =>
        (symbols_failure NotFound "No local symbol resolves this kernel address"
           "LocalSymbolResolver::Resolve.SymFromAddr" native 0 0, v)
    | (inr (name, symbol_address, displacement), v) => (Success (mkResolvedSymbol name symbol_address displacement), v)
    end.

Definition kMaximumSymbolName : Z := 2048.
Definition ResolveName (name : chars) (r : LocalSymbolResolver) (v : V) : Result ResolvedKernelSymbol * V :=
  if negb (ready r) then (not_configured "LocalSymbolResolver::ResolveName", v)
  else if bool_decide (name = []) || (kMaximumSymbolName <? sizeZ name) ||
          existsb (λ c, char_code c =? 0) name then
    (symbols_failure InvalidArgument "Symbol name is empty, oversized, or contains an embedded NUL"
       "LocalSymbolResolver::ResolveName" 0 kMaximumSymbolName (sizeZ name), v)
  else
    match sym (SymFromName name) v with
    | (inl native, v) =>
        (symbols_failure NotFound "No exact local symbol matches this name"
           "LocalSymbolResolver::ResolveName.SymFromName" native 0 0, v)
    | (inr (symbol, symbol_address), v) => (Success (mkResolvedSymbol symbol symbol_address 0), v)
    end.

Definition ProofForAddress (address : Z) (r : LocalSymbolResolver) : Result LocalSymbolModuleProof :=
  if negb (ready r) then not_configured "LocalSymbolResolver::ProofForAddress"
  else
    match List.find (λ p, proof_Contains p address) (proofs r) with
    | None =>
        symbols_failure NotFound "No identity-verified local PDB covers this kernel address"
          "LocalSymbolResolver::ProofForAddress" 0 0 0
    | Some proof => Success proof
    end.
End Resolver.
