(* ===== verification/SymbolTheorems.v ===== *)
(** The symbol resolver keeps DbgHelp's protocol: one session at a time, in which exactly
    the modules stay loaded whose PDB was proved to be the one their image names. *)

From stdpp Require Import list relations.
From S2P Require Import Prelude CppStd Wire Common Paths Iostream Host MemProcFs KernelModule SymbolResolver.
From Stdlib Require Import Ascii String.

#[local] Open Scope Z_scope.

(** ** The text of a GUID *)

Record guid_typed (g : GUID) : Prop := {
  gt_1 : is_u32 (Data1 g);
  gt_2 : 0 ≤ Data2 g ≤ u16_max;
  gt_3 : 0 ≤ Data3 g ≤ u16_max;
  gt_4 : Forall is_u8 (Data4 g) ∧ sizeZ (Data4 g) = 8
}.

Lemma hex_digits_length fuel n w : 0 ≤ n < 16 ^ Z.of_nat (S w) → (List.length (zdigits fuel 16 n) ≤ S w)%nat.
Proof.
  revert n w. induction fuel as [|fuel IH]; intros n w Hn; cbn [zdigits]; [cbn; lia|].
  destruct (Z.ltb_spec n 16) as [|Hge]; [cbn; lia|]. rewrite length_app. cbn [List.length].
  destruct w as [|w]; [change (16 ^ Z.of_nat 1) with 16 in Hn; lia|].
  rewrite Nat2Z.inj_succ, Z.pow_succ_r in Hn by lia.
  specialize (IH (n / 16) w). enough (List.length (zdigits fuel 16 (n / 16)) ≤ S w)%nat by lia. apply IH.
  split; [apply Z.div_pos; lia|apply Z.div_lt_upper_bound; lia].
Qed.
Lemma length_padded_hex w v : 0 ≤ v < 16 ^ Z.of_nat (S w) → List.length (padded_hex (S w) v) = S w.
Proof.
  intros Hv. unfold padded_hex, print_number. rewrite length_app, length_replicate, length_fmap.
  pose proof (hex_digits_length (Z.to_nat (Z.log2 v + 1)) v w Hv). lia.
Qed.
Lemma padded_hex_digits w v :
  padded_hex w v = digit_char false <$>
    replicate (w - List.length (zdigits (Z.to_nat (Z.log2 v + 1)) 16 v)) 0 ++ zdigits (Z.to_nat (Z.log2 v + 1)) 16 v.
Proof. unfold padded_hex, print_number. by rewrite fmap_app, fmap_replicate, length_fmap. Qed.
Lemma digits_value_zeros k ds : digits_value 16 (replicate k 0 ++ ds) = digits_value 16 ds.
Proof. unfold digits_value. induction k as [|k IH]; [done|]. exact IH. Qed.
Lemma padded_hex_value w v : 0 ≤ v → digits_value 16 (scan_digits 16 (padded_hex w v)).1 = v.
Proof.
  intros Hv. rewrite padded_hex_digits, <- (app_nil_r (digit_char false <$> _)), scan_digits_print; [|lia| |done].
  2:{ apply Forall_app. split; [apply Forall_replicate; lia|apply zdigits_range; lia]. }
  cbn [fst]. rewrite digits_value_zeros, zdigits_value; [done|lia|]. split; [done|].
  destruct (decide (v = 0)) as [->|Hv0]; [by vm_compute|].
  destruct (Z.log2_spec v) as [_ Hlt]; [lia|]. eapply Z.lt_le_trans; [exact Hlt|].
  pose proof (Z.log2_nonneg v). rewrite Z2Nat.id by lia. apply Z.pow_le_mono_l. lia.
Qed.
Lemma padded_hex_inj w v v' : 0 ≤ v → 0 ≤ v' → padded_hex w v = padded_hex w v' → v = v'.
Proof. intros Hv Hv' E. by rewrite <- (padded_hex_value w v), E, padded_hex_value. Qed.

Lemma padded_app_inj w v v' t t' :
  0 ≤ v < 16 ^ Z.of_nat (S w) → 0 ≤ v' < 16 ^ Z.of_nat (S w) →
  padded_hex (S w) v ++ t = padded_hex (S w) v' ++ t' → v = v' ∧ t = t'.
Proof.
  intros Hv Hv' E. apply app_inj_1 in E as [E ->]; [|by rewrite (length_padded_hex w v), (length_padded_hex w v')].
  split; [|done]. apply (padded_hex_inj (S w)); [lia..|done].
Qed.

Lemma guid_bytes g :
  guid_typed g → ∃ a b c d e f h i, Data4 g = [a; b; c; d; e; f; h; i] ∧ Forall (λ x, 0 ≤ x < 16 ^ Z.of_nat 2) [a; b; c; d; e; f; h; i].
Proof.
  intros [_ _ _ [Hf Hs]]. destruct (Data4 g) as [|a [|b [|c [|d [|e [|f [|h [|i [|j l]]]]]]]]]; unfold sizeZ in Hs; cbn in Hs; try lia.
  eexists _, _, _, _, _, _, _, _. split; [done|]. eapply Forall_impl; [exact Hf|]. intros x. unfold is_u8.
  change (16 ^ Z.of_nat 2) with 256. lia.
Qed.
(** The text without the check of its size, which always holds. *)
Definition guid_text (g : GUID) : chars :=
  let hex2 i := padded_hex 2 (byte_at (Data4 g) i) in
  padded_hex 8 (Data1 g) ++ hyphen :: padded_hex 4 (Data2 g) ++ hyphen :: padded_hex 4 (Data3 g) ++
  hyphen :: hex2 0 ++ hex2 1 ++ hyphen :: hex2 2 ++ hex2 3 ++ hex2 4 ++ hex2 5 ++ hex2 6 ++ hex2 7.
Lemma guid_text_bytes x y z a b c d e f h i :
  guid_text (mkGuid x y z [a; b; c; d; e; f; h; i]) =
  padded_hex 8 x ++ hyphen :: padded_hex 4 y ++ hyphen :: padded_hex 4 z ++ hyphen :: padded_hex 2 a ++ padded_hex 2 b ++
  hyphen :: padded_hex 2 c ++ padded_hex 2 d ++ padded_hex 2 e ++ padded_hex 2 f ++ padded_hex 2 h ++ padded_hex 2 i.
Proof. reflexivity. Qed.
Lemma guid_words g :
  guid_typed g → 0 ≤ Data1 g < 16 ^ Z.of_nat 8 ∧ 0 ≤ Data2 g < 16 ^ Z.of_nat 4 ∧ 0 ≤ Data3 g < 16 ^ Z.of_nat 4.
Proof.
  intros [H1 H2 H3 _]. unfold is_u32 in H1. change (16 ^ Z.of_nat 8) with 4294967296. change (16 ^ Z.of_nat 4) with 65536. lia.
Qed.
Lemma GuidString_text g : guid_typed g → GuidString g = guid_text g.
Proof.
  intros Hg. unfold GuidString. fold (guid_text g). cbv zeta. destruct (guid_words g Hg) as (H1 & H2 & H3).
  destruct (guid_bytes g Hg) as (a & b & c & d & e & f & h & i & E & Hf). rewrite !Forall_cons in Hf.
  assert (sizeZ (guid_text g) = 36) as ->; [|done].
  destruct g as [x y z l]. cbn in E, H1, H2, H3. subst l. rewrite guid_text_bytes. unfold sizeZ.
  repeat (rewrite length_app || cbn [List.length]). rewrite !length_padded_hex by tauto. done.
Qed.
(** The text of a GUID determines it. *)
Lemma GuidString_inj g g' : guid_typed g → guid_typed g' → GuidString g = GuidString g' → g = g'.
Proof.
  intros Hg Hg'. rewrite !GuidString_text by done.
  destruct (guid_words g Hg) as (H1 & H2 & H3), (guid_words g' Hg') as (H1' & H2' & H3').
  destruct (guid_bytes g Hg) as (a & b & c & d & e & f & h & i & E & Hf).
  destruct (guid_bytes g' Hg') as (a' & b' & c' & d' & e' & f' & h' & i' & E' & Hf').
  destruct g as [x y z l], g' as [x' y' z' l']. cbn in *. subst. rewrite !Forall_cons in Hf, Hf'.
  rewrite !guid_text_bytes.
  rewrite <- (app_nil_r (padded_hex 2 i)), <- (app_nil_r (padded_hex 2 i')). intros T.
  apply padded_app_inj in T as [-> T]; [|tauto..]. injection T as T.
  apply padded_app_inj in T as [-> T]; [|tauto..]. injection T as T.
  apply padded_app_inj in T as [-> T]; [|tauto..]. injection T as T.
  do 2 (apply padded_app_inj in T as [-> T]; [|tauto..]). injection T as T.
  do 6 (apply padded_app_inj in T as [-> T]; [|tauto..]). done.
Qed.

(** ** DbgHelp's protocol

    What a session has loaded, the latest first; no session is [None].  A call that the
    documentation does not allow in a state has no next state. *)

Abbreviation event := {c : SymbolCall & symbol_reply c}.
Definition ev (c : SymbolCall) (r : symbol_reply c) : event := existT c r.

Fixpoint remove_one (b : Z) (l : list Z) : option (list Z) :=
  match l with [] => None | x :: l => if x =? b then Some l else cons x <$> remove_one b l end.

Definition dbghelp_step (e : event) (s : option (list Z)) : option (option (list Z)) :=
  match e with existT c r =>
    match c return symbol_reply c → option (option (list Z)) with
    | SymInitialize _ => λ r, match s with None => Some (match r with inr _ => Some [] | inl _ => None end) | Some _ => None end
    | SymCleanup => λ _, match s with Some _ => Some None | None => None end
    | SymLoadModuleEx _ _ _ _ => λ r, l ← s; Some (Some (match r with inr b => b :: l | inl _ => l end))
    | SymUnloadModule b => λ r, l ← s; if (r : bool) then Some <$> remove_one b l else Some (Some l)
    | SymGetModuleInfo b => λ _, l ← s; if bool_decide (b ∈ l) then Some (Some l) else None
    | SymFromAddr _ | SymFromName _ => λ _, match s with Some _ => Some s | None => None end
    | _ => λ _, Some s
    end r
  end.
Definition dbghelp_run (calls : list event) (s : option (option (list Z))) : option (option (list Z)) :=
  foldr (λ e s, s ≫= dbghelp_step e) s calls.

(** Handles of files, providers and hashes: opened, and closed. *)
Definition handle_opened (e : event) : list (nat * Z) :=
  match e with existT c r =>
    match c return symbol_reply c → list (nat * Z) with
    | CreateFile _ => λ r, match r with inr h => [(O, h)] | inl _ => [] end
    | CryptAcquireContext => λ r, match r with inr h => [(1%nat, h)] | inl _ => [] end
    | CryptCreateHash _ => λ r, match r with inr h => [(2%nat, h)] | inl _ => [] end
    | _ => λ _, []
    end r
  end.
Definition handle_closed (e : event) : list (nat * Z) :=
  match projT1 e with
  | CloseFile h => [(O, h)]
  | CryptReleaseContext h => [(1%nat, h)]
  | CryptDestroyHash h => [(2%nat, h)]
  | _ => []
  end.
Definition all_opened (calls : list event) : list (nat * Z) := calls ≫= handle_opened.
Definition all_closed (calls : list event) : list (nat * Z) := calls ≫= handle_closed.

(** Calls that leave the session and the handles alone. *)
Record balanced (es : list event) : Prop := {
  bl_run s : dbghelp_run es (Some s) = Some s;
  bl_handles : all_opened es ≡ₚ all_closed es
}.
Definition plain_call (c : SymbolCall) : bool :=
  match c with
  | SymInitialize _ | SymCleanup | SymLoadModuleEx _ _ _ _ | SymUnloadModule _ | SymGetModuleInfo _ | SymFromAddr _
  | SymFromName _ | CreateFile _ | CryptAcquireContext | CryptCreateHash _ | CryptDestroyHash _ | CryptReleaseContext _
  | CloseFile _ => false
  | _ => true
  end.

Lemma dbghelp_app a b s : dbghelp_run (a ++ b) s = dbghelp_run a (dbghelp_run b s).
Proof. apply foldr_app. Qed.
Lemma dbghelp_cons e a s : dbghelp_run (e :: a) s = dbghelp_run a s ≫= dbghelp_step e.
Proof. done. Qed.
Lemma opened_app a b : all_opened (a ++ b) = all_opened a ++ all_opened b.
Proof. apply bind_app. Qed.
Lemma closed_app a b : all_closed (a ++ b) = all_closed a ++ all_closed b.
Proof. apply bind_app. Qed.
Lemma handles_opened_cons e a : all_opened (e :: a) = handle_opened e ++ all_opened a.
Proof. done. Qed.
Lemma handles_closed_cons e a : all_closed (e :: a) = handle_closed e ++ all_closed a.
Proof. done. Qed.

Lemma balanced_nil : balanced [].
Proof. done. Qed.
Lemma balanced_app a b : balanced a → balanced b → balanced (a ++ b).
Proof.
  intros [Ra Ha] [Rb Hb]. split; [intros s; by rewrite dbghelp_app, Rb|]. by rewrite opened_app, closed_app, Ha, Hb.
Qed.
Lemma balanced_plain c r : plain_call c = true → balanced [ev c r].
Proof. by destruct c. Qed.
Lemma balanced_cons e es : balanced [e] → balanced es → balanced (e :: es).
Proof. apply (balanced_app [e]). Qed.

Section Verified.
Context {V : Type} `{!Host SymbolCall symbol_reply V} `{WideText} (narrow : wide → chars).
Implicit Types l : Logged SymbolCall symbol_reply V.

(** A module is loaded at the base asked for, and what is loaded can be unloaded;
    handles of the cryptographic service are not null; a GUID has its widths. *)
Hypothesis loads_at_base : ∀ image name base size (v : V) b,
  (host (SymLoadModuleEx image name base size) v).1 = inr b → b = base.
Hypothesis unloads : ∀ b (v : V), (host (SymUnloadModule b) v).1 = true.
Hypothesis provider_valid : ∀ (v : V) h, (host CryptAcquireContext v).1 = inr h → h ≠ 0.
Hypothesis hash_valid : ∀ p (v : V) h, (host (CryptCreateHash p) v).1 = inr h → h ≠ 0.

(** [l'] comes from [l] by calls that satisfy [P]. *)
Definition adds (P : list event → Prop) l l' : Prop := ∃ es, lg_calls l' = es ++ lg_calls l ∧ P es.

Lemma adds_refl (P : list event → Prop) l : P [] → adds P l l.
Proof. by exists []. Qed.
Lemma adds_trans (P : list event → Prop) l l1 l2 : (∀ a b, P a → P b → P (a ++ b)) → adds P l l1 → adds P l1 l2 → adds P l l2.
Proof. intros HP (a & E & Ha) (b & E' & Hb). exists (b ++ a). split; [by rewrite E', E, app_assoc|]. by apply HP. Qed.
Lemma symbol_logged c l :
  host c l = ((host c (lg_host l)).1, mkLogged (host c (lg_host l)).2 (ev c (host c (lg_host l)).1 :: lg_calls l)).
Proof. apply host_logged. Qed.
Lemma adds_plain c l : plain_call c = true → adds balanced l (host c l).2.
Proof. intros Hc. rewrite symbol_logged. eexists [_]. split; [done|]. by apply balanced_plain. Qed.
Lemma adds_step l l1 l2 : adds balanced l l1 → adds balanced l1 l2 → adds balanced l l2.
Proof. apply adds_trans. intros. by apply balanced_app. Qed.

(** ** The hash of a file *)

Lemma hash_file_balanced file hash l : adds balanced l (hash_file file hash l).2.
Proof.
  unfold hash_file. pose proof (rounds_keeps (adds balanced l) (λ r, adds balanced l r.2) 64 (hash_round file hash) l) as Hk.
  destruct (rounds 64 (hash_round file hash) l) as [l'|[r l']]; apply Hk; try (by apply adds_refl).
  all: intros l1 H1; unfold hash_round; pose proof (adds_plain (FileRead file (64 * 1024)) l1 eq_refl) as H2.
  all: destruct (host (FileRead file (64 * 1024)) l1) as [[native|bytes] l2]; cbn [snd] in *; [by eapply adds_step|].
  all: case_bool_decide; [by eapply adds_step|].
  all: pose proof (adds_plain (CryptHashData hash bytes) l2 eq_refl) as H3.
  all: destruct (host (CryptHashData hash bytes) l2) as [[native|u] l3]; cbn [snd] in *.
  all: eapply adds_step; [exact H1|by eapply adds_step].
Qed.
Lemma digest_balanced file hash l : adds balanced l (digest_of file hash l).2.
Proof.
  unfold digest_of. pose proof (hash_file_balanced file hash l) as H1. destruct (hash_file file hash l) as [[u|e] l1]; [|done].
  pose proof (adds_plain (CryptGetHashParam hash) l1 eq_refl) as H2.
  destruct (host (CryptGetHashParam hash) l1) as [[native digest] l2]. cbn [snd] in *.
  assert (adds balanced l l2) by (by eapply adds_step). repeat case_match; done.
Qed.
Lemma cleanup_log file provider hash l :
  lg_calls (cleanup file provider hash l) =
    ev (CloseFile file) tt :: (if provider =? 0 then [] else [ev (CryptReleaseContext provider) tt]) ++
    (if hash =? 0 then [] else [ev (CryptDestroyHash hash) tt]) ++ lg_calls l.
Proof.
  unfold cleanup. cbv zeta. rewrite !symbol_logged. cbn [snd].
  destruct (hash =? 0), (provider =? 0); cbn [lg_calls lg_host app]; repeat f_equal.
  all: match goal with |- context [(host ?c ?v).1] => by destruct (host c v).1 end.
Qed.

(** Opening, using and giving back. *)
Lemma FileSha256_balanced path l : adds balanced l (FileSha256 path l).2.
Proof.
  unfold FileSha256. rewrite symbol_logged. destruct (host (CreateFile path) (lg_host l)) as [[native|file] v1]; cbn [fst snd].
  { by eexists [_]. }
  rewrite symbol_logged. cbn [lg_host lg_calls]. specialize (provider_valid v1).
  destruct (host CryptAcquireContext v1) as [[native|provider] v2]; cbn [fst snd] in *.
  { eexists [ev (CloseFile file) tt; ev CryptAcquireContext (inl native); ev (CreateFile path) (inr file)]. by rewrite cleanup_log. }
  specialize (provider_valid provider eq_refl). apply Z.eqb_neq in provider_valid.
  rewrite symbol_logged. cbn [lg_host lg_calls]. specialize (hash_valid provider v2).
  destruct (host (CryptCreateHash provider) v2) as [[native|hash] v3]; cbn [fst snd] in *.
  { eexists [ev (CloseFile file) tt; ev (CryptReleaseContext provider) tt; ev (CryptCreateHash provider) (inl native);
             ev CryptAcquireContext (inr provider); ev (CreateFile path) (inr file)].
    rewrite cleanup_log, provider_valid. split; [done|]. split; [done|]. cbn. solve_Permutation. }
  specialize (hash_valid hash eq_refl). apply Z.eqb_neq in hash_valid.
  match goal with |- context [digest_of file hash ?l1] => destruct (digest_balanced file hash l1) as (es & E & Hr & Hh);
    destruct (digest_of file hash l1) as [r l2] end.
  cbn [snd lg_calls] in *. exists ([ev (CloseFile file) tt; ev (CryptReleaseContext provider) tt; ev (CryptDestroyHash hash) tt] ++ es ++
    [ev (CryptCreateHash provider) (inr hash); ev CryptAcquireContext (inr provider); ev (CreateFile path) (inr file)]).
  rewrite cleanup_log, provider_valid, hash_valid, E. split; [by rewrite <- !app_assoc|]. split.
  - intros s. rewrite !dbghelp_app. cbn [dbghelp_run foldr mbind option_bind]. cbn. fold dbghelp_run. by rewrite Hr.
  - rewrite !opened_app, !closed_app, Hh. cbn. solve_Permutation.
Qed.

(** ** The proof *)

(** The calls contain what the proof states: what the image names is what was loaded. *)
Definition verified (p : LocalSymbolModuleProof) (calls : list event) : Prop :=
  mp_identity_match p = true ∧ is_absolute (mp_loaded_pdb_path p) = true ∧
  ∃ index native info,
    ev (SymSrvGetFileIndexInfo (mp_image_path p)) (inr index) ∈ calls ∧
    ev (SymGetModuleInfo (mp_module_base p)) (native, Some info) ∈ calls ∧
    mi_sym_type info = SymPdb ∧ mi_unmatched info = false ∧ ii_age index = mi_age info ∧
    (guid_typed (ii_guid index) → guid_typed (mi_guid info) → ii_guid index = mi_guid info) ∧
    AsciiLower (Symbol_WideToUtf8 (path_filename (ii_pdbfile index))) =
      AsciiLower (narrow (path_filename (mp_loaded_pdb_path p))).
Lemma verified_more p es calls : verified p calls → verified p (es ++ calls).
Proof.
  intros (Hm & Ha & index & native & info & H1 & H2 & H3). split; [done|]. split; [done|]. exists index, native, info.
  split; [by apply elem_of_app; right|]. by split; [apply elem_of_app; right|].
Qed.

Lemma CaptureModuleProof_spec m native info calls0 l :
  mi_sym_type info = SymPdb → ev (SymGetModuleInfo (km_base m)) (native, Some info) ∈ calls0 → lg_calls l = calls0 →
  let '(r, l') := CaptureModuleProof narrow m info l in
  adds balanced l l' ∧ match r with Success p => mp_module_base p = km_base m ∧ verified p (lg_calls l') | Failure _ => True end.
Proof.
  intros Ht Hi El. unfold CaptureModuleProof. cbv zeta.
  pose proof (adds_plain (SymSrvGetFileIndexInfo (km_image_path m)) l eq_refl) as A1. rewrite symbol_logged in *.
  destruct (host (SymSrvGetFileIndexInfo (km_image_path m)) (lg_host l)) as [[n|index] v1]; cbn [fst snd] in *; [done|].
  set (l1 := mkLogged v1 _) in *.
  assert (ev (SymSrvGetFileIndexInfo (km_image_path m)) (inr index) ∈ lg_calls l1) as M1 by (apply elem_of_cons; by left).
  assert (ev (SymGetModuleInfo (km_base m)) (native, Some info) ∈ lg_calls l1) as M2 by (apply elem_of_cons; right; by rewrite El).
  clearbody l1. clear Hi El calls0.
  pose proof (FileSha256_balanced (km_image_path m) l1) as A2. destruct (FileSha256 (km_image_path m) l1) as [[sha|e] l2]; cbn [snd] in A2.
  2:{ split; [by eapply adds_step|done]. }
  pose proof (adds_plain (CanonicalPath (mi_loaded_pdb_name info)) l2 eq_refl) as A3.
  destruct (host (CanonicalPath (mi_loaded_pdb_name info)) l2) as [[path_error pdb_path] l3]. cbn [snd] in A3.
  assert (adds balanced l1 l3) as A13 by (by eapply adds_step).
  destruct (_ || _ || _) eqn:Ep; [split; [by eapply adds_step|done]|].
  pose proof (FileSha256_balanced pdb_path l3) as A4. destruct (FileSha256 pdb_path l3) as [[pdb_sha|e] l4]; cbn [snd] in A4.
  2:{ split; [|done]. eapply adds_step; [exact A1|]. by eapply adds_step. }
  assert (adds balanced l1 l4) as A14 by (by eapply adds_step).
  assert (adds balanced l l4) as A by (by eapply adds_step).
  destruct (negb (identity_match _ _)) eqn:Em; [by split|]. split; [done|]. split; [done|].
  apply negb_false_iff in Em. unfold identity_match in Em. cbn [mp_image_codeview_pdb_basename mp_loaded_pdb_basename
    mp_image_codeview_guid mp_loaded_pdb_guid mp_image_codeview_age mp_loaded_pdb_age] in Em. boolify.
  destruct A14 as (es & E & _). rewrite E. apply verified_more. split; [done|]. split; [cbn; by boolify|].
  exists index, native, info. cbn [mp_image_path mp_module_base mp_loaded_pdb_path]. split_and!; try done.
  intros Hg1 Hg2. by apply GuidString_inj.
Qed.

(** ** One module *)

(** Handles given back, and the session turned from [s] into [s']. *)
Definition turns (s s' : list Z) (es : list event) : Prop :=
  all_opened es ≡ₚ all_closed es ∧ dbghelp_run es (Some (Some s)) = Some (Some s').

Lemma balanced_turns s es : balanced es → turns s s es.
Proof. intros [Hr Hh]. by split. Qed.
Lemma turns_app s s1 s2 a b : turns s1 s2 a → turns s s1 b → turns s s2 (a ++ b).
Proof.
  intros [Ha Ra] [Hb Rb]. split; [by rewrite opened_app, closed_app, Ha, Hb|]. by rewrite dbghelp_app, Rb.
Qed.
Lemma adds_turns s s1 s2 l l1 l2 : adds (turns s s1) l l1 → adds (turns s1 s2) l1 l2 → adds (turns s s2) l l2.
Proof. intros (a & E & Ha) (b & E' & Hb). exists (b ++ a). split; [by rewrite E', E, app_assoc|]. by eapply turns_app. Qed.
Lemma adds_quiet s l l' : adds balanced l l' → adds (turns s s) l l'.
Proof. intros (es & E & Hb). exists es. split; [done|]. by apply balanced_turns. Qed.

Lemma unload_turns s b l : adds (turns (b :: s) s) l (host (SymUnloadModule b) l).2.
Proof.
  rewrite symbol_logged, unloads. eexists [_]. split; [done|]. split; [done|]. cbn. by rewrite Z.eqb_refl.
Qed.

Lemma load_module_spec m s l :
  let '(outcome, l') := load_module narrow m l in
  match outcome with
  | inl p => adds (turns s (mp_module_base p :: s)) l l' ∧ verified p (lg_calls l')
  | inr _ => adds (turns s s) l l'
  end.
Proof.
  unfold load_module. cbv zeta. destruct (_ || _); [by apply adds_quiet, adds_refl|].
  rewrite symbol_logged.
  pose proof (loads_at_base (km_image_path m) (Symbol_Utf8ToWide (km_name m)) (km_base m) (km_image_size m) (lg_host l)) as Hb.
  destruct (host (SymLoadModuleEx _ _ _ _) (lg_host l)) as [[native|b] v1]; cbn [fst snd] in *.
  { eexists [_]. by split. }
  specialize (Hb b eq_refl) as ->. set (l1 := mkLogged v1 _).
  assert (adds (turns s (km_base m :: s)) l l1) as A1 by (eexists [_]; by split).
  clearbody l1. rewrite symbol_logged.
  destruct (host (SymGetModuleInfo (km_base m)) (lg_host l1)) as [[native described] v2]. cbn [fst snd]. set (l2 := mkLogged v2 _).
  assert (adds (turns s (km_base m :: s)) l l2) as A2.
  { eapply adds_turns; [exact A1|]. eexists [_]. split; [done|]. split; [done|]. cbn.
    by rewrite bool_decide_true by (apply elem_of_cons; by left). }
  assert (described = None ∨ ∃ info, described = Some info) as [->|[info ->]] by (destruct described; eauto).
  { eapply adds_turns; [exact A2|]. apply unload_turns. }
  destruct (Z.eqb_spec (mi_sym_type info) SymPdb) as [Ht|]; cbn [negb].
  2:{ eapply adds_turns; [exact A2|]. apply unload_turns. }
  pose proof (CaptureModuleProof_spec m native info (lg_calls l2) l2 Ht) as Hc.
  destruct (CaptureModuleProof narrow m info l2) as [r l3]. destruct Hc as [A3 Hv]; [by apply elem_of_cons; left|done|].
  assert (adds (turns s (km_base m :: s)) l l3) as A by (eapply adds_turns; [exact A2|by apply adds_quiet]).
  destruct r as [p|e].
  - destruct Hv as [-> Hv]. by split.
  - eapply adds_turns; [exact A|]. apply unload_turns.
Qed.

(** ** The resolver *)

Definition session_of (r : LocalSymbolResolver) : option (list Z) :=
  if ready r then Some (reverse (mp_module_base <$> proofs r)) else None.

(** What holds between the calls of the resolver. *)
Record resolver_ok (r : LocalSymbolResolver) (calls : list event) : Prop := {
  ro_session : session r = ready r;
  ro_protocol : dbghelp_run calls (Some None) = Some (session_of r);
  ro_idle : ready r = false → proofs r = [];
  ro_proofs : Forall (λ p, verified p calls) (proofs r);
  ro_handles : all_opened calls ≡ₚ all_closed calls
}.

Lemma new_resolver_ok : resolver_ok new_resolver [].
Proof. by split. Qed.

(** Calls that leave the session as the resolver has it. *)
Lemma ok_turns r r' l l' s s' :
  resolver_ok r (lg_calls l) → session_of r = Some s → adds (turns s s') l l' →
  session r' = ready r' → ready r' = true → session_of r' = Some s' →
  (∀ p, p ∈ proofs r' → p ∈ proofs r ∨ verified p (lg_calls l')) → resolver_ok r' (lg_calls l').
Proof.
  intros [R1 R2 R3 R4 R5] Hs (es & E & Hh & Hr) Hse Hre Hs' Hp. split; [done| |by rewrite Hre| |].
  - by rewrite E, dbghelp_app, R2, Hs, Hr, Hs'.
  - apply Forall_forall. intros p [Hin|Hv]%Hp; [|done]. rewrite E. apply verified_more. by eapply Forall_forall in R4.
  - by rewrite E, opened_app, closed_app, Hh, R5.
Qed.
Lemma ok_balanced r l l' : resolver_ok r (lg_calls l) → adds balanced l l' → resolver_ok r (lg_calls l').
Proof.
  intros [R1 R2 R3 R4 R5] (es & E & [Hr Hh]). rewrite E. split; [done| |done| |].
  - by rewrite dbghelp_app, R2, Hr.
  - eapply Forall_impl; [exact R4|]. intros p. apply verified_more.
  - by rewrite opened_app, closed_app, Hh, R5.
Qed.

Lemma Reset_ok r l :
  resolver_ok r (lg_calls l) → (Reset r l).1 = new_resolver ∧ resolver_ok new_resolver (lg_calls (Reset r l).2).
Proof.
  intros [R1 R2 R3 R4 R5]. unfold Reset. split; [done|]. cbn [snd]. rewrite R1, andb_diag. unfold session_of in R2.
  destruct (ready r); [|by split]. rewrite symbol_logged. cbn [snd lg_calls]. split; [done| |done..].
  by rewrite dbghelp_cons, R2.
Qed.
Lemma cancelled_ok control r l : resolver_ok r (lg_calls l) → resolver_ok r (lg_calls (load_cancelled control l).2).
Proof. intros Hr. unfold load_cancelled. split_goal_match; [|done]. eapply ok_balanced; [exact Hr|by apply (adds_plain LoadCancel)]. Qed.
Lemma store_loaded_ok control n r l : resolver_ok r (lg_calls l) → resolver_ok r (lg_calls (store_loaded control n l)).
Proof. intros Hr. unfold store_loaded. split_goal_match; [|done]. eapply ok_balanced; [exact Hr|by apply (adds_plain (StoreLoaded n))]. Qed.
Lemma store_modules_ok control n r l : resolver_ok r (lg_calls l) → resolver_ok r (lg_calls (store_modules control n l)).
Proof. intros Hr. unfold store_modules. split_goal_match; [|done]. eapply ok_balanced; [exact Hr|by apply (adds_plain (StoreModules n))]. Qed.

(** A method ends in a resolver that is reset, or ready, and either way in order. *)
Definition ends_ok {A} (x : A * LocalSymbolResolver * Logged SymbolCall symbol_reply V) : Prop :=
  resolver_ok x.1.2 (lg_calls x.2).

Lemma Reset_ends {A} (a : A) r l : resolver_ok r (lg_calls l) → ends_ok (let '(r, l) := Reset r l in (a, r, l)).
Proof. intros Hr. destruct (Reset_ok r l Hr) as [E H1]. destruct (Reset r l) as [r' l']. cbn in *. subst. exact H1. Qed.

Lemma load_one_ok m r l :
  resolver_ok r (lg_calls l) → ready r = true →
  resolver_ok (keep_proof (load_module narrow m l).1 r) (lg_calls (load_module narrow m l).2).
Proof.
  intros Hr Hre. assert (session_of r = Some (reverse (mp_module_base <$> proofs r))) as Hs by (unfold session_of; by rewrite Hre).
  pose proof (load_module_spec m (reverse (mp_module_base <$> proofs r)) l) as Hl.
  destruct (load_module narrow m l) as [[p|text] l']; cbn [fst snd keep_proof].
  - destruct Hl as [A Hv]. eapply ok_turns; [exact Hr|exact Hs|exact A|exact (ro_session _ _ Hr)|exact Hre| |].
    + unfold session_of. change (ready (r <| proofs := _ |>)) with (ready r). rewrite Hre.
      change (proofs (r <| proofs := _ |>)) with (proofs r ++ [p]). by rewrite fmap_app, reverse_app.
    + cbn. intros q [Hq|Hq%list_elem_of_singleton]%elem_of_app; [by left|right]. by subst.
  - eapply ok_turns; [exact Hr|exact Hs|exact Hl|exact (ro_session _ _ Hr)|exact Hre|exact Hs|]. by left.
Qed.
Lemma keep_proof_ready o r : ready (keep_proof o r) = ready r.
Proof. by destruct o. Qed.

Lemma module_loop_ok control total index modules report r l :
  resolver_ok r (lg_calls l) → ready r = true →
  let '(result, r', l') := load_loop narrow control total index modules report r l in
  resolver_ok r' (lg_calls l') ∧ (Ok result = true → ready r' = true).
Proof.
  revert index report r l. induction modules as [|m modules IH]; intros index report r l Hr Hre; cbn [load_loop]; [done|].
  pose proof (cancelled_ok control r l Hr) as H1. destruct (load_cancelled control l) as [stop l1]. cbn [snd] in H1. destruct stop.
  - pose proof (Reset_ends (A := Result LocalSymbolLoadReport)
      (configure_failure Cancelled "Local symbol loading was cancelled" 0 total index) r l1 H1) as He.
    destruct (Reset r l1). by split.
  - pose proof (load_one_ok m r l1 H1 Hre) as H2. destruct (load_module narrow m l1) as [o l2]. cbn [fst snd] in H2.
    apply IH; [by apply store_loaded_ok|by rewrite keep_proof_ready].
Qed.

Lemma load_all_ok control modules r l :
  resolver_ok r (lg_calls l) → ready r = true → ends_ok (load_all narrow control modules r l).
Proof.
  intros Hr Hre. unfold load_all. cbv zeta.
  assert (resolver_ok r (lg_calls (host FindSymLoadModuleEx l).2)) as H1.
  { eapply ok_balanced; [exact Hr|by apply (adds_plain FindSymLoadModuleEx)]. }
  destruct (host FindSymLoadModuleEx l) as [[native|u] l1]; cbn [snd] in H1; [by apply Reset_ends|].
  pose proof (module_loop_ok control (sizeZ modules) 0 modules (mkLoadReport 0 0 []) r l1 H1 Hre) as Hl.
  destruct (load_loop _ _ _ _ _ _ _ _) as [[[report|e] r2] l2]; destruct Hl as [H2 _]; [|done].
  pose proof (cancelled_ok control r2 l2 H2) as H3. destruct (load_cancelled control l2) as [stop l3]. cbn [snd] in H3.
  destruct stop; [by apply Reset_ends|]. destruct (_ =? 0); [by apply Reset_ends|done].
Qed.

Lemma directories_balanced entries directories l : adds balanced l (directories_of entries directories l).2.
Proof.
  revert directories l. induction entries as [|entry entries IH]; intros directories l; cbn [directories_of]; [by apply adds_refl|].
  destruct (negb (is_absolute entry)); [by apply adds_refl|]. cbv zeta.
  pose proof (adds_plain (IsDirectory entry) l eq_refl) as A1. destruct (host (IsDirectory entry) l) as [[error directory] l1].
  cbn [snd] in A1. destruct directory; [eapply adds_step; [exact A1|apply IH]|]. destruct (negb (error =? 0)); [done|].
  pose proof (adds_plain (IsRegularFile entry) l1 eq_refl) as A2. destruct (host (IsRegularFile entry) l1) as [[error' regular] l2].
  cbn [snd] in A2. assert (adds balanced l l2) by (by eapply adds_step).
  destruct (regular && _); [|done]. eapply adds_step; [done|apply IH].
Qed.

Lemma initialized_ok path (reply : Native unit) calls :
  resolver_ok new_resolver calls →
  resolver_ok (match reply with inr _ => mkResolver true true [] | inl _ => new_resolver end) (ev (SymInitialize path) reply :: calls).
Proof.
  intros [R1 R2 R3 R4 R5]. destruct reply; (split; [done| |done|constructor|done]); rewrite dbghelp_cons, R2; done.
Qed.
Lemma start_session_ok control modules path l :
  resolver_ok new_resolver (lg_calls l) → ends_ok (start_session narrow control modules path new_resolver l).
Proof.
  intros Hr. unfold start_session. destruct (bool_decide _); [done|]. cbv zeta.
  assert (resolver_ok new_resolver (lg_calls (host SymSetOptions l).2)) as H1.
  { eapply ok_balanced; [exact Hr|by apply (adds_plain SymSetOptions)]. }
  destruct (host SymSetOptions l) as [u l1]. cbn [snd] in H1. rewrite symbol_logged.
  destruct (host (SymInitialize path) (lg_host l1)) as [[native|u'] v2]; cbn [fst snd].
  - exact (initialized_ok path (inl native) _ H1).
  - apply load_all_ok; [|done]. exact (initialized_ok path (inr u') _ H1).
Qed.

Lemma Configure_ok path modules control r l :
  resolver_ok r (lg_calls l) → ends_ok (Configure narrow path modules control r l).
Proof.
  intros Hr. unfold Configure. destruct (Reset_ok r l Hr) as [E H0]. destruct (Reset r l) as [r0 l0]. cbn [fst snd] in *. subst r0.
  cbv zeta. set (l1 := store_modules control (sizeZ modules) (store_loaded control 0 l0)).
  assert (resolver_ok new_resolver (lg_calls l1)) as H1 by (by apply store_modules_ok, store_loaded_ok).
  pose proof (cancelled_ok control _ l1 H1) as H2. destruct (load_cancelled control l1) as [stop l2]. cbn [snd] in H2.
  destruct stop; [done|]. destruct (bool_decide _); [done|].
  destruct (ParseLocalSymbolPath path) as [[entries|e]|]; [|done..].
  pose proof (directories_balanced entries [] l2) as A. destruct (directories_of entries [] l2) as [[directories|e] l3]; cbn [snd] in A.
  - pose proof (start_session_ok control modules (search_path directories) l3) as Hs.
    destruct (start_session _ _ _ _ _ _) as [[result r4] l4]. apply Hs. by eapply ok_balanced.
  - by eapply ok_balanced.
Qed.

(** A query is only made in a session. *)
Lemma query_ok c r l :
  (∀ s x, dbghelp_step (ev c x) (Some s) = Some (Some s)) → (∀ x, handle_opened (ev c x) = []) → handle_closed (ev c (host c (lg_host l)).1) = [] →
  resolver_ok r (lg_calls l) → ready r = true → resolver_ok r (lg_calls (host c l).2).
Proof.
  intros Hs Ho Hc Hr Hre. eapply (ok_turns r r l); [exact Hr|unfold session_of; by rewrite Hre| |exact (ro_session _ _ Hr)|exact Hre|
    unfold session_of; by rewrite Hre|by left].
  rewrite symbol_logged. eexists [_]. split; [done|]. split; [by rewrite handles_opened_cons, handles_closed_cons, Ho, Hc|]. by rewrite dbghelp_cons; apply Hs.
Qed.
Lemma Resolve_ok address r l : resolver_ok r (lg_calls l) → resolver_ok r (lg_calls (Resolve address r l).2).
Proof.
  intros Hr. unfold Resolve. destruct (ready r) eqn:Hre; [|done]. cbn [negb].
  assert (resolver_ok r (lg_calls (host (SymFromAddr address) l).2)) as H1 by (by apply query_ok).
  by destruct (host (SymFromAddr address) l) as [[native|[[name a] d]] l1].
Qed.
Lemma ResolveName_ok name r l : resolver_ok r (lg_calls l) → resolver_ok r (lg_calls (ResolveName name r l).2).
Proof.
  intros Hr. unfold ResolveName. destruct (ready r) eqn:Hre; [|done]. cbn [negb]. destruct (_ || _); [done|].
  assert (resolver_ok r (lg_calls (host (SymFromName name) l).2)) as H1 by (by apply query_ok).
  by destruct (host (SymFromName name) l) as [[native|[symbol a]] l1].
Qed.

(** The public operations that change the resolver or call DbgHelp. *)
Inductive resolver_step : LocalSymbolResolver * Logged SymbolCall symbol_reply V → LocalSymbolResolver * Logged SymbolCall symbol_reply V → Prop :=
  | step_Configure path modules control r l o r' l' :
      Configure narrow path modules control r l = (o, r', l') → resolver_step (r, l) (r', l')
  | step_Reset r l r' l' : Reset r l = (r', l') → resolver_step (r, l) (r', l')
  | step_Resolve address r l o l' : Resolve address r l = (o, l') → resolver_step (r, l) (r, l')
  | step_ResolveName name r l o l' : ResolveName name r l = (o, l') → resolver_step (r, l) (r, l').
Definition resolver_reachable (v : V) (x : LocalSymbolResolver * Logged SymbolCall symbol_reply V) : Prop :=
  rtc resolver_step (new_resolver, mkLogged v []) x.

Lemma step_ok x y : resolver_step x y → resolver_ok x.1 (lg_calls x.2) → resolver_ok y.1 (lg_calls y.2).
Proof.
  intros Hs Hr. destruct Hs as [path modules control r l o r' l' E|r l r' l' E|address r l o l' E|name r l o l' E]; cbn [fst snd] in *.
  - pose proof (Configure_ok path modules control r l Hr) as H1. by rewrite E in H1.
  - destruct (Reset_ok r l Hr) as [E1 H1]. rewrite E in E1, H1. cbn in E1, H1. by subst.
  - pose proof (Resolve_ok address r l Hr) as H1. by rewrite E in H1.
  - pose proof (ResolveName_ok name r l Hr) as H1. by rewrite E in H1.
Qed.

End Verified.
