(* ===== verification/KernelDemo.v ===== *)
(** Concrete systems for the module catalog and the symbol resolver: one driver with a
    small image file, and a DbgHelp that loads it. *)

From stdpp Require Import list relations sorting.
From S2P Require Import Prelude CppStd Wire Common Paths Iostream Host MemProcFs ProcessMemory PointerScanner PointerScanTheorems BridgeDemo KernelModule KernelCatalog KernelCatalogTheorems SymbolResolver SymbolTheorems.
From Stdlib Require Import Ascii String.

#[local] Open Scope Z_scope.

#[local] Instance demo_sort : StdSort :=
  {| std_sort := @insertion_sort; std_sort_perm := insertion_sort_perm; std_sort_sorted := insertion_sort_sorted |}.

(** ** An image, and a system with one driver *)

Definition demo_image : list Z :=
  foldr (λ f image, patch image f.1 (le_bytes f.2.1 f.2.2)) (replicate 512 0)
    [(0, (2, 0x5A4D)); (0x3C, (4, 0x80)); (0x80, (4, 0x4550)); (0x84, (2, 0x8664)); (0x86, (2, 5));
     (0x88, (4, 0x65ABCDEF)); (0x94, (2, 0xF0)); (0x98, (2, 0x20B)); (0xD0, (4, 0x123000)); (0xD8, (4, 0x89ABCDEF))].
Definition demo_metadata : PeImageMetadata := mkPeImageMetadata 0x8664 5 0x65ABCDEF 0x123000 0x89ABCDEF.

Example demo_image_read : ParsePe64ImageMetadata demo_image = Success demo_metadata.
Proof. vm_compute. reflexivity. Qed.

Definition demo_path : wide := wstr "C:\Windows\k.sys".
(** The open file and the position in it. *)
Definition DemoStream : Type := list Z * nat.
#[export] Instance demo_catalog : Host CatalogCall catalog_reply DemoStream := λ c '(text, position),
  match c return catalog_reply c * DemoStream with
  | OpenProcessToken => (inr 5, (text, position))
  | LookupPrivilegeValue => (inr tt, (text, position))
  | AdjustTokenPrivileges _ => (inr 0, (text, position))
  | RestoreTokenPrivileges _ | CloseToken _ | StoreCompleted _ | StoreTotal _ => (tt, (text, position))
  | EnumDeviceDriversSize => (inr 24, (text, position))
  | EnumDeviceDrivers _ => (inr (24, [0xFFFFF80000200000; 0; 0xFFFFF80000100000]), (text, position))
  | GetDeviceDriverFileName a => (if a =? 0xFFFFF80000100000 then wstr "\SystemRoot\k.sys" else [], (text, position))
  | GetDeviceDriverBaseName a => (if a =? 0xFFFFF80000100000 then wstr "k.sys" else [], (text, position))
  | GetWindowsDirectory => (wstr "C:\Windows", (text, position))
  | QueryDosDevice _ => (None, (text, position))
  | StreamOpen p => if bool_decide (p = demo_path) then (true, (demo_image, O)) else (false, (text, position))
  | StreamRead count => (take (Z.to_nat count) (drop position text), (text, (position + Z.to_nat count)%nat))
  | StreamSeekBegin => (tt, (text, O))
  | LoadCancelRequested => (false, (text, position))
  end.
#[export] Instance demo_files : ImageFiles (V := DemoStream).
Proof.
  refine {| image_file := λ _ p, if bool_decide (p = demo_path) then Some demo_image else None;
            stream_text := fst; stream_position := snd |}.
  - done.
  - intros p [text position]. unfold host, demo_catalog. by case_bool_decide.
  - by intros count [text position].
  - by intros [text position].
Defined.
Definition demo_control : KernelModuleEnumerationControl := mkControl true true true false.
Definition demo_snapshot : KernelModuleSnapshot :=
  mkKernelModuleSnapshot
    [mkKernelModule 0xFFFFF80000100000 0x123000 0x65ABCDEF 0x89ABCDEF (str "k.sys") demo_path metadata_verified;
     mkKernelModule 0xFFFFF80000200000 0 0 0 unnamed [] "Windows did not expose an image path; size/PE metadata unavailable"]
    [bad_base].

Lemma kernel_modules_exact_witness :
  (EnumerateKernelModules demo_control (([], O) : DemoStream)).1 = Success demo_snapshot ∧
  ∃ bases, catalog_true demo_control (image_file (([], O) : DemoStream)) bases demo_snapshot.
Proof.
  assert ((EnumerateKernelModules demo_control (([], O) : DemoStream)).1 = Success demo_snapshot) as E by by vm_compute.
  split; [exact E|]. destruct (kernel_modules_exact _ _ _ E) as (bases & _ & Hc). exists bases. exact Hc.
Defined.

Lemma privilege_scoped_witness :
  given_back (lg_calls (EnumerateKernelModules demo_control (mkLogged (([], O) : DemoStream) [])).2) ∧
  tokens token_enabled (lg_calls (EnumerateKernelModules demo_control (mkLogged (([], O) : DemoStream) [])).2) = [5].
Proof.
  split; [|by vm_compute]. apply privilege_scoped. intros [text position] t E. by injection E as <-.
Defined.

(** ** A DbgHelp that loads the driver *)

Definition demo_guid : GUID := mkGuid 0x12345678 0x9ABC 0xDEF0 [1; 2; 3; 4; 5; 6; 7; 8].
(** The bytes of the file that were not read yet. *)
#[export] Instance demo_symbols : Host SymbolCall symbol_reply (list Z) := λ c unread,
  match c return symbol_reply c * list Z with
  | SymSetOptions | SymCleanup | CryptDestroyHash _ | CryptReleaseContext _ | CloseFile _ | StoreLoaded _ | StoreModules _ =>
      (tt, unread)
  | SymInitialize _ | FindSymLoadModuleEx | CryptHashData _ _ => (inr tt, unread)
  | SymLoadModuleEx _ _ base _ => (inr base, unread)
  | SymGetModuleInfo _ => ((0, Some (mkModuleInfo SymPdb (wstr "C:\sym\K.pdb") demo_guid 7 false)), unread)
  | SymUnloadModule _ => (true, unread)
  | SymSrvGetFileIndexInfo _ => (inr (mkIndexInfo (wstr "k.pdb") demo_guid 7), unread)
  | SymFromAddr a => (inr (str "KeBugCheckEx", a - 1, 1), unread)
  | SymFromName _ => (inr (str "KeBugCheckEx", 0xFFFFF80000101000), unread)
  | CanonicalPath p => ((0, p), unread)
  | IsDirectory _ => ((0, true), unread)
  | IsRegularFile _ => ((0, false), unread)
  | CreateFile _ => (inr 1, [1; 2; 3])
  | CryptAcquireContext => (inr 2, unread)
  | CryptCreateHash _ => (inr 3, unread)
  | FileRead _ count => (inr (take (Z.to_nat count) unread), drop (Z.to_nat count) unread)
  | CryptGetHashParam _ => ((0, Some (replicate 32 0xA5)), unread)
  | LoadCancel => (false, unread)
  end.
Definition demo_narrow (value : wide) : chars := byte_chars value.
Definition demo_load := Configure demo_narrow (str "C:\sym") (ks_modules demo_snapshot) (mkLoadControl true true true)
  new_resolver (mkLogged ([] : list Z) []).

