(* ===== verification/DriverService.v ===== *)
(** [core/windows/DriverService]: installing, starting, stopping, removing and restoring
    the service of a kernel driver, through the service control manager. *)

From stdpp Require Import list.
From S2P Require Import Prelude CppStd Common Paths Host.
From Stdlib Require Import Ascii String.

#[local] Open Scope Z_scope.

(** ** Windows *)

Definition SC_MANAGER_CONNECT : Z := 1.
Definition SC_MANAGER_CREATE_SERVICE : Z := 2.
Definition SERVICE_QUERY_CONFIG : Z := 0x1.
Definition SERVICE_CHANGE_CONFIG : Z := 0x2.
Definition SERVICE_QUERY_STATUS : Z := 0x4.
Definition SERVICE_START : Z := 0x10.
Definition SERVICE_STOP : Z := 0x20.
Definition DELETE : Z := 0x10000.

Definition SERVICE_STOPPED : Z := 1.
Definition SERVICE_START_PENDING : Z := 2.
Definition SERVICE_STOP_PENDING : Z := 3.
Definition SERVICE_RUNNING : Z := 4.

Definition SERVICE_KERNEL_DRIVER : Z := 1.
Definition SERVICE_DEMAND_START : Z := 3.
Definition SERVICE_ERROR_NORMAL : Z := 1.

Definition ERROR_INVALID_DATA : Z := 13.
Definition ERROR_INSUFFICIENT_BUFFER : Z := 122.
Definition WAIT_TIMEOUT : Z := 258.
Definition ERROR_SERVICE_ALREADY_RUNNING : Z := 1056.
Definition ERROR_SERVICE_DOES_NOT_EXIST : Z := 1060.
Definition ERROR_SERVICE_CANNOT_ACCEPT_CTRL : Z := 1061.
Definition ERROR_SERVICE_NOT_ACTIVE : Z := 1062.
Definition ERROR_SERVICE_SPECIFIC_ERROR : Z := 1066.
Definition ERROR_SERVICE_MARKED_FOR_DELETE : Z := 1072.
Definition CSTR_EQUAL : Z := 2.

(** [SERVICE_STATUS_PROCESS], 36 bytes, and [QUERY_SERVICE_CONFIGW]: the fields used. *)
Record ServiceStatus := mkServiceStatus {
  dwCurrentState : Z;
  dwWin32ExitCode : Z;
  dwServiceSpecificExitCode : Z;
  dwWaitHint : Z
}.
Definition sizeof_ServiceStatus : Z := 36.
Record ServiceConfig := mkServiceConfig {
  dwServiceType : Z;
  dwStartType : Z;
  dwErrorControl : Z;
  lpBinaryPathName : option wide;
  lpDisplayName : option wide
}.

Inductive ServiceCall :=
  | CanonicalPath (p : wide)
  | IsRegularFile (p : wide)
  | CompareStringOrdinal (s t : wide)            (* ignoring case *)
  | OpenSCManager (access : Z)
  | OpenService (manager : Z) (name : wide) (access : Z)
  | CreateService (manager : Z) (name : wide) (access : Z) (config : ServiceConfig)
  | ChangeServiceConfig (service : Z) (config : ServiceConfig)
  | QueryServiceStatusEx (service : Z)
  | QueryServiceConfigSize (service : Z)
  | QueryServiceConfig (service bytes : Z)
  | StartService (service : Z)
  | ControlServiceStop (service : Z)
  | DeleteService (service : Z)
  | CloseServiceHandle (handle : Z)
  | SteadyClockNow                               (* nanoseconds *)
  | Sleep (milliseconds : Z).

(** A handle that is answered is not null: a null handle is the native error. *)
Definition service_reply (c : ServiceCall) : Type :=
  match c with
  | CanonicalPath _ => Z * wide                  (* error, and the path *)
  | IsRegularFile _ => Z * bool
  | CompareStringOrdinal _ _ => Z
  | OpenSCManager _ | OpenService _ _ _ | CreateService _ _ _ _ => Native Z
  | ChangeServiceConfig _ _ => Native unit
  | QueryServiceStatusEx _ => Native (Z * ServiceStatus)
  | QueryServiceConfigSize _ => Z * Z            (* the last error, and the size needed *)
  | QueryServiceConfig _ _ => Native ServiceConfig
  | StartService _ | ControlServiceStop _ | DeleteService _ => Native unit
  | CloseServiceHandle _ => unit
  | SteadyClockNow => Z
  | Sleep _ => unit
  end.

Record DriverServiceConfiguration := mkDriverServiceConfiguration {
  exists_ : bool;
  running_ : bool;
  service_type : Z;
  start_type : Z;
  error_control : Z;
  binary_path : wide;
  display_name : wide
}.
Definition no_configuration : DriverServiceConfiguration := mkDriverServiceConfiguration false false 0 0 0 [] [].

(** 30 seconds. *)
Definition kServiceTimeout : Z := 30 * 1000000000.
Definition kMaximumConfigBytes : Z := 64 * 1024.
Definition kMaximumServiceText : Z := 256.
Definition kMaximumDriverPath : Z := 32765.

Definition IsValidServiceText (value : wide) : bool :=
  negb (bool_decide (value = [])) && (sizeZ value <=? kMaximumServiceText) && negb (bool_decide (0 ∈ value)).
(** A text up to its first null character, as Windows reads and writes it. *)
Definition c_str (value : wide) : wide := up_to 0 value.
Definition out_of_time : Error := MakeError InternalInvariant "" "".

Section DriverService.
Context {O : Type} `{!Host ServiceCall service_reply O}.
Abbreviation M := (Exec O).

Definition call (c : ServiceCall) : M (service_reply c) := λ o, let '(r, o) := host c o in (Success r, o).
Definition fails {A} (c : ErrorCode) (msg op : string) (native : Z) : M A := leave (MakeErrorFull c msg op native 0 0).
Definition ServiceError {A} (msg op : string) (native : Z) : M A := fails IoFailure msg op native.
Definition check (ok : bool) (msg op : string) : M unit :=
  if ok then mret tt else leave (MakeError InvalidArgument msg op).

(** [ScHandle]: the handle is closed when the function leaves its scope, on every path. *)
Definition scoped {A} (handle : Z) (m : M A) : M A := λ o,
  let '(r, o) := m o in (r, (host (CloseServiceHandle handle) o).2).
Definition with_manager {A} (access : Z) (op : string) (body : Z → M A) : M A :=
  opened ← call (OpenSCManager access);
  match opened with
  | inl native => ServiceError "OpenSCManagerW failed" op native
  | inr manager => scoped manager (body manager)
  end.

(** ** Status *)

Definition QueryStatus (service : Z) (op : string) : M ServiceStatus :=
  queried ← call (QueryServiceStatusEx service);
  match queried with
  | inl native => ServiceError "QueryServiceStatusEx failed" op native
  | inr (bytes, status) =>
      if negb (bytes =? sizeof_ServiceStatus) then
        leave (MakeErrorFull IoFailure "QueryServiceStatusEx returned an unexpected size" op
                 ERROR_INVALID_DATA sizeof_ServiceStatus bytes)
      else mret status
  end.

Definition exit_code (status : ServiceStatus) : Z :=
  if dwWin32ExitCode status =? ERROR_SERVICE_SPECIFIC_ERROR then dwServiceSpecificExitCode status
  else dwWin32ExitCode status.
Definition wait_hint (status : ServiceStatus) : Z := Z.max 50 (Z.min 1000 (dwWaitHint status `div` 10)).

(** One round of the loop: go on, or the outcome. *)
Definition wait_state_round (service desired deadline : Z) (op : string) (o : O) : O + Result unit * O :=
  let failure msg native := Failure (MakeErrorFull IoFailure msg op native 0 0) in
  match QueryStatus service op o with
  | (Failure e, o) => inr (Failure e, o)
  | (Success status, o) =>
      if dwCurrentState status =? desired then inr (Success tt, o)
      else if (dwCurrentState status =? SERVICE_STOPPED) && negb (desired =? SERVICE_STOPPED) then
        inr (failure "Driver service stopped before reaching the requested state" (exit_code status), o)
      else
        let '(now, o) := host SteadyClockNow o in
        if deadline <=? now then inr (failure "Timed out waiting for driver service state" WAIT_TIMEOUT, o)
        else let '(_, o) := host (Sleep (wait_hint status)) o in inl o
  end.
(** A loop that ends by the clock. *)
Definition until_done (round : O → O + Result unit * O) : M unit := λ o,
  match rounds 64 round o with inr r => r | inl o => (Failure out_of_time, o) end.
Definition WaitForState (service desired timeout : Z) (op : string) : M unit :=
  start ← call SteadyClockNow; until_done (wait_state_round service desired (start + timeout) op).

Definition wait_deletion_round (manager : Z) (name : wide) (deadline : Z) (op : string) (o : O) : O + Result unit * O :=
  let failure msg native := Failure (MakeErrorFull IoFailure msg op native 0 0) in
  let '(now, o) := host SteadyClockNow o in
  if deadline <=? now then
    inr (failure "Timed out waiting for driver service deletion; close all service handles or reboot the lab VM"
           WAIT_TIMEOUT, o)
  else
    match host (OpenService manager name SERVICE_QUERY_STATUS) o with
    | (inl error, o) =>
        if error =? ERROR_SERVICE_DOES_NOT_EXIST then inr (Success tt, o)
        else if negb (error =? ERROR_SERVICE_MARKED_FOR_DELETE) then
          inr (failure "OpenServiceW failed while waiting for deletion" error, o)
        else let '(_, o) := host (Sleep 100) o in inl o
    | (inr service, o) =>
        let '(_, o) := host (Sleep 100) o in
        let '(_, o) := host (CloseServiceHandle service) o in inl o
    end.
Definition WaitForDeletion (manager : Z) (name : wide) (op : string) : M unit :=
  start ← call SteadyClockNow; until_done (wait_deletion_round manager name (start + kServiceTimeout) op).

(** ** Configuration *)

Definition read_configuration (service : Z) (op : string) : M DriverServiceConfiguration :=
  '(sizing_error, required) ← call (QueryServiceConfigSize service);
  if negb (sizing_error =? ERROR_INSUFFICIENT_BUFFER) || (required =? 0) || (kMaximumConfigBytes <? required) then
    leave (MakeErrorFull IoFailure "QueryServiceConfigW returned an invalid configuration size" op
             sizing_error kMaximumConfigBytes required)
  else
    queried ← call (QueryServiceConfig service required);
    match queried with
    | inl native => ServiceError "QueryServiceConfigW failed" op native
    | inr config =>
        status ← QueryStatus service op;
        let state := dwCurrentState status in
        if negb (state =? SERVICE_STOPPED) && negb (state =? SERVICE_RUNNING) then
          fails IoFailure "Driver service is in a pending state; wait for it to settle before repair" op
            ERROR_SERVICE_CANNOT_ACCEPT_CTRL
        else
          match lpBinaryPathName config, lpDisplayName config with
          | Some path, Some display =>
              mret (mkDriverServiceConfiguration true (state =? SERVICE_RUNNING) (dwServiceType config)
                      (dwStartType config) (dwErrorControl config) (c_str path) (c_str display))
          | _, _ => fails IoFailure "Driver service configuration contains null text fields" op ERROR_INVALID_DATA
          end
    end.
Definition QueryConfigurationWithManager (manager : Z) (name : wide) (op : string) : M DriverServiceConfiguration :=
  opened ← call (OpenService manager name (Z.lor SERVICE_QUERY_CONFIG SERVICE_QUERY_STATUS));
  match opened with
  | inl error =>
      if (error =? ERROR_SERVICE_DOES_NOT_EXIST) || (error =? ERROR_SERVICE_MARKED_FOR_DELETE) then mret no_configuration
      else fails IoFailure "OpenServiceW failed while querying driver configuration" op error
  | inr service => scoped service (read_configuration service op)
  end.

Definition configure_access : Z := Z.lor SERVICE_CHANGE_CONFIG (Z.lor SERVICE_QUERY_CONFIG SERVICE_QUERY_STATUS).

(** ** Installing *)

Definition driver_config (path display : wide) : ServiceConfig :=
  mkServiceConfig SERVICE_KERNEL_DRIVER SERVICE_DEMAND_START SERVICE_ERROR_NORMAL (Some (c_str path)) (Some (c_str display)).

Definition find_driver (driver_path : wide) (op : string) : M wide :=
  let missing := leave (MakeError InvalidArgument "Driver .sys path does not exist" op) in
  '(error, absolute) ← call (CanonicalPath driver_path);
  if negb (error =? 0) then missing
  else
    '(error, regular) ← call (IsRegularFile absolute);
    if negb (regular : bool) || negb (error =? 0) then missing
    else
      order ← call (CompareStringOrdinal (path_extension absolute) (wstr ".sys"));
      if negb (order =? CSTR_EQUAL) then missing else mret absolute.

Definition install_with (manager : Z) (name display path : wide) : M unit :=
  let op := "DriverService::InstallOrUpdate" in
  opened ← call (OpenService manager name configure_access);
  match opened with
  | inl open_error =>
      _ ← (if open_error =? ERROR_SERVICE_MARKED_FOR_DELETE then WaitForDeletion manager name op
           else if negb (open_error =? ERROR_SERVICE_DOES_NOT_EXIST) then fails IoFailure "OpenServiceW failed" op open_error
           else mret tt);
      created ← call (CreateService manager name configure_access (driver_config path display));
      match created with
      | inl native => ServiceError "CreateServiceW failed" "InstallOrUpdate" native
      | inr service => scoped service (mret tt)
      end
  | inr service =>
      scoped service
        (changed ← call (ChangeServiceConfig service (driver_config path display));
         match changed with
         | inl native => ServiceError "ChangeServiceConfigW failed" "InstallOrUpdate" native
         | inr _ => mret tt
         end)
  end.
Definition InstallOrUpdate (name display driver_path : wide) : M unit :=
  let op := "DriverService::InstallOrUpdate" in
  _ ← check (IsValidServiceText name && IsValidServiceText display) "Invalid driver service name or display name" op;
  path ← find_driver driver_path op;
  _ ← check (sizeZ path <=? kMaximumDriverPath) "Driver path is too long for the service configuration" op;
  with_manager (Z.lor SC_MANAGER_CONNECT SC_MANAGER_CREATE_SERVICE) "InstallOrUpdate"
    (λ manager, install_with manager name display path).

(** ** Starting and stopping *)

Definition invalid_name : string := "Invalid driver service name".

Definition start_opened (service : Z) : M unit :=
  let op := "DriverService::Start" in
  status ← QueryStatus service op;
  let state := dwCurrentState status in
  if state =? SERVICE_RUNNING then mret tt
  else if state =? SERVICE_START_PENDING then WaitForState service SERVICE_RUNNING kServiceTimeout op
  else
    _ ← (if state =? SERVICE_STOP_PENDING then WaitForState service SERVICE_STOPPED kServiceTimeout op
         else if negb (state =? SERVICE_STOPPED) then
           fails IoFailure "Driver service is not in a startable state" op ERROR_SERVICE_CANNOT_ACCEPT_CTRL
         else mret tt);
    started ← call (StartService service);
    _ ← (match started with
         | inl error =>
             if negb (error =? ERROR_SERVICE_ALREADY_RUNNING) then fails IoFailure "StartServiceW failed" op error
             else mret tt
         | inr _ => mret tt
         end);
    WaitForState service SERVICE_RUNNING kServiceTimeout op.
Definition Start (name : wide) : M unit :=
  let op := "DriverService::Start" in
  _ ← check (IsValidServiceText name) invalid_name op;
  with_manager SC_MANAGER_CONNECT op (λ manager,
    opened ← call (OpenService manager name (Z.lor SERVICE_START SERVICE_QUERY_STATUS));
    match opened with
    | inl native => ServiceError "OpenServiceW failed" op native
    | inr service => scoped service (start_opened service)
    end).

(** What is left once a service that can be stopped is asked to. *)
Definition stop_running (service : Z) : M unit :=
  let op := "DriverService::Stop" in
  let refused error := fails IoFailure "ControlService(SERVICE_CONTROL_STOP) failed" op error in
  asked ← call (ControlServiceStop service);
  match asked with
  | inr _ => WaitForState service SERVICE_STOPPED kServiceTimeout op
  | inl error =>
      if error =? ERROR_SERVICE_NOT_ACTIVE then mret tt
      else if error =? ERROR_SERVICE_CANNOT_ACCEPT_CTRL then
        current ← outcome (QueryStatus service op);
        match current with
        | Success status =>
            if dwCurrentState status =? SERVICE_STOPPED then mret tt
            else if dwCurrentState status =? SERVICE_STOP_PENDING then
              WaitForState service SERVICE_STOPPED kServiceTimeout op
            else refused error
        | Failure _ => refused error
        end
      else refused error
  end.
Definition stop_opened (service : Z) : M unit :=
  let op := "DriverService::Stop" in
  status ← QueryStatus service op;
  let state := dwCurrentState status in
  if state =? SERVICE_STOPPED then mret tt
  else if state =? SERVICE_STOP_PENDING then WaitForState service SERVICE_STOPPED kServiceTimeout op
  else if state =? SERVICE_START_PENDING then
    started ← outcome (WaitForState service SERVICE_RUNNING kServiceTimeout op);
    match started with
    | Success _ => stop_running service
    | Failure e =>
        final_status ← outcome (QueryStatus service op);
        match final_status with
        | Success status => if dwCurrentState status =? SERVICE_STOPPED then mret tt else leave e
        | Failure _ => leave e
        end
    end
  else stop_running service.
Definition Stop (name : wide) : M unit :=
  let op := "DriverService::Stop" in
  _ ← check (IsValidServiceText name) invalid_name op;
  with_manager SC_MANAGER_CONNECT op (λ manager,
    opened ← call (OpenService manager name (Z.lor SERVICE_STOP SERVICE_QUERY_STATUS));
    match opened with
    | inl error =>
        if error =? ERROR_SERVICE_DOES_NOT_EXIST then mret tt
        else if error =? ERROR_SERVICE_MARKED_FOR_DELETE then WaitForDeletion manager name op
        else ServiceError "OpenServiceW failed" op error
    | inr service => scoped service (stop_opened service)
    end).

Definition Remove (name : wide) : M unit :=
  let op := "DriverService::Remove" in
  _ ← check (IsValidServiceText name) invalid_name op;
  _ ← Stop name;
  with_manager SC_MANAGER_CONNECT op (λ manager,
    opened ← call (OpenService manager name DELETE);
    match opened with
    | inl error =>
        if error =? ERROR_SERVICE_DOES_NOT_EXIST then mret tt
        else if error =? ERROR_SERVICE_MARKED_FOR_DELETE then WaitForDeletion manager name op
        else ServiceError "OpenServiceW failed" op error
    | inr service =>
        _ ← scoped service
              (deleted ← call (DeleteService service);
               match deleted with
               | inl error =>
                   if negb (error =? ERROR_SERVICE_MARKED_FOR_DELETE) then fails IoFailure "DeleteService failed" op error
                   else mret tt
               | inr _ => mret tt
               end);
        WaitForDeletion manager name op
    end).

Definition IsRunning (name : wide) : M bool :=
  let op := "DriverService::IsRunning" in
  _ ← check (IsValidServiceText name) invalid_name op;
  with_manager SC_MANAGER_CONNECT op (λ manager,
    opened ← call (OpenService manager name SERVICE_QUERY_STATUS);
    match opened with
    | inl error =>
        if (error =? ERROR_SERVICE_DOES_NOT_EXIST) || (error =? ERROR_SERVICE_MARKED_FOR_DELETE) then mret false
        else ServiceError "OpenServiceW failed" op error
    | inr service =>
        scoped service
          (queried ← call (QueryServiceStatusEx service);
           match queried with
           | inl native => ServiceError "QueryServiceStatusEx failed" op native
           | inr (_, status) => mret (dwCurrentState status =? SERVICE_RUNNING)
           end)
    end).

(** ** Keeping and restoring a configuration *)

Definition QueryConfiguration (name : wide) : M DriverServiceConfiguration :=
  let op := "DriverService::QueryConfiguration" in
  _ ← check (IsValidServiceText name) invalid_name op;
  with_manager SC_MANAGER_CONNECT op (λ manager, QueryConfigurationWithManager manager name op).

Definition restored_config (c : DriverServiceConfiguration) : ServiceConfig :=
  mkServiceConfig (service_type c) (start_type c) (error_control c) (Some (c_str (binary_path c)))
    (Some (c_str (display_name c))).

Definition restore_with (manager : Z) (name : wide) (c : DriverServiceConfiguration) : M unit :=
  let op := "DriverService::RestoreConfiguration" in
  let finish := if running_ c then Start name else mret tt in
  opened ← call (OpenService manager name configure_access);
  match opened with
  | inl error =>
      if negb (error =? ERROR_SERVICE_DOES_NOT_EXIST) then
        fails IoFailure "OpenServiceW failed while restoring driver configuration" op error
      else
        created ← call (CreateService manager name configure_access (restored_config c));
        match created with
        | inl native => ServiceError "CreateServiceW failed while restoring driver configuration" op native
        | inr service => scoped service finish
        end
  | inr service =>
      scoped service
        (changed ← call (ChangeServiceConfig service (restored_config c));
         match changed with
         | inl native => ServiceError "ChangeServiceConfigW failed while restoring driver configuration" op native
         | inr _ => finish
         end)
  end.
Definition RestoreConfiguration (name : wide) (c : DriverServiceConfiguration) : M unit :=
  let op := "DriverService::RestoreConfiguration" in
  _ ← check (IsValidServiceText name) invalid_name op;
  if negb (exists_ c) then Remove name
  else
    _ ← check ((service_type c =? SERVICE_KERNEL_DRIVER) && negb (bool_decide (binary_path c = [])) &&
               negb (bool_decide (display_name c = [])))
          "Refusing to restore an invalid or non-kernel service configuration" op;
    _ ← Stop name;
    with_manager (Z.lor SC_MANAGER_CONNECT SC_MANAGER_CREATE_SERVICE) op (λ manager, restore_with manager name c).
End DriverService.
