(* ===== verification/ServiceTheorems.v ===== *)
(** What the driver service operations guarantee: every handle is used within its rights
    and closed, success was observed, a configuration is restored as it was read, and the
    waits end. *)

From stdpp Require Import list relations.
From S2P Require Import Prelude CppStd Common Paths Host DriverService.
From Stdlib Require Import Ascii String.

#[local] Open Scope Z_scope.

(** ** Handles *)

Abbreviation event := {c : ServiceCall & service_reply c}.
Definition ev (c : ServiceCall) (r : service_reply c) : event := existT c r.

Inductive Rights := ManagerRights (access : Z) | ServiceRights (access : Z).
Abbreviation Handles := (list (Z * Rights)).

Definition has_rights (access needed : Z) : bool := Z.land access needed =? needed.
Definition manager_may (needed handle : Z) (st : Handles) : bool :=
  existsb (λ x, (x.1 =? handle) && match x.2 with ManagerRights a => has_rights a needed | _ => false end) st.
Definition service_may (needed handle : Z) (st : Handles) : bool :=
  existsb (λ x, (x.1 =? handle) && match x.2 with ServiceRights a => has_rights a needed | _ => false end) st.

(** Whether a call may be made with the handles that are open. *)
Definition permitted (c : ServiceCall) (st : Handles) : bool :=
  match c with
  | OpenService m _ _ => manager_may SC_MANAGER_CONNECT m st
  | CreateService m _ _ _ => manager_may SC_MANAGER_CREATE_SERVICE m st
  | ChangeServiceConfig s _ => service_may SERVICE_CHANGE_CONFIG s st
  | QueryServiceStatusEx s => service_may SERVICE_QUERY_STATUS s st
  | QueryServiceConfigSize s | QueryServiceConfig s _ => service_may SERVICE_QUERY_CONFIG s st
  | StartService s => service_may SERVICE_START s st
  | ControlServiceStop s => service_may SERVICE_STOP s st
  | DeleteService s => service_may DELETE s st
  | _ => true
  end.
Definition newly_opened (c : ServiceCall) : service_reply c → Handles :=
  match c with
  | OpenSCManager access => λ r, match r with inr h => [(h, ManagerRights access)] | inl _ => [] end
  | OpenService _ _ access | CreateService _ _ access _ =>
      λ r, match r with inr h => [(h, ServiceRights access)] | inl _ => [] end
  | _ => λ _, []
  end.
(** The handles open after a call; only the one opened last may be closed. *)
Definition handles_step (e : event) (st : Handles) : option Handles :=
  match projT1 e with
  | CloseServiceHandle h =>
      match st with (h', _) :: st => if h =? h' then Some st else None | [] => None end
  | c => if permitted c st then Some (newly_opened (projT1 e) (projT2 e) ++ st) else None
  end.
Fixpoint handles_run (calls : list event) : option Handles :=
  match calls with [] => Some [] | e :: calls => handles_run calls ≫= handles_step e end.

Section Log.
Context {O : Type} `{!Host ServiceCall service_reply O}.
Abbreviation Log := (Logged ServiceCall service_reply O).
Implicit Types l : Log.

Definition held (st : Handles) (l : Log) : Prop := handles_run (lg_calls l) = Some st.
Abbreviation keeps st m := (triple (held st) m (λ _, held st) (λ _, held st)).

Lemma held_call st c l :
  held st l → match handles_step (ev c (host c (lg_host l)).1) st with
              | Some st' => held st' (host c l).2 | None => True end.
Proof.
  intros Hl. rewrite host_logged. destruct (handles_step _ st) eqn:E; [|done]. unfold held. cbn [snd lg_calls handles_run].
  unfold held in Hl. rewrite Hl. exact E.
Qed.

(** A call that opens and closes nothing. *)
Definition passive (c : ServiceCall) : bool :=
  match c with
  | OpenSCManager _ | OpenService _ _ _ | CreateService _ _ _ _ | CloseServiceHandle _ => false
  | _ => true
  end.
Lemma keeps_call st c : passive c = true → permitted c st = true → keeps st (call c).
Proof.
  intros Hp Hc l Hl. unfold call. pose proof (held_call st c l Hl) as H.
  destruct (host c l) as [r l'] eqn:E. cbn [snd] in H.
  destruct c; try done; unfold handles_step, ev in H; cbn [projT1 projT2] in H; cbn [permitted] in Hc, H; try rewrite Hc in H; exact H.
Qed.
(** A call that opens a handle. *)
Definition opened_with (st : Handles) (rights : Rights) (r : Native Z) : Log → Prop :=
  match r with inl _ => held st | inr h => held ((h, rights) :: st) end.
Lemma opens_manager st access E :
  triple (held st) (call (OpenSCManager access)) (opened_with st (ManagerRights access)) E.
Proof.
  intros l Hl. unfold call. pose proof (held_call st (OpenSCManager access) l Hl) as H. rewrite host_logged in *. cbn [snd] in H.
  unfold handles_step, ev in H. cbn in H. by destruct (host (OpenSCManager access) (lg_host l)) as [[?|?] ?].
Qed.
Lemma opens_service st m name access E :
  manager_may SC_MANAGER_CONNECT m st = true →
  triple (held st) (call (OpenService m name access)) (opened_with st (ServiceRights access)) E.
Proof.
  intros Hm l Hl. unfold call. pose proof (held_call st (OpenService m name access) l Hl) as H. rewrite host_logged in *. cbn [snd] in H.
  unfold handles_step, ev in H. cbn in H. rewrite Hm in H. by destruct (host (OpenService m name access) (lg_host l)) as [[?|?] ?].
Qed.
Lemma creates_service st m name access config E :
  manager_may SC_MANAGER_CREATE_SERVICE m st = true →
  triple (held st) (call (CreateService m name access config)) (opened_with st (ServiceRights access)) E.
Proof.
  intros Hm l Hl. unfold call. pose proof (held_call st (CreateService m name access config) l Hl) as H. rewrite host_logged in *. cbn [snd] in H.
  unfold handles_step, ev in H. cbn in H. rewrite Hm in H. by destruct (host (CreateService m name access config) (lg_host l)) as [[?|?] ?].
Qed.
Lemma keeps_scoped {A} st h rights (m : Exec Log A) :
  keeps ((h, rights) :: st) m → triple (held ((h, rights) :: st)) (scoped h m) (λ _, held st) (λ _, held st).
Proof.
  intros Hm l Hl. specialize (Hm l Hl). unfold scoped. destruct (m l) as [r l'].
  assert (held ((h, rights) :: st) l') as Hl' by (by destruct r).
  pose proof (held_call _ (CloseServiceHandle h) l' Hl') as H. unfold handles_step, ev in H. cbn [projT1] in H.
  rewrite Z.eqb_refl in H. by destruct r.
Qed.

Lemma keeps_outcome {A} st (m : Exec Log A) : keeps st m → keeps st (outcome m).
Proof. intros Hm l Hl. specialize (Hm l Hl). unfold outcome. by destruct (m l) as [[?|?] ?]. Qed.
Lemma keeps_until st round :
  (∀ l, held st l → match round l with inl l => held st l | inr r => held st r.2 end) → keeps st (until_done round).
Proof.
  intros Hr l Hl. unfold until_done. pose proof (rounds_keeps (held st) (λ r, held st r.2) 64 round l Hr Hl) as H.
  destruct (rounds 64 round l) as [l'|[[?|?] l']]; done.
Qed.

Lemma keeps_bind {A B} st (m : Exec Log A) (f : A → Exec Log B) Q :
  keeps st m → (∀ a, triple (held st) (f a) Q (λ _, held st)) → triple (held st) (m ≫= f) Q (λ _, held st).
Proof. intros Hm Hf. eapply triple_bind; [exact Hm|exact Hf]. Qed.

(** One step through a function. *)
Ltac keep_step :=
  lazymatch goal with
  | |- triple _ (mbind _ (call (OpenSCManager _))) _ _ => eapply triple_bind; [apply opens_manager|intros [?|?]; cbn [opened_with]]
  | |- triple _ (mbind _ (call (OpenService _ _ _))) _ _ =>
      eapply triple_bind; [apply opens_service; by cbn; rewrite ?Z.eqb_refl|intros [?|?]; cbn [opened_with]]
  | |- triple _ (mbind _ (call (CreateService _ _ _ _))) _ _ =>
      eapply triple_bind; [apply creates_service; by cbn; rewrite ?Z.eqb_refl|intros [?|?]; cbn [opened_with]]
  | |- triple _ (mbind _ (scoped _ _)) _ _ => eapply triple_bind; [apply keeps_scoped|intros ?]
  | |- triple _ (mbind _ _) _ _ => apply keeps_bind; [|intros ?]
  | |- triple _ (call ?c) _ _ => apply (keeps_call _ c); [done|by cbn; rewrite ?Z.eqb_refl, ?orb_true_r]
  | |- triple _ (mret _) _ _ => by apply triple_ret
  | |- triple _ (leave _) _ _ => by apply triple_leave
  | |- triple _ (fails _ _ _ _) _ _ => by apply triple_leave
  | |- triple _ (ServiceError _ _ _) _ _ => by apply triple_leave
  | |- triple _ (scoped _ _) _ _ => apply keeps_scoped
  | |- triple _ (outcome _) _ _ => apply keeps_outcome
  | |- triple _ (match ?x with _ => _ end) _ _ => destruct x
  end.

Lemma keeps_check st ok msg op : keeps st (check ok msg op).
Proof. unfold check. repeat keep_step. Qed.
Lemma keeps_status st s op : service_may SERVICE_QUERY_STATUS s st = true → keeps st (QueryStatus s op).
Proof. intros Hs. unfold QueryStatus. eapply triple_bind; [by apply (keeps_call st (QueryServiceStatusEx s))|intros ?]. repeat keep_step. Qed.
Lemma keeps_host st c l : held st l → passive c = true → permitted c st = true → held st (host c l).2.
Proof. intros Hl Hp Hc. pose proof (keeps_call st c Hp Hc l Hl) as H. unfold call in H. by destruct (host c l). Qed.
Lemma keeps_wait_state st s desired timeout op :
  service_may SERVICE_QUERY_STATUS s st = true → keeps st (WaitForState s desired timeout op).
Proof.
  intros Hs. unfold WaitForState. eapply triple_bind; [by apply (keeps_call st SteadyClockNow)|intros start]. apply keeps_until.
  intros l Hl. unfold wait_state_round. pose proof (keeps_status st s op Hs l Hl) as Hq.
  destruct (QueryStatus s op l) as [[status|e] l1]; [|done]. cbv zeta. split_goal_match; [done|]. split_goal_match; [done|].
  pose proof (keeps_host st SteadyClockNow l1 Hq eq_refl eq_refl) as Hn. destruct (host SteadyClockNow l1) as [now l2].
  cbn [snd] in Hn. split_goal_match; [done|].
  pose proof (keeps_host st (Sleep (wait_hint status)) l2 Hn eq_refl eq_refl) as Hz. by destruct (host (Sleep _) l2).
Qed.
Lemma keeps_wait_deletion st m name op :
  manager_may SC_MANAGER_CONNECT m st = true → keeps st (WaitForDeletion m name op).
Proof.
  intros Hm. unfold WaitForDeletion. eapply triple_bind; [by apply (keeps_call st SteadyClockNow)|intros start]. apply keeps_until.
  intros l Hl. unfold wait_deletion_round. cbv zeta.
  pose proof (keeps_host st SteadyClockNow l Hl eq_refl eq_refl) as Hn. destruct (host SteadyClockNow l) as [now l1].
  cbn [snd] in Hn. split_goal_match; [done|].
  pose proof (opens_service st m name SERVICE_QUERY_STATUS (λ _ _, True) Hm l1 Hn) as Ho. unfold call in Ho.
  destruct (host (OpenService m name SERVICE_QUERY_STATUS) l1) as [[e|h] l2]; cbn [opened_with] in Ho.
  - split_goal_match; [done|]. split_goal_match; [done|].
    pose proof (keeps_host st (Sleep 100) l2 Ho eq_refl eq_refl) as Hz. by destruct (host (Sleep _) l2).
  - pose proof (keeps_host _ (Sleep 100) l2 Ho eq_refl eq_refl) as Hz. destruct (host (Sleep _) l2) as [u l3]. cbn [snd] in Hz.
    pose proof (held_call _ (CloseServiceHandle h) l3 Hz) as H. unfold handles_step, ev in H. cbn [projT1] in H.
    rewrite Z.eqb_refl in H. by destruct (host (CloseServiceHandle h) l3).
Qed.

(** With the subroutines. *)
Ltac keep :=
  repeat first
    [ lazymatch goal with
      | |- triple _ (check _ _ _) _ _ => apply keeps_check
      | |- triple _ (QueryStatus _ _) _ _ => apply keeps_status; by cbn; rewrite ?Z.eqb_refl
      | |- triple _ (WaitForState _ _ _ _) _ _ => apply keeps_wait_state; by cbn; rewrite ?Z.eqb_refl
      | |- triple _ (WaitForDeletion _ _ _) _ _ => apply keeps_wait_deletion; by cbn; rewrite ?Z.eqb_refl
      end
    | keep_step ].

Lemma keeps_start st name : keeps st (Start name).
Proof. unfold Start, with_manager, start_opened. keep. Qed.
Lemma keeps_stop st name : keeps st (Stop name).
Proof. unfold Stop, with_manager, stop_opened, stop_running. keep. Qed.
Lemma keeps_find st path op : keeps st (find_driver path op).
Proof. unfold find_driver. keep. Qed.
Lemma keeps_install st name display path : keeps st (InstallOrUpdate name display path).
Proof.
  unfold InstallOrUpdate, with_manager, install_with.
  apply keeps_bind; [keep|intros _]. apply keeps_bind; [apply keeps_find|intros absolute]. keep.
Qed.
Lemma keeps_remove st name : keeps st (Remove name).
Proof. unfold Remove, with_manager. apply keeps_bind; [keep|intros _]. apply keeps_bind; [apply keeps_stop|intros _]. keep. Qed.
Lemma keeps_is_running st name : keeps st (IsRunning name).
Proof. unfold IsRunning, with_manager. keep. Qed.
Lemma keeps_query st name : keeps st (QueryConfiguration name).
Proof. unfold QueryConfiguration, with_manager, QueryConfigurationWithManager, read_configuration. keep. Qed.
Lemma keeps_restore st name c : keeps st (RestoreConfiguration name c).
Proof.
  unfold RestoreConfiguration. apply keeps_bind; [keep|intros _]. destruct (negb _); [apply keeps_remove|].
  apply keeps_bind; [keep|intros _]. apply keeps_bind; [apply keeps_stop|intros _]. unfold with_manager, restore_with.
  repeat first [lazymatch goal with |- triple _ (Start _) _ _ => apply keeps_start end|progress keep].
Qed.
End Log.

(** ** Everything but creating, changing and deleting *)

Definition quiet (c : ServiceCall) : bool :=
  match c with CreateService _ _ _ _ | ChangeServiceConfig _ _ | DeleteService _ => false | _ => true end.

Section Quiet.
Context {O : Type} `{!Host ServiceCall service_reply O}.
Context (R : O → Prop) (R_quiet : ∀ c o, quiet c = true → R o → R (host c o).2).
Abbreviation stays m := (triple R m (λ _, R) (λ _, R)).

Lemma stays_bind {A B} (m : Exec O A) (f : A → Exec O B) :
  stays m → (∀ a, stays (f a)) → stays (m ≫= f).
Proof. intros Hm Hf. eapply triple_bind; [exact Hm|exact Hf]. Qed.
Lemma stays_call c : quiet c = true → stays (call c).
Proof. intros Hc o Ho. unfold call. specialize (R_quiet c o Hc Ho). by destruct (host c o). Qed.
Lemma stays_scoped {A} h (m : Exec O A) : stays m → stays (scoped h m).
Proof.
  intros Hm o Ho. specialize (Hm o Ho). unfold scoped. destruct (m o) as [r o1].
  assert (R o1) as H1 by (by destruct r). pose proof (R_quiet (CloseServiceHandle h) o1 eq_refl H1). by destruct r.
Qed.
Lemma stays_outcome {A} (m : Exec O A) : stays m → stays (outcome m).
Proof. intros Hm o Ho. specialize (Hm o Ho). unfold outcome. by destruct (m o) as [[?|?] ?]. Qed.
Lemma stays_until round :
  (∀ o, R o → match round o with inl o => R o | inr r => R r.2 end) → stays (until_done round).
Proof.
  intros Hr o Ho. unfold until_done. pose proof (rounds_keeps R (λ r, R r.2) 64 round o Hr Ho) as H.
  destruct (rounds 64 round o) as [o'|[[?|?] o']]; done.
Qed.

Ltac stay :=
  repeat first
    [ assumption
    | lazymatch goal with
      | |- triple _ (mbind _ _) _ _ => apply stays_bind; [|intros ?]
      | |- triple _ (call ?c) _ _ => by apply (stays_call c)
      | |- triple _ (mret _) _ _ => by apply triple_ret
      | |- triple _ (leave _) _ _ => by apply triple_leave
      | |- triple _ (fails _ _ _ _) _ _ => by apply triple_leave
      | |- triple _ (ServiceError _ _ _) _ _ => by apply triple_leave
      | |- triple _ (scoped _ _) _ _ => apply stays_scoped
      | |- triple _ (outcome _) _ _ => apply stays_outcome
      | |- triple _ (match ?x with _ => _ end) _ _ => destruct x
      end ].

Lemma stays_status s op : stays (QueryStatus s op).
Proof. unfold QueryStatus. stay. Qed.
Ltac stay_host o1 :=
  match goal with
  | H : R ?o |- context [host ?c ?o] =>
      let H1 := fresh "H" in pose proof (R_quiet c o eq_refl H) as H1; destruct (host c o) as [? o1]; cbn [snd] in H1
  end.
Lemma stays_wait_state s desired timeout op : stays (WaitForState s desired timeout op).
Proof.
  unfold WaitForState. apply stays_bind; [stay|intros start]. apply stays_until. intros o Ho. unfold wait_state_round.
  pose proof (stays_status s op o Ho) as Hq. destruct (QueryStatus s op o) as [[status|e] o1]; [|done].
  cbv zeta. do 2 (split_goal_match; [done|]). stay_host o2. split_goal_match; [done|]. by stay_host o3.
Qed.
Lemma stays_wait_deletion m name op : stays (WaitForDeletion m name op).
Proof.
  unfold WaitForDeletion. apply stays_bind; [stay|intros start]. apply stays_until. intros o Ho. unfold wait_deletion_round.
  cbv zeta. stay_host o1. split_goal_match; [done|].
  pose proof (R_quiet (OpenService m name SERVICE_QUERY_STATUS) o1 eq_refl H) as H2.
  destruct (host (OpenService _ _ _) o1) as [[e|h] o2]; cbn [snd] in H2.
  - do 2 (split_goal_match; [done|]). by stay_host o3.
  - stay_host o3. by stay_host o4.
Qed.
Lemma stays_start_opened s : stays (start_opened s).
Proof. pose proof stays_wait_state. pose proof stays_status. unfold start_opened. stay; auto. Qed.
Lemma stays_start name : stays (Start name).
Proof. pose proof stays_start_opened. unfold Start, with_manager, check. stay; auto. Qed.
Lemma stays_stop_opened s : stays (stop_opened s).
Proof. pose proof stays_wait_state. pose proof stays_status. unfold stop_opened, stop_running. stay; auto. Qed.
Lemma stays_stop name : stays (Stop name).
Proof.
  pose proof stays_stop_opened. pose proof stays_wait_deletion. unfold Stop, with_manager, check. stay; auto.
Qed.
Lemma stays_read s op : stays (read_configuration s op).
Proof. pose proof stays_status. unfold read_configuration. stay; auto. Qed.
Lemma stays_query name : stays (QueryConfiguration name).
Proof.
  pose proof stays_read. unfold QueryConfiguration, with_manager, QueryConfigurationWithManager, check. stay; auto.
Qed.
End Quiet.

(** ** What success means *)

Section Observed.
Context {O : Type} `{!Host ServiceCall service_reply O}.
Abbreviation Log := (Logged ServiceCall service_reply O).
Implicit Types l : Log.

(** The last call found the service in a state. *)
Definition observed (s state : Z) (calls : list event) : Prop :=
  ∃ status earlier, calls = ev (QueryServiceStatusEx s) (inr (sizeof_ServiceStatus, status)) :: earlier ∧
    dwCurrentState status = state.
Definition not_found (name : wide) (calls : list event) : Prop :=
  ∃ m access earlier, calls = ev (OpenService m name access) (inl ERROR_SERVICE_DOES_NOT_EXIST) :: earlier.
Definition not_active (s : Z) (calls : list event) : Prop :=
  ∃ earlier, calls = ev (ControlServiceStop s) (inl ERROR_SERVICE_NOT_ACTIVE) :: earlier.
(** The handle was opened for the service. *)
Definition names (name : wide) (s : Z) (calls : list event) : Prop :=
  ∃ m access, ev (OpenService m name access) (inr s) ∈ calls.

Definition yields {A} (P : Log → Prop) (m : Exec Log A) (Q : A → Log → Prop) : Prop := triple P m Q (λ _ _, True).

Lemma names_quiet name s c l : names name s (lg_calls l) → names name s (lg_calls (host c l).2).
Proof. intros (m & a & H). exists m, a. rewrite host_logged. by apply elem_of_cons; right. Qed.
Lemma yields_both {A} P (m : Exec Log A) (R : Log → Prop) Q :
  triple R m (λ _, R) (λ _, R) → yields P m Q → yields (λ l, P l ∧ R l) m (λ a l, Q a l ∧ R l).
Proof. intros Hr Hq l [Hp Hl]. specialize (Hr l Hl). specialize (Hq l Hp). by destruct (m l) as [[?|?] ?]. Qed.

Lemma yields_status s op :
  yields (λ _, True) (QueryStatus s op) (λ status l, observed s (dwCurrentState status) (lg_calls l)).
Proof.
  intros l _. unfold QueryStatus, mbind, Exec_bind, call. rewrite host_logged.
  destruct (host (QueryServiceStatusEx s) (lg_host l)) as [[e|[bytes status]] o]; [done|]. cbn [fst snd].
  destruct (Z.eqb_spec bytes sizeof_ServiceStatus) as [->|]; [|done]. by exists status, (lg_calls l).
Qed.
Lemma yields_wait_state s desired timeout op :
  yields (λ _, True) (WaitForState s desired timeout op) (λ _ l, observed s desired (lg_calls l)).
Proof.
  unfold WaitForState. eapply triple_bind; [by intros ? _; unfold call; destruct (host _ _); exact I|].
  intros start l _. unfold until_done.
  pose proof (rounds_keeps (λ _ : Log, True) (λ r, match r.1 with Success _ => observed s desired (lg_calls r.2) | Failure _ => True end)
    64 (wait_state_round s desired (start + timeout) op) l) as H.
  assert (∀ l0, True → match wait_state_round s desired (start + timeout) op l0 with inl _ => True
    | inr r => match r.1 with Success _ => observed s desired (lg_calls r.2) | Failure _ => True end end) as Hr.
  { clear. intros l _. unfold wait_state_round. pose proof (yields_status s op l I) as Hq.
    destruct (QueryStatus s op l) as [[status|e] l1]; [|done]. cbv zeta.
    destruct (Z.eqb_spec (dwCurrentState status) desired) as [<-|]; [done|]. split_goal_match; [done|].
    destruct (host SteadyClockNow l1) as [now l2]. split_goal_match; [done|]. by destruct (host (Sleep _) l2). }
  specialize (H Hr I). destruct (rounds 64 _ l) as [l'|[[?|?] l']]; done.
Qed.
Lemma yields_wait_deletion m name op :
  yields (λ _, True) (WaitForDeletion m name op) (λ _ l, not_found name (lg_calls l)).
Proof.
  unfold WaitForDeletion. eapply triple_bind; [by intros ? _; unfold call; destruct (host _ _); exact I|].
  intros start l _. unfold until_done.
  pose proof (rounds_keeps (λ _ : Log, True) (λ r, match r.1 with Success _ => not_found name (lg_calls r.2) | Failure _ => True end)
    64 (wait_deletion_round m name (start + kServiceTimeout) op) l) as H.
  assert (∀ l0, True → match wait_deletion_round m name (start + kServiceTimeout) op l0 with inl _ => True
    | inr r => match r.1 with Success _ => not_found name (lg_calls r.2) | Failure _ => True end end) as Hr.
  { clear. intros l _. unfold wait_deletion_round. cbv zeta. destruct (host SteadyClockNow l) as [now l1].
    split_goal_match; [done|]. rewrite host_logged.
    destruct (host (OpenService m name SERVICE_QUERY_STATUS) (lg_host l1)) as [[e|h] o2]; cbn [fst snd].
    - destruct (Z.eqb_spec e ERROR_SERVICE_DOES_NOT_EXIST) as [->|]; [by eexists _, _, _|]. split_goal_match; [done|].
      by destruct (host (Sleep _) _).
    - destruct (host (Sleep _) _) as [? l3]. by destruct (host (CloseServiceHandle _) l3). }
  specialize (H Hr I). destruct (rounds 64 _ l) as [l'|[[?|?] l']]; done.
Qed.

Lemma yields_weak {A} (P : Log → Prop) (m : Exec Log A) Q : yields (λ _, True) m Q → yields P m Q.
Proof. intros Hm l _. by apply Hm. Qed.
Lemma yields_bind {A B} P (m : Exec Log A) (f : A → Exec Log B) Q :
  (∀ a, yields (λ _, True) (f a) Q) → yields P (m ≫= f) Q.
Proof. intros Hf l _. unfold mbind, Exec_bind. destruct (m l) as [[a|e] l']; [by apply Hf|done]. Qed.
Lemma yields_status_bind {B} P s op (f : ServiceStatus → Exec Log B) Q :
  (∀ status, yields (λ l, observed s (dwCurrentState status) (lg_calls l)) (f status) Q) → yields P (QueryStatus s op ≫= f) Q.
Proof. intros Hf l _. apply (triple_bind _ _ _ _ _ _ (yields_status s op) Hf). done. Qed.
Lemma yields_leave {A} P e (Q : A → Log → Prop) : yields P (leave e) Q.
Proof. by apply triple_leave. Qed.

Lemma yields_started s : yields (λ _, True) (start_opened s) (λ _ l, observed s SERVICE_RUNNING (lg_calls l)).
Proof.
  unfold start_opened. apply yields_status_bind. intros status.
  destruct (Z.eqb_spec (dwCurrentState status) SERVICE_RUNNING) as [E|]; [apply triple_ret; intros ? H; by rewrite <- E|].
  destruct (_ =? SERVICE_START_PENDING); [apply yields_weak, yields_wait_state|].
  do 3 (apply yields_bind; intros ?). apply yields_wait_state.
Qed.
Definition stopped (s : Z) (calls : list event) : Prop := observed s SERVICE_STOPPED calls ∨ not_active s calls.
Lemma yields_waited_stop s timeout op P : yields P (WaitForState s SERVICE_STOPPED timeout op) (λ _ l, stopped s (lg_calls l)).
Proof.
  apply yields_weak. intros l Hl. pose proof (yields_wait_state s SERVICE_STOPPED timeout op l Hl) as H.
  destruct (WaitForState _ _ _ _ l) as [[?|?] ?]; [by left|done].
Qed.
Lemma yields_stop_running s : yields (λ _, True) (stop_running s) (λ _ l, stopped s (lg_calls l)).
Proof.
  unfold stop_running. eapply (triple_bind _ _ _ _ (λ r l, ∃ earlier, lg_calls l = ev (ControlServiceStop s) r :: earlier)).
  { intros l _. unfold call. rewrite host_logged. by eexists. }
  intros [error|[]]; [|apply yields_waited_stop].
  destruct (Z.eqb_spec error ERROR_SERVICE_NOT_ACTIVE) as [->|]; [apply triple_ret; intros ? [? ?]; right; by eexists|].
  destruct (_ =? _); [|apply yields_leave]. intros l _. unfold outcome, mbind, Exec_bind.
  pose proof (yields_status s "DriverService::Stop" l I) as Hq. destruct (QueryStatus _ _ l) as [[status|e] l1]; [|done].
  destruct (Z.eqb_spec (dwCurrentState status) SERVICE_STOPPED) as [E|]; [left; by rewrite <- E|].
  destruct (_ =? SERVICE_STOP_PENDING); [|done]. by apply (yields_waited_stop s _ _ (λ _, True)).
Qed.
Lemma yields_stop_opened s : yields (λ _, True) (stop_opened s) (λ _ l, stopped s (lg_calls l)).
Proof.
  unfold stop_opened. apply yields_status_bind. intros status.
  destruct (Z.eqb_spec (dwCurrentState status) SERVICE_STOPPED) as [E|]; [apply triple_ret; intros ? H; left; by rewrite <- E|].
  destruct (_ =? SERVICE_STOP_PENDING); [apply yields_waited_stop|].
  destruct (_ =? SERVICE_START_PENDING); [|apply yields_weak, yields_stop_running].
  apply yields_bind. intros [?|e]; [apply yields_stop_running|]. intros l _. unfold outcome, mbind, Exec_bind.
  pose proof (yields_status s "DriverService::Stop" l I) as Hq. destruct (QueryStatus _ _ l) as [[status2|e2] l1]; [|done].
  destruct (Z.eqb_spec (dwCurrentState status2) SERVICE_STOPPED) as [E|]; [left; by rewrite <- E|done].
Qed.
(** The handles are closed after the last observation. *)
Definition after_close (h : Z) (Q : list event → Prop) (calls : list event) : Prop :=
  ∃ earlier, calls = ev (CloseServiceHandle h) tt :: earlier ∧ Q earlier.
Definition start_evidence (name : wide) (calls : list event) : Prop :=
  ∃ m, after_close m (λ c, ∃ s, after_close s (λ c, observed s SERVICE_RUNNING c ∧ names name s c) c) calls.
Definition stop_evidence (name : wide) (calls : list event) : Prop :=
  ∃ m, after_close m (λ c, not_found name c ∨ ∃ s, after_close s (λ c, stopped s c ∧ names name s c) c) calls.
Definition remove_evidence (name : wide) (calls : list event) : Prop := ∃ m, after_close m (not_found name) calls.

Lemma yields_scoped {A} P h (m : Exec Log A) (Q : A → list event → Prop) :
  yields P m (λ a l, Q a (lg_calls l)) → yields P (scoped h m) (λ a l, after_close h (Q a) (lg_calls l)).
Proof.
  intros Hm l Hl. specialize (Hm l Hl). unfold scoped. destruct (m l) as [[a|e] l']; [|done].
  rewrite host_logged. cbn [snd lg_calls]. exists (lg_calls l'). split; [|done].
  by destruct (host (CloseServiceHandle h) (lg_host l')) as [[] ?].
Qed.
Lemma yields_with_manager {A} access op (body : Z → Exec Log A) (Q : A → list event → Prop) :
  (∀ m, yields (λ _, True) (body m) (λ a l, Q a (lg_calls l))) →
  yields (λ _, True) (with_manager access op body) (λ a l, ∃ m, after_close m (Q a) (lg_calls l)).
Proof.
  intros Hb. unfold with_manager. apply yields_bind. intros [e|m]; [apply yields_leave|]. intros l _.
  pose proof (yields_scoped (λ _, True) m (body m) Q (Hb m) l I) as H. destruct (scoped m (body m) l) as [[a|e] l']; [by exists m|done].
Qed.
(** The answer of an attempt to open the service. *)
Definition open_answer (name : wide) (r : Native Z) (calls : list event) : Prop :=
  ∃ m access earlier, calls = ev (OpenService m name access) r :: earlier.
Lemma yields_open {B} m name access (f : Native Z → Exec Log B) Q :
  (∀ r, yields (λ l, open_answer name r (lg_calls l)) (f r) Q) →
  yields (λ _, True) (call (OpenService m name access) ≫= f) Q.
Proof.
  intros Hf. apply (triple_bind _ _ _ _ (λ r l, open_answer name r (lg_calls l))); [|exact Hf].
  intros l _. unfold call. rewrite host_logged. by eexists _, _, _.
Qed.
Lemma open_names name s calls : open_answer name (inr s) calls → names name s calls.
Proof. intros (m & a & earlier & ->). exists m, a. by apply elem_of_cons; left. Qed.
Lemma open_not_found name e calls : open_answer name (inl e) calls → (e =? ERROR_SERVICE_DOES_NOT_EXIST) = true → not_found name calls.
Proof. intros (m & a & earlier & ->) ->%Z.eqb_eq. by exists m, a, earlier. Qed.
(** What a handle's scope yields about the service it was opened for. *)
Lemma yields_opened {A} name s (m : Exec Log A) (Q : A → list event → Prop) :
  triple (λ l, names name s (lg_calls l)) m (λ _ l, names name s (lg_calls l)) (λ _ l, names name s (lg_calls l)) →
  yields (λ _, True) m (λ a l, Q a (lg_calls l)) →
  yields (λ l, open_answer name (inr s) (lg_calls l)) (scoped s m) (λ a l, after_close s (λ c, Q a c ∧ names name s c) (lg_calls l)).
Proof.
  intros Hs Hm. apply (yields_scoped _ s m (λ a c, Q a c ∧ names name s c)). intros l Hl%open_names.
  exact (yields_both _ m _ _ Hs Hm l (conj I Hl)).
Qed.

Lemma yields_start name : yields (λ _, True) (Start name) (λ _ l, start_evidence name (lg_calls l)).
Proof.
  unfold Start. apply yields_bind. intros _.
  apply (yields_with_manager _ _ _ (λ _ c, ∃ s, after_close s (λ c, observed s SERVICE_RUNNING c ∧ names name s c) c)).
  intros m. apply yields_open. intros [e|s]; [apply yields_leave|]. intros l Hl.
  pose proof (yields_opened name s (start_opened s) (λ _, observed s SERVICE_RUNNING)
    (stays_start_opened _ (λ c o _, names_quiet name s c o) s) (yields_started s) l Hl) as H.
  destruct (scoped s (start_opened s) l) as [[a|e] l']; [by exists s|done].
Qed.
Lemma yields_stop name : yields (λ _, True) (Stop name) (λ _ l, stop_evidence name (lg_calls l)).
Proof.
  unfold Stop. apply yields_bind. intros _.
  apply (yields_with_manager _ _ _ (λ _ c, not_found name c ∨ ∃ s, after_close s (λ c, stopped s c ∧ names name s c) c)).
  intros m. apply yields_open. intros [e|s].
  - destruct (e =? ERROR_SERVICE_DOES_NOT_EXIST) eqn:E; [apply triple_ret; intros ? Ho; left; by eapply open_not_found|].
    destruct (_ =? ERROR_SERVICE_MARKED_FOR_DELETE); [|apply yields_leave]. intros l _.
    pose proof (yields_wait_deletion m name "DriverService::Stop" l I) as H. destruct (WaitForDeletion _ _ _ l) as [[?|?] ?]; [by left|done].
  - intros l Hl. pose proof (yields_opened name s (stop_opened s) (λ _, stopped s)
      (stays_stop_opened _ (λ c o _, names_quiet name s c o) s) (yields_stop_opened s) l Hl) as H.
    destruct (scoped s (stop_opened s) l) as [[a|e] l']; [right; by exists s|done].
Qed.
Lemma yields_remove name : yields (λ _, True) (Remove name) (λ _ l, remove_evidence name (lg_calls l)).
Proof.
  unfold Remove. do 2 (apply yields_bind; intros _). apply (yields_with_manager _ _ _ (λ _, not_found name)).
  intros m. apply yields_open. intros [e|s]; [|apply yields_bind; intros _; apply yields_wait_deletion].
  destruct (e =? ERROR_SERVICE_DOES_NOT_EXIST) eqn:E; [apply triple_ret; intros ? Ho; by eapply open_not_found|].
  destruct (_ =? ERROR_SERVICE_MARKED_FOR_DELETE); [apply yields_weak, yields_wait_deletion|apply yields_leave].
Qed.

(** [C12] Success is never assumed.  When starting succeeds, the last thing seen before
    the handles were closed is the status of that service, running; when stopping
    succeeds, it is the status stopped, the answer that the service is not active, or that
    there is no such service; and when removing succeeds, that there is none. *)
Theorem service_settled name l :
  match Start name l with (Success _, l') => start_evidence name (lg_calls l') | _ => True end ∧
  match Stop name l with (Success _, l') => stop_evidence name (lg_calls l') | _ => True end ∧
  match Remove name l with (Success _, l') => remove_evidence name (lg_calls l') | _ => True end.
Proof.
  pose proof (yields_start name l I) as H1. pose proof (yields_stop name l I) as H2. pose proof (yields_remove name l I) as H3.
  repeat split; [by destruct (Start name l) as [[?|?] ?]|by destruct (Stop name l) as [[?|?] ?]|by destruct (Remove name l) as [[?|?] ?]].
Qed.
End Observed.

(** ** Any number of operations *)

Inductive ServiceRequest :=
  | request_install (name display path : wide) | request_start (name : wide) | request_stop (name : wide)
  | request_remove (name : wide) | request_is_running (name : wide) | request_query (name : wide)
  | request_restore (name : wide) (c : DriverServiceConfiguration).

Definition serve {O} `{!Host ServiceCall service_reply O} (o : O) (r : ServiceRequest) : O :=
  match r with
  | request_install name display path => (InstallOrUpdate name display path o).2
  | request_start name => (Start name o).2
  | request_stop name => (Stop name o).2
  | request_remove name => (Remove name o).2
  | request_is_running name => (IsRunning name o).2
  | request_query name => (QueryConfiguration name o).2
  | request_restore name c => (RestoreConfiguration name c o).2
  end.

(** [C11] Handles of services are used as they were opened and none is lost.  Whatever the
    service control manager answers and however many operations follow each other, every
    call is made on an open handle that was asked for with the right it needs, the handles
    are closed in the reverse order of their opening, and at the end none is open. *)
Theorem services_protocol {O} `{!Host ServiceCall service_reply O} (requests : list ServiceRequest) (o : O) :
  handles_run (lg_calls (foldl serve (mkLogged o []) requests)) = Some [].
Proof.
  assert (∀ l : Logged ServiceCall service_reply O, held [] l → held [] (foldl serve l requests)) as H; [|by apply H].
  induction requests as [|r requests IH]; [done|]. intros l Hl. apply IH.
  assert (∀ A (m : Exec _ A), triple (held []) m (λ _, held []) (λ _, held []) → held [] (m l).2) as Hm.
  { intros A m Hm. specialize (Hm l Hl). by destruct (m l) as [[?|?] ?]. }
  destruct r; apply Hm; [apply keeps_install|apply keeps_start|apply keeps_stop|apply keeps_remove|apply keeps_is_running
    |apply keeps_query|apply keeps_restore].
Qed.
