(* ===== verification/ServiceRestore.v ===== *)
(** The driver service operations against the database of services: a configuration is
    restored as it was read; with a clock, the waits end; and a concrete service. *)

From stdpp Require Import list relations.
From S2P Require Import Prelude CppStd Common Paths Host DriverService ServiceTheorems.
From Stdlib Require Import Ascii String.

#[local] Open Scope Z_scope.

(** ** The database

    [entry o name] is the configuration under which a service can be opened: none when
    there is no such service or it is marked for deletion.  Only [CreateService],
    [ChangeServiceConfig] and [DeleteService] change entries. *)

Definition text_kept (text : option wide) : Prop := match text with Some t => c_str t = t | None => True end.

Class ServiceDatabase (O : Type) `{!Host ServiceCall service_reply O} := {
  entry : O → wide → option ServiceConfig;
  handle_name : O → Z → option wide;
  open_found m name access o h :
    (host (OpenService m name access) o).1 = inr h → handle_name (host (OpenService m name access) o).2 h = Some name;
  open_absent m name access o e :
    (host (OpenService m name access) o).1 = inl e →
    e = ERROR_SERVICE_DOES_NOT_EXIST ∨ e = ERROR_SERVICE_MARKED_FOR_DELETE →
    entry (host (OpenService m name access) o).2 name = None;
  create_stored m name access c o h :
    (host (CreateService m name access c) o).1 = inr h → entry (host (CreateService m name access c) o).2 name = Some c;
  change_stored s c o name :
    (host (ChangeServiceConfig s c) o).1 = inr tt → handle_name o s = Some name →
    entry (host (ChangeServiceConfig s c) o).2 name = Some c;
  query_true s n o name c :
    (host (QueryServiceConfig s n) o).1 = inr c → handle_name o s = Some name → entry o name = Some c;
  entry_text o name c : entry o name = Some c → text_kept (lpBinaryPathName c) ∧ text_kept (lpDisplayName c);
  entry_quiet c o name : quiet c = true → entry (host c o).2 name = entry o name;
  handle_kept c o h name : c ≠ CloseServiceHandle h → handle_name o h = Some name → handle_name (host c o).2 h = Some name
}.

#[export] Instance Logged_ServiceDatabase {O} `{ServiceDatabase O} : ServiceDatabase (Logged ServiceCall service_reply O).
Proof.
  refine {| entry l := entry (lg_host l); handle_name l := handle_name (lg_host l) |};
    intros *; rewrite ?host_logged; cbn [fst snd lg_host].
  - apply open_found.
  - apply open_absent.
  - apply create_stored.
  - apply change_stored.
  - apply query_true.
  - apply entry_text.
  - apply entry_quiet.
  - apply handle_kept.
Defined.

Section Database.
Context {O : Type} `{ServiceDatabase O}.
Implicit Types o : O.

Definition has_entry (name : wide) (x : option ServiceConfig) (o : O) : Prop := entry o name = x.
Abbreviation gives P m Q := (triple P m Q (λ _ _, True)).

Lemma has_entry_quiet name x c o : quiet c = true → has_entry name x o → has_entry name x (host c o).2.
Proof. intros Hc Ho. unfold has_entry. by rewrite entry_quiet. Qed.
Lemma gives_stays {A} (m : Exec O A) R : triple R m (λ _, R) (λ _, R) → gives R m (λ _, R).
Proof. intros Hm o Ho. specialize (Hm o Ho). by destruct (m o) as [[?|?] ?]. Qed.
Lemma gives_bind {A B} P (m : Exec O A) (f : A → Exec O B) Q : (∀ a, gives (λ _, True) (f a) Q) → gives P (m ≫= f) Q.
Proof. intros Hf o _. unfold mbind, Exec_bind. destruct (m o) as [[a|e] o']; [by apply Hf|done]. Qed.
Lemma gives_leave {A} P e (Q : A → O → Prop) : gives P (leave e) Q.
Proof. by apply triple_leave. Qed.
(** Closing a handle leaves the entries alone. *)
Lemma gives_scoped {A} P h (m : Exec O A) name (x : A → option ServiceConfig) :
  gives P m (λ a, has_entry name (x a)) → gives P (scoped h m) (λ a, has_entry name (x a)).
Proof.
  intros Hm o Ho. specialize (Hm o Ho). unfold scoped. destruct (m o) as [[a|e] o']; [|done]. by apply has_entry_quiet.
Qed.
Lemma gives_with_manager {A} access op (body : Z → Exec O A) name (x : A → option ServiceConfig) :
  (∀ m, gives (λ _, True) (body m) (λ a, has_entry name (x a))) →
  gives (λ _, True) (with_manager access op body) (λ a, has_entry name (x a)).
Proof. intros Hb. unfold with_manager. apply gives_bind. intros [e|m]; [apply gives_leave|]. apply gives_scoped, Hb. Qed.

(** What an attempt to open the service tells. *)
Definition open_told (name : wide) (r : Native Z) (o : O) : Prop :=
  match r with
  | inr h => handle_name o h = Some name
  | inl e => e = ERROR_SERVICE_DOES_NOT_EXIST ∨ e = ERROR_SERVICE_MARKED_FOR_DELETE → has_entry name None o
  end.
Lemma gives_open {B} m name access (f : Native Z → Exec O B) Q :
  (∀ r, gives (open_told name r) (f r) Q) → gives (λ _, True) (call (OpenService m name access) ≫= f) Q.
Proof.
  intros Hf. apply (triple_bind _ _ _ _ (open_told name)); [|exact Hf]. intros o _. unfold call.
  pose proof (open_found m name access o) as H1. pose proof (open_absent m name access o) as H2.
  destruct (host (OpenService m name access) o) as [[e|h] o']; cbn [fst snd] in *; [intros He; by apply (H2 e)|by apply H1].
Qed.

Lemma gives_deleted m name op : gives (λ _, True) (WaitForDeletion m name op) (λ _, has_entry name None).
Proof.
  unfold WaitForDeletion. apply gives_bind. intros start o _. unfold until_done.
  pose proof (rounds_keeps (λ _ : O, True) (λ r, match r.1 with Success _ => has_entry name None r.2 | Failure _ => True end)
    64 (wait_deletion_round m name (start + kServiceTimeout) op) o) as Hk.
  assert (∀ o, True → match wait_deletion_round m name (start + kServiceTimeout) op o with inl _ => True
    | inr r => match r.1 with Success _ => has_entry name None r.2 | Failure _ => True end end) as Hr.
  { clear. intros o _. unfold wait_deletion_round. cbv zeta. destruct (host SteadyClockNow o) as [now o1].
    split_goal_match; [done|]. pose proof (open_absent m name SERVICE_QUERY_STATUS o1) as Ha.
    destruct (host (OpenService m name SERVICE_QUERY_STATUS) o1) as [[e|h] o2]; cbn [fst snd] in *.
    - destruct (Z.eqb_spec e ERROR_SERVICE_DOES_NOT_EXIST) as [->|]; [by apply (Ha _ eq_refl); left|].
      split_goal_match; [done|]. by destruct (host (Sleep _) _).
    - destruct (host (Sleep _) _) as [? o3]. by destruct (host (CloseServiceHandle _) o3). }
  specialize (Hk Hr I). destruct (rounds 64 _ o) as [o'|[[?|?] o']]; done.
Qed.
Lemma gives_removed name : gives (λ _, True) (Remove name) (λ _, has_entry name None).
Proof.
  unfold Remove. do 2 (apply gives_bind; intros _). apply (gives_with_manager _ _ _ name (λ _, None)).
  intros m. apply gives_open. intros [e|s]; [|apply gives_bind; intros _; apply gives_deleted].
  destruct (Z.eqb_spec e ERROR_SERVICE_DOES_NOT_EXIST) as [->|]; [apply triple_ret; intros ? Ho; by apply Ho; left|].
  destruct (_ =? ERROR_SERVICE_MARKED_FOR_DELETE); [|apply gives_leave].
  intros o _. exact (gives_deleted m name "DriverService::Remove" o I).
Qed.

(** Setting the configuration and going on with what leaves it alone. *)
Lemma gives_created {B} m name access c (finish : Z → Exec O B) (failed : Z → Exec O B) P :
  (∀ s, triple (has_entry name (Some c)) (finish s) (λ _, has_entry name (Some c)) (λ _, has_entry name (Some c))) →
  (∀ e, gives (λ _, True) (failed e) (λ _, has_entry name (Some c))) →
  gives P (created ← call (CreateService m name access c); match created with inl e => failed e | inr s => scoped s (finish s) end)
    (λ _, has_entry name (Some c)).
Proof.
  intros Hf He o _. unfold mbind, Exec_bind, call. pose proof (create_stored m name access c o) as Hc.
  destruct (host (CreateService m name access c) o) as [[e|s] o']; [by apply He|]. cbn [fst snd] in Hc.
  apply (gives_scoped _ s (finish s) name (λ _, Some c) (gives_stays _ _ (Hf s))). by eapply Hc.
Qed.
Lemma gives_changed {B} name s c (finish : Exec O B) (failed : Z → Exec O B) :
  triple (has_entry name (Some c)) finish (λ _, has_entry name (Some c)) (λ _, has_entry name (Some c)) →
  (∀ e, gives (λ _, True) (failed e) (λ _, has_entry name (Some c))) →
  gives (λ o, handle_name o s = Some name)
    (scoped s (changed ← call (ChangeServiceConfig s c); match changed with inl e => failed e | inr _ => finish end))
    (λ _, has_entry name (Some c)).
Proof.
  intros Hf He. apply (gives_scoped _ s _ name (λ _, Some c)). intros o Ho. unfold mbind, Exec_bind, call.
  pose proof (change_stored s c o name) as Hc. destruct (host (ChangeServiceConfig s c) o) as [[e|[]] o']; [by apply He|].
  cbn [fst snd] in Hc. apply (gives_stays _ _ Hf). by apply Hc.
Qed.

Lemma gives_restored name c :
  gives (λ _, True) (RestoreConfiguration name c) (λ _, has_entry name (if exists_ c then Some (restored_config c) else None)).
Proof.
  unfold RestoreConfiguration. apply gives_bind. intros _. destruct (exists_ c); cbn [negb]; [|apply gives_removed].
  do 2 (apply gives_bind; intros _). apply (gives_with_manager _ _ _ name (λ _, Some (restored_config c))).
  intros m. unfold restore_with. cbv zeta. set (finish := if running_ c then Start name else mret tt).
  assert (∀ R : O → Prop, (∀ c o, quiet c = true → R o → R (host c o).2) → triple R finish (λ _, R) (λ _, R)) as Hf.
  { intros R HR. unfold finish. destruct (running_ c); [by apply stays_start|by apply triple_ret]. }
  apply gives_open. intros [e|s].
  - destruct (negb _); [apply gives_leave|].
    apply gives_created; [intros s; apply Hf; intros; by apply has_entry_quiet|intros; apply gives_leave].
  - apply gives_changed; [apply Hf; intros; by apply has_entry_quiet|intros; apply gives_leave].
Qed.

Lemma gives_read name s op x :
  gives (λ o, handle_name o s = Some name ∧ has_entry name x o) (read_configuration s op)
    (λ c o, has_entry name (Some (restored_config c)) o ∧ exists_ c = true).
Proof.
  intros o [Hh Hx]. unfold read_configuration, mbind, Exec_bind, call at 1.
  pose proof (handle_kept (QueryServiceConfigSize s) o s name ltac:(done) Hh) as H1.
  destruct (host (QueryServiceConfigSize s) o) as [[sizing required] o1]. cbn [snd] in H1. split_goal_match; [done|].
  unfold call. pose proof (query_true s required o1 name) as Hq.
  pose proof (has_entry_quiet name (entry o1 name) (QueryServiceConfig s required) o1 eq_refl eq_refl) as H2.
  destruct (host (QueryServiceConfig s required) o1) as [[e|c] o2]; [done|]. cbn [fst snd] in *.
  specialize (Hq c eq_refl H1). unfold has_entry in H2. rewrite Hq in H2.
  pose proof (stays_status (has_entry name (Some c)) (has_entry_quiet name (Some c)) s op o2 H2) as H3.
  destruct (QueryStatus s op o2) as [[status|e] o3]; [|done]. cbv zeta. split_goal_match; [done|].
  destruct (entry_text o2 name c H2) as [T1 T2].
  destruct c as [ty st er [path|] [display|]]; try done. unfold text_kept in T1, T2. cbn [lpBinaryPathName lpDisplayName] in T1, T2.
  split; [|done]. unfold has_entry, restored_config. cbn [service_type start_type error_control binary_path display_name].
  rewrite !T1, !T2. exact H3.
Qed.
Lemma gives_queried name :
  gives (λ _, True) (QueryConfiguration name)
    (λ c, has_entry name (if exists_ c then Some (restored_config c) else None)).
Proof.
  unfold QueryConfiguration. apply gives_bind. intros _.
  apply (gives_with_manager _ _ _ name (λ c, if exists_ c then Some (restored_config c) else None)). intros m.
  unfold QueryConfigurationWithManager. apply gives_open. intros [e|s].
  - destruct (_ || _) eqn:E; [|apply gives_leave]. apply triple_ret. intros o Ho. apply Ho.
    apply orb_true_iff in E as [->%Z.eqb_eq| ->%Z.eqb_eq]; [by left|by right].
  - apply gives_scoped. intros o Ho. pose proof (gives_read name s "DriverService::QueryConfiguration" (entry o name) o (conj Ho eq_refl)) as H1.
    destruct (read_configuration _ _ o) as [[c|e] o']; [|done]. by destruct H1 as [? ->].
Qed.

Lemma gives_installed name display path m :
  gives (λ _, True) (install_with m name display path) (λ _, has_entry name (Some (driver_config path display))).
Proof.
  unfold install_with. cbv zeta. apply gives_open. intros [e|s].
  - apply gives_bind. intros _.
    apply (gives_created m name configure_access (driver_config path display) (λ _, mret tt)
      (ServiceError "CreateServiceW failed" "InstallOrUpdate"));
      [intros; by apply triple_ret|intros; apply gives_leave].
  - apply (gives_changed name s (driver_config path display) (mret tt)
      (ServiceError "ChangeServiceConfigW failed" "InstallOrUpdate")); [by apply triple_ret|intros; apply gives_leave].
Qed.
(** An installed service runs the file the given path names, under the given title. *)
Theorem service_installed name display path o :
  match InstallOrUpdate name display path o with
  | (Success _, o') => ∃ absolute, (host (CanonicalPath path) o).1 = (0, absolute) ∧
      entry o' name = Some (driver_config absolute display)
  | _ => True
  end.
Proof.
  unfold InstallOrUpdate, check, find_driver, mbind, Exec_bind, mret, Exec_ret, call, leave. cbv zeta.
  destruct (IsValidServiceText name && _); [|done].
  destruct (host (CanonicalPath path) o) as [[error absolute] o1]. cbn [fst].
  destruct (Z.eqb_spec error 0) as [->|]; cbn [negb]; [|done].
  destruct (host (IsRegularFile absolute) o1) as [[error2 regular] o2]. destruct (negb regular || negb (error2 =? 0)); [done|].
  destruct (host (CompareStringOrdinal _ _) o2) as [order o3]. destruct (negb (order =? CSTR_EQUAL)); [done|].
  destruct (sizeZ absolute <=? kMaximumDriverPath); [|done].
  pose proof (gives_with_manager (Z.lor SC_MANAGER_CONNECT SC_MANAGER_CREATE_SERVICE) "InstallOrUpdate"
    (λ manager, install_with manager name display absolute) name (λ _, Some (driver_config absolute display))
    (gives_installed name display absolute) o3 I) as H1.
  destruct (with_manager _ _ _ o3) as [[a|e] o4]; [by exists absolute|done].
Qed.
End Database.

(** Restoring a running service ends with what starting it saw. *)
Section Restarted.
Context {O : Type} `{!Host ServiceCall service_reply O}.

Lemma yields_any {A} P (m : Exec (Logged ServiceCall service_reply O) A) (Q : A → Logged ServiceCall service_reply O → Prop) :
  (∀ a l, Q a l) → yields P m Q.
Proof. intros HQ l _. by destruct (m l) as [[?|?] ?]. Qed.
Lemma yields_restarted m name c :
  running_ c = true →
  yields (O := O) (λ _, True) (restore_with m name c) (λ _ l, ∃ s, after_close s (start_evidence name) (lg_calls l)).
Proof.
  intros Er. unfold restore_with. rewrite Er. cbv zeta.
  assert (∀ s (body : Exec (Logged ServiceCall service_reply O) unit),
    yields (λ _, True) body (λ _ l, start_evidence name (lg_calls l)) →
    yields (λ _, True) (scoped s body) (λ _ l, ∃ s, after_close s (start_evidence name) (lg_calls l))) as Hs.
  { intros s body Hb l Hl. pose proof (yields_scoped (λ _, True) s body (λ _, start_evidence name) Hb l Hl) as H.
    destruct (scoped s body l) as [[a|e] l']; [by exists s|done]. }
  apply yields_bind. intros [e|s].
  - destruct (negb _); [apply yields_leave|]. apply yields_bind. intros [e2|s]; [apply yields_leave|apply Hs, yields_start].
  - apply Hs, yields_bind. intros [e|u]; [apply yields_leave|apply yields_start].
Qed.
Lemma yields_restored name c :
  yields (O := O) (λ _, True) (RestoreConfiguration name c)
    (λ _ l, exists_ c = true → running_ c = true → ∃ m s, after_close m (after_close s (start_evidence name)) (lg_calls l)).
Proof.
  destruct (exists_ c) eqn:Ee; [|by apply yields_any]. destruct (running_ c) eqn:Er; [|by apply yields_any].
  unfold RestoreConfiguration. rewrite Ee. cbn [negb]. do 3 (apply yields_bind; intros _). intros l Hl.
  pose proof (yields_with_manager (Z.lor SC_MANAGER_CONNECT SC_MANAGER_CREATE_SERVICE) "DriverService::RestoreConfiguration"
    (λ manager, restore_with manager name c) (λ _ calls, ∃ s, after_close s (start_evidence name) calls)
    (λ m, yields_restarted m name c Er) l Hl) as H.
  destruct (with_manager _ _ _ l) as [[a|e] l']; [|done]. intros _ _.
  destruct H as (m & calls & E & s & Hs). exists m, s. by exists calls.
Qed.
End Restarted.


(** ** The waits end *)

(** The steady clock never goes back, and a sleep takes some time. *)
Class ServiceClock (O : Type) `{!Host ServiceCall service_reply O} := {
  clock : O → Z;
  clock_now o : (host SteadyClockNow o).1 = clock o;
  clock_steady c o : clock o ≤ clock (host c o).2;
  clock_sleep ms o : 0 < ms → clock o < clock (host (Sleep ms) o).2
}.

Section Termination.
Context {O : Type} `{ServiceClock O}.

(** A function returns a value or one of the errors of the program. *)
Definition finishes {A} (m : Exec O A) : Prop := ∀ o, match (m o).1 with Success _ => True | Failure e => code e ≠ InternalInvariant end.

Lemma finishes_ret {A} (a : A) : finishes (mret a).
Proof. done. Qed.
Lemma finishes_leave {A} e : code e ≠ InternalInvariant → finishes (leave e : Exec O A).
Proof. by intros ? o. Qed.
Lemma finishes_call c : finishes (call c).
Proof. intros o. unfold call. by destruct (host c o). Qed.
Lemma finishes_bind {A B} (m : Exec O A) (f : A → Exec O B) : finishes m → (∀ a, finishes (f a)) → finishes (m ≫= f).
Proof. intros Hm Hf o. specialize (Hm o). unfold mbind, Exec_bind. destruct (m o) as [[a|e] o']; [apply Hf|done]. Qed.
Lemma finishes_scoped {A} h (m : Exec O A) : finishes m → finishes (scoped h m).
Proof. intros Hm o. specialize (Hm o). unfold scoped. by destruct (m o). Qed.
Lemma finishes_outcome {A B} (m : Exec O A) (f : Result A → Exec O B) :
  finishes m → (∀ a, finishes (f (Success a))) → (∀ e, code e ≠ InternalInvariant → finishes (f (Failure e))) →
  finishes (outcome m ≫= f).
Proof.
  intros Hm Hs Hf o. specialize (Hm o). unfold outcome, mbind, Exec_bind.
  destruct (m o) as [[a|e] o']; [apply Hs|by apply Hf].
Qed.

(** A loop whose rounds take time until its deadline. *)
Lemma finishes_until deadline start round :
  deadline - start < 2 ^ 64 →
  (∀ o, start ≤ clock o → match round o with
        | inl o' => clock o < clock o' ∧ clock o < deadline
        | inr r => match r.1 with Success _ => True | Failure e => code e ≠ InternalInvariant end end) →
  ∀ o, start ≤ clock o →
  match (until_done round o).1 with Success _ => True | Failure e => code e ≠ InternalInvariant end.
Proof.
  intros Hd Hr o Ho. unfold until_done.
  destruct (rounds_enough (λ o, start ≤ clock o) (λ o, Z.max 0 (deadline - clock o)) 64 round o) as [r E].
  - intros o0 H0. specialize (Hr o0 H0). destruct (round o0); [lia|done].
  - done.
  - change (2 ^ Z.of_nat 64) with (2 ^ 64). lia.
  - pose proof (rounds_keeps (λ o, start ≤ clock o) (λ r, match r.1 with Success _ => True | Failure e => code e ≠ InternalInvariant end) 64 round o) as Hk.
    rewrite E in *. apply Hk; [|done]. intros o0 H0. specialize (Hr o0 H0). destruct (round o0); [lia|done].
Qed.

Ltac finish :=
  repeat first
    [ assumption
    | lazymatch goal with
      | |- finishes (mbind _ (outcome _)) => apply finishes_outcome; [|intros ?|intros ? ?]
      | |- finishes (mbind _ _) => apply finishes_bind; [|intros ?]
      | |- finishes (call ?c) => apply (finishes_call c)
      | |- finishes (mret _) => apply finishes_ret
      | |- finishes (leave _) => by apply finishes_leave
      | |- finishes (fails _ _ _ _) => by apply finishes_leave
      | |- finishes (ServiceError _ _ _) => by apply finishes_leave
      | |- finishes (scoped _ _) => apply finishes_scoped
      | |- finishes (match ?x with _ => _ end) => destruct x
      end ].

Lemma finishes_status s op : finishes (QueryStatus s op).
Proof. unfold QueryStatus. finish. Qed.
Lemma status_steady s op (o : O) : clock o ≤ clock (QueryStatus s op o).2.
Proof.
  unfold QueryStatus, mbind, Exec_bind, call. pose proof (clock_steady (QueryServiceStatusEx s) o) as Hc.
  destruct (host (QueryServiceStatusEx s) o) as [[e|[bytes status]] o']; [done|]. by destruct (negb _).
Qed.
Lemma finishes_from_now {B} (k : Z → Exec O B) :
  (∀ start o, start ≤ clock o → match (k start o).1 with Success _ => True | Failure e => code e ≠ InternalInvariant end) →
  finishes (start ← call SteadyClockNow; k start).
Proof.
  intros Hk o. unfold mbind, Exec_bind, call. pose proof (clock_now o) as Hn. pose proof (clock_steady SteadyClockNow o) as Hs.
  destruct (host SteadyClockNow o) as [now o']. apply Hk. cbn [fst snd] in *. lia.
Qed.
Lemma finishes_wait_state s desired timeout op : timeout < 2 ^ 64 → finishes (WaitForState s desired timeout op).
Proof.
  intros Ht. unfold WaitForState. apply finishes_from_now. intros start.
  apply (finishes_until (start + timeout)); [lia|]. clear. intros o Ho. unfold wait_state_round.
  pose proof (finishes_status s op o) as Hf. pose proof (status_steady s op o) as Hs.
  destruct (QueryStatus s op o) as [[status|e] o1]; [|done]. cbv zeta. cbn [snd] in Hs.
  do 2 (split_goal_match; [done|]). pose proof (clock_now o1) as Hn. pose proof (clock_steady SteadyClockNow o1) as H1.
  destruct (host SteadyClockNow o1) as [now o2]. cbn [fst snd] in *. split_goal_match; [done|]. boolify.
  pose proof (clock_sleep (wait_hint status) o2 ltac:(unfold wait_hint; lia)) as H2.
  destruct (host (Sleep _) o2) as [u o3]. cbn [snd] in H2. lia.
Qed.
Lemma finishes_wait_deletion m name op : finishes (WaitForDeletion m name op).
Proof.
  unfold WaitForDeletion. apply finishes_from_now. intros start.
  apply (finishes_until (start + kServiceTimeout)); [unfold kServiceTimeout; lia|]. clear. intros o Ho. unfold wait_deletion_round.
  cbv zeta. pose proof (clock_now o) as Hn. pose proof (clock_steady SteadyClockNow o) as H1.
  destruct (host SteadyClockNow o) as [now o1]. cbn [fst snd] in *. split_goal_match; [done|]. boolify.
  pose proof (clock_steady (OpenService m name SERVICE_QUERY_STATUS) o1) as H2.
  destruct (host (OpenService _ _ _) o1) as [[e|h] o2]; cbn [snd] in H2.
  - do 2 (split_goal_match; [done|]). pose proof (clock_sleep 100 o2 ltac:(lia)) as H3.
    destruct (host (Sleep 100) o2) as [u o3]. cbn [snd] in H3. lia.
  - pose proof (clock_sleep 100 o2 ltac:(lia)) as H3. destruct (host (Sleep 100) o2) as [u o3].
    pose proof (clock_steady (CloseServiceHandle h) o3) as H4. destruct (host (CloseServiceHandle h) o3) as [v o4]. cbn [snd] in *. lia.
Qed.
Lemma finishes_waits s desired op : finishes (WaitForState s desired kServiceTimeout op).
Proof. by apply finishes_wait_state. Qed.

Lemma finishes_start name : finishes (Start name).
Proof.
  pose proof finishes_status. pose proof finishes_waits. unfold Start, with_manager, start_opened, check. finish; auto.
Qed.
Lemma finishes_stop name : finishes (Stop name).
Proof.
  pose proof finishes_status. pose proof finishes_waits. pose proof finishes_wait_deletion.
  unfold Stop, with_manager, stop_opened, stop_running, check. finish; auto.
Qed.
Lemma finishes_remove name : finishes (Remove name).
Proof.
  pose proof (finishes_stop name). pose proof finishes_wait_deletion. unfold Remove, with_manager, check. finish; auto.
Qed.

(** The service operations end.  Waiting for a state and waiting for a deletion ask
    again and again until the clock has reached a deadline; with a clock that moves on
    while the function sleeps, every operation returns a value or one of its own errors. *)
Theorem services_end name display path c :
  finishes (InstallOrUpdate name display path) ∧ finishes (Start name) ∧ finishes (Stop name) ∧ finishes (Remove name) ∧
  finishes (RestoreConfiguration name c).
Proof.
  pose proof (finishes_start name). pose proof (finishes_stop name). pose proof (finishes_remove name).
  pose proof finishes_wait_deletion. repeat split; [|done..|].
  - unfold InstallOrUpdate, find_driver, with_manager, install_with, check. finish; auto.
  - unfold RestoreConfiguration, restore_with, with_manager, check. finish; auto.
Qed.
End Termination.

(** ** A concrete service *)

Definition demo_service : wide := wstr "KDbgDriver".
Record DemoServices := mkDemoServices {
  ds_config : option ServiceConfig;
  ds_state : Z;
  ds_handles : list wide;      (* what each handle given out names; a manager nothing *)
  ds_time : Z
}.
#[export] Instance DemoServices_eta : Eta DemoServices := λ s,
  mkDemoServices (ds_config s) (ds_state s) (ds_handles s) (ds_time s).

Definition ds_name (s : DemoServices) (h : Z) : option wide :=
  if h <=? 0 then None else ds_handles s !! Z.to_nat (h - 1).
Definition ds_open (name : wide) (s : DemoServices) : Native Z * DemoServices :=
  (inr (sizeZ (ds_handles s) + 1), s <| ds_handles := ds_handles s ++ [name] |>).
Definition text_kept_b (text : option wide) : bool :=
  match text with Some t => bool_decide (c_str t = t) | None => true end.
Definition config_kept_b (c : ServiceConfig) : bool := text_kept_b (lpBinaryPathName c) && text_kept_b (lpDisplayName c).
Definition ds_entry (s : DemoServices) (name : wide) : option ServiceConfig :=
  if bool_decide (name = demo_service) then
    match ds_config s with Some c => if config_kept_b c then Some c else None | None => None end
  else None.
Definition ds_store (c : ServiceConfig) (s : DemoServices) : DemoServices := s <| ds_config := Some c |>.

#[export] Instance demo_scm : Host ServiceCall service_reply DemoServices := λ c s,
  match c return service_reply c * DemoServices with
  | CanonicalPath p => ((0, p), s)
  | IsRegularFile p => ((0, true), s)
  | CompareStringOrdinal a b => (if bool_decide (a = b) then CSTR_EQUAL else 1, s)
  | OpenSCManager _ => ds_open [] s
  | OpenService _ name _ =>
      match ds_entry s name with Some _ => ds_open name s | None => (inl ERROR_SERVICE_DOES_NOT_EXIST, s) end
  | CreateService _ name _ c =>
      if bool_decide (name = demo_service) && config_kept_b c then ds_open name (ds_store c s) else (inl 87, s)
  | ChangeServiceConfig h c =>
      if bool_decide (ds_name s h = Some demo_service) && config_kept_b c then (inr tt, ds_store c s) else (inl 87, s)
  | QueryServiceStatusEx _ => (inr (sizeof_ServiceStatus, mkServiceStatus (ds_state s) 0 0 0), s)
  | QueryServiceConfigSize _ => ((ERROR_INSUFFICIENT_BUFFER, 300), s)
  | QueryServiceConfig h _ =>
      (match ds_name s h with
       | Some name => match ds_entry s name with Some c => inr c | None => inl 87 end
       | None => inl 6 end, s)
  | StartService _ => (inr tt, s <| ds_state := SERVICE_RUNNING |>)
  | ControlServiceStop _ => (inr tt, s <| ds_state := SERVICE_STOPPED |>)
  | DeleteService _ => (inr tt, s <| ds_config := None |>)
  | CloseServiceHandle _ => (tt, s)
  | SteadyClockNow => (ds_time s, s)
  | Sleep ms => (tt, s <| ds_time := ds_time s + Z.max 0 ms |>)
  end.

Lemma ds_open_name name s : ds_name (ds_open name s).2 (sizeZ (ds_handles s) + 1) = Some name.
Proof.
  unfold ds_name. pose proof (sizeZ_nonneg (ds_handles s)). rewrite (proj2 (Z.leb_gt _ _)) by lia. cbn.
  unfold sizeZ. replace (Z.to_nat (Z.of_nat (List.length (ds_handles s)) + 1 - 1)) with (List.length (ds_handles s)) by lia.
  by rewrite lookup_app_r, Nat.sub_diag by lia.
Qed.
Lemma ds_open_kept name s h x : ds_name s h = Some x → ds_name (ds_open name s).2 h = Some x.
Proof. unfold ds_name. destruct (h <=? 0); [done|]. cbn. apply lookup_app_l_Some. Qed.

#[export] Instance demo_database : ServiceDatabase DemoServices.
Proof.
  refine {| entry := ds_entry; handle_name := ds_name |}.
  - intros m name access s h. unfold host, demo_scm. destruct (ds_entry s name); [|done]. intros [= <-]. apply ds_open_name.
  - intros m name access s e. unfold host, demo_scm. by destruct (ds_entry s name) eqn:E.
  - intros m name access c s h. unfold host, demo_scm.
    destruct (bool_decide (name = demo_service)) eqn:En; [|done]. destruct (config_kept_b c) eqn:Ec; [|done]. intros _.
    unfold ds_entry. rewrite En. cbn. by rewrite Ec.
  - intros h c s name. unfold host, demo_scm. case_bool_decide as Hd; [|done]. destruct (config_kept_b c) eqn:Ec; [|done].
    cbn [fst snd]. rewrite Hd. intros _ [= <-]. unfold ds_entry. rewrite bool_decide_true by done. cbn. by rewrite Ec.
  - intros h n s name c. unfold host, demo_scm. cbn [fst]. destruct (ds_name s h) as [x|]; [|done].
    destruct (ds_entry s x) eqn:E; [|done]. intros [= <-] [= <-]. done.
  - intros s name c. unfold ds_entry. destruct (bool_decide (name = demo_service)); [|done].
    destruct (ds_config s) as [c0|]; [|done]. destruct (config_kept_b c0) eqn:Ec; [|done]. intros [= <-].
    unfold config_kept_b in Ec. apply andb_true_iff in Ec as [E1 E2]. unfold text_kept_b, text_kept in *.
    split; [destruct (lpBinaryPathName c0)|destruct (lpDisplayName c0)]; try done; by eapply bool_decide_eq_true.
  - intros c s name. destruct c; try done; intros _; unfold host, demo_scm; try done; by destruct (ds_entry s name0).
  - intros c s h name Hc Hn. unfold host, demo_scm. destruct c; try done; try by apply ds_open_kept.
    + destruct (ds_entry s name0); [by apply ds_open_kept|done].
    + destruct (_ && _); [|done]. by apply (ds_open_kept name0 (ds_store config s)).
    + by destruct (_ && _).
Defined.
#[export] Instance demo_service_clock : ServiceClock DemoServices.
Proof.
  refine {| clock := ds_time |}.
  - done.
  - intros c s. unfold host, demo_scm. destruct c; cbn; try lia; repeat case_match; cbn; lia.
  - intros ms s Hm. cbn. lia.
Defined.

Definition demo_driver : ServiceConfig := driver_config (wstr "C:\KDbg\KDbgDriver.sys") (wstr "KDBG").
Definition demo_running : DemoServices := mkDemoServices (Some demo_driver) SERVICE_RUNNING [] 0.
Definition demo_configuration : DriverServiceConfiguration :=
  mkDriverServiceConfiguration true true 1 3 1 (wstr "C:\KDbg\KDbgDriver.sys") (wstr "KDBG").
(** The driver was replaced by another one and stopped. *)
Definition demo_replaced : DemoServices := mkDemoServices (Some (driver_config (wstr "C:\new.sys") (wstr "New"))) SERVICE_STOPPED [] 7.

Lemma services_end_witness : code (match (Start demo_service demo_replaced).1 with Failure e => e | Success _ => MakeError IoFailure "" "" end) ≠ InternalInvariant
  ∧ ds_state (Start demo_service demo_replaced).2 = SERVICE_RUNNING.
Proof.
  split; [|by vm_compute]. pose proof (proj1 (proj2 (services_end (O := DemoServices) demo_service [] [] demo_configuration)) demo_replaced) as H.
  by destruct ((Start demo_service demo_replaced).1).
Defined.
