(* ===== verification/Win32Process.v ===== *)
(** [core/process/Win32ProcessMemory] and [core/process/ProcessCatalog]: the memory of a
    process through Windows, with the kernel driver as a fallback, and the list of
    processes. *)

From stdpp Require Import list.
From S2P Require Import Prelude CppStd Common Paths Host MemoryBackend ProcessMemory PointerScanner.
From Stdlib Require Import Ascii String.

#[local] Open Scope Z_scope.

(** ** Windows

    A process handle of 0 is null.  [GetLastError] is a call: the code asks for it after
    others. *)

Definition PROCESS_VM_OPERATION : Z := 0x8.
Definition PROCESS_VM_READ : Z := 0x10.
Definition PROCESS_VM_WRITE : Z := 0x20.
Definition PROCESS_QUERY_INFORMATION : Z := 0x400.
Definition PROCESS_QUERY_LIMITED_INFORMATION : Z := 0x1000.
Definition ERROR_ACCESS_DENIED : Z := 5.
Definition ERROR_NO_MORE_FILES : Z := 18.
Definition STILL_ACTIVE : Z := 259.
Definition IMAGE_FILE_MACHINE_UNKNOWN : Z := 0.
Definition IMAGE_FILE_MACHINE_AMD64 : Z := 0x8664.
Definition IMAGE_FILE_MACHINE_ARM64 : Z := 0xAA64.

Definition PAGE_READONLY : Z := 0x02.
Definition PAGE_READWRITE : Z := 0x04.
Definition PAGE_WRITECOPY : Z := 0x08.
Definition PAGE_EXECUTE : Z := 0x10.
Definition PAGE_EXECUTE_READ : Z := 0x20.
Definition PAGE_EXECUTE_READWRITE : Z := 0x40.
Definition PAGE_EXECUTE_WRITECOPY : Z := 0x80.
Definition PAGE_GUARD : Z := 0x100.
Definition MEM_COMMIT : Z := 0x1000.
Definition MEM_MAPPED : Z := 0x40000.
Definition MEM_IMAGE : Z := 0x1000000.

(** [MEMORY_BASIC_INFORMATION], [MODULEENTRY32W] and [PROCESSENTRY32W]: the fields used. *)
Record MemoryInformation := mkMemoryInformation {
  mi_base : Z; mi_size : Z; mi_state : Z; mi_protect : Z; mi_type : Z }.
Record ModuleEntry := mkModuleEntry { me_base : Z; me_size : Z; me_name : wide; me_path : wide }.
Record ProcessEntry := mkProcessEntry { pe_pid : Z; pe_parent : Z; pe_exe : wide }.

Inductive ProcessCall :=
  | OpenProcess (access pid : Z)
  | CloseHandle (handle : Z)
  | GetLastError
  | GetProcessTimes (handle : Z)
  | GetProcessId (handle : Z)
  | FindIsWow64Process2                          (* whether kernel32 has the function *)
  | IsWow64Process2 (handle : Z)
  | IsWow64Process (handle : Z)
  | GetExitCodeProcess (handle : Z)
  | ReadProcessMemory (handle address count : Z)
  | WriteProcessMemory (handle address : Z) (data : list Z)
  | FlushInstructionCache (handle address count : Z)
  | GetNativeSystemInfo
  | VirtualQueryEx (handle address : Z)
  | GetMappedFileName (handle address : Z)
  | QueryFullProcessImageName (handle : Z)
  | CreateModuleSnapshot (pid : Z)
  | Module32First (snapshot : Z)
  | Module32Next (snapshot : Z)
  | CreateProcessSnapshot
  | Process32First (snapshot : Z)
  | Process32Next (snapshot : Z).

Definition process_reply (c : ProcessCall) : Type :=
  match c with
  | OpenProcess _ _ => option Z
  | CloseHandle _ => unit
  | GetLastError => Z
  | GetProcessTimes _ => option (Z * Z)          (* low and high half of the creation time *)
  | GetProcessId _ => Z
  | FindIsWow64Process2 => bool
  | IsWow64Process2 _ => option (Z * Z)          (* machine of the process, and of the system *)
  | IsWow64Process _ => option bool
  | GetExitCodeProcess _ => option Z
  | ReadProcessMemory _ _ _ => option (list Z)   (* what was read *)
  | WriteProcessMemory _ _ _ => option Z         (* how much was written *)
  | FlushInstructionCache _ _ _ => unit
  | GetNativeSystemInfo => Z * Z                 (* lowest and highest address *)
  | VirtualQueryEx _ _ => option MemoryInformation
  | GetMappedFileName _ _ => wide
  | QueryFullProcessImageName _ => option wide
  | CreateModuleSnapshot _ | CreateProcessSnapshot => option Z
  | Module32First _ | Module32Next _ => option ModuleEntry
  | Process32First _ | Process32Next _ => option ProcessEntry
  end.

(** [WideCharToMultiByte] for UTF-8, which replaces what is not UTF-16; [None] is a
    result of no characters. *)
Class LossyText := { WideCharToMultiByte : wide → option string }.

Definition one_of (base : Z) (values : list Z) : bool := existsb (Z.eqb base) values.
Definition ProtectionReadable (protection : Z) : bool :=
  one_of (Z.land protection 0xFF)
    [PAGE_READONLY; PAGE_READWRITE; PAGE_WRITECOPY; PAGE_EXECUTE_READ; PAGE_EXECUTE_READWRITE; PAGE_EXECUTE_WRITECOPY].
Definition ProtectionWritable (protection : Z) : bool :=
  one_of (Z.land protection 0xFF) [PAGE_READWRITE; PAGE_WRITECOPY; PAGE_EXECUTE_READWRITE; PAGE_EXECUTE_WRITECOPY].
Definition ProtectionExecutable (protection : Z) : bool :=
  one_of (Z.land protection 0xFF) [PAGE_EXECUTE; PAGE_EXECUTE_READ; PAGE_EXECUTE_READWRITE; PAGE_EXECUTE_WRITECOPY].

(** [Win32ProcessMemory::Impl], with the system and the backend it points to. *)
Record Win32ProcessMemory (V B : Type) := mkWin32ProcessMemory {
  windows : V;
  backend : option B;
  process : Z;
  wp_pid : Z;
  pointer_size : Z;
  writes_armed : bool;
  direct_write_access : bool;
  creation_time : Z;
  driver_eprocess : Z;
  driver_dtb : Z
}.
Arguments mkWin32ProcessMemory {V B}.
Arguments windows {V B}. Arguments backend {V B}. Arguments process {V B}. Arguments wp_pid {V B}.
Arguments pointer_size {V B}. Arguments writes_armed {V B}. Arguments direct_write_access {V B}.
Arguments creation_time {V B}. Arguments driver_eprocess {V B}. Arguments driver_dtb {V B}.
#[export] Instance Win32ProcessMemory_eta V B : Eta (Win32ProcessMemory V B) := λ p,
  mkWin32ProcessMemory (windows p) (backend p) (process p) (wp_pid p) (pointer_size p) (writes_armed p)
    (direct_write_access p) (creation_time p) (driver_eprocess p) (driver_dtb p).

Record ProcessInfo := mkProcessInfo {
  info_pid : Z; info_parent_pid : Z; info_name : string; info_path : string; info_is_64_bit : bool }.

Section Win32.
Context {V : Type} `{!Host ProcessCall process_reply V} `{LossyText} `{StdSort}.

Abbreviation sys c v := (host (C := ProcessCall) (reply := process_reply) (O := V) c v).

Definition WideToUtf8 (value : wide) : string :=
  if bool_decide (value = []) then ""%string else default ""%string (WideCharToMultiByte value).

Definition QueryCreationTime (handle : Z) (v : V) : option Z * V :=
  let '(times, v) := sys (GetProcessTimes handle) v in
  ((λ t, Z.lor (Z.shiftl t.2 32) t.1) <$> times, v).

Section Process.
Context {B : Type} `{IMemoryBackend B}.
Abbreviation W := (Win32ProcessMemory V B).

Definition new_process_memory (v : V) : W := mkWin32ProcessMemory v None 0 0 8 false false 0 0 0.

Definition win (c : ProcessCall) (p : W) : process_reply c * W :=
  let '(r, v) := sys c (windows p) in (r, p <| windows := v |>).
Definition creation_of (handle : Z) (p : W) : option Z * W :=
  let '(r, v) := QueryCreationTime handle (windows p) in (r, p <| windows := v |>).
(** The error of a call that failed, with [GetLastError]. *)
Definition denied_or {A} (other : ErrorCode) (msg op : string) (req comp : Z) (p : W) : Result A * W :=
  let '(last_error, p) := win GetLastError p in
  (Failure (MakeErrorFull (if last_error =? ERROR_ACCESS_DENIED then AccessDenied else other) msg op last_error req comp), p).

(** ** The backend *)

Definition connected (p : W) : bool := match backend p with Some b => bi_connected (Info b) | None => false end.
(** A method of the backend the object points to; callers have checked that there is one. *)
Definition on_backend {A} (f : B → Result A * B) (p : W) : Result A * W :=
  match backend p with
  | Some b => let '(r, b) := f b in (r, p <| backend := Some b |>)
  | None => (Failure (MakeError InternalInvariant "" ""), p)
  end.

Definition ValidateDriverIdentity (op : string) (p : W) : Result unit * W :=
  if negb (connected p) || (driver_eprocess p =? 0) || (driver_dtb p =? 0) then
    (Failure (MakeError BackendDisconnected "KDBG process identity is unavailable" op), p)
  else
    match on_backend (GetProcessContext (wp_pid p)) p with
    | (Failure e, p) => (Failure e, p)
    | (Success context, p) =>
        if negb (pc_eprocess context =? driver_eprocess p) || negb (pc_directory_table_base context =? driver_dtb p) then
          (Failure (MakeError ConcurrentModification "PID now refers to a different process instance" op), p)
        else (Success tt, p)
    end.

(** ** Attaching *)

Definition detect_pointer_size (p : W) : W :=
  let '(found, p) := win FindIsWow64Process2 p in
  if (found : bool) then
    match win (IsWow64Process2 (process p)) p with
    | (Some (machine, _), p) => if negb (machine =? IMAGE_FILE_MACHINE_UNKNOWN) then p <| pointer_size := 4 |> else p
    | (None, p) => p
    end
  else
    match win (IsWow64Process (process p)) p with
    | (Some true, p) => p <| pointer_size := 4 |>
    | (_, p) => p
    end.
Definition learn_driver_identity (p : W) : Result unit * W :=
  if negb (connected p) then (Success tt, p)
  else
    match on_backend (GetProcessContext (wp_pid p)) p with
    | (Failure e, p) => if process p =? 0 then (Failure e, p) else (Success tt, p)
    | (Success context, p) =>
        (Success tt, p <| driver_eprocess := pc_eprocess context |> <| driver_dtb := pc_directory_table_base context |>)
    end.
(** The two attempts to open the process. *)
Definition open_process (pid : Z) (p : W) : W :=
  let '(full, p) := win (OpenProcess (Z.lor PROCESS_QUERY_INFORMATION PROCESS_VM_READ) pid) p in
  match full with
  | Some h => p <| process := h |>
  | None =>
      let '(limited, p) := win (OpenProcess PROCESS_QUERY_LIMITED_INFORMATION pid) p in
      p <| process := default 0 limited |>
  end.

Definition Win32_Open (pid : Z) (b : option B) (p : W) : Result unit * W :=
  let op := "Win32ProcessMemory::Open" in
  if pid =? 0 then (Failure (MakeError InvalidArgument "PID 0 cannot be attached" op), p)
  else
    let p := open_process pid p in
    if (process p =? 0) && negb (bool_decide (is_Some b)) then
      denied_or IoFailure "OpenProcess failed and no KDBG driver fallback is available" op 0 0 p
    else
      let p := p <| wp_pid := pid |> <| backend := b |> <| pointer_size := 8 |> in
      if process p =? 0 then learn_driver_identity p
      else
        let refuse p :=
          let '(_, p) := win (CloseHandle (process p)) p in
          let p := p <| process := 0 |> in
          let '(last_error, p) := win GetLastError p in
          (Failure (MakeErrorFull IoFailure "Unable to establish stable process identity" op last_error 0 0), p) in
        match creation_of (process p) p with
        | (None, p) => refuse p
        | (Some created, p) =>
            let p := p <| creation_time := created |> in
            let '(id, p) := win (GetProcessId (process p)) p in
            if negb (id =? pid) then refuse p else learn_driver_identity (detect_pointer_size p)
        end.

(** The destructor. *)
Definition Destroy (p : W) : W :=
  let p := match backend p with
           | Some _ => if writes_armed p then (on_backend (SetWriteEnabled false) p).2 else p
           | None => p
           end in
  if negb (process p =? 0) then (win (CloseHandle (process p)) p).2 else p.
(** The object, or the error once it is destroyed. *)
Definition Attach (pid : Z) (b : option B) (v : V) : W + Error * W :=
  match Win32_Open pid b (new_process_memory v) with
  | (Success _, p) => inl p
  | (Failure e, p) => inr (e, Destroy p)
  end.

Definition Win32_IsOpen (p : W) : bool * W :=
  if wp_pid p =? 0 then (false, p)
  else if negb (process p =? 0) then
    let '(id, p) := win (GetProcessId (process p)) p in
    if negb (id =? wp_pid p) then (false, p)
    else
      match creation_of (process p) p with
      | (None, p) => (false, p)
      | (Some created, p) =>
          if negb (created =? creation_time p) then (false, p)
          else
            let '(exit_code, p) := win (GetExitCodeProcess (process p)) p in
            (bool_decide (exit_code = Some STILL_ACTIVE), p)
      end
  else (connected p, p).

(** ** Writing *)

Definition ReopenForWriteLocked (p : W) : Result unit * W :=
  let op := "Win32ProcessMemory::ReopenForWrite" in
  let access := Z.lor (Z.lor PROCESS_QUERY_INFORMATION PROCESS_VM_READ) (Z.lor PROCESS_VM_WRITE PROCESS_VM_OPERATION) in
  match win (OpenProcess access (wp_pid p)) p with
  | (None, p) => denied_or IoFailure "Unable to open the process for direct writes" op 0 0 p
  | (Some write_process, p) =>
      let refuse p :=
        let '(_, p) := win (CloseHandle write_process) p in
        (Failure (MakeError ConcurrentModification "PID now refers to a different process instance" op), p) in
      let '(id, p) := win (GetProcessId write_process) p in
      if negb (id =? wp_pid p) then refuse p
      else
        match creation_of write_process p with
        | (None, p) => refuse p
        | (Some created, p) =>
            if negb (creation_time p =? 0) && negb (created =? creation_time p) then refuse p
            else
              let p := if negb (process p =? 0) then (win (CloseHandle (process p)) p).2 else p in
              (Success tt, p <| process := write_process |> <| creation_time := created |> <| direct_write_access := true |>)
        end
  end.

Definition Win32_SetWritesArmed (armed : bool) (p : W) : Result unit * W :=
  if negb armed then
    if connected p then
      match on_backend (SetWriteEnabled false) p with
      | (Failure e, p) => (Failure e, p)
      | (Success _, p) => (Success tt, p <| writes_armed := false |>)
      end
    else (Success tt, p <| writes_armed := false |>)
  else
    let '(direct, p) :=
      if negb (process p =? 0) && negb (direct_write_access p) then ReopenForWriteLocked p else (Success tt, p) in
    match (if connected p then None else match direct with Failure e => Some e | Success _ => None end) with
    | Some e => (Failure e, p)
    | None =>
        if connected p then
          match on_backend (SetWriteEnabled true) p with
          | (Failure e, p) => if negb (direct_write_access p) then (Failure e, p) else (Success tt, p <| writes_armed := true |>)
          | (Success _, p) => (Success tt, p <| writes_armed := true |>)
          end
        else (Success tt, p <| writes_armed := true |>)
    end.

Definition Win32_Read (address length : Z) (p : W) : Result (list Z) * W :=
  let op := "Win32ProcessMemory::Read" in
  if (address =? 0) || (length =? 0) then (Failure (MakeError InvalidArgument "Invalid process read request" op), p)
  else
    let '(direct, p) :=
      if negb (process p =? 0) then win (ReadProcessMemory (process p) address length) p else (None, p) in
    match (match direct with Some bytes => if sizeZ bytes =? length then Some bytes else None | None => None end) with
    | Some bytes => (Success bytes, p)
    | None =>
        if connected p then
          match ValidateDriverIdentity op p with
          | (Failure e, p) => (Failure e, p)
          | (Success _, p) => on_backend (ReadProcessVirtual (wp_pid p) address length) p
          end
        else denied_or ShortRead "Process memory read failed" op length 0 p
    end.

Definition close_backend_gate (p : W) : Result unit * W :=
  if negb (connected p) then (Success tt, p)
  else
    match on_backend (SetWriteEnabled false) p with
    | (Success _, p) => (Success tt, p)
    | (Failure closed, p) =>
        match on_backend (SetWriteEnabled false) p with
        | (Success _, p) =>
            (Failure (closed <| message := message closed +:+
               "; a cleanup retry locked the backend gate, but the write transaction is failed" |>), p)
        | (Failure retry, p) =>
            (Failure (closed <| message := message closed +:+ "; cleanup retry also failed: " +:+ message retry |>), p)
        end
    end.
Definition finish_write (outcome : Result Z) (p : W) : Result Z * W :=
  match close_backend_gate p with
  | (Success _, p) => (outcome, p)
  | (Failure e, p) =>
      (Failure (match outcome with
                | Success _ => e
                | Failure failed => e <| message := message e +:+ "; write path also failed: " +:+ message failed |>
                end), p)
  end.
(** What the write does between the arm and the gate. *)
Definition write_unlocked (address : Z) (data : list Z) (p : W) : Result Z * W :=
  let op := "Win32ProcessMemory::Write" in
  if (address =? 0) || (sizeZ data =? 0) || (u32_max <? sizeZ data) then
    (Failure (MakeError InvalidArgument "Invalid process write request" op), p)
  else
    let '(direct, p) :=
      if negb (process p =? 0) && direct_write_access p then win (WriteProcessMemory (process p) address data) p
      else (None, p) in
    match (match direct with Some n => if n =? sizeZ data then Some n else None | None => None end) with
    | Some completed =>
        let '(_, p) := win (FlushInstructionCache (process p) address (sizeZ data)) p in (Success (u32 completed), p)
    | None =>
        if connected p then
          match ValidateDriverIdentity op p with
          | (Failure e, p) => (Failure e, p)
          | (Success _, p) => on_backend (WriteProcessVirtual (wp_pid p) address data) p
          end
        else denied_or ShortWrite "Process memory write failed" op (sizeZ data) 0 p
    end.
Definition Win32_Write (address : Z) (data : list Z) (p : W) : Result Z * W :=
  if negb (writes_armed p) then
    (Failure (MakeError WriteLocked "Process writes are locked" "Win32ProcessMemory::Write"), p)
  else
    let '(outcome, p) := write_unlocked address data (p <| writes_armed := false |>) in
    finish_write outcome p.

(** ** Regions and modules *)

Definition region_of (m : MemoryInformation) : MemoryRegion :=
  let committed := mi_state m =? MEM_COMMIT in
  let guard := negb (Z.land (mi_protect m) PAGE_GUARD =? 0) in
  let usable f := committed && negb guard && f (mi_protect m) in
  mkMemoryRegion (mi_base m) (mi_size m) (mi_state m) (mi_protect m) (mi_type m) committed
    (usable ProtectionReadable) (usable ProtectionWritable) (usable ProtectionExecutable) guard
    (one_of (Z.land (mi_protect m) 0xFF) [PAGE_WRITECOPY; PAGE_EXECUTE_WRITECOPY]) "".
Definition name_region (m : MemoryInformation) (p : W) : MemoryRegion * W :=
  let r := region_of m in
  if region_committed r && ((mi_type m =? MEM_MAPPED) || (mi_type m =? MEM_IMAGE)) then
    let '(mapped, p) := win (GetMappedFileName (process p) (mi_base m)) p in
    (mkMemoryRegion (region_base r) (region_size r) (region_state r) (region_protection r) (region_type r)
       (region_committed r) (region_readable r) (region_writable r) (region_executable r) (region_guard r)
       (region_copy_on_write r) (WideToUtf8 mapped), p)
  else (r, p).
(** One round of the loop over the addresses; it stops when the addresses do. *)
Definition region_round (maximum : Z) (s : Z * list MemoryRegion * W) : Z * list MemoryRegion * W + list MemoryRegion * W :=
  let '(address, output, p) := s in
  if maximum <? address then inr (output, p)
  else
    match win (VirtualQueryEx (process p) address) p with
    | (None, p) => inr (output, p)
    | (Some m, p) =>
        let '(region, p) := name_region m p in
        let output := output ++ [region] in
        let next := u64 (mi_base m + mi_size m) in
        if next <=? address then inr (output, p) else inl (next, output, p)
    end.
Definition Win32_Regions (p : W) : Result (list MemoryRegion) * W :=
  let op := "Win32ProcessMemory::Regions" in
  if process p =? 0 then
    (Failure (MakeError Unsupported "Region enumeration requires a queryable process handle" op), p)
  else
    let '((lowest, highest), p) := win GetNativeSystemInfo p in
    match rounds 65 (region_round highest) (lowest, [], p) with
    | inr (output, p) => (Success output, p)
    | inl (_, _, p) => (Failure (MakeError InternalInvariant "" ""), p)
    end.

Definition module_of (e : ModuleEntry) : ProcessModule :=
  mkProcessModule (me_base e) (me_size e) (WideToUtf8 (me_name e)) (WideToUtf8 (me_path e)).
(** The entry at hand is added, and the next one taken. *)
Definition module_round (snapshot : Z) (s : ModuleEntry * list ProcessModule * W)
    : ModuleEntry * list ProcessModule * W + list ProcessModule * W :=
  let '(entry, output, p) := s in
  let output := output ++ [module_of entry] in
  match win (Module32Next snapshot) p with
  | (Some entry, p) => inl (entry, output, p)
  | (None, p) => inr (output, p)
  end.
Definition list_modules (snapshot : Z) (p : W) : option (list ProcessModule) * W :=
  match win (Module32First snapshot) p with
  | (None, p) => (Some [], p)
  | (Some entry, p) =>
      match rounds 64 (module_round snapshot) (entry, [], p) with
      | inr (output, p) => (Some output, p)
      | inl (_, _, p) => (None, p)
      end
  end.
Definition Win32_Modules (p : W) : Result (list ProcessModule) * W :=
  match win (CreateModuleSnapshot (wp_pid p)) p with
  | (None, p) =>
      let '(last_error, p) := win GetLastError p in
      (Failure (MakeErrorFull IoFailure "Module snapshot failed" "Win32ProcessMemory::Modules" last_error 0 0), p)
  | (Some snapshot, p) =>
      let '(listed, p) := list_modules snapshot p in
      let '(_, p) := win (CloseHandle snapshot) p in
      match listed with
      | Some output => (Success (std_sort (λ left right, mod_base left <? mod_base right) output), p)
      | None => (Failure (MakeError InternalInvariant "" ""), p)
      end
  end.
End Process.

(** ** The process catalog *)

Definition QueryPath (pid : Z) (v : V) : string * V :=
  match sys (OpenProcess PROCESS_QUERY_LIMITED_INFORMATION pid) v with
  | (None, v) => (""%string, v)
  | (Some h, v) =>
      let '(path, v) := sys (QueryFullProcessImageName h) v in
      let '(_, v) := sys (CloseHandle h) v in
      (match path with Some path => WideToUtf8 path | None => ""%string end, v)
  end.
(** As built for a 64-bit processor. *)
Definition Is64Bit (pid : Z) (v : V) : bool * V :=
  match sys (OpenProcess PROCESS_QUERY_LIMITED_INFORMATION pid) v with
  | (None, v) => (true, v)
  | (Some h, v) =>
      let '(found, v) := sys FindIsWow64Process2 v in
      let '(result, v) :=
        if (found : bool) then
          let '(machines, v) := sys (IsWow64Process2 h) v in
          (match machines with
           | Some (process_machine, native_machine) =>
               (process_machine =? IMAGE_FILE_MACHINE_UNKNOWN) &&
               ((native_machine =? IMAGE_FILE_MACHINE_AMD64) || (native_machine =? IMAGE_FILE_MACHINE_ARM64))
           | None => true
           end, v)
        else
          let '(wow64, v) := sys (IsWow64Process h) v in
          (match wow64 with Some wow64 => negb wow64 | None => true end, v) in
      let '(_, v) := sys (CloseHandle h) v in (result, v)
  end.
Definition describe_process (e : ProcessEntry) (v : V) : ProcessInfo * V :=
  let '(path, v) := QueryPath (pe_pid e) v in
  let '(is_64_bit, v) := Is64Bit (pe_pid e) v in
  (mkProcessInfo (pe_pid e) (pe_parent e) (WideToUtf8 (pe_exe e)) path is_64_bit, v).
Definition process_round (snapshot : Z) (s : ProcessEntry * list ProcessInfo * V)
    : ProcessEntry * list ProcessInfo * V + list ProcessInfo * V :=
  let '(entry, output, v) := s in
  let '(info, v) := describe_process entry v in
  let output := output ++ [info] in
  match sys (Process32Next snapshot) v with
  | (Some entry, v) => inl (entry, output, v)
  | (None, v) => inr (output, v)
  end.
Definition list_processes (snapshot : Z) (v : V) : option (list ProcessInfo) * V :=
  match sys (Process32First snapshot) v with
  | (None, v) => (Some [], v)
  | (Some entry, v) =>
      match rounds 64 (process_round snapshot) (entry, [], v) with
      | inr (output, v) => (Some output, v)
      | inl (_, _, v) => (None, v)
      end
  end.
Definition process_lt (left right : ProcessInfo) : bool :=
  if negb (bool_decide (info_name left = info_name right)) then String.ltb (info_name left) (info_name right)
  else info_pid left <? info_pid right.
Definition Enumerate (v : V) : Result (list ProcessInfo) * V :=
  let op := "ProcessCatalog::Enumerate" in
  match sys CreateProcessSnapshot v with
  | (None, v) =>
      let '(last_error, v) := sys GetLastError v in
      (Failure (MakeErrorFull IoFailure "CreateToolhelp32Snapshot failed" op last_error 0 0), v)
  | (Some snapshot, v) =>
      let '(listed, v) := list_processes snapshot v in
      let '(last_error, v) := sys GetLastError v in
      let '(_, v) := sys (CloseHandle snapshot) v in
      match listed with
      | None => (Failure (MakeError InternalInvariant "" ""), v)
      | Some output =>
          if bool_decide (output = []) && negb (last_error =? ERROR_NO_MORE_FILES) then
            (Failure (MakeErrorFull IoFailure "Process enumeration failed" op last_error 0 0), v)
          else (Success (std_sort process_lt output), v)
      end
  end.
End Win32.
