(* ===== verification/Win32ProcessTheorems.v ===== *)
(** What [Win32ProcessMemory] promises: it is the memory of one process, whichever way it
    is reached; a write is one attempt after which the driver's gate is closed; and the
    regions are the process's memory map. *)

From stdpp Require Import list sorting.
From S2P Require Import Prelude CppStd Common X64PageTable Paths Host MemoryBackend MockMemoryBackend ProcessMemory PointerScanner PointerScanTheorems Win32Process.
From Stdlib Require Import Ascii String.

#[local] Open Scope Z_scope.

(** ** Windows and the driver on one machine

    A process instance exists once, unlike its number: while a handle to it is open, the
    number is not given to another process.  The driver identifies an instance by the
    address of its kernel object and its page tables. *)

(** Calls that only open, close and ask. *)
Definition asks (c : ProcessCall) : bool :=
  match c with OpenProcess _ _ | CloseHandle _ | GetLastError | GetProcessTimes _ | GetProcessId _ => true | _ => false end.

Class ProcessWorld (V B : Type) `{!Host ProcessCall process_reply V} `{!IMemoryBackend B} := {
  ProcessInstance : Type;
  process_number : ProcessInstance → Z;
  handle_process : V → Z → option ProcessInstance;
  driver_process : Z → Z → option ProcessInstance;
  process_memory : V → option B → ProcessInstance → Z → Z;
  one_machine : V → B → Prop;
  process_opened access pid v h :
    (host (OpenProcess access pid) v).1 = Some h →
    h ≠ 0 ∧ handle_process v h = None ∧ is_Some (handle_process (host (OpenProcess access pid) v).2 h);
  snapshot_opened pid v h : (host (CreateModuleSnapshot pid) v).1 = Some h → handle_process v h = None;
  handle_open c v h i : handle_process v h = Some i → c ≠ CloseHandle h → handle_process (host c v).2 h = Some i;
  process_named v h i : handle_process v h = Some i → (host (GetProcessId h) v).1 = process_number i;
  process_pinned v h i h' i' :
    handle_process v h = Some i → handle_process v h' = Some i' → process_number i = process_number i' → i = i';
  read_true h a n v bytes i b :
    (host (ReadProcessMemory h a n) v).1 = Some bytes → sizeZ bytes = n → handle_process v h = Some i →
    mem_bytes (process_memory (host (ReadProcessMemory h a n) v).2 b i) a n = bytes;
  asking_keeps c v b i x : asks c = true → process_memory (host c v).2 b i x = process_memory v b i x;
  arming_keeps e v b i x : process_memory v (Some (SetWriteEnabled e b).2) i x = process_memory v (Some b) i x;
  machine_windows c v b : one_machine v b → one_machine (host c v).2 b;
  machine_arm e v b : one_machine v b → one_machine v (SetWriteEnabled e b).2;
  machine_context pid v b : one_machine v b → one_machine v (GetProcessContext pid b).2;
  machine_read pid a n v b : one_machine v b → one_machine v (ReadProcessVirtual pid a n b).2;
  machine_write pid a d v b : one_machine v b → one_machine v (WriteProcessVirtual pid a d b).2;
  context_known pid b ctx : (GetProcessContext pid b).1 = Success ctx →
    is_Some (driver_process (pc_eprocess ctx) (pc_directory_table_base ctx));
  context_true pid v b ctx h i :
    one_machine v b → (GetProcessContext pid b).1 = Success ctx → handle_process v h = Some i → process_number i = pid →
    driver_process (pc_eprocess ctx) (pc_directory_table_base ctx) = Some i;
  driver_read_true pid a n v b ctx i bytes :
    (GetProcessContext pid b).1 = Success ctx →
    driver_process (pc_eprocess ctx) (pc_directory_table_base ctx) = Some i →
    (ReadProcessVirtual pid a n (GetProcessContext pid b).2).1 = Success bytes → sizeZ bytes = n →
    mem_bytes (process_memory v (Some (ReadProcessVirtual pid a n (GetProcessContext pid b).2).2) i) a n = bytes
}.

Section Attached.
Context {V B : Type} `{World : ProcessWorld V B} `{Text : LossyText} `{Sort : StdSort}.
Abbreviation W := (Win32ProcessMemory V B).
Implicit Types p : W.

(** The process that is attached to. *)
Definition target p : option ProcessInstance :=
  if process p =? 0 then driver_process (driver_eprocess p) (driver_dtb p) else handle_process (windows p) (process p).
Definition target_memory p : Z → Z :=
  match target p with Some i => process_memory (windows p) (backend p) i | None => λ _, 0 end.

Record attached p : Prop := {
  at_handle : process p ≠ 0 → ∃ i, handle_process (windows p) (process p) = Some i ∧ process_number i = wp_pid p ∧
    (driver_eprocess p ≠ 0 → driver_dtb p ≠ 0 → driver_process (driver_eprocess p) (driver_dtb p) = Some i);
  at_machine b : backend p = Some b → one_machine (windows p) b
}.

(** The members that a call leaves alone. *)
Definition members p := (process p, wp_pid p, writes_armed p, direct_write_access p, (driver_eprocess p, driver_dtb p)).

Lemma process_win_eq c p : win c p = ((host c (windows p)).1, p <| windows := (host c (windows p)).2 |>).
Proof. unfold win. by destruct (host c (windows p)). Qed.
Lemma attached_win c p : (process p ≠ 0 → c ≠ CloseHandle (process p)) → attached p → attached (win c p).2.
Proof.
  intros Hc [Hh Hb]. rewrite process_win_eq. split; cbn.
  - intros Hp. destruct (Hh Hp) as (i & Hi & Hn & Hd). exists i. split; [apply handle_open; auto|auto].
  - intros b E. by apply machine_windows, Hb.
Qed.
Lemma members_win c p : members (win c p).2 = members p.
Proof. by rewrite process_win_eq. Qed.

(** What the object sees as the process is the same. *)
Definition same_view p p' : Prop := ∀ x, target_memory p' x = target_memory p x.
Lemma same_view_of p p' :
  target p' = target p →
  (∀ i x, process_memory (windows p') (backend p') i x = process_memory (windows p) (backend p) i x) → same_view p p'.
Proof. intros Ht Hm x. unfold target_memory. rewrite Ht. destruct (target p); [apply Hm|done]. Qed.
Lemma target_win c p : attached p → (process p ≠ 0 → c ≠ CloseHandle (process p)) → target (win c p).2 = target p.
Proof.
  intros [Hh _] Hc. rewrite process_win_eq. unfold target. cbn. destruct (Z.eqb_spec (process p) 0) as [|Hp]; [done|].
  destruct (Hh Hp) as (i & Hi & _). rewrite Hi. apply handle_open; auto.
Qed.
Lemma same_view_win c p : attached p → asks c = true → (process p ≠ 0 → c ≠ CloseHandle (process p)) → same_view p (win c p).2.
Proof.
  intros Hp Ha Hc. apply same_view_of; [by apply target_win|]. intros i x. rewrite process_win_eq. by apply asking_keeps.
Qed.
Lemma same_view_trans p1 p2 p3 : same_view p1 p2 → same_view p2 p3 → same_view p1 p3.
Proof. intros Ha Hb x. by rewrite Hb, Ha. Qed.

(** ** The backend *)

Definition keeps_machine {A} (f : B → Result A * B) : Prop := ∀ v b, one_machine v b → one_machine v (f b).2.
Lemma attached_on {A} (f : B → Result A * B) p : keeps_machine f → attached p → attached (on_backend f p).2.
Proof.
  intros Hf [Hh Hb]. unfold on_backend. destruct (backend p) as [b|] eqn:E; [|by split; cbn; [exact Hh|intros b0; rewrite E]].
  specialize (Hf (windows p) b (Hb b eq_refl)). destruct (f b) as [r b']. cbn [snd] in *. split; cbn; [exact Hh|].
  by intros b0 [= <-].
Qed.
Lemma members_on {A} (f : B → Result A * B) p : members (on_backend f p).2 = members p.
Proof. unfold on_backend. destruct (backend p) as [b|]; [|done]. by destruct (f b). Qed.
Lemma same_view_arm e p : same_view p (on_backend (SetWriteEnabled e) p).2.
Proof.
  apply same_view_of.
  - unfold on_backend, target. destruct (backend p) as [b|]; [|done]. by destruct (SetWriteEnabled e b).
  - intros i x. unfold on_backend. destruct (backend p) as [b|] eqn:E; [|cbn; by rewrite E].
    pose proof (arming_keeps e (windows p) b i x) as Hk. destruct (SetWriteEnabled e b). exact Hk.
Qed.

(** Take a call of the goal; what is known of the state goes over to the next one. *)
Definition known p0 p : Prop := attached p ∧ members p = members p0.
Lemma known_win c p0 p : known p0 p → (process p0 ≠ 0 → c ≠ CloseHandle (process p0)) → known p0 (win c p).2.
Proof.
  intros [Ha Hm] Hc. assert (process p = process p0) as E by (by injection Hm).
  split; [apply attached_win; [by rewrite E|done]|by rewrite members_win].
Qed.
Lemma known_on {A} (f : B → Result A * B) p0 p : keeps_machine f → known p0 p → known p0 (on_backend f p).2.
Proof. intros Hf [Ha Hm]. split; [by apply attached_on|by rewrite members_on]. Qed.
Lemma keeps_arm e : keeps_machine (SetWriteEnabled e). Proof. intros v b. apply machine_arm. Qed.
Lemma keeps_context pid : keeps_machine (GetProcessContext pid). Proof. intros v b. apply machine_context. Qed.
Lemma keeps_read pid a n : keeps_machine (ReadProcessVirtual pid a n). Proof. intros v b. apply machine_read. Qed.
Lemma keeps_write pid a d : keeps_machine (WriteProcessVirtual pid a d). Proof. intros v b. apply machine_write. Qed.

Lemma known_denied {A} other msg op req comp p0 p : known p0 p → known p0 (@denied_or V _ B A other msg op req comp p).2.
Proof.
  intros Hp. unfold denied_or. pose proof (known_win GetLastError p0 p Hp ltac:(done)). by destruct (win GetLastError p).
Qed.
Lemma known_validate op p0 p : known p0 p → known p0 (ValidateDriverIdentity op p).2.
Proof.
  intros Hp. unfold ValidateDriverIdentity. split_goal_match; [done|].
  pose proof (known_on _ p0 p (keeps_context (wp_pid p)) Hp) as H1.
  destruct (on_backend (GetProcessContext (wp_pid p)) p) as [[ctx|e] p1]; [|done]. by split_goal_match.
Qed.

(** ** Reading *)

Lemma known_read a n p : attached p → known p (Win32_Read a n p).2.
Proof.
  intros Hp. assert (known p p) as Hk by done. unfold Win32_Read. cbv zeta. split_goal_match; [done|].
  assert (known p (if negb (process p =? 0) then win (ReadProcessMemory (process p) a n) p else (None, p)).2) as H1.
  { split_goal_match; [by apply known_win|done]. }
  destruct (if negb (process p =? 0) then _ else _) as [direct p1]. cbn [snd] in H1.
  destruct (match direct with Some _ => _ | None => _ end); [done|]. split_goal_match; [|by apply known_denied].
  pose proof (known_validate "Win32ProcessMemory::Read" p p1 H1) as H2.
  destruct (ValidateDriverIdentity _ p1) as [[u|e] p2]; [|done]. apply known_on; [apply keeps_read|done].
Qed.

(** A driver that passed the check is reading the process attached to. *)
Lemma validated_target op p p' :
  attached p → ValidateDriverIdentity op p = (Success tt, p') →
  ∃ b ctx i, backend p = Some b ∧ p' = p <| backend := Some (GetProcessContext (wp_pid p) b).2 |> ∧
    (GetProcessContext (wp_pid p) b).1 = Success ctx ∧ driver_process (pc_eprocess ctx) (pc_directory_table_base ctx) = Some i ∧
    target p = Some i.
Proof.
  intros [Hh Hb]. unfold ValidateDriverIdentity, on_backend, connected.
  destruct (backend p) as [b|] eqn:E; [|done]. destruct (_ || _) eqn:Eg; [done|]. boolify.
  pose proof (context_known (wp_pid p) b) as Hctx. pose proof (context_true (wp_pid p) (windows p) b) as Htrue.
  destruct (GetProcessContext (wp_pid p) b) as [[ctx|e] b'] eqn:Ec; [|done].
  change (driver_eprocess (p <| backend := Some b' |>)) with (driver_eprocess p).
  change (driver_dtb (p <| backend := Some b' |>)) with (driver_dtb p).
  destruct (_ || _) eqn:Em; [done|]. boolify. intros [= <-]. cbn [fst snd] in *.
  destruct (Hctx ctx eq_refl) as [i Hi]. exists b, ctx, i. split_and!; try done; [by rewrite Ec|by rewrite Ec|].
  unfold target. destruct (Z.eqb_spec (process p) 0) as [|Hp]; [congruence|].
  destruct (Hh Hp) as (j & Hj & Hn & _). rewrite Hj, <- Hi. symmetry. by eapply Htrue; [apply Hb|..].
Qed.

(** Reading through the driver, after its check. *)
Lemma driver_read_target op a n p bytes p' :
  attached p →
  match ValidateDriverIdentity op p with
  | (Failure e, p) => (Failure e, p)
  | (Success _, p) => on_backend (ReadProcessVirtual (wp_pid p) a n) p
  end = (Success bytes, p') → sizeZ bytes = n → mem_bytes (target_memory p') a n = bytes.
Proof.
  intros Hp Hr Hn. pose proof (validated_target op p) as Hv. destruct (ValidateDriverIdentity op p) as [[[]|e] p1]; [|done].
  destruct (Hv p1 Hp eq_refl) as (b & ctx & i & Eb & -> & Ec & Hi & Ht). unfold on_backend in Hr. cbn in Hr.
  pose proof (driver_read_true (wp_pid p) a n (windows p) b ctx i bytes Ec Hi) as Hd.
  destruct (ReadProcessVirtual _ a n _) as [r b2]. injection Hr as -> <-. cbn [fst snd] in Hd.
  unfold target_memory. cbn in Ht |- *. unfold target in *. cbn. rewrite Ht. by apply Hd.
Qed.
(** A read of the wanted size is what the process holds. *)
Lemma read_target a n p bytes p' :
  attached p → Win32_Read a n p = (Success bytes, p') → sizeZ bytes = n → mem_bytes (target_memory p') a n = bytes.
Proof.
  intros Hp Hr Hn. unfold Win32_Read in Hr. cbv zeta in Hr. destruct (_ || _); [done|].
  assert (∃ direct p1, (if negb (process p =? 0) then win (ReadProcessMemory (process p) a n) p else (None, p)) = (direct, p1) ∧
    attached p1 ∧ ∀ got, direct = Some got → sizeZ got = n → mem_bytes (target_memory p1) a n = got)
    as (direct & p1 & E1 & Hk1 & Hd).
  { destruct (Z.eqb_spec (process p) 0) as [|Hz]; cbn [negb]; [by eexists _, _|].
    pose proof (attached_win (ReadProcessMemory (process p) a n) p ltac:(done) Hp) as Hk1.
    pose proof (target_win (ReadProcessMemory (process p) a n) p Hp ltac:(done)) as Ht. rewrite process_win_eq in *.
    eexists _, _. split; [done|]. split; [done|]. intros got Eg Hs. cbn [snd] in Ht. unfold target_memory. rewrite Ht.
    destruct (at_handle p Hp Hz) as (i & Hi & _). unfold target. rewrite (proj2 (Z.eqb_neq _ _) Hz), Hi. by apply read_true. }
  rewrite E1 in Hr.
  assert (∀ r, (match direct with Some bytes => if sizeZ bytes =? n then Some bytes else None | None => None end) = r →
    match r with Some got => mem_bytes (target_memory p1) a n = got | None => True end) as Hdirect.
  { intros r <-. destruct direct as [got|]; [|done]. destruct (Z.eqb_spec (sizeZ got) n); [by apply Hd|done]. }
  destruct (match direct with Some _ => _ | None => _ end) as [got|].
  - injection Hr as <- <-. exact (Hdirect _ eq_refl).
  - destruct (connected p1); [by eapply driver_read_target|]. unfold denied_or in Hr. by destruct (win GetLastError p1).
Qed.

(** ** Arming *)

Lemma known_same_view p0 p c :
  known p0 p ∧ same_view p0 p → asks c = true → (process p0 ≠ 0 → c ≠ CloseHandle (process p0)) →
  known p0 (win c p).2 ∧ same_view p0 (win c p).2.
Proof.
  intros [Hk Hs] Ha Hc. split; [by apply known_win|]. eapply same_view_trans; [exact Hs|].
  destruct Hk as [Hp Hm]. assert (process p = process p0) as E by (by injection Hm).
  apply same_view_win; [done|done|by rewrite E].
Qed.
Lemma creation_known p0 p h :
  known p0 p ∧ same_view p0 p → known p0 (creation_of h p).2 ∧ same_view p0 (creation_of h p).2.
Proof.
  intros Hp. pose proof (known_same_view p0 p (GetProcessTimes h) Hp eq_refl ltac:(done)) as Hc. rewrite process_win_eq in Hc.
  unfold creation_of, QueryCreationTime. by destruct (host (GetProcessTimes h) (windows p)).
Qed.
Lemma denied_known {A} other msg op req comp p0 p :
  known p0 p ∧ same_view p0 p →
  known p0 (@denied_or V _ B A other msg op req comp p).2 ∧ same_view p0 (@denied_or V _ B A other msg op req comp p).2.
Proof.
  intros Hp. unfold denied_or. pose proof (known_same_view p0 p GetLastError Hp eq_refl ltac:(done)) as Hc.
  by destruct (win GetLastError p).
Qed.

(** What reopening leaves as it was. *)
Definition rearmable p0 p : Prop := attached p ∧ writes_armed p = writes_armed p0 ∧ same_view p0 p.
Lemma known_rearmable p0 p : known p0 p ∧ same_view p0 p → rearmable p0 p.
Proof. intros [[Ha Hm] Hs]. split; [done|]. split; [by injection Hm|done]. Qed.

(** The new handle is one to the same process. *)
Lemma reopen_handle p p1 h i j created :
  attached p → process p ≠ 0 → handle_process (windows p) (process p) = Some i → known p p1 → same_view p p1 →
  handle_process (windows p1) h = Some j → process_number j = wp_pid p → h ≠ 0 → h ≠ process p →
  rearmable p ((win (CloseHandle (process p1)) p1).2 <| process := h |> <| creation_time := created |> <| direct_write_access := true |>).
Proof.
  intros Hp Hz Hi [Hp1 Hm] Hs Hj Hn Hh Hne. destruct (at_handle p Hp Hz) as (i0 & Hi0 & Hni & _). rewrite Hi in Hi0.
  injection Hi0 as <-. injection Hm as E1 E2 E3 E4 E5 E6.
  destruct (at_handle p1 Hp1 ltac:(by rewrite E1)) as (i1 & Hi1 & Hn1 & Hd1).
  assert (j = i1) as -> by (eapply process_pinned; [exact Hj|exact Hi1|congruence]). rewrite process_win_eq.
  assert (handle_process (host (CloseHandle (process p1)) (windows p1)).2 h = Some i1) as Hk.
  { apply handle_open; [done|]. rewrite E1. congruence. }
  pose proof (λ b, machine_windows (CloseHandle (process p1)) (windows p1) b) as Hb.
  pose proof (λ b k x, asking_keeps (CloseHandle (process p1)) (windows p1) b k x eq_refl) as Hmem.
  destruct (host (CloseHandle (process p1)) (windows p1)) as [u v]. cbn [snd] in *.
  split; [|split; [exact E3|]].
  - split; cbn; [|intros b Eb; by apply Hb, (at_machine p1 Hp1)].
    intros _. exists i1. split; [exact Hk|]. split; [done|exact Hd1].
  - eapply same_view_trans; [exact Hs|]. apply same_view_of; [|intros k x; apply Hmem].
    unfold target. cbn. rewrite (proj2 (Z.eqb_neq _ _) Hh), E1, (proj2 (Z.eqb_neq _ _) Hz), <- E1.
    transitivity (Some i1); [exact Hk|symmetry; exact Hi1].
Qed.
Lemma reopen_rearmable p : attached p → process p ≠ 0 → rearmable p (ReopenForWriteLocked p).2.
Proof.
  intros Hp Hz. assert (known p p ∧ same_view p p) as Hk by done. unfold ReopenForWriteLocked. cbv zeta.
  set (access := Z.lor _ _). destruct (at_handle p Hp Hz) as (i & Hi & Hni & _).
  pose proof (known_same_view p p (OpenProcess access (wp_pid p)) Hk eq_refl ltac:(done)) as K1.
  pose proof (process_opened access (wp_pid p) (windows p)) as Ho. rewrite process_win_eq in *.
  destruct (host (OpenProcess access (wp_pid p)) (windows p)).1 as [h|]; [|by apply known_rearmable, denied_known].
  destruct (Ho h eq_refl) as (Hh & Hfresh & [j Hj]). cbn [snd] in K1.
  assert (h ≠ process p) as Hne by (intros ->; congruence).
  set (p1 := p <| windows := _ |>) in *. assert (handle_process (windows p1) h = Some j) as Hj1 by exact Hj.
  pose proof (process_named (windows p1) h j Hj1) as Hname.
  pose proof (known_same_view p p1 (GetProcessId h) K1 eq_refl ltac:(done)) as K2. rewrite process_win_eq in *. cbn [snd] in K2.
  set (p2 := p1 <| windows := _ |>) in *.
  assert (handle_process (windows p2) h = Some j) as Hj2 by (by apply handle_open).
  assert (∀ q, known p q ∧ same_view p q → rearmable p (let '(_, q) := win (CloseHandle h) q in
    (Failure (T := unit) (MakeError ConcurrentModification "PID now refers to a different process instance"
       "Win32ProcessMemory::ReopenForWrite"), q)).2) as Hrefuse.
  { intros q Kq. pose proof (known_same_view p q (CloseHandle h) Kq eq_refl ltac:(intros _; congruence)) as Kc.
    rewrite process_win_eq in *. by apply known_rearmable. }
  rewrite Hname. change (wp_pid p2) with (wp_pid p).
  destruct (Z.eqb_spec (process_number j) (wp_pid p)) as [En|]; cbn [negb]; [|by apply Hrefuse].
  pose proof (creation_known p p2 h K2) as K3.
  assert (handle_process (windows (creation_of h p2).2) h = Some j) as Hj3.
  { unfold creation_of, QueryCreationTime. pose proof (handle_open (GetProcessTimes h) _ _ _ Hj2 ltac:(done)) as Ht.
    by destruct (host (GetProcessTimes h) (windows p2)). }
  destruct (creation_of h p2) as [[created|] p3]; cbn [snd] in K3, Hj3; [|by apply Hrefuse].
  split_goal_match; [by apply Hrefuse|]. assert (process p3 = process p) as E3 by (by destruct K3 as [[_ Hm] _]; injection Hm).
  rewrite E3, (proj2 (Z.eqb_neq _ _) Hz). cbn [negb snd]. rewrite <- E3.
  destruct K3 as [K3 S3]. by eapply reopen_handle.
Qed.

Lemma rearmable_arm e p0 p : rearmable p0 p → rearmable p0 (on_backend (SetWriteEnabled e) p).2.
Proof.
  intros (Ha & Hw & Hs). split; [by apply attached_on; [apply keeps_arm|]|]. split.
  - rewrite <- Hw. pose proof (members_on (SetWriteEnabled e) p) as Hm. by injection Hm.
  - eapply same_view_trans; [exact Hs|apply same_view_arm].
Qed.
(** What arming does: the process is the same, and the arm is moved when it succeeds. *)
Definition armed_as (e : bool) p0 (r : Result unit) p : Prop :=
  attached p ∧ same_view p0 p ∧ writes_armed p = match r with Success _ => e | Failure _ => writes_armed p0 end.
Lemma rearmable_armed e p0 p : rearmable p0 p → armed_as e p0 (Success tt) (p <| writes_armed := e |>).
Proof. intros ([Hh Hb] & Hw & Hs). split; [by split|]. by split. Qed.
Lemma rearmable_failed e er p0 p : rearmable p0 p → armed_as e p0 (Failure er) p.
Proof. by intros (Ha & Hw & Hs). Qed.

Lemma arm_target e p r p' : attached p → Win32_SetWritesArmed e p = (r, p') → armed_as e p r p'.
Proof.
  intros Hp Hr. assert (rearmable p p) as H0 by done. unfold Win32_SetWritesArmed in Hr. destruct e; cbn [negb] in Hr.
  - assert (rearmable p (if negb (process p =? 0) && negb (direct_write_access p) then ReopenForWriteLocked p else (Success tt, p)).2) as H1'.
    { destruct (Z.eqb_spec (process p) 0) as [|Hz]; [done|]. cbn [negb andb].
      destruct (direct_write_access p); [done|by apply reopen_rearmable]. }
    destruct (if negb (process p =? 0) && _ then _ else _) as [direct p1]. cbn [snd] in H1'.
    destruct (if connected p1 then None else _) as [er|]; [injection Hr as <- <-; by apply rearmable_failed|].
    destruct (connected p1); [|injection Hr as <- <-; by apply rearmable_armed].
    pose proof (rearmable_arm true p p1 H1') as H2.
    destruct (on_backend (SetWriteEnabled true) p1) as [[u|er] p2]; cbn [snd] in H2; [injection Hr as <- <-; by apply rearmable_armed|].
    destruct (negb (direct_write_access p2)); injection Hr as <- <-; [by apply rearmable_failed|by apply rearmable_armed].
  - destruct (connected p); [|injection Hr as <- <-; by apply rearmable_armed].
    pose proof (rearmable_arm false p p H0) as H2.
    destruct (on_backend (SetWriteEnabled false) p) as [[u|er] p2]; cbn [snd] in H2; injection Hr as <- <-;
      [by apply rearmable_armed|by apply rearmable_failed].
Qed.
(** ** Writing *)

Lemma known_finish out p0 p : known p0 p → known p0 (finish_write out p).2.
Proof.
  intros Hp. unfold finish_write, close_backend_gate. destruct (negb (connected p)); [done|].
  pose proof (known_on _ p0 p (keeps_arm false) Hp) as K1.
  destruct (on_backend (SetWriteEnabled false) p) as [[u|e] p1]; [done|].
  pose proof (known_on _ p0 p1 (keeps_arm false) K1) as K2.
  by destruct (on_backend (SetWriteEnabled false) p1) as [[u|e2] p2].
Qed.
Lemma known_unlocked a data p0 p : known p0 p → known p0 (write_unlocked a data p).2.
Proof.
  intros Hp. unfold write_unlocked. cbv zeta. split_goal_match; [done|].
  assert (known p0 (if negb (process p =? 0) && direct_write_access p then win (WriteProcessMemory (process p) a data) p else (None, p)).2) as K1.
  { split_goal_match; [by apply known_win|done]. }
  destruct (if negb (process p =? 0) && _ then _ else _) as [direct p1]. cbn [snd] in K1.
  destruct (match direct with Some _ => _ | None => _ end) as [n|].
  - pose proof (known_win (FlushInstructionCache (process p1) a (sizeZ data)) p0 p1 K1 ltac:(done)).
    by destruct (win (FlushInstructionCache _ _ _) p1).
  - split_goal_match; [|by apply known_denied]. pose proof (known_validate "Win32ProcessMemory::Write" p0 p1 K1) as K2.
    destruct (ValidateDriverIdentity _ p1) as [[u|e] p2]; [|done]. apply known_on; [apply keeps_write|done].
Qed.
Lemma write_target a data p :
  attached p → attached (Win32_Write a data p).2 ∧ writes_armed (Win32_Write a data p).2 = false.
Proof.
  intros Hp. unfold Win32_Write. destruct (writes_armed p) eqn:Ew; [|done]. cbn [negb].
  set (q := p <| writes_armed := false |>). assert (attached q) as Hq by (destruct Hp as [Hh Hb]; by split).
  pose proof (known_unlocked a data q q (conj Hq eq_refl)) as K1. destruct (write_unlocked a data q) as [out p1].
  destruct (known_finish out q p1 K1) as [Ha Hm]. split; [done|]. by injection Hm.
Qed.

(** ** Regions and modules *)

Lemma known_regions p : attached p → known p (Win32_Regions p).2.
Proof.
  intros Hp. unfold Win32_Regions. cbv zeta. split_goal_match; [done|].
  pose proof (known_win GetNativeSystemInfo p p (conj Hp eq_refl) ltac:(done)) as K1.
  destruct (win GetNativeSystemInfo p) as [[lowest highest] p1]. cbn [snd] in K1.
  pose proof (rounds_keeps (λ s : Z * list MemoryRegion * W, known p s.2) (λ r, known p r.2) 65 (region_round highest) (lowest, [], p1)) as Hr.
  assert (∀ s : Z * list MemoryRegion * W, known p s.2 →
    match region_round highest s with inl s => known p s.2 | inr r => known p r.2 end) as Hs.
  { clear. intros [[address output] q] Hq. cbn [snd] in Hq. unfold region_round. split_goal_match; [done|].
    pose proof (known_win (VirtualQueryEx (process q) address) p q Hq ltac:(done)) as K1.
    destruct (win (VirtualQueryEx _ _) q) as [[m|] q1]; [|done]. cbn [snd] in K1.
    assert (known p (name_region m q1).2) as K2.
    { unfold name_region. cbv zeta. split_goal_match; [|done].
      pose proof (known_win (GetMappedFileName (process q1) (mi_base m)) p q1 K1 ltac:(done)). by destruct (win (GetMappedFileName _ _) q1). }
    destruct (name_region m q1) as [r q2]. cbv zeta. by destruct (_ <=? _). }
  specialize (Hr Hs K1). by destruct (rounds 65 (region_round highest) (lowest, [], p1)) as [[[? ?] ?]|[? ?]].
Qed.
Lemma known_modules p : attached p → known p (Win32_Modules p).2.
Proof.
  intros Hp. unfold Win32_Modules. pose proof (known_win (CreateModuleSnapshot (wp_pid p)) p p (conj Hp eq_refl) ltac:(done)) as K1.
  pose proof (snapshot_opened (wp_pid p) (windows p)) as Ho. rewrite process_win_eq in *. cbn [snd] in K1.
  set (p1 := p <| windows := _ |>) in *. destruct (host (CreateModuleSnapshot (wp_pid p)) (windows p)).1 as [h|].
  2:{ pose proof (known_win GetLastError p p1 K1 ltac:(done)). by destruct (win GetLastError p1). }
  specialize (Ho h eq_refl).
  assert (process p ≠ 0 → CloseHandle h ≠ CloseHandle (process p)) as Hne.
  { intros Hz [= ->]. destruct (at_handle p Hp Hz) as (i & Hi & _). congruence. }
  assert (known p (list_modules h p1).2) as K2.
  { unfold list_modules. pose proof (known_win (Module32First h) p p1 K1 ltac:(done)) as K2.
    destruct (win (Module32First h) p1) as [[entry|] p2]; [|done]. cbn [snd] in K2.
    pose proof (rounds_keeps (λ s : ModuleEntry * list ProcessModule * W, known p s.2) (λ r, known p r.2) 64 (module_round h) (entry, [], p2)) as Hr.
    assert (∀ s : ModuleEntry * list ProcessModule * W, known p s.2 →
      match module_round h s with inl s => known p s.2 | inr r => known p r.2 end) as Hs.
    { clear. intros [[e output] q] Hq. cbn [snd] in Hq. unfold module_round. cbv zeta.
      pose proof (known_win (Module32Next h) p q Hq ltac:(done)). by destruct (win (Module32Next h) q) as [[e2|] q1]. }
    specialize (Hr Hs K2). by destruct (rounds 64 (module_round h) (entry, [], p2)) as [[[? ?] ?]|[? ?]]. }
  destruct (list_modules h p1) as [listed p2]. cbn [snd] in K2.
  pose proof (known_win (CloseHandle h) p p2 K2 Hne). destruct (win (CloseHandle h) p2) as [u p3]. by destruct listed.
Qed.

(** ** The interface *)

(** An object that is attached to a process. *)
Definition AttachedProcess : Type := { p : W | attached p }.
Definition lifted {A} (f : W → A * W) (Hf : ∀ p, attached p → attached (f p).2) (p : AttachedProcess) : A * AttachedProcess :=
  ((f (proj1_sig p)).1, exist _ (f (proj1_sig p)).2 (Hf _ (proj2_sig p))).

Lemma attached_arm e p : attached p → attached (Win32_SetWritesArmed e p).2.
Proof. intros Hp. destruct (Win32_SetWritesArmed e p) as [r p'] eqn:E. by destruct (arm_target e p r p' Hp E). Qed.
Lemma attached_read a n p : attached p → attached (Win32_Read a n p).2.
Proof. apply known_read. Qed.
Lemma attached_write a data p : attached p → attached (Win32_Write a data p).2.
Proof. apply write_target. Qed.
Lemma attached_regions p : attached p → attached (Win32_Regions p).2.
Proof. apply known_regions. Qed.
Lemma attached_modules p : attached p → attached (Win32_Modules p).2.
Proof. apply known_modules. Qed.

(** [IsOpen] is a query: what it asks Windows changes nothing the object keeps. *)
#[export] Instance AttachedProcess_IProcessMemory : IProcessMemory AttachedProcess := {
  ProcessId q := wp_pid (proj1_sig q);
  ProcessIdentityToken q := creation_time (proj1_sig q);
  PointerSize q := pointer_size (proj1_sig q);
  IsOpen q := (Win32_IsOpen (proj1_sig q)).1;
  WritesArmed q := writes_armed (proj1_sig q);
  SetWritesArmed e := lifted (Win32_SetWritesArmed e) (attached_arm e);
  Read a n := lifted (Win32_Read a n) (attached_read a n);
  Write a data := lifted (Win32_Write a data) (attached_write a data);
  Regions := lifted Win32_Regions attached_regions;
  Modules := lifted Win32_Modules attached_modules
}.

Lemma lifted_inv {A} (f : W → A * W) Hf (p p' : AttachedProcess) r :
  lifted f Hf p = (r, p') → f (proj1_sig p) = (r, proj1_sig p').
Proof. unfold lifted. intros [= <- <-]. cbn. by destruct (f (proj1_sig p)). Qed.

End Attached.

(** ** One attempt, and the gate closed *)

Section Gate.
Context {V B : Type} `{!Host ProcessCall process_reply V} `{Spec : BackendSpec B}.
Implicit Types p : Win32ProcessMemory V B.

(** The driver's gate is closed, as far as there is a driver to ask. *)
Definition gate_closed p : Prop := ∀ b, backend p = Some b → bi_connected (Info b) = true → gate b = false.

Lemma close_gate p p' : close_backend_gate p = (Success tt, p') → gate_closed p'.
Proof.
  unfold close_backend_gate. destruct (connected p) eqn:Ec; cbn [negb].
  - unfold connected in Ec. unfold on_backend at 1. destruct (backend p) as [b|] eqn:E; [|done].
    pose proof (gate_success false b) as Hg. destruct (SetWriteEnabled false b) as [[[]|e] b'].
    + intros [= <-] b0 [= <-] _. by apply Hg.
    + by destruct (on_backend _ _) as [[?|?] ?].
  - intros [= <-] b E Hc. unfold connected in Ec. rewrite E in Ec. congruence.
Qed.
Lemma armed_on {A} (f : B → Result A * B) p : writes_armed (on_backend f p).2 = writes_armed p.
Proof. unfold on_backend. destruct (backend p); [|done]. by destruct (f _). Qed.
Lemma armed_win c p : writes_armed (win c p).2 = writes_armed p.
Proof. unfold win. by destruct (host c (windows p)). Qed.
Lemma armed_finish out p : writes_armed (finish_write out p).2 = writes_armed p.
Proof.
  unfold finish_write, close_backend_gate. destruct (negb (connected p)); [done|].
  pose proof (armed_on (SetWriteEnabled false) p) as H1. destruct (on_backend (SetWriteEnabled false) p) as [[u|e] p1]; [done|].
  pose proof (armed_on (SetWriteEnabled false) p1) as H2. cbn [snd] in H1.
  destruct (on_backend (SetWriteEnabled false) p1) as [[u|e2] p2]; cbn [snd] in *; congruence.
Qed.
Lemma armed_unlocked a data p : writes_armed (write_unlocked a data p).2 = writes_armed p.
Proof.
  unfold write_unlocked. cbv zeta. split_goal_match; [done|].
  assert (writes_armed (if negb (process p =? 0) && direct_write_access p then win (WriteProcessMemory (process p) a data) p else (None, p)).2
    = writes_armed p) as H1 by (split_goal_match; [apply armed_win|done]).
  destruct (if negb (process p =? 0) && _ then _ else _) as [direct p1]. cbn [snd] in H1. rewrite <- H1.
  destruct (match direct with Some _ => _ | None => _ end).
  - pose proof (armed_win (FlushInstructionCache (process p1) a (sizeZ data)) p1). by destruct (win (FlushInstructionCache _ _ _) p1).
  - destruct (connected p1).
    + unfold ValidateDriverIdentity. split_goal_match; [done|].
      pose proof (armed_on (GetProcessContext (wp_pid p1)) p1) as H2.
      destruct (on_backend (GetProcessContext _) p1) as [[ctx|e] p2]; [|exact H2]. cbn [snd] in H2. rewrite <- H2.
      split_goal_match; [done|]. apply armed_on.
    + unfold denied_or. pose proof (armed_win GetLastError p1). by destruct (win GetLastError p1).
Qed.

(** [C9] A write to a process is one shot, and leaves nothing open.  Without the arm it
    touches neither Windows nor the driver; with it, the arm is gone whatever happens, and
    success means that the data was handed over whole by the way that reports it and that
    the driver's write gate, if there is a driver, is closed again. *)
Theorem win32_write_one_shot address data p :
  let '(r, p') := Win32_Write address data p in
  (writes_armed p = false → p' = p ∧ Ok r = false) ∧
  writes_armed p' = false ∧
  (Ok r = true → gate_closed p').
Proof.
  unfold Win32_Write. destruct (writes_armed p) eqn:Ew; cbn [negb]; [|by repeat split].
  pose proof (armed_unlocked address data (p <| writes_armed := false |>)) as H1.
  destruct (write_unlocked address data _) as [out p1]. pose proof (armed_finish out p1) as H2.
  assert (∀ r p', finish_write out p1 = (r, p') → Ok r = true → gate_closed p') as H3.
  { intros r p' E Hr. unfold finish_write in E. pose proof (close_gate p1) as Hc.
    destruct (close_backend_gate p1) as [[[]|e] p2]; injection E as <- <-; [by apply Hc|done]. }
  destruct (finish_write out p1) as [r p']. cbn [snd] in *. split; [done|]. split; [by rewrite H2, H1|]. by apply H3.
Qed.
End Gate.

(** ** The memory map *)

(** What every address of a process is: its state, protection and type. *)
Class MemoryMap (V : Type) `{!Host ProcessCall process_reply V} := {
  page_attributes : V → Z → Z → option (Z * Z * Z);
  native_limits v : let '(lowest, highest) := (host GetNativeSystemInfo v).1 in
    0 ≤ lowest ∧ lowest `mod` 4096 = 0 ∧ highest ≤ u64_max;
  query_true h a v m : (host (VirtualQueryEx h a) v).1 = Some m →
    mi_base m = a - a `mod` 4096 ∧ 0 < mi_size m ∧ mi_size m `mod` 4096 = 0 ∧ mi_base m + mi_size m ≤ u64_max ∧
    ∀ x, mi_base m ≤ x < mi_base m + mi_size m → page_attributes v h x = Some (mi_state m, mi_protect m, mi_type m);
  query_fails h a v : (host (VirtualQueryEx h a) v).1 = None → page_attributes v h a = None;
  map_kept c v h a : (match c with VirtualQueryEx _ _ | GetMappedFileName _ _ | GetNativeSystemInfo => true | _ => false end) = true →
    page_attributes (host c v).2 h a = page_attributes v h a
}.

Section Regions.
Context {V B : Type} `{Map : MemoryMap V} `{Text : LossyText} `{Sort : StdSort} `{Backend : IMemoryBackend B}.
Implicit Types p : Win32ProcessMemory V B.

(** Regions that follow each other from one address to another. *)
Fixpoint tiles (lo : Z) (rs : list MemoryRegion) (hi : Z) : Prop :=
  match rs with [] => lo = hi | r :: rs => region_base r = lo ∧ 0 < region_size r ∧ tiles (lo + region_size r) rs hi end.
Lemma tiles_snoc lo rs mid r hi :
  tiles lo rs mid → region_base r = mid → 0 < region_size r → hi = mid + region_size r → tiles lo (rs ++ [r]) hi.
Proof.
  revert lo. induction rs as [|x rs IH]; intros lo; cbn.
  - intros -> -> Hs ->. by split.
  - intros (E & Hx & Ht) Hr Hs Hh. split; [done|]. split; [done|]. by apply IH.
Qed.

(** The region says of each of its addresses what the process has there, and its flags
    follow from that. *)
Definition region_true (attributes : Z → option (Z * Z * Z)) (r : MemoryRegion) : Prop :=
  (∀ x, region_base r ≤ x < region_base r + region_size r →
    attributes x = Some (region_state r, region_protection r, region_type r)) ∧
  ∃ m, (region_base r, region_size r, region_state r, region_protection r, region_type r) =
       (mi_base m, mi_size m, mi_state m, mi_protect m, mi_type m) ∧
    (region_committed r, region_readable r, region_writable r, region_executable r, region_guard r, region_copy_on_write r) =
    (region_committed (region_of m), region_readable (region_of m), region_writable (region_of m),
     region_executable (region_of m), region_guard (region_of m), region_copy_on_write (region_of m)).

Definition map_of p : Z → option (Z * Z * Z) := page_attributes (windows p) (process p).
Definition same_map p p' : Prop := process p' = process p ∧ ∀ a, map_of p' a = map_of p a.

Lemma same_map_win c p :
  (match c with VirtualQueryEx _ _ | GetMappedFileName _ _ | GetNativeSystemInfo => true | _ => false end) = true →
  same_map p (win c p).2.
Proof.
  intros Hc. unfold win. pose proof (λ a, map_kept c (windows p) (process p) a Hc) as Hm.
  destruct (host c (windows p)) as [r v]. cbn [snd] in Hm. split; [done|]. exact Hm.
Qed.
Lemma same_map_trans p1 p2 p3 : same_map p1 p2 → same_map p2 p3 → same_map p1 p3.
Proof. intros [E1 M1] [E2 M2]. split; [congruence|]. intros a. by rewrite M2, M1. Qed.

Lemma name_region_true m p (attributes : Z → option (Z * Z * Z)) :
  (∀ x, mi_base m ≤ x < mi_base m + mi_size m → attributes x = Some (mi_state m, mi_protect m, mi_type m)) →
  region_true attributes (name_region m p).1 ∧ same_map p (name_region m p).2 ∧
  region_base (name_region m p).1 = mi_base m ∧ region_size (name_region m p).1 = mi_size m.
Proof.
  intros Hm. unfold name_region. cbv zeta. destruct (_ && _).
  - pose proof (same_map_win (GetMappedFileName (process p) (mi_base m)) p eq_refl) as Hs.
    destruct (win (GetMappedFileName _ _) p) as [mapped p1]. cbn [snd] in Hs. repeat split; try done; try apply Hs. by exists m.
  - repeat split; try done. by exists m.
Qed.

(** What holds when the loop is at an address. *)
Definition listed p0 (lowest : Z) (s : Z * list MemoryRegion * Win32ProcessMemory V B) : Prop :=
  let '(address, output, p) := s in
  same_map p0 p ∧ tiles lowest output address ∧ Forall (region_true (map_of p0)) output ∧
  0 ≤ address ∧ address `mod` 4096 = 0.
Definition listed_all p0 (lowest highest : Z) (r : list MemoryRegion * Win32ProcessMemory V B) : Prop :=
  same_map p0 r.2 ∧ Forall (region_true (map_of p0)) r.1 ∧
  ∃ last, tiles lowest r.1 last ∧ (highest < last ∨ map_of p0 last = None).

Lemma region_round_listed p0 lowest highest s :
  listed p0 lowest s →
  match region_round highest s with
  | inl s' => listed p0 lowest s' ∧ s.1.1 < s'.1.1 ∧ s.1.1 ≤ highest
  | inr r => listed_all p0 lowest highest r
  end.
Proof.
  destruct s as [[address output] p]. intros (Hs & Ht & Hf & Ha & Hm). unfold region_round.
  destruct (Z.ltb_spec highest address) as [Hh|Hh]; [split; [done|]; split; [done|]; exists address; by split; [|left]|].
  pose proof (same_map_win (VirtualQueryEx (process p) address) p eq_refl) as H1.
  pose proof (query_true (process p) address (windows p)) as Hq. pose proof (query_fails (process p) address (windows p)) as Hn.
  unfold win in *. destruct (host (VirtualQueryEx (process p) address) (windows p)) as [[m|] v]; cbn [fst snd] in *.
  2:{ assert (same_map p0 (p <| windows := v |>)) as H2 by (by eapply same_map_trans).
      split; [done|]. split; [done|]. exists address. split; [done|]. right. destruct Hs as [_ Hs]. rewrite <- Hs. by apply Hn. }
  destruct (Hq m eq_refl) as (Eb & Hsz & Hal & Hmax & Hattr). rewrite Hm, Z.sub_0_r in Eb.
  pose proof (name_region_true m (p <| windows := v |>) (map_of p0)) as Hr.
  destruct (name_region m (p <| windows := v |>)) as [r p2]. cbn [fst snd] in Hr.
  destruct Hr as (R1 & R2 & R3 & R4).
  { intros x Hx. destruct Hs as [_ Hs]. rewrite <- Hs. by apply Hattr. }
  cbv zeta. rewrite u64_id by (unfold is_u64; lia). destruct (Z.leb_spec (mi_base m + mi_size m) address); [lia|].
  cbn [fst]. split; [|lia]. split; [by do 2 (eapply same_map_trans; [eassumption|])|].
  split; [eapply tiles_snoc; [exact Ht|lia|lia|lia]|]. split; [by apply Forall_app_2; [|constructor]|].
  split; [lia|]. rewrite Eb. rewrite Z.add_mod, Hm, Hal by lia. done.
Qed.

(** [C13] The list of regions is the memory map of the process.  Enumeration always ends
    with a list, whose regions follow each other from the lowest address without a gap,
    each true of every address in it, up to beyond the highest address or to one the
    system knows nothing about. *)
Theorem regions_exact p :
  process p ≠ 0 →
  let '(lowest, highest) := (host GetNativeSystemInfo (windows p)).1 in
  ∃ output p' last, Win32_Regions p = (Success output, p') ∧ tiles lowest output last ∧
    Forall (region_true (map_of p)) output ∧ (highest < last ∨ map_of p last = None).
Proof.
  intros Hz. unfold Win32_Regions. cbv zeta. rewrite (proj2 (Z.eqb_neq _ _) Hz).
  pose proof (native_limits (windows p)) as Hl. pose proof (same_map_win GetNativeSystemInfo p eq_refl) as Hs. unfold win in *.
  destruct (host GetNativeSystemInfo (windows p)) as [[lowest highest] v]. cbn [fst snd] in *. destruct Hl as (L0 & L1 & L2).
  set (p1 := p <| windows := v |>) in *.
  assert (listed p lowest (lowest, [], p1)) as H0 by (split; [exact Hs|split; [done|split; [constructor|by split]]]).
  destruct (rounds_enough (listed p lowest) (λ s, Z.max 0 (highest + 1 - s.1.1)) 65 (region_round highest) (lowest, [], p1)) as [[output p'] E].
  - intros s Hls. pose proof (region_round_listed p lowest highest s Hls) as Hr.
    destruct (region_round highest s) as [s'|]; [|done]. destruct Hr as (Hr & H1 & H2). split; [done|lia].
  - done.
  - cbn [fst]. change (2 ^ Z.of_nat 65) with 36893488147419103232. lia.
  - pose proof (rounds_keeps (listed p lowest) (listed_all p lowest highest) 65 (region_round highest) (lowest, [], p1)) as Hk.
    rewrite E in Hk |- *. destruct Hk as (_ & Hf & last & Ht & Hl).
    + intros s Hls. pose proof (region_round_listed p lowest highest s Hls) as Hr. by destruct (region_round highest s); [destruct Hr|].
    + done.
    + by exists output, p', last.
Qed.
End Regions.

(** ** The process catalog *)

Section Catalog.
Context {V : Type} `{!Host ProcessCall process_reply V} `{Text : LossyText} `{Sort : StdSort}.
Abbreviation Log := (Logged ProcessCall process_reply V).
Abbreviation event := {c : ProcessCall & process_reply c}.
Implicit Types l : Log.

Definition ev (c : ProcessCall) (r : process_reply c) : event := existT c r.
Definition opened_by (e : event) : list Z :=
  match e with existT c r =>
    match c return process_reply c → list Z with
    | OpenProcess _ _ | CreateProcessSnapshot | CreateModuleSnapshot _ => λ r, match r with Some h => [h] | None => [] end
    | _ => λ _, []
    end r
  end.
Definition closed_by (e : event) : list Z := match projT1 e with CloseHandle h => [h] | _ => [] end.
(** The processes the snapshot reported. *)
Definition reported_by (e : event) : list ProcessEntry :=
  match e with existT c r =>
    match c return process_reply c → list ProcessEntry with
    | Process32First _ | Process32Next _ => λ r, match r with Some entry => [entry] | None => [] end
    | _ => λ _, []
    end r
  end.
Definition of_log {T} (f : event → list T) (l : Log) : list T := lg_calls l ≫= f.
Definition entry_of (info : ProcessInfo) : Z * Z * string := (info_pid info, info_parent_pid info, info_name info).
Definition entry_fields (e : ProcessEntry) : Z * Z * string := (pe_pid e, pe_parent e, WideToUtf8 (pe_exe e)).

(** The handles in [held] are open, and no others; so many entries were reported. *)
Record listing (held : list Z) (entries : list (Z * Z * string)) l : Prop := {
  li_handles : of_log opened_by l ≡ₚ held ++ of_log closed_by l;
  li_entries : entry_fields <$> of_log reported_by l ≡ₚ entries
}.
Lemma of_log_step {T} (f : event → list T) c l :
  of_log f (host c l).2 = f (ev c (host c l).1) ++ of_log f l.
Proof. by rewrite host_logged. Qed.
Definition closes (c : ProcessCall) : bool := match c with CloseHandle _ => true | _ => false end.
Lemma listing_call held entries c l :
  closes c = false → listing held entries l →
  listing (opened_by (ev c (host c l).1) ++ held)
    (entries ++ (entry_fields <$> reported_by (ev c (host c l).1))) (host c l).2.
Proof.
  intros Hc [Hh He]. split; rewrite !of_log_step.
  - assert (closed_by (ev c (host c l).1) = []) as -> by (by destruct c). by rewrite Hh, <- app_assoc.
  - rewrite fmap_app, He. apply Permutation_app_comm.
Qed.
(** A call that opens and reports nothing. *)
Definition plain (c : ProcessCall) : bool :=
  match c with
  | OpenProcess _ _ | CreateProcessSnapshot | CreateModuleSnapshot _ | CloseHandle _ | Process32First _ | Process32Next _ => false
  | _ => true
  end.
Lemma listing_plain held entries c l : plain c = true → listing held entries l → listing held entries (host c l).2.
Proof.
  intros Hc Hl. pose proof (listing_call held entries c l ltac:(by destruct c) Hl) as H1.
  assert (opened_by (ev c (host c l).1) = []) as E1 by (by destruct c).
  assert (reported_by (ev c (host c l).1) = []) as E2 by (by destruct c).
  rewrite E1, E2, fmap_nil, app_nil_r in H1. exact H1.
Qed.
Lemma listing_close held entries h l : listing (h :: held) entries l → listing held entries (host (CloseHandle h) l).2.
Proof.
  intros [Hh He]. split; rewrite !of_log_step; [|exact He]. cbn. rewrite Hh. apply Permutation_middle.
Qed.
(** Opening the process for a question, and closing it. *)
Lemma listing_open held entries access pid l :
  listing held entries l →
  match host (OpenProcess access pid) l with
  | (Some h, l') => listing (h :: held) entries l'
  | (None, l') => listing held entries l'
  end.
Proof.
  intros Hl. pose proof (listing_call held entries (OpenProcess access pid) l eq_refl Hl) as H1. cbn in H1. rewrite app_nil_r in H1.
  by destruct (host (OpenProcess access pid) l) as [[h|] l'].
Qed.

Lemma listing_path held entries pid l : listing held entries l → listing held entries (QueryPath pid l).2.
Proof.
  intros Hl. unfold QueryPath. pose proof (listing_open held entries PROCESS_QUERY_LIMITED_INFORMATION pid l Hl) as H1.
  destruct (host (OpenProcess _ _) l) as [[h|] l1]; [|done].
  pose proof (listing_plain _ entries (QueryFullProcessImageName h) l1 eq_refl H1) as H2.
  destruct (host (QueryFullProcessImageName h) l1) as [path l2]. cbn [snd] in H2. apply listing_close in H2.
  by destruct (host (CloseHandle h) l2).
Qed.
Lemma listing_bits held entries pid l : listing held entries l → listing held entries (Is64Bit pid l).2.
Proof.
  intros Hl. unfold Is64Bit. pose proof (listing_open held entries PROCESS_QUERY_LIMITED_INFORMATION pid l Hl) as H1.
  destruct (host (OpenProcess _ _) l) as [[h|] l1]; [|done].
  pose proof (listing_plain _ entries FindIsWow64Process2 l1 eq_refl H1) as H2.
  destruct (host FindIsWow64Process2 l1) as [found l2]. cbn [snd] in H2.
  pose proof (listing_plain _ entries (IsWow64Process2 h) l2 eq_refl H2) as Ha.
  pose proof (listing_plain _ entries (IsWow64Process h) l2 eq_refl H2) as Hb.
  destruct found;
    [destruct (host (IsWow64Process2 h) l2) as [r l3]; cbn [snd] in Ha; apply listing_close in Ha
    |destruct (host (IsWow64Process h) l2) as [r l3]; cbn [snd] in Hb; apply listing_close in Hb];
    by destruct (host (CloseHandle h) l3).
Qed.
Lemma listing_describe held entries e l :
  listing held entries l →
  listing held entries (describe_process e l).2 ∧ entry_of (describe_process e l).1 = entry_fields e.
Proof.
  intros Hl. unfold describe_process. pose proof (listing_path held entries (pe_pid e) l Hl) as H1.
  destruct (QueryPath (pe_pid e) l) as [path l1]. pose proof (listing_bits held entries (pe_pid e) l1 H1) as H2.
  by destruct (Is64Bit (pe_pid e) l1) as [b l2].
Qed.
(** The loop over the entries. *)
Lemma process_round_described held snapshot e output l :
  listing held ((entry_of <$> output) ++ [entry_fields e]) l →
  match process_round snapshot (e, output, l) with
  | inl (e', output', l') => listing held ((entry_of <$> output') ++ [entry_fields e']) l'
  | inr (output', l') => listing held (entry_of <$> output') l'
  end.
Proof.
  intros Hl. unfold process_round. destruct (listing_describe held _ e l Hl) as [H1 E1].
  destruct (describe_process e l) as [info l1]. cbn [fst snd] in *. cbv zeta.
  pose proof (listing_call held _ (Process32Next snapshot) l1 eq_refl H1) as H2.
  assert ((entry_of <$> output ++ [info]) = (entry_of <$> output) ++ [entry_fields e]) as Eo by (rewrite fmap_app; cbn; by rewrite E1).
  destruct (host (Process32Next snapshot) l1) as [[e2|] l2]; cbn [fst snd] in H2; rewrite Eo; [exact H2|].
  cbn in H2. by rewrite app_nil_r in H2.
Qed.
Lemma list_processes_described held snapshot l :
  listing held [] l →
  match list_processes snapshot l with
  | (Some output, l') => listing held (entry_of <$> output) l'
  | (None, l') => ∃ entries, listing held entries l'
  end.
Proof.
  intros Hl. unfold list_processes. pose proof (listing_call held _ (Process32First snapshot) l eq_refl Hl) as H1.
  destruct (host (Process32First snapshot) l) as [[e|] l1]; cbn [fst snd] in H1; [|exact H1].
  pose proof (rounds_keeps (λ s : ProcessEntry * list ProcessInfo * Log, listing held ((entry_of <$> s.1.2) ++ [entry_fields s.1.1]) s.2)
    (λ r, listing held (entry_of <$> r.1) r.2) 64 (process_round snapshot) (e, [], l1)) as Hr.
  destruct (rounds 64 (process_round snapshot) (e, [], l1)) as [[[e2 output] l2]|[output l2]].
  - eexists. apply Hr; [|exact H1]. intros [[e0 out] l0] H0. pose proof (process_round_described held snapshot e0 out l0 H0) as Hs.
    by destruct (process_round snapshot (e0, out, l0)) as [[[? ?] ?]|[? ?]].
  - apply Hr; [|exact H1]. intros [[e0 out] l0] H0. pose proof (process_round_described held snapshot e0 out l0 H0) as Hs.
    by destruct (process_round snapshot (e0, out, l0)) as [[[? ?] ?]|[? ?]].
Qed.

Lemma string_lt_iff a b : String.ltb a b = true ↔ String.compare a b = Lt.
Proof. unfold String.ltb. by destruct (String.compare a b). Qed.
Lemma string_lt_asym a b : String.ltb a b = true → String.ltb b a = false.
Proof. unfold String.ltb. rewrite (String.compare_antisym a b). by destruct (String.compare b a). Qed.
Lemma string_lt_total a b : a ≠ b → String.ltb a b = false → String.ltb b a = true.
Proof.
  unfold String.ltb. intros Hne. rewrite (String.compare_antisym b a). destruct (String.compare a b) eqn:E; cbn; try done.
  by apply String.compare_eq_iff in E.
Qed.
Lemma process_lt_asym x y : process_lt x y = true → process_lt y x = false.
Proof.
  unfold process_lt. destruct (decide (info_name x = info_name y)) as [E|E].
  - rewrite !bool_decide_true by congruence. cbn. intros. boolify. lia.
  - rewrite !bool_decide_false by congruence. apply string_lt_asym.
Qed.
Lemma process_lt_negtrans x y z : process_lt y x = false → process_lt z y = false → process_lt z x = false.
Proof.
  unfold process_lt. intros Hyx Hzy.
  destruct (decide (info_name y = info_name x)) as [E1|E1], (decide (info_name z = info_name y)) as [E2|E2].
  - rewrite !bool_decide_true in * by congruence. cbn in *. boolify. lia.
  - rewrite bool_decide_true in Hyx by congruence. rewrite !bool_decide_false in * by congruence. by rewrite <- E1.
  - rewrite (bool_decide_true (info_name z = info_name y)) in Hzy by congruence.
    rewrite !bool_decide_false in * by congruence. by rewrite E2.
  - rewrite !bool_decide_false in Hyx, Hzy by done. cbn in *. apply string_lt_total in Hyx, Hzy; [|done..].
    apply string_lt_iff in Hyx, Hzy. pose proof (string_compare_trans _ _ _ Hyx Hzy) as Ht%string_lt_iff.
    rewrite bool_decide_false; [by apply string_lt_asym|]. intros E. rewrite E in Ht.
    by pose proof (string_lt_asym _ _ Ht) as Hf; rewrite Ht in Hf.
Qed.

(** The process catalog leaves nothing open and leaves nothing out.  Whatever the
    system answers, every handle that was opened on the way is closed; and a list that is
    returned has exactly the processes that the snapshot reported, in order. *)
Theorem process_catalog_exact v :
  let '(r, l) := Enumerate (mkLogged v []) in
  of_log opened_by l ≡ₚ of_log closed_by l ∧
  match r with
  | Success infos =>
      (entry_of <$> infos) ≡ₚ (entry_fields <$> of_log reported_by l) ∧
      StronglySorted (λ x y, process_lt y x = false) infos
  | Failure _ => True
  end.
Proof.
  unfold Enumerate. set (l0 := mkLogged v []). assert (listing [] [] l0) as H0 by done.
  assert (∀ entries l, listing [] entries l → of_log opened_by l ≡ₚ of_log closed_by l) as Hb by (intros ? ? []; done).
  pose proof (listing_call [] [] CreateProcessSnapshot l0 eq_refl H0) as H1.
  destruct (host CreateProcessSnapshot l0) as [[snapshot|] l1]; cbn [fst snd] in H1.
  2:{ pose proof (listing_plain _ _ GetLastError l1 eq_refl H1) as H2. destruct (host GetLastError l1). split; [by eapply Hb|done]. }
  pose proof (list_processes_described [snapshot] snapshot l1 H1) as H2.
  destruct (list_processes snapshot l1) as [listed l2].
  assert (∃ entries, listing [snapshot] entries l2 ∧ ∀ output, listed = Some output → entries = entry_of <$> output)
    as (entries & H3 & He) by (destruct listed; [by eexists; split; [exact H2|intros ? [= ->]]|destruct H2 as [es ?]; by exists es]).
  pose proof (listing_plain _ _ GetLastError l2 eq_refl H3) as H4. destruct (host GetLastError l2) as [last_error l3]. cbn [snd] in H4.
  pose proof (listing_close [] entries snapshot l3 H4) as H5. destruct (host (CloseHandle snapshot) l3) as [u l4]. cbn [snd] in H5.
  destruct listed as [output|]; [|by split; [eapply Hb|]]. destruct (_ && _); [by split; [eapply Hb|]|].
  split; [by eapply Hb|]. split.
  - rewrite (std_sort_perm _ process_lt output). destruct H5 as [_ ->]. by rewrite (He output eq_refl).
  - apply std_sort_sorted; [apply process_lt_asym|apply process_lt_negtrans].
Qed.
End Catalog.

(** ** A concrete machine

    Windows lets the process be opened and asked about, and refuses to read it; the mock
    backend stands for the driver. *)

(** How many handles were given out; all are to the process of the mock backend. *)
Definition DemoWindows : Type := Z.
Definition demo_end : Z := 0x7FFFFFFF0000.
Definition demo_information (a : Z) : option MemoryInformation :=
  let base := a - a `mod` 4096 in
  if a <? 0x10000 then None
  else if a <? 0x20000 then Some (mkMemoryInformation base (0x20000 - base) MEM_COMMIT PAGE_READWRITE 0x20000)
  else if a <? demo_end then Some (mkMemoryInformation base (demo_end - base) 0x10000 1 0)
  else None.
#[export] Instance demo_process_host : Host ProcessCall process_reply DemoWindows := λ c count,
  match c return process_reply c * DemoWindows with
  | OpenProcess _ pid => if pid =? kMockPid then (Some (Z.max 0 count + 1), Z.max 0 count + 1) else (None, count)
  | CloseHandle _ | FlushInstructionCache _ _ _ => (tt, count)
  | GetLastError => (ERROR_ACCESS_DENIED, count)
  | GetProcessTimes _ => (Some (7, 1), count)
  | GetProcessId _ => (kMockPid, count)
  | FindIsWow64Process2 => (true, count)
  | IsWow64Process2 _ => (Some (0, IMAGE_FILE_MACHINE_AMD64), count)
  | IsWow64Process _ => (None, count)
  | GetExitCodeProcess _ => (Some STILL_ACTIVE, count)
  | ReadProcessMemory _ _ _ | WriteProcessMemory _ _ _ => (None, count)
  | GetNativeSystemInfo => ((0x10000, demo_end - 1), count)
  | VirtualQueryEx _ a => (demo_information a, count)
  | GetMappedFileName _ _ => ([], count)
  | QueryFullProcessImageName _ => (None, count)
  | CreateModuleSnapshot _ | CreateProcessSnapshot => (None, count)
  | Module32First _ | Module32Next _ => (None, count)
  | Process32First _ | Process32Next _ => (None, count)
  end.

Definition demo_handle (count h : Z) : option unit := if (1 <=? h) && (h <=? count) then Some tt else None.
Definition demo_key (eprocess dtb : Z) : option unit :=
  if (eprocess =? 0xFFFF800000001337) && (dtb =? kBaseAddress) then Some tt else None.
Definition demo_process_memory (b : option MockMemoryBackend) (x : Z) : Z :=
  match b with Some b => mock_phys b (x - (kVirtualBase - kBaseAddress)) | None => 0 end.

Lemma demo_context pid b ctx :
  (Mock_GetProcessContext pid b).1 = Success ctx → demo_key (pc_eprocess ctx) (pc_directory_table_base ctx) = Some tt.
Proof. unfold Mock_GetProcessContext. destruct (negb (open_ b)); [done|]. destruct (negb _); [done|]. by intros [= <-]. Qed.
Lemma demo_driver_read pid a n b bytes :
  (Mock_ReadProcessVirtual pid a n b).1 = Success bytes → sizeZ bytes = n →
  mem_bytes (demo_process_memory (Some (Mock_ReadProcessVirtual pid a n b).2)) a n = bytes.
Proof.
  unfold Mock_ReadProcessVirtual. destruct (_ || _); [done|]. intros Hb Hn. unfold demo_process_memory.
  rewrite mem_bytes_shift. pose proof (read_page (B := MockMemoryBackend) (kBaseAddress + (a - kVirtualBase)) n b bytes) as Hr.
  cbn in Hr. destruct (Mock_ReadPhysical _ n b) as [r b']. cbn [fst snd] in *. subst r.
  rewrite <- (Hr b' eq_refl Hn). f_equal. lia.
Qed.

#[export] Instance demo_world : ProcessWorld DemoWindows MockMemoryBackend.
Proof.
  refine {| ProcessInstance := unit; process_number := λ _, kMockPid; handle_process := demo_handle;
            driver_process := demo_key; process_memory := λ _ b _, demo_process_memory b; one_machine := λ _ _, True |}; try done.
  - intros access pid count h. unfold host, demo_process_host. destruct (pid =? kMockPid); [|done]. intros [= <-].
    unfold demo_handle. cbn [snd]. split; [lia|]. rewrite (proj2 (Z.leb_gt _ count)) by lia. rewrite andb_false_r.
    split; [done|]. rewrite !(proj2 (Z.leb_le _ _)) by lia. by eexists.
  - intros c count h [] Hh Hc. unfold host, demo_process_host. destruct c; try done.
    destruct (pid =? kMockPid); [|done]. unfold demo_handle in *. cbn [snd].
    destruct (Z.leb_spec 1 h), (Z.leb_spec h count); try done. by rewrite (proj2 (Z.leb_le _ _)) by lia.
  - by intros count h [] h' [].
  - intros e count b [] x. cbn. unfold mock_phys. destruct (Mock_SetWriteEnabled e b) as [r b'] eqn:E.
    apply Mock_SetWriteEnabled_cases in E as [Hm _]. cbn. by rewrite Hm.
  - intros pid b ctx Hc. eexists. by eapply demo_context.
  - intros pid count b ctx h [] _ Hc _ _. by eapply demo_context.
  - intros pid a n count b ctx [] bytes _ _ Hb Hn. by apply demo_driver_read.
Defined.
#[export] Instance demo_map : MemoryMap DemoWindows.
Proof.
  refine {| page_attributes := λ _ _ a, (λ m, (mi_state m, mi_protect m, mi_type m)) <$> demo_information a |}; try done.
  - intros h a count m. unfold host, demo_process_host. cbn [fst]. unfold demo_information. cbv zeta.
    pose proof (Z.mod_pos_bound a 4096 ltac:(lia)) as Hb. pose proof (Z.div_mod a 4096 ltac:(lia)) as Hd.
    assert (∀ limit, limit `mod` 4096 = 0 → (limit - (a - a `mod` 4096)) `mod` 4096 = 0) as Hal.
    { intros limit Hl. rewrite Zminus_mod, Hl, (Zminus_mod a), Zmod_mod, Z.sub_diag. done. }
    destruct (Z.ltb_spec a 0x10000) as [|H1]; [done|].
    assert (0x10000 ≤ a - a `mod` 4096) as Hlow by (assert (16 ≤ a / 4096) by (apply Z.div_le_lower_bound; lia); lia).
    destruct (Z.ltb_spec a 0x20000) as [H2|H2]; [|destruct (Z.ltb_spec a demo_end) as [H3|]; [|done]]; intros [= <-]; cbn.
    + split_and!; [done|lia|by apply Hal|lia|]. intros x Hx.
      rewrite (proj2 (Z.ltb_ge _ _)), (proj2 (Z.ltb_lt _ _)) by lia. done.
    + assert (0x20000 ≤ a - a `mod` 4096) as Hlow2 by (assert (32 ≤ a / 4096) by (apply Z.div_le_lower_bound; lia); lia).
      unfold demo_end in *. split_and!; [done|lia|by apply Hal|lia|]. intros x Hx.
      rewrite (proj2 (Z.ltb_ge _ 0x10000)), (proj2 (Z.ltb_ge _ 0x20000)), (proj2 (Z.ltb_lt _ 0x7FFFFFFF0000)) by lia. done.
  - intros h a count. unfold host, demo_process_host. cbn [fst]. by intros ->.
Defined.
#[export] Instance demo_lossy : LossyText := {| WideCharToMultiByte w := None |}.

#[local] Instance demo_process_sort : StdSort :=
  {| std_sort := @insertion_sort; std_sort_perm := insertion_sort_perm; std_sort_sorted := insertion_sort_sorted |}.
Definition demo_driver_backend : MockMemoryBackend := (Mock_Open make_MockMemoryBackend).2.
Definition demo_process_object : Win32ProcessMemory DemoWindows MockMemoryBackend :=
  match Attach kMockPid (Some demo_driver_backend) (0 : DemoWindows) with inl p => p | inr (_, p) => p end.

Lemma demo_attached : attached demo_process_object.
Proof. split; [|done]. intros _. exists tt. split; [by vm_compute|]. split; [by vm_compute|]. intros _ _. by vm_compute. Qed.

Definition demo_attached_process : AttachedProcess (V := DemoWindows) (B := MockMemoryBackend) :=
  exist _ demo_process_object demo_attached.

Lemma regions_exact_witness :
  process demo_process_object ≠ 0 ∧
  ∃ output p' last, Win32_Regions demo_process_object = (Success output, p') ∧ tiles 0x10000 output last ∧
    Forall (region_true (map_of demo_process_object)) output.
Proof.
  assert (process demo_process_object ≠ 0) as Hz by by vm_compute. split; [exact Hz|].
  destruct (regions_exact demo_process_object Hz) as (output & p' & last & H1 & H2 & H3 & _).
  by exists output, p', last.
Defined.
Example demo_regions : (region_base <$> match (Win32_Regions demo_process_object).1 with Success l => l | Failure _ => [] end) = [0x10000; 0x20000].
Proof. by vm_compute. Qed.
Example demo_write :
  writes_armed (Win32_Write kVirtualBase [1; 2] (Win32_SetWritesArmed true demo_process_object).2).2 = false ∧
  (Win32_Write kVirtualBase [1; 2] (Win32_SetWritesArmed true demo_process_object).2).1 = Success 2.
Proof. split; by vm_compute. Qed.
